(* ===== verification/_CoqProject ===== *)
-Q . S2P
Prelude.v
CppString.v
RangeSet.v
IO.v
InMemory.v
Views.v
FileDesc.v
LazyFile.v
DiskImage.v
Gpt.v
ImageAggregator.v
Cpio.v
Flags.v
GflagsCompat.v
Fetch.v
Instances.v
DataViewer.v
InstanceDb.v
InstanceLock.v
InstanceManager.v
Selector.v
ModemCommand.v
ThreadLooper.v
PduParser.v
CallService.v
SmsService.v
SupService.v
DataService.v
MiscService.v
NetworkService.v
ChannelMonitor.v
Xml.v
SimService.v
SimStorage.v
StkService.v
ModemSimulator.v
Chroot.v
SharedBuf.v
Lz4.v
Transport.v
ProcessMonitor.v
Restarter.v
KernelLog.v
BootStateMachine.v
Features.v
Commands.v
Substitute.v
SuperImage.v
SecureEnv.v
InstanceNums.v
ServerLoop.v
Cvd.v
