(* ===== verification/Prelude.v ===== *)
(** * Cuttlefish host tools: a verification library (root file)

    Cuttlefish runs Android virtual devices on a host.  Its host tools keep a
    database of device groups, hand out instance ids under file locks, parse
    command lines, read device images through layered readers, start and watch
    the processes of a device, and simulate the parts of a phone, among them
    the modem.  This library models the core
    of that C++ code, all under src/base/cvd/cuttlefish, by Rocq functions and
    proves what makes each part correct.

    ** Parts and files

    Every file [X.v] has a module [X]; names are those of the source where Rocq
    allows it.  Each file requires only earlier ones.

    - [Prelude]: outcomes ([Result<T>], crashes), state passing, machine
      integers, byte buffers with [Z] counts, loops.  [CppString]: the parts of
      std::string used, and the class [Absl] for absl and fmt, which are not in
      the repository, with a reference instance.
    - io/: [RangeSet] (disjoint_range_set.cc and its serialization), [IO] (the
      Reader, Writer and Seeker interfaces as type classes with read(2),
      write(2) and lseek(2) as laws, and the helpers over them: ReadExact,
      Copy, FakePRead, ...), [InMemory] (in_memory.cc, an implementation of the
      interfaces), [Views] (fake_seek.cc, read_window_view.cc, concat.cc, read
      over any implementation), [LazyFile] (lazily_loaded_file.cc, a cache file
      over any source), [Cpio] (cpio.cc, archives read through them), [Chroot]
      (chroot.cc, any filesystem below a directory), [Lz4] (lz4_legacy.cc,
      compressed frames over any reader and writer).
    - common/libs/: [FileDesc] (fs/fd.cc, descriptors over a disk of files with
      the kernel's answers as an argument), [SharedBuf] (fs/shared_buf.cc, whole
      buffers over any reader or writer), [Transport] (transport/, messages).
    - host/libs/image_aggregator/: [DiskImage] (image types), [Gpt] (the GPT
      and MBR structures, their bytes and a reference reader) and
      [ImageAggregator] (building aggregated and composite disks).
    - flag_parser/: [Flags] (flag.cpp) and [GflagsCompat] (gflags_compat.cpp).
      [Fetch] (host/libs/web/android_build_string.cpp, host/commands/cvd/fetch):
      build strings and the flags of cvd fetch, on top of them.
    - host/commands/cvd/instances/: [Instances] (names, instances, groups),
      [DataViewer] (the locked database file), [InstanceDb] (the database, run
      through the viewer), [InstanceLock] (one lock file per id),
      [InstanceManager] (groups: locks, directories and database together).
      host/commands/cvd/cli/selector/: [Selector], on top of them.
      [InstanceNums] (host/libs/config/instance_nums.cpp, config_utils.cpp):
      the ids a tool works with, from its flags and its environment.
    - host/commands/cvd: [Cvd] (cvd.cpp, cli/: requests, selectors, the choice
      of a handler, and the handlers of remove, stop, clear, restart and
      powerwash, over the instance manager and the launcher protocol),
      [Substitute] (fetch/substitute.cc: links from a fetched host package to
      the installed one).
    - host/commands/modem_simulator/: [ModemCommand] (AT command parsing and
      the handler tables), [ThreadLooper] (timers), [PduParser], and the
      services [CallService], [SmsService], [SupService], [DataService],
      [MiscService] (identity and time), [NetworkService] (operators,
      registration, signal), [SimService] (the card: PINs, locks, files,
      channels; its document behind the class [Xml] of [Xml.v], which stands
      for tinyxml2 and has its laws and an instance) with [SimStorage] (saving
      and loading it), [StkService] (the menus of the card);
      [ChannelMonitor] reads the clients' sockets and hands complete commands
      to any modem, and [ModemSimulator] is that modem: all services, the
      dispatch over them and what they read of each other.

    - Running a device: [ProcessMonitor] (host/libs/process_monitor and
      process/subprocess.cc: the monitor's two threads over an interface of
      system calls, and its parent), [KernelLog] (host/commands/
      kernel_log_monitor: log lines become events on pipes), [BootStateMachine]
      (host/commands/run_cvd/boot_state_machine.cc, which reads them),
      [Restarter] (host/commands/process_restarter, over the flag parser and the
      same system calls), [Commands] (process/command.cc: what a command is
      built of, and what the program it starts inherits), [ServerLoop]
      (host/libs/command_util and host/commands/run_cvd/server_loop_impl*.cpp:
      the launcher protocol, its clients and the server behind it).
    - Assembling a device: [Features] (host/libs/feature: setup steps in the
      order of their dependencies), [SuperImage] (host/commands/assemble_cvd/
      super_image_mixer.cc, misc_info.cc, common/libs/key_equals_value: one
      device of a vendor and a system build).
    - host/commands/secure_env: [SecureEnv] (the storage interface as a class
      with laws and its two implementations, the OEM lock and its responder
      over [Transport], the failure records of the gatekeeper).

    ** How code is modelled

    A function that can fail returns [result]: a value, an error, or [Fatal]
    for what does not return in C++ (CHECK, an uncaught exception, undefined
    behaviour).  Operations on an object take and return its state, also when
    they fail ([M]).  Unsigned arithmetic wraps ([u32], [u64]); signed overflow
    is [Fatal].  A loop is [while_] with a bound above every 64-bit number, and
    its theorems show with [while_rule] that the bound is never reached; other
    fuel ([find_free], [gen_loop], [decode]) is the number of entries or bytes,
    which theorems show to be enough; the restarter's loop, which need not end,
    takes a number of runs that its theorem compares with those needed.  A visit of
    features has one level per feature, the creation of directories one per
    byte of the path, the search for a free rollback index one step per index in
    use; theorems show each to be enough.  Answers of the operating system (opening,
    locking, connecting, the clock) are arguments, one environment per step;
    what a service sends is appended to its output.  Uninitialised memory is an
    argument.  Methods under a mutex are atomic steps; where the code has no
    lock between two threads (the modem's looper and its channel) the model
    interleaves whole handlers; the timers of the services, which share one
    queue, are kept per service.  The threads of the boot state machine and of
    the process monitor are step relations; the latter's atomic flag is read
    and written in steps of their own.

    ** What is shown

    - Range sets: insertions keep sorted, separated ranges that cover exactly
      what was inserted; queries; serialization round trip.
    - Files: what writes, seeks and copies do byte by byte; the emulated pread
      is pread; concatenation and windows implement the reader laws again, so
      they compose; archives written in the newc format are read back, and
      parsing terminates on any input.
    - The lazily loaded file returns the bytes of its source whatever was
      cached before, also after it is closed and opened again, as long as the
      source does not give short reads.
    - Disks: an aggregated disk and the disk a composite file describes have
      two valid partition tables, and each entry's sectors hold its image.
    - Flags: [ConsumeFlags] refines a pass over the list; spellings; values
      printed by getters are read by setters.
    - Instances: the database invariant over all histories; unique ids and
      names; what creating and removing a group does to the database, the ids
      and the locks; selection only returns what was asked for.
    - Modem: the timer queue refines a map of pending callbacks; the table of
      calls keeps its invariant under all commands, messages and timers; a call
      and a short message go through between two devices; stored messages,
      forwarding, data contexts and preferred technologies read back; switching
      the radio on leads to registration; reported signal strengths are in
      range; how sockets cut the input does not change the commands.
    - The card: commands that do not contain the PIN or the PUK never unlock
      it, a blocked card stays blocked, counters and channels stay well formed;
      the right PIN brings the phone into the network and makes calls possible,
      without it there are emergency calls only; saving and restarting gives the
      same PINs and locks, a stored phone number is read back, an opened channel
      is closed again, menus are left the way they were entered.
    - The modem: but for three commands, the order in which the services are
      asked does not matter.
    - Fetching: build strings in the documented syntax are read as written, and
      every build on an accepted command line is that of its target.
    - What is compressed into frames is read back; the frame reader implements
      the reader laws.
    - A filesystem below a directory never touches a file outside it, whatever
      the path; nesting two is one below the joined path.
    - Running a device: messages arrive as sent, however the transfers are cut;
      the events of a log do not depend on how it is read, and the first that
      tells the end of the boot decides the exit code; every client is told
      once, under any interleaving; the process monitor leaves no process
      behind, and the end of a critical process reaches its parent as an error;
      the restarter runs the given command as often as it was told to.
    - The launcher: a request and its answer cross the socket, and the answer
      says whether the request was carried out; a snapshot is only taken
      between a suspend that succeeded and the next resume; a device that is
      off stays off; what a restart reports is what the device reported.
    - The command line: exactly one handler serves a command; asking for help
      changes nothing; a running group that cannot be stopped is not removed;
      selectors never reach the subcommand.  The two computations of instance
      ids in the code agree, and ids written on a command line are those used.
    - A command passes on the descriptors it was given and no others, under the
      numbers it printed in its arguments, and closes what it opened.
    - Setup steps run once each, after their dependencies, or the visit names
      an obstacle; every value a step needs has been computed.
    - A substitution is atomic, leaves a link or what was there, and is done
      only once; merged builds have distinct rollback indices in their system
      part and take each image from the right archive; key=value files read
      back.
    - The OEM lock is three flags behind a storage, whichever it is; a failure
      record is what was last written for its user.
    - Several theorems show where the code does not do what it says (a lost
      update under the database lock, a stale call timer, a crash on a
      malformed command or archive, checks that never fire, a stop reported as
      failed, a resume that does nothing, keys that share a TPM handle).

    ** Not modelled

    Code that is mostly system calls, sockets, processes or third-party
    interfaces: native_filesystem.cc, the methods of LocalInstance that talk to
    a device beyond the launcher protocol, Reset() of the instance manager,
    menu and help texts, HTTP fetching and its caches, the assembly of the
    configuration (flags to JSON), daemonising, the rest of the configuration's
    getters, key management and signatures of the secure environment, the other
    subcommands of cvd and the other daemons (WebRTC, sensors, metrics, the
    guest's HALs).  The programs that are called (crosvm, adb, avbtool, stop_cvd)
    and the libraries (absl, fmt, protobuf, jsoncpp, libsparse, zlib, tinyxml2,
    the TPM stack) are parameters with their documented behaviour as laws. *)

From Stdlib Require Export ZArith Lia Ascii String Sorting.Sorted.
From stdpp Require Export base gmap strings list.
#[export] Set Warnings "-clear-no-such-hyp".
Global Open Scope Z_scope.

(** ** Outcomes

    [Result<T>] of cuttlefish/result carries a value or an error.  The model
    adds what C++ leaves implicit: [Fatal] is a run that does not return (a
    failed CHECK, LOG(FATAL), an exception nobody catches, undefined
    behaviour), and [Fuel] is the model's own marker for an exhausted loop
    bound; theorems about loops show it does not occur. *)
Inductive result (A : Type) : Type :=
| Ok (a : A)
| Err (msg : string)
| Fatal (why : string)
| Fuel.
Arguments Ok {A} a.
Arguments Err {A} msg.
Arguments Fatal {A} why.
Arguments Fuel {A}.

Definition rbind {A B} (r : result A) (k : A -> result B) : result B :=
  match r with
  | Ok a => k a
  | Err m => Err m
  | Fatal w => Fatal w
  | Fuel => Fuel
  end.

Definition is_ok {A} (r : result A) : bool :=
  match r with Ok _ => true | _ => false end.

(** The failure of one type as a failure of another; only used on failures. *)
Definition fail_as {A B} (r : result A) : result B :=
  match r with
  | Ok _ => Fatal "not a failure"
  | Err m => Err m
  | Fatal w => Fatal w
  | Fuel => Fuel
  end.

(** [CF_EXPECT(cond, msg)] on a boolean condition, and [CHECK(cond)]. *)
Definition expect (b : bool) (msg : string) : result unit :=
  if b then Ok tt else Err msg.
Definition check (b : bool) (why : string) : result unit :=
  if b then Ok tt else Fatal why.

(** State passing: an operation on a shared object returns its outcome and the
    state it leaves behind, also when it fails. *)
Definition M (S A : Type) : Type := S -> result A * S.

Definition mret {S A} (a : A) : M S A := fun s => (Ok a, s).
Definition mbind {S A B} (m : M S A) (k : A -> M S B) : M S B := fun s =>
  match m s with
  | (Ok a, s') => k a s'
  | (Err e, s') => (Err e, s')
  | (Fatal w, s') => (Fatal w, s')
  | (Fuel, s') => (Fuel, s')
  end.
Definition lift {S A} (r : result A) : M S A := fun s => (r, s).
Definition get {S} : M S S := fun s => (Ok s, s).
Definition put {S} (s : S) : M S unit := fun _ => (Ok tt, s).
Definition modify {S} (f : S -> S) : M S unit := fun s => (Ok tt, f s).
(** [Result<T> res = m;] without CF_EXPECT: an error becomes a value. *)
Definition attempt {S A} (m : M S A) : M S (option A) := fun s =>
  match m s with
  | (Ok a, s') => (Ok (Some a), s')
  | (Err _, s') => (Ok None, s')
  | (Fatal w, s') => (Fatal w, s')
  | (Fuel, s') => (Fuel, s')
  end.

Declare Scope cf_scope.
Delimit Scope cf_scope with cf.
Notation "'let*' x := e 'in' k" := (rbind e (fun x => k))
  (at level 10, x pattern, e at level 200, k at level 200) : cf_scope.
Notation "'let!' x := e 'in' k" := (mbind e (fun x => k))
  (at level 10, x pattern, e at level 200, k at level 200) : cf_scope.
Global Open Scope cf_scope.

Section result_lemmas.
Context {A B : Type}.
Implicit Types (r : result A) (k : A -> result B).

Lemma rbind_ok r k b :
  rbind r k = Ok b <-> exists a, r = Ok a /\ k a = Ok b.
Proof. destruct r; simpl; naive_solver. Qed.

Lemma expect_ok b m u : expect b m = Ok u <-> b = true.
Proof. destruct b, u; simpl; naive_solver. Qed.

Lemma check_ok b m u : check b m = Ok u <-> b = true.
Proof. destruct b, u; simpl; naive_solver. Qed.

Lemma rbind_expect_ok (b : bool) m (k : unit -> result B) x :
  rbind (expect b m) k = Ok x <-> b = true /\ k tt = Ok x.
Proof. destruct b; simpl; naive_solver. Qed.

Lemma is_ok_spec r : is_ok r = true <-> exists a, r = Ok a.
Proof. destruct r; simpl; naive_solver. Qed.
End result_lemmas.

Lemma mbind_ok {S A B} (m : M S A) (k : A -> M S B) s b s' :
  mbind m k s = (Ok b, s') <-> exists a s1, m s = (Ok a, s1) /\ k a s1 = (Ok b, s').
Proof. unfold mbind. destruct (m s) as [[] ?]; naive_solver. Qed.

Lemma mbind_run {S A B} (m : M S A) (c : A -> M S B) st r st' :
  m st = (r, st') -> mbind m c st = match r with Ok a => c a st' | fl => (fail_as fl, st') end.
Proof. intros E. unfold mbind. rewrite E. by destruct r. Qed.

Lemma mbind_assoc {S A B C} (m : M S A) (c : A -> M S B) (e : B -> M S C) st :
  mbind (mbind m c) e st = mbind m (fun a => mbind (c a) e) st.
Proof. unfold mbind. by destruct (m st) as [[] ?]. Qed.

(** [for (x : l) CF_EXPECT(f(x));] *)
Fixpoint for_each {S A} (f : A -> M S unit) (l : list A) : M S unit :=
  match l with
  | [] => mret tt
  | x :: l => let! _ := f x in for_each f l
  end.

Lemma for_each_app {S A} (f : A -> M S unit) l k s :
  for_each f (l ++ k) s = mbind (for_each f l) (fun _ => for_each f k) s.
Proof.
  revert s. induction l as [|x l IH]; intros s; [done|]. cbn [for_each app].
  rewrite mbind_assoc. unfold mbind at 1 2. destruct (f x s) as [[[]| | |] s']; auto.
Qed.

Lemma for_each_ok {S A} (f : A -> M S unit) (I : list A -> S -> Prop) l s :
  (forall done x k s, l = done ++ x :: k -> I done s -> exists s', f x s = (Ok tt, s') /\ I (done ++ [x]) s') ->
  I [] s -> exists s', for_each f l s = (Ok tt, s') /\ I l s'.
Proof.
  intros Hf. cut (forall k done s, l = done ++ k -> I done s -> exists s', for_each f k s = (Ok tt, s') /\ I l s').
  { intros Hc Hi. by apply (Hc l []). }
  induction k as [|x k IH]; intros done s0 El Hi; cbn [for_each].
  - exists s0. rewrite app_nil_r in El. by subst.
  - destruct (Hf done x k s0 El Hi) as (s1 & E1 & H1). unfold mbind. rewrite E1.
    apply (IH (done ++ [x])); [by rewrite <-app_assoc|done].
Qed.

Lemma fmap_eq_Forall2 {A B C} (f : A -> C) (g : B -> C) l k :
  f <$> l = g <$> k -> Forall2 (fun x y => f x = g y) l k.
Proof.
  revert k. induction l as [|x l IH]; intros [|y k]; try done.
  intros [= H1 H2]. constructor; [done|]. by apply IH.
Qed.

Lemma filter_none {A} (P : A -> Prop) `{forall x, Decision (P x)} (l : list A) :
  (forall x, x ∈ l -> ~ P x) -> base.filter P l = [].
Proof.
  intros Hl. destruct (base.filter P l) as [|x k] eqn:E; [done|].
  assert (x ∈ base.filter P l) as [HP Hx]%list_elem_of_filter by (rewrite E; left).
  by destruct (Hl x Hx).
Qed.

Lemma filter_every {A} (P : A -> Prop) `{forall x, Decision (P x)} (l : list A) :
  (forall x, x ∈ l -> P x) -> base.filter P l = l.
Proof.
  induction l as [|x l IH]; intros Hl; [done|]. rewrite filter_cons_True by (apply Hl; left).
  f_equal. apply IH. intros y Hy. apply Hl. by right.
Qed.

Lemma sublist_StronglySorted {A} (R : A -> A -> Prop) (k l : list A) :
  sublist k l -> StronglySorted R l -> StronglySorted R k.
Proof.
  induction 1 as [|x k l Hsub IH|x k l Hsub IH]; [done| |].
  - intros [Hs Hx]%StronglySorted_inv. constructor; [auto|].
    rewrite Forall_forall in *. intros y Hy. apply Hx. by eapply sublist_subseteq.
  - intros [Hs _]%StronglySorted_inv. auto.
Qed.

(** ** Machine integers

    Unsigned arithmetic wraps; signed overflow is undefined, hence [Fatal]. *)
Definition u16 (z : Z) : Z := z mod 2 ^ 16.
Definition u32 (z : Z) : Z := z mod 2 ^ 32.
Definition u64 (z : Z) : Z := z mod 2 ^ 64.
Definition in_i32 (z : Z) : bool := (- 2 ^ 31 <=? z) && (z <? 2 ^ 31).
Definition in_i64 (z : Z) : bool := (- 2 ^ 63 <=? z) && (z <? 2 ^ 63).
(** [static_cast<int64_t>] and [static_cast<int32_t>] of an integer. *)
Definition as_i64 (z : Z) : Z := (z + 2 ^ 63) mod 2 ^ 64 - 2 ^ 63.
Definition as_i32 (z : Z) : Z := (z + 2 ^ 31) mod 2 ^ 32 - 2 ^ 31.
Definition add_i64 (a b : Z) : result Z :=
  if in_i64 (a + b) then Ok (a + b) else Fatal "signed overflow".

Definition is_u64 (z : Z) : Prop := 0 <= z < 2 ^ 64.
Definition is_u32 (z : Z) : Prop := 0 <= z < 2 ^ 32.

Lemma u64_id z : is_u64 z -> u64 z = z.
Proof. unfold u64, is_u64. intros. by apply Z.mod_small. Qed.
Lemma u32_id z : is_u32 z -> u32 z = z.
Proof. unfold u32, is_u32. intros. by apply Z.mod_small. Qed.
Lemma u64_range z : is_u64 (u64 z).
Proof. unfold u64, is_u64. apply Z.mod_pos_bound. lia. Qed.
Lemma u32_range z : is_u32 (u32 z).
Proof. unfold u32, is_u32. apply Z.mod_pos_bound. lia. Qed.
Lemma as_i64_id z : - 2 ^ 63 <= z < 2 ^ 63 -> as_i64 z = z.
Proof. unfold as_i64. intros. rewrite Z.mod_small; lia. Qed.

(** ** Buffers

    [char] buffers and strings are lists of bytes.  Counts and offsets are
    machine integers, so the list functions take [Z] and recurse on the list:
    they evaluate whatever the count is. *)
Abbreviation bytes := (list ascii).
(** Maps with string keys, with their instances fixed. *)
Abbreviation bytes_map :=
  (@gmap (list ascii) (@list_eq_dec ascii Ascii.eq_dec)
     (@list_countable ascii Ascii.eq_dec Ascii.countable)).
Abbreviation bytes_set :=
  (@gset (list ascii) (@list_eq_dec ascii Ascii.eq_dec)
     (@list_countable ascii Ascii.eq_dec Ascii.countable)).
Definition str (s : string) : bytes := list_ascii_of_string s.
Arguments str s%_string_scope.

Section zlist.
Context {A : Type}.
Implicit Types (l k : list A) (n m i : Z).

Definition zlen l : Z := Z.of_nat (length l).

Fixpoint ztake n (l : list A) : list A :=
  match l with
  | [] => []
  | x :: l' => if n <=? 0 then [] else x :: ztake (n - 1) l'
  end.

Fixpoint zdrop n (l : list A) : list A :=
  match l with
  | [] => []
  | x :: l' => if n <=? 0 then l else zdrop (n - 1) l'
  end.

Fixpoint znth n (l : list A) : option A :=
  match l with
  | [] => None
  | x :: l' => if n =? 0 then Some x else if n <? 0 then None else znth (n - 1) l'
  end.

Definition zslice (off n : Z) l : list A := ztake n (zdrop off l).
(** [memcpy(&data[off], buf, buf.size())] inside the bounds of [data]. *)
Definition zwrite (off : Z) (buf data : list A) : list A :=
  ztake off data ++ buf ++ zdrop (off + zlen buf) data.

Lemma ztake_take n l : ztake n l = take (Z.to_nat n) l.
Proof.
  revert n. induction l as [|x l IH]; intros n; simpl; [by rewrite take_nil|].
  case_match eqn:E; [replace (Z.to_nat n) with 0%nat by lia; done|].
  replace (Z.to_nat n) with (S (Z.to_nat (n - 1))) by lia.
  simpl. by rewrite IH.
Qed.

Lemma zdrop_drop n l : zdrop n l = drop (Z.to_nat n) l.
Proof.
  revert n. induction l as [|x l IH]; intros n; simpl; [by rewrite drop_nil|].
  case_match eqn:E; [replace (Z.to_nat n) with 0%nat by lia; done|].
  replace (Z.to_nat n) with (S (Z.to_nat (n - 1))) by lia.
  simpl. by rewrite IH.
Qed.

Lemma znth_lookup n l : 0 <= n -> znth n l = l !! Z.to_nat n.
Proof.
  revert n. induction l as [|x l IH]; intros n Hn; [done|]. simpl.
  case_match eqn:E; [replace (Z.to_nat n) with 0%nat by lia; done|].
  rewrite (proj2 (Z.ltb_ge n 0)) by lia.
  replace (Z.to_nat n) with (S (Z.to_nat (n - 1))) by lia.
  rewrite IH by lia. done.
Qed.

Lemma zlen_nonneg l : 0 <= zlen l.
Proof. unfold zlen. lia. Qed.
Lemma zlen_nil : zlen ([] : list A) = 0.
Proof. done. Qed.
Lemma zlen_cons x l : zlen (x :: l) = 1 + zlen l.
Proof. unfold zlen. simpl. lia. Qed.
Lemma zlen_app l k : zlen (l ++ k) = zlen l + zlen k.
Proof. unfold zlen. rewrite length_app. lia. Qed.
Lemma zlen_0_nil l : zlen l = 0 -> l = [].
Proof. unfold zlen. destruct l; simpl; [done|lia]. Qed.
Lemma zlen_ztake n l : zlen (ztake n l) = Z.min (Z.max n 0) (zlen l).
Proof. unfold zlen. rewrite ztake_take, length_take. lia. Qed.
Lemma zlen_zdrop n l : zlen (zdrop n l) = Z.max 0 (zlen l - Z.max n 0).
Proof. unfold zlen. rewrite zdrop_drop, length_drop. lia. Qed.
Lemma zlen_replicate n (x : A) : zlen (replicate (Z.to_nat n) x) = Z.max 0 n.
Proof. unfold zlen. rewrite length_replicate. lia. Qed.

Lemma ztake_0 n l : n <= 0 -> ztake n l = [].
Proof. intros. rewrite ztake_take. by replace (Z.to_nat n) with 0%nat by lia. Qed.
Lemma zdrop_0 n l : n <= 0 -> zdrop n l = l.
Proof. intros. rewrite zdrop_drop. by replace (Z.to_nat n) with 0%nat by lia. Qed.
Lemma ztake_all n l : zlen l <= n -> ztake n l = l.
Proof. unfold zlen. intros. rewrite ztake_take. apply take_ge. lia. Qed.
Lemma zdrop_all n l : zlen l <= n -> zdrop n l = [].
Proof. unfold zlen. intros. rewrite zdrop_drop. apply drop_ge. lia. Qed.
Lemma ztake_zdrop n l : ztake n l ++ zdrop n l = l.
Proof. rewrite ztake_take, zdrop_drop. apply take_drop. Qed.
Lemma ztake_app n l k : ztake n (l ++ k) = ztake n l ++ ztake (n - zlen l) k.
Proof.
  unfold zlen. rewrite !ztake_take, take_app. repeat f_equal. lia.
Qed.
Lemma zdrop_app n l k : zdrop n (l ++ k) = zdrop n l ++ zdrop (n - zlen l) k.
Proof.
  unfold zlen. rewrite !zdrop_drop, drop_app. repeat f_equal. lia.
Qed.
Lemma ztake_app_le n l k : n <= zlen l -> ztake n (l ++ k) = ztake n l.
Proof. intros. rewrite ztake_app, (ztake_0 (n - zlen l)) by lia. apply app_nil_r. Qed.
Lemma zdrop_app_ge n l k : zlen l <= n -> zdrop n (l ++ k) = zdrop (n - zlen l) k.
Proof. intros. by rewrite zdrop_app, (zdrop_all n l) by lia. Qed.
Lemma zdrop_app_le n l k : n <= zlen l -> zdrop n (l ++ k) = zdrop n l ++ k.
Proof. intros. by rewrite zdrop_app, (zdrop_0 (n - zlen l)) by lia. Qed.
Lemma ztake_exact n l k : zlen l = n -> ztake n (l ++ k) = l.
Proof. intros <-. by rewrite ztake_app_le, ztake_all by lia. Qed.
Lemma zdrop_exact n l k : zlen l = n -> zdrop n (l ++ k) = k.
Proof. intros <-. rewrite zdrop_app_ge, zdrop_0 by lia. done. Qed.
Lemma zdrop_zdrop n m l : 0 <= n -> 0 <= m -> zdrop n (zdrop m l) = zdrop (m + n) l.
Proof. intros. rewrite !zdrop_drop, drop_drop. f_equal. lia. Qed.
Lemma ztake_ztake n m l : ztake n (ztake m l) = ztake (Z.min n m) l.
Proof. rewrite !ztake_take, take_take. f_equal. lia. Qed.
Lemma zdrop_ztake n m l : 0 <= n -> zdrop n (ztake m l) = ztake (m - n) (zdrop n l).
Proof.
  intros. rewrite !zdrop_drop, !ztake_take, skipn_firstn_comm. f_equal. lia.
Qed.
Lemma ztake_plus n m l :
  0 <= n -> 0 <= m -> ztake (n + m) l = ztake n l ++ ztake m (zdrop n l).
Proof.
  intros. rewrite <- (ztake_zdrop n (ztake (n + m) l)), ztake_ztake, zdrop_ztake by lia.
  repeat f_equal; lia.
Qed.

Lemma zlen_zslice off n l :
  0 <= off -> 0 <= n -> zlen (zslice off n l) = Z.min n (Z.max 0 (zlen l - off)).
Proof. intros. unfold zslice. rewrite zlen_ztake, zlen_zdrop. lia. Qed.
Lemma zslice_plus off n m l :
  0 <= off -> 0 <= n -> 0 <= m ->
  zslice off (n + m) l = zslice off n l ++ zslice (off + n) m l.
Proof. intros. unfold zslice. by rewrite ztake_plus, zdrop_zdrop by lia. Qed.
Lemma zslice_app_l off n l k :
  0 <= off -> off + n <= zlen l -> zslice off n (l ++ k) = zslice off n l.
Proof.
  intros. unfold zslice. destruct (decide (n <= 0)); [by rewrite !ztake_0 by lia|].
  rewrite zdrop_app_le, ztake_app_le; [done|rewrite zlen_zdrop; lia|lia].
Qed.
Lemma zslice_app_r off n l k :
  zlen l <= off -> zslice off n (l ++ k) = zslice (off - zlen l) n k.
Proof. intros. unfold zslice. by rewrite zdrop_app_ge by lia. Qed.
Lemma zslice_zslice o1 n1 o2 n2 l :
  0 <= o1 -> 0 <= o2 -> o1 + n1 <= n2 ->
  zslice o1 n1 (zslice o2 n2 l) = zslice (o2 + o1) n1 l.
Proof.
  intros. unfold zslice. rewrite zdrop_ztake, ztake_ztake, zdrop_zdrop by lia.
  f_equal. lia.
Qed.
Lemma zslice_all n l : zlen l <= n -> zslice 0 n l = l.
Proof. intros. unfold zslice. by rewrite zdrop_0, ztake_all by lia. Qed.
Lemma zslice_mid l1 l2 l3 :
  zslice (zlen l1) (zlen l2) (l1 ++ l2 ++ l3) = l2.
Proof.
  rewrite zslice_app_r, Z.sub_diag by lia. unfold zslice.
  by rewrite zdrop_0, ztake_app_le, ztake_all by lia.
Qed.

Lemma zlen_zwrite off buf data :
  0 <= off -> off + zlen buf <= zlen data -> zlen (zwrite off buf data) = zlen data.
Proof.
  intros. unfold zwrite. pose proof (zlen_nonneg buf).
  rewrite !zlen_app, zlen_ztake, zlen_zdrop. lia.
Qed.
Lemma zwrite_nil buf : zwrite 0 buf [] = buf.
Proof. unfold zwrite. simpl. apply app_nil_r. Qed.
Lemma zslice_zwrite_same off buf data :
  0 <= off <= zlen data -> zslice off (zlen buf) (zwrite off buf data) = buf.
Proof.
  intros. unfold zwrite.
  assert (zlen (ztake off data) = off) as E by (rewrite zlen_ztake; lia).
  rewrite <- E at 1. apply zslice_mid.
Qed.
End zlist.
#[global] Arguments zlen : simpl never.
#[global] Arguments zslice : simpl never.
#[global] Arguments zwrite : simpl never.

Create Rewrite HintDb zlist.
Lemma zlen_fmap {A B} (f : A -> B) (l : list A) : zlen (f <$> l) = zlen l.
Proof. unfold zlen. by rewrite length_fmap. Qed.
#[export] Hint Rewrite @zlen_nil @zlen_cons @zlen_app @zlen_ztake @zlen_zdrop
  @zlen_replicate : zlist.

(** Arithmetic on buffer lengths. *)
Ltac zlen_lia :=
  autorewrite with zlist in *;
  repeat match goal with
         | |- context [zlen ?l] =>
             lazymatch goal with
             | _ : 0 <= zlen l |- _ => fail
             | _ => pose proof (zlen_nonneg l)
             end
         | _ : context [zlen ?l] |- _ =>
             lazymatch goal with
             | _ : 0 <= zlen l |- _ => fail
             | _ => pose proof (zlen_nonneg l)
             end
         end;
  lia.

(** ** Bytes and little-endian integers *)
Definition Z_of_byte (c : ascii) : Z := Z.of_N (N_of_ascii c).
Definition byte_of_Z (z : Z) : ascii := ascii_of_N (Z.to_N (z mod 256)).

Fixpoint le_bytes (n : nat) (z : Z) : bytes :=
  match n with
  | O => []
  | S n' => byte_of_Z z :: le_bytes n' (z / 256)
  end.
Fixpoint le_value (l : bytes) : Z :=
  match l with
  | [] => 0
  | c :: l' => Z_of_byte c + 256 * le_value l'
  end.

Lemma Z_of_byte_range c : 0 <= Z_of_byte c < 256.
Proof. unfold Z_of_byte. pose proof (N_ascii_bounded c). lia. Qed.
Lemma Z_of_byte_of_Z z : Z_of_byte (byte_of_Z z) = z mod 256.
Proof.
  unfold Z_of_byte, byte_of_Z. pose proof (Z.mod_pos_bound z 256).
  rewrite N_ascii_embedding; lia.
Qed.
Lemma byte_of_Z_of_byte c : byte_of_Z (Z_of_byte c) = c.
Proof.
  unfold byte_of_Z. rewrite Z.mod_small by apply Z_of_byte_range.
  unfold Z_of_byte. rewrite N2Z.id. apply ascii_N_embedding.
Qed.
#[global] Instance Z_of_byte_inj : Inj (=) (=) Z_of_byte.
Proof. intros x y H. rewrite <- (byte_of_Z_of_byte x), H. apply byte_of_Z_of_byte. Qed.

Lemma length_le_bytes n z : length (le_bytes n z) = n.
Proof. revert z. induction n; simpl; auto. Qed.
Lemma zlen_le_bytes n z : zlen (le_bytes n z) = Z.of_nat n.
Proof. unfold zlen. by rewrite length_le_bytes. Qed.

Lemma le_value_bytes n z : 0 <= z < 256 ^ Z.of_nat n -> le_value (le_bytes n z) = z.
Proof.
  revert z. induction n as [|n IH]; intros z Hz; [simpl in *; lia|].
  cbn [le_bytes le_value]. rewrite Z_of_byte_of_Z, IH.
  - pose proof (Z.div_mod z 256). lia.
  - rewrite Nat2Z.inj_succ, Z.pow_succ_r in Hz by lia. split.
    + apply Z.div_pos; lia.
    + apply Z.div_lt_upper_bound; lia.
Qed.

Lemma le_value_range l : 0 <= le_value l < 256 ^ zlen l.
Proof.
  induction l as [|c l IH]; [done|]. simpl.
  rewrite zlen_cons, Z.add_1_l, Z.pow_succ_r by apply zlen_nonneg.
  pose proof (Z_of_byte_range c). lia.
Qed.

(** ** Loops

    A C++ loop is a body that either continues with a new state ([inl]) or
    leaves with a result ([inr]).  [loop_pos] runs it at most [p] times by
    recursion on the binary number [p]; as it stops early, running [while_],
    whose bound is above every 64-bit number, costs only the iterations made.
    [while_rule] is the total-correctness rule: a measure below the bound that
    decreases shows that the bound is never reached. *)
Section loops.
Context {X T : Type} (body : X -> X + T).

Fixpoint loop_pos (p : positive) (x : X) : X + T :=
  match p with
  | xH => body x
  | xO p => match loop_pos p x with inl x' => loop_pos p x' | inr t => inr t end
  | xI p => match body x with
            | inl x' => match loop_pos p x' with
                        | inl x'' => loop_pos p x''
                        | inr t => inr t
                        end
            | inr t => inr t
            end
  end.

Fixpoint loop_nat (n : nat) (x : X) : X + T :=
  match n with
  | O => inl x
  | S n => match body x with inl x' => loop_nat n x' | inr t => inr t end
  end.

Lemma loop_nat_add n m x :
  loop_nat (n + m) x =
  match loop_nat n x with inl x' => loop_nat m x' | inr t => inr t end.
Proof.
  revert x. induction n as [|n IH]; intros x; simpl; [done|].
  destruct (body x); auto.
Qed.

Lemma loop_pos_nat p x : loop_pos p x = loop_nat (Pos.to_nat p) x.
Proof.
  revert x. induction p as [p IH|p IH|]; intros x.
  - replace (Pos.to_nat p~1) with (S (Pos.to_nat p + Pos.to_nat p)) by lia.
    simpl. destruct (body x); [|done]. rewrite loop_nat_add, IH.
    destruct (loop_nat _ _); auto.
  - replace (Pos.to_nat p~0) with (Pos.to_nat p + Pos.to_nat p)%nat by lia.
    simpl. rewrite loop_nat_add, IH. destruct (loop_nat _ _); auto.
  - simpl. destruct (body x); done.
Qed.

Definition loop_bound : positive := 2 ^ 66.
Definition while_ (out_of_fuel : T) (x : X) : T :=
  match loop_pos loop_bound x with inl _ => out_of_fuel | inr t => t end.

Lemma while_rule (I : X -> Prop) (m : X -> Z) (Q : T -> Prop) t0 x :
  I x -> 0 <= m x < 2 ^ 65 ->
  (forall x, I x -> 0 <= m x ->
     match body x with inl x' => I x' /\ 0 <= m x' < m x | inr t => Q t end) ->
  Q (while_ t0 x).
Proof.
  intros HI Hm Hb. unfold while_. rewrite loop_pos_nat.
  assert (Hn : m x < Z.of_nat (Pos.to_nat loop_bound)).
  { rewrite positive_nat_Z. unfold loop_bound. lia. }
  destruct Hm as [Hm _]. revert x HI Hm Hn.
  induction (Pos.to_nat loop_bound) as [|n IH]; intros x HI Hm Hn; [lia|].
  simpl. specialize (Hb x HI Hm). destruct (body x) as [x'|t]; [|done].
  destruct Hb as [HI' Hm']. apply IH; [done|lia|lia].
Qed.

(** Partial correctness: an invariant that the bound's result satisfies too. *)
Lemma while_inv (I : X -> Prop) (Q : T -> Prop) t0 x :
  I x -> Q t0 -> (forall x, I x -> match body x with inl x' => I x' | inr t => Q t end) -> Q (while_ t0 x).
Proof.
  intros HI H0 Hb. unfold while_. rewrite loop_pos_nat. revert x HI.
  induction (Pos.to_nat loop_bound) as [|n IH]; intros x HI; [done|].
  simpl. specialize (Hb x HI). destruct (body x) as [x'|t]; auto.
Qed.
End loops.

(** ** common/libs/utils/size_utils.h *)
Definition AlignToPowerOf2 (val align_log : Z) : Z :=
  let align := u64 (Z.shiftl 1 align_log) in
  u64 (u64 (val + (align - 1)) / align * align).

Lemma AlignToPowerOf2_spec val k :
  0 <= k < 64 -> 0 <= val -> val + 2 ^ k <= 2 ^ 64 ->
  exists q, AlignToPowerOf2 val k = q * 2 ^ k /\ val <= q * 2 ^ k < val + 2 ^ k.
Proof.
  intros Hk Hv Hb. unfold AlignToPowerOf2. rewrite Z.shiftl_1_l.
  assert (0 < 2 ^ k) by (apply Z.pow_pos_nonneg; lia).
  assert (2 ^ k < 2 ^ 64) by (apply Z.pow_lt_mono_r; lia).
  rewrite !(u64_id (2 ^ k)) by (unfold is_u64; lia).
  rewrite (u64_id (val + _)) by (unfold is_u64; lia).
  pose proof (Z.div_mod (val + (2 ^ k - 1)) (2 ^ k)).
  pose proof (Z.mod_pos_bound (val + (2 ^ k - 1)) (2 ^ k)).
  exists ((val + (2 ^ k - 1)) / 2 ^ k). rewrite u64_id by (unfold is_u64; nia). nia.
Qed.
