(* ===== verification/CppString.v ===== *)
(** * Strings: the parts of std::string and of absl the code calls

    The first part models what the sources use of the C++ library (decimal
    printing and reading of integers, character classes, searches).  absl and
    fmt are not part of the repository: the functions called are the fields of
    the class [Absl], with their documented behaviour as its laws.  The
    instance [absl_reference] shows that the laws can hold together, and is
    what examples evaluate. *)
From S2P Require Import Prelude.

Module CppString.

(** ** Decimal integers *)
Definition digit_char (d : Z) : ascii := byte_of_Z (48 + d).
Definition char_digit (c : ascii) : option Z :=
  let z := Z_of_byte c in if (48 <=? z) && (z <=? 57) then Some (z - 48) else None.
Definition is_digit (c : ascii) : bool :=
  match char_digit c with Some _ => true | None => false end.

Fixpoint dec_go (fuel : nat) (z : Z) (acc : bytes) : bytes :=
  match fuel with
  | O => acc
  | S fuel => if z <? 10 then digit_char z :: acc
              else dec_go fuel (z / 10) (digit_char (z mod 10) :: acc)
  end.

(** [std::to_string]; a 64-bit number has at most 20 digits, the fuel follows
    the number of bits. *)
Definition to_string (z : Z) : bytes :=
  if z <? 0 then "-"%char :: dec_go (S (Z.to_nat (Z.log2 (- z)))) (- z) []
  else dec_go (S (Z.to_nat (Z.log2 z))) z [].

Definition dec_value (acc : Z) (l : bytes) : option Z :=
  foldl (fun acc c => match acc, char_digit c with
                      | Some a, Some d => Some (a * 10 + d)
                      | _, _ => None
                      end) (Some acc) l.

(** A non-empty string of digits, with an optional minus. *)
Definition parse_nat (l : bytes) : option Z :=
  match l with [] => None | _ => dec_value 0 l end.
Definition parse_int (l : bytes) : option Z :=
  match l with
  | "-"%char :: l' => Z.opp <$> parse_nat l'
  | _ => parse_nat l
  end.

Lemma char_digit_char d : 0 <= d < 10 -> char_digit (digit_char d) = Some d.
Proof.
  intros. unfold char_digit, digit_char. rewrite Z_of_byte_of_Z, Z.mod_small by lia.
  rewrite (proj2 (Z.leb_le _ _)), (proj2 (Z.leb_le _ _)) by lia. simpl. f_equal. lia.
Qed.

Lemma dec_value_app acc l k :
  dec_value acc (l ++ k) = match dec_value acc l with Some a => dec_value a k | None => None end.
Proof.
  unfold dec_value. rewrite foldl_app. destruct (foldl _ (Some acc) l); [done|].
  induction k as [|c k IH]; simpl; done.
Qed.

Lemma dec_value_cons acc d l :
  0 <= d < 10 -> dec_value acc (digit_char d :: l) = dec_value (acc * 10 + d) l.
Proof. intros. unfold dec_value. simpl. by rewrite char_digit_char. Qed.

(** Digits of [z] in front of [acc]. *)
Lemma dec_go_spec fuel z acc :
  0 <= z -> z < 2 ^ Z.of_nat fuel ->
  exists ds, dec_go fuel z acc = ds ++ acc /\ Forall (fun c => is_digit c = true) ds /\
    dec_value 0 ds = Some z /\ (0 < fuel -> ds <> [])%nat.
Proof.
  revert z acc. induction fuel as [|fuel IH]; intros z acc Hz Hb.
  - exists []. simpl in *. split_and!; [done|constructor| |lia].
    unfold dec_value. simpl. f_equal. lia.
  - assert (Hdig : forall d, 0 <= d < 10 -> is_digit (digit_char d) = true)
      by (intros; unfold is_digit; by rewrite char_digit_char).
    cbn [dec_go]. destruct (z <? 10) eqn:E.
    + exists [digit_char z]. split_and!; [done|constructor; [apply Hdig; lia|constructor]| |done].
      rewrite dec_value_cons by lia. done.
    + rewrite Nat2Z.inj_succ, Z.pow_succ_r in Hb by lia.
      pose proof (Z.mod_pos_bound z 10). pose proof (Z.div_mod z 10).
      destruct (IH (z / 10) (digit_char (z mod 10) :: acc)) as (ds & -> & H1 & H2 & _); [lia|lia|].
      exists (ds ++ [digit_char (z mod 10)]). split_and!.
      * by rewrite <- app_assoc.
      * apply Forall_app. split; [done|]. constructor; [apply Hdig; lia|constructor].
      * rewrite dec_value_app, H2, dec_value_cons by lia. unfold dec_value. simpl. f_equal. lia.
      * intros _ Hnil. by apply app_eq_nil in Hnil as [_ ?].
Qed.

Lemma to_string_nonneg z :
  0 <= z -> Forall (fun c => is_digit c = true) (to_string z) /\
    parse_nat (to_string z) = Some z /\ to_string z <> [].
Proof.
  intros Hz. unfold to_string. rewrite (proj2 (Z.ltb_ge _ _)) by lia.
  destruct (dec_go_spec (S (Z.to_nat (Z.log2 z))) z []) as (ds & -> & H1 & H2 & H3); [lia| |].
  { pose proof (Z.log2_nonneg z). rewrite Nat2Z.inj_succ, Z2Nat.id by done.
    destruct (decide (z = 0)) as [->|]; [done|]. apply Z.log2_spec. lia. }
  rewrite app_nil_r. split; [done|].
  assert (ds <> []) by (apply H3; lia). split; [|done].
  unfold parse_nat. by destruct ds.
Qed.

Lemma is_digit_not_minus c : is_digit c = true -> c <> "-"%char.
Proof. intros H ->. done. Qed.

Lemma parse_to_string z : parse_int (to_string z) = Some z.
Proof.
  destruct (decide (0 <= z)) as [Hz|Hz].
  - destruct (to_string_nonneg z Hz) as (H1 & H2 & H3).
    destruct (to_string z) as [|c l] eqn:E; [done|].
    apply Forall_cons in H1 as [Hc _]. unfold parse_int.
    pose proof (is_digit_not_minus c Hc).
    destruct c as [[] [] [] [] [] [] [] []]; try exact H2; done.
  - unfold to_string. rewrite (proj2 (Z.ltb_lt _ _)) by lia.
    destruct (to_string_nonneg (- z)) as (_ & H2 & _); [lia|].
    unfold to_string in H2. rewrite (proj2 (Z.ltb_ge _ _)) in H2 by lia.
    unfold parse_int. rewrite H2. simpl. f_equal. lia.
Qed.

#[global] Instance to_string_inj : Inj (=) (=) to_string.
Proof. intros x y H. apply (f_equal parse_int) in H. rewrite !parse_to_string in H. congruence. Qed.

(** ** Characters and searches *)
Definition is_upper (c : ascii) : bool := let z := Z_of_byte c in (65 <=? z) && (z <=? 90).
Definition is_lower (c : ascii) : bool := let z := Z_of_byte c in (97 <=? z) && (z <=? 122).
Definition is_alpha (c : ascii) : bool := is_upper c || is_lower c.
Definition ascii_upper (c : ascii) : ascii :=
  if is_lower c then byte_of_Z (Z_of_byte c - 32) else c.
Definition ascii_lower (c : ascii) : ascii :=
  if is_upper c then byte_of_Z (Z_of_byte c + 32) else c.

(** [std::string::find_first_of(char)], from a position; [None] is npos. *)
Fixpoint find_char_from (pos : Z) (c : ascii) (l : bytes) : option Z :=
  match l with
  | [] => None
  | x :: l' => if bool_decide (x = c) then Some pos else find_char_from (pos + 1) c l'
  end.
Definition find_first_of (c : ascii) (l : bytes) : option Z := find_char_from 0 c l.

(** [starts_with]. *)
Fixpoint starts_with (p l : bytes) : bool :=
  match p, l with
  | [], _ => true
  | x :: p', y :: l' => bool_decide (x = y) && starts_with p' l'
  | _, _ => false
  end.

Lemma starts_with_spec p l : starts_with p l = true <-> exists k, l = p ++ k.
Proof.
  revert l. induction p as [|x p IH]; intros l; simpl; [naive_solver|].
  destruct l as [|y l]; [naive_solver|].
  rewrite andb_true_iff, bool_decide_eq_true, IH. naive_solver.
Qed.

Lemma find_char_from_spec pos c l :
  match find_char_from pos c l with
  | Some p => exists a b, l = a ++ c :: b /\ (c ∉ a) /\ p = pos + zlen a
  | None => c ∉ l
  end.
Proof.
  revert pos. induction l as [|x l IH]; intros pos; simpl; [apply not_elem_of_nil|].
  case_bool_decide as E.
  - subst. exists [], l. split_and!; [done|apply not_elem_of_nil|]. unfold zlen. simpl. lia.
  - specialize (IH (pos + 1)). destruct (find_char_from (pos + 1) c l) as [p|].
    + destruct IH as (a & b & -> & Ha & ->). exists (x :: a), b.
      split_and!; [done|rewrite not_elem_of_cons; naive_solver|rewrite zlen_cons; lia].
    + rewrite not_elem_of_cons. naive_solver.
Qed.

Lemma find_first_of_spec c l :
  match find_first_of c l with
  | Some p => exists a b, l = a ++ c :: b /\ (c ∉ a) /\ p = zlen a
  | None => c ∉ l
  end.
Proof. apply (find_char_from_spec 0). Qed.

Lemma find_first_of_app c a b : c ∉ a -> find_first_of c (a ++ c :: b) = Some (zlen a).
Proof.
  intros Ha. unfold find_first_of. replace (zlen a) with (0 + zlen a) by lia.
  generalize 0. induction a as [|x a IH]; intros pos; simpl.
  - rewrite bool_decide_true by done. by rewrite zlen_nil, Z.add_0_r.
  - rewrite not_elem_of_cons in Ha. destruct Ha as [Hx Ha].
    rewrite bool_decide_false, IH by (done || congruence). f_equal. rewrite zlen_cons. lia.
Qed.

(** Splitting at a character and joining; also the reference for absl. *)
Fixpoint split_on (c : ascii) (l : bytes) : list bytes :=
  match l with
  | [] => [[]]
  | x :: l' => if bool_decide (x = c) then [] :: split_on c l'
               else match split_on c l' with
                    | p :: ps => (x :: p) :: ps
                    | [] => [[x]]
                    end
  end.

Fixpoint join (sep : bytes) (ps : list bytes) : bytes :=
  match ps with
  | [] => []
  | [p] => p
  | p :: ps' => p ++ sep ++ join sep ps'
  end.

Lemma split_on_nonempty c l : split_on c l <> [].
Proof.
  induction l as [|x l IH]; simpl; [done|]. case_bool_decide; [done|].
  by destruct (split_on c l).
Qed.

Lemma join_cons sep p ps : ps <> [] -> join sep (p :: ps) = p ++ sep ++ join sep ps.
Proof. by destruct ps. Qed.

Lemma join_split_on c l : join [c] (split_on c l) = l.
Proof.
  induction l as [|x l IH]; [done|]. simpl. case_bool_decide as E.
  - rewrite join_cons by apply split_on_nonempty. rewrite IH. by subst.
  - destruct (split_on c l) as [|p ps] eqn:Es; [by apply split_on_nonempty in Es|].
    destruct ps; simpl in *; by rewrite <- IH.
Qed.

Lemma split_on_pieces c l : Forall (fun p => c ∉ p) (split_on c l).
Proof.
  induction l as [|x l IH]; simpl; [constructor; [apply not_elem_of_nil|constructor]|].
  case_bool_decide as E; [constructor; [apply not_elem_of_nil|done]|].
  destruct (split_on c l) as [|p ps] eqn:Es; [by apply split_on_nonempty in Es|].
  apply Forall_cons in IH as [Hp Hps]. constructor; [|done].
  rewrite not_elem_of_cons. naive_solver.
Qed.

Lemma split_on_plain c l : c ∉ l -> split_on c l = [l].
Proof.
  induction l as [|x l IH]; [done|]. rewrite not_elem_of_cons. intros [Hx Hl]. simpl.
  rewrite bool_decide_false, IH by (done || congruence). done.
Qed.

Lemma split_on_app c p l : c ∉ p -> split_on c (p ++ c :: l) = p :: split_on c l.
Proof.
  induction p as [|x p IH]; intros Hp; simpl; [by rewrite bool_decide_true|].
  rewrite not_elem_of_cons in Hp. destruct Hp as [Hx Hp].
  rewrite bool_decide_false, IH by (done || congruence). done.
Qed.

Lemma split_on_join c ps :
  ps <> [] -> Forall (fun p => c ∉ p) ps -> split_on c (join [c] ps) = ps.
Proof.
  intros Hne Hps. induction Hps as [|p ps Hp Hps IH]; [done|].
  destruct ps as [|q ps]; [by apply split_on_plain|].
  rewrite join_cons by done. change ([c] ++ join [c] (q :: ps)) with (c :: join [c] (q :: ps)).
  rewrite split_on_app by done. by rewrite IH.
Qed.

(** ** absl and fmt *)
(** The single-character substitutions the sources ask of [StrReplaceAll]. *)
Definition replace_char (subst : list (ascii * bytes)) (c : ascii) : bytes :=
  match find (fun s => bool_decide (s.1 = c)) subst with
  | Some s => s.2
  | None => [c]
  end.

Definition true_words : list bytes := [str "true"; str "t"; str "yes"; str "y"; str "1"].
Definition false_words : list bytes := [str "false"; str "f"; str "no"; str "n"; str "0"].

Class Absl := {
  (* strip.h: the rest and whether the prefix was there *)
  ConsumePrefix : bytes -> bytes -> bytes * bool;
  (* str_split.h with a char delimiter; with ByAnyChar and SkipEmpty *)
  StrSplit : bytes -> ascii -> list bytes;
  StrSplitAnySkipEmpty : bytes -> list ascii -> list bytes;
  StrJoin : list bytes -> bytes -> bytes;
  StrReplaceAll : bytes -> list (ascii * bytes) -> bytes;
  AsciiStrToUpper : bytes -> bytes;
  (* numbers.h: success and the value stored, also on failure; the bounds are
     those of the integer type *)
  SimpleAtoi : Z -> Z -> bytes -> bool * Z;
  SimpleAtob : bytes -> bool * bool;
  (* match.h *)
  StartsWith : bytes -> bytes -> bool;
  (* fmt: "{}" on an integer, a bool and a string *)
  fmt_int : Z -> bytes;
  fmt_bool : bool -> bytes;
  fmt_str : bytes -> bytes;

  ConsumePrefix_spec p s :
    ConsumePrefix s p = if starts_with p s then (zdrop (zlen p) s, true) else (s, false);
  StrSplit_join c s : StrSplit s c <> [] /\ join [c] (StrSplit s c) = s;
  StrSplit_pieces c s : Forall (fun p => c ∉ p) (StrSplit s c);
  StrSplitAny_pieces cs s :
    Forall (fun p => p <> [] /\ Forall (fun c => (c ∉ cs) /\ c ∈ s) p) (StrSplitAnySkipEmpty s cs);
  StrJoin_spec ps sep : StrJoin ps sep = join sep ps;
  StrReplaceAll_chars s subst :
    NoDup subst.*1 -> StrReplaceAll s subst = flat_map (replace_char subst) s;
  AsciiStrToUpper_spec s : AsciiStrToUpper s = ascii_upper <$> s;
  SimpleAtoi_print lo hi z : lo <= z <= hi -> SimpleAtoi lo hi (to_string z) = (true, z);
  SimpleAtoi_range lo hi s z : SimpleAtoi lo hi s = (true, z) -> lo <= z <= hi;
  SimpleAtob_true s b :
    SimpleAtob s = (true, b) <-> (ascii_lower <$> s) ∈ (if b then true_words else false_words);
  StartsWith_spec s p : StartsWith s p = starts_with p s;
  fmt_int_spec z : fmt_int z = to_string z;
  fmt_bool_spec b : fmt_bool b = str (if b then "true" else "false");
  fmt_str_spec v : fmt_str v = v
}.

(** A splitter is determined by its laws. *)
Lemma StrSplit_unique `{Absl} c s : StrSplit s c = split_on c s.
Proof.
  destruct (StrSplit_join c s) as [Hne Hj]. rewrite <- Hj at 2.
  symmetry. apply split_on_join; [done|apply StrSplit_pieces].
Qed.

(** ** A reference implementation *)
Fixpoint split_any (cs : list ascii) (l : bytes) : list bytes :=
  match l with
  | [] => [[]]
  | x :: l' => if bool_decide (x ∈ cs) then [] :: split_any cs l'
               else match split_any cs l' with
                    | p :: ps => (x :: p) :: ps
                    | [] => [[x]]
                    end
  end.

Definition ref_split_any (s : bytes) (cs : list ascii) : list bytes :=
  base.filter (fun p => p <> []) (split_any cs s).

Definition ref_atoi (lo hi : Z) (s : bytes) : bool * Z :=
  match parse_int s with
  | Some z => if (lo <=? z) && (z <=? hi) then (true, z) else (false, if z <? lo then lo else hi)
  | None => (false, 0)
  end.

Definition ref_atob (s : bytes) : bool * bool :=
  let l := ascii_lower <$> s in
  if bool_decide (l ∈ true_words) then (true, true)
  else if bool_decide (l ∈ false_words) then (true, false) else (false, false).

Lemma split_any_pieces cs l :
  Forall (fun p => Forall (fun c => (c ∉ cs) /\ c ∈ l) p) (split_any cs l).
Proof.
  induction l as [|x l IH]; simpl; [repeat constructor|].
  assert (IH' : Forall (fun p => Forall (fun c => (c ∉ cs) /\ c ∈ x :: l) p) (split_any cs l)).
  { eapply Forall_impl; [exact IH|]. intros p Hp. eapply Forall_impl; [exact Hp|].
    intros c [? ?]. split; [done|by right]. }
  case_bool_decide; [constructor; [constructor|done]|].
  destruct (split_any cs l) as [|p ps]; [constructor; [constructor; [split; [done|left]|constructor]|constructor]|].
  apply Forall_cons in IH' as [Hp Hps]. constructor; [|done].
  constructor; [|done]. split; [done|left].
Qed.

Lemma words_disjoint w : w ∈ true_words -> w ∈ false_words -> False.
Proof.
  intros Ht Hf. revert w Ht Hf. apply (Forall_forall (fun w => w ∈ false_words -> False)).
  repeat constructor; intros H; apply (bool_decide_eq_true_2 (_ ∈ _)) in H; vm_compute in H; done.
Qed.

#[global, refine] Instance absl_reference : Absl := {
  ConsumePrefix := fun s p => if starts_with p s then (zdrop (zlen p) s, true) else (s, false);
  StrSplit := fun s c => split_on c s;
  StrSplitAnySkipEmpty := ref_split_any;
  StrJoin := fun ps sep => join sep ps;
  StrReplaceAll := fun s subst => flat_map (replace_char subst) s;
  AsciiStrToUpper := fun s => ascii_upper <$> s;
  SimpleAtoi := ref_atoi;
  SimpleAtob := ref_atob;
  StartsWith := fun s p => starts_with p s;
  fmt_int := to_string;
  fmt_bool := fun b => str (if b then "true" else "false");
  fmt_str := fun v => v
}.
Proof.
  - done.
  - intros c s. split; [apply split_on_nonempty|apply join_split_on].
  - apply split_on_pieces.
  - intros cs s. apply Forall_forall. intros p [Hne Hp]%list_elem_of_filter. split; [done|].
    pose proof (split_any_pieces cs s) as Hf. rewrite Forall_forall in Hf. auto.
  - done.
  - done.
  - done.
  - intros lo hi z Hz. unfold ref_atoi. rewrite parse_to_string.
    rewrite (proj2 (Z.leb_le _ _)), (proj2 (Z.leb_le _ _)) by lia. done.
  - intros lo hi s z. unfold ref_atoi. destruct (parse_int s); [|done].
    destruct (_ && _) eqn:E; [|done]. intros [= <-]. lia.
  - intros s b. unfold ref_atob.
    destruct (bool_decide_reflect ((ascii_lower <$> s) ∈ true_words)) as [Ht|Ht];
      [|destruct (bool_decide_reflect ((ascii_lower <$> s) ∈ false_words)) as [Hf|Hf]];
      destruct b; split; try done; intros Hx; exfalso; by eapply words_disjoint.
  - done.
  - done.
  - done.
  - done.
Defined.
End CppString.
