(* ===== verification/RangeSet.v ===== *)
(** * Disjoint range sets (io/disjoint_range_set.cc)

    [DisjointRangeSet] keeps a [std::set<Range>] of half-open intervals.  The
    set is the list of its elements in the order of [Range::operator<]; an
    iterator is a position in it, represented by the reversed list of the
    elements before it and the list from it on, so that [--it] and [erase(it)]
    are what they are in the source.  The abstract value of a range set is the
    set of numbers it covers. *)
From Stdlib Require Import Sorted.

From S2P Require Import Prelude.

Module RangeSet.

(** ** Data and operations *)
Record Range := mkRange { start_ : Z; end_ : Z }.

#[global] Instance Range_eq_dec : EqDecision Range.
Proof. solve_decision. Defined.

Definition Contains (self other : Range) : bool :=
  (start_ self <=? start_ other) && (end_ other <=? end_ self).
Definition CanMerge (self other : Range) : bool :=
  (start_ self <=? end_ other) && (start_ other <=? end_ self).
Definition Merge (self other : Range) : Range :=
  mkRange (Z.min (start_ self) (start_ other)) (Z.max (end_ self) (end_ other)).
Definition range_lt (self other : Range) : bool :=
  (start_ self <? start_ other) ||
  ((start_ self =? start_ other) && (end_ other <? end_ self)).
Definition AsPair (self : Range) : Z * Z := (start_ self, end_ self).

(** [ranges_.upper_bound(r)] as an iterator: (elements before, reversed;
    elements from it on). *)
Fixpoint upper_bound (r : Range) (before after : list Range)
    : list Range * list Range :=
  match after with
  | [] => (before, [])
  | y :: after' =>
      if range_lt r y then (before, after) else upper_bound r (y :: before) after'
  end.

(** [std::set::emplace]: no effect when an equivalent element is present. *)
Fixpoint set_emplace (r : Range) (l : list Range) : list Range :=
  match l with
  | [] => [r]
  | y :: l' =>
      if range_lt r y then r :: l
      else if range_lt y r then y :: set_emplace r l' else l
  end.

Definition ContainsRange (ranges : list Range) (start end' : Z) : result bool :=
  let* _ := check (start <=? end') "Invalid range: expected start <= end" in
  match ranges with
  | [] => Ok false
  | _ =>
      let range := mkRange start end' in
      match upper_bound range [] ranges with
      | (y :: _, _) => Ok (Contains y range)
      | ([], y :: _) => Ok (Contains y range)
      | ([], []) => Fatal "dereferences end()"
      end
  end.

(** The forward loop of [InsertRange]: absorbs the ranges from [it] on. *)
Fixpoint merge_forward (new_range : Range) (after : list Range)
    : Range * list Range :=
  match after with
  | [] => (new_range, [])
  | y :: after' =>
      if CanMerge new_range y then merge_forward (Merge new_range y) after'
      else (new_range, after)
  end.

Definition InsertRange (ranges : list Range) (start end' : Z)
    : result (list Range) :=
  let* _ := check (start <=? end') "Invalid range: expected start <= end" in
  let* contained := ContainsRange ranges start end' in
  if contained : bool then Ok ranges
  else
    let '(before, after) := upper_bound (mkRange start end') [] ranges in
    let '(new_range, after) := merge_forward (mkRange start end') after in
    match before with
    | y :: before' =>
        if CanMerge new_range y
        then Ok (set_emplace (Merge new_range y) (rev before' ++ after))
        else Ok (set_emplace new_range (rev before ++ after))
    | [] => Ok (set_emplace new_range (rev before ++ after))
    end.

Definition EndOfContainingRange (ranges : list Range) (start : Z) : option Z :=
  let test := mkRange start (u64 (start + 1)) in
  match upper_bound test [] ranges with
  | ([], _) => None
  | (y :: _, _) => if Contains y test then Some (end_ y) else None
  end.

Definition AllRanges (ranges : list Range) : list (Z * Z) := map AsPair ranges.

(** ** The representation invariant

    Ranges are well formed, and each ends strictly before the next begins. *)
Definition sep (r s : Range) : Prop := end_ r < start_ s.
Definition proper (r : Range) : Prop := start_ r <= end_ r.
Definition wf (l : list Range) : Prop := StronglySorted sep l /\ Forall proper l.

(** The abstract value: the numbers covered. *)
Definition in_range (x : Z) (r : Range) : Prop := start_ r <= x < end_ r.
Definition covers (l : list Range) (x : Z) : Prop := Exists (in_range x) l.

Lemma wf_nil : wf [].
Proof. split; constructor. Qed.

Lemma wf_cons r l : wf (r :: l) <-> proper r /\ Forall (sep r) l /\ wf l.
Proof.
  unfold wf. rewrite Forall_cons. split.
  - intros [Hs [Hp Hl]]. inversion Hs; subst. done.
  - intros (Hp & Hs & Hss & Hl). repeat split; [by constructor|done..].
Qed.

Lemma wf_app l k :
  wf (l ++ k) <-> wf l /\ wf k /\ Forall (fun r => Forall (sep r) k) l.
Proof.
  induction l as [|r l IH]; simpl.
  - split; [|tauto]. intros; repeat split; try apply H; constructor.
  - rewrite !wf_cons, Forall_app, IH, Forall_cons. tauto.
Qed.

Lemma wf_snoc l r : wf (l ++ [r]) <-> wf l /\ proper r /\ Forall (fun y => sep y r) l.
Proof.
  rewrite wf_app, wf_cons.
  assert (Forall (fun y => Forall (sep y) [r]) l <-> Forall (fun y => sep y r) l) as ->.
  { rewrite !Forall_forall. setoid_rewrite Forall_singleton. done. }
  pose proof wf_nil. rewrite Forall_nil. tauto.
Qed.

Lemma covers_app l k x : covers (l ++ k) x <-> covers l x \/ covers k x.
Proof. apply Exists_app. Qed.
Lemma covers_cons r l x : covers (r :: l) x <-> in_range x r \/ covers l x.
Proof. apply Exists_cons. Qed.
Lemma covers_nil x : covers [] x <-> False.
Proof. apply Exists_nil. Qed.
Lemma covers_rev l x : covers (rev l) x <-> covers l x.
Proof.
  unfold covers. rewrite !Exists_exists.
  split; intros (r & Hr & Hx); exists r; rewrite list_elem_of_In in *;
    (split; [by apply in_rev|done]) || (split; [by apply in_rev in Hr|done]).
Qed.
#[local] Create Rewrite HintDb covers.
#[local] Hint Rewrite covers_app covers_cons covers_nil covers_rev : covers.

(** Boolean tests of the code, as propositions for lia. *)
Ltac unfold_range :=
  unfold Contains, CanMerge, Merge, range_lt, sep, proper, in_range in *; simpl in *;
  repeat match goal with
         | H : _ && _ = true |- _ => apply andb_true_iff in H as [??]
         | H : _ && _ = false |- _ => apply andb_false_iff in H
         | H : _ || _ = true |- _ => apply orb_true_iff in H
         | H : _ || _ = false |- _ => apply orb_false_iff in H as [??]
         end.

Ltac range_lia := unfold_range; try lia.

Lemma upper_bound_split r before after pre post :
  upper_bound r before after = (pre, post) ->
  rev pre ++ post = rev before ++ after /\
  (Forall (fun y => range_lt r y = false) before ->
   Forall (fun y => range_lt r y = false) pre) /\
  match post with [] => True | y :: _ => range_lt r y = true end.
Proof.
  revert before. induction after as [|y after IH]; intros before; simpl.
  - intros [= <- <-]. done.
  - destruct (range_lt r y) eqn:E.
    + intros [= <- <-]. done.
    + intros (H1 & H2 & H3)%IH. split; [|split]; [|auto..].
      rewrite H1. simpl. by rewrite <- app_assoc.
Qed.

(** What [upper_bound] gives on a well-formed set: ranges before the iterator
    start at or before [r], ranges from it on start at or after [r]. *)
Lemma upper_bound_wf r l pre post :
  wf l -> upper_bound r [] l = (pre, post) ->
  l = rev pre ++ post /\
  Forall (fun y => start_ y <= start_ r /\ (start_ y = start_ r -> end_ r <= end_ y)) pre /\
  Forall (fun y => start_ r <= start_ y /\ (start_ y = start_ r -> end_ y < end_ r)) post.
Proof.
  intros Hwf Hub. apply upper_bound_split in Hub as (Heq & Hpre & Hpost).
  simpl in Heq. split; [done|]. split.
  - eapply Forall_impl; [by apply Hpre|]. intros y Hy. range_lia.
  - rewrite <- Heq in Hwf. apply wf_app in Hwf as (_ & Hwf & _).
    destruct post as [|y post]; [done|]. apply wf_cons in Hwf as (Hp & Hs & _).
    constructor; [range_lia|].
    eapply Forall_impl; [exact Hs|]. intros z Hz. range_lia.
Qed.

Lemma set_emplace_between r l k :
  Forall (fun y => range_lt y r = true) l -> Forall (fun y => range_lt r y = true) k ->
  set_emplace r (l ++ k) = l ++ r :: k.
Proof.
  intros Hl Hk. induction Hl as [|y l Hy Hl IH]; simpl.
  - destruct k as [|y k]; [done|]. simpl. by rewrite (Forall_inv Hk).
  - assert (range_lt r y = false) as ->.
    { apply not_true_is_false. intros ?. range_lia. }
    by rewrite Hy, IH.
Qed.

Lemma in_range_Merge a b x :
  CanMerge a b = true -> in_range x (Merge a b) <-> in_range x a \/ in_range x b.
Proof. intros. range_lia. Qed.

(** The forward loop: the merged range covers what it absorbed, keeps its start
    and ends before everything it leaves. *)
Lemma merge_forward_spec new after new' after' :
  proper new -> wf after -> Forall (fun y => start_ new <= start_ y) after ->
  merge_forward new after = (new', after') ->
  start_ new' = start_ new /\ end_ new <= end_ new' /\ wf after' /\
  Forall (sep new') after' /\ (exists merged, after = merged ++ after' /\
    Forall (fun y => end_ y <= end_ new') merged) /\
  (forall x, in_range x new' \/ covers after' x <-> in_range x new \/ covers after x).
Proof.
  revert new. induction after as [|y after IH]; intros new Hp Hwf Hs; simpl.
  - intros [= <- <-]. split_and!; try done; try lia. by exists [].
  - apply wf_cons in Hwf as (Hy & Hsep & Hwf). apply Forall_cons in Hs as [Hs1 Hs].
    destruct (CanMerge new y) eqn:E.
    + intros Hm. apply IH in Hm as (H1 & H2 & H3 & H4 & (mg & -> & Hmg) & H6).
      * split_and!; try done; try (range_lia; lia).
        -- exists (y :: mg). split; [done|]. constructor; [|done]. range_lia.
        -- intros x. rewrite H6, in_range_Merge by done. autorewrite with covers. tauto.
      * range_lia.
      * done.
      * eapply Forall_impl; [exact Hs|]. range_lia.
    + intros [= <- <-]. split_and!; try done; try lia.
      * apply wf_cons; auto.
      * constructor; [range_lia|]. eapply Forall_impl; [exact Hsep|]. intros z Hz. range_lia.
      * by exists [].
Qed.

(** On a well-formed set [upper_bound] exposes the only range that can contain
    [r]: the one just before the iterator. *)
Lemma Contains_unique l r y pre post :
  wf l -> proper r -> upper_bound r [] l = (pre, post) -> y ∈ l ->
  Contains y r = true -> exists pre', pre = y :: pre'.
Proof.
  intros Hwf Hr Hub Hin HC. pose proof (upper_bound_wf _ _ _ _ Hwf Hub) as (-> & Hpre & Hpost).
  apply elem_of_app in Hin as [Hin|Hin].
  - destruct pre as [|z pre]; [by apply not_elem_of_nil in Hin|]. exists pre.
    simpl in Hin, Hwf. apply elem_of_app in Hin as [Hin|Hin].
    + exfalso. apply wf_app in Hwf as (Hwf & _ & _). apply wf_snoc in Hwf as (_ & Hz & Hsep).
      rewrite Forall_forall in Hsep. specialize (Hsep _ Hin).
      apply Forall_inv in Hpre. range_lia.
    + apply list_elem_of_singleton in Hin. by subst.
  - exfalso. rewrite Forall_forall in Hpost. specialize (Hpost _ Hin). range_lia.
Qed.

Lemma ContainsRange_eq l s e :
  wf l -> s <= e ->
  exists b, ContainsRange l s e = Ok b /\
    (b = true <-> Exists (fun y => Contains y (mkRange s e) = true) l).
Proof.
  intros Hwf Hse. unfold ContainsRange.
  rewrite (proj2 (Z.leb_le s e)) by done. simpl.
  destruct l as [|a l'] eqn:El; [exists false; split; [done|]; by rewrite Exists_nil|].
  rewrite <- El in *. destruct (upper_bound (mkRange s e) [] l) as [pre post] eqn:Hub.
  assert (forall y, y ∈ l -> Contains y (mkRange s e) = true -> exists pre', pre = y :: pre') as Hu.
  { intros; eapply (Contains_unique l (mkRange s e)); [exact Hwf|exact Hse|exact Hub|done|done]. }
  pose proof (upper_bound_wf _ _ _ _ Hwf Hub) as (Hl & _ & Hpost).
  destruct pre as [|z pre]; [destruct post as [|z post]|].
  - simpl in Hl. congruence.
  - eexists. split; [done|]. simpl in Hl. rewrite Exists_exists. split.
    + intros Hc. exists z. split; [rewrite Hl; left|done].
    + intros (y & Hy & HC). by destruct (Hu _ Hy HC).
  - eexists. split; [done|]. rewrite Exists_exists. split.
    + intros Hc. exists z. split; [|done]. rewrite Hl. simpl. set_solver.
    + intros (y & Hy & HC). destruct (Hu _ Hy HC) as [? [= -> ->]]. done.
Qed.

(** A well-formed set covers an interval only inside one of its ranges. *)
Lemma Exists_Contains_covers l s e :
  wf l -> s < e ->
  Exists (fun y => Contains y (mkRange s e) = true) l <->
  (forall x, s <= x < e -> covers l x).
Proof.
  intros Hwf Hse. split.
  - intros (y & Hy & HC)%Exists_exists x Hx. apply Exists_exists. exists y.
    split; [done|]. range_lia.
  - intros Hall. assert (covers l s) as (r & Hr & Hrs)%Exists_exists by (apply Hall; lia).
    apply Exists_exists. exists r. split; [done|].
    destruct (decide (e <= end_ r)); [range_lia|]. exfalso.
    assert (covers l (end_ r)) as (r' & Hr' & Hin)%Exists_exists.
    { apply Hall. range_lia. }
    apply list_elem_of_split in Hr as (l1 & l2 & ->).
    apply wf_app in Hwf as (_ & Hwf & Hsep). apply wf_cons in Hwf as (Hp & Hsep2 & _).
    rewrite Forall_forall in Hsep, Hsep2.
    apply elem_of_app in Hr' as [Hr'|[->|Hr']%elem_of_cons].
    + specialize (Hsep _ Hr'). apply Forall_inv in Hsep. range_lia.
    + range_lia.
    + specialize (Hsep2 _ Hr'). range_lia.
Qed.

Lemma covers_absorb l s e :
  Exists (fun y => Contains y (mkRange s e) = true) l ->
  forall x, covers l x <-> covers l x \/ s <= x < e.
Proof.
  intros (y & Hy & HC)%Exists_exists x. split; [tauto|]. intros [?|Hx]; [done|].
  apply Exists_exists. exists y. split; [done|]. range_lia.
Qed.

(** Placing the merged range between what is left on both sides. *)
Lemma emplace_wf before new after :
  wf (rev before) -> wf after -> proper new ->
  Forall (fun y => sep y new) before -> Forall (sep new) after ->
  set_emplace new (rev before ++ after) = rev before ++ new :: after /\
  wf (rev before ++ new :: after).
Proof.
  intros Hb Ha Hn Hbn Hna.
  assert (Forall (fun y => sep y new) (rev before)) as Hbn'.
  { rewrite Forall_forall in *. intros y Hy. apply Hbn.
    rewrite list_elem_of_In in *. by apply in_rev. }
  split.
  - destruct Hb as [_ Hp]. apply set_emplace_between.
    + rewrite Forall_forall in *. intros y Hy. specialize (Hbn' _ Hy).
      specialize (Hp _ Hy). range_lia.
    + eapply Forall_impl; [exact Hna|]. intros y Hy. range_lia.
  - apply wf_app. rewrite wf_cons. split_and!; try done.
    rewrite Forall_forall in *. intros y Hy. specialize (Hbn' _ Hy).
    constructor; [done|]. eapply Forall_impl; [apply Forall_forall; exact Hna|].
    intros z Hz. range_lia.
Qed.

Lemma InsertRange_spec l s e :
  wf l -> s <= e ->
  exists l', InsertRange l s e = Ok l' /\ wf l' /\
    forall x, covers l' x <-> covers l x \/ s <= x < e.
Proof.
  intros Hwf Hse. unfold InsertRange. rewrite (proj2 (Z.leb_le s e)) by done. simpl.
  destruct (ContainsRange_eq l s e Hwf Hse) as (b & -> & Hb). simpl.
  destruct b. { exists l. split_and!; [done..|]. by apply covers_absorb, Hb. } clear Hb.
  destruct (upper_bound _ [] l) as [pre post] eqn:Hub.
  pose proof (upper_bound_wf _ _ _ _ Hwf Hub) as (-> & Hpre & Hpost). simpl in *.
  apply wf_app in Hwf as (Hwf1 & Hwf2 & Hsep).
  destruct (merge_forward (mkRange s e) post) as [new after] eqn:Hm.
  apply merge_forward_spec in Hm
    as (Hst & Hen & Hwfa & Hsa & (mg & -> & Hmg) & Hcov); simpl in *; cycle 1.
  { done. } { done. } { eapply Forall_impl; [exact Hpost|]. simpl. lia. }
  assert (forall x, in_range x new \/ covers after x <-> s <= x < e \/ covers (mg ++ after) x) as Hc.
  { intros x. rewrite Hcov. done. }
  destruct pre as [|y pre].
  - destruct (emplace_wf [] new after) as [Heq Hw]; [done|done|range_lia|done|done|].
    simpl in *. rewrite Heq. eexists. split_and!; [done..|]. intros x.
    autorewrite with covers in *. rewrite Hc. autorewrite with covers. tauto.
  - simpl in Hwf1, Hsep. apply wf_snoc in Hwf1 as (Hwf1 & Hy & Hsy).
    apply Forall_inv in Hpre. apply Forall_app in Hsep as [Hs1 Hs2%Forall_inv].
    apply Forall_app in Hs2 as [Hs2 Hs3].
    assert (Forall (fun z => sep z y) pre) as Hsy'.
    { rewrite Forall_forall in *. intros z Hz. apply Hsy.
      rewrite list_elem_of_In in *. by apply in_rev in Hz. }
    destruct (CanMerge new y) eqn:E.
    + destruct (emplace_wf pre (Merge new y) after) as [Heq Hw]; [done|done|range_lia|..].
      { eapply Forall_impl; [exact Hsy'|]. intros z Hz. range_lia. }
      { rewrite Forall_forall in *. intros z Hz. specialize (Hs3 _ Hz).
        specialize (Hsa _ Hz). range_lia. }
      rewrite Heq. eexists. split_and!; [done..|]. intros x. simpl.
      autorewrite with covers. rewrite in_range_Merge by done.
      specialize (Hc x). autorewrite with covers in Hc. tauto.
    + destruct (emplace_wf (y :: pre) new after) as [Heq Hw]; [|done|range_lia|..|done|].
      { simpl. by apply wf_snoc. }
      { constructor; [range_lia|]. eapply Forall_impl; [exact Hsy'|].
        intros z Hz. range_lia. }
      rewrite Heq. eexists. split_and!; [done..|]. intros x. simpl.
      specialize (Hc x). autorewrite with covers in *. tauto.
Qed.

(** What holds of every range and is kept by merging holds after an insertion. *)
Lemma InsertRange_Forall (P : Range -> Prop) l s e l' :
  (forall a b, P a -> P b -> P (Merge a b)) -> Forall P l -> P (mkRange s e) ->
  InsertRange l s e = Ok l' -> Forall P l'.
Proof.
  intros HM Hl Hr. unfold InsertRange.
  destruct (check _ _) as [u| | |]; simpl; try done.
  destruct (ContainsRange l s e) as [[|]| | |]; simpl; [by intros [= <-]| |done..].
  destruct (upper_bound _ [] l) as [pre post] eqn:Hub.
  apply upper_bound_split in Hub as (Heq & _ & _). simpl in Heq.
  rewrite <- Heq in Hl. apply Forall_app in Hl as [Hpre Hpost]. clear Heq.
  assert (Hm : forall after new new' after', P new -> Forall P after ->
    merge_forward new after = (new', after') -> P new' /\ Forall P after').
  { induction after as [|y after IH]; intros new new' after' Hn Ha; simpl; [by intros [= <- <-]|].
    apply Forall_cons in Ha as [Hy Ha].
    destruct (CanMerge new y); [|intros [= <- <-]; auto]. apply IH; auto. }
  assert (He : forall r k, P r -> Forall P k -> Forall P (set_emplace r k)).
  { intros r. induction k as [|y k IH]; intros Hp Hk; simpl; [auto|].
    apply Forall_cons in Hk as [Hy Hk]. destruct (range_lt r y), (range_lt y r); auto. }
  destruct (merge_forward _ post) as [new after] eqn:Hmf.
  destruct (Hm _ _ _ _ Hr Hpost Hmf) as [Hnew Hafter].
  destruct pre as [|y pre]; [intros [= <-]; auto|].
  simpl in Hpre. apply Forall_app in Hpre as [Hpre Hy%Forall_inv].
  destruct (CanMerge new y); intros [= <-]; apply He; auto; simpl; apply Forall_app; auto.
  split; [|done]. apply Forall_app; auto.
Qed.

Lemma ContainsRange_spec l s e :
  wf l -> s < e ->
  exists b, ContainsRange l s e = Ok b /\
    (b = true <-> forall x, s <= x < e -> covers l x).
Proof.
  intros Hwf Hse. destruct (ContainsRange_eq l s e Hwf) as (b & Hb & Hi); [lia|].
  exists b. split; [done|]. by rewrite Hi, Exists_Contains_covers.
Qed.

Lemma EndOfContainingRange_spec l s e :
  wf l -> 0 <= s < 2 ^ 64 - 1 ->
  EndOfContainingRange l s = Some e <-> exists r, r ∈ l /\ in_range s r /\ end_ r = e.
Proof.
  intros Hwf Hs. unfold EndOfContainingRange. rewrite u64_id by (unfold is_u64; lia).
  destruct (upper_bound _ [] l) as [pre post] eqn:Hub.
  pose proof (upper_bound_wf _ _ _ _ Hwf Hub) as (Hl & _ & _). split.
  - destruct pre as [|y pre]; [done|]. destruct (Contains y _) eqn:E; [|done].
    intros [= <-]. exists y. split_and!; [|range_lia|done]. rewrite Hl. simpl. set_solver.
  - intros (r & Hr & Hin & <-).
    destruct (Contains_unique l (mkRange s (s + 1)) r pre post) as [pre' ->]; try done.
    { range_lia. } { range_lia. }
    assert (Contains r (mkRange s (s + 1)) = true) as -> by range_lia. done.
Qed.

(** Ranges that hold at least one number.  [InsertRange(s, s)] can leave an
    empty range behind, so this is a property of the calls made. *)
Definition nonempty_ranges (l : list Range) : Prop := Forall (fun r => start_ r < end_ r) l.

Lemma wf_covers_head r l : wf (r :: l) -> start_ r < end_ r ->
  (forall x, covers (r :: l) x -> start_ r <= x) /\ covers (r :: l) (start_ r).
Proof.
  intros (Hp & Hs & Hw)%wf_cons Hne. split.
  - intros x [Hx|Hx]%covers_cons; [range_lia|].
    apply Exists_exists in Hx as (z & Hz & Hx). rewrite Forall_forall in Hs.
    specialize (Hs _ Hz). range_lia.
  - apply covers_cons. left. range_lia.
Qed.

Lemma covers_tail_gt r l x : wf (r :: l) -> covers l x -> end_ r < x.
Proof.
  intros (Hp & Hs & Hw)%wf_cons (z & Hz & Hx)%Exists_exists.
  rewrite Forall_forall in Hs. specialize (Hs _ Hz). range_lia.
Qed.

Lemma head_range_eq r l r' l' :
  wf (r :: l) -> wf (r' :: l') -> start_ r < end_ r -> start_ r' < end_ r' ->
  (forall x, covers (r :: l) x -> covers (r' :: l') x) ->
  start_ r = start_ r' -> end_ r <= end_ r'.
Proof.
  intros Hw Hw' Hne Hne' Hsub Hst.
  destruct (decide (end_ r <= end_ r')); [done|].
  assert (covers (r' :: l') (end_ r')) as [Hx|Hx]%covers_cons.
  { apply Hsub, covers_cons. left. range_lia. }
  - range_lia.
  - pose proof (covers_tail_gt _ _ _ Hw' Hx). lia.
Qed.

(** The representation is canonical, so [operator==] on the vectors of ranges
    decides equality of the covered sets. *)
Lemma wf_canonical l k :
  wf l -> wf k -> nonempty_ranges l -> nonempty_ranges k ->
  (forall x, covers l x <-> covers k x) -> l = k.
Proof.
  revert k. induction l as [|r l IH]; intros [|r' k] Hl Hk Nl Nk Hc; [done|..].
  - apply Forall_cons in Nk as [Nk _]. destruct (wf_covers_head r' k Hk Nk) as [_ H%Hc].
    by apply covers_nil in H.
  - apply Forall_cons in Nl as [Nl _]. destruct (wf_covers_head r l Hl Nl) as [_ H%Hc].
    by apply covers_nil in H.
  - apply Forall_cons in Nl as [Nl Nl']. apply Forall_cons in Nk as [Nk Nk'].
    destruct (wf_covers_head r l Hl Nl) as [Hlo1 Hin1].
    destruct (wf_covers_head r' k Hk Nk) as [Hlo2 Hin2].
    assert (start_ r = start_ r') as Hst.
    { apply Z.le_antisymm; [by apply Hlo1, Hc|by apply Hlo2, Hc]. }
    assert (end_ r = end_ r') as Hen.
    { apply Z.le_antisymm; eapply head_range_eq; eauto; intros x; apply Hc. }
    assert (r = r') as <- by (destruct r, r'; simpl in *; congruence).
    f_equal. apply IH; [by apply wf_cons in Hl as (_ & _ & ?)|
      by apply wf_cons in Hk as (_ & _ & ?)|done|done|].
    intros x. specialize (Hc x). rewrite !covers_cons in Hc.
    split; intros Hx; [pose proof (covers_tail_gt _ _ _ Hl Hx)|pose proof (covers_tail_gt _ _ _ Hk Hx)];
      (assert (~ in_range x r) by range_lia); tauto.
Qed.

(** ** Serialization (io/serialize_disjoint_range_set.cc)

    The protobuf codec is not part of the repository: a parameter, with the
    documented property that parsing undoes serializing. *)
Section Serialize.
Context (SerializeAsString : list (Z * Z) -> bytes)
        (ParseFromString : bytes -> option (list (Z * Z))).

Definition Serialize (range_set : list Range) : bytes :=
  SerializeAsString (AllRanges range_set).

Fixpoint insert_all (set : list Range) (l : list (Z * Z)) : result (list Range) :=
  match l with
  | [] => Ok set
  | (s, e) :: l' => let* set' := InsertRange set s e in insert_all set' l'
  end.

Definition DeserializeDisjointRangeSet (data : bytes) : result (list Range) :=
  match ParseFromString data with
  | None => Err "proto.ParseFromString(data)"
  | Some proto => insert_all [] proto
  end.

Lemma upper_bound_all r before after :
  Forall (fun y => range_lt r y = false) after ->
  upper_bound r before after = (rev after ++ before, []).
Proof.
  revert before. induction after as [|y after IH]; intros before; [done|].
  intros [Hy Ha]%Forall_cons. simpl. rewrite Hy, IH by done. by rewrite <- app_assoc.
Qed.

(** Inserting past the last range appends. *)
Lemma InsertRange_append k r :
  wf (k ++ [r]) -> InsertRange k (start_ r) (end_ r) = Ok (k ++ [r]).
Proof.
  intros (Hk & Hr & Hs)%wf_snoc. unfold InsertRange.
  rewrite (proj2 (Z.leb_le _ _)) by done. simpl.
  destruct (ContainsRange_eq k _ _ Hk Hr) as (b & -> & Hb). simpl.
  pose proof Hk as [_ Hp]. rewrite Forall_forall in Hs, Hp. destruct b.
  { exfalso. apply proj1, Exists_exists in Hb as (y & Hy & Hc); [|done].
    specialize (Hs _ Hy). range_lia. }
  replace (mkRange (start_ r) (end_ r)) with r by by destruct r.
  rewrite upper_bound_all, app_nil_r; simpl.
  2:{ apply Forall_forall. intros y Hy. specialize (Hs _ Hy). specialize (Hp _ Hy). range_lia. }
  assert (set_emplace r (rev (rev k) ++ []) = k ++ [r]) as He.
  { rewrite rev_involutive. apply set_emplace_between; [|done].
    apply Forall_forall. intros y Hy. specialize (Hs _ Hy). specialize (Hp _ Hy). range_lia. }
  destruct (rev k) as [|y k'] eqn:Ek; [by rewrite He|].
  assert (CanMerge r y = false) as ->; [|by rewrite He].
  assert (y ∈ k) as Hy. { rewrite list_elem_of_In, in_rev, Ek. by left. }
  specialize (Hs _ Hy). range_lia.
Qed.

Lemma insert_all_append k l :
  wf (k ++ l) -> insert_all k (AllRanges l) = Ok (k ++ l).
Proof.
  revert k. induction l as [|r l IH]; intros k Hw; simpl; [by rewrite app_nil_r|].
  rewrite InsertRange_append; simpl.
  - by rewrite IH, <- app_assoc by by rewrite <- app_assoc.
  - rewrite cons_middle, app_assoc in Hw. by apply wf_app in Hw as (? & _ & _).
Qed.
End Serialize.

(** ** Properties *)

Lemma insert_all_spec calls : forall set,
  wf set -> Forall (fun c => c.1 <= c.2) calls ->
  exists l, insert_all set calls = Ok l /\ wf l /\
    forall x, covers l x <-> covers set x \/ Exists (fun c => c.1 <= x < c.2) calls.
Proof.
  induction calls as [|[s e] calls IH]; intros set Hw Hc.
  - exists set. split_and!; [done..|]. intros x. rewrite Exists_nil. tauto.
  - apply Forall_cons in Hc as [Hse Hc]. simpl in *.
    destruct (InsertRange_spec set s e Hw Hse) as (l1 & -> & Hw1 & Hcov1). simpl.
    destruct (IH l1 Hw1 Hc) as (l & -> & Hwl & Hcov). exists l. split_and!; [done..|].
    intros x. rewrite Hcov, Hcov1, Exists_cons. simpl. tauto.
Qed.

(** C38. Any sequence of [InsertRange] calls with [start <= end], from an empty
    set, succeeds, leaves a set of sorted, pairwise separated ranges, and that
    set covers exactly the numbers of the inserted intervals. *)
Theorem InsertRange_history (calls : list (Z * Z)) :
  Forall (fun c => c.1 <= c.2) calls ->
  exists l, insert_all [] calls = Ok l /\ wf l /\
    forall x, covers l x <-> Exists (fun c => c.1 <= x < c.2) calls.
Proof.
  intros Hc. destruct (insert_all_spec calls [] wf_nil Hc) as (l & H1 & H2 & H3).
  exists l. split_and!; [done..|]. intros x. rewrite H3, covers_nil. tauto.
Qed.

Lemma InsertRange_history_witness :
  exists l, insert_all [] [(5, 9); (1, 3); (3, 5)] = Ok l /\ wf l /\
    forall x, covers l x <-> Exists (fun c => c.1 <= x < c.2) [(5, 9); (1, 3); (3, 5)].
Proof. apply (InsertRange_history [(5, 9); (1, 3); (3, 5)]). repeat constructor; simpl; lia. Defined.

(** On a well-formed set [ContainsRange(start, end)] answers whether every
    number of the non-empty interval [[start, end)] is covered, although it
    looks at a single range. *)
Theorem ContainsRange_correct (l : list Range) (s e : Z) :
  wf l -> s < e ->
  exists b, ContainsRange l s e = Ok b /\
    (b = true <-> forall x, s <= x < e -> covers l x).
Proof. apply ContainsRange_spec. Qed.

Lemma wf_example : wf [mkRange 1 5; mkRange 8 9].
Proof. split; repeat constructor; unfold sep, proper; simpl; lia. Qed.

Lemma ContainsRange_correct_witness :
  exists b, ContainsRange [mkRange 1 5; mkRange 8 9] 2 4 = Ok b /\
    (b = true <-> forall x, 2 <= x < 4 -> covers [mkRange 1 5; mkRange 8 9] x).
Proof. apply (ContainsRange_correct [mkRange 1 5; mkRange 8 9] 2 4); [apply wf_example|lia]. Defined.

(** Below the largest 64-bit number, [EndOfContainingRange(start)] returns
    the end of the range [start] is a member of, and [nullopt] when [start] is
    in no range. *)
Theorem EndOfContainingRange_correct (l : list Range) (s e : Z) :
  wf l -> 0 <= s < 2 ^ 64 - 1 ->
  EndOfContainingRange l s = Some e <-> exists r, r ∈ l /\ in_range s r /\ end_ r = e.
Proof. apply EndOfContainingRange_spec. Qed.

Lemma EndOfContainingRange_correct_witness :
  EndOfContainingRange [mkRange 1 5; mkRange 8 9] 3 = Some 5 <->
  exists r, r ∈ [mkRange 1 5; mkRange 8 9] /\ in_range 3 r /\ end_ r = 5.
Proof.
  apply (EndOfContainingRange_correct [mkRange 1 5; mkRange 8 9] 3 5); [apply wf_example|lia].
Defined.

(** At the largest 64-bit number the probe [start + 1] wraps to 0:
    [EndOfContainingRange] reports the end of the last range although [start]
    is in no range. *)
Theorem EndOfContainingRange_wraps :
  exists l, wf l /\ ~ covers l (2 ^ 64 - 1) /\
    EndOfContainingRange l (2 ^ 64 - 1) = Some 10.
Proof.
  exists [mkRange 0 10]. split_and!; [|intros [H|H]%covers_cons|reflexivity].
  - split; repeat constructor; unfold proper; simpl; lia.
  - unfold in_range in H. simpl in H. lia.
  - by apply covers_nil in H.
Qed.

Lemma Deserialize_Serialize
    (SerializeAsString : list (Z * Z) -> bytes)
    (ParseFromString : bytes -> option (list (Z * Z)))
    (Hcodec : forall rs, Forall (fun r => is_u64 r.1 /\ is_u64 r.2) rs ->
       ParseFromString (SerializeAsString rs) = Some rs)
    (l : list Range) :
  wf l -> Forall (fun r => is_u64 (start_ r) /\ is_u64 (end_ r)) l ->
  DeserializeDisjointRangeSet ParseFromString (Serialize SerializeAsString l) = Ok l.
Proof.
  intros Hw Hl. unfold DeserializeDisjointRangeSet, Serialize.
  rewrite Hcodec; [by apply (insert_all_append [])|].
  unfold AllRanges. by apply Forall_map.
Qed.

(** Deserializing what was serialized gives back the very same set, for
    every well-formed set of 64-bit ranges and any protobuf codec whose parser
    undoes its serializer. *)
Theorem Serialize_roundtrip
    (SerializeAsString : list (Z * Z) -> bytes)
    (ParseFromString : bytes -> option (list (Z * Z)))
    (Hcodec : forall rs, Forall (fun r => is_u64 r.1 /\ is_u64 r.2) rs ->
       ParseFromString (SerializeAsString rs) = Some rs)
    (l : list Range) :
  wf l -> Forall (fun r => is_u64 (start_ r) /\ is_u64 (end_ r)) l ->
  DeserializeDisjointRangeSet ParseFromString (Serialize SerializeAsString l) = Ok l.
Proof. by apply Deserialize_Serialize. Qed.

(** A codec for the witness: 16 bytes per range. *)
Definition fixed_encode (rs : list (Z * Z)) : bytes :=
  flat_map (fun r => le_bytes 8 r.1 ++ le_bytes 8 r.2) rs.
Fixpoint fixed_decode_aux (n : nat) (b : bytes) : list (Z * Z) :=
  match n with
  | O => []
  | S n' => (le_value (ztake 8 b), le_value (zslice 8 8 b)) :: fixed_decode_aux n' (zdrop 16 b)
  end.
Definition fixed_decode (b : bytes) : option (list (Z * Z)) :=
  Some (fixed_decode_aux (length b / 16) b).

Lemma fixed_codec rs :
  Forall (fun r => is_u64 r.1 /\ is_u64 r.2) rs -> fixed_decode (fixed_encode rs) = Some rs.
Proof.
  intros Hrs. unfold fixed_decode. f_equal.
  assert (length (fixed_encode rs) = 16 * length rs)%nat as ->.
  { clear. induction rs as [|r rs IH]; [done|]. unfold fixed_encode in *. cbn [flat_map].
    rewrite !length_app, !length_le_bytes, IH. cbn [length]. lia. }
  rewrite Nat.mul_comm, Nat.div_mul by lia.
  induction Hrs as [|[s e] rs [Hs He] Hrs IH]; [done|]. simpl in Hs, He.
  unfold fixed_encode. cbn [flat_map length fixed_decode_aux fst snd].
  fold (fixed_encode rs). rewrite <- app_assoc.
  assert (zlen (le_bytes 8 s) = 8) as L1 by apply zlen_le_bytes.
  assert (zlen (le_bytes 8 e) = 8) as L2 by apply zlen_le_bytes.
  rewrite ztake_app_le, ztake_all by lia.
  replace (zslice 8 8 _) with (le_bytes 8 e).
  2:{ transitivity (zslice (zlen (le_bytes 8 s)) (zlen (le_bytes 8 e))
        (le_bytes 8 s ++ le_bytes 8 e ++ fixed_encode rs)); [by rewrite zslice_mid|].
      by rewrite L1, L2. }
  rewrite zdrop_app_ge, zdrop_app_ge, L1, L2, zdrop_0 by lia.
  unfold is_u64 in *. rewrite !le_value_bytes by (simpl Z.of_nat; lia).
  f_equal. exact IH.
Qed.

Lemma Serialize_roundtrip_witness :
  DeserializeDisjointRangeSet fixed_decode (Serialize fixed_encode [mkRange 1 5; mkRange 8 9])
  = Ok [mkRange 1 5; mkRange 8 9].
Proof.
  apply (Serialize_roundtrip fixed_encode fixed_decode fixed_codec); [apply wf_example|].
  repeat constructor; unfold is_u64; simpl; lia.
Defined.
End RangeSet.
