(* ===== verification/IO.v ===== *)
(** * The io library: interfaces and the routines built on them

    [io.h] declares the abstract classes Reader, Writer, Seeker, ReaderSeeker
    and WriterSeeker; each is a typeclass over the type of the object's state.
    [Read(buf, count)] returns the bytes it put in the buffer, so its length is
    the C++ return value.  The laws a client may rely on (the semantics of
    read(2), pread(2), write(2) and lseek(2) the comments of io.h name) are the
    classes [PReadLaws], [ReadLaws] and [WriteLaws]; the routines of
    read_exact.cc, write_exact.cc, copy.cc, string.cc, length.cc and
    fake_pread_pwrite.cc are proved against them, and InMemory.v, Views.v
    discharge them. *)
From S2P Require Import Prelude.

Module IO.

(** ** Interfaces (io.h, reader.h) *)
Class Reader (R : Type) := Read : Z -> M R bytes.
Class Writer (W : Type) := Write : bytes -> M W Z.
Class Seeker (R : Type) := {
  SeekSet : Z -> M R Z;
  SeekCur : Z -> M R Z;
  SeekEnd : Z -> M R Z
}.
Class ReaderSeeker (R : Type) := {
  rs_reader :: Reader R;
  rs_seeker :: Seeker R;
  PRead : R -> Z -> Z -> result bytes
}.
Class WriterSeeker (W : Type) := {
  ws_writer :: Writer W;
  ws_seeker :: Seeker W;
  PWrite : bytes -> Z -> M W Z;
  Truncate : Z -> M W unit
}.

(** [WriterSeeker::Truncate] and [ReaderWriterSeeker::Truncate] as io.cc
    implements them for classes that do not override them. *)
Definition Truncate_default {W} (size : Z) : M W unit := lift (Err "Unimplemented").

(** pread(2): a prefix of what is stored at the offset, not empty unless at the
    end of the data or for a zero count. *)
Class PReadLaws (R : Type) `{ReaderSeeker R} := {
  contents : R -> bytes;
  pread_ok : R -> Prop;
  contents_size r : pread_ok r -> zlen (contents r) < 2 ^ 64;
  pread_spec r count off :
    pread_ok r -> is_u64 count -> is_u64 off ->
    exists n, PRead r count off = Ok (zslice off n (contents r)) /\
      0 <= n <= count /\ off + n <= Z.max off (zlen (contents r)) /\
      (0 < count -> off < zlen (contents r) -> 0 < n)
}.

(** read(2) on a stream: consumes a prefix of the remaining data. *)
Class ReadLaws (R : Type) `{Reader R} := {
  remaining : R -> bytes;
  read_ok : R -> Prop;
  remaining_size r : read_ok r -> zlen (remaining r) < 2 ^ 64;
  read_spec r count :
    read_ok r -> is_u64 count ->
    exists bs r', Read count r = (Ok bs, r') /\ read_ok r' /\
      remaining r = bs ++ remaining r' /\ zlen bs <= count /\
      (0 < count -> remaining r <> [] -> bs <> [])
}.

(** write(2) on a sink that accepts at least one byte at a time. *)
Class WriteLaws (W : Type) `{Writer W} := {
  written : W -> bytes;
  write_ok : W -> Z -> Prop;   (* room for that many more bytes *)
  write_spec w room buf :
    write_ok w room -> zlen buf <= room ->
    exists n w', Write buf w = (Ok n, w') /\ 0 <= n <= zlen buf /\
      write_ok w' (room - n) /\ written w' = written w ++ ztake n buf /\
      (buf <> [] -> 0 < n)
}.

(** ** read_exact.cc *)
Section read_exact.
Context {R : Type}.

Definition ReadExact `{Reader R} (size : Z) : M R bytes := fun r =>
  while_ (fun '(r, size, buf) =>
    if size >? 0 then
      match Read size r with
      | (Ok bs, r') =>
          if zlen bs >? 0 then inl (r', u64 (size - zlen bs), buf ++ bs)
          else inr (Err "EOF, still want to read", r')
      | (fl, r') => inr (fail_as fl, r')
      end
    else inr (Ok buf, r)) (Fuel, r) (r, size, []).

Definition PReadExact `{ReaderSeeker R} (reader : R) (size offset : Z) : result bytes :=
  while_ (fun '(size, offset, buf) =>
    if size >? 0 then
      match PRead reader size offset with
      | Ok bs =>
          if zlen bs >? 0
          then inl (u64 (size - zlen bs), u64 (offset + zlen bs), buf ++ bs)
          else inr (Err "EOF, still want to read")
      | fl => inr (fail_as fl)
      end
    else inr (Ok buf)) Fuel (size, offset, []).

Definition ReadExactOrEof `{Reader R} (size : Z) : M R (option bytes) := fun r =>
  while_ (fun '(r, read, buf) =>
    if read <? size then
      match Read (u64 (size - read)) r with
      | (Ok bs, r') =>
          if (zlen bs =? 0) && (read =? 0) then inr (Ok None, r')
          else if zlen bs >? 0 then inl (r', u64 (read + zlen bs), buf ++ bs)
          else inr (Err "EOF, still want to read", r')
      | (fl, r') => inr (fail_as fl, r')
      end
    else inr (Ok (Some buf), r)) (Fuel, r) (r, 0, []).
End read_exact.

(** ** write_exact.cc *)
Definition WriteExact {W} `{Writer W} (buf : bytes) : M W unit := fun w =>
  while_ (fun '(w, buf) =>
    if zlen buf >? 0 then
      match Write buf w with
      | (Ok data_written, w') =>
          if data_written >? 0 then inl (w', zdrop data_written buf)
          else inr (Err "Write returned 0 before completing", w')
      | (fl, w') => inr (fail_as fl, w')
      end
    else inr (Ok tt, w)) (Fuel, w) (w, buf).

(** ** string.cc *)
Definition ReadToString {R} `{Reader R} : M R bytes := fun r =>
  while_ (fun '(r, out) =>
    match Read 65536 r with
    | (Ok bs, r') => if zlen bs >? 0 then inl (r', out ++ bs) else inr (Ok out, r')
    | (fl, r') => inr (fail_as fl, r')
    end) (Fuel, r) (r, []).

(** ** length.cc *)
Definition Length {R} `{Seeker R} : M R Z :=
  let! current_pos := SeekCur 0 in
  let! end_ := SeekEnd 0 in
  let! _ := SeekSet current_pos in
  mret end_.

(** ** fake_pread_pwrite.cc *)
Definition FakePRead {R} `{ReaderSeeker R} (count offset : Z) : M R bytes :=
  let! original_offset := SeekCur 0 in
  let! _ := SeekSet offset in
  let! read_res := attempt (Read count) in
  let! _ := SeekSet original_offset in
  match read_res with
  | Some bs => mret bs
  | None => lift (Err "read_res")
  end.

Definition FakePWrite {W} `{WriterSeeker W} (buf : bytes) (offset : Z) : M W Z :=
  let! original_offset := SeekCur 0 in
  let! _ := SeekSet offset in
  let! write_res := attempt (Write buf) in
  let! _ := SeekSet original_offset in
  match write_res with
  | Some n => mret n
  | None => lift (Err "read_res")
  end.

(** ** copy.cc *)
Definition kBufferSize : Z := Z.shiftl 1 26.

(** The inner loop of [Copy] and [SparseCopy] is [WriteExact]'s loop with its
    own message. *)
Definition write_chunk {W} `{Writer W} (buf : bytes) : M W unit := fun w =>
  while_ (fun '(w, chunk_written) =>
    if chunk_written <? zlen buf then
      match Write (zdrop chunk_written buf) w with
      | (Ok written, w') =>
          if written >? 0 then inl (w', u64 (chunk_written + written))
          else inr (Err "Premature EOF on writer", w')
      | (fl, w') => inr (fail_as fl, w')
      end
    else inr (Ok tt, w)) (Fuel, w) (w, 0).

Definition Copy {R W} `{Reader R} `{Writer W} (reader : R) (writer : W)
    : result unit * (R * W) :=
  while_ (fun '(r, w) =>
    match Read kBufferSize r with
    | (Ok buf, r') =>
        if zlen buf >? 0 then
          match write_chunk buf w with
          | (Ok _, w') => inl (r', w')
          | (fl, w') => inr (fail_as fl, (r', w'))
          end
        else inr (Ok tt, (r', w))
    | (fl, r') => inr (fail_as fl, (r', w))
    end) (Fuel, (reader, writer)) (reader, writer).

(** The scan of [SparseCopy] runs over the whole array, whatever the number of
    bytes just read: [buf] keeps the tail of earlier chunks. *)
Definition is_zero (c : ascii) : bool := bool_decide (c = zero).
Definition zero_chunk (chunk_read : Z) (buf : bytes) : bool :=
  match znth 0 buf, znth (chunk_read - 1) buf with
  | Some c, Some d => is_zero c && is_zero d && forallb is_zero buf
  | _, _ => false
  end.

Definition SparseCopy {R W} `{Reader R} `{WriterSeeker W} (buf0 : bytes)
    (reader : R) (writer : W) : result unit * (R * W) :=
  match SeekSet 0 writer with
  | (Ok _, writer) =>
      while_ (fun '(r, w, buf, total_size) =>
        match Read kBufferSize r with
        | (Ok bs, r') =>
            let chunk_read := zlen bs in
            if chunk_read >? 0 then
              let total_size := u64 (total_size + chunk_read) in
              let buf := bs ++ zdrop chunk_read buf in
              let write :=
                if zero_chunk chunk_read buf then
                  let! _ := Truncate total_size in
                  let! _ := SeekCur chunk_read in mret tt
                else write_chunk bs in
              match write w with
              | (Ok _, w') => inl (r', w', buf, total_size)
              | (fl, w') => inr (fail_as fl, (r', w'))
              end
            else
              match Write [] w with
              | (Ok _, w') => inr (Ok tt, (r', w'))
              | (fl, w') => inr (fail_as fl, (r', w'))
              end
        | (fl, r') => inr (fail_as fl, (r', w))
        end) (Fuel, (reader, writer)) (reader, writer, buf0, 0)
  | (fl, writer) => (fail_as fl, (reader, writer))
  end.

(** What a reader promises to [Length]: it reports the size of the data and
    leaves the data alone. *)
Class LengthLaws (R : Type) `{PReadLaws R} :=
  length_spec r : pread_ok r ->
    exists r', Length r = (Ok (zlen (contents r)), r') /\
      contents r' = contents r /\ pread_ok r'.

(** ** The routines against the laws *)
Section pread_exact_spec.
Context {R : Type} `{PReadLaws R}.

Lemma PReadExact_spec r size off :
  pread_ok r -> is_u64 size -> is_u64 off ->
  PReadExact r size off =
  if (size =? 0) || (off + size <=? zlen (contents r))
  then Ok (zslice off size (contents r)) else Err "EOF, still want to read".
Proof.
  intros Hok Hsize Hoff. pose proof (contents_size r Hok) as Hlen. unfold PReadExact.
  apply while_rule with
    (I := fun '(sz, o, buf) => exists k, 0 <= k <= size /\ sz = size - k /\
       o = off + k /\ buf = zslice off k (contents r) /\
       (k = 0 \/ o <= zlen (contents r)))
    (m := fun '(sz, o, buf) => sz).
  - exists 0. unfold is_u64 in *. split_and!; try lia.
    unfold zslice. by rewrite ztake_0 by lia.
  - unfold is_u64 in *. lia.
  - intros [[sz o] buf] (k & Hd & -> & -> & -> & Hor) _. unfold is_u64 in *.
    destruct (size - k >? 0) eqn:E.
    + destruct (pread_spec r (size - k) (off + k)) as (n & -> & Hn & Hmax & Hpos);
        [done|unfold is_u64; lia|unfold is_u64; lia|].
      rewrite zlen_zslice by lia.
      destruct (Z.min _ _ >? 0) eqn:E2; cbv beta iota.
      * rewrite !u64_id by (unfold is_u64; lia). split; [|lia].
        exists (k + n). split_and!; try lia.
        rewrite zslice_plus by lia. done.
      * rewrite (proj2 (Z.eqb_neq size 0)), (proj2 (Z.leb_gt _ _)); [done|lia|lia].
    + assert (k = size) as -> by lia.
      destruct (size =? 0) eqn:E0; simpl; [done|].
      rewrite (proj2 (Z.leb_le _ _)); [done|lia].
Qed.
End pread_exact_spec.

Section read_spec.
Context {R : Type} `{ReadLaws R}.

Lemma ReadExact_spec r size :
  read_ok r -> is_u64 size ->
  exists r', read_ok r' /\
    if size <=? zlen (remaining r)
    then ReadExact size r = (Ok (ztake size (remaining r)), r') /\
         remaining r' = zdrop size (remaining r)
    else ReadExact size r = (Err "EOF, still want to read", r').
Proof.
  intros Hok Hsize. pose proof (remaining_size r Hok) as Hlen. unfold ReadExact.
  apply while_rule with
    (I := fun '(r1, sz, buf) => read_ok r1 /\ remaining r = buf ++ remaining r1 /\
            0 <= sz /\ zlen buf = size - sz)
    (m := fun '(r1, sz, buf) => sz)
    (Q := fun t => exists r', read_ok r' /\
      if size <=? zlen (remaining r)
      then t = (Ok (ztake size (remaining r)), r') /\ remaining r' = zdrop size (remaining r)
      else t = (Err "EOF, still want to read", r')).
  - unfold is_u64 in *. split_and!; [done..|lia|]. rewrite zlen_nil. lia.
  - unfold is_u64 in *. lia.
  - intros [[r1 sz] buf] (Hr1 & Hrem & Hsz & Hbuf) _. unfold is_u64 in *.
    pose proof (zlen_nonneg buf). pose proof (zlen_nonneg (remaining r1)).
    destruct (sz >? 0) eqn:E.
    + destruct (read_spec r1 sz) as (bs & r2 & -> & Hr2 & Hrem2 & Hlenb & Hne);
        [done|unfold is_u64; lia|]. pose proof (zlen_nonneg bs).
      destruct (zlen bs >? 0) eqn:E2; cbv beta iota.
      * rewrite u64_id by (unfold is_u64; lia). split; [|lia].
        split_and!; [done|by rewrite Hrem, Hrem2, app_assoc|lia|zlen_lia].
      * exists r2. split; [done|].
        assert (remaining r1 = []) as Hnil.
        { destruct (remaining r1); [done|]. destruct bs; [exfalso; apply Hne; [lia|done|done]|].
          rewrite zlen_cons in *. pose proof (zlen_nonneg bs). lia. }
        rewrite Hrem, Hnil, app_nil_r, (proj2 (Z.leb_gt _ _)); [done|lia].
    + exists r1. split; [done|]. rewrite Hrem, zlen_app, (proj2 (Z.leb_le _ _)) by lia.
      rewrite ztake_app_le, ztake_all, zdrop_app_ge, zdrop_0 by lia. done.
Qed.

Lemma ReadToString_spec r :
  read_ok r ->
  exists r', ReadToString r = (Ok (remaining r), r') /\ read_ok r' /\ remaining r' = [].
Proof.
  intros Hok. pose proof (remaining_size r Hok) as Hlen. unfold ReadToString.
  apply while_rule with
    (I := fun '(r1, out) => read_ok r1 /\ remaining r = out ++ remaining r1)
    (m := fun '(r1, out) => zlen (remaining r1))
    (Q := fun t => exists r', t = (Ok (remaining r), r') /\ read_ok r' /\ remaining r' = []).
  - done.
  - pose proof (zlen_nonneg (remaining r)). lia.
  - intros [r1 out] (Hr1 & Hrem) _.
    destruct (read_spec r1 65536) as (bs & r2 & -> & Hr2 & Hrem2 & Hlenb & Hne);
      [done|unfold is_u64; lia|]. destruct (zlen bs >? 0) eqn:E2; cbv beta iota.
    + rewrite Hrem, Hrem2, app_assoc. split; [done|]. zlen_lia.
    + assert (bs = []) as -> by (apply zlen_0_nil; pose proof (zlen_nonneg bs); lia).
      simpl in Hrem2. destruct (remaining r1) eqn:Er; [|exfalso; by apply Hne].
      exists r2. rewrite app_nil_r in Hrem. by subst.
Qed.
End read_spec.

Section write_spec.
Context {W : Type} `{WriteLaws W}.

Lemma WriteExact_spec w room buf :
  write_ok w room -> zlen buf <= room -> zlen buf < 2 ^ 64 ->
  exists w', WriteExact buf w = (Ok tt, w') /\ write_ok w' (room - zlen buf) /\
    written w' = written w ++ buf.
Proof.
  intros Hok Hroom Hlen. unfold WriteExact.
  apply while_rule with
    (I := fun '(w1, b) => exists k, 0 <= k /\ b = zdrop k buf /\ k + zlen b = zlen buf /\
            write_ok w1 (room - k) /\ written w1 = written w ++ ztake k buf)
    (m := fun '(w1, b) => zlen b)
    (Q := fun t => exists w', t = (Ok tt, w') /\ write_ok w' (room - zlen buf) /\
            written w' = written w ++ buf).
  - exists 0. rewrite zdrop_0, ztake_0, Z.sub_0_r, app_nil_r by lia. done.
  - pose proof (zlen_nonneg buf). lia.
  - intros [w1 b] (k & Hk & -> & Hkb & Hw1 & Hwr) _.
    destruct (zlen (zdrop k buf) >? 0) eqn:E; cbv beta iota.
    + destruct (write_spec w1 (room - k) (zdrop k buf))
        as (n & w2 & -> & Hn & Hw2 & Hwr2 & Hpos); [done|lia|].
      assert (0 < n) as Hn0. { apply Hpos. intros Hnil. rewrite Hnil in E. done. }
      rewrite (proj2 (Z.gtb_lt n 0)) by lia. split; [|zlen_lia].
      exists (k + n). rewrite zdrop_zdrop, ztake_plus, Hwr2, Hwr, app_assoc by lia.
      split_and!; [lia|done|zlen_lia| |done].
      by replace (room - (k + n)) with (room - k - n) by lia.
    + exists w1. assert (k = zlen buf) as -> by (pose proof (zlen_nonneg (zdrop k buf)); lia).
      rewrite ztake_all in Hwr by lia. done.
Qed.

Lemma write_chunk_spec w room buf :
  write_ok w room -> zlen buf <= room -> zlen buf < 2 ^ 64 ->
  exists w', write_chunk buf w = (Ok tt, w') /\ write_ok w' (room - zlen buf) /\
    written w' = written w ++ buf.
Proof.
  intros Hok Hroom Hlen. unfold write_chunk.
  apply while_rule with
    (I := fun '(w1, k) => 0 <= k <= zlen buf /\ write_ok w1 (room - k) /\
            written w1 = written w ++ ztake k buf)
    (m := fun '(w1, k) => zlen buf - k)
    (Q := fun t => exists w', t = (Ok tt, w') /\ write_ok w' (room - zlen buf) /\
            written w' = written w ++ buf).
  - pose proof (zlen_nonneg buf).
    rewrite ztake_0, Z.sub_0_r, app_nil_r by lia. split_and!; [lia|lia|done..].
  - pose proof (zlen_nonneg buf). lia.
  - intros [w1 k] (Hk & Hw1 & Hwr) _.
    destruct (k <? zlen buf) eqn:E; cbv beta iota.
    + destruct (write_spec w1 (room - k) (zdrop k buf))
        as (n & w2 & -> & Hn & Hw2 & Hwr2 & Hpos); [done|zlen_lia|].
      rewrite zlen_zdrop in Hn.
      assert (0 < n) as Hn0.
      { apply Hpos. intros Hnil%(f_equal zlen). zlen_lia. }
      rewrite (proj2 (Z.gtb_lt n 0)) by lia.
      rewrite u64_id by (unfold is_u64; lia). split; [|lia].
      rewrite ztake_plus, Hwr2, Hwr, app_assoc by lia. split_and!; [lia|lia| |done].
      by replace (room - (k + n)) with (room - k - n) by lia.
    + exists w1. assert (k = zlen buf) as -> by lia.
      rewrite ztake_all in Hwr by lia. done.
Qed.
End write_spec.

Section copy_spec.
Context {R W : Type} `{ReadLaws R} `{WriteLaws W}.

Lemma Copy_spec r w room :
  read_ok r -> write_ok w room -> zlen (remaining r) <= room ->
  exists r' w', Copy r w = (Ok tt, (r', w')) /\ remaining r' = [] /\
    written w' = written w ++ remaining r.
Proof.
  intros Hr Hw Hroom. pose proof (remaining_size r Hr) as Hlen. unfold Copy.
  apply while_rule with
    (I := fun '(r1, w1) => exists done, read_ok r1 /\ remaining r = done ++ remaining r1 /\
            write_ok w1 (room - zlen done) /\ written w1 = written w ++ done)
    (m := fun '(r1, w1) => zlen (remaining r1))
    (Q := fun t => exists r' w', t = (Ok tt, (r', w')) /\ remaining r' = [] /\
            written w' = written w ++ remaining r).
  - exists []. rewrite zlen_nil, Z.sub_0_r, app_nil_r. done.
  - pose proof (zlen_nonneg (remaining r)). lia.
  - intros [r1 w1] (k & Hr1 & Hrem & Hw1 & Hwr) _.
    destruct (read_spec r1 kBufferSize) as (bs & r2 & -> & Hr2 & Hrem2 & Hlenb & Hne);
      [done|change kBufferSize with (2 ^ 26); unfold is_u64; lia|].
    destruct (zlen bs >? 0) eqn:E; cbv beta iota.
    + rewrite Hrem in Hroom, Hlen. rewrite Hrem2 in Hroom, Hlen.
      destruct (write_chunk_spec w1 (room - zlen k) bs) as (w2 & -> & Hw2 & Hwr2);
        [done|zlen_lia|zlen_lia|].
      rewrite Hrem, Hrem2. split; [|zlen_lia].
      exists (k ++ bs). rewrite Hwr2, Hwr, !app_assoc. split_and!; try done.
      by rewrite zlen_app, Z.sub_add_distr.
    + assert (bs = []) as -> by (apply zlen_0_nil; pose proof (zlen_nonneg bs); lia).
      simpl in Hrem2. destruct (remaining r1) eqn:Er; [|exfalso; by apply Hne].
      exists r2, w1. rewrite app_nil_r in Hrem. by subst.
Qed.
End copy_spec.

(** [Copy] terminates with success on any reader and writer that follow
    read(2) and write(2), and what the writer received is exactly what the
    reader had left, whatever the sizes of the partial reads and writes. *)
Theorem Copy_complete {R W} `{ReadLaws R} `{WriteLaws W} (r : R) (w : W) room :
  read_ok r -> write_ok w room -> zlen (remaining r) <= room ->
  exists r' w', Copy r w = (Ok tt, (r', w')) /\ remaining r' = [] /\
    written w' = written w ++ remaining r.
Proof. apply Copy_spec. Qed.

End IO.
