(* ===== verification/InMemory.v ===== *)
(** * In-memory files and filesystem (io/in_memory.cc)

    An [InMemoryIo] is a cursor over a byte vector.  The vectors of an
    [InMemoryFilesystem] are shared between all handles opened on a path, so
    the filesystem owns a heap of vectors and a handle holds a location of it;
    erasing a file frees its vector under the open handles. *)
From S2P Require Import Prelude IO.

Module InMemory.
Import IO.

(** [std::vector<char>::max_size()]; growing beyond it throws. *)
Definition kMaxVector : Z := 2 ^ 63 - 1.

Record InMemoryIo := mkIo { data_ : bytes; cursor_ : Z }.

#[global] Instance InMemoryIo_eq_dec : EqDecision InMemoryIo.
Proof. solve_decision. Defined.

Definition set_data (io : InMemoryIo) (d : bytes) : InMemoryIo := mkIo d (cursor_ io).
Definition set_cursor (io : InMemoryIo) (c : Z) : InMemoryIo := mkIo (data_ io) c.

Definition ClampRange (data : bytes) (begin length : Z) : Z :=
  if begin >? zlen data then 0 else Z.min length (u64 (zlen data - begin)).

Definition GrowTo (new_size : Z) (data : bytes) : result bytes :=
  if zlen data <? new_size then
    if new_size <=? kMaxVector
    then Ok (data ++ replicate (Z.to_nat (new_size - zlen data)) zero)
    else Fatal "std::length_error"
  else Ok data.

(** [memcpy(&data_[off], buf, count)], undefined outside the vector. *)
Definition memcpy_to (off : Z) (buf data : bytes) : result bytes :=
  if zlen buf >? 0 then
    if off + zlen buf <=? zlen data then Ok (zwrite off buf data)
    else Fatal "memcpy out of bounds"
  else Ok data.

Definition Read_mem (count : Z) : M InMemoryIo bytes := fun io =>
  let to_read := ClampRange (data_ io) (cursor_ io) count in
  (Ok (zslice (cursor_ io) to_read (data_ io)), set_cursor io (u64 (cursor_ io + to_read))).

Definition Write_mem (buf : bytes) : M InMemoryIo Z := fun io =>
  match GrowTo (u64 (cursor_ io + zlen buf)) (data_ io) with
  | Ok data =>
      match memcpy_to (cursor_ io) buf data with
      | Ok data' => (Ok (zlen buf), mkIo data' (u64 (cursor_ io + zlen buf)))
      | fl => (fail_as fl, set_data io data)
      end
  | fl => (fail_as fl, io)
  end.

Definition seek_to (new_pos : Z) : M InMemoryIo Z := fun io =>
  match GrowTo new_pos (data_ io) with
  | Ok data => (Ok new_pos, mkIo data new_pos)
  | fl => (fail_as fl, io)
  end.

Definition SeekSet_mem (offset : Z) : M InMemoryIo Z := seek_to offset.
Definition SeekCur_mem (offset : Z) : M InMemoryIo Z := fun io =>
  match add_i64 (as_i64 (cursor_ io)) offset with
  | Ok p => seek_to (Z.max p 0) io
  | fl => (fail_as fl, io)
  end.
Definition SeekEnd_mem (offset : Z) : M InMemoryIo Z := fun io =>
  match add_i64 (as_i64 (zlen (data_ io))) offset with
  | Ok p => seek_to (Z.max p 0) io
  | fl => (fail_as fl, io)
  end.

Definition PRead_mem (io : InMemoryIo) (count offset : Z) : result bytes :=
  Ok (zslice offset (ClampRange (data_ io) offset count) (data_ io)).

Definition PWrite_mem (buf : bytes) (offset : Z) : M InMemoryIo Z := fun io =>
  match GrowTo (u64 (offset + zlen buf)) (data_ io) with
  | Ok data =>
      match memcpy_to offset buf data with
      | Ok data' => (Ok (zlen buf), set_data io data')
      | fl => (fail_as fl, set_data io data)
      end
  | fl => (fail_as fl, io)
  end.

#[global] Instance mem_seeker : Seeker InMemoryIo :=
  { SeekSet := SeekSet_mem; SeekCur := SeekCur_mem; SeekEnd := SeekEnd_mem }.
#[global] Instance mem_reader : Reader InMemoryIo := Read_mem.
#[global] Instance mem_writer : Writer InMemoryIo := Write_mem.
#[global] Instance mem_reader_seeker : ReaderSeeker InMemoryIo :=
  { rs_reader := mem_reader; rs_seeker := mem_seeker; PRead := PRead_mem }.
#[global] Instance mem_writer_seeker : WriterSeeker InMemoryIo :=
  { ws_writer := mem_writer; ws_seeker := mem_seeker; PWrite := PWrite_mem;
    Truncate := Truncate_default }.

(** [InMemoryIo(std::string_view)] and [InMemoryIo(std::vector<char>)]. *)
Definition InMemoryIo_of (data : bytes) : InMemoryIo := mkIo data 0.

(** ** Invariant: the cursor stays inside the vector *)
Definition wf (io : InMemoryIo) : Prop :=
  0 <= cursor_ io <= zlen (data_ io) /\ zlen (data_ io) <= kMaxVector.

Lemma kMaxVector_u64 : kMaxVector < 2 ^ 63.
Proof. unfold kMaxVector. lia. Qed.

Lemma ClampRange_spec data begin length :
  zlen data < 2 ^ 64 -> 0 <= begin -> 0 <= length ->
  ClampRange data begin length = Z.min length (Z.max 0 (zlen data - begin)).
Proof.
  intros. unfold ClampRange. destruct (begin >? zlen data) eqn:E; [lia|].
  rewrite u64_id by (unfold is_u64; lia). lia.
Qed.

Lemma GrowTo_spec n data :
  n <= kMaxVector ->
  GrowTo n data = Ok (data ++ replicate (Z.to_nat (n - zlen data)) zero).
Proof.
  intros. unfold GrowTo. destruct (zlen data <? n) eqn:E.
  - by rewrite (proj2 (Z.leb_le _ _)).
  - replace (Z.to_nat (n - zlen data)) with 0%nat by lia. simpl. by rewrite app_nil_r.
Qed.

Lemma memcpy_to_spec off buf data :
  0 <= off -> off + zlen buf <= zlen data -> memcpy_to off buf data = Ok (zwrite off buf data).
Proof.
  intros. unfold memcpy_to. destruct (zlen buf >? 0) eqn:E.
  - by rewrite (proj2 (Z.leb_le _ _)).
  - assert (buf = []) as -> by (apply zlen_0_nil; pose proof (zlen_nonneg buf); lia).
    unfold zwrite. rewrite zlen_nil, Z.add_0_r, app_nil_l. by rewrite ztake_zdrop.
Qed.

(** The vector after a write at [off]: zero-filled up to [off] first. *)
Definition written_at (off : Z) (buf data : bytes) : bytes :=
  zwrite off buf (data ++ replicate (Z.to_nat (off + zlen buf - zlen data)) zero).

Lemma zlen_written_at off buf data :
  0 <= off -> zlen (written_at off buf data) = Z.max (zlen data) (off + zlen buf).
Proof.
  intros. unfold written_at. rewrite zlen_zwrite; [zlen_lia|lia|zlen_lia].
Qed.

Lemma PWrite_mem_spec buf off io :
  0 <= off -> off + zlen buf <= kMaxVector ->
  PWrite_mem buf off io = (Ok (zlen buf), set_data io (written_at off buf (data_ io))).
Proof.
  intros. pose proof (zlen_nonneg buf). pose proof kMaxVector_u64. unfold PWrite_mem.
  rewrite u64_id by (unfold is_u64; lia). rewrite GrowTo_spec by lia.
  rewrite memcpy_to_spec; [done|lia|zlen_lia].
Qed.

Lemma Write_mem_spec buf io :
  wf io -> cursor_ io + zlen buf <= kMaxVector ->
  Write_mem buf io =
  (Ok (zlen buf), mkIo (written_at (cursor_ io) buf (data_ io)) (cursor_ io + zlen buf)).
Proof.
  intros [] ?. pose proof (zlen_nonneg buf). pose proof kMaxVector_u64. unfold Write_mem.
  rewrite u64_id by (unfold is_u64; lia). rewrite GrowTo_spec by lia.
  rewrite memcpy_to_spec; [done|lia|zlen_lia].
Qed.

Lemma Read_mem_spec count io :
  wf io -> 0 <= count ->
  Read_mem count io =
  let n := Z.min count (zlen (data_ io) - cursor_ io) in
  (Ok (zslice (cursor_ io) n (data_ io)), set_cursor io (cursor_ io + n)).
Proof.
  intros [] ?. pose proof kMaxVector_u64. unfold Read_mem. rewrite ClampRange_spec by lia.
  rewrite Z.max_r by lia. rewrite u64_id by (unfold is_u64; lia). done.
Qed.

(** A byte of the vector after a write. *)
Lemma lookup_written_at off buf data (i : nat) :
  0 <= off ->
  written_at off buf data !! i =
  if (off <=? Z.of_nat i) && (Z.of_nat i <? off + zlen buf)
  then buf !! Z.to_nat (Z.of_nat i - off)
  else if Z.of_nat i <? zlen data then data !! i
  else if Z.of_nat i <? off then Some zero else None.
Proof.
  intros Hoff. unfold written_at, zwrite, zlen. rewrite ztake_take, zdrop_drop.
  set (ext := data ++ _).
  assert (length ext = length data `max` Z.to_nat (off + Z.of_nat (length buf)))%nat as Hext.
  { unfold ext. rewrite length_app, length_replicate. lia. }
  destruct (_ && _) eqn:E.
  - rewrite lookup_app_r by (rewrite length_take; lia).
    rewrite lookup_app_l by (rewrite length_take; lia).
    f_equal. rewrite length_take. lia.
  - assert ((take (Z.to_nat off) ext ++ buf ++ drop (Z.to_nat (off + Z.of_nat (length buf))) ext) !! i
            = ext !! i) as ->.
    { destruct (decide (Z.of_nat i < off)).
      - rewrite lookup_app_l by (rewrite length_take; lia). apply lookup_take_lt. lia.
      - rewrite lookup_app_r by (rewrite length_take; lia).
        rewrite lookup_app_r by (rewrite length_take; lia).
        rewrite lookup_drop, length_take. f_equal. lia. }
    unfold ext. destruct (Z.of_nat i <? Z.of_nat (length data)) eqn:E1.
    + by rewrite lookup_app_l by lia.
    + rewrite lookup_app_r by lia. destruct (Z.of_nat i <? off) eqn:E2.
      * apply lookup_replicate. split; [done|lia].
      * apply lookup_replicate_None. lia.
Qed.

(** ** The laws of io.h hold for in-memory files *)
#[global] Program Instance mem_pread_laws : PReadLaws InMemoryIo :=
  { contents := data_; pread_ok := wf }.
Next Obligation. intros io []. pose proof kMaxVector_u64. simpl in *. lia. Qed.
Next Obligation.
  intros io count off [] Hc Ho. unfold is_u64 in *. simpl in *. pose proof kMaxVector_u64.
  unfold PRead_mem. rewrite ClampRange_spec by lia.
  exists (Z.min count (Z.max 0 (zlen (data_ io) - off))). split_and!; [done|lia..].
Qed.

#[global] Program Instance mem_read_laws : ReadLaws InMemoryIo :=
  { remaining := fun io => zdrop (cursor_ io) (data_ io); read_ok := wf }.
Next Obligation. intros io []. pose proof kMaxVector_u64. zlen_lia. Qed.
Next Obligation.
  intros io count Hok Hc. unfold is_u64 in *. pose proof kMaxVector_u64. pose proof Hok as [].
  unfold Read, mem_reader. rewrite Read_mem_spec by (done || lia).
  set (n := Z.min _ _). eexists _, _. split; [done|]. simpl.
  assert (0 <= n <= zlen (data_ io) - cursor_ io) by (unfold n; lia).
  split_and!.
  - split; simpl; lia.
  - unfold zslice. rewrite <- (ztake_zdrop n (zdrop (cursor_ io) (data_ io))) at 1.
    by rewrite zdrop_zdrop by lia.
  - rewrite zlen_zslice by lia. unfold n. lia.
  - intros Hpos Hne Hnil%(f_equal zlen). rewrite zlen_zslice in Hnil by lia.
    apply Hne, zlen_0_nil. change (zlen []) with 0 in Hnil. subst n. zlen_lia.
Qed.

Lemma ztake_written_at off buf data :
  0 <= off <= zlen data ->
  ztake (off + zlen buf) (written_at off buf data) = ztake off data ++ buf.
Proof.
  intros Hoff. unfold written_at, zwrite. pose proof (zlen_nonneg buf).
  rewrite (ztake_app_le off data) by lia. rewrite app_assoc, ztake_app_le by zlen_lia.
  apply ztake_all. zlen_lia.
Qed.

#[global] Program Instance mem_write_laws : WriteLaws InMemoryIo :=
  { written := fun io => ztake (cursor_ io) (data_ io);
    write_ok := fun io room => wf io /\ cursor_ io + room <= kMaxVector }.
Next Obligation.
  intros io room buf [Hwf Hroom] Hbuf. simpl in *. pose proof (zlen_nonneg buf).
  unfold Write, mem_writer. rewrite Write_mem_spec by (done || lia).
  destruct Hwf as [Hc Hd]. eexists _, _. split; [done|]. simpl. split_and!; try lia.
  - unfold wf; simpl. rewrite zlen_written_at by lia. lia.
  - rewrite (ztake_all (zlen buf) buf) by lia. by apply ztake_written_at.
  - intros Hne. destruct buf; [done|]. rewrite zlen_cons. pose proof (zlen_nonneg buf). lia.
Qed.

Lemma seek_to_inside p io :
  p <= zlen (data_ io) -> seek_to p io = (Ok p, set_cursor io p).
Proof. intros. unfold seek_to, GrowTo. by rewrite (proj2 (Z.ltb_ge _ _)) by lia. Qed.

Lemma SeekCur_mem_0 io : wf io -> SeekCur_mem 0 io = (Ok (cursor_ io), io).
Proof.
  intros []. pose proof kMaxVector_u64. unfold SeekCur_mem, add_i64, in_i64.
  rewrite as_i64_id, Z.add_0_r by lia.
  rewrite (proj2 (Z.leb_le _ _)), (proj2 (Z.ltb_lt _ _)) by lia. simpl.
  rewrite Z.max_l, seek_to_inside by lia. by destruct io.
Qed.

Lemma SeekEnd_mem_0 io :
  wf io -> SeekEnd_mem 0 io = (Ok (zlen (data_ io)), set_cursor io (zlen (data_ io))).
Proof.
  intros []. pose proof kMaxVector_u64. unfold SeekEnd_mem, add_i64, in_i64.
  rewrite as_i64_id, Z.add_0_r by lia.
  rewrite (proj2 (Z.leb_le _ _)), (proj2 (Z.ltb_lt _ _)) by lia. simpl.
  by rewrite Z.max_l, seek_to_inside by lia.
Qed.

Lemma Length_mem io : wf io -> Length io = (Ok (zlen (data_ io)), io).
Proof.
  intros Hw. pose proof Hw as []. unfold Length, mbind, mret. simpl.
  rewrite SeekCur_mem_0, SeekEnd_mem_0 by done. unfold SeekSet_mem.
  rewrite seek_to_inside by (simpl; lia). by destruct io.
Qed.

#[global] Instance mem_length_laws : LengthLaws InMemoryIo.
Proof. intros io Hw. exists io. split; [by apply Length_mem|done]. Qed.

(** ** The filesystem *)
Record Fs := mkFs { files_ : gmap bytes Z; heap : gmap Z bytes; next_loc : Z }.
Record Handle := mkHandle { h_loc : Z; h_cursor : Z }.

Definition InMemoryFilesystem : Fs := mkFs ∅ ∅ 0.

Definition FileAttributes (path : bytes) : M Fs Z := mret 420. (* 0644 *)

Definition CreateFile (path : bytes) : M Fs Handle := fun fs =>
  match files_ fs !! path with
  | Some _ => (Err "already exists", fs)
  | None =>
      let l := next_loc fs in
      (Ok (mkHandle l 0),
       mkFs (<[path := l]> (files_ fs)) (<[l := []]> (heap fs)) (l + 1))
  end.

Definition DeleteFile (path : bytes) : M Fs unit := fun fs =>
  match files_ fs !! path with
  | None => (Err "No such file", fs)
  | Some l => (Ok tt, mkFs (delete path (files_ fs)) (delete l (heap fs)) (next_loc fs))
  end.

Definition OpenReadWrite (path : bytes) : M Fs Handle := fun fs =>
  match files_ fs !! path with
  | None => (Err "does not exist", fs)
  | Some l => (Ok (mkHandle l 0), fs)
  end.

Definition OpenReadOnly (path : bytes) : M Fs Handle := OpenReadWrite path.

(** Any method of [InMemoryIo] called through a handle of the filesystem. *)
Definition on_handle {A} (m : M InMemoryIo A) (h : Handle) : M Fs (A * Handle) := fun fs =>
  match heap fs !! h_loc h with
  | None => (Fatal "use of a deleted file's vector", fs)
  | Some d =>
      let '(r, io) := m (mkIo d (h_cursor h)) in
      (match r with Ok a => Ok (a, mkHandle (h_loc h) (cursor_ io)) | fl => fail_as fl end,
       mkFs (files_ fs) (<[h_loc h := data_ io]> (heap fs)) (next_loc fs))
  end.

(** Paths own distinct live vectors; locations are never reused. *)
Definition fs_wf (fs : Fs) : Prop :=
  (forall p l, files_ fs !! p = Some l -> is_Some (heap fs !! l)) /\
  (forall l, is_Some (heap fs !! l) -> l < next_loc fs) /\
  (forall p q l, files_ fs !! p = Some l -> files_ fs !! q = Some l -> p = q).

Lemma fs_wf_empty : fs_wf InMemoryFilesystem.
Proof. split_and!; simpl; intros; simplify_map_eq; by destruct H. Qed.

Lemma CreateFile_wf path fs : fs_wf fs -> fs_wf (CreateFile path fs).2.
Proof.
  intros (H1 & H2 & H3). unfold CreateFile. destruct (files_ fs !! path) eqn:E; [done|].
  assert (Hfresh : forall p l, files_ fs !! p = Some l -> l <> next_loc fs).
  { intros p l Hp%H1%H2. lia. }
  split_and!; simpl.
  - intros p l. rewrite !lookup_insert. case_decide; case_decide; naive_solver.
  - intros l. rewrite lookup_insert. case_decide; [lia|]. intros ?%H2. lia.
  - intros p q l. rewrite !lookup_insert.
    repeat case_decide; naive_solver.
Qed.

Lemma DeleteFile_wf path fs : fs_wf fs -> fs_wf (DeleteFile path fs).2.
Proof.
  intros (H1 & H2 & H3). unfold DeleteFile. destruct (files_ fs !! path) as [l0|] eqn:E; [|done].
  split_and!; simpl.
  - intros p l. rewrite !lookup_delete. case_decide; [done|]. intros Hp.
    case_decide; [|eauto]. subst. exfalso. eauto.
  - intros l. rewrite lookup_delete. case_decide; [by intros []|auto].
  - intros p q l. rewrite !lookup_delete. repeat case_decide; naive_solver.
Qed.

Lemma on_handle_wf {A} (m : M InMemoryIo A) h fs : fs_wf fs -> fs_wf (on_handle m h fs).2.
Proof.
  intros (H1 & H2 & H3). unfold on_handle.
  destruct (heap fs !! h_loc h) as [d|] eqn:E; [|done].
  destruct (m _) as [r io]. split_and!; simpl.
  - intros p l Hp. rewrite lookup_insert. case_decide; eauto.
  - intros l. rewrite lookup_insert. case_decide; [|auto]. subst. eauto.
  - eauto.
Qed.

(** ** Histories of calls on one file *)
Inductive io_op :=
| OpRead (count : Z)
| OpWrite (buf : bytes)
| OpPWrite (buf : bytes) (offset : Z)
| OpSeekSet (offset : Z)
| OpSeekCur (offset : Z)
| OpSeekEnd (offset : Z).

(** The arguments fit their C++ types. *)
Definition op_typed (op : io_op) : Prop :=
  match op with
  | OpRead n | OpSeekSet n => is_u64 n
  | OpWrite _ => True
  | OpPWrite _ off => is_u64 off
  | OpSeekCur n | OpSeekEnd n => in_i64 n = true
  end.

Definition op_state (op : io_op) (io : InMemoryIo) : InMemoryIo :=
  match op with
  | OpRead n => (Read n io).2
  | OpWrite b => (Write b io).2
  | OpPWrite b off => (PWrite b off io).2
  | OpSeekSet n => (SeekSet n io).2
  | OpSeekCur n => (SeekCur n io).2
  | OpSeekEnd n => (SeekEnd n io).2
  end.

Lemma GrowTo_ok n data d :
  GrowTo n data = Ok d -> zlen data <= kMaxVector ->
  zlen d = Z.max (zlen data) n /\ zlen d <= kMaxVector /\ data `prefix_of` d.
Proof.
  unfold GrowTo. destruct (zlen data <? n) eqn:E; [|intros [= <-] ?; split_and!; [lia..|done]].
  destruct (n <=? kMaxVector) eqn:E2; [|done]. intros [= <-] _.
  split_and!; [zlen_lia..|]. by eexists.
Qed.

Lemma memcpy_to_ok off buf data d :
  memcpy_to off buf data = Ok d -> 0 <= off -> zlen d = zlen data.
Proof.
  unfold memcpy_to. destruct (zlen buf >? 0); [|congruence].
  destruct (off + zlen buf <=? zlen data) eqn:E; [|done]. intros [= <-] ?.
  apply zlen_zwrite; lia.
Qed.

Definition no_smaller (io io' : InMemoryIo) : Prop :=
  wf io' /\ zlen (data_ io) <= zlen (data_ io').

Lemma seek_to_grows p io : wf io -> 0 <= p -> no_smaller io (seek_to p io).2.
Proof.
  intros [Hc Hd] Hp. unfold seek_to.
  destruct (GrowTo p (data_ io)) as [d| | |] eqn:E; try by split.
  apply GrowTo_ok in E as (E1 & E2 & _); [|done].
  split; [split|]; simpl; lia.
Qed.

Lemma grow_write_grows n off buf io c' :
  wf io -> 0 <= off -> 0 <= c' <= Z.max (zlen (data_ io)) n ->
  no_smaller io
    match GrowTo n (data_ io) with
    | Ok data => match memcpy_to off buf data with
                 | Ok data' => mkIo data' c'
                 | _ => set_data io data
                 end
    | _ => io
    end.
Proof.
  intros [Hc Hd] Hoff Hc'.
  destruct (GrowTo n (data_ io)) as [d| | |] eqn:E; try by split.
  apply GrowTo_ok in E as (E1 & E2 & _); [|done].
  destruct (memcpy_to off buf d) as [d'| | |] eqn:E3;
    [apply memcpy_to_ok in E3; [|done]| | |]; split; try split; simpl; lia.
Qed.

Lemma op_state_grows op io : wf io -> op_typed op -> no_smaller io (op_state op io).
Proof.
  intros Hw Ht. pose proof Hw as [Hc Hd]. pose proof kMaxVector_u64.
  destruct op as [n|b|b off|n|n|n]; simpl in *; unfold is_u64 in *.
  - rewrite ClampRange_spec, Z.max_r, u64_id by (unfold is_u64; lia).
    split; [split|]; simpl; lia.
  - unfold Write, mem_writer, Write_mem. pose proof (u64_range (cursor_ io + zlen b)).
    pose proof (grow_write_grows (u64 (cursor_ io + zlen b)) (cursor_ io) b io
                  (u64 (cursor_ io + zlen b)) Hw) as G.
    unfold is_u64 in *.
    destruct (GrowTo _ _); [destruct (memcpy_to _ _ _)|..]; apply G; lia.
  - unfold PWrite_mem.
    pose proof (grow_write_grows (u64 (off + zlen b)) off b io (cursor_ io) Hw) as G.
    destruct (GrowTo _ _); [destruct (memcpy_to _ _ _)|..]; apply G; lia.
  - apply seek_to_grows; [done|lia].
  - unfold SeekCur_mem. destruct (add_i64 _ _); [apply seek_to_grows; [done|lia]|by split..].
  - unfold SeekEnd_mem. destruct (add_i64 _ _); [apply seek_to_grows; [done|lia]|by split..].
Qed.

(** Invariant of in-memory files: after any sequence of reads, writes and
    seeks with arguments of their types, failed ones included, the cursor is
    inside the vector, the vector is below its maximal size, and the file is
    never smaller than it was. *)
Theorem mem_history ops io :
  wf io -> Forall op_typed ops ->
  let io' := foldl (fun s op => op_state op s) io ops in
  0 <= cursor_ io' <= zlen (data_ io') /\ zlen (data_ io') <= kMaxVector /\
  zlen (data_ io) <= zlen (data_ io').
Proof.
  intros Hw Ht. enough (no_smaller io (foldl (fun s op => op_state op s) io ops)) as [[] ?] by done.
  assert (no_smaller io io) as H0 by (split; [done|lia]).
  revert H0. generalize io at 2 4. induction Ht as [|op ops Hop _ IH]; intros cur Hcur; [done|].
  simpl. apply IH. destruct Hcur as [Hcur ?].
  destruct (op_state_grows op cur Hcur Hop). split; [done|lia].
Qed.

Lemma mem_history_witness :
  let io' := foldl (fun s op => op_state op s) (InMemoryIo_of (str "abc"))
               [OpSeekEnd (-1); OpWrite (str "xyz"); OpSeekSet 7; OpRead 3] in
  0 <= cursor_ io' <= zlen (data_ io') /\ zlen (data_ io') <= kMaxVector /\
  zlen (data_ (InMemoryIo_of (str "abc"))) <= zlen (data_ io').
Proof.
  apply mem_history.
  - unfold wf, zlen, kMaxVector; simpl; lia.
  - repeat constructor; unfold op_typed, is_u64; lia.
Defined.

(** [InMemoryIo::PWrite], byte by byte: the whole buffer is accepted, the
    bytes of the buffer appear at the offset, every other byte of the file is
    kept, a gap between the old end and the offset reads as zeros, and the
    cursor does not move. *)
Theorem PWrite_mem_bytes buf off io (i : nat) :
  0 <= off -> off + zlen buf <= kMaxVector ->
  exists io', PWrite buf off io = (Ok (zlen buf), io') /\ cursor_ io' = cursor_ io /\
    data_ io' !! i =
      (if (off <=? Z.of_nat i) && (Z.of_nat i <? off + zlen buf)
       then buf !! Z.to_nat (Z.of_nat i - off)
       else if Z.of_nat i <? zlen (data_ io) then data_ io !! i
       else if Z.of_nat i <? off then Some zero else None).
Proof.
  intros Hoff Hmax. eexists. simpl. rewrite PWrite_mem_spec by done.
  split; [done|]. split; [done|]. by apply lookup_written_at.
Qed.

Lemma PWrite_mem_bytes_witness :
  exists io', PWrite (str "xy") 5 (InMemoryIo_of (str "abc")) = (Ok (zlen (str "xy")), io') /\
    cursor_ io' = cursor_ (InMemoryIo_of (str "abc")) /\ data_ io' !! 3%nat = Some zero.
Proof.
  destruct (PWrite_mem_bytes (str "xy") 5 (InMemoryIo_of (str "abc")) 3) as (io' & H1 & H2 & H3).
  - lia.
  - unfold zlen, kMaxVector; simpl; lia.
  - exists io'. split; [exact H1|]. split; [exact H2|]. exact H3.
Defined.

(** [FakePRead] (seek, read, seek back) is observationally [PRead]: on an
    in-memory file, for an offset inside the file, it returns the same bytes
    and leaves the object as it found it. *)
Theorem FakePRead_is_PRead count off io :
  wf io -> is_u64 count -> 0 <= off <= zlen (data_ io) ->
  FakePRead count off io = (PRead io count off, io).
Proof.
  intros Hw Hc Ho. pose proof Hw as []. pose proof kMaxVector_u64. unfold is_u64 in *.
  unfold FakePRead, mbind, attempt, mret. simpl. rewrite SeekCur_mem_0 by done.
  unfold SeekSet_mem. rewrite seek_to_inside by lia. unfold Read_mem, PRead_mem. simpl.
  rewrite seek_to_inside by (simpl; lia). by destruct io.
Qed.

Lemma FakePRead_is_PRead_witness :
  FakePRead 2 1 (mkIo (str "abcd") 3) = (PRead (mkIo (str "abcd") 3) 2 1, mkIo (str "abcd") 3).
Proof.
  apply FakePRead_is_PRead.
  - unfold wf, zlen, kMaxVector; simpl; lia.
  - unfold is_u64; lia.
  - unfold zlen; simpl; lia.
Defined.

(** The in-memory files are such a reader and writer. *)
Lemma Copy_complete_witness :
  exists r' w', Copy (mkIo (str "abcd") 1) (mkIo (str "XYZ") 2) = (Ok tt, (r', w')) /\
    remaining r' = [] /\ written w' = str "XYbcd".
Proof.
  destruct (Copy_complete (mkIo (str "abcd") 1) (mkIo (str "XYZ") 2) 3)
    as (r' & w' & H1 & H2 & H3).
  - unfold read_ok; simpl. unfold wf, zlen, kMaxVector; simpl; lia.
  - unfold write_ok; simpl. unfold wf, zlen, kMaxVector; simpl; lia.
  - unfold zlen; simpl; lia.
  - exists r', w'. split; [exact H1|]. split; [exact H2|]. exact H3.
Defined.

(** Seeking past the end with any of the three seeks extends the file with
    zeros, where lseek(2), whose semantics [Seeker] documents, leaves the size
    of the file alone. *)
Theorem SeekSet_extends off io :
  wf io -> zlen (data_ io) < off <= kMaxVector ->
  exists io', SeekSet off io = (Ok off, io') /\
    data_ io' = data_ io ++ replicate (Z.to_nat (off - zlen (data_ io))) zero /\
    Length io' = (Ok off, io') /\ wf io'.
Proof.
  intros [Hc Hd] Ho. eexists. simpl. unfold SeekSet_mem, seek_to.
  rewrite GrowTo_spec by lia. split; [done|]. simpl. split; [done|].
  assert (zlen (data_ io ++ replicate (Z.to_nat (off - zlen (data_ io))) zero) = off) as E
    by zlen_lia.
  assert (wf (mkIo (data_ io ++ replicate (Z.to_nat (off - zlen (data_ io))) zero) off)) as Hw
    by (split; simpl; lia).
  split; [|done]. rewrite Length_mem by done. simpl. by rewrite E.
Qed.

Lemma SeekSet_extends_witness :
  exists io', SeekSet 3 (InMemoryIo_of (str "a")) = (Ok 3, io') /\
    data_ io' = str "a" ++ replicate (Z.to_nat (3 - zlen (str "a"))) zero /\
    Length io' = (Ok 3, io') /\ wf io'.
Proof.
  apply (SeekSet_extends 3 (InMemoryIo_of (str "a"))); unfold wf, zlen, kMaxVector; simpl; lia.
Defined.

(** Files of the filesystem: creating a file and writing through its handle
    is visible to every handle opened on the same path and to no other file;
    after the path is deleted, the old handles refer to freed storage. *)
Theorem fs_handles path other buf fs h fs1 :
  fs_wf fs -> zlen buf <= kMaxVector -> other <> path ->
  CreateFile path fs = (Ok h, fs1) ->
  exists h' fs2,
    on_handle (Write buf) h fs1 = (Ok (zlen buf, h'), fs2) /\ fs_wf fs2 /\
    (exists h2, OpenReadWrite path fs2 = (Ok h2, fs2) /\
       exists h3, (on_handle ReadToString h2 fs2).1 = Ok (buf, h3)) /\
    (forall l, files_ fs2 !! other = Some l ->
       files_ fs !! other = Some l /\ heap fs2 !! l = heap fs !! l) /\
    (forall A (m : M InMemoryIo A),
       (on_handle m h' (DeleteFile path fs2).2).1 = Fatal "use of a deleted file's vector").
Proof.
  intros Hwf Hlen Hne Hcreate. pose proof (CreateFile_wf path fs Hwf) as Hwf1.
  rewrite Hcreate in Hwf1. simpl in Hwf1. unfold CreateFile in Hcreate.
  destruct (files_ fs !! path) eqn:Ep; [done|]. injection Hcreate as <- <-.
  pose proof (zlen_nonneg buf). pose proof kMaxVector_u64.
  assert (wf (mkIo buf 0)) as Hwio by (split; simpl; lia).
  assert (Hfresh : forall l, files_ fs !! other = Some l -> l <> next_loc fs).
  { destruct Hwf as (H1 & H2 & _). intros l Hl%H1%H2. lia. }
  assert (Hw : Write buf (mkIo [] 0) = (Ok (zlen buf), mkIo buf (zlen buf))).
  { unfold Write, mem_writer. rewrite Write_mem_spec; simpl; [|split; simpl; unfold zlen; simpl; lia|lia].
    do 2 f_equal. unfold written_at, zwrite. rewrite ztake_0, zdrop_all by zlen_lia.
    by rewrite app_nil_r. }
  eexists _, _. split.
  { unfold on_handle. simpl. rewrite lookup_insert_eq. rewrite Hw. done. }
  simpl. rewrite insert_insert_eq. split.
  { pose proof (on_handle_wf (Write buf) (mkHandle (next_loc fs) 0) _ Hwf1) as Hx.
    unfold on_handle in Hx. simpl in Hx. rewrite lookup_insert_eq, Hw in Hx. simpl in Hx.
    by rewrite insert_insert_eq in Hx. }
  split.
  { eexists. unfold OpenReadWrite. simpl. rewrite lookup_insert_eq. split; [done|].
    unfold on_handle. simpl. rewrite lookup_insert_eq.
    destruct (ReadToString_spec (mkIo buf 0)) as (io' & E & Hok & Hrem); [done|].
    simpl in E. rewrite zdrop_0 in E by lia. rewrite E. by eexists. }
  split.
  { intros l. rewrite lookup_insert_ne by done. intros Hl. split; [done|].
    apply lookup_insert_ne. specialize (Hfresh l Hl). done. }
  intros A m. unfold DeleteFile. simpl. rewrite lookup_insert_eq. simpl.
  unfold on_handle. simpl. by rewrite lookup_delete_eq.
Qed.

Lemma fs_handles_witness :
  exists h' fs2,
    on_handle (Write (str "hi")) (mkHandle 0 0)
      (CreateFile (str "/a") InMemoryFilesystem).2 = (Ok (zlen (str "hi"), h'), fs2) /\
    (forall A (m : M InMemoryIo A),
       (on_handle m h' (DeleteFile (str "/a") fs2).2).1 = Fatal "use of a deleted file's vector").
Proof.
  destruct (fs_handles (str "/a") (str "/b") (str "hi") InMemoryFilesystem (mkHandle 0 0)
              (CreateFile (str "/a") InMemoryFilesystem).2)
    as (h' & fs2 & H1 & _ & _ & _ & H2).
  - apply fs_wf_empty.
  - unfold zlen, kMaxVector; simpl; lia.
  - done.
  - reflexivity.
  - exists h', fs2. split; [exact H1|exact H2].
Defined.
End InMemory.
