(* ===== verification/Views.v ===== *)
(** * Readers built on readers

    [ReaderFakeSeeker] (fake_seek.cc) turns any class with a [PRead] into a
    seekable reader; [ReadWindowView] (read_window_view.cc) and
    [ConcatReaderSeeker] (concat.cc) derive from it.  The data such a view
    presents is computed from the data of the readers below it, and the views
    are again instances of the laws of IO.v. *)
From S2P Require Import Prelude IO InMemory.

Module Views.
Import IO.

(** ** ReaderFakeSeeker (fake_seek.cc)

    The derived class supplies [PRead]. *)
Class PReader (D : Type) := PRead_derived : D -> Z -> Z -> result bytes.

Record ReaderFakeSeeker (D : Type) :=
  mkFake { derived : D; seek_pos_ : Z; length_ : Z }.
Arguments mkFake {D}. Arguments derived {D}. Arguments seek_pos_ {D}. Arguments length_ {D}.

Section fake_seek.
Context {D : Type} `{PReader D}.

Definition set_pos (r : ReaderFakeSeeker D) (p : Z) : ReaderFakeSeeker D :=
  mkFake (derived r) p (length_ r).

Definition Read_fake (count : Z) : M (ReaderFakeSeeker D) bytes := fun r =>
  match PRead_derived (derived r) count (seek_pos_ r) with
  | Ok bs => (Ok bs, set_pos r (u64 (seek_pos_ r + zlen bs)))
  | fl => (fl, r)
  end.
Definition SeekSet_fake (offset : Z) : M (ReaderFakeSeeker D) Z := fun r =>
  let p := Z.min offset (length_ r) in (Ok p, set_pos r p).
Definition SeekCur_fake (off : Z) : M (ReaderFakeSeeker D) Z := fun r =>
  match add_i64 (as_i64 (seek_pos_ r)) off with
  | Ok s => let p := Z.min (u64 (Z.max s 0)) (length_ r) in (Ok p, set_pos r p)
  | fl => (fl, r)
  end.
Definition SeekEnd_fake (off : Z) : M (ReaderFakeSeeker D) Z := fun r =>
  match add_i64 (as_i64 (length_ r)) off with
  | Ok s => let p := Z.min (u64 (Z.max s 0)) (length_ r) in (Ok p, set_pos r p)
  | fl => (fl, r)
  end.

#[global] Instance fake_reader : Reader (ReaderFakeSeeker D) := Read_fake.
#[global] Instance fake_seeker : Seeker (ReaderFakeSeeker D) :=
  { SeekSet := SeekSet_fake; SeekCur := SeekCur_fake; SeekEnd := SeekEnd_fake }.
#[global] Instance fake_reader_seeker : ReaderSeeker (ReaderFakeSeeker D) :=
  { rs_reader := fake_reader; rs_seeker := fake_seeker;
    PRead := fun r => PRead_derived (derived r) }.
End fake_seek.

(** ** ReadWindowView (read_window_view.cc) *)
Record window (R : Type) := mkWindow { data_provider_ : R; begin_ : Z; win_length_ : Z }.
Arguments mkWindow {R}. Arguments data_provider_ {R}. Arguments begin_ {R}. Arguments win_length_ {R}.

Section window.
Context {R : Type} `{ReaderSeeker R}.

#[global] Instance PRead_window : PReader (window R) := fun w count offset =>
  if offset >=? win_length_ w then Ok []
  else
    let count := Z.min count (u64 (win_length_ w - offset)) in
    let offset := u64 (offset + begin_ w) in
    PRead (data_provider_ w) count offset.

Definition ReadWindowView (data_provider : R) (begin length : Z)
    : ReaderFakeSeeker (window R) :=
  mkFake (mkWindow data_provider begin length) 0 length.
End window.

(** ** ConcatReaderSeeker (concat.cc)

    [off_to_reader_] is a [std::map] keyed by offset: the list of its entries
    in key order. *)
Definition Segs (R : Type) : Type := list (Z * R).

(** [off_to_reader_[key] = value]. *)
Fixpoint map_assign {R} (key : Z) (v : R) (m : list (Z * R)) : list (Z * R) :=
  match m with
  | [] => [(key, v)]
  | (k, x) :: m' =>
      if key <? k then (key, v) :: m
      else if key =? k then (key, v) :: m' else (k, x) :: map_assign key v m'
  end.

(** [upper_bound(offset)] followed by [it--]: the last entry whose key is at
    most [offset]; [None] when [upper_bound] is [begin()]. *)
Fixpoint last_at_most {R} (offset : Z) (best : option (Z * R)) (m : list (Z * R))
    : option (Z * R) :=
  match m with
  | [] => best
  | (k, x) :: m' => if offset <? k then best else last_at_most offset (Some (k, x)) m'
  end.

Record concat (R : Type) := mkConcat { off_to_reader_ : list (Z * R) }.
Arguments mkConcat {R}. Arguments off_to_reader_ {R}.

Section concat.
Context {R : Type} `{ReaderSeeker R}.

#[global] Instance PRead_concat : PReader (concat R) := fun c count offset =>
  match last_at_most offset None (off_to_reader_ c) with
  | None => Err "Could not find first reader"
  | Some (first, reader) => PRead reader count (u64 (offset - first))
  end.

Fixpoint create_loop (readers : list R) (offset : Z) (m : list (Z * R))
    : result (list (Z * R) * Z) :=
  match readers with
  | [] => Ok (m, offset)
  | reader :: readers' =>
      match Length reader with
      | (Ok length, reader) =>
          create_loop readers' (u64 (offset + length)) (map_assign offset reader m)
      | (fl, _) => fail_as fl
      end
  end.

Definition Create (readers : list R) : result (ReaderFakeSeeker (concat R)) :=
  let* _ := expect (negb (zlen readers =? 0)) "Received empty list" in
  let* (m, offset) := create_loop readers 0 [] in
  Ok (mkFake (mkConcat m) 0 offset).
End concat.

(** ** The views obey the laws of the readers below them *)

(** What a [PRead] promises, for a class that derives from ReaderFakeSeeker. *)
Class PReaderLaws (D : Type) `{PReader D} := {
  view : D -> bytes;
  view_ok : D -> Prop;
  view_spec d count off :
    view_ok d -> is_u64 count -> is_u64 off ->
    exists n, PRead_derived d count off = Ok (zslice off n (view d)) /\
      0 <= n <= count /\ off + n <= Z.max off (zlen (view d)) /\
      (0 < count -> off < zlen (view d) -> 0 < n)
}.

(** Seek positions fit [int64_t], stay inside the view and [length_] is its size. *)
Definition fake_wf {D} `{PReaderLaws D} (r : ReaderFakeSeeker D) : Prop :=
  view_ok (derived r) /\ length_ r = zlen (view (derived r)) /\
  0 <= seek_pos_ r <= length_ r /\ length_ r < 2 ^ 63.

Section fake_laws.
Context {D : Type} `{PReaderLaws D}.

#[global] Program Instance fake_pread_laws : PReadLaws (ReaderFakeSeeker D) :=
  { contents := fun r => view (derived r); pread_ok := fake_wf }.
Next Obligation. intros r (? & ? & ? & ?). lia. Qed.
Next Obligation. intros r count off (? & ? & ? & ?) Hc Ho. by apply (view_spec (derived r)). Qed.

#[global] Program Instance fake_read_laws : ReadLaws (ReaderFakeSeeker D) :=
  { remaining := fun r => zdrop (seek_pos_ r) (view (derived r)); read_ok := fake_wf }.
Next Obligation. intros r (? & ? & ? & ?). zlen_lia. Qed.
Next Obligation.
  intros r count (Hok & Hl & Hp & Hm) Hc. unfold is_u64 in *. unfold Read, fake_reader, Read_fake.
  destruct (view_spec (derived r) count (seek_pos_ r)) as (n & -> & Hn & Hmax & Hpos);
    [done|done|unfold is_u64; lia|].
  assert (n <= length_ r - seek_pos_ r) by lia.
  rewrite zlen_zslice by lia. rewrite Z.min_l by lia. rewrite u64_id by (unfold is_u64; lia).
  eexists _, _. split; [done|]. split_and!; simpl.
  - split_and!; simpl; lia || done.
  - unfold zslice. rewrite <- (ztake_zdrop n (zdrop _ _)) at 1. by rewrite zdrop_zdrop by lia.
  - rewrite zlen_zslice by lia. lia.
  - intros Hc0 Hne Hnil%(f_equal zlen). rewrite zlen_zslice in Hnil by lia.
    change (zlen []) with 0 in Hnil. apply Hne, zdrop_all. lia.
Qed.

Lemma fake_seek_in_range r p :
  fake_wf r -> 0 <= p <= length_ r -> fake_wf (set_pos r p).
Proof. intros (? & ? & ? & ?) ?. unfold fake_wf. simpl. split_and!; done || lia. Qed.

Lemma fake_SeekSet r off :
  fake_wf r -> 0 <= off -> SeekSet off r =
  (Ok (Z.min off (length_ r)), set_pos r (Z.min off (length_ r))).
Proof. done. Qed.

Lemma fake_SeekCur r off :
  fake_wf r -> - 2 ^ 63 <= off -> seek_pos_ r + off < 2 ^ 63 ->
  let p := Z.min (Z.max (seek_pos_ r + off) 0) (length_ r) in
  SeekCur off r = (Ok p, set_pos r p).
Proof.
  intros (? & ? & ? & ?) ? ? p. simpl. unfold SeekCur_fake, add_i64, in_i64.
  rewrite as_i64_id by lia. rewrite (proj2 (Z.leb_le _ _)), (proj2 (Z.ltb_lt _ _)) by lia.
  simpl. rewrite u64_id by (unfold is_u64; lia). done.
Qed.

Lemma fake_SeekEnd r off :
  fake_wf r -> - 2 ^ 63 <= off -> length_ r + off < 2 ^ 63 ->
  let p := Z.min (Z.max (length_ r + off) 0) (length_ r) in
  SeekEnd off r = (Ok p, set_pos r p).
Proof.
  intros (? & ? & ? & ?) ? ? p. simpl. unfold SeekEnd_fake, add_i64, in_i64.
  rewrite as_i64_id by lia. rewrite (proj2 (Z.leb_le _ _)), (proj2 (Z.ltb_lt _ _)) by lia.
  simpl. rewrite u64_id by (unfold is_u64; lia). done.
Qed.
End fake_laws.

#[global] Instance fake_length_laws {D} `{PReaderLaws D} : LengthLaws (ReaderFakeSeeker D).
Proof.
  intros r Hw. pose proof Hw as (Hok & Hl & Hp & Hm). unfold Length, mbind, mret.
  cbn [rs_seeker fake_reader_seeker].
  rewrite fake_SeekCur by (done || lia). cbv beta iota.
  set (p := Z.min _ _). assert (p = seek_pos_ r) as -> by lia.
  rewrite fake_SeekEnd by (try apply fake_seek_in_range; simpl; done || lia).
  cbn [length_ set_pos]. rewrite Z.add_0_r, Z.max_l, Z.min_id by lia.
  change (SeekSet (seek_pos_ r)) with (SeekSet_fake (D := D) (seek_pos_ r)).
  unfold SeekSet_fake. cbn [length_ set_pos derived]. rewrite Z.min_l by lia.
  eexists. rewrite Hl. split_and!; [done..|].
  change (fake_wf (set_pos r (seek_pos_ r))). by apply fake_seek_in_range.
Qed.

Section window_laws.
Context {R : Type} `{PReadLaws R}.

#[global] Program Instance window_laws : PReaderLaws (window R) :=
  { view := fun w => zslice (begin_ w) (win_length_ w) (contents (data_provider_ w));
    view_ok := fun w => pread_ok (data_provider_ w) /\ 0 <= begin_ w /\
      0 <= win_length_ w /\ begin_ w + win_length_ w < 2 ^ 64 }.
Next Obligation.
  intros w count off (Hok & Hb & Hl & Hbl) Hc Ho. unfold is_u64 in *.
  unfold PRead_derived, PRead_window. rewrite zlen_zslice by done.
  destruct (off >=? win_length_ w) eqn:E.
  - exists 0. split_and!; try lia. unfold zslice at 1. by rewrite ztake_0 by lia.
  - rewrite !u64_id by (unfold is_u64; lia).
    destruct (pread_spec (data_provider_ w) (Z.min count (win_length_ w - off)) (off + begin_ w))
      as (n & -> & Hn & Hmax & Hpos); [done|unfold is_u64; lia|unfold is_u64; lia|].
    exists n. rewrite zslice_zslice by lia. rewrite (Z.add_comm (begin_ w)).
    split_and!; [done|lia..].
Qed.
End window_laws.

Section concat_laws.
Context {R : Type} `{PReadLaws R}.
Implicit Types (m pre post : list (Z * R)).

(** Entries are contiguous from [off] on; only the last one may be empty. *)
Fixpoint seg_wf (off : Z) (m : list (Z * R)) : Prop :=
  match m with
  | [] => True
  | (k, r) :: m' =>
      k = off /\ pread_ok r /\ (m' <> [] -> 0 < zlen (contents r)) /\
      seg_wf (off + zlen (contents r)) m'
  end.

Definition seg_view (m : list (Z * R)) : bytes := flat_map (fun kr => contents kr.2) m.

Lemma last_at_most_spec m : forall off offset best,
  seg_wf off m -> m <> [] -> off <= offset ->
  exists pre k r post, m = pre ++ (k, r) :: post /\
    last_at_most offset best m = Some (k, r) /\ k = off + zlen (seg_view pre) /\
    k <= offset /\ pread_ok r /\ (post = [] \/ offset < k + zlen (contents r)).
Proof.
  induction m as [|[k r] m IH]; intros off offset best Hw Hne Hoff; [done|].
  destruct Hw as (-> & Hr & Hlen & Hw). simpl.
  rewrite (proj2 (Z.ltb_ge offset off)) by lia.
  destruct m as [|[k1 r1] m'] eqn:Em.
  { exists [], off, r, []. unfold seg_view. simpl. rewrite zlen_nil, Z.add_0_r. eauto 10. }
  rewrite <- Em in *. destruct (decide (offset < off + zlen (contents r))) as [Hlt|Hge].
  - exists [], off, r, m. unfold seg_view. simpl. rewrite zlen_nil, Z.add_0_r.
    split_and!; try done; [|by right]. rewrite Em in Hw |- *. destruct Hw as (-> & _).
    simpl. by rewrite (proj2 (Z.ltb_lt _ _)).
  - destruct (IH (off + zlen (contents r)) offset (Some (off, r)))
      as (pre & k & r' & post & Hm & Hl & Hk & H1 & H2 & H3); [done|by rewrite Em|lia|].
    exists ((off, r) :: pre), k, r', post. rewrite Hl, Hm.
    split_and!; try done. unfold seg_view in *. simpl. rewrite zlen_app. lia.
Qed.

Lemma seg_view_app m1 m2 : seg_view (m1 ++ m2) = seg_view m1 ++ seg_view m2.
Proof. apply flat_map_app. Qed.

#[global] Program Instance concat_laws : PReaderLaws (concat R) :=
  { view := fun c => seg_view (off_to_reader_ c);
    view_ok := fun c => off_to_reader_ c <> [] /\ seg_wf 0 (off_to_reader_ c) /\
      zlen (seg_view (off_to_reader_ c)) < 2 ^ 64 }.
Next Obligation.
  intros c count off (Hne & Hw & Hlen) Hc Ho. unfold is_u64 in *.
  unfold PRead_derived, PRead_concat.
  destruct (last_at_most_spec (off_to_reader_ c) 0 off None)
    as (pre & k & r & post & Hm & -> & Hk & Hko & Hr & Hpost); [done|done|lia|].
  rewrite Hm, seg_view_app in Hlen |- *. unfold seg_view in Hlen |- *. cbn [flat_map snd] in *.
  fold (seg_view pre) (seg_view post) in *. rewrite Z.add_0_l in Hk.
  pose proof (zlen_nonneg (seg_view pre)). pose proof (zlen_nonneg (seg_view post)).
  pose proof (zlen_nonneg (contents r)). rewrite !zlen_app in *.
  rewrite u64_id by (unfold is_u64; lia).
  destruct (pread_spec r count (off - k)) as (n & -> & Hn & Hmax & Hpos);
    [done|unfold is_u64; lia|unfold is_u64; lia|].
  exists n. rewrite zslice_app_r, <- Hk by lia. split_and!; try lia.
  - destruct (decide (off - k + n <= zlen (contents r))).
    + by rewrite zslice_app_l by lia.
    + assert (n = 0) as -> by lia. unfold zslice. by rewrite !ztake_0 by lia.
  - intros Hc0 Hlt. apply Hpos; [done|]. destruct Hpost as [->|]; [|lia].
    change (zlen (seg_view [])) with 0 in Hlt. lia.
Qed.

Lemma map_assign_end r m : forall off o,
  seg_wf off m -> o = off + zlen (seg_view m) -> pread_ok r ->
  seg_wf off (map_assign o r m) /\ seg_view (map_assign o r m) = seg_view m ++ contents r /\
  map_assign o r m <> [].
Proof.
  induction m as [|[k x] m IH]; intros off o Hw -> Hr.
  - unfold seg_view. simpl. rewrite zlen_nil, app_nil_r. split_and!; done || lia.
  - destruct Hw as (-> & Hx & Hne & Hw). unfold seg_view in *. cbn [flat_map snd map_assign] in *.
    fold (seg_view m) in *. pose proof (zlen_nonneg (contents x)).
    pose proof (zlen_nonneg (seg_view m)). rewrite zlen_app.
    rewrite (proj2 (Z.ltb_ge _ _)) by lia. destruct (_ =? off) eqn:E.
    + assert (contents x = []) as Hnil by (apply zlen_0_nil; lia).
      assert (m = []) as ->.
      { destruct m; [done|]. rewrite Hnil in Hne. by specialize (Hne ltac:(done)). }
      rewrite Hnil. unfold seg_view. simpl. rewrite app_nil_r.
      split_and!; try done. change (off + (0 + 0) = off). lia.
    + destruct (IH (off + zlen (contents x)) (off + (zlen (contents x) + zlen (seg_view m))))
        as (Hs1 & Hs2 & Hs3); [done|lia|done|].
      cbn [seg_wf flat_map snd].
      rewrite Hs2, app_assoc. split_and!; try done.
      intros _. destruct m; [|by apply Hne].
      change (zlen (seg_view [])) with 0 in E. lia.
Qed.
End concat_laws.

Section concat_create.
Context {R : Type} `{LengthLaws R}.

Lemma create_loop_spec (readers : list R) : forall m,
  Forall pread_ok readers -> seg_wf 0 m ->
  zlen (seg_view m ++ flat_map contents readers) < 2 ^ 64 ->
  exists m', create_loop readers (zlen (seg_view m)) m =
      Ok (m', zlen (seg_view m ++ flat_map contents readers)) /\
    seg_wf 0 m' /\ seg_view m' = seg_view m ++ flat_map contents readers /\
    (m <> [] \/ readers <> [] -> m' <> []).
Proof.
  induction readers as [|r readers IH]; intros m Hok Hw Hlen.
  - simpl in *. rewrite app_nil_r in *. exists m. split_and!; try done. tauto.
  - apply Forall_cons in Hok as [Hr Hok]. simpl in *.
    destruct (length_spec r Hr) as (r' & -> & Hc & Hr').
    destruct (map_assign_end r' m 0 (zlen (seg_view m)) Hw) as (Hs1 & Hs2 & Hs3); [lia|done|].
    rewrite Hc in Hs2. pose proof (zlen_nonneg (seg_view m)).
    pose proof (zlen_nonneg (contents r)). pose proof (zlen_nonneg (flat_map contents readers)).
    rewrite u64_id by (unfold is_u64; rewrite !zlen_app in Hlen; lia).
    destruct (IH (map_assign (zlen (seg_view m)) r' m)) as (m' & Hl & Hw' & Hv & Hne);
      [done|done|by rewrite Hs2, <- app_assoc|].
    rewrite Hs2, <- app_assoc in *. rewrite zlen_app in Hl at 1.
    exists m'. split_and!; try done. intros _. apply Hne. by left.
Qed.
End concat_create.

(** ** Properties *)

(** C13. [ConcatReaderSeeker::Create] over any readers that obey pread(2) and
    report their length succeeds and yields a reader that again obeys pread(2),
    whose data is the concatenation of theirs and whose length is the sum. *)
Theorem concat_presents_concatenation {R} `{LengthLaws R} (readers : list R) :
  readers <> [] -> Forall pread_ok readers -> zlen (flat_map contents readers) < 2 ^ 63 ->
  exists c, Create readers = Ok c /\ pread_ok c /\
    contents c = flat_map contents readers /\ length_ c = zlen (flat_map contents readers).
Proof.
  intros Hne Hok Hlen. unfold Create.
  assert ((zlen readers =? 0) = false) as ->.
  { apply Z.eqb_neq. intros ?%zlen_0_nil. done. }
  simpl. destruct (create_loop_spec readers []) as (m & Hl & Hw & Hv & Hm);
    [done|done|simpl; lia|].
  change (zlen (seg_view [])) with 0 in Hl. change (seg_view [] ++ ?x) with x in *.
  rewrite Hl. simpl. eexists. split_and!; [done| |by rewrite <- Hv|done].
  unfold fake_wf. simpl. rewrite Hv. pose proof (zlen_nonneg (flat_map contents readers)).
  split_and!; try done; try lia. apply Hm. by right.
Qed.

Definition three_readers : list InMemory.InMemoryIo :=
  [InMemory.InMemoryIo_of (str "ab"); InMemory.InMemoryIo_of []; InMemory.InMemoryIo_of (str "cde")].

Lemma concat_presents_concatenation_witness :
  exists c, Create three_readers = Ok c /\ pread_ok c /\
    contents c = flat_map contents three_readers /\
    length_ c = zlen (flat_map contents three_readers).
Proof.
  apply (concat_presents_concatenation three_readers).
  - discriminate.
  - repeat constructor; unfold InMemory.wf, zlen, InMemory.kMaxVector; simpl; lia.
  - reflexivity.
Defined.

(** Whatever the seek and read calls, a window on a reader stays inside its
    window: a successful [PReadExact] returns exactly the bytes of the window,
    and a request that crosses its end fails, even when the underlying reader
    has data there. *)
Lemma window_read_exact {R} `{PReadLaws R} (r : R) (begin length size off : Z) :
  pread_ok r -> 0 <= begin -> 0 <= length -> begin + length <= zlen (contents r) ->
  zlen (contents r) < 2 ^ 63 -> is_u64 size -> is_u64 off ->
  PReadExact (ReadWindowView r begin length) size off =
  if (size =? 0) || (off + size <=? length) then Ok (zslice (begin + off) size (contents r))
  else Err "EOF, still want to read".
Proof.
  intros Hr Hb Hl Hbl Hlen Hs Ho.
  assert (zlen (zslice begin length (contents r)) = length) as Hv by (rewrite zlen_zslice; lia).
  assert (fake_wf (ReadWindowView r begin length)) as Hw.
  { unfold fake_wf. simpl. rewrite Hv. split_and!; done || lia. }
  rewrite PReadExact_spec; [|exact Hw|done|done].
  simpl. rewrite Hv.
  destruct (size =? 0) eqn:E0; simpl.
  { assert (size = 0) as -> by lia. unfold zslice. by rewrite !ztake_0 by lia. }
  destruct (off + size <=? length) eqn:E; [|done]. unfold is_u64 in *.
  by rewrite zslice_zslice by lia.
Qed.
End Views.
