(* ===== verification/FileDesc.v ===== *)
(** * File descriptors (common/libs/fs/fd.cc)

    Files by path, descriptors with an offset, and the system calls behind
    [Fd]: which of them fail and how many bytes they move is decided by a
    [Kernel], an argument of every operation. *)
From S2P Require Import Prelude IO InMemory.

Module FileDesc.
Import IO.

(** ** Files and the kernel *)
Inductive Call :=
| COpen (path : bytes) | CSeek (off : Z) | CRead (off : Z) | CWrite (off : Z)
| CMkostemp | CChmod | CRename | CPoll.

(** How many of the bytes asked for a read(2) and a write(2) move, which calls
    fail, and the characters mkostemp(3) chooses. *)
Record Kernel := mkKernel {
  moved_in : Z -> Z; moved_out : Z -> Z; fails : Call -> bool; temp_suffix : bytes
}.

Definition kernel_ok (k : Kernel) : Prop :=
  forall n, 0 < n -> 0 < moved_in k n <= n /\ 0 < moved_out k n <= n.
(** A kernel that writes all it is given. *)
Definition full_writes (k : Kernel) : Prop := forall n, moved_out k n = n.

(** Files by path; the descriptors below are used while their path is in place. *)
Abbreviation Disk := (@gmap bytes (@list_eq_dec ascii Ascii.eq_dec)
  (@list_countable ascii Ascii.eq_dec Ascii.countable) bytes).
Record Fd := mkFd { fd_path : bytes; fd_off : Z }.

Definition file_of (d : Disk) (f : Fd) : bytes := default [] (d !! fd_path f).

Definition file_at (d : Disk) (name : bytes) : bytes := default [] (d !! name).

Definition calm (k : Kernel) : Prop := forall c, fails k c = false.

Section fd.
Context (k : Kernel).

(** [Fd::Open(path, O_CREAT | O_RDWR, 0644)]. *)
Definition Fd_Open (path : bytes) : M Disk Fd := fun d =>
  if fails k (COpen path) then (Err "open failed", d)
  else (Ok (mkFd path 0), match d !! path with Some _ => d | None => <[path := []]> d end).

Definition Fd_SeekSet (offset : Z) : M (Disk * Fd) Z := fun '(d, f) =>
  let off := as_i64 offset in
  if (off <? 0) || fails k (CSeek off) then (Err "lseek failed", (d, f))
  else (Ok off, (d, mkFd (fd_path f) off)).

Definition Fd_Read (count : Z) : M (Disk * Fd) bytes := fun '(d, f) =>
  if fails k (CRead (fd_off f)) then (Err "read failed", (d, f))
  else
    let available := Z.min count (zlen (file_of d f) - fd_off f) in
    let n := if available <=? 0 then 0 else moved_in k available in
    (Ok (zslice (fd_off f) n (file_of d f)), (d, mkFd (fd_path f) (fd_off f + n))).

Definition Fd_Write (buf : bytes) : M (Disk * Fd) Z := fun '(d, f) =>
  if fails k (CWrite (fd_off f)) then (Err "write failed", (d, f))
  else if zlen buf =? 0 then (Ok 0, (d, f))
  else
    let n := moved_out k (zlen buf) in
    (Ok n, (<[fd_path f := InMemory.written_at (fd_off f) (ztake n buf) (file_of d f)]> d,
            mkFd (fd_path f) (fd_off f + n))).

#[local] Instance fd_reader : Reader (Disk * Fd) := Fd_Read.
#[local] Instance fd_writer : Writer (Disk * Fd) := Fd_Write.

(** [Fd::Mkostemp(path)]: a new, empty file. *)
Definition Fd_Mkostemp (path : bytes) : M Disk (Fd * bytes) := fun d =>
  let temp_path := path ++ temp_suffix k in
  if fails k CMkostemp || bool_decide (is_Some (d !! temp_path)) then (Err "mkostemp failed", d)
  else (Ok (mkFd temp_path 0, temp_path), <[temp_path := []]> d).

Definition RenameFile (current target : bytes) : M Disk unit := fun d =>
  if bool_decide (current = target) then (Ok tt, d)
  else if fails k CRename then (Err "rename failed", d)
  else match d !! current with
       | Some data => (Ok tt, <[target := data]> (delete current d))
       | None => (Err "rename failed", d)
       end.

(** [Fd::CopyFrom(in, length, nullptr)] with [this] as [out].  The loop that
    writes a chunk passes the whole buffer to every write. *)
Definition kPreferredBufferSize : Z := 8192.

Definition write_buffer (buf : bytes) (d : Disk) (out : Fd) : result bool * (Disk * Fd) :=
  while_ (fun '(st, written) =>
    match Fd_Write buf st with
    | (Ok n, st) =>
        if n =? 0 then inr (Ok false, st)
        else if written + n <? zlen buf then inl (st, written + n) else inr (Ok true, st)
    | (_, st) => inr (Ok false, st)
    end) (Fuel, (d, out)) ((d, out), 0).

Definition CopyFrom (length : Z) (d : Disk) (from out : Fd) : result bool * (Disk * Fd * Fd) :=
  while_ (fun '(d, from, out, length) =>
    if length >? 0 then
      if fails k CPoll then inr (Ok false, (d, from, out))
      else
        match Fd_Read (Z.min kPreferredBufferSize length) (d, from) with
        | (Ok buf, (d, from)) =>
            if zlen buf =? 0 then inr (Ok false, (d, from, out))
            else
              match write_buffer buf d out with
              | (Ok true, (d, out)) => inl (d, from, out, u64 (length - zlen buf))
              | (r, (d, out)) => inr (r, (d, from, out))
              end
        | (_, (d, from)) => inr (Ok false, (d, from, out))
        end
    else inr (Ok true, (d, from, out))) (Fuel, (d, from, out)) (d, from, out, length).
End fd.

(** ** Bytes by position *)
Lemma znth_ztake {A} x n (l : list A) : x < n -> znth x (ztake n l) = znth x l.
Proof.
  revert x n. induction l as [|a l IH]; intros x n Hx; [done|]. simpl.
  destruct (Z.leb_spec n 0); simpl.
  - rewrite (proj2 (Z.eqb_neq x 0)), (proj2 (Z.ltb_lt x 0)) by lia. done.
  - destruct (Z.eqb_spec x 0); [done|]. destruct (Z.ltb_spec x 0); [done|]. apply IH. lia.
Qed.

(** ** Writing to a descriptor *)
Lemma znth_written_at x off buf data :
  0 <= off -> 0 <= x ->
  znth x (InMemory.written_at off buf data) =
  if (off <=? x) && (x <? off + zlen buf) then znth (x - off) buf
  else if x <? zlen data then znth x data else if x <? off then Some zero else None.
Proof.
  intros Ho Hx. rewrite znth_lookup, InMemory.lookup_written_at, Z2Nat.id by lia.
  destruct (_ && _) eqn:E; [by rewrite znth_lookup by lia|].
  destruct (x <? zlen data); [by rewrite znth_lookup by lia|done].
Qed.

Lemma znth_ext {A} (l k : list A) : (forall x, 0 <= x -> znth x l = znth x k) -> l = k.
Proof.
  intros Hx. apply list_eq. intros i. specialize (Hx (Z.of_nat i) ltac:(lia)).
  by rewrite !znth_lookup, !Nat2Z.id in Hx by lia.
Qed.

Lemma znth_app {A} x (l k : list A) :
  0 <= x -> znth x (l ++ k) = if x <? zlen l then znth x l else znth (x - zlen l) k.
Proof.
  intros Hx. unfold zlen. destruct (_ <? _) eqn:E.
  - rewrite !znth_lookup by lia. apply lookup_app_l. lia.
  - rewrite !znth_lookup by lia. rewrite lookup_app_r by lia. f_equal. lia.
Qed.

Lemma written_at_app off a b data :
  0 <= off -> b <> [] ->
  InMemory.written_at (off + zlen a) b (InMemory.written_at off a data) =
  InMemory.written_at off (a ++ b) data.
Proof.
  intros Ho Hb. apply znth_ext. intros x Hx.
  pose proof (zlen_nonneg a). assert (0 < zlen b).
  { destruct b; [done|]. zlen_lia. }
  rewrite !znth_written_at by lia. rewrite InMemory.zlen_written_at, zlen_app by lia.
  repeat match goal with |- context [?p <=? ?q] => destruct (Z.leb_spec p q) end;
  repeat match goal with |- context [?p <? ?q] => destruct (Z.ltb_spec p q) end; simpl;
  try lia; try done; try (f_equal; lia).
  all: rewrite znth_app by lia; destruct (Z.ltb_spec (x - off) (zlen a)); try lia; try done.
  all: f_equal; lia.
Qed.

Lemma written_at_fresh buf : InMemory.written_at 0 buf [] = buf.
Proof.
  apply znth_ext. intros x Hx. rewrite znth_written_at by lia. change (zlen []) with 0.
  rewrite Z.sub_0_r, (proj2 (Z.leb_le 0 x)), Z.add_0_l by lia. simpl.
  destruct (Z.ltb_spec x (zlen buf)); [done|].
  rewrite (proj2 (Z.ltb_ge x 0)) by lia. rewrite znth_lookup by lia.
  symmetry. apply lookup_ge_None_2. unfold zlen in *. lia.
Qed.

Section descriptors.
Context (k : Kernel) (Hk : kernel_ok k).

(** The disk after [n] bytes of a buffer went through a descriptor. *)
Definition put_file (d : Disk) (f : Fd) (n : Z) (buf : bytes) : Disk :=
  if n =? 0 then d
  else <[fd_path f := InMemory.written_at (fd_off f) (ztake n buf) (file_of d f)]> d.

Lemma put_file_more d f n m buf :
  0 <= fd_off f -> 0 <= n -> 0 < m -> n + m <= zlen buf ->
  put_file (put_file d f n buf) (mkFd (fd_path f) (fd_off f + n)) m (zdrop n buf) =
  put_file d f (n + m) buf.
Proof.
  intros Ho Hn Hm Hb. unfold put_file, file_of. simpl.
  rewrite (proj2 (Z.eqb_neq m 0)), (proj2 (Z.eqb_neq (n + m) 0)) by lia.
  destruct (Z.eqb_spec n 0) as [->|]; [by rewrite Z.add_0_r, zdrop_0 by lia|].
  rewrite lookup_insert_eq, insert_insert_eq. simpl. rewrite ztake_plus by lia.
  replace (fd_off f + n) with (fd_off f + zlen (ztake n buf)) by zlen_lia.
  rewrite written_at_app; [done|lia|]. intros Hnil%(f_equal zlen). zlen_lia.
Qed.

Lemma WriteExact_fd buf d f :
  0 <= fd_off f -> zlen buf < 2 ^ 64 ->
  exists r n, 0 <= n <= zlen buf /\
    @WriteExact _ (fd_writer k) buf (d, f) =
      (r, (put_file d f n buf, mkFd (fd_path f) (fd_off f + n))) /\
    match r with Ok _ => n = zlen buf | Err _ => True | _ => False end /\
    (calm k -> r = Ok tt).
Proof.
  intros Ho Hb. unfold WriteExact. pose proof (zlen_nonneg buf).
  apply while_rule with
    (I := fun '(w, b) => exists n, 0 <= n <= zlen buf /\ b = zdrop n buf /\
       w = (put_file d f n buf, mkFd (fd_path f) (fd_off f + n)))
    (m := fun '(w, b) => zlen b)
    (Q := fun t => exists r n, 0 <= n <= zlen buf /\
       t = (r, (put_file d f n buf, mkFd (fd_path f) (fd_off f + n))) /\
       match r with Ok _ => n = zlen buf | Err _ => True | _ => False end /\
       (calm k -> r = Ok tt)).
  - exists 0. rewrite zdrop_0, Z.add_0_r by lia. split; [lia|]. split; [done|]. by destruct f.
  - lia.
  - intros [w b] (n & Hn & -> & ->) _.
    destruct (Z.gtb_spec (zlen (zdrop n buf)) 0) as [Hz|Hz]; cbv beta iota.
    + unfold Write, fd_writer, Fd_Write. cbn [fd_off fd_path].
      destruct (fails k _) eqn:Ef.
      { exists (Err "write failed"), n. split_and!; [lia|lia|done|done|]. intros Hc. by rewrite Hc in Ef. }
      rewrite (proj2 (Z.eqb_neq _ _)) by lia. destruct (Hk (zlen (zdrop n buf))) as [_ [H1 H2]]; [lia|].
      set (m := moved_out k (zlen (zdrop n buf))) in *. rewrite (proj2 (Z.gtb_lt m 0)) by lia.
      rewrite zlen_zdrop in H2.
      pose proof (put_file_more d f n m buf Ho ltac:(lia) H1 ltac:(lia)) as Hp.
      unfold put_file at 1 in Hp. rewrite (proj2 (Z.eqb_neq m 0)) in Hp by lia.
      cbn [fd_off fd_path] in Hp. rewrite Hp.
      split; [|rewrite zdrop_zdrop by lia; zlen_lia]. exists (n + m).
      split; [lia|]. rewrite zdrop_zdrop by lia. by rewrite Z.add_assoc.
    + exists (Ok tt), n. rewrite zlen_zdrop in Hz. split_and!; [lia|lia|done|lia|done].
Qed.
End descriptors.

Lemma znth_zslice {A} x p n (l : list A) :
  0 <= p -> 0 <= x -> znth x (zslice p n l) = if x <? n then znth (p + x) l else None.
Proof.
  intros Hp Hx. unfold zslice. destruct (Z.ltb_spec x n).
  - rewrite znth_ztake by lia. rewrite !znth_lookup, zdrop_drop, lookup_drop by lia. f_equal. lia.
  - rewrite znth_lookup, ztake_take by lia. apply lookup_take_ge. lia.
Qed.

Lemma zslice_agree {A} p n (l k : list A) :
  0 <= p -> (forall x, p <= x < p + n -> znth x l = znth x k) -> zslice p n l = zslice p n k.
Proof.
  intros Hp Hx. apply znth_ext. intros i Hi. rewrite !znth_zslice by lia.
  destruct (Z.ltb_spec i n); [|done]. apply Hx. lia.
Qed.

(** ** Reading and opening *)
Lemma ReadToString_fd (k : Kernel) (d : Disk) f :
  kernel_ok k -> fd_off f = 0 -> zlen (file_of d f) < 2 ^ 63 ->
  exists r f', @ReadToString _ (fd_reader k) (d, f) = (r, (d, f')) /\
    match r with Ok data => data = file_of d f | Err _ => True | _ => False end /\
    (calm k -> is_ok r = true).
Proof.
  intros Hk Hf Hlen. unfold ReadToString. set (file := file_of d f) in *.
  pose proof (zlen_nonneg file) as Hfile0.
  apply while_rule with
    (I := fun '(st, acc) => exists n, 0 <= n <= zlen file /\ st = (d, mkFd (fd_path f) n) /\
       acc = ztake n file)
    (m := fun '(st, acc) => zlen file - zlen acc)
    (Q := fun t => exists r f', t = (r, (d, f')) /\
       match r with Ok data => data = file | Err _ => True | _ => False end /\
       (calm k -> is_ok r = true)).
  - exists 0. rewrite ztake_0, <- Hf by lia. split_and!; [lia|lia|by destruct f|done].
  - change (zlen []) with 0. lia.
  - intros [st acc] (n & Hn & -> & ->) _. unfold Read, fd_reader, Fd_Read. cbn [fd_off fd_path].
    change (file_of d (mkFd (fd_path f) n)) with file.
    destruct (fails k _) eqn:Ef.
    { eexists _, _. split; [done|]. split; [done|]. intros Hc. by rewrite Hc in Ef. }
    set (m := if _ <=? 0 then 0 else _).
    assert (Hm : 0 <= m <= zlen file - n /\ (0 < zlen file - n -> 0 < m)).
    { unfold m. destruct (Z.leb_spec (Z.min 65536 (zlen file - n)) 0); [lia|].
      destruct (Hk (Z.min 65536 (zlen file - n))) as [? _]; lia. }
    rewrite zlen_zslice by lia. rewrite Z.min_l by lia.
    destruct (Z.gtb_spec m 0); cbv beta iota.
    + split; [|rewrite zlen_app, zlen_zslice, zlen_ztake by lia; lia].
      exists (n + m). split_and!; [lia|lia|done|]. by rewrite ztake_plus by lia.
    + eexists _, _. split; [done|]. split; [|done]. apply ztake_all. lia.
Qed.

Lemma file_at_Open (k : Kernel) (path : bytes) (d : Disk) (r : result Fd) (d' : Disk) :
  Fd_Open k path d = (r, d') -> forall p, file_at d' p = file_at d p.
Proof.
  unfold Fd_Open. destruct (fails k _); [by intros [= _ <-]|].
  intros [= _ <-] p. destruct (d !! path) eqn:E; [done|]. unfold file_at.
  destruct (decide (p = path)) as [->|]; [by rewrite lookup_insert_eq, E|by rewrite lookup_insert_ne].
Qed.

(** ** Copying *)

Lemma written_at_end buf data : InMemory.written_at (zlen data) buf data = data ++ buf.
Proof.
  apply znth_ext. intros x Hx. pose proof (zlen_nonneg data). pose proof (zlen_nonneg buf).
  rewrite znth_written_at, znth_app by lia.
  destruct (Z.ltb_spec x (zlen data)).
  - rewrite (proj2 (Z.leb_gt _ _)) by lia. done.
  - rewrite (proj2 (Z.leb_le (zlen data) x)) by lia. simpl.
    destruct (Z.ltb_spec x (zlen data + zlen buf)); [done|].
    rewrite znth_lookup by lia. symmetry. apply lookup_ge_None_2. unfold zlen in *. lia.
Qed.

Section copying.
Context (k : Kernel) (Hk : kernel_ok k).

(** A descriptor at the end of its file, whose contents are known. *)
Definition at_end (d : Disk) (f : Fd) (data : bytes) : Prop :=
  file_of d f = data /\ fd_off f = zlen data.

Lemma WriteExact_end buf d f data :
  at_end d f data -> zlen buf < 2 ^ 64 ->
  exists r d' f', @WriteExact _ (fd_writer k) buf (d, f) = (r, (d', f')) /\ fd_path f' = fd_path f /\
    (forall p, p <> fd_path f -> d' !! p = d !! p) /\
    match r with Ok _ => at_end d' f' (data ++ buf) | Err _ => True | _ => False end /\
    (calm k -> r = Ok tt).
Proof.
  intros [Hd Ho] Hb. pose proof (zlen_nonneg data).
  destruct (WriteExact_fd k Hk buf d f) as (r & n & Hn & Hrun & Hr & Hc); [lia|done|].
  exists r, (put_file d f n buf), (mkFd (fd_path f) (fd_off f + n)). split_and!; [done|done| | |done].
  - intros p Hp. unfold put_file. destruct (n =? 0); [done|]. by apply lookup_insert_ne.
  - destruct r; try done. subst n. unfold at_end, put_file.
    destruct (Z.eqb_spec (zlen buf) 0) as [E|E].
    + apply zlen_0_nil in E as ->. rewrite app_nil_r, zlen_nil, Z.add_0_r. done.
    + rewrite Hd, Ho, ztake_all by lia. unfold file_of. simpl. rewrite lookup_insert_eq, zlen_app.
      split; [apply written_at_end|lia].
Qed.

Lemma write_buffer_full buf d f data :
  full_writes k -> buf <> [] -> at_end d f data ->
  exists b d' f', write_buffer k buf d f = (Ok b, (d', f')) /\ fd_path f' = fd_path f /\
    (forall p, p <> fd_path f -> d' !! p = d !! p) /\ (calm k -> b = true) /\
    (b = true -> at_end d' f' (data ++ buf)).
Proof.
  intros Hfull Hb [Hd Ho]. unfold write_buffer.
  assert (0 < zlen buf) by (destruct buf; [done|zlen_lia]).
  apply while_rule with (I := fun x => x = ((d, f), 0)) (m := fun _ => 0)
    (Q := fun t => exists b d' f', t = (Ok b, (d', f')) /\ fd_path f' = fd_path f /\
      (forall p, p <> fd_path f -> d' !! p = d !! p) /\ (calm k -> b = true) /\
      (b = true -> at_end d' f' (data ++ buf))); [done|lia|].
  intros x -> _. unfold Fd_Write. destruct (fails k _) eqn:Ef.
  { eexists _, _, _. split; [done|]. split_and!; try done. intros Hc. by rewrite Hc in Ef. }
  rewrite (proj2 (Z.eqb_neq (zlen buf) 0)), Hfull, (proj2 (Z.eqb_neq (zlen buf) 0)) by lia.
  rewrite Z.add_0_l, Z.ltb_irrefl. eexists _, _, _. split; [done|]. split_and!; [done| |done|].
  - intros p Hp. by apply lookup_insert_ne.
  - intros _. split; [|simpl; rewrite zlen_app; lia]. rewrite Hd, Ho, ztake_all by lia.
    unfold file_of. simpl. rewrite lookup_insert_eq. apply written_at_end.
Qed.

(** With whole writes and any reads, [CopyFrom] appends what it was asked for. *)
Lemma CopyFrom_full length d from out src data :
  full_writes k -> fd_path from <> fd_path out -> file_of d from = src -> 0 <= fd_off from ->
  0 <= length -> fd_off from + length <= zlen src -> zlen src < 2 ^ 63 -> at_end d out data ->
  exists b d' from' out', CopyFrom k length d from out = (Ok b, (d', from', out')) /\
    fd_path out' = fd_path out /\ (forall p, p <> fd_path out -> d' !! p = d !! p) /\
    (calm k -> b = true) /\
    (b = true -> at_end d' out' (data ++ zslice (fd_off from) length src)).
Proof.
  intros Hfull Hne Hsrc Ho Hl Hlen Hmax Hend. unfold CopyFrom.
  set (Q := fun t : result bool * (Disk * Fd * Fd) => exists b d' from' out', t = (Ok b, (d', from', out')) /\
    fd_path out' = fd_path out /\ (forall p, p <> fd_path out -> d' !! p = d !! p) /\
    (calm k -> b = true) /\ (b = true -> at_end d' out' (data ++ zslice (fd_off from) length src))).
  assert (Hfail : forall d1 f1 o1, fd_path o1 = fd_path out ->
    (forall p, p <> fd_path out -> d1 !! p = d !! p) -> (calm k -> False) -> Q (Ok false, (d1, f1, o1))).
  { intros d1 f1 o1 H1 H2 H3. exists false, d1, f1, o1. split_and!; done. }
  apply while_rule with (I := fun '(d1, f1, o1, rest) => exists n, 0 <= n /\ n + rest = length /\ 0 <= rest /\
      f1 = mkFd (fd_path from) (fd_off from + n) /\ fd_path o1 = fd_path out /\
      (forall p, p <> fd_path out -> d1 !! p = d !! p) /\
      at_end d1 o1 (data ++ zslice (fd_off from) n src))
    (m := fun '(d1, f1, o1, rest) => rest) (Q := Q).
  - exists 0. rewrite Z.add_0_r. unfold zslice. rewrite ztake_0, app_nil_r by lia.
    split_and!; try done; try lia. by destruct from.
  - lia.
  - intros [[[d1 f1] o1] rest] (n & Hn & Hr & Hr0 & -> & Ho1 & Hsame & Hend1) _.
    destruct (Z.gtb_spec rest 0).
    2: { exists true, d1, (mkFd (fd_path from) (fd_off from + n)), o1. split_and!; try done.
         intros _. by replace length with n by lia. }
    destruct (fails k CPoll) eqn:Ep.
    { apply Hfail; [done..|]. intros Hc. by rewrite Hc in Ep. }
    unfold Fd_Read. cbn [fd_off fd_path].
    destruct (fails k (CRead _)) eqn:Er.
    { apply Hfail; [done..|]. intros Hc. by rewrite Hc in Er. }
    assert (file_of d1 (mkFd (fd_path from) (fd_off from + n)) = src) as ->.
    { unfold file_of. simpl. by rewrite Hsame. }
    set (req := Z.min (Z.min kPreferredBufferSize rest) (zlen src - (fd_off from + n))).
    assert (Hreq : 0 < req <= rest) by (unfold req, kPreferredBufferSize; lia).
    rewrite (proj2 (Z.leb_gt req 0)) by lia. destruct (Hk req) as [Hm _]; [lia|].
    set (m := moved_in k req) in *.
    assert (Hz : zlen (zslice (fd_off from + n) m src) = m) by (rewrite zlen_zslice; unfold req in *; lia).
    rewrite Hz. rewrite (proj2 (Z.eqb_neq m 0)) by lia.
    assert (Hne0 : zslice (fd_off from + n) m src <> []).
    { intros Hnil%(f_equal zlen). rewrite Hz, zlen_nil in Hnil. lia. }
    destruct (write_buffer_full _ d1 o1 _ Hfull Hne0 Hend1)
      as (b & d2 & o2 & -> & Hp2 & Hs2 & Hc2 & Ha2).
    assert (Hsame2 : forall p, p <> fd_path out -> d2 !! p = d !! p).
    { intros p Hp. rewrite Hs2 by congruence. by apply Hsame. }
    destruct b; [|apply Hfail; [congruence|done|]; intros Hc; by apply Hc2 in Hc].
    rewrite u64_id by (unfold is_u64; lia). split; [|lia].
    exists (n + m). rewrite Z.add_assoc. split_and!; try done; try lia; try congruence.
    rewrite zslice_plus, app_assoc by lia. by apply Ha2.
Qed.
End copying.

(** [Fd::CopyFrom] restarts each partial write at the beginning of its
    buffer: when a write takes one byte of two, the first byte is copied again
    before the rest, and the copy reports success. *)
Theorem CopyFrom_partial_write_duplicates :
  exists k d from out d' from' out', kernel_ok k /\ calm k /\ file_of d from = str "ab" /\
    file_of d out = [] /\ CopyFrom k 2 d from out = (Ok true, (d', from', out')) /\
    file_of d' out' = str "aa".
Proof.
  exists (mkKernel (fun n => n) (fun n => if n =? 0 then 0 else 1) (fun _ => false) []),
    {[ str "in" := str "ab"; str "out" := [] ]}, (mkFd (str "in") 0), (mkFd (str "out") 0).
  eexists _, _, _. split_and!; [|done|done|done|vm_compute; reflexivity|vm_compute; reflexivity].
  intros n Hn. simpl. destruct (Z.eqb_spec n 0); lia.
Qed.

(** A kernel that transfers all it is asked to and never fails. *)
Definition quiet : Kernel := mkKernel (fun n => n) (fun n => n) (fun _ => false) (str "aaaaaa").
Lemma quiet_ok : kernel_ok quiet /\ full_writes quiet /\ calm quiet.
Proof. split; [intros n Hn; simpl; lia|done]. Qed.

End FileDesc.
