(* ===== verification/LazyFile.v ===== *)
(** * Lazily loaded files (io/lazily_loaded_file.cc)

    A local file that caches what was read from a slow source: a set of ranges
    says which bytes of the local file are those of the source, and is kept in
    a second file between runs.  The model has the disk with both files, the
    file descriptors (common/libs/fs/fd.cc) with the answers of the kernel as
    an argument, and any [ReaderSeeker] as the source. *)
From S2P Require Import Prelude RangeSet IO InMemory Views FileDesc.

Module LazyFile.
Import IO FileDesc.
Abbreviation Range := RangeSet.Range.

Definition kMinReadSize : Z := Z.shiftl 1 26.
(** [std::vector<char>(kMinReadSize)]. *)
Definition initial_buffer : bytes := replicate (Z.to_nat kMinReadSize) zero.

Lemma kMinReadSize_eq : kMinReadSize = 2 ^ 26.
Proof. reflexivity. Qed.
Lemma zlen_initial_buffer : zlen initial_buffer = kMinReadSize.
Proof. unfold initial_buffer. rewrite zlen_replicate, kMinReadSize_eq. lia. Qed.
Lemma znth_initial_buffer x : 0 <= x < kMinReadSize -> znth x initial_buffer = Some zero.
Proof.
  rewrite kMinReadSize_eq. intros Hx. rewrite znth_lookup by lia. apply lookup_replicate.
  rewrite kMinReadSize_eq. split; [done|lia].
Qed.
#[global] Opaque initial_buffer.

(** [LazilyLoadedFile::Impl]. *)
Record Impl (R : Type) := mkImpl {
  filename_ : bytes;
  contents_file_ : Fd;
  callback_ : R;
  already_downloaded_ : list Range;
  seek_pos_ : Z;
  size_ : Z;
  extended_read_buffer_ : bytes
}.
Arguments mkImpl {R}. Arguments filename_ {R}. Arguments contents_file_ {R}. Arguments callback_ {R}.
Arguments already_downloaded_ {R}. Arguments seek_pos_ {R}. Arguments size_ {R}.
Arguments extended_read_buffer_ {R}.

(** ** The cache *)
Section lazy.
Context (k : Kernel).
Context {R : Type} `{ReaderSeeker R}.
(** The protobuf codec of the set of ranges. *)
Context (SerializeAsString : list (Z * Z) -> bytes)
        (ParseFromString : bytes -> option (list (Z * Z))).
Implicit Types (s : Impl R).

Definition set_file (f : Fd) s : Impl R :=
  mkImpl (filename_ s) f (callback_ s) (already_downloaded_ s) (seek_pos_ s) (size_ s)
    (extended_read_buffer_ s).
Definition set_callback (c : R) s : Impl R :=
  mkImpl (filename_ s) (contents_file_ s) c (already_downloaded_ s) (seek_pos_ s) (size_ s)
    (extended_read_buffer_ s).
Definition set_downloaded (l : list Range) s : Impl R :=
  mkImpl (filename_ s) (contents_file_ s) (callback_ s) l (seek_pos_ s) (size_ s)
    (extended_read_buffer_ s).
Definition set_seek_pos (p : Z) s : Impl R :=
  mkImpl (filename_ s) (contents_file_ s) (callback_ s) (already_downloaded_ s) p (size_ s)
    (extended_read_buffer_ s).
Definition set_buffer (b : bytes) s : Impl R :=
  mkImpl (filename_ s) (contents_file_ s) (callback_ s) (already_downloaded_ s) (seek_pos_ s)
    (size_ s) b.

(** Steps on the disk, on the contents file, on the source and on the object. *)
Definition on_disk {A} (m : M Disk A) : M (Disk * Impl R) A := fun '(d, s) =>
  let '(r, d') := m d in (r, (d', s)).
Definition on_file {A} (m : M (Disk * Fd) A) : M (Disk * Impl R) A := fun '(d, s) =>
  let '(r, (d', f)) := m (d, contents_file_ s) in (r, (d', set_file f s)).
Definition on_callback {A} (m : M R A) : M (Disk * Impl R) A := fun '(d, s) =>
  let '(r, c) := m (callback_ s) in (r, (d, set_callback c s)).
Definition update (f : Impl R -> Impl R) : M (Disk * Impl R) unit :=
  modify (fun '(d, s) => (d, f s)).

(** [already_downloaded_.InsertRange(seek_pos_, seek_pos_ + data_read)]. *)
Definition record_download (data_read : Z) : M (Disk * Impl R) unit :=
  let! (_, s) := get in
  let! l := lift (RangeSet.InsertRange (already_downloaded_ s) (seek_pos_ s)
                    (u64 (seek_pos_ s + data_read))) in
  update (set_downloaded l).

Definition advance (n : Z) : M (Disk * Impl R) unit :=
  update (fun s => set_seek_pos (u64 (seek_pos_ s + n)) s).

(** [LazilyLoadedFile::Impl::Read]; the bytes returned are those put in [data]. *)
Definition Impl_Read (size : Z) : M (Disk * Impl R) bytes :=
  let! (_, s) := get in
  let! _ := on_file (Fd_SeekSet k (seek_pos_ s)) in
  match RangeSet.EndOfContainingRange (already_downloaded_ s) (seek_pos_ s) with
  | Some end_of_present_data =>
      let read_request := Z.min (u64 (end_of_present_data - seek_pos_ s)) size in
      let! data := on_file (Fd_Read k read_request) in
      let! _ := advance (zlen data) in
      mret data
  | None =>
      let! _ := on_callback (SeekSet (seek_pos_ s)) in
      if size <? kMinReadSize then
        let extended_read_size := Z.min kMinReadSize (u64 (size_ s - seek_pos_ s)) in
        let! data := on_callback (Read extended_read_size) in
        let data_read := zlen data in
        let buffer := data ++ zdrop data_read (extended_read_buffer_ s) in
        let! _ := update (set_buffer buffer) in
        let! _ := on_file (@WriteExact _ (fd_writer k) buffer) in
        let! _ := record_download data_read in
        let reported_size := Z.min data_read size in
        let! _ := advance reported_size in
        mret (ztake reported_size buffer)
      else
        let! data := on_callback (Read size) in
        let! _ := on_file (@WriteExact _ (fd_writer k) data) in
        let! _ := record_download (zlen data) in
        let! _ := advance (zlen data) in
        mret data
  end.

Definition MetadataFile (filename : bytes) : bytes := filename ++ str ".frag_data".

Definition ReadMetadata : M (Disk * Impl R) unit := fun '(d, s) =>
  match Fd_Open k (MetadataFile (filename_ s)) d with
  | (Ok metadata_fd, d) =>
      match @ReadToString _ (fd_reader k) (d, metadata_fd) with
      | (Ok data, (d, _)) =>
          match RangeSet.DeserializeDisjointRangeSet ParseFromString data with
          | Ok parsed => (Ok tt, (d, set_downloaded parsed s))
          | Err _ => (Ok tt, (d, s))
          | r => (fail_as r, (d, s))
          end
      | (r, (d, _)) => (fail_as r, (d, s))
      end
  | (r, d) => (fail_as r, (d, s))
  end.

Definition WriteMetadata : M (Disk * Impl R) unit :=
  let! (_, s) := get in
  let! (fd, temp) := on_disk (Fd_Mkostemp k (MetadataFile (filename_ s) ++ str ".")) in
  let! _ := lift (expect (negb (fails k CChmod)) "chmod") in
  let data := RangeSet.Serialize SerializeAsString (already_downloaded_ s) in
  let! _ := on_disk (fun d => let '(r, (d', _)) := @WriteExact _ (fd_writer k) data (d, fd) in (r, d')) in
  on_disk (RenameFile k temp (MetadataFile (filename_ s))).

(** The object: no implementation after it was moved from. *)
Definition LazilyLoadedFile : Type := option (Impl R).

Definition Create (filename : bytes) (size : Z) (callback : R) : M Disk LazilyLoadedFile := fun d =>
  match Fd_Open k filename d with
  | (Ok contents_file, d) =>
      let impl := mkImpl filename contents_file callback [] 0 size
                    initial_buffer in
      match ReadMetadata (d, impl) with
      | (Ok _, (d, impl)) => (Ok (Some impl), d)
      | (r, (d, _)) => (fail_as r, d)
      end
  | (r, d) => (fail_as r, d)
  end.

(** What the methods of the object do with a missing implementation. *)
Definition with_impl {A} (m : M (Disk * Impl R) A) : M (Disk * LazilyLoadedFile) A := fun '(d, o) =>
  match o with
  | Some s => let '(r, (d', s')) := m (d, s) in (r, (d', Some s'))
  | None => (Err "impl_.get()", (d, o))
  end.

Definition Read_lazy (size : Z) : M (Disk * LazilyLoadedFile) bytes := with_impl (Impl_Read size).
Definition Seek (location : Z) : M (Disk * LazilyLoadedFile) unit :=
  with_impl (update (set_seek_pos location)).
(** The destructor; a failure is logged. *)
Definition Destroy (o : LazilyLoadedFile) (d : Disk) : Disk :=
  match o with Some s => (WriteMetadata (d, s)).2.1 | None => d end.
(** Moving: the new object, then what is left of [other].  The assignment drops
    the implementation it had without writing its metadata. *)
Definition Move_construct (other : LazilyLoadedFile) : LazilyLoadedFile * LazilyLoadedFile := (other, None).
Definition Move_assign (_this other : LazilyLoadedFile) : LazilyLoadedFile * LazilyLoadedFile := (other, None).
End lazy.

(** ** What the parts promise *)

(** A source: reads return a piece of fixed data at the position of the last
    seek; past the end there is nothing to read.  Calls can fail. *)
Class SourceLaws (R : Type) `{ReaderSeeker R} := {
  source : R -> bytes;
  source_pos : R -> Z;
  source_ok : R -> Prop;
  source_seek r p : source_ok r -> is_u64 p ->
    exists res r', SeekSet p r = (res, r') /\ source_ok r' /\ source r' = source r /\
      match res with
      | Ok _ => Z.min (source_pos r') (zlen (source r)) = Z.min p (zlen (source r))
      | Err _ => True
      | _ => False
      end;
  source_read r n : source_ok r -> is_u64 n ->
    exists res r', Read n r = (res, r') /\ source_ok r' /\ source r' = source r /\
      match res with
      | Ok bs => exists m, bs = zslice (source_pos r) m (source r) /\ 0 <= m <= n /\
          source_pos r + m <= Z.max (source_pos r) (zlen (source r)) /\
          (0 < n -> source_pos r < zlen (source r) -> 0 < m)
      | Err _ => True
      | _ => False
      end
}.

(** A source that returns all it is asked for, up to the end. *)
Definition full_reads (R : Type) `{SourceLaws R} : Prop :=
  forall (r : R) n bs r', source_ok r -> is_u64 n -> Read n r = (Ok bs, r') ->
    zlen bs = Z.min n (Z.max 0 (zlen (source r) - source_pos r)).

Definition reliable (R : Type) `{SourceLaws R} : Prop :=
  forall (r : R) n, source_ok r -> is_u64 n ->
    is_ok (SeekSet n r).1 = true /\ is_ok (Read n r).1 = true.

(** Views derived from ReaderFakeSeeker are sources that do not fail. *)
#[global] Program Instance fake_source {D} `{Views.PReaderLaws D} :
    SourceLaws (Views.ReaderFakeSeeker D) :=
  { source := fun r => Views.view (Views.derived r); source_pos := Views.seek_pos_;
    source_ok := Views.fake_wf }.
Next Obligation.
  intros D ?? r p Hw Hp. unfold is_u64 in *. pose proof Hw as (? & Hl & ? & ?).
  exists (Ok (Z.min p (Views.length_ r))), (Views.set_pos r (Z.min p (Views.length_ r))).
  split; [done|]. split; [apply Views.fake_seek_in_range; [done|lia]|].
  simpl. split; [done|]. lia.
Qed.
Next Obligation.
  intros D ?? r n Hw Hn. unfold is_u64 in *. pose proof Hw as (Hok & Hl & Hp & Hm).
  unfold Read, Views.fake_reader_seeker, rs_reader, Views.fake_reader, Views.Read_fake.
  destruct (Views.view_spec (Views.derived r) n (Views.seek_pos_ r)) as (m & -> & Hb & Hmax & Hpos);
    [done|done|unfold is_u64; lia|].
  eexists _, _. split; [done|]. rewrite zlen_zslice by lia.
  rewrite Z.min_l, u64_id by (unfold is_u64; lia).
  split; [apply Views.fake_seek_in_range; [done|lia]|]. split; [done|]. eauto.
Qed.

Lemma fake_reliable {D} `{Views.PReaderLaws D} : reliable (Views.ReaderFakeSeeker D).
Proof.
  intros r n Hw Hn. split.
  - done.
  - unfold is_u64 in *. pose proof Hw as (Hok & Hl & Hp & Hm).
    unfold Read, Views.fake_reader_seeker, rs_reader, Views.fake_reader, Views.Read_fake.
    by destruct (Views.view_spec (Views.derived r) n (Views.seek_pos_ r)) as (m & -> & _);
      [|unfold is_u64; lia..|].
Qed.

(** ** The cache holds bytes of the source *)
Definition cached (src : bytes) (l : list Range) (file : bytes) : Prop :=
  RangeSet.wf l /\ Forall (fun r => 0 <= RangeSet.start_ r /\ RangeSet.end_ r < 2 ^ 63) l /\
  forall x, RangeSet.covers l x -> 0 <= x < zlen src /\ znth x file = znth x src.

(** A later state of the file: what was right stays right. *)
Definition improves (src file file' : bytes) : Prop :=
  forall x, 0 <= x < zlen src -> znth x file = znth x src -> znth x file' = znth x src.

Lemma cached_improves src l file file' :
  improves src file file' -> cached src l file -> cached src l file'.
Proof.
  intros Hi (Hw & Hb & Hc). split_and!; [done..|]. intros x Hx.
  destruct (Hc x Hx) as [Hr He]. split; [done|]. by apply Hi.
Qed.

Lemma improves_write src pos n buf file :
  0 <= pos -> 0 <= n <= zlen buf ->
  (forall x, pos <= x < pos + n -> x < zlen src -> znth (x - pos) buf = znth x src) ->
  improves src file (InMemory.written_at pos (ztake n buf) file).
Proof.
  intros Hp Hn Hb x Hx He. rewrite znth_written_at by lia.
  rewrite zlen_ztake, Z.max_l, Z.min_l by lia.
  destruct (Z.leb_spec pos x); destruct (Z.ltb_spec x (pos + n)); simpl;
    try (rewrite znth_ztake by lia; apply Hb; lia).
  all: destruct (Z.ltb_spec x (zlen file)); [done|].
  all: assert (Hnone : znth x file = None)
    by (rewrite znth_lookup by lia; apply lookup_ge_None_2; unfold zlen in *; lia).
  all: rewrite Hnone in He; symmetry in He; rewrite znth_lookup in He by lia;
    apply lookup_ge_None_1 in He; unfold zlen in *; lia.
Qed.

Lemma cached_insert src l file s n :
  cached src l file -> 0 <= s -> 0 <= n -> s + n < 2 ^ 63 ->
  (forall x, s <= x < s + n -> x < zlen src /\ znth x file = znth x src) ->
  exists l', RangeSet.InsertRange l s (u64 (s + n)) = Ok l' /\ cached src l' file.
Proof.
  intros (Hw & Hb & Hc) Hs Hn Hsn Hnew. rewrite u64_id by (unfold is_u64; lia).
  destruct (RangeSet.InsertRange_spec l s (s + n) Hw) as (l' & Hi & Hw' & Hcov); [lia|].
  exists l'. split; [done|]. split_and!; [done| |].
  - eapply RangeSet.InsertRange_Forall; [|exact Hb| |exact Hi]; simpl; lia.
  - intros x [Hx|Hx]%Hcov; [by apply Hc|]. destruct (Hnew x Hx). split; [lia|done].
Qed.

(** Where a read can be answered from the file, the file has the bytes. *)
Lemma cached_hit src l file pos e :
  cached src l file -> 0 <= pos < 2 ^ 63 -> RangeSet.EndOfContainingRange l pos = Some e ->
  pos < e <= zlen src /\ e <= zlen file /\
  forall n, n <= e - pos -> zslice pos n file = zslice pos n src.
Proof.
  intros (Hw & Hb & Hc) Hp He. apply RangeSet.EndOfContainingRange_spec in He; [|done|lia].
  destruct He as (r & Hr & Hin & <-).
  assert (Hcov : forall x, pos <= x < RangeSet.end_ r -> 0 <= x < zlen src /\ znth x file = znth x src).
  { intros x Hx. apply Hc. apply Exists_exists. exists r. split; [done|].
    unfold RangeSet.in_range in *. lia. }
  unfold RangeSet.in_range in Hin. destruct (Hcov (RangeSet.end_ r - 1)) as [H1 H2]; [lia|].
  split_and!; [lia|lia| |].
  - rewrite !znth_lookup in H2 by lia. destruct (lookup_lt_is_Some_2 src (Z.to_nat (RangeSet.end_ r - 1)))
      as [b Hlk]; [unfold zlen in *; lia|]. rewrite Hlk in H2.
    apply lookup_lt_Some in H2. unfold zlen. lia.
  - intros n Hn. apply zslice_agree; [lia|]. intros x Hx. apply Hcov. lia.
Qed.

(** ** The invariant of an open file *)
Section cache.
Context {R : Type} `{SourceLaws R}.
Context (SerializeAsString : list (Z * Z) -> bytes)
        (ParseFromString : bytes -> option (list (Z * Z))).
Context (src : bytes) (Hsrc : zlen src < 2 ^ 63).
Implicit Types (s : Impl R) (d : Disk).

(** What the metadata file says is true of the contents file. *)
Definition saved d (name : bytes) : Prop :=
  exists l, file_at d (MetadataFile name) = RangeSet.Serialize SerializeAsString l /\
    zlen (file_at d (MetadataFile name)) < 2 ^ 63 /\ cached src l (file_at d name).

Record inv d s : Prop := {
  i_path : fd_path (contents_file_ s) = filename_ s;
  i_exists : is_Some (d !! filename_ s);
  i_cached : cached src (already_downloaded_ s) (file_at d (filename_ s));
  i_saved : saved d (filename_ s);
  i_size : size_ s = zlen src;
  i_ok : source_ok (callback_ s);
  i_source : source (callback_ s) = src;
  i_buffer : zlen (extended_read_buffer_ s) = kMinReadSize;
  i_pos : is_u64 (seek_pos_ s)
}.

Lemma MetadataFile_ne name : MetadataFile name <> name.
Proof.
  intros Hn%(f_equal zlen). unfold MetadataFile in Hn. rewrite zlen_app in Hn.
  change (zlen (str ".frag_data")) with 10 in Hn. lia.
Qed.

(** Steps that leave the files alone. *)
Lemma inv_pos d s p : inv d s -> is_u64 p -> inv d (set_seek_pos p s).
Proof. intros [] Hp. by constructor. Qed.
Lemma inv_fd d s f : inv d s -> fd_path f = filename_ s -> inv d (set_file f s).
Proof. intros [] Hp. by constructor. Qed.
Lemma inv_buffer d s b : inv d s -> zlen b = kMinReadSize -> inv d (set_buffer b s).
Proof. intros [] Hp. by constructor. Qed.
Lemma inv_callback d s c : inv d s -> source_ok c -> source c = src -> inv d (set_callback c s).
Proof. intros [] ??. by constructor. Qed.
Lemma inv_downloaded d s l :
  inv d s -> cached src l (file_at d (filename_ s)) -> inv d (set_downloaded l s).
Proof. intros [] Hp. by constructor. Qed.

(** A write that puts bytes of the source where the source has any. *)
Lemma inv_put d s f n buf :
  inv d s -> fd_path f = filename_ s -> 0 <= fd_off f -> 0 <= n <= zlen buf ->
  (forall x, fd_off f <= x < fd_off f + n -> x < zlen src ->
     znth (x - fd_off f) buf = znth x src) ->
  inv (put_file d f n buf) s.
Proof.
  intros Hi Hp Ho Hn Hb. unfold put_file. destruct (Z.eqb_spec n 0); [done|].
  destruct Hi as [Hp' Hex Hc (l & Hl & Hll & Hcl) Hz Hok Hs Hbf Hpos].
  assert (Himp : improves src (file_at d (filename_ s))
    (file_at (<[fd_path f:=InMemory.written_at (fd_off f) (ztake n buf) (file_of d f)]> d) (filename_ s))).
  { unfold file_at at 2, file_of. rewrite Hp, lookup_insert_eq. by apply improves_write. }
  constructor; try done.
  - rewrite Hp, lookup_insert_eq. by eexists.
  - by eapply cached_improves.
  - exists l. unfold file_at at 1 2. rewrite Hp, lookup_insert_ne.
    + split_and!; [done..|]. rewrite Hp in Himp. by eapply cached_improves.
    + intros E. by eapply MetadataFile_ne.
Qed.

(** Storing what was just read, and noting it. *)
Lemma store_spec k d s buf n :
  kernel_ok k -> inv d s -> fd_off (contents_file_ s) = seek_pos_ s -> seek_pos_ s < 2 ^ 63 ->
  zlen buf < 2 ^ 64 -> 0 <= n <= zlen buf -> seek_pos_ s + n <= Z.max (seek_pos_ s) (zlen src) ->
  (forall x, seek_pos_ s <= x < seek_pos_ s + zlen buf -> x < zlen src ->
     znth (x - seek_pos_ s) buf = znth x src) ->
  exists r d' s',
    mbind (on_file (@WriteExact _ (fd_writer k) buf)) (fun _ => record_download n) (d, s) = (r, (d', s')) /\
    inv d' s' /\ filename_ s' = filename_ s /\ seek_pos_ s' = seek_pos_ s /\
    match r with Ok _ | Err _ => True | _ => False end /\ (calm k -> r = Ok tt).
Proof.
  intros Hk Hi Hoff Hp Hbl Hn Hmax Hb. pose proof (i_pos _ _ Hi) as [Hp0 _].
  destruct (WriteExact_fd k Hk buf d (contents_file_ s)) as (r & m & Hm & Hrun & Hr & Hcalm);
    [lia|done|].
  assert (Hi1 : inv (put_file d (contents_file_ s) m buf) s).
  { apply inv_put; [done|apply (i_path _ _ Hi)|lia..|]. rewrite Hoff. intros x Hx. apply Hb. lia. }
  set (d1 := put_file d (contents_file_ s) m buf) in *.
  set (f1 := mkFd (fd_path (contents_file_ s)) (fd_off (contents_file_ s) + m)) in *.
  assert (Hi2 : inv d1 (set_file f1 s)) by (apply inv_fd; [done|by apply (i_path _ _ Hi)]).
  unfold mbind at 1, on_file. rewrite Hrun. destruct r as [u| | |]; try done.
  2: { eexists _, _, _. split; [done|]. split_and!; try done. }
  destruct (cached_insert src (already_downloaded_ s) (file_at d1 (filename_ s)) (seek_pos_ s) n)
    as (l & Hins & Hcl); [apply Hi1|lia..| |].
  { intros x Hx. split; [lia|]. unfold d1, put_file. rewrite (proj2 (Z.eqb_neq m 0)) by lia.
    unfold file_at. rewrite (i_path _ _ Hi), lookup_insert_eq. simpl.
    rewrite znth_written_at by lia. rewrite Hr, ztake_all by lia. rewrite Hoff.
    rewrite (proj2 (Z.leb_le _ _)), (proj2 (Z.ltb_lt _ _)) by lia. simpl. apply Hb; lia. }
  unfold record_download, mbind, get, lift, update, modify. cbn [seek_pos_ already_downloaded_ set_file].
  rewrite Hins. eexists _, _, _. split; [done|]. split_and!; try done.
  by apply inv_downloaded.
Qed.
(** Seeking in the source and reading from it. *)
Lemma fetch_spec d s n :
  inv d s -> is_u64 n ->
  exists r c, mbind (on_callback (SeekSet (seek_pos_ s))) (fun _ => on_callback (Read n)) (d, s) =
      (r, (d, set_callback c s)) /\ inv d (set_callback c s) /\
    match r with
    | Ok bs => bs = zslice (seek_pos_ s) (zlen bs) src /\ zlen bs <= n /\
        seek_pos_ s + zlen bs <= Z.max (seek_pos_ s) (zlen src) /\
        (0 < n -> seek_pos_ s < zlen src -> 0 < zlen bs) /\
        (full_reads R -> zlen bs = Z.min n (Z.max 0 (zlen src - seek_pos_ s)))
    | Err _ => True
    | _ => False
    end /\ (reliable R -> is_ok r = true).
Proof.
  intros Hi Hn. pose proof (i_pos _ _ Hi) as Hp. pose proof (i_ok _ _ Hi) as Hok.
  pose proof (i_source _ _ Hi) as Hs. unfold mbind, on_callback.
  destruct (source_seek (callback_ s) (seek_pos_ s) Hok Hp) as (r1 & c1 & E1 & Hok1 & Hs1 & Hr1).
  pose proof (fun Hrel : reliable R => proj1 (Hrel _ _ Hok Hp)) as L1. rewrite E1 in *.
  rewrite Hs in *. destruct r1 as [q| | |]; try done; cbn [callback_ set_callback].
  2: { eexists _, c1. split; [done|]. split_and!; [by apply inv_callback|done..]. }
  destruct (source_read c1 n Hok1 Hn) as (r2 & c2 & E2 & Hok2 & Hs2 & Hr2).
  pose proof (fun Hrel : reliable R => proj2 (Hrel _ _ Hok1 Hn)) as L2.
  pose proof (fun Hf : full_reads R => fun bs => Hf c1 n bs c2 Hok1 Hn) as L3. rewrite E2 in *.
  rewrite Hs1 in *. exists r2, c2. split; [by destruct r2|].
  split; [by apply inv_callback|]. split; [|done]. destruct r2 as [bs| | |]; try done.
  destruct Hr2 as (m & -> & Hm & Hmax & Hpos).
  assert (Hz : zslice (source_pos c1) m src = zslice (seek_pos_ s) m src /\
    zlen (zslice (seek_pos_ s) m src) = m /\ seek_pos_ s + m <= Z.max (seek_pos_ s) (zlen src)).
  { unfold is_u64 in Hp. destruct (Z.lt_ge_cases (seek_pos_ s) (zlen src)).
    - replace (source_pos c1) with (seek_pos_ s) in * by lia.
      rewrite zlen_zslice by lia. split_and!; [done|lia..].
    - assert (m = 0) as -> by lia. unfold zslice. rewrite !ztake_0 by lia.
      rewrite zlen_nil. split_and!; [done|lia..]. }
  destruct Hz as (Hz & Hlen & Hb). rewrite Hz in *. rewrite Hlen in *.
  split_and!; [done|lia|done| |].
  - intros Hn0 Hlt. apply Hpos; lia.
  - intros Hf. specialize (L3 Hf _ eq_refl). rewrite Hlen in L3. lia.
Qed.

(** What a read gives: bytes of the source at the position, or an error. *)
Definition read_outcome (size : Z) s s' (r : result bytes) : Prop :=
  filename_ s' = filename_ s /\
  match r with
  | Ok bs => bs = zslice (seek_pos_ s) (zlen bs) src /\ zlen bs <= size /\
      seek_pos_ s' = seek_pos_ s + zlen bs /\
      (0 < size -> seek_pos_ s < zlen src -> bs <> [])
  | Err _ => seek_pos_ s' = seek_pos_ s
  | _ => False
  end.

Lemma hit_spec k d s e size :
  kernel_ok k -> inv d s -> contents_file_ s = mkFd (filename_ s) (seek_pos_ s) ->
  seek_pos_ s < 2 ^ 63 -> is_u64 size ->
  RangeSet.EndOfContainingRange (already_downloaded_ s) (seek_pos_ s) = Some e ->
  exists r d' s',
    (let! data := on_file (Fd_Read k (Z.min (u64 (e - seek_pos_ s)) size)) in
     let! _ := advance (zlen data) in mret data) (d, s) = (r, (d', s')) /\
    inv d' s' /\ read_outcome size s s' r /\ (calm k -> is_ok r = true).
Proof.
  intros Hk Hi Hf Hp Hsz He. pose proof (i_pos _ _ Hi) as Hp0. unfold is_u64 in *.
  destruct (cached_hit _ _ _ (seek_pos_ s) e (i_cached _ _ Hi)) as (He1 & He2 & Hag); [lia|done|].
  rewrite u64_id by (unfold is_u64; lia). unfold mbind, on_file, Fd_Read. rewrite Hf. cbn [fd_off fd_path].
  destruct (fails k _) eqn:Ef.
  { eexists _, _, _. split; [done|]. split; [by apply inv_fd|]. split; [done|].
    intros Hc. by rewrite Hc in Ef. }
  change (file_of d (mkFd (filename_ s) (seek_pos_ s))) with (file_at d (filename_ s)).
  set (req := Z.min (Z.min _ _) _). set (n := if req <=? 0 then 0 else moved_in k req).
  assert (Hn : 0 <= n <= req /\ (0 < req -> 0 < n)).
  { unfold n. destruct (Z.leb_spec req 0); [lia|]. destruct (Hk req) as [? _]; lia. }
  assert (Hlen : zlen (zslice (seek_pos_ s) n src) = n) by (rewrite zlen_zslice; lia).
  rewrite Hag by lia. rewrite Hlen. unfold advance, update, modify, mret.
  cbn [seek_pos_ set_file]. rewrite u64_id by (unfold is_u64; lia).
  eexists _, _, _. split; [done|]. split; [|split; [|done]].
  - apply inv_pos; [by apply inv_fd|]. unfold is_u64. simpl. lia.
  - split; [done|]. rewrite Hlen. split_and!; [done|lia|done|].
    intros H1 H2 Hnil%(f_equal zlen). rewrite Hlen, zlen_nil in Hnil. lia.
Qed.

Lemma miss_large_spec k d s size :
  kernel_ok k -> inv d s -> contents_file_ s = mkFd (filename_ s) (seek_pos_ s) ->
  seek_pos_ s < 2 ^ 63 -> is_u64 size ->
  exists r d' s',
    (let! _ := on_callback (SeekSet (seek_pos_ s)) in
     let! data := on_callback (Read size) in
     let! _ := on_file (@WriteExact _ (fd_writer k) data) in
     let! _ := record_download (zlen data) in
     let! _ := advance (zlen data) in
     mret data) (d, s) = (r, (d', s')) /\
    inv d' s' /\ read_outcome size s s' r /\ (calm k -> reliable R -> is_ok r = true).
Proof.
  intros Hk Hi Hf Hp Hsz. rewrite <- mbind_assoc.
  destruct (fetch_spec d s size Hi Hsz) as (r & c & Hrun & Hi1 & Hr & Hrel).
  rewrite (mbind_run _ _ _ _ _ Hrun). pose proof (i_pos _ _ Hi) as Hp0. unfold is_u64 in *.
  destruct r as [bs| | |]; try done.
  2: { eexists _, _, _. split; [done|]. split_and!; [done|done|]. intros _ Hl. by apply Hrel in Hl. }
  destruct Hr as (Hbs & Hle & Hmax & Hpos & _). rewrite <- mbind_assoc.
  pose proof (zlen_nonneg bs).
  destruct (store_spec k d (set_callback c s) bs (zlen bs)) as
    (r2 & d2 & s2 & Hrun2 & Hi2 & Hn2 & Hp2 & Hr2 & Hcalm); try done; try (simpl; rewrite ?Hf; simpl; lia).
  { simpl. intros x Hx _. rewrite Hbs, znth_zslice by lia.
    rewrite (proj2 (Z.ltb_lt _ _)) by lia. f_equal. lia. }
  rewrite (mbind_run _ _ _ _ _ Hrun2). simpl in Hn2, Hp2. destruct r2 as [u| | |]; try done.
  2: { eexists _, _, _. split; [done|]. split_and!; [done|done..|]. intros Hc _. by apply Hcalm in Hc. }
  unfold mbind, advance, update, modify, mret. rewrite Hp2, u64_id by (unfold is_u64; lia).
  eexists _, _, _. split; [done|]. split; [apply inv_pos; [done|unfold is_u64; lia]|].
  split; [|done]. split; [done|]. split_and!; [done|done|done|].
  intros Hs0 Hlt Hnil%(f_equal zlen). specialize (Hpos Hs0 Hlt).
  change (zlen []) with 0 in Hnil. lia.
Qed.
Lemma miss_small_spec k d s size :
  full_reads R ->
  kernel_ok k -> inv d s -> contents_file_ s = mkFd (filename_ s) (seek_pos_ s) ->
  seek_pos_ s < 2 ^ 63 -> 0 <= size < kMinReadSize ->
  exists r d' s',
    (let! _ := on_callback (SeekSet (seek_pos_ s)) in
     let! data := on_callback (Read (Z.min kMinReadSize (u64 (size_ s - seek_pos_ s)))) in
     let! _ := update (set_buffer (data ++ zdrop (zlen data) (extended_read_buffer_ s))) in
     let! _ := on_file (@WriteExact _ (fd_writer k) (data ++ zdrop (zlen data) (extended_read_buffer_ s))) in
     let! _ := record_download (zlen data) in
     let! _ := advance (Z.min (zlen data) size) in
     mret (ztake (Z.min (zlen data) size) (data ++ zdrop (zlen data) (extended_read_buffer_ s)))) (d, s)
    = (r, (d', s')) /\
    inv d' s' /\ read_outcome size s s' r /\ (calm k -> reliable R -> is_ok r = true).
Proof.
  intros Hfull Hk Hi Hf Hp Hsz. rewrite <- mbind_assoc.
  pose proof (i_pos _ _ Hi) as Hp0. pose proof (u64_range (size_ s - seek_pos_ s)) as Hu.
  pose proof (i_size _ _ Hi) as Hsize. pose proof (i_buffer _ _ Hi) as Hbuf.
  pose proof kMinReadSize_eq as Hmin.
  set (ext := Z.min kMinReadSize _). assert (Hext : is_u64 ext) by (unfold is_u64 in *; lia).
  destruct (fetch_spec d s ext Hi Hext) as (r & c & Hrun & Hi1 & Hr & Hrel).
  rewrite (mbind_run _ _ _ _ _ Hrun). unfold is_u64 in *.
  destruct r as [bs| | |]; try done.
  2: { eexists _, _, _. split; [done|]. split_and!; [done|done|]. intros _ Hl. by apply Hrel in Hl. }
  destruct Hr as (Hbs & Hle & Hmax & Hpos & Hfl). specialize (Hfl Hfull).
  pose proof (zlen_nonneg bs) as Hbs0.
  assert (Hin : seek_pos_ s < zlen src -> zlen bs = Z.min kMinReadSize (zlen src - seek_pos_ s)).
  { intros Hlt. assert (u64 (size_ s - seek_pos_ s) = zlen src - seek_pos_ s) as Hu'
      by (rewrite u64_id; unfold is_u64; lia). lia. }
  set (buf := bs ++ zdrop (zlen bs) (extended_read_buffer_ s)).
  assert (Hbl : zlen buf = kMinReadSize) by (unfold buf; rewrite zlen_app, zlen_zdrop; lia).
  rewrite (mbind_run _ _ _ (Ok tt) (d, set_buffer buf (set_callback c s))) by done.
  rewrite <- mbind_assoc.
  destruct (store_spec k d (set_buffer buf (set_callback c s)) buf (zlen bs)) as
    (r2 & d2 & s2 & Hrun2 & Hi2 & Hn2 & Hp2 & Hr2 & Hcalm);
    try done; try (simpl; rewrite ?Hf; simpl; lia).
  { by apply inv_buffer. }
  { simpl. intros x Hx Hlt. unfold buf. rewrite znth_app by lia.
    rewrite (proj2 (Z.ltb_lt _ _)) by lia. rewrite Hbs, znth_zslice by lia.
    rewrite (proj2 (Z.ltb_lt _ _)) by lia. f_equal. lia. }
  rewrite (mbind_run _ _ _ _ _ Hrun2). simpl in Hn2, Hp2. destruct r2 as [u| | |]; try done.
  2: { eexists _, _, _. split; [done|]. split_and!; [done|done..|]. intros Hc _. by apply Hcalm in Hc. }
  set (rep := Z.min (zlen bs) size).
  assert (Hout : ztake rep buf = zslice (seek_pos_ s) rep src /\ zlen (ztake rep buf) = rep).
  { unfold buf. rewrite ztake_app_le by lia. split; [|rewrite zlen_ztake; lia].
    rewrite Hbs. unfold zslice. rewrite ztake_ztake. by rewrite Z.min_l by lia. }
  destruct Hout as [Hout Hol].
  unfold mbind, advance, update, modify, mret. rewrite Hp2, u64_id by (unfold is_u64; lia).
  eexists _, _, _. split; [done|]. split; [apply inv_pos; [done|unfold is_u64; lia]|].
  split; [|done]. split; [done|]. rewrite Hol. split_and!; [done|lia|done|].
  intros Hs0 Hlt Hnil%(f_equal zlen). rewrite Hol, zlen_nil in Hnil. lia.
Qed.

Lemma Impl_Read_spec k d s size :
  kernel_ok k -> inv d s -> is_u64 size -> kMinReadSize <= size \/ full_reads R ->
  exists r d' s', Impl_Read k size (d, s) = (r, (d', s')) /\ inv d' s' /\
    read_outcome size s s' r /\
    (calm k -> reliable R -> seek_pos_ s < 2 ^ 63 -> is_ok r = true).
Proof.
  intros Hk Hi Hsz Hsmall. pose proof (i_pos _ _ Hi) as Hp. unfold Impl_Read.
  rewrite (mbind_run _ _ _ (Ok (d, s)) (d, s)) by done. cbv beta iota.
  unfold is_u64 in *. unfold mbind at 1, on_file at 1, Fd_SeekSet.
  destruct ((as_i64 (seek_pos_ s) <? 0) || _) eqn:Ef.
  { eexists _, _, _. split; [done|]. split; [apply inv_fd; [done|apply (i_path _ _ Hi)]|].
    split; [done|]. intros Hc _ Hlt. rewrite Hc, as_i64_id in Ef by lia.
    apply orb_true_iff in Ef as [Ef|]; [lia|done]. }
  apply orb_false_iff in Ef as [Ef _].
  assert (Hlt : seek_pos_ s < 2 ^ 63).
  { unfold as_i64 in Ef. destruct (Z.lt_ge_cases (seek_pos_ s) (2 ^ 63)); [done|].
    assert ((seek_pos_ s + 2 ^ 63) mod 2 ^ 64 = seek_pos_ s - 2 ^ 63); [|lia].
    symmetry. apply (Z.mod_unique _ _ 1); lia. }
  rewrite as_i64_id by lia. rewrite (i_path _ _ Hi).
  set (s1 := set_file (mkFd (filename_ s) (seek_pos_ s)) s).
  assert (Hi1 : inv d s1) by by apply inv_fd.
  destruct (RangeSet.EndOfContainingRange _ _) as [e|] eqn:He.
  - destruct (hit_spec k d s1 e size Hk Hi1 eq_refl Hlt Hsz He) as (r & d' & s' & Hrun & Hi' & Ho & Hc).
    exists r, d', s'. split_and!; [exact Hrun|done|done|]. auto.
  - destruct (Z.ltb_spec size kMinReadSize) as [Hs|Hs].
    + destruct Hsmall as [?|Hfull]; [lia|].
      destruct (miss_small_spec k d s1 size Hfull Hk Hi1 eq_refl Hlt) as
        (r & d' & s' & Hrun & Hi' & Ho & Hc); [lia|].
      exists r, d', s'. split_and!; [exact Hrun|done|done|]. auto.
    + destruct (miss_large_spec k d s1 size Hk Hi1 eq_refl Hlt Hsz) as
        (r & d' & s' & Hrun & Hi' & Ho & Hc).
      exists r, d', s'. split_and!; [exact Hrun|done|done|]. auto.
Qed.
(** ** Opening and closing *)
Lemma saved_same d d' name :
  (forall p, file_at d' p = file_at d p) -> saved d name -> saved d' name.
Proof. intros Hs (l & H1 & H2 & H3). exists l. by rewrite !Hs. Qed.

Context (Hcodec : forall rs, Forall (fun r => is_u64 r.1 /\ is_u64 r.2) rs ->
           ParseFromString (SerializeAsString rs) = Some rs).

Lemma cached_roundtrip l file :
  cached src l file ->
  RangeSet.DeserializeDisjointRangeSet ParseFromString
    (RangeSet.Serialize SerializeAsString l) = Ok l.
Proof.
  intros ([Hs Hw] & Hb & _). apply RangeSet.Deserialize_Serialize; [done|done|].
  rewrite Forall_forall in *. intros x Hx.
  specialize (Hb x Hx). specialize (Hw x Hx). unfold RangeSet.proper, is_u64 in *. lia.
Qed.

Lemma ReadMetadata_spec k d s l :
  kernel_ok k -> file_at d (MetadataFile (filename_ s)) = RangeSet.Serialize SerializeAsString l ->
  zlen (file_at d (MetadataFile (filename_ s))) < 2 ^ 63 -> cached src l (file_at d (filename_ s)) ->
  exists r d', ReadMetadata k ParseFromString (d, s) =
      (r, (d', if is_ok r then set_downloaded l s else s)) /\
    (forall p, file_at d' p = file_at d p) /\ (forall p, is_Some (d !! p) -> is_Some (d' !! p)) /\
    match r with Ok _ | Err _ => True | _ => False end /\ (calm k -> r = Ok tt).
Proof.
  intros Hk Hl Hlen Hcl. unfold ReadMetadata.
  set (meta := MetadataFile (filename_ s)) in *.
  destruct (Fd_Open k meta d) as [r d1] eqn:Eo. pose proof (file_at_Open _ _ _ _ _ Eo) as Hsame.
  unfold Fd_Open in Eo. destruct (fails k _) eqn:Ef; injection Eo as <- <-.
  { exists (Err "open failed"), d. split_and!; [done..|]. intros Hc. by rewrite Hc in Ef. }
  set (d1 := match d !! meta with Some _ => d | None => _ end) in *.
  assert (Hex : forall p, is_Some (d !! p) -> is_Some (d1 !! p)).
  { intros p Hp. unfold d1. destruct (d !! meta) eqn:E; [done|]. apply lookup_insert_is_Some.
    destruct (decide (meta = p)); auto. }
  destruct (ReadToString_fd k d1 (mkFd meta 0) Hk eq_refl) as (r & f' & -> & Hr & Hcalm).
  { change (zlen (file_at d1 meta) < 2 ^ 63). by rewrite Hsame. }
  destruct r as [data|msg| |]; try done.
  2: { exists (Err msg), d1. split_and!; [done..|]. intros Hc. by apply Hcalm in Hc. }
  change (data = file_at d1 meta) in Hr. rewrite Hr, Hsame, Hl.
  rewrite (cached_roundtrip l _ Hcl).
  exists (Ok tt), d1. by split_and!.
Qed.
Lemma Create_spec k d name c :
  kernel_ok k -> source_ok c -> source c = src -> saved d name ->
  exists r d', Create k ParseFromString name (zlen src) c d = (r, d') /\ saved d' name /\
    match r with
    | Ok (Some s) => inv d' s /\ filename_ s = name /\ seek_pos_ s = 0 /\
        file_at d (MetadataFile name) = RangeSet.Serialize SerializeAsString (already_downloaded_ s)
    | Err _ => True
    | _ => False
    end /\ (calm k -> is_ok r = true).
Proof.
  intros Hk Hok Hs Hsaved. unfold Create.
  destruct (Fd_Open k name d) as [r d1] eqn:Eo. pose proof (file_at_Open _ _ _ _ _ Eo) as Hsame.
  pose proof (saved_same _ _ _ Hsame Hsaved) as Hsaved1.
  unfold Fd_Open in Eo. destruct (fails k _) eqn:Ef; injection Eo as <- <-.
  { eexists _, _. split; [done|]. split_and!; [done..|]. intros Hc. by rewrite Hc in Ef. }
  set (d1 := match d !! name with Some _ => d | None => _ end) in *.
  assert (Hex : is_Some (d1 !! name)).
  { unfold d1. destruct (d !! name) eqn:E; [by rewrite E|]. rewrite lookup_insert_eq. by eexists. }
  set (impl := mkImpl name _ c [] 0 _ _). destruct Hsaved1 as (l & Hl & Hlen & Hc).
  destruct (ReadMetadata_spec k d1 impl l Hk Hl Hlen Hc) as (r & d2 & -> & Hsame2 & Hex2 & Hr & Hcalm).
  assert (Hsaved2 : saved d2 name) by (apply (saved_same d1); [done|by exists l]).
  destruct r as [u| | |]; try done; cbn [is_ok].
  2: { eexists _, _. split; [done|]. split_and!; [done..|]. intros Hc'. by apply Hcalm in Hc'. }
  eexists _, _. split; [done|]. split; [done|]. split; [|done]. split_and!; [|done|done|].
  - constructor; [reflexivity|by apply Hex2| |exact Hsaved2|reflexivity|exact Hok|exact Hs|
      exact zlen_initial_buffer|unfold is_u64; simpl; lia].
    change (cached src l (file_at d2 name)). by rewrite Hsame2.
  - simpl. by rewrite <- Hsame.
Qed.

Lemma WriteMetadata_spec k d s :
  kernel_ok k -> inv d s ->
  zlen (RangeSet.Serialize SerializeAsString (already_downloaded_ s)) < 2 ^ 63 ->
  exists r d', WriteMetadata k SerializeAsString (d, s) = (r, (d', s)) /\
    saved d' (filename_ s) /\
    (r = Ok tt -> file_at d' (MetadataFile (filename_ s)) =
       RangeSet.Serialize SerializeAsString (already_downloaded_ s)) /\
    (calm k -> d !! (MetadataFile (filename_ s) ++ str "." ++ temp_suffix k) = None -> r = Ok tt).
Proof.
  intros Hk Hi Hlen. pose proof (i_saved _ _ Hi) as Hsaved. pose proof (i_exists _ _ Hi) as Hex.
  pose proof (i_cached _ _ Hi) as Hc. set (name := filename_ s) in *. set (meta := MetadataFile name) in *.
  unfold WriteMetadata. rewrite (mbind_run _ _ _ (Ok (d, s)) (d, s)) by done. cbv beta iota.
  fold name meta. set (data := RangeSet.Serialize _ _) in *. set (temp := (meta ++ str ".") ++ temp_suffix k).
  assert (Htemp : temp = meta ++ str "." ++ temp_suffix k) by (unfold temp; by rewrite <- app_assoc).
  rewrite <- Htemp. unfold mbind at 1, on_disk at 1, Fd_Mkostemp. fold temp.
  destruct (fails k CMkostemp || _) eqn:Ef.
  { eexists _, _. split; [done|]. split_and!; [done..|]. intros Hcm Hnone.
    rewrite Hcm, Hnone in Ef. done. }
  apply orb_false_iff in Ef as [_ Efresh]. apply bool_decide_eq_false in Efresh.
  assert (Hnt : name <> temp) by (intros E; apply Efresh; by rewrite <- E).
  assert (Hmt : meta <> temp).
  { intros E%(f_equal zlen). rewrite Htemp, !zlen_app in E. change (zlen (str ".")) with 1 in E.
    pose proof (zlen_nonneg (temp_suffix k)). lia. }
  assert (Hkeep : forall d' x, (forall p, p <> temp -> d' !! p = <[temp := x]> d !! p) -> saved d' name).
  { intros d' x Hd. destruct Hsaved as (l & H1 & H2 & H3). exists l. unfold file_at in *. fold meta in H1, H2 |- *.
    rewrite !Hd, !lookup_insert_ne by done. done. }
  destruct (expect (negb (fails k CChmod)) "chmod") as [u|m| |] eqn:Ech;
    unfold expect in Ech; destruct (fails k CChmod) eqn:Ecm; try done;
    unfold mbind at 1, lift; cbn [negb] in *; unfold expect.
  2: { eexists _, _. split; [done|]. split_and!; [by eapply Hkeep|done|]. intros Hcm. by rewrite Hcm in Ecm. }
  set (fd := mkFd temp 0). unfold mbind, on_disk.
  destruct (WriteExact_fd k Hk data (<[temp := []]> d) fd) as (r & n & Hn & -> & Hr & Hcalm);
    [simpl; lia|lia|].
  assert (Hput : forall p, p <> temp -> put_file (<[temp:=[]]> d) fd n data !! p = <[temp := []]> d !! p).
  { intros p Hp. unfold put_file. destruct (n =? 0); [done|]. by apply lookup_insert_ne. }
  destruct r as [u'| | |]; try done.
  2: { eexists _, _. split; [done|]. split_and!; [by eapply Hkeep|done|]. intros Hcm. by apply Hcalm in Hcm. }
  unfold RenameFile. rewrite bool_decide_false by done.
  destruct (fails k CRename) eqn:Er.
  { eexists _, _. split; [done|]. split_and!; [by eapply Hkeep|done|]. intros Hcm. by rewrite Hcm in Er. }
  assert (put_file (<[temp:=[]]> d) fd n data !! temp = Some data) as ->.
  { subst n. unfold put_file. destruct (Z.eqb_spec (zlen data) 0) as [E|E].
    - rewrite lookup_insert_eq. by rewrite (zlen_0_nil _ E).
    - simpl. rewrite lookup_insert_eq. f_equal. unfold file_of. simpl.
      rewrite lookup_insert_eq, ztake_all by lia. apply written_at_fresh. }
  eexists _, _. split; [done|]. split_and!; [|intros _; unfold file_at; by rewrite lookup_insert_eq|done].
  exists (already_downloaded_ s). unfold file_at. fold meta. rewrite lookup_insert_eq. simpl.
  rewrite lookup_insert_ne, lookup_delete_ne, Hput, lookup_insert_ne by (done || apply not_eq_sym, MetadataFile_ne || apply MetadataFile_ne).
  done.
Qed.
(** ** Histories

    The file is opened, used, closed in order or with its process killed, any
    number of times and with calls that fail; every call has its own kernel. *)
Inductive reachable (name : bytes) : Disk -> option (Impl R) -> Prop :=
| lz_start d : file_at d (MetadataFile name) = [] -> reachable name d None
| lz_create k c d r d' :
    reachable name d None -> kernel_ok k -> source_ok c -> source c = src ->
    Create k ParseFromString name (zlen src) c d = (r, d') ->
    reachable name d' (match r with Ok o => o | _ => None end)
| lz_seek p d s : reachable name d (Some s) -> is_u64 p ->
    reachable name (Seek p (d, Some s)).2.1 (Seek p (d, Some s)).2.2
| lz_read k size d s : reachable name d (Some s) -> kernel_ok k -> is_u64 size ->
    kMinReadSize <= size \/ full_reads R ->
    reachable name (Read_lazy k size (d, Some s)).2.1 (Read_lazy k size (d, Some s)).2.2
| lz_destroy k d s : reachable name d (Some s) -> kernel_ok k ->
    zlen (RangeSet.Serialize SerializeAsString (already_downloaded_ s)) < 2 ^ 63 ->
    reachable name (Destroy k SerializeAsString (Some s) d) None
| lz_kill d s : reachable name d (Some s) -> reachable name d None.

Context (Hempty : SerializeAsString [] = []).

Lemma saved_fresh d name : file_at d (MetadataFile name) = [] -> saved d name.
Proof.
  intros Hd. exists []. rewrite Hd. split; [by unfold RangeSet.Serialize|]. split; [done|].
  split_and!; [apply RangeSet.wf_nil|done|]. by intros x ?%RangeSet.covers_nil.
Qed.

Lemma reachable_inv name d o :
  reachable name d o ->
  match o with Some s => inv d s /\ filename_ s = name | None => saved d name end.
Proof.
  induction 1 as [d Hd|k c d r d' _ IH Hk Hok Hs Hrun|p d s _ [Hi Hn] Hp
                 |k size d s _ [Hi Hn] Hk Hsz Hsm|k d s _ [Hi Hn] Hk Hlen|d s _ [Hi Hn]].
  - by apply saved_fresh.
  - destruct (Create_spec k d name c Hk Hok Hs IH) as (r0 & d0 & Hrun0 & Hsv & Hr & _).
    rewrite Hrun0 in Hrun. injection Hrun as <- <-. destruct r0 as [[s|]| | |]; try done.
    by destruct Hr as (? & ? & _).
  - split; [by apply inv_pos|done].
  - destruct (Impl_Read_spec k d s size Hk Hi Hsz Hsm) as (r & d' & s' & Hrun & Hi' & [Hn' _] & _).
    unfold Read_lazy, with_impl. rewrite Hrun. simpl. split; [done|congruence].
  - destruct (WriteMetadata_spec k d s Hk Hi Hlen) as (r & d' & Hrun & Hsv & _).
    unfold Destroy. rewrite Hrun. by subst.
  - subst. apply Hi.
Qed.
End cache.

(** ** Properties *)

(** C2. A lazily loaded file is its source: after any history of opening,
    seeking, reading, closing and being killed, with failing and partial system
    calls, a read either fails and leaves the position, or returns the bytes
    of the source at the position, at least one unless at the end, and moves
    the position past them.  It succeeds when no call fails.  Small reads need
    a source that does not return less than it is asked for. *)
Theorem lazy_file_reads_source {R} `{SourceLaws R} (SerializeAsString : list (Z * Z) -> bytes)
    (ParseFromString : bytes -> option (list (Z * Z))) (src name : bytes) (d : Disk) (s : Impl R) (k : Kernel) (size : Z) :
  zlen src < 2 ^ 63 ->
  (forall rs, Forall (fun r => is_u64 r.1 /\ is_u64 r.2) rs ->
     ParseFromString (SerializeAsString rs) = Some rs) ->
  SerializeAsString [] = [] ->
  reachable SerializeAsString ParseFromString src name d (Some s) ->
  kernel_ok k -> is_u64 size -> kMinReadSize <= size \/ full_reads R ->
  exists r d' s', Read_lazy k size (d, Some s) = (r, (d', Some s')) /\
    match r with
    | Ok bs => bs = zslice (seek_pos_ s) (zlen bs) src /\ zlen bs <= size /\
        seek_pos_ s' = seek_pos_ s + zlen bs /\ (0 < size -> seek_pos_ s < zlen src -> bs <> [])
    | Err _ => seek_pos_ s' = seek_pos_ s
    | _ => False
    end /\
    (calm k -> reliable R -> seek_pos_ s < 2 ^ 63 -> is_ok r = true).
Proof.
  intros Hsrc Hcodec Hempty Hr Hk Hsz Hsm. apply reachable_inv in Hr as [Hi _]; [|done..].
  destruct (Impl_Read_spec SerializeAsString src Hsrc k d s size Hk Hi Hsz Hsm)
    as (r & d' & s' & Hrun & _ & [_ Ho] & Hc).
  exists r, d', s'. unfold Read_lazy, with_impl. rewrite Hrun. done.
Qed.

(** Closing and opening again, with no failing call, finds the downloaded
    ranges recorded before. *)
Theorem lazy_file_reopens {R} `{SourceLaws R} (SerializeAsString : list (Z * Z) -> bytes)
    (ParseFromString : bytes -> option (list (Z * Z))) (src name : bytes) (d : Disk) (s : Impl R) (k k' : Kernel) (c : R) :
  zlen src < 2 ^ 63 ->
  (forall rs, Forall (fun r => is_u64 r.1 /\ is_u64 r.2) rs ->
     ParseFromString (SerializeAsString rs) = Some rs) ->
  SerializeAsString [] = [] ->
  reachable SerializeAsString ParseFromString src name d (Some s) ->
  kernel_ok k -> calm k -> d !! (MetadataFile name ++ str "." ++ temp_suffix k) = None ->
  kernel_ok k' -> calm k' -> source_ok c -> source c = src ->
  zlen (RangeSet.Serialize SerializeAsString (already_downloaded_ s)) < 2 ^ 63 ->
  exists s' d', Create k' ParseFromString name (zlen src) c
      (Destroy k SerializeAsString (Some s) d) = (Ok (Some s'), d') /\
    already_downloaded_ s' = already_downloaded_ s.
Proof.
  intros Hsrc Hcodec Hempty Hr Hk Hc Hfresh Hk' Hc' Hok Hs Hlen.
  apply reachable_inv in Hr as [Hi Hn]; [|done..]. subst name.
  destruct (WriteMetadata_spec _ _ k d s Hk Hi Hlen) as (r & d1 & Hrun & Hsv & Hw & Hcalm).
  specialize (Hw (Hcalm Hc Hfresh)). unfold Destroy. rewrite Hrun. cbn [snd fst].
  destruct (Create_spec _ _ _ Hcodec k' d1 (filename_ s) c Hk' Hok Hs Hsv)
    as (r2 & d2 & -> & _ & Hr2 & Hc2).
  destruct r2 as [[s'|]| | |]; try done; try (by apply Hc2 in Hc').
  exists s', d2. split; [done|]. destruct Hr2 as (Hi2 & _ & _ & Hser). rewrite Hw in Hser.
  assert (Hb : forall d0 (s0 : Impl R), inv SerializeAsString src d0 s0 ->
    RangeSet.DeserializeDisjointRangeSet ParseFromString
      (RangeSet.Serialize SerializeAsString (already_downloaded_ s0)) = Ok (already_downloaded_ s0)).
  { intros d0 s0 Hi0. eapply cached_roundtrip; [exact Hcodec|apply Hi0]. }
  pose proof (Hb _ _ Hi) as E1. pose proof (Hb _ _ Hi2) as E2. rewrite <- Hser, E1 in E2. congruence.
Qed.

(** Windows on in-memory files are sources that return all they are asked for. *)
Lemma window_full : full_reads (Views.ReaderFakeSeeker (Views.window InMemory.InMemoryIo)).
Proof.
  intros r n bs r' (Hok & Hl & Hp & Hm) Hn.
  destruct (Views.derived r) as [io b w] eqn:Ed. cbn in Hok. destruct Hok as ((Hc & Hd) & Hb & Hw & Hbw).
  unfold is_u64 in *. pose proof InMemory.kMaxVector_u64.
  unfold Read, Views.fake_reader_seeker, rs_reader, Views.fake_reader, Views.Read_fake.
  rewrite Ed. unfold Views.PRead_derived, Views.PRead_window.
  cbn [source source_pos fake_source Views.view Views.window_laws Views.begin_ Views.win_length_
    Views.data_provider_ contents InMemory.mem_pread_laws] in *. rewrite Ed in *.
  cbn [Views.view Views.window_laws Views.begin_ Views.win_length_ Views.data_provider_ contents
    InMemory.mem_pread_laws] in *. rewrite zlen_zslice in * by lia.
  destruct (Z.geb_spec (Views.seek_pos_ r) w); [intros [= <- _]; rewrite zlen_nil; lia|].
  rewrite !u64_id by (unfold is_u64; lia). unfold PRead, InMemory.mem_reader_seeker, InMemory.PRead_mem.
  rewrite InMemory.ClampRange_spec by lia. intros [= <- _].
  rewrite zlen_zslice by lia. lia.
Qed.


Definition abcdef : Views.ReaderFakeSeeker (Views.window InMemory.InMemoryIo) :=
  Views.ReadWindowView (InMemory.InMemoryIo_of (str "abcdef")) 0 6.

Lemma abcdef_ok : source_ok abcdef /\ source abcdef = str "abcdef".
Proof.
  split; [|done]. change (Views.fake_wf abcdef). split_and!; cbn; try lia; try done.
Qed.

Lemma opened_abcdef :
  exists d s, reachable RangeSet.fixed_encode RangeSet.fixed_decode (str "abcdef") (str "f") d (Some s) /\
    @seek_pos_ (Views.ReaderFakeSeeker (Views.window InMemory.InMemoryIo)) s = 0.
Proof.
  destruct quiet_ok as (Hk & _ & Hc), abcdef_ok as [Hok Hs].
  assert (H0 : reachable (R := Views.ReaderFakeSeeker (Views.window InMemory.InMemoryIo))
    RangeSet.fixed_encode RangeSet.fixed_decode (str "abcdef") (str "f") ∅ None) by by constructor.
  pose proof (reachable_inv _ _ (str "abcdef") eq_refl RangeSet.fixed_codec eq_refl _ _ _ H0) as Hsv.
  destruct (Create_spec _ _ _ RangeSet.fixed_codec quiet ∅ (str "f") abcdef Hk Hok Hs Hsv)
    as (r & d & Hrun & _ & Hr & Hcalm). specialize (Hcalm Hc).
  pose proof (lz_create _ _ _ _ _ _ _ _ _ H0 Hk Hok Hs Hrun) as H1.
  destruct r as [[s|]| | |]; try done. exists d, s. split; [exact H1|]. by destruct Hr as (_ & _ & ? & _).
Qed.

Lemma lazy_file_reads_source_witness :
  exists (d : Disk) (s : Impl (Views.ReaderFakeSeeker (Views.window InMemory.InMemoryIo))) bs d' s',
    Read_lazy quiet 3 (d, Some s) = (Ok bs, (d', Some s')) /\
    bs = zslice 0 (zlen bs) (str "abcdef") /\ bs <> [].
Proof.
  destruct opened_abcdef as (d & s & Hr & Hp). destruct quiet_ok as (Hk & _ & Hc).
  destruct (lazy_file_reads_source RangeSet.fixed_encode RangeSet.fixed_decode (str "abcdef") (str "f")
    d s quiet 3 eq_refl RangeSet.fixed_codec eq_refl Hr Hk ltac:(unfold is_u64; lia)
    (or_intror window_full)) as (r & d' & s' & Hrun & Ho & Hok).
  rewrite Hp in *. specialize (Hok Hc fake_reliable ltac:(lia)).
  destruct r as [bs| | |]; try discriminate. destruct Ho as (Hbs & _ & _ & Hne).
  exists d, s, bs, d', s'. split; [exact Hrun|]. split; [exact Hbs|]. apply Hne; [lia|].
  unfold zlen. simpl. lia.
Defined.

Lemma lazy_file_reopens_witness :
  exists (d : Disk) (s s' : Impl (Views.ReaderFakeSeeker (Views.window InMemory.InMemoryIo))) d',
    Create quiet RangeSet.fixed_decode (str "f") 6 abcdef
      (Destroy quiet RangeSet.fixed_encode (Some s) d) = (Ok (Some s'), d') /\
    already_downloaded_ s' = already_downloaded_ s.
Proof.
  destruct quiet_ok as (Hk & _ & Hc), abcdef_ok as [Hok Hs].
  set (d := <[MetadataFile (str "f") := []]> (<[str "f" := []]> (∅ : Disk))).
  set (s := mkImpl (str "f") (mkFd (str "f") 0) abcdef [] 0 6 initial_buffer).
  assert (Hrun : Create quiet RangeSet.fixed_decode (str "f") 6 abcdef ∅ = (Ok (Some s), d)) by reflexivity.
  assert (Hr : reachable RangeSet.fixed_encode RangeSet.fixed_decode (str "abcdef") (str "f") d (Some s)).
  { apply (lz_create RangeSet.fixed_encode RangeSet.fixed_decode (str "abcdef") (str "f") quiet abcdef ∅
      (Ok (Some s)) d); [by constructor|exact Hk|exact Hok|exact Hs|exact Hrun]. }
  destruct (lazy_file_reopens RangeSet.fixed_encode RangeSet.fixed_decode (str "abcdef") (str "f")
    d s quiet quiet abcdef eq_refl RangeSet.fixed_codec eq_refl Hr Hk Hc eq_refl Hk Hc Hok Hs eq_refl)
    as (s' & d' & H1 & H2).
  exists d, s, s', d'. split; [exact H1|exact H2].
Defined.

(** ** A source that returns less than it is asked for *)

(** The small read, step by step, when no call fails. *)
Lemma small_miss_run {R} `{ReaderSeeker R} (k : Kernel) (d : Disk) (s : Impl R) (size q : Z)
    (c1 : R) (data : bytes) (c2 : R) (l : list Range) :
  kernel_ok k -> calm k -> 0 <= seek_pos_ s < 2 ^ 63 -> size < kMinReadSize ->
  zlen (extended_read_buffer_ s) = kMinReadSize -> zlen data <= kMinReadSize ->
  RangeSet.EndOfContainingRange (already_downloaded_ s) (seek_pos_ s) = None ->
  SeekSet (seek_pos_ s) (callback_ s) = (Ok q, c1) ->
  Read (Z.min kMinReadSize (u64 (size_ s - seek_pos_ s))) c1 = (Ok data, c2) ->
  RangeSet.InsertRange (already_downloaded_ s) (seek_pos_ s) (u64 (seek_pos_ s + zlen data)) = Ok l ->
  let buf := data ++ zdrop (zlen data) (extended_read_buffer_ s) in
  let path := fd_path (contents_file_ s) in
  Impl_Read k size (d, s) =
    (Ok (ztake (Z.min (zlen data) size) buf),
     (<[path := InMemory.written_at (seek_pos_ s) buf (file_at d path)]> d,
      mkImpl (filename_ s) (mkFd path (seek_pos_ s + kMinReadSize)) c2 l
        (u64 (seek_pos_ s + Z.min (zlen data) size)) (size_ s) buf)).
Proof.
  intros Hk Hc Hp Hsz Hb Hd He E1 E2 Hins buf path. pose proof kMinReadSize_eq as Hmin.
  assert (Hbl : zlen buf = kMinReadSize) by (unfold buf; rewrite zlen_app, zlen_zdrop; zlen_lia).
  unfold Impl_Read. rewrite (mbind_run _ _ _ (Ok (d, s)) (d, s)) by done. cbv beta iota.
  unfold mbind at 1, on_file at 1, Fd_SeekSet. rewrite Hc, as_i64_id by lia.
  rewrite (proj2 (Z.ltb_ge _ _)) by lia. cbn [orb]. rewrite He.
  rewrite (proj2 (Z.ltb_lt size _)) by lia. fold path.
  set (s1 := set_file (mkFd path (seek_pos_ s)) s).
  rewrite (mbind_run _ _ _ (Ok q) (d, set_callback c1 s1)) by (unfold on_callback; simpl; by rewrite E1).
  rewrite (mbind_run _ _ _ (Ok data) (d, set_callback c2 s1)) by (unfold on_callback; simpl; by rewrite E2).
  fold buf. rewrite (mbind_run _ _ _ (Ok tt) (d, set_buffer buf (set_callback c2 s1))) by done.
  destruct (WriteExact_fd k Hk buf d (mkFd path (seek_pos_ s))) as (r & n & Hn & Hrun & Hr & Hcalm);
    [simpl; lia..|]. specialize (Hcalm Hc). subst r. cbn [fd_path fd_off] in Hrun.
  rewrite (mbind_run _ _ _ (Ok tt) (put_file d (mkFd path (seek_pos_ s)) n buf,
      set_file (mkFd path (seek_pos_ s + n)) (set_buffer buf (set_callback c2 s1))))
    by (unfold on_file; simpl; by rewrite Hrun).
  unfold record_download, advance, update, modify, mbind, get, lift, mret.
  cbn [seek_pos_ already_downloaded_ set_file set_callback set_buffer s1]. rewrite Hins.
  unfold put_file. rewrite (proj2 (Z.eqb_neq n 0)) by lia.
  rewrite (ztake_all n buf) by lia. rewrite Hr, Hbl. reflexivity.
Qed.

(** Three pieces; a read stops at the end of a piece. *)
Definition pieces : list InMemory.InMemoryIo :=
  [InMemory.InMemoryIo_of (str "ab"); InMemory.InMemoryIo_of (str "cd"); InMemory.InMemoryIo_of (str "ef")].

Definition three_reads {R} `{ReaderSeeker R} : M (Disk * LazilyLoadedFile (R := R)) (bytes * bytes * bytes) :=
  let! _ := Seek 4 in
  let! a := Read_lazy quiet 2 in
  let! _ := Seek 0 in
  let! b := Read_lazy quiet 2 in
  let! _ := Seek 4 in
  let! c := Read_lazy quiet 2 in
  mret (a, b, c).

Definition pieces_at (p : Z) : Views.ReaderFakeSeeker (Views.concat InMemory.InMemoryIo) :=
  Views.mkFake (Views.mkConcat [(0, InMemory.InMemoryIo_of (str "ab"));
    (2, InMemory.InMemoryIo_of (str "cd")); (4, InMemory.InMemoryIo_of (str "ef"))]) p 6.
Definition cache_at (off c : Z) (l : list Range) (p : Z) (buf : bytes) :=
  mkImpl (str "f") (mkFd (str "f") off) (pieces_at c) l p 6 buf.

Lemma cache_seek (d : Disk) off c l q buf p :
  Seek p (d, Some (cache_at off c l q buf)) = (Ok tt, (d, Some (cache_at off c l p buf))).
Proof. reflexivity. Qed.

(** Reading two bytes at [p] when they are not cached. *)
Lemma pieces_miss (d : Disk) off c l p buf data l' :
  zlen buf = kMinReadSize -> 0 <= p < 6 -> zlen data = 2 ->
  RangeSet.EndOfContainingRange l p = None ->
  Views.Read_fake (Z.min kMinReadSize (u64 (6 - p))) (pieces_at p) = (Ok data, pieces_at (p + 2)) ->
  RangeSet.InsertRange l p (u64 (p + 2)) = Ok l' ->
  Read_lazy quiet 2 (d, Some (cache_at off c l p buf)) =
    (Ok data,
     (<[str "f" := InMemory.written_at p (data ++ zdrop 2 buf) (file_at d (str "f"))]> d,
      Some (cache_at (p + kMinReadSize) (p + 2) l' (p + 2) (data ++ zdrop 2 buf)))).
Proof.
  intros Hb Hp Hd He Hr Hi. destruct quiet_ok as (Hk & _ & Hc). pose proof kMinReadSize_eq.
  unfold Read_lazy, with_impl.
  rewrite (small_miss_run quiet d _ 2 p (pieces_at p) data (pieces_at (p + 2)) l');
    cbn [seek_pos_ extended_read_buffer_ already_downloaded_ callback_ size_ cache_at];
    rewrite ?Hd; try done; try lia.
  - cbn [contents_file_ cache_at fd_path filename_ size_]. change (Z.min 2 2) with 2.
    rewrite u64_id by (unfold is_u64; lia). rewrite ztake_app_le, ztake_all by lia. done.
  - unfold SeekSet, Views.fake_reader_seeker, rs_seeker, Views.fake_seeker, Views.SeekSet_fake.
    cbn [Views.length_ pieces_at]. by rewrite Z.min_l by lia.
Qed.

Lemma pieces_hit (d : Disk) off c l buf :
  RangeSet.EndOfContainingRange l 4 = Some 6 -> 6 <= zlen (file_at d (str "f")) ->
  exists st, Read_lazy quiet 2 (d, Some (cache_at off c l 4 buf)) =
    (Ok (zslice 4 2 (file_at d (str "f"))), st).
Proof.
  intros He Hl. eexists. unfold Read_lazy, with_impl, Impl_Read.
  rewrite (mbind_run _ _ _ (Ok (d, cache_at off c l 4 buf)) (d, cache_at off c l 4 buf)) by done.
  cbv beta iota. cbn [seek_pos_ already_downloaded_ cache_at]. rewrite He.
  rewrite (mbind_run _ _ _ (Ok 4) (d, cache_at 4 c l 4 buf)) by done.
  rewrite (mbind_run _ _ _ (Ok (zslice 4 2 (file_at d (str "f")))) (d, cache_at 6 c l 4 buf)).
  2: { unfold on_file, Fd_Read, quiet. cbn [fails moved_in]. cbn [contents_file_ cache_at fd_off].
       change (file_of d _) with (file_at d (str "f")).
       replace (Z.min (Z.min (u64 (6 - 4)) 2) (zlen (file_at d (str "f")) - 4)) with 2
         by (rewrite u64_id by (unfold is_u64; lia); lia). done. }
  reflexivity.
Qed.

Lemma three_reads_run (d0 : Disk) (buf0 : bytes) :
  zlen buf0 = kMinReadSize -> (forall x, 0 <= x < kMinReadSize -> znth x buf0 = Some zero) ->
  (three_reads (d0, Some (cache_at 0 0 [] 0 buf0))).1 = Ok (str "ef", str "ab", [zero; zero]).
Proof.
  intros Hib Hzero. unfold three_reads. pose proof kMinReadSize_eq as Hmin.
  set (buf1 := str "ef" ++ zdrop 2 buf0).
  assert (Hb1 : zlen buf1 = kMinReadSize)
    by (unfold buf1; rewrite zlen_app, zlen_zdrop; change (zlen (str "ef")) with 2; lia).
  set (buf2 := str "ab" ++ zdrop 2 buf1).
  assert (Hb2 : zlen buf2 = kMinReadSize)
    by (unfold buf2; rewrite zlen_app, zlen_zdrop; change (zlen (str "ab")) with 2; lia).
  rewrite (mbind_run _ _ _ _ _ (cache_seek d0 0 0 [] 0 buf0 4)).
  pose proof (pieces_miss d0 0 0 [] 4 buf0 (str "ef") [RangeSet.mkRange 4 6] Hib
    ltac:(lia) eq_refl eq_refl eq_refl eq_refl) as E1.
  rewrite (mbind_run _ _ _ _ _ E1). fold buf1. set (d1 := <[str "f" := _]> d0). cbv beta iota.
  rewrite (mbind_run _ _ _ _ _ (cache_seek d1 (4 + kMinReadSize) 6 [RangeSet.mkRange 4 6] 6 buf1 0)).
  pose proof (pieces_miss d1 (4 + kMinReadSize) 6 [RangeSet.mkRange 4 6] 0 buf1 (str "ab")
    [RangeSet.mkRange 0 2; RangeSet.mkRange 4 6] Hb1 ltac:(lia) eq_refl eq_refl eq_refl eq_refl) as E2.
  rewrite (mbind_run _ _ _ _ _ E2).
  fold buf2. set (file1 := file_at d1 (str "f")). cbv beta iota.
  set (file2 := InMemory.written_at 0 buf2 file1). set (d2 := <[str "f" := file2]> d1).
  assert (Hz : zslice 4 2 file2 = [zero; zero]).
  { transitivity (zslice 4 2 (replicate 6 zero)); [|reflexivity]. apply zslice_agree; [lia|].
    intros x Hx. unfold file2. rewrite znth_written_at by lia.
    rewrite (proj2 (Z.leb_le 0 x)), (proj2 (Z.ltb_lt x (0 + zlen buf2))) by lia. cbn [andb].
    rewrite Z.sub_0_r. unfold buf2, buf1. rewrite znth_app by lia. change (zlen (str "ab")) with 2.
    rewrite (proj2 (Z.ltb_ge x 2)) by lia. rewrite !znth_lookup by lia.
    rewrite zdrop_drop, lookup_drop, lookup_app_r by (simpl; lia).
    rewrite zdrop_drop, lookup_drop, lookup_replicate_2 by lia.
    rewrite <- (Hzero x) by lia. rewrite znth_lookup by lia. f_equal.
    change (length (str "ef")) with 2%nat. lia. }
  assert (Hl : 6 <= zlen file2).
  { unfold file2. rewrite InMemory.zlen_written_at by lia. lia. }
  rewrite (mbind_run _ _ _ _ _ (cache_seek d2 (0 + kMinReadSize) (0 + 2) _ (0 + 2) buf2 4)).
  destruct (pieces_hit d2 (0 + kMinReadSize) (0 + 2)
    [RangeSet.mkRange 0 2; RangeSet.mkRange 4 6] buf2 eq_refl) as [st E3].
  { unfold d2, file_at. by rewrite lookup_insert_eq. }
  rewrite (mbind_run _ _ _ _ _ E3). unfold d2, file_at. rewrite lookup_insert_eq. simpl default.
  by rewrite Hz.
Qed.

(** When the source (here a ConcatReaderSeeker) returns less than it was
    asked for, a small read writes the rest of its buffer over parts of the file
    already downloaded: the bytes at position 4 are read as the source has them
    first, and as zeros after a read at position 0. *)
Theorem short_reads_corrupt_cache :
  exists c o d, Views.Create pieces = Ok c /\ contents c = str "abcdef" /\
    Create quiet RangeSet.fixed_decode (str "f") 6 c ∅ = (Ok o, d) /\
    (three_reads (d, o)).1 = Ok (str "ef", str "ab", [zero; zero]).
Proof.
  exists (pieces_at 0), (Some (cache_at 0 0 [] 0 initial_buffer)),
    (<[MetadataFile (str "f") := []]> (<[str "f" := []]> ∅)).
  split; [reflexivity|]. split; [reflexivity|]. split; [reflexivity|].
  apply three_reads_run; [exact zlen_initial_buffer|exact znth_initial_buffer].
Qed.

End LazyFile.
