(* ===== verification/DiskImage.v ===== *)
(** * Disk images (host/libs/image_aggregator: image_from_file.cc, composite_disk.cc,
    qcow2.cc, raw.cc, sparse_image.cc)

    What kind of image a file is, by its magic, and how large the disk is that
    it stands for.  The protobuf codec, libsparse and simg2img are arguments. *)
From S2P Require Import Prelude CppString FileDesc.

Module DiskImage.
Import CppString FileDesc.

(** ** cdisk_spec.proto *)
Inductive ReadWriteCapability := READ_ONLY | READ_WRITE.
Record ComponentDisk := mkComponent {
  file_path : bytes; offset : Z; read_write_capability : ReadWriteCapability
}.
Record CompositeDisk := mkComposite { version : Z; component_disks : list ComponentDisk; disk_length : Z }.

#[global] Instance ReadWriteCapability_eq_dec : EqDecision ReadWriteCapability.
Proof. solve_decision. Defined.
#[global] Instance ComponentDisk_eq_dec : EqDecision ComponentDisk.
Proof. solve_decision. Defined.
#[global] Instance CompositeDisk_eq_dec : EqDecision CompositeDisk.
Proof. solve_decision. Defined.

(** Code outside the repository. *)
Record Tools := mkTools {
  SerializeComposite : CompositeDisk -> bytes;
  ParseComposite : bytes -> option CompositeDisk;
  sparse_file_len : bytes -> option Z;    (* of the file's contents; None: not importable *)
  simg2img : bytes -> option bytes;       (* None: a non-zero status *)
  RealPath : bytes -> option bytes
}.

(** The first [n] bytes of the big-endian number at [off]. *)
Definition be_value (l : bytes) : Z := le_value (rev l).

Inductive Image :=
| CompositeDiskImage (cdisk : CompositeDisk)
| Qcow2Image (header : bytes)
| AndroidSparseImage (len : Z)
| RawImage (size : Z).

Definition composite_magic : bytes := str "composite_disk" ++ [byte_of_Z 29].
Definition qcow2_magic : bytes := str "QFI" ++ [byte_of_Z 251].
Definition kAndroidSparseImageMagic : bytes :=
  [byte_of_Z 58; byte_of_Z 255; byte_of_Z 38; byte_of_Z 237].
Definition kQcowHeaderSize : Z := 72.

Section images.
Context `{Absl} (k : Kernel) (t : Tools).

(** The contents of a file opened for reading. *)
Definition open_read (d : Disk) (path : bytes) : result bytes :=
  match d !! path with
  | Some data => if fails k (COpen path) then Err "open failed" else Ok data
  | None => Err "open failed"
  end.

Definition FileSize (d : Disk) (path : bytes) : Z := zlen (file_at d path).

Definition OpenComposite (d : Disk) (path : bytes) : result CompositeDisk :=
  let* data := open_read d path in
  let* _ := expect (zlen composite_magic <=? zlen data) "EOF, still want to read" in
  let* _ := expect (bool_decide (ztake (zlen composite_magic) data = composite_magic)) "magic" in
  match ParseComposite t (zdrop (zlen composite_magic) data) with
  | Some cdisk => Ok cdisk
  | None => Err "cdisk.ParseFromString(message)"
  end.

Definition OpenQcow2 (d : Disk) (path : bytes) : result bytes :=
  let* data := open_read d path in
  let* _ := expect (kQcowHeaderSize <=? zlen data) "EOF, still want to read" in
  let header := ztake kQcowHeaderSize data in
  let* _ := expect (bool_decide (ztake (zlen qcow2_magic) header = qcow2_magic)) "magic" in
  Ok header.

Definition OpenSparse (d : Disk) (path : bytes) : result Z :=
  let* data := open_read d path in
  match sparse_file_len t data with
  | Some len => Ok len
  | None => Err "impl->raw_sparse_file.get()"
  end.

Definition ImageFromFile (d : Disk) (path : bytes) : result Image :=
  let* data := open_read d path in
  let magic := ztake (Z.min (FileSize d path) 4096) data in
  let* _ := expect (0 <? zlen magic) "Failed to read" in
  if StartsWith magic composite_magic then
    let* cdisk := OpenComposite d path in Ok (CompositeDiskImage cdisk)
  else if StartsWith magic qcow2_magic then
    let* header := OpenQcow2 d path in Ok (Qcow2Image header)
  else if StartsWith magic kAndroidSparseImageMagic then
    let* len := OpenSparse d path in Ok (AndroidSparseImage len)
  else Ok (RawImage (FileSize d path)).

Definition VirtualSizeBytes (image : Image) : Z :=
  match image with
  | CompositeDiskImage cdisk => disk_length cdisk
  | Qcow2Image header => be_value (zslice 24 8 header)
  | AndroidSparseImage len => len
  | RawImage size => size
  end.

Definition ExpandedStorageSize (d : Disk) (path : bytes) : result Z :=
  let* disk := ImageFromFile d path in Ok (VirtualSizeBytes disk).

(** ** Sparse images *)
Definition IsSparseImage (d : Disk) (path : bytes) : result bool :=
  let* data := open_read d path in
  Ok (bool_decide (ztake 4 (data ++ str "    ") = kAndroidSparseImageMagic)).

(** Converts in place, under a lock on a file next to the image. *)
Definition ForceRawImage (path : bytes) : M Disk unit := fun d =>
  match IsSparseImage d path with
  | Ok true =>
      match RealPath t path with
      | None => (Err "realpath", d)
      | Some real =>
          match Fd_Open k (real ++ str ".lock") d with
          | (Ok _, d) =>
              match IsSparseImage d path with
              | Ok true =>
                  match simg2img t (file_at d path) with
                  | Some raw =>
                      RenameFile k (path ++ str ".raw") path (<[path ++ str ".raw" := raw]> d)
                  | None => (Err "Unable to convert Android sparse image", d)
                  end
              | Ok false => (Ok tt, d)
              | r => (fail_as r, d)
              end
          | (r, d) => (fail_as r, d)
          end
      end
  | Ok false => (Ok tt, d)
  | r => (fail_as r, d)
  end.
End images.

(** A file that starts with none of the magics is a raw image of its own size. *)
Lemma starts_with_ztake p l n : zlen p <= n -> starts_with p (ztake n l) = starts_with p l.
Proof.
  revert l n. induction p as [|x p IH]; intros [|y l] n Hn; try done. simpl.
  rewrite zlen_cons in Hn. pose proof (zlen_nonneg p). rewrite (proj2 (Z.leb_gt n 0)) by lia.
  by rewrite IH by lia.
Qed.

Definition raw_data (data : bytes) : Prop :=
  data <> [] /\ starts_with composite_magic data = false /\ starts_with qcow2_magic data = false /\
  starts_with kAndroidSparseImageMagic data = false.

Lemma ImageFromFile_raw `{Absl} k t (d : Disk) (path data : bytes) :
  d !! path = Some data -> fails k (COpen path) = false -> raw_data data ->
  ImageFromFile k t d path = Ok (RawImage (zlen data)).
Proof.
  intros Hd Hf (Hne & H1 & H2 & H3). unfold ImageFromFile, open_read, FileSize, file_at.
  rewrite Hd, Hf. change (default [] (Some data)) with data. cbn [rbind]. rewrite !StartsWith_spec.
  assert (0 < zlen data) by (destruct data; [done|zlen_lia]).
  set (n := Z.min (zlen data) 4096).
  assert (Hz : ztake n data = ztake 4096 data).
  { unfold n. destruct (Z.le_ge_cases (zlen data) 4096).
    - by rewrite Z.min_l, !ztake_all by lia.
    - by rewrite Z.min_r by lia. }
  rewrite Hz, !starts_with_ztake, H1, H2, H3 by (unfold zlen; simpl; lia).
  unfold expect. rewrite zlen_ztake, (proj2 (Z.ltb_lt _ _)) by lia. done.
Qed.

Lemma starts_with_self p q : starts_with p (p ++ q) = true.
Proof. induction p as [|x p IH]; [done|]. simpl. by rewrite bool_decide_true. Qed.

(** A raw image is left alone. *)
Lemma ForceRawImage_raw k t (d : Disk) (path data : bytes) :
  d !! path = Some data -> fails k (COpen path) = false -> raw_data data ->
  ForceRawImage k t path d = (Ok tt, d).
Proof.
  intros Hd Hf (Hne & _ & _ & H3). unfold ForceRawImage, IsSparseImage, open_read. rewrite Hd, Hf. cbn [rbind].
  rewrite bool_decide_false; [done|]. intros E.
  assert (Hs : starts_with kAndroidSparseImageMagic (data ++ str "    ") = true).
  { rewrite <- (ztake_zdrop 4 (data ++ _)), E. apply starts_with_self. }
  do 4 (destruct data as [|? data]; [vm_compute in E; discriminate|]).
  simpl in Hs, H3. by rewrite Hs in H3.
Qed.

End DiskImage.
