(* ===== verification/Gpt.v ===== *)
(** * GUID partition tables (host/libs/image_aggregator: gpt.h, mbr.h, mbr.cc, gpt_type_guid.cc)

    The packed structures as records with their bytes, and what a reader of the
    format makes of the bytes. *)
From S2P Require Import Prelude.

Module Gpt.

(** ** Structures *)
Definition DISK_SIZE_SHIFT : Z := 16.
Definition PARTITION_SIZE_SHIFT : Z := 12.
Definition kSectorSize : Z := 512.
Definition GPT_NUM_PARTITIONS : Z := 128.

Definition zeros (n : Z) : bytes := replicate (Z.to_nat n) zero.
Definition u8s (l : list Z) : bytes := byte_of_Z <$> l.

(** One partition of the MBR; the fields that are never set are zero. *)
Record MasterBootRecord := mkMbr { partition_type : Z; mbr_first_lba : Z; num_sectors : Z }.

Definition ProtectiveMbr (size : Z) : MasterBootRecord := mkMbr 238 1 (u32 size / kSectorSize).

Definition mbr_bytes (m : MasterBootRecord) : bytes :=
  zeros 446 ++
  (zeros 4 ++ u8s [partition_type m] ++ zeros 3 ++ le_bytes 4 (mbr_first_lba m) ++
   le_bytes 4 (num_sectors m)) ++ zeros 48 ++ u8s [85; 170].

Record GptHeader := mkHeader {
  signature : bytes; revision : bytes; header_size : Z; header_crc32 : Z; reserved : Z;
  current_lba : Z; backup_lba : Z; first_usable_lba : Z; last_usable_lba : Z;
  disk_guid : bytes; partition_entries_lba : Z; num_partition_entries : Z;
  partition_entry_size : Z; partition_entries_crc32 : Z
}.
Definition sizeof_GptHeader : Z := 92.

Definition header_bytes (h : GptHeader) : bytes :=
  signature h ++ revision h ++ le_bytes 4 (header_size h) ++ le_bytes 4 (header_crc32 h) ++
  le_bytes 4 (reserved h) ++ le_bytes 8 (current_lba h) ++ le_bytes 8 (backup_lba h) ++
  le_bytes 8 (first_usable_lba h) ++ le_bytes 8 (last_usable_lba h) ++ disk_guid h ++
  le_bytes 8 (partition_entries_lba h) ++ le_bytes 4 (num_partition_entries h) ++
  le_bytes 4 (partition_entry_size h) ++ le_bytes 4 (partition_entries_crc32 h).

Record GptPartitionEntry := mkEntry {
  partition_type_guid : bytes; unique_partition_guid : bytes;
  first_lba : Z; last_lba : Z; attributes : Z; partition_name : list Z
}.
Definition sizeof_GptPartitionEntry : Z := 128.
Definition no_entry : GptPartitionEntry := mkEntry (zeros 16) (zeros 16) 0 0 0 (replicate 36 0).

Definition entry_bytes (e : GptPartitionEntry) : bytes :=
  partition_type_guid e ++ unique_partition_guid e ++ le_bytes 8 (first_lba e) ++
  le_bytes 8 (last_lba e) ++ le_bytes 8 (attributes e) ++ flat_map (le_bytes 2) (partition_name e).
Definition entries_bytes (es : list GptPartitionEntry) : bytes := flat_map entry_bytes es.

Record GptBeginning := mkBeginning {
  protective_mbr : MasterBootRecord; header : GptHeader; entries : list GptPartitionEntry
}.
Definition sizeof_GptBeginning : Z := 20480.
Definition beginning_bytes (g : GptBeginning) : bytes :=
  mbr_bytes (protective_mbr g) ++ header_bytes (header g) ++ zeros (kSectorSize - sizeof_GptHeader) ++
  entries_bytes (entries g) ++ zeros 3072.

Record GptEnd := mkEnd { end_entries : list GptPartitionEntry; footer : GptHeader; footer_padding : bytes }.
Definition sizeof_GptEnd : Z := 16896.
Definition end_bytes (g : GptEnd) : bytes :=
  entries_bytes (end_entries g) ++ header_bytes (footer g) ++ footer_padding g.

(** ** Names and GUIDs *)
Inductive GptPartitionType := kLinuxFilesystem | kEfiSystemPartition.

Definition GetPartitionGUID (type : GptPartitionType) : result bytes :=
  match type with
  | kLinuxFilesystem => Ok (u8s [175; 61; 198; 15; 131; 132; 114; 71; 142; 121; 61; 105; 216; 71; 125; 228])
  | kEfiSystemPartition => Ok (u8s [40; 115; 42; 193; 31; 248; 210; 17; 186; 75; 0; 160; 201; 62; 201; 59])
  end.

(** The bytes 7 and 9 carry the version and variant of a UUID. *)
Definition SetRandomUuid (random : bytes) : bytes :=
  let set i v l := ztake i l ++ byte_of_Z v :: zdrop (i + 1) l in
  let at_ i l := match znth i l with Some c => Z_of_byte c | None => 0 end in
  let u := set 7 (Z.lor (Z.land (at_ 7 random) 15) 64) random in
  set 9 (Z.lor (Z.land (at_ 9 u) 63) 128) u.

(** [char] is signed: a byte above 127 becomes a 16-bit unit by sign extension. *)
Definition wide_char (c : ascii) : Z :=
  let z := Z_of_byte c in if z <? 128 then z else u16 (z - 256).

(** [u16cpy] into a zeroed array: at most [size] units, up to the first zero. *)
Fixpoint u16cpy (size : nat) (src : list Z) : list Z :=
  match size, src with
  | O, _ => []
  | S n, c :: src' => if c =? 0 then replicate (S n) 0 else c :: u16cpy n src'
  | S n, [] => replicate (S n) 0
  end.

#[local] Arguments le_bytes : simpl never.

(** ** Reading the format back

    A reader of the UEFI specification's partition table: the header in a sector,
    checked by signature, size, position and checksum, and the entries it
    points to, checked by their checksum. *)
Definition take_field (n : Z) (l : bytes) : bytes * bytes := (ztake n l, zdrop n l).
Definition take_int (n : Z) (l : bytes) : Z * bytes := (le_value (ztake n l), zdrop n l).

Definition decode_header (l : bytes) : GptHeader :=
  let '(sig, l) := take_field 8 l in let '(rev, l) := take_field 4 l in
  let '(size, l) := take_int 4 l in let '(crc, l) := take_int 4 l in
  let '(res, l) := take_int 4 l in let '(cur, l) := take_int 8 l in
  let '(bak, l) := take_int 8 l in let '(first, l) := take_int 8 l in
  let '(last, l) := take_int 8 l in let '(guid, l) := take_field 16 l in
  let '(lba, l) := take_int 8 l in let '(num, l) := take_int 4 l in
  let '(esize, l) := take_int 4 l in let '(ecrc, l) := take_int 4 l in
  mkHeader sig rev size crc res cur bak first last guid lba num esize ecrc.

Fixpoint decode_name (n : nat) (l : bytes) : list Z :=
  match n with O => [] | S n' => le_value (ztake 2 l) :: decode_name n' (zdrop 2 l) end.

Definition decode_entry (l : bytes) : GptPartitionEntry :=
  let '(type, l) := take_field 16 l in let '(guid, l) := take_field 16 l in
  let '(first, l) := take_int 8 l in let '(last, l) := take_int 8 l in
  let '(attr, l) := take_int 8 l in
  mkEntry type guid first last attr (decode_name 36 l).

Fixpoint decode_entries (n : nat) (l : bytes) : list GptPartitionEntry :=
  match n with O => [] | S n' => decode_entry l :: decode_entries n' (zdrop 128 l) end.

Definition sector (disk : bytes) (lba : Z) : bytes := zslice (lba * kSectorSize) kSectorSize disk.

Definition read_gpt (crc32 : bytes -> Z) (disk : bytes) (lba : Z) : option (GptHeader * list GptPartitionEntry) :=
  let hb := ztake sizeof_GptHeader (sector disk lba) in
  let h := decode_header hb in
  let table := zslice (partition_entries_lba h * kSectorSize)
                 (num_partition_entries h * partition_entry_size h) disk in
  if bool_decide (signature h = str "EFI PART") && (header_size h =? sizeof_GptHeader) &&
     (partition_entry_size h =? sizeof_GptPartitionEntry) && (current_lba h =? lba) &&
     (crc32 (ztake 16 hb ++ zeros 4 ++ zdrop 20 hb) =? header_crc32 h) &&
     (crc32 table =? partition_entries_crc32 h)
  then Some (h, decode_entries (Z.to_nat (num_partition_entries h)) table)
  else None.

(** ** Well-formed structures *)
Record header_wf (h : GptHeader) : Prop := {
  w_sig : zlen (signature h) = 8; w_rev : zlen (revision h) = 4; w_guid : zlen (disk_guid h) = 16;
  w_size : is_u32 (header_size h); w_crc : is_u32 (header_crc32 h); w_res : is_u32 (reserved h);
  w_cur : is_u64 (current_lba h); w_bak : is_u64 (backup_lba h); w_first : is_u64 (first_usable_lba h);
  w_last : is_u64 (last_usable_lba h); w_lba : is_u64 (partition_entries_lba h);
  w_num : is_u32 (num_partition_entries h); w_esize : is_u32 (partition_entry_size h);
  w_ecrc : is_u32 (partition_entries_crc32 h)
}.

Record entry_wf (e : GptPartitionEntry) : Prop := {
  w_type : zlen (partition_type_guid e) = 16; w_unique : zlen (unique_partition_guid e) = 16;
  w_elo : is_u64 (first_lba e); w_ehi : is_u64 (last_lba e); w_attr : is_u64 (attributes e);
  w_name : length (partition_name e) = 36%nat; w_units : Forall (fun c => 0 <= c < 2 ^ 16) (partition_name e)
}.

Lemma take_int_app n z l :
  0 <= z < 256 ^ Z.of_nat n -> take_int (Z.of_nat n) (le_bytes n z ++ l) = (z, l).
Proof.
  intros Hz. unfold take_int. rewrite ztake_exact, zdrop_exact by apply zlen_le_bytes.
  by rewrite le_value_bytes.
Qed.
Lemma take_int4 z l : is_u32 z -> take_int 4 (le_bytes 4 z ++ l) = (z, l).
Proof. apply (take_int_app 4). Qed.
Lemma take_int8 z l : is_u64 z -> take_int 8 (le_bytes 8 z ++ l) = (z, l).
Proof. apply (take_int_app 8). Qed.
Lemma take_field_app n a l : zlen a = n -> take_field n (a ++ l) = (a, l).
Proof. intros Ha. unfold take_field. by rewrite ztake_exact, zdrop_exact. Qed.

Ltac header_fields :=
  cbn [signature revision header_size header_crc32 reserved current_lba backup_lba first_usable_lba
    last_usable_lba disk_guid partition_entries_lba num_partition_entries partition_entry_size
    partition_entries_crc32] in *.
Ltac entry_fields :=
  cbn [partition_type_guid unique_partition_guid first_lba last_lba attributes partition_name] in *.

(** The next field of a structure. *)
Ltac take_step :=
  first [rewrite take_field_app by done | rewrite take_int4 by done | rewrite take_int8 by done];
  cbv beta iota.

Lemma decode_header_bytes h l : header_wf h -> decode_header (header_bytes h ++ l) = h.
Proof.
  intros []. destruct h. unfold decode_header, header_bytes. header_fields.
  rewrite <- !app_assoc. repeat take_step.
  done.
Qed.

Lemma zlen_header_bytes h : header_wf h -> zlen (header_bytes h) = sizeof_GptHeader.
Proof. intros []. unfold header_bytes. rewrite !zlen_app, !zlen_le_bytes. unfold sizeof_GptHeader. lia. Qed.

Lemma zlen_flat_le2 l : zlen (flat_map (le_bytes 2) l) = 2 * zlen l.
Proof.
  induction l as [|z l IH]; [done|]. cbn [flat_map]. rewrite zlen_app, zlen_le_bytes, zlen_cons, IH. lia.
Qed.

Lemma zlen_entry_bytes e : entry_wf e -> zlen (entry_bytes e) = sizeof_GptPartitionEntry.
Proof.
  intros []. unfold entry_bytes. rewrite !zlen_app, !zlen_le_bytes, zlen_flat_le2.
  unfold zlen at 3. rewrite w_name0. unfold sizeof_GptPartitionEntry. lia.
Qed.

Lemma decode_name_bytes name l :
  Forall (fun c => 0 <= c < 2 ^ 16) name -> decode_name (length name) (flat_map (le_bytes 2) name ++ l) = name.
Proof.
  induction 1 as [|c name Hc _ IH]; [done|]. cbn [flat_map length decode_name]. rewrite <- app_assoc.
  rewrite ztake_exact, zdrop_exact by apply zlen_le_bytes. rewrite le_value_bytes by done. by rewrite IH.
Qed.

Lemma decode_entry_bytes e l : entry_wf e -> decode_entry (entry_bytes e ++ l) = e.
Proof.
  intros []. destruct e. unfold decode_entry, entry_bytes. entry_fields. rewrite <- !app_assoc.
  repeat take_step.
  rewrite <- w_name0. by rewrite decode_name_bytes.
Qed.

Lemma decode_entries_bytes es l :
  Forall entry_wf es -> decode_entries (length es) (entries_bytes es ++ l) = es.
Proof.
  induction 1 as [|e es He _ IH]; [done|]. unfold entries_bytes in *. cbn [flat_map length decode_entries].
  rewrite <- app_assoc, decode_entry_bytes by done. f_equal.
  by rewrite zdrop_exact by (by apply zlen_entry_bytes).
Qed.

Lemma zlen_entries_bytes es : Forall entry_wf es -> zlen (entries_bytes es) = 128 * zlen es.
Proof.
  induction 1 as [|e es He _ IH]; [done|]. unfold entries_bytes in *. cbn [flat_map].
  rewrite zlen_app, zlen_cons, zlen_entry_bytes, IH by done. unfold sizeof_GptPartitionEntry. lia.
Qed.

Lemma header_bytes_crc h c :
  header_wf h ->
  ztake 16 (header_bytes h) ++ le_bytes 4 c ++ zdrop 20 (header_bytes h) =
  header_bytes (mkHeader (signature h) (revision h) (header_size h) c (reserved h) (current_lba h)
    (backup_lba h) (first_usable_lba h) (last_usable_lba h) (disk_guid h) (partition_entries_lba h)
    (num_partition_entries h) (partition_entry_size h) (partition_entries_crc32 h)).
Proof.
  intros []. destruct h. unfold header_bytes. header_fields.
  set (rest := le_bytes 4 reserved0 ++ _).
  rewrite (app_assoc signature0), (app_assoc (signature0 ++ _)).
  assert (L : zlen ((signature0 ++ revision0) ++ le_bytes 4 header_size0) = 16)
    by (rewrite !zlen_app, zlen_le_bytes; lia).
  rewrite ztake_exact by done.
  rewrite (app_assoc _ (le_bytes 4 header_crc33)), zdrop_exact.
  - by rewrite <- !app_assoc.
  - rewrite zlen_app, zlen_le_bytes. lia.
Qed.

(** A disk whose sector [lba] holds a header that points to its entries reads
    back as that header and those entries. *)
Lemma read_gpt_found (crc32 : bytes -> Z) disk lba h es rest rest' :
  header_wf h -> Forall entry_wf es -> signature h = str "EFI PART" -> header_size h = sizeof_GptHeader ->
  partition_entry_size h = sizeof_GptPartitionEntry -> num_partition_entries h = zlen es ->
  current_lba h = lba ->
  zslice (lba * kSectorSize) kSectorSize disk = header_bytes h ++ rest ->
  zslice (partition_entries_lba h * kSectorSize) (128 * zlen es) disk = entries_bytes es ++ rest' ->
  header_crc32 h = crc32 (header_bytes (mkHeader (signature h) (revision h) (header_size h) 0 (reserved h)
    (current_lba h) (backup_lba h) (first_usable_lba h) (last_usable_lba h) (disk_guid h)
    (partition_entries_lba h) (num_partition_entries h) (partition_entry_size h)
    (partition_entries_crc32 h))) ->
  partition_entries_crc32 h = crc32 (entries_bytes es) ->
  read_gpt crc32 disk lba = Some (h, es).
Proof.
  intros Hh Hes Hsig Hsize Hesize Hnum Hlba Hsec Htab Hcrc Hecrc. unfold read_gpt, sector. rewrite Hsec.
  rewrite ztake_exact by (by apply zlen_header_bytes).
  assert (Hd : decode_header (header_bytes h) = h)
    by (rewrite <- (app_nil_r (header_bytes h)); by apply decode_header_bytes).
  rewrite Hd.
  assert (rest' = []) as ->.
  { apply zlen_0_nil. pose proof (zlen_nonneg rest'). pose proof (zlen_nonneg es). apply (f_equal zlen) in Htab.
    rewrite zlen_app, zlen_entries_bytes in Htab by done. unfold zslice in Htab.
    rewrite zlen_ztake in Htab. lia. }
  rewrite app_nil_r in Htab.
  rewrite Hesize, Hnum, (Z.mul_comm (zlen es)). unfold sizeof_GptPartitionEntry. rewrite Htab.
  rewrite Hsig, Hsize, Hlba, bool_decide_true, !Z.eqb_refl by done.
  change (zeros 4) with (le_bytes 4 0). rewrite header_bytes_crc, <- Hcrc, <- Hecrc, !Z.eqb_refl by done. simpl.
  unfold zlen. rewrite Nat2Z.id, <- (app_nil_r (entries_bytes es)). by rewrite decode_entries_bytes.
Qed.

(** C40. The protective MBR spans the disk exactly when the disk is smaller than
    4 GiB: the size is cut to 32 bits before it is divided by the sector size, so
    above that the sector count is that of the remainder. *)
Theorem ProtectiveMbr_sectors (size : Z) :
  0 <= size < 2 ^ 64 -> num_sectors (ProtectiveMbr size) = size / kSectorSize <-> size < 2 ^ 32.
Proof.
  intros Hs. unfold ProtectiveMbr, kSectorSize. cbn [num_sectors]. split.
  - intros E. destruct (Z.lt_ge_cases size (2 ^ 32)) as [|Hge]; [done|].
    pose proof (Z.div_le_mono (2 ^ 32) size 512). assert (u32 size / 512 < 2 ^ 23).
    { apply Z.div_lt_upper_bound; [lia|]. pose proof (u32_range size) as Hr. unfold is_u32 in Hr. lia. }
    change (2 ^ 32 / 512) with (2 ^ 23) in *. lia.
  - intros Hlt. rewrite u32_id by (unfold is_u32; lia). done.
Qed.

Lemma ProtectiveMbr_sectors_witness : num_sectors (ProtectiveMbr (2 ^ 32 + 65536)) <> (2 ^ 32 + 65536) / kSectorSize.
Proof. intros E. apply (ProtectiveMbr_sectors (2 ^ 32 + 65536)) in E; lia. Defined.

End Gpt.
