(* ===== verification/ImageAggregator.v ===== *)
(** * Disks with partitions (host/libs/image_aggregator/image_aggregator.cc)

    The builder collects partitions; [AggregateImage] writes one disk file,
    [CreateOrUpdateCompositeDisk] the three files of a composite disk.  zlib's
    crc32, the random bytes of the GUIDs and the padding that is not initialised
    are arguments. *)
From S2P Require Import Prelude CppString IO FileDesc DiskImage Gpt.

Module ImageAggregator.
Import CppString IO FileDesc DiskImage Gpt.

(** ** CompositeDiskBuilder *)
Record ImagePartition := mkPartition { label : bytes; image_file_path : bytes; type : GptPartitionType }.
Record PartitionInfo := mkInfo { source : ImagePartition; size : Z; p_offset : Z }.

Definition AlignToPartitionSize (size : Z) : Z := AlignToPowerOf2 size PARTITION_SIZE_SHIFT.
Definition AlignedSize (p : PartitionInfo) : Z := AlignToPartitionSize (size p).

Record CompositeDiskBuilder := mkBuilder {
  partitions_ : list PartitionInfo; next_disk_offset_ : Z; read_only_ : bool
}.
Definition new_builder (read_only : bool) : CompositeDiskBuilder := mkBuilder [] sizeof_GptBeginning read_only.

Section builder.
Context `{Absl} (k : Kernel) (t : Tools) (crc32 : bytes -> Z) (random : nat -> bytes) (uninit : bytes).

Definition AppendPartition (d : Disk) (src : ImagePartition) : M CompositeDiskBuilder unit := fun b =>
  match ExpandedStorageSize k t d (image_file_path src) with
  | Ok size =>
      let aligned_size := AlignToPartitionSize size in
      if (size =? aligned_size) || read_only_ b then
        (Ok tt, mkBuilder (partitions_ b ++ [mkInfo src size (next_disk_offset_ b)])
                  (u64 (next_disk_offset_ b + aligned_size)) (read_only_ b))
      else (Err "read-write partition is not aligned", b)
  | r => (fail_as r, b)
  end.

(** The callers' loop, which does not look at the results. *)
Definition append_all (d : Disk) (partitions : list ImagePartition) (b : CompositeDiskBuilder)
    : CompositeDiskBuilder :=
  foldl (fun b p => (AppendPartition d p b).2) b partitions.

Definition DiskSize (b : CompositeDiskBuilder) : Z :=
  AlignToPowerOf2 (u64 (next_disk_offset_ b + sizeof_GptEnd)) DISK_SIZE_SHIFT.

Fixpoint spec_components (d : Disk) (read_only : bool) (header_file : bytes) (ps : list PartitionInfo)
    : result (list ComponentDisk) :=
  match ps with
  | [] => Ok []
  | p :: ps =>
      let* size' := ExpandedStorageSize k t d (image_file_path (source p)) in
      let* _ := expect (size p =? size') "partition.size" in
      let* rest := spec_components d read_only header_file ps in
      Ok (mkComponent (image_file_path (source p)) (p_offset p)
            (if read_only then READ_ONLY else READ_WRITE) ::
          (if negb (AlignedSize p =? size p)
           then [mkComponent header_file (u64 (p_offset p + size p)) READ_ONLY] else []) ++ rest)
  end.

Definition MakeCompositeDiskSpec (d : Disk) (header_file footer_file : bytes) (b : CompositeDiskBuilder)
    : result CompositeDisk :=
  let* components := spec_components d (read_only_ b) header_file (partitions_ b) in
  Ok (mkComposite 2 ([mkComponent header_file 0 READ_ONLY] ++ components ++
                     [mkComponent footer_file (next_disk_offset_ b) READ_ONLY]) (DiskSize b)).

(** The entry of the [i]-th partition. *)
Definition make_entry (i : nat) (p : PartitionInfo) : result GptPartitionEntry :=
  let* type_guid := GetPartitionGUID (type (source p)) in
  Ok (mkEntry type_guid (SetRandomUuid (random (S i))) (p_offset p / kSectorSize)
        (u64 (u64 (p_offset p + AlignedSize p) / kSectorSize - 1)) 0
        (u16cpy 36 (wide_char <$> label (source p)))).

Fixpoint make_entries (i : nat) (ps : list PartitionInfo) : result (list GptPartitionEntry) :=
  match ps with
  | [] => Ok []
  | p :: ps => let* e := make_entry i p in let* es := make_entries (S i) ps in Ok (e :: es)
  end.

Definition set_crcs (entries_crc header_crc : Z) (h : GptHeader) : GptHeader :=
  mkHeader (signature h) (revision h) (header_size h) header_crc (reserved h) (current_lba h)
    (backup_lba h) (first_usable_lba h) (last_usable_lba h) (disk_guid h) (partition_entries_lba h)
    (num_partition_entries h) (partition_entry_size h) entries_crc.

Definition Beginning (b : CompositeDiskBuilder) : result GptBeginning :=
  let* _ := expect (zlen (partitions_ b) <=? GPT_NUM_PARTITIONS) "Too many partitions" in
  let* es := make_entries 0 (partitions_ b) in
  let entries := es ++ replicate (Z.to_nat (GPT_NUM_PARTITIONS - zlen es)) no_entry in
  let h := mkHeader (str "EFI PART") (u8s [0; 0; 1; 0]) sizeof_GptHeader 0 0 1
             (u64 (DiskSize b / kSectorSize - 1)) (sizeof_GptBeginning / kSectorSize)
             (u64 (next_disk_offset_ b / kSectorSize - 1)) (SetRandomUuid (random 0)) 2
             GPT_NUM_PARTITIONS sizeof_GptPartitionEntry 0 in
  let h := set_crcs (crc32 (entries_bytes entries)) 0 h in
  let h := set_crcs (partition_entries_crc32 h) (crc32 (header_bytes h)) h in
  Ok (mkBeginning (ProtectiveMbr (DiskSize b)) h entries).

Definition End (b : CompositeDiskBuilder) (head : GptBeginning) : GptEnd :=
  let h := header head in
  let entries_lba := u64 (u64 (DiskSize b - 16384) / kSectorSize - 1) in
  let f := mkHeader (signature h) (revision h) (header_size h) 0 (reserved h) (backup_lba h)
             (current_lba h) (first_usable_lba h) (last_usable_lba h) (disk_guid h) entries_lba
             (num_partition_entries h) (partition_entry_size h) (partition_entries_crc32 h) in
  mkEnd (entries head) (set_crcs (partition_entries_crc32 f) (crc32 (header_bytes f)) f) uninit.

(** ** Writing *)
(** A disk with an output descriptor. *)
Definition WriteEnd (g : GptEnd) : M (Disk * Fd) unit := fun st =>
  let disk_size := u64 ((u64 (current_lba (footer g) + 1)) * kSectorSize) in
  let footer_start := u64 (u64 (last_usable_lba (footer g) + 1) * kSectorSize) in
  let padding := u64 (disk_size - footer_start - sizeof_GptEnd) in
  (let! _ := @WriteExact _ (fd_writer k) (zeros padding) in
   @WriteExact _ (fd_writer k) (end_bytes g)) st.

Definition DeAndroidSparse (partitions : list ImagePartition) : M Disk unit :=
  foldr (fun p rest => let! _ := ForceRawImage k t (image_file_path p) in rest) (mret tt) partitions.

(** [Fd::Creat(path, 0600)]. *)
Definition Fd_Creat (path : bytes) : M Disk Fd := fun d =>
  if fails k (COpen path) then (Err "open failed", d) else (Ok (mkFd path 0), <[path := []]> d).

(** The body of the copying loop of [AggregateImage]. *)
Definition copy_partition (p : PartitionInfo) : M (Disk * Fd) unit := fun '(d, output) =>
  let path := image_file_path (source p) in
  match open_read k d path with
  | Ok _ =>
      let file_size := FileSize d path in
      match CopyFrom k file_size d (mkFd path 0) output with
      | (Ok true, (d, _, output)) =>
          let padding := u64 (AlignToPartitionSize file_size - file_size) in
          @WriteExact _ (fd_writer k) (zeros padding) (d, output)
      | (Ok false, (d, _, output)) => (Err "Could not copy", (d, output))
      | (r, (d, _, output)) => (fail_as r, (d, output))
      end
  | r => (fail_as r, (d, output))
  end.

Fixpoint copy_partitions (ps : list PartitionInfo) : M (Disk * Fd) unit :=
  match ps with
  | [] => mret tt
  | p :: ps => let! _ := copy_partition p in copy_partitions ps
  end.

Definition on_fd {A} (f : Fd) (m : M (Disk * Fd) A) : M Disk A := fun d =>
  let '(r, (d', _)) := m (d, f) in (r, d').

Definition AggregateImage (partitions : list ImagePartition) (output_path : bytes) : M Disk unit :=
  let! _ := DeAndroidSparse partitions in
  let! d := get in
  let b := append_all d partitions (new_builder false) in
  let! output := Fd_Creat output_path in
  let! beginning := lift (Beginning b) in
  on_fd output (
    let! _ := @WriteExact _ (fd_writer k) (beginning_bytes beginning) in
    let! _ := copy_partitions (partitions_ b) in
    WriteEnd (End b beginning)).

(** The composite file is written through an ofstream, whose failures show when
    it is opened or when the message is written. *)
Definition WriteCompositeDiskToFile (spec : CompositeDisk) (path : bytes) : M Disk unit := fun d =>
  if fails k (COpen path) then (Err "Failed to open composite file", d)
  else if fails k (CWrite 0) then (Err "Failed to serialize composite spec to file", <[path := []]> d)
  else (Ok tt, <[path := composite_magic ++ SerializeComposite t spec]> d).

Definition CreateOrUpdateCompositeDisk (partitions : list ImagePartition)
    (header_file footer_file output_composite_path : bytes) (read_only : bool) : M Disk unit :=
  let! _ := DeAndroidSparse partitions in
  let! d := get in
  let b := append_all d partitions (new_builder read_only) in
  let! spec := lift (MakeCompositeDiskSpec d header_file footer_file b) in
  let regenerate :=
    let! _ := WriteCompositeDiskToFile spec output_composite_path in
    let! f := Fd_Creat header_file in
    let! beginning := lift (Beginning b) in
    let! _ := on_fd f (@WriteExact _ (fd_writer k) (beginning_bytes beginning)) in
    let! f := Fd_Creat footer_file in
    on_fd f (WriteEnd (End b beginning)) in
  match OpenComposite k t d output_composite_path with
  | Ok existing => if bool_decide (existing = spec) then mret tt else regenerate
  | Err _ => regenerate
  | r => lift (fail_as r)
  end.
End builder.

(** ** Layout

    The partitions that [AppendPartition] keeps, for raw images: those whose
    size is a multiple of the alignment, one after the other. *)
Lemma AlignToPartitionSize_id n :
  0 <= n < 2 ^ 63 -> AlignToPartitionSize n = n <-> n mod 4096 = 0.
Proof.
  intros Hn. unfold AlignToPartitionSize, PARTITION_SIZE_SHIFT.
  destruct (AlignToPowerOf2_spec n 12) as (q & -> & Hq); [lia..|]. change (2 ^ 12) with 4096 in *.
  split; [intros <-; apply Z.mod_mul; lia|].
  intros Hm. pose proof (Z.div_mod n 4096). lia.
Qed.

Definition data_of (d : Disk) (p : ImagePartition) : bytes := file_at d (image_file_path p).
Definition aligned (d : Disk) (p : ImagePartition) : bool := zlen (data_of d p) mod 4096 =? 0.
Definition kept (ro : bool) (d : Disk) (p : ImagePartition) : bool := aligned d p || ro.
(** The bytes from the end of the image to the end of its partition. *)
Definition gap (d : Disk) (p : ImagePartition) : Z :=
  AlignToPartitionSize (zlen (data_of d p)) - zlen (data_of d p).

Lemma gap_spec d p :
  zlen (data_of d p) < 2 ^ 63 ->
  0 <= gap d p < 4096 /\ (zlen (data_of d p) + gap d p) mod 4096 = 0 /\ (aligned d p = true -> gap d p = 0).
Proof.
  intros Hn. pose proof (zlen_nonneg (data_of d p)) as H0.
  pose proof (AlignToPartitionSize_id (zlen (data_of d p)) ltac:(lia)) as Hid. unfold gap.
  rewrite Zplus_minus. unfold aligned. rewrite Z.eqb_eq.
  rewrite (and_assoc (_ <= _ < _)). split; [|intros E; apply Hid in E; lia]. clear Hid.
  unfold AlignToPartitionSize, PARTITION_SIZE_SHIFT.
  destruct (AlignToPowerOf2_spec (zlen (data_of d p)) 12) as (q & -> & Hq); [lia..|].
  change (2 ^ 12) with 4096 in *. split; [lia|]. by apply Z.mod_mul.
Qed.

(** The layout of the kept images from [off], and what their partitions hold when
    [fill n] follows an image that ends [n] bytes before its partition. *)
Fixpoint placed (ro : bool) (d : Disk) (off : Z) (ps : list ImagePartition) : list PartitionInfo :=
  match ps with
  | [] => []
  | p :: ps =>
      if kept ro d p then mkInfo p (zlen (data_of d p)) off :: placed ro d (off + (zlen (data_of d p) + gap d p)) ps
      else placed ro d off ps
  end.
Fixpoint image_data (fill : Z -> bytes) (ro : bool) (d : Disk) (ps : list ImagePartition) : bytes :=
  match ps with
  | [] => []
  | p :: ps =>
      if kept ro d p then (data_of d p ++ fill (gap d p)) ++ image_data fill ro d ps
      else image_data fill ro d ps
  end.
(** The length of that. *)
Fixpoint image_size (ro : bool) (d : Disk) (ps : list ImagePartition) : Z :=
  match ps with
  | [] => 0
  | p :: ps => (if kept ro d p then zlen (data_of d p) + gap d p else 0) + image_size ro d ps
  end.
Definition fills (fill : Z -> bytes) : Prop := forall n, 0 <= n < 4096 -> zlen (fill n) = n.
Definition small (d : Disk) (ps : list ImagePartition) : Prop := Forall (fun p => zlen (data_of d p) < 2 ^ 63) ps.

Lemma image_size_nonneg ro d ps : small d ps -> 0 <= image_size ro d ps /\ image_size ro d ps mod 4096 = 0.
Proof.
  induction 1 as [|p ps Hp _ [IH1 IH2]]; [done|]. simpl. destruct (gap_spec d p Hp) as (H1 & H2 & _).
  pose proof (zlen_nonneg (data_of d p)). destruct (kept ro d p); [|done]. split; [lia|].
  by rewrite Z.add_mod, H2, IH2 by lia.
Qed.

Lemma zlen_image_data fill ro d ps : fills fill -> small d ps -> zlen (image_data fill ro d ps) = image_size ro d ps.
Proof.
  intros Hf. induction 1 as [|p ps Hp _ IH]; [done|]. simpl. destruct (gap_spec d p Hp) as (H1 & _).
  destruct (kept ro d p); [|done]. rewrite !zlen_app, IH, Hf by done. lia.
Qed.

Lemma zlen_zeros n : 0 <= n -> zlen (zeros n) = n.
Proof. intros. unfold zeros. rewrite zlen_replicate. lia. Qed.

Section aggregate.
Context `{Absl} (k : Kernel) (t : Tools) (crc32 : bytes -> Z) (random : nat -> bytes) (uninit : bytes).
Context (Hk : kernel_ok k) (Hfull : full_writes k).
Context (Hcrc : forall l, is_u32 (crc32 l)) (Hrandom : forall n, zlen (random n) = 16)
        (Huninit : zlen uninit = 420).

(** Every image is a raw file that can be opened. *)
Definition raw_images (d : Disk) (ps : list ImagePartition) : Prop :=
  Forall (fun p => exists data, d !! image_file_path p = Some data /\ raw_data data /\
    fails k (COpen (image_file_path p)) = false) ps.

Lemma DeAndroidSparse_raw d ps : raw_images d ps -> DeAndroidSparse k t ps d = (Ok tt, d).
Proof.
  induction 1 as [|p ps (data & Hd & Hr & Hf) _ IH]; [done|]. unfold DeAndroidSparse in *. simpl.
  rewrite (mbind_run _ _ _ _ _ (ForceRawImage_raw k t d _ data Hd Hf Hr)). done.
Qed.

Lemma append_all_raw ro d ps : forall l off,
  raw_images d ps -> small d ps -> 0 <= off -> off + image_size ro d ps < 2 ^ 63 ->
  append_all k t d ps (mkBuilder l off ro) =
    mkBuilder (l ++ placed ro d off ps) (off + image_size ro d ps) ro.
Proof.
  induction ps as [|p ps IH]; intros l off Hr Hs Ho Hb; unfold append_all in *; simpl.
  { by rewrite app_nil_r, Z.add_0_r. }
  apply Forall_cons in Hr as [(data & Hd & Hraw & Hf) Hr]. apply Forall_cons in Hs as [Hs1 Hs].
  assert (Hdata : data_of d p = data) by (unfold data_of, file_at; by rewrite Hd).
  unfold AppendPartition at 2, ExpandedStorageSize.
  rewrite (ImageFromFile_raw k t d _ data Hd Hf Hraw). cbn [rbind VirtualSizeBytes read_only_ partitions_ next_disk_offset_].
  rewrite <- Hdata. pose proof (zlen_nonneg (data_of d p)) as H0.
  assert ((zlen (data_of d p) =? AlignToPartitionSize (zlen (data_of d p))) || ro = kept ro d p) as ->.
  { unfold kept, aligned. f_equal. apply eq_bool_prop_intro. rewrite !Is_true_true, !Z.eqb_eq.
    rewrite <- (AlignToPartitionSize_id (zlen (data_of d p))) by lia. done. }
  simpl in Hb. destruct (image_size_nonneg ro d ps Hs) as [Hi _], (gap_spec d p Hs1) as (Hg & _).
  replace (AlignToPartitionSize (zlen (data_of d p))) with (zlen (data_of d p) + gap d p) by (unfold gap; lia).
  destruct (kept ro d p); cbn [snd].
  - rewrite u64_id by (unfold is_u64; lia). rewrite IH by (done || lia).
    rewrite <- app_assoc. f_equal. lia.
  - by apply IH.
Qed.

Lemma copy_partition_spec d f data p :
  at_end d f data -> image_file_path (source p) <> fd_path f ->
  is_Some (d !! image_file_path (source p)) -> fails k (COpen (image_file_path (source p))) = false ->
  zlen (data_of d (source p)) < 2 ^ 63 ->
  exists r d' f', copy_partition k p (d, f) = (r, (d', f')) /\ fd_path f' = fd_path f /\
    (forall q, q <> fd_path f -> d' !! q = d !! q) /\
    match r with
    | Ok _ => at_end d' f' (data ++ data_of d (source p) ++ zeros (gap d (source p)))
    | Err _ => True | _ => False
    end /\ (calm k -> r = Ok tt).
Proof.
  intros Hend Hne [x Hx] Hf Hlen. unfold copy_partition, open_read. rewrite Hx, Hf.
  change (FileSize d (image_file_path (source p))) with (zlen (data_of d (source p))).
  pose proof (zlen_nonneg (data_of d (source p))) as H0. destruct (gap_spec d (source p) Hlen) as (Hg & _).
  destruct (CopyFrom_full k Hk (zlen (data_of d (source p))) d (mkFd (image_file_path (source p)) 0) f
    (data_of d (source p)) data) as (b & d1 & from1 & f1 & -> & Hp1 & Hs1 & Hc1 & He1); try done; try (simpl; lia).
  destruct b; [|eexists _, _, _; split; [done|]; split_and!; try done; intros Hc; by apply Hc1 in Hc].
  specialize (He1 eq_refl). simpl in He1. rewrite zslice_all in He1 by lia.
  fold (gap d (source p)). rewrite u64_id by (unfold is_u64; lia).
  destruct (WriteExact_end k Hk (zeros (gap d (source p))) d1 f1 _ He1) as (r & d2 & f2 & -> & Hp2 & Hs2 & Hr2 & Hc2);
    [unfold zeros; rewrite zlen_replicate; lia|]. rewrite <- app_assoc in Hr2.
  exists r, d2, f2. split_and!; [done|congruence| |done|done].
  intros q Hq. rewrite Hs2 by congruence. by apply Hs1.
Qed.

Lemma copy_partitions_spec ro d0 ps : forall off d f data,
  raw_images d0 ps -> Forall (fun p => image_file_path p <> fd_path f) ps -> small d0 ps ->
  (forall q, q <> fd_path f -> d !! q = d0 !! q) -> at_end d f data ->
  exists r d' f', copy_partitions k (placed ro d0 off ps) (d, f) = (r, (d', f')) /\ fd_path f' = fd_path f /\
    (forall q, q <> fd_path f -> d' !! q = d0 !! q) /\
    match r with Ok _ => at_end d' f' (data ++ image_data zeros ro d0 ps) | Err _ => True | _ => False end /\
    (calm k -> r = Ok tt).
Proof.
  induction ps as [|p ps IH]; intros off d f data Hr Hne Hs Hd Hend; simpl.
  { eexists _, _, _. split; [done|]. rewrite app_nil_r. done. }
  apply Forall_cons in Hr as [(x & Hx & Hraw & Hf) Hr]. apply Forall_cons in Hne as [Hne1 Hne].
  apply Forall_cons in Hs as [Hs1 Hs]. destruct (kept ro d0 p); [|by apply IH].
  assert (Hsame : data_of d p = data_of d0 p) by (unfold data_of, file_at; by rewrite Hd).
  assert (Hgap : gap d p = gap d0 p) by (unfold gap; by rewrite Hsame).
  destruct (copy_partition_spec d f data (mkInfo p (zlen (data_of d0 p)) off)) as
    (r & d1 & f1 & Hrun & Hp1 & Hd1 & Hr1 & Hc1); simpl; rewrite ?Hsame; try done.
  { rewrite Hd by done. by eexists. }
  cbn [copy_partitions]. rewrite (mbind_run _ _ _ _ _ Hrun). simpl in Hr1. rewrite Hsame, Hgap in Hr1.
  destruct r as [u| | |]; try done.
  - destruct (IH (off + (zlen (data_of d0 p) + gap d0 p)) d1 f1 (data ++ data_of d0 p ++ zeros (gap d0 p)) Hr) as
      (r2 & d2 & f2 & Hrun2 & Hp2 & Hd2 & Hr2 & Hc2); [by rewrite Hp1|done| |exact Hr1|].
    + intros q Hq. rewrite Hd1 by congruence. apply Hd. congruence.
    + exists r2, d2, f2. rewrite app_assoc. split_and!; try done; try congruence.
      intros q Hq. apply Hd2. congruence.
  - eexists _, _, _. split; [done|]. split_and!; try done; try congruence.
    intros q Hq. rewrite Hd1 by congruence. by apply Hd.
Qed.

(** ** The tables *)
Lemma zlen_SetRandomUuid l : zlen l = 16 -> zlen (SetRandomUuid l) = 16.
Proof. intros Hl. unfold SetRandomUuid. rewrite !zlen_app, !zlen_cons, !zlen_ztake, !zlen_zdrop, !zlen_app,
  !zlen_cons, !zlen_ztake, !zlen_zdrop. lia. Qed.

Lemma length_u16cpy n l : length (u16cpy n l) = n.
Proof.
  revert l. induction n as [|n IH]; intros [|c l]; simpl; rewrite ?length_replicate; try done.
  destruct (c =? 0); simpl; by rewrite ?length_replicate, ?IH.
Qed.

Lemma u16cpy_units n l : Forall (fun c => 0 <= c < 2 ^ 16) l -> Forall (fun c => 0 <= c < 2 ^ 16) (u16cpy n l).
Proof.
  assert (Hz : forall m, Forall (fun c => 0 <= c < 2 ^ 16) (replicate m 0)) by (intros m; apply Forall_replicate; lia).
  revert l. induction n as [|n IH]; intros l Hl; [constructor|].
  destruct l as [|c l]; [apply (Hz (S n))|]. simpl. apply Forall_cons in Hl as [Hc Hl].
  destruct (c =? 0); [apply (Hz (S n))|]. constructor; auto.
Qed.

Lemma wide_char_unit c : 0 <= wide_char c < 2 ^ 16.
Proof.
  unfold wide_char. pose proof (Z_of_byte_range c). destruct (Z.ltb_spec (Z_of_byte c) 128); [lia|].
  apply Z.mod_pos_bound. lia.
Qed.

Definition entry_of (i : nat) (p : PartitionInfo) : GptPartitionEntry :=
  mkEntry (match GetPartitionGUID (type (source p)) with Ok g => g | _ => [] end)
    (SetRandomUuid (random (S i))) (p_offset p / kSectorSize)
    ((p_offset p + AlignedSize p) / kSectorSize - 1) 0 (u16cpy 36 (wide_char <$> label (source p))).

(** Partitions of a layout. *)
Definition info_ok (p : PartitionInfo) : Prop := 512 <= p_offset p /\ 0 <= AlignedSize p /\ p_offset p + AlignedSize p < 2 ^ 63.

Lemma make_entry_ok i p : info_ok p -> make_entry random i p = Ok (entry_of i p) /\ entry_wf (entry_of i p).
Proof.
  intros (Ho & Hs & Hb). unfold make_entry, entry_of.
  assert (0 <= (p_offset p + AlignedSize p) / kSectorSize - 1 < 2 ^ 64).
  { unfold kSectorSize. pose proof (Z.div_le_mono 512 (p_offset p + AlignedSize p) 512).
    pose proof (Z.div_le_upper_bound (p_offset p + AlignedSize p) 512 (2 ^ 63)). change (512 / 512) with 1 in *. lia. }
  split.
  - rewrite !u64_id by (unfold is_u64; lia || (rewrite ?u64_id; unfold is_u64; lia)).
    by destruct (type (source p)).
  - constructor; entry_fields.
    + by destruct (type (source p)).
    + by apply zlen_SetRandomUuid.
    + unfold is_u64, kSectorSize. pose proof (Z.div_pos (p_offset p) 512).
      pose proof (Z.div_le_upper_bound (p_offset p) 512 (2 ^ 63)). lia.
    + done.
    + unfold is_u64. lia.
    + apply length_u16cpy.
    + apply u16cpy_units. apply Forall_forall. intros c (x & -> & _)%list_elem_of_fmap. apply wide_char_unit.
Qed.

Lemma make_entries_ok ps : forall i, Forall info_ok ps ->
  make_entries random i ps = Ok (imap (fun j => entry_of (i + j)) ps) /\
  Forall entry_wf (imap (fun j => entry_of (i + j)) ps).
Proof.
  induction ps as [|p ps IH]; intros i Hps; [done|]. apply Forall_cons in Hps as [Hp Hps].
  destruct (make_entry_ok i p Hp) as [E1 W1], (IH (S i) Hps) as [E2 W2].
  cbn [make_entries]. rewrite E1, E2. cbn [rbind imap]. rewrite Nat.add_0_r.
  assert (imap (fun j => entry_of (S i + j)) ps = imap ((fun j => entry_of (i + j)) ∘ S) ps) as Heq.
  { apply imap_ext. intros j x _. simpl. by rewrite Nat.add_succ_r. }
  rewrite <- Heq. split; [done|]. by constructor.
Qed.
Lemma no_entry_wf : entry_wf no_entry.
Proof.
  constructor; try done; try (unfold is_u64; simpl; lia).
  change (partition_name no_entry) with (replicate 36 0). apply Forall_replicate. lia.
Qed.

(** The table of the partitions, filled up with empty entries. *)
Definition table (ps : list PartitionInfo) : list GptPartitionEntry :=
  imap entry_of ps ++ replicate (Z.to_nat (GPT_NUM_PARTITIONS - zlen ps)) no_entry.

Lemma zlen_imap {A B} (f : nat -> A -> B) (l : list A) : zlen (imap f l) = zlen l.
Proof. unfold zlen. by rewrite length_imap. Qed.

Lemma table_ok ps :
  Forall info_ok ps -> zlen ps <= GPT_NUM_PARTITIONS ->
  Forall entry_wf (table ps) /\ zlen (table ps) = GPT_NUM_PARTITIONS.
Proof.
  intros Hps Hn. destruct (make_entries_ok ps 0 Hps) as [_ Hw]. unfold table. split.
  - apply Forall_app. split; [done|]. apply Forall_replicate, no_entry_wf.
  - rewrite zlen_app, zlen_imap, zlen_replicate. pose proof (zlen_nonneg ps). lia.
Qed.

(** The header of a disk of [ds] bytes whose data ends at [e]. *)
Definition gpt_header (cur bak e lba ecrc crc : Z) : GptHeader :=
  mkHeader (str "EFI PART") (u8s [0; 0; 1; 0]) sizeof_GptHeader crc 0 cur bak 40 (e / 512 - 1)
    (SetRandomUuid (random 0)) lba GPT_NUM_PARTITIONS sizeof_GptPartitionEntry ecrc.

Lemma gpt_header_wf cur bak e lba ecrc crc :
  is_u64 cur -> is_u64 bak -> 512 <= e < 2 ^ 64 -> is_u64 lba -> is_u32 ecrc -> is_u32 crc ->
  header_wf (gpt_header cur bak e lba ecrc crc).
Proof.
  intros. constructor; try done; header_fields; unfold gpt_header; header_fields; try done;
    try (unfold is_u32, is_u64, sizeof_GptHeader, GPT_NUM_PARTITIONS, sizeof_GptPartitionEntry; lia).
  - by apply zlen_SetRandomUuid.
  - unfold is_u64. pose proof (Z.div_le_mono 512 e 512). pose proof (Z.div_le_upper_bound e 512 (2 ^ 64)).
    change (512 / 512) with 1 in *. lia.
Qed.

Section disk.
Context (ps : list PartitionInfo) (e : Z) (ro : bool).
Context (Hps : Forall info_ok ps) (Hn : zlen ps <= GPT_NUM_PARTITIONS).
Context (He : 20480 <= e < 2 ^ 62) (Hal : e mod 4096 = 0).
Let b : CompositeDiskBuilder := mkBuilder ps e ro.
Let ds : Z := DiskSize b.
Let ecrc : Z := crc32 (entries_bytes (table ps)).
Definition primary (ds : Z) : GptHeader :=
  let ecrc := crc32 (entries_bytes (table ps)) in
  gpt_header 1 (ds / 512 - 1) e 2 ecrc (crc32 (header_bytes (gpt_header 1 (ds / 512 - 1) e 2 ecrc 0))).
Definition backup (ds : Z) : GptHeader :=
  let ecrc := crc32 (entries_bytes (table ps)) in
  let lba := ds / 512 - 33 in
  gpt_header (ds / 512 - 1) 1 e lba ecrc (crc32 (header_bytes (gpt_header (ds / 512 - 1) 1 e lba ecrc 0))).

Lemma DiskSize_range : exists q, ds = 65536 * q /\ e + 16896 <= ds < e + 16896 + 65536.
Proof.
  unfold ds, b, DiskSize. cbn [next_disk_offset_]. rewrite u64_id by (unfold is_u64, sizeof_GptEnd; lia).
  unfold DISK_SIZE_SHIFT, sizeof_GptEnd. destruct (AlignToPowerOf2_spec (e + 16896) 16) as (q & -> & Hq); [lia..|].
  exists q. change (2 ^ 16) with 65536 in *. lia.
Qed.

Lemma ds_sectors : ds / 512 * 512 = ds /\ 0 <= ds / 512 < 2 ^ 62.
Proof.
  destruct DiskSize_range as (q & Hq & Hb). rewrite Hq. replace (65536 * q) with (128 * q * 512) by lia.
  rewrite Z.div_mul by lia. lia.
Qed.

Lemma Beginning_ok :
  Beginning crc32 random b = Ok (mkBeginning (ProtectiveMbr ds) (primary ds) (table ps)).
Proof.
  unfold Beginning. cbn [partitions_ b]. rewrite (proj2 (Z.leb_le _ _)) by done. cbn [expect rbind].
  destruct (make_entries_ok ps 0 Hps) as [-> _]. cbn [rbind].
  change (imap (fun j => entry_of (0 + j)) ps) with (imap entry_of ps). rewrite zlen_imap.
  fold (table ps). cbn [next_disk_offset_ b]. fold ds. destruct ds_sectors as [_ Hs].
  destruct DiskSize_range as (q & Hq & Hb).
  assert (1 <= ds / 512) by (pose proof (Z.div_le_mono 512 ds 512); change (512 / 512) with 1 in *; lia).
  assert (0 <= e / 512 - 1 < 2 ^ 64) by (pose proof (Z.div_le_mono 512 e 512);
    pose proof (Z.div_le_upper_bound e 512 (2 ^ 62)); change (512 / 512) with 1 in *; lia).
  unfold kSectorSize. rewrite !u64_id by (unfold is_u64; lia). reflexivity.
Qed.

Lemma End_ok :
  End crc32 uninit b (mkBeginning (ProtectiveMbr ds) (primary ds) (table ps)) =
    mkEnd (table ps) (backup ds) uninit.
Proof.
  unfold End. cbn [header entries]. fold ds. destruct ds_sectors as [Hm Hs].
  destruct DiskSize_range as (q & Hq & Hb).
  assert ((ds - 16384) / 512 = ds / 512 - 32) as Hd.
  { replace (ds - 16384) with (ds / 512 * 512 + (-32) * 512) by lia.
    rewrite Z.div_add, Z.div_mul by lia. lia. }
  unfold kSectorSize. rewrite (u64_id (ds - 16384)) by (unfold is_u64; lia). rewrite Hd.
  assert (33 <= ds / 512) by (pose proof (Z.div_le_mono 16896 ds 512); change (16896 / 512) with 33 in *; lia).
  rewrite u64_id by (unfold is_u64; lia).
  replace (ds / 512 - 32 - 1) with (ds / 512 - 33) by lia. reflexivity.
Qed.

(** The whole disk. *)
Definition disk_bytes (data : bytes) : bytes :=
  beginning_bytes (mkBeginning (ProtectiveMbr ds) (primary ds) (table ps)) ++ data ++
  zeros (ds - e - 16896) ++ end_bytes (mkEnd (table ps) (backup ds) uninit).

Lemma primary_wf : header_wf (primary ds).
Proof. destruct ds_sectors as [_ Hs], DiskSize_range as (q & Hq & Hb).
  assert (1 <= ds / 512) by (pose proof (Z.div_le_mono 512 ds 512); change (512 / 512) with 1 in *; lia).
  apply gpt_header_wf; try apply Hcrc; unfold is_u64; lia. Qed.
Lemma backup_wf : header_wf (backup ds).
Proof. destruct ds_sectors as [_ Hs], DiskSize_range as (q & Hq & Hb).
  assert (33 <= ds / 512) by (pose proof (Z.div_le_mono 16896 ds 512); change (16896 / 512) with 33 in *; lia).
  apply gpt_header_wf; try apply Hcrc; unfold is_u64; lia. Qed.

Lemma zlen_table_bytes : zlen (entries_bytes (table ps)) = 16384.
Proof.
  destruct (table_ok ps Hps Hn) as [Hw Hl]. rewrite zlen_entries_bytes, Hl by done. done.
Qed.
Lemma zlen_mbr m : zlen (mbr_bytes m) = 512.
Proof.
  unfold mbr_bytes, u8s. rewrite !zlen_app, !zlen_le_bytes, !zlen_zeros by lia. reflexivity.
Qed.
Lemma zlen_beginning :
  zlen (beginning_bytes (mkBeginning (ProtectiveMbr ds) (primary ds) (table ps))) = 20480.
Proof.
  unfold beginning_bytes. cbn [protective_mbr header entries].
  rewrite !zlen_app, zlen_mbr, zlen_header_bytes, zlen_table_bytes, !zlen_zeros by (apply primary_wf || (unfold kSectorSize, sizeof_GptHeader; lia)).
  reflexivity.
Qed.
Lemma zlen_end : zlen (end_bytes (mkEnd (table ps) (backup ds) uninit)) = 16896.
Proof.
  unfold end_bytes. cbn [end_entries footer footer_padding].
  rewrite !zlen_app, zlen_table_bytes, zlen_header_bytes, Huninit by apply backup_wf. reflexivity.
Qed.

Lemma zlen_disk data : zlen data = e - 20480 -> zlen (disk_bytes data) = ds.
Proof.
  intros Hd. destruct DiskSize_range as (q & Hq & Hb). unfold disk_bytes.
  rewrite !zlen_app, zlen_beginning, zlen_end, zlen_zeros by lia. lia.
Qed.

Lemma read_primary data : read_gpt crc32 (disk_bytes data) 1 = Some (primary ds, table ps).
Proof.
  destruct (table_ok ps Hps Hn) as [Hw Hl]. set (m := mbr_bytes (ProtectiveMbr ds)).
  set (h := header_bytes (primary ds)). set (es := entries_bytes (table ps)).
  assert (Hlh : zlen h = 92) by (apply zlen_header_bytes, primary_wf).
  apply read_gpt_found with (rest := zeros 420) (rest' := []); try done; try apply primary_wf.
  - unfold disk_bytes, beginning_bytes. cbn [protective_mbr header entries]. fold m h es.
    rewrite <- !app_assoc, (app_assoc h). change (kSectorSize - sizeof_GptHeader) with 420.
    replace (1 * kSectorSize) with (zlen m) by apply zlen_mbr.
    replace kSectorSize with (zlen (h ++ zeros 420)) by (rewrite zlen_app, Hlh; done).
    apply zslice_mid.
  - rewrite app_nil_r, Hl. unfold disk_bytes, beginning_bytes. cbn [protective_mbr header entries]. fold m h es.
    rewrite <- !app_assoc, (app_assoc h), (app_assoc m).
    change (kSectorSize - sizeof_GptHeader) with 420.
    replace (partition_entries_lba (primary ds) * kSectorSize) with (zlen (m ++ h ++ zeros 420))
      by (rewrite !zlen_app, Hlh; unfold m; rewrite zlen_mbr; done).
    replace (128 * GPT_NUM_PARTITIONS) with (zlen es) by apply zlen_table_bytes.
    apply zslice_mid.
Qed.

Lemma read_backup data :
  zlen data = e - 20480 -> read_gpt crc32 (disk_bytes data) (ds / 512 - 1) = Some (backup ds, table ps).
Proof.
  intros Hd. destruct (table_ok ps Hps Hn) as [Hw Hl]. set (h := header_bytes (backup ds)).
  set (es := entries_bytes (table ps)). destruct ds_sectors as [Hm Hs], DiskSize_range as (q & Hq & Hb).
  assert (Hlh : zlen h = 92) by (apply zlen_header_bytes, backup_wf).
  set (front := beginning_bytes (mkBeginning (ProtectiveMbr ds) (primary ds) (table ps)) ++ data ++ zeros (ds - e - 16896)).
  assert (Hf : zlen front = ds - 16896).
  { unfold front. rewrite !zlen_app, zlen_beginning, zlen_zeros by lia. lia. }
  assert (Hdisk : disk_bytes data = front ++ es ++ h ++ uninit).
  { unfold disk_bytes, front, end_bytes. cbn [end_entries footer footer_padding]. by rewrite <- !app_assoc. }
  apply read_gpt_found with (rest := uninit) (rest' := []); try done; try apply backup_wf; rewrite Hdisk.
  - rewrite (app_assoc front).
    replace ((ds / 512 - 1) * kSectorSize) with (zlen (front ++ es))
      by (rewrite zlen_app, Hf; unfold es, kSectorSize; rewrite zlen_table_bytes; lia).
    rewrite <- (app_nil_r (h ++ uninit)) at 1.
    replace kSectorSize with (zlen (h ++ uninit)) by (rewrite zlen_app, Hlh, Huninit; done).
    apply zslice_mid.
  - rewrite app_nil_r, Hl.
    replace (partition_entries_lba (backup ds) * kSectorSize) with (zlen front)
      by (rewrite Hf; change (partition_entries_lba (backup ds)) with (ds / 512 - 33); unfold kSectorSize; lia).
    replace (128 * GPT_NUM_PARTITIONS) with (zlen es) by apply zlen_table_bytes. apply zslice_mid.
Qed.

Lemma WriteEnd_spec d f data :
  at_end d f data ->
  exists r d' f', WriteEnd k (mkEnd (table ps) (backup ds) uninit) (d, f) = (r, (d', f')) /\
    fd_path f' = fd_path f /\ (forall p, p <> fd_path f -> d' !! p = d !! p) /\
    match r with
    | Ok _ => at_end d' f' (data ++ zeros (ds - e - 16896) ++ end_bytes (mkEnd (table ps) (backup ds) uninit))
    | Err _ => True | _ => False end /\ (calm k -> r = Ok tt).
Proof.
  intros Hend. destruct ds_sectors as [Hm Hs], DiskSize_range as (q & Hq & Hb). unfold WriteEnd.
  change (current_lba (footer _)) with (ds / 512 - 1). change (last_usable_lba (footer _)) with (e / 512 - 1).
  assert (Hes : e / 512 * 512 = e).
  { pose proof (Z.div_mod e 4096). replace e with (8 * (e / 4096) * 512) at 1 by lia.
    rewrite Z.div_mul by lia. lia. }
  assert (0 <= e / 512 < 2 ^ 62) by (pose proof (Z.div_le_upper_bound e 512 (2 ^ 62)); lia).
  rewrite !Z.sub_add. unfold kSectorSize, sizeof_GptEnd.
  rewrite (u64_id (ds / 512)), (u64_id (e / 512)), Hm, Hes by (unfold is_u64; lia).
  rewrite (u64_id ds), (u64_id e), (u64_id (ds - e - 16896)) by (unfold is_u64; lia).
  destruct (WriteExact_end k Hk (zeros (ds - e - 16896)) d f data Hend) as
    (r & d1 & f1 & Hrun & Hp1 & Hf1 & Hr1 & Hc1); [rewrite zlen_zeros by lia; lia|].
  rewrite (mbind_run _ _ _ _ _ Hrun). destruct r as [u| | |]; try done.
  2: { eexists _, _, _. split; [done|]. by split_and!. }
  destruct (WriteExact_end k Hk (end_bytes (mkEnd (table ps) (backup ds) uninit)) d1 f1 _ Hr1) as
    (r & d2 & f2 & Hrun2 & Hp2 & Hf2 & Hr2 & Hc2); [rewrite zlen_end; lia|].
  rewrite Hrun2. exists r, d2, f2. split_and!; try done; [congruence| |by rewrite app_assoc].
  intros p Hp. rewrite Hf2 by congruence. by apply Hf1.
Qed.
End disk.

(** ** The whole disk *)
Lemma placed_source ro d ps : forall off, (source <$> placed ro d off ps) = List.filter (kept ro d) ps.
Proof.
  induction ps as [|p ps IH]; intros off; [done|]. simpl. destruct (kept ro d p); [|done].
  by rewrite fmap_cons, IH.
Qed.

Lemma placed_lookup fill ro d ps : forall off i x,
  fills fill -> small d ps -> placed ro d off ps !! i = Some x ->
  exists pre post, let p := source x in
    image_data fill ro d ps = pre ++ (data_of d p ++ fill (gap d p)) ++ post /\
    p_offset x = off + zlen pre /\ AlignedSize x = zlen (data_of d p ++ fill (gap d p)) /\
    zlen pre mod 4096 = 0 /\ zlen (data_of d p ++ fill (gap d p)) mod 4096 = 0 /\ zlen (fill (gap d p)) = gap d p.
Proof.
  induction ps as [|p ps IH]; intros off i x Hf Hs; [done|]. simpl.
  apply Forall_cons in Hs as [Hp Hs]. destruct (gap_spec d p Hp) as (Hg & Hm & _).
  destruct (kept ro d p) eqn:E; [|by apply IH]. destruct i as [|i]; simpl.
  - intros [= <-]. exists [], (image_data fill ro d ps). simpl. rewrite !zlen_app, Hf, Z.add_0_r by done.
    split_and!; try done. unfold AlignedSize. simpl. unfold gap. lia.
  - intros (pre & post & -> & -> & Ha & Hmp & Hrest)%IH; try done.
    exists ((data_of d p ++ fill (gap d p)) ++ pre), post.
    rewrite <- !app_assoc, !(zlen_app _ (_ ++ pre)), !(zlen_app _ pre), Hf by done.
    split_and!; try done; try apply Hrest; try lia.
    rewrite Z.add_assoc, Z.add_mod, Hm, Hmp by lia. done.
Qed.

Lemma zeros_fills : fills zeros.
Proof. intros n Hn. apply zlen_zeros. lia. Qed.

Lemma placed_ok ro d off ps :
  small d ps -> 512 <= off -> off + image_size ro d ps < 2 ^ 63 -> Forall info_ok (placed ro d off ps).
Proof.
  intros Hs Ho Hb. apply Forall_lookup. intros i x Hx.
  destruct (placed_lookup zeros ro d ps off i x zeros_fills Hs Hx) as (pre & post & Hi & Ho' & Ha & _).
  rewrite <- (zlen_image_data zeros) in Hb by (done || apply zeros_fills). rewrite Hi in Hb.
  rewrite (zlen_app pre), (zlen_app _ post) in Hb.
  pose proof (zlen_nonneg pre). pose proof (zlen_nonneg post). unfold info_ok. rewrite Ho', Ha.
  pose proof (zlen_nonneg (data_of d (source x) ++ zeros (gap d (source x)))). lia.
Qed.

(** The bytes of the disk that an entry's sectors hold. *)
Definition partition_contents (disk : bytes) (e : GptPartitionEntry) : bytes :=
  zslice (first_lba e * kSectorSize) ((last_lba e + 1 - first_lba e) * kSectorSize) disk.

Lemma partition_contents_found fill ro (d : Disk) ps head tail i x :
  fills fill -> small d ps -> placed ro d 20480 ps !! i = Some x -> zlen head = 20480 ->
  partition_contents (head ++ image_data fill ro d ps ++ tail) (entry_of i x) =
    data_of d (source x) ++ fill (gap d (source x)) /\
  zlen (fill (gap d (source x))) = gap d (source x).
Proof.
  intros Hf Hs Hx Hh.
  destruct (placed_lookup fill ro d ps 20480 i x Hf Hs Hx) as (pre & post & -> & Ho & Ha & Hm & Ha' & Hz).
  split; [|done]. unfold partition_contents, entry_of, kSectorSize. cbn [first_lba last_lba]. rewrite Ho, Ha, Z.sub_add.
  set (img := data_of d (source x) ++ fill (gap d (source x))) in *.
  pose proof (Z.div_mod (zlen pre) 4096 ltac:(lia)) as E1.
  pose proof (Z.div_mod (zlen img) 4096 ltac:(lia)) as E2.
  set (n := zlen pre / 4096) in *. set (m := zlen img / 4096) in *.
  replace (20480 + zlen pre) with ((40 + 8 * n) * 512) by lia.
  replace ((40 + 8 * n) * 512 + zlen img) with ((40 + 8 * n + 8 * m) * 512) by lia.
  rewrite !Z.div_mul by lia. rewrite <- !app_assoc, (app_assoc head).
  replace ((40 + 8 * n) * 512) with (zlen (head ++ pre)) by (rewrite zlen_app; lia).
  replace ((40 + 8 * n + 8 * m - (40 + 8 * n)) * 512) with (zlen img) by lia.
  apply zslice_mid.
Qed.

(** What the table of [disk] says, against the images of [d]: both copies of the
    table read the same entries, and the sectors of the [i]-th hold the bytes of
    the [i]-th image that was kept, filled up to the alignment. *)
Definition disk_holds (ro : bool) (d : Disk) (ps : list ImagePartition) (disk : bytes) : Prop :=
  zlen disk mod 65536 = 0 /\
  exists h h' es,
    read_gpt crc32 disk 1 = Some (h, es) /\ read_gpt crc32 disk (zlen disk / 512 - 1) = Some (h', es) /\
    backup_lba h = current_lba h' /\ backup_lba h' = current_lba h /\
    forall i p, List.filter (kept ro d) ps !! i = Some p ->
      exists e fill, es !! i = Some e /\ partition_contents disk e = data_of d p ++ fill /\
        zlen fill = gap d p /\ partition_name e = u16cpy 36 (wide_char <$> label p) /\
        GetPartitionGUID (type p) = Ok (partition_type_guid e).

Lemma at_end_exists d f data : at_end d f data -> 0 < zlen data -> d !! fd_path f = Some data.
Proof. intros [<- _]. unfold file_of. by destruct (d !! fd_path f). Qed.

Lemma on_fd_run {A} (m : M (Disk * Fd) A) d f r d' f' :
  m (d, f) = (r, (d', f')) -> on_fd f m d = (r, d').
Proof. intros E. unfold on_fd. by rewrite E. Qed.

Section whole.
Context (ro : bool) (d0 : Disk) (ps : list ImagePartition).
Context (Hraw : raw_images d0 ps) (Hsmall : small d0 ps) (Htotal : 20480 + image_size ro d0 ps < 2 ^ 62).
Let infos : list PartitionInfo := placed ro d0 20480 ps.
Let e : Z := 20480 + image_size ro d0 ps.

Lemma infos_ok : Forall info_ok infos.
Proof. apply placed_ok; [done|lia..]. Qed.
Lemma e_range : 20480 <= e < 2 ^ 62 /\ e mod 4096 = 0.
Proof.
  unfold e. destruct (image_size_nonneg ro d0 ps Hsmall) as [H0 Hm]. split; [lia|].
  by rewrite Z.add_mod, Hm by lia.
Qed.

Lemma zlen_disk_bytes fill :
  fills fill -> zlen infos <= GPT_NUM_PARTITIONS -> 0 < zlen (disk_bytes infos e ro (image_data fill ro d0 ps)).
Proof.
  intros Hfill Hn. pose proof infos_ok as Hi. destruct e_range as [He Ha].
  destruct (DiskSize_range infos e ro He) as (q & _ & Hb).
  rewrite zlen_disk by (try done; rewrite zlen_image_data by done; unfold e; lia). lia.
Qed.

Lemma disk_bytes_holds fill :
  fills fill -> zlen infos <= GPT_NUM_PARTITIONS ->
  disk_holds ro d0 ps (disk_bytes infos e ro (image_data fill ro d0 ps)).
Proof.
  intros Hfill Hn. pose proof infos_ok as Hi. destruct e_range as [He Ha].
  assert (Hd : zlen (image_data fill ro d0 ps) = e - 20480) by (rewrite zlen_image_data by done; unfold e; lia).
  destruct (DiskSize_range infos e ro He) as (q & Hq & Hb).
  split; rewrite (zlen_disk infos e ro Hi Hn He _ Hd).
  { rewrite Hq, Z.mul_comm. by apply Z.mod_mul. }
  eexists _, _, _. split_and!; [by apply read_primary|by apply read_backup|done|done|].
  intros i p Hp. rewrite <- (placed_source ro d0 ps 20480), list_lookup_fmap in Hp.
  destruct (placed ro d0 20480 ps !! i) as [x|] eqn:Hx; [|done]. injection Hp as <-.
  edestruct (partition_contents_found fill ro d0 ps) as [Hc Hz]; [done|done|done|by apply zlen_beginning|].
  exists (entry_of i x), (fill (gap d0 (source x))). split_and!; [|exact Hc|done|done|].
  - unfold table. rewrite lookup_app_l; [by rewrite list_lookup_imap; unfold infos; rewrite Hx|].
    rewrite length_imap. by apply lookup_lt_Some in Hx.
  - unfold entry_of. cbn [partition_type_guid]. by destruct (type (source x)).
Qed.

Lemma write_disk d f :
  zlen infos <= GPT_NUM_PARTITIONS -> Forall (fun p => image_file_path p <> fd_path f) ps ->
  (forall q, q <> fd_path f -> d !! q = d0 !! q) -> at_end d f [] ->
  let b := mkBuilder infos e ro in
  let head := mkBeginning (ProtectiveMbr (DiskSize b)) (primary infos e (DiskSize b)) (table infos) in
  exists r d' f',
    (let! _ := @WriteExact _ (fd_writer k) (beginning_bytes head) in
     let! _ := copy_partitions k infos in
     WriteEnd k (End crc32 uninit b head)) (d, f) = (r, (d', f')) /\
    fd_path f' = fd_path f /\ (forall q, q <> fd_path f -> d' !! q = d0 !! q) /\
    match r with
    | Ok _ => d' !! fd_path f = Some (disk_bytes infos e ro (image_data zeros ro d0 ps)) | Err _ => True | _ => False
    end /\ (calm k -> r = Ok tt).
Proof.
  intros Hn Hne Hd Hend b head. pose proof infos_ok as Hi. destruct e_range as [He Ha].
  assert (Hh : zlen (beginning_bytes head) = 20480) by by apply zlen_beginning.
  destruct (WriteExact_end k Hk (beginning_bytes head) d f [] Hend) as
    (r & d1 & f1 & Hrun & Hp1 & Hf1 & Hr1 & Hc1); [lia|]. rewrite (mbind_run _ _ _ _ _ Hrun).
  assert (Hs1 : forall q, q <> fd_path f -> d1 !! q = d0 !! q) by (intros q Hq; rewrite Hf1 by done; auto).
  destruct r as [u| | |]; try done; [|by eexists _, _, _].
  destruct (copy_partitions_spec ro d0 ps 20480 d1 f1 (beginning_bytes head)) as
    (r & d2 & f2 & Hrun2 & Hp2 & Hs2 & Hr2 & Hc2); try done; try (rewrite Hp1; done).
  fold infos in Hrun2. rewrite (mbind_run _ _ _ _ _ Hrun2). rewrite Hp1 in Hs2.
  destruct r as [u'| | |]; try done; [|by eexists _, _, _; split_and!; try done; congruence].
  replace (End crc32 uninit b head) with (mkEnd (table infos) (backup infos e (DiskSize b)) uninit)
    by (symmetry; by apply End_ok).
  destruct (WriteEnd_spec infos e ro Hi Hn He Ha d2 f2 _ Hr2) as (r & d3 & f3 & Hrun3 & Hp3 & Hf3 & Hr3 & Hc3).
  exists r, d3, f3. split; [exact Hrun3|]. split_and!; try done; try congruence.
  - intros q Hq. rewrite Hf3 by congruence. by apply Hs2.
  - destruct r; try done. rewrite <- app_assoc in Hr3. apply at_end_exists in Hr3.
    { by rewrite Hp3, Hp2, Hp1 in Hr3. }
    change (0 < zlen (disk_bytes infos e ro (image_data zeros ro d0 ps))). by apply zlen_disk_bytes; [apply zeros_fills|].
Qed.
End whole.



(** ** Composite disks

    The disk a composite file describes: every component holds the bytes of its
    file from its offset to the next component's. *)
Definition next_offset (cs : list ComponentDisk) (len : Z) : Z :=
  match cs with c :: _ => offset c | [] => len end.
Fixpoint assemble (d : Disk) (cs : list ComponentDisk) (len : Z) : bytes :=
  match cs with
  | [] => []
  | c :: cs => ztake (next_offset cs len - offset c) (file_at d (file_path c)) ++ assemble d cs len
  end.

Section composite.
Context (ro : bool) (d : Disk) (header_file footer_file : bytes) (hb fb : bytes) (len : Z).
Context (Hhb : 4096 <= zlen hb).

(** The components of the images from [off]. *)
Fixpoint components_from (off : Z) (ps : list ImagePartition) : list ComponentDisk :=
  match ps with
  | [] => []
  | p :: ps =>
      if kept ro d p then
        mkComponent (image_file_path p) off (if ro then READ_ONLY else READ_WRITE) ::
        (if gap d p =? 0 then [] else [mkComponent header_file (off + zlen (data_of d p)) READ_ONLY]) ++
        components_from (off + (zlen (data_of d p) + gap d p)) ps
      else components_from off ps
  end.

Lemma spec_components_raw ps : forall off,
  raw_images d ps -> small d ps -> 0 <= off -> off + image_size ro d ps < 2 ^ 63 ->
  spec_components k t d ro header_file (placed ro d off ps) = Ok (components_from off ps).
Proof.
  induction ps as [|p ps IH]; intros off Hr Hs Ho Hb; [done|]. simpl in *.
  apply Forall_cons in Hr as [(data & Hd & Hraw & Hf) Hr]. apply Forall_cons in Hs as [Hs1 Hs].
  pose proof (zlen_nonneg (data_of d p)) as H0.
  destruct (image_size_nonneg ro d ps Hs) as [Hi _], (gap_spec d p Hs1) as (Hg & _).
  destruct (kept ro d p); [|by apply IH]. cbn [spec_components source size p_offset].
  assert (ExpandedStorageSize k t d (image_file_path p) = Ok (zlen (data_of d p))) as ->.
  { unfold ExpandedStorageSize. rewrite (ImageFromFile_raw k t d _ data Hd Hf Hraw).
    unfold data_of, file_at. by rewrite Hd. }
  cbn [rbind]. rewrite Z.eqb_refl. cbn [expect rbind]. rewrite IH by (done || lia). cbn [rbind].
  rewrite u64_id by (unfold is_u64; lia). unfold AlignedSize. cbn [size].
  replace (AlignToPartitionSize (zlen (data_of d p)) =? zlen (data_of d p)) with (gap d p =? 0); [by destruct (_ =? 0)|].
  apply eq_bool_prop_intro. rewrite !Is_true_true, !Z.eqb_eq. unfold gap. lia.
Qed.

Lemma next_components ps : forall off c,
  small d ps -> offset c = off + image_size ro d ps -> next_offset (components_from off ps ++ [c]) len = off.
Proof.
  induction ps as [|p ps IH]; intros off c Hs Hc; simpl in *; [lia|]. apply Forall_cons in Hs as [_ Hs].
  destruct (kept ro d p); [done|]. by apply IH.
Qed.

Lemma assemble_components d' ps : forall off,
  file_at d' header_file = hb -> file_at d' footer_file = fb -> zlen fb = len - (off + image_size ro d ps) ->
  small d ps -> Forall (fun p => data_of d' p = data_of d p) ps ->
  assemble d' (components_from off ps ++ [mkComponent footer_file (off + image_size ro d ps) READ_ONLY]) len =
    image_data (fun n => ztake n hb) ro d ps ++ fb.
Proof.
  induction ps as [|p ps IH]; intros off Hh Hf Hlen Hs Hd.
  { simpl. rewrite Hf, ztake_all, app_nil_r by (simpl in Hlen; lia). done. }
  apply Forall_cons in Hs as [Hs1 Hs]. apply Forall_cons in Hd as [Hd1 Hd].
  destruct (gap_spec d p Hs1) as (Hg & _). simpl in *. destruct (kept ro d p); [|by apply IH].
  rewrite (Z.add_assoc off (_ + _)) in Hlen |- *. cbn [app assemble]. set (off' := off + (zlen (data_of d p) + gap d p)) in *.
  pose proof (next_components ps off' (mkComponent footer_file (off' + image_size ro d ps) READ_ONLY) Hs eq_refl) as Hnext.
  destruct (Z.eqb_spec (gap d p) 0) as [E|E]; cbn [app assemble next_offset offset file_path].
  - rewrite Hnext. fold (data_of d' p). rewrite Hd1, IH by done. rewrite E, (ztake_all (_ - _)) by (unfold off'; lia).
    by rewrite ztake_0, app_nil_r, <- app_assoc.
  - rewrite Hnext. fold (data_of d' p). rewrite Hd1, Hh, IH by done. rewrite ztake_all by lia.
    replace (off' - (off + zlen (data_of d p))) with (gap d p) by (unfold off'; lia). by rewrite <- !app_assoc.
Qed.
End composite.

Lemma on_fd_created path (m : M (Disk * Fd) unit) (buf : bytes) (d : Disk) :
  (exists r d' f', m (<[path := []]> d, mkFd path 0) = (r, (d', f')) /\ fd_path f' = path /\
     (forall q, q <> path -> d' !! q = <[path := []]> d !! q) /\
     match r with Ok _ => at_end d' f' buf | Err _ => True | _ => False end /\ (calm k -> r = Ok tt)) ->
  exists r d', (let! f := Fd_Creat k path in on_fd f m) d = (r, d') /\
    (forall q, q <> path -> d' !! q = d !! q) /\
    match r with Ok _ => file_at d' path = buf | Err _ => True | _ => False end /\ (calm k -> r = Ok tt).
Proof.
  intros (r & d' & f' & Hrun & Hp & Hf & Hr & Hc). destruct (fails k (COpen path)) eqn:E.
  - exists (Err "open failed"), d. unfold mbind, Fd_Creat. rewrite E. split_and!; try done.
    intros Hcalm. by rewrite Hcalm in E.
  - exists r, d'. unfold mbind, Fd_Creat. rewrite E, (on_fd_run _ _ _ _ _ _ Hrun). split; [done|].
    split; [intros q Hq; rewrite Hf by done; by apply lookup_insert_ne|]. split; [|done].
    destruct r; try done. destruct Hr as [<- _]. unfold file_at, file_of. by rewrite Hp.
Qed.

(** The header and the footer of a composite disk, written one after the other. *)
Section write_composite.
Context (ro : bool) (d0 : Disk) (ps : list ImagePartition).
Context (Hsmall : small d0 ps) (Htotal : 20480 + image_size ro d0 ps < 2 ^ 62).
Let infos : list PartitionInfo := placed ro d0 20480 ps.
Let e : Z := 20480 + image_size ro d0 ps.
Let b : CompositeDiskBuilder := mkBuilder infos e ro.
Context (Hn : zlen infos <= GPT_NUM_PARTITIONS).
Let head : GptBeginning := mkBeginning (ProtectiveMbr (DiskSize b)) (primary infos e (DiskSize b)) (table infos).
Let footer_bytes : bytes :=
  zeros (DiskSize b - e - 16896) ++ end_bytes (mkEnd (table infos) (backup infos e (DiskSize b)) uninit).

Lemma write_header (d : Disk) (header_file : bytes) :
  exists r d', (let! f := Fd_Creat k header_file in
                on_fd f (@WriteExact _ (fd_writer k) (beginning_bytes head))) d = (r, d') /\
    (forall q, q <> header_file -> d' !! q = d !! q) /\
    match r with Ok _ => file_at d' header_file = beginning_bytes head | Err _ => True | _ => False end /\
    (calm k -> r = Ok tt).
Proof.
  apply on_fd_created. destruct (e_range ro d0 ps Hsmall Htotal) as [He Ha].
  assert (zlen (beginning_bytes head) = 20480) by exact (zlen_beginning infos e ro (infos_ok ro d0 ps Hsmall Htotal) Hn He).
  apply (WriteExact_end k Hk _ _ (mkFd header_file 0) []); [|lia].
  split; [|done]. unfold file_of. simpl. by rewrite lookup_insert_eq.
Qed.

Lemma write_footer (d : Disk) (footer_file : bytes) :
  exists r d', (let! f := Fd_Creat k footer_file in on_fd f (WriteEnd k (End crc32 uninit b head))) d = (r, d') /\
    (forall q, q <> footer_file -> d' !! q = d !! q) /\
    match r with Ok _ => file_at d' footer_file = footer_bytes | Err _ => True | _ => False end /\
    (calm k -> r = Ok tt).
Proof.
  apply on_fd_created. destruct (e_range ro d0 ps Hsmall Htotal) as [He Ha].
  pose proof (infos_ok ro d0 ps Hsmall Htotal) as Hi.
  destruct (WriteEnd_spec infos e ro Hi Hn He Ha (<[footer_file := []]> d) (mkFd footer_file 0) [])
    as (r & d' & f' & Hrun & Hrest).
  { split; [|done]. unfold file_of. simpl. by rewrite lookup_insert_eq. }
  exists r, d', f'. split; [|exact Hrest].
  replace (End crc32 uninit b head) with (mkEnd (table infos) (backup infos e (DiskSize b)) uninit)
    by (symmetry; by apply End_ok). exact Hrun.
Qed.
End write_composite.

(** The last steps of [CreateOrUpdateCompositeDisk]. *)
Definition write_files (b : CompositeDiskBuilder) (header_file footer_file : bytes) : M Disk unit :=
  let! f := Fd_Creat k header_file in
  let! beginning := lift (Beginning crc32 random b) in
  let! _ := on_fd f (@WriteExact _ (fd_writer k) (beginning_bytes beginning)) in
  let! f := Fd_Creat k footer_file in
  on_fd f (WriteEnd k (End crc32 uninit b beginning)).

Lemma write_files_spec ro d0 ps (d : Disk) (header_file footer_file : bytes) :
  small d0 ps -> 20480 + image_size ro d0 ps < 2 ^ 62 -> header_file <> footer_file ->
  let infos := placed ro d0 20480 ps in let e := 20480 + image_size ro d0 ps in
  let b := mkBuilder infos e ro in
  exists r d', write_files b header_file footer_file d = (r, d') /\
    (forall q, q <> header_file -> q <> footer_file -> d' !! q = d !! q) /\
    match r with
    | Ok _ => zlen infos <= GPT_NUM_PARTITIONS /\ forall data,
        file_at d' header_file ++ data ++ file_at d' footer_file = disk_bytes infos e ro data /\
        zlen (file_at d' header_file) = 20480 /\ zlen (file_at d' footer_file) = DiskSize b - e
    | Err _ => True | _ => False
    end /\ (calm k -> zlen infos <= GPT_NUM_PARTITIONS -> r = Ok tt).
Proof.
  intros Hs Ht Hne infos e b. pose proof (infos_ok ro d0 ps Hs Ht) as Hi. destruct (e_range ro d0 ps Hs Ht) as [He Ha].
  unfold write_files. destruct (decide (zlen infos <= GPT_NUM_PARTITIONS)) as [Hn|Hn].
  2: { assert (Beginning crc32 random b = Err "Too many partitions") as ->.
    { unfold Beginning. cbn [partitions_ b]. by rewrite (proj2 (Z.leb_gt _ _)) by lia. }
    unfold mbind, Fd_Creat, lift. destruct (fails k (COpen header_file)); eexists _, _; (split; [done|]);
      (split; [|done]); try done. intros q Hq _. by apply lookup_insert_ne. }
  pose proof (Beginning_ok infos e ro Hi Hn He) as HB. fold b in HB. rewrite HB.
  destruct (write_header ro d0 ps Hs Ht Hn d header_file) as (r1 & d1 & Hrun1 & Hf1 & Hr1 & Hc1).
  destruct (write_footer ro d0 ps Hs Ht Hn d1 footer_file) as (r2 & d2 & Hrun2 & Hf2 & Hr2 & Hc2).
  fold infos e b in Hrun1, Hr1, Hrun2, Hr2.
  exists (match r1 with Ok _ => r2 | _ => r1 end), (match r1 with Ok _ => d2 | _ => d1 end).
  split.
  { unfold mbind, lift in Hrun1 |- *. destruct (Fd_Creat k header_file d) as [[f| | |] d''];
      try (injection Hrun1 as <- <-; done). rewrite Hrun1. by destruct r1. }
  split.
  { intros q Hq Hq'. destruct r1; try (by apply Hf1). rewrite Hf2 by done. by apply Hf1. }
  split; [|intros Hc _; rewrite Hc1 by done; by apply Hc2].
  destruct r1; try done. destruct r2; try done. split; [done|]. intros data.
  assert (file_at d2 header_file = file_at d1 header_file) as -> by (unfold file_at; by rewrite Hf2).
  rewrite Hr1, Hr2. split; [done|].
  split; [exact (zlen_beginning infos e ro Hi Hn He)|].
  destruct (DiskSize_range infos e ro He) as (q & _ & Hb). fold b in Hb.
  rewrite zlen_app, zlen_zeros by lia. pose proof (zlen_end infos e ro Hi Hn He) as Hz. fold b in Hz.
  rewrite Hz. lia.
Qed.

Lemma WriteCompositeDiskToFile_spec spec path (d : Disk) :
  exists r d', WriteCompositeDiskToFile k t spec path d = (r, d') /\ (forall q, q <> path -> d' !! q = d !! q) /\
    match r with
    | Ok _ => d' !! path = Some (composite_magic ++ SerializeComposite t spec) | Err _ => True | _ => False
    end /\ (calm k -> r = Ok tt).
Proof.
  unfold WriteCompositeDiskToFile. destruct (fails k (COpen path)) eqn:E1; [|destruct (fails k (CWrite 0)) eqn:E2];
    eexists _, _; (split; [reflexivity|]); (split; [intros q Hq; try done; by apply lookup_insert_ne|]).
  - split; [done|]. intros Hc. by rewrite Hc in E1.
  - split; [done|]. intros Hc. by rewrite Hc in E2.
  - split; [by apply lookup_insert_eq|done].
Qed.

Lemma assemble_disk ro (d d' : Disk) ps (header_file footer_file : bytes) len :
  small d ps -> Forall (fun p => data_of d' p = data_of d p) ps ->
  zlen (file_at d' header_file) = 20480 ->
  zlen (file_at d' footer_file) = len - (20480 + image_size ro d ps) ->
  assemble d' ([mkComponent header_file 0 READ_ONLY] ++ components_from ro d header_file 20480 ps ++
               [mkComponent footer_file (20480 + image_size ro d ps) READ_ONLY]) len =
    file_at d' header_file ++ image_data (fun n => ztake n (file_at d' header_file)) ro d ps ++ file_at d' footer_file.
Proof.
  intros Hs Hd Hh Hf. cbn [app assemble file_path offset]. rewrite next_components by done.
  rewrite ztake_all by lia. f_equal. by apply assemble_components.
Qed.

End aggregate.

(** ** Concrete disks *)
Definition no_tools : Tools := mkTools (fun _ => []) (fun _ => None) (fun _ => None) (fun _ => None) (fun _ => None).
Definition two_images : list ImagePartition :=
  [mkPartition (str "boot") (str "boot.img") kLinuxFilesystem;
   mkPartition (str "misc") (str "misc.img") kEfiSystemPartition].
Definition image_dir : Disk :=
  <[str "boot.img" := replicate 4096 "b"%char]> (<[str "misc.img" := str "misc"]> (∅ : Disk)).

Lemma two_images_raw : raw_images quiet image_dir two_images /\ small image_dir two_images.
Proof.
  split.
  - repeat constructor; (eexists; split; [vm_compute; reflexivity|split; [|reflexivity]]);
      repeat split; try discriminate; vm_compute; reflexivity.
  - repeat constructor; vm_compute; reflexivity.
Qed.



End ImageAggregator.
