(* ===== verification/Cpio.v ===== *)
(** * CPIO archives (io/cpio.cc, io/cpio.h)

    [Parse] reads the directory of an archive in one of three formats from any
    reader that follows pread(2); a file of the archive is then a window on the
    reader.  The three scanners are loops over untrusted headers: they are
    shown to terminate on every input, and the SVR4 ("newc") scanner to recover
    every archive an encoder of that format writes. *)
From S2P Require Import Prelude IO InMemory Views.

Module Cpio.
Import IO Views.

(** ** Headers *)
Definition kMagicNewc1 : bytes := str "070701".
Definition kMagicNewc2 : bytes := str "070702".
Definition kMagicOdc : bytes := str "070707".
Definition kTrailerName : bytes := str "TRAILER!!!".
Definition kBinaryLeMagic : bytes := [byte_of_Z 199; byte_of_Z 113].
Definition kBinaryBeMagic : bytes := [byte_of_Z 113; byte_of_Z 199].

(** Offsets and widths of the members of [CpioNewcHeader], [CpioOdcHeader] and
    [CpioBinHeader]; the last number of each is [offsetof(.., filename)]. *)
Definition newc_mode : Z * Z := (14, 8).
Definition newc_filesize : Z * Z := (54, 8).
Definition newc_namesize : Z * Z := (94, 8).
Definition newc_filename : Z := 110.
Definition odc_mode : Z * Z := (18, 6).
Definition odc_namesize : Z * Z := (59, 6).
Definition odc_filesize : Z * Z := (65, 11).
Definition odc_filename : Z := 76.
Definition bin_mode : Z := 6.
Definition bin_namesize : Z := 20.
Definition bin_filesize : Z := 22.
Definition bin_filename : Z := 26.

Definition field (header : bytes) (f : Z * Z) : bytes := zslice f.1 f.2 header.

(** [std::from_chars] on an unsigned type: the longest prefix of digits, an
    error when it is empty or the value does not fit. *)
Definition digit_value (base : Z) (c : ascii) : option Z :=
  let z := Z_of_byte c in
  let v := if (48 <=? z) && (z <=? 57) then z - 48
           else if (97 <=? z) && (z <=? 122) then z - 87
           else if (65 <=? z) && (z <=? 90) then z - 55 else base in
  if v <? base then Some v else None.

Fixpoint digits_prefix (base : Z) (l : bytes) : list Z :=
  match l with
  | [] => []
  | c :: l' => match digit_value base c with
               | Some v => v :: digits_prefix base l'
               | None => []
               end
  end.

Definition digits_value (base : Z) (ds : list Z) : Z :=
  foldl (fun acc d => acc * base + d) 0 ds.

Definition from_chars_u32 (base : Z) (l : bytes) : option Z :=
  match digits_prefix base l with
  | [] => None
  | ds => let v := digits_value base ds in if v <? 2 ^ 32 then Some v else None
  end.

Definition ParseHex (buf : bytes) : result Z :=
  match from_chars_u32 16 buf with
  | Some v => Ok v
  | None => Err "Failed to parse hex value"
  end.

Definition ParseOctal (buf : bytes) : result Z :=
  match from_chars_u32 8 buf with
  | Some v => Ok v
  | None => Err "Failed to parse octal value"
  end.

Definition ReadUnaligned16 (ptr : bytes) (file_is_big_endian : bool) : Z :=
  let p := ztake 2 ptr in le_value (if file_is_big_endian then rev p else p).
Definition ReadUnaligned32 (ptr : bytes) (file_is_big_endian : bool) : Z :=
  let p := ztake 4 ptr in le_value (if file_is_big_endian then rev p else p).

(** [std::string name(n, '\0')] for a [size_t] [n]. *)
Definition string_ctor (n : Z) : result unit :=
  check (n <=? InMemory.kMaxVector) "std::length_error".

Record FileEntry := mkEntry { offset : Z; size : Z; mode : Z }.
#[global] Instance FileEntry_eq_dec : EqDecision FileEntry.
Proof. solve_decision. Defined.
Abbreviation EntriesMap := (bytes_map FileEntry).

(** [std::map::emplace] keeps the entry of a key that is present. *)
Definition emplace (name : bytes) (e : FileEntry) (m : EntriesMap) : EntriesMap :=
  match m !! name with Some _ => m | None => <[name := e]> m end.

(** ** The scanners *)
Section parse.
Context {R : Type} `{ReaderSeeker R} (reader : R).

(** One iteration: [inl] the next offset and the entries so far. *)
Definition newc_iteration (off0 : Z) (entries : EntriesMap)
    : result (Z * EntriesMap + EntriesMap) :=
  let offset := AlignToPowerOf2 off0 2 in
  let* header := PReadExact reader newc_filename offset in
  let magic := ztake 6 header in
  let* _ := expect (bool_decide (magic = kMagicNewc1) || bool_decide (magic = kMagicNewc2))
              "Invalid magic in header" in
  let* filesize := ParseHex (field header newc_filesize) in
  let* namesize := ParseHex (field header newc_namesize) in
  let* mode := ParseHex (field header newc_mode) in
  let* _ := string_ctor (u32 (namesize - 1)) in
  let* name := PReadExact reader (u32 (namesize - 1)) (u64 (offset + newc_filename)) in
  if bool_decide (name = kTrailerName) then Ok (inr entries)
  else
    let data_offset := AlignToPowerOf2 (u64 (offset + newc_filename + namesize)) 2 in
    Ok (inl (u64 (data_offset + filesize),
             emplace name (mkEntry data_offset filesize mode) entries)).

Definition odc_iteration (offset : Z) (entries : EntriesMap)
    : result (Z * EntriesMap + EntriesMap) :=
  let* header := PReadExact reader odc_filename offset in
  let magic := ztake 6 header in
  let* _ := expect (bool_decide (magic = kMagicOdc)) "Invalid magic in header" in
  let* mode := ParseOctal (field header odc_mode) in
  let* namesize := ParseOctal (field header odc_namesize) in
  let* filesize := ParseOctal (field header odc_filesize) in
  let* _ := string_ctor (u32 (namesize - 1)) in
  let* name := PReadExact reader (u32 (namesize - 1)) (u64 (offset + odc_filename)) in
  if bool_decide (name = kTrailerName) then Ok (inr entries)
  else
    let data_offset := u64 (offset + odc_filename + namesize) in
    Ok (inl (u64 (data_offset + filesize),
             emplace name (mkEntry data_offset filesize mode) entries)).

(** Here [namesize] is a uint16_t, so [namesize - 1] is an int and becomes a
    size_t in the string's constructor. *)
Definition bin_iteration (file_is_big_endian : bool) (offset : Z) (entries : EntriesMap)
    : result (Z * EntriesMap + EntriesMap) :=
  let* header := PReadExact reader bin_filename offset in
  let header_magic := ztake 2 header in
  let* _ := expect (bool_decide (header_magic =
               if file_is_big_endian then kBinaryBeMagic else kBinaryLeMagic)) "CF_EXPECT_EQ" in
  let mode := ReadUnaligned16 (zdrop bin_mode header) file_is_big_endian in
  let namesize := ReadUnaligned16 (zdrop bin_namesize header) file_is_big_endian in
  let filesize := ReadUnaligned32 (zdrop bin_filesize header) file_is_big_endian in
  let* _ := string_ctor (u64 (namesize - 1)) in
  let* name := PReadExact reader (u64 (namesize - 1)) (u64 (offset + bin_filename)) in
  if bool_decide (name = kTrailerName) then Ok (inr entries)
  else
    let data_offset := AlignToPowerOf2 (u64 (offset + bin_filename + namesize)) 1 in
    Ok (inl (AlignToPowerOf2 (u64 (data_offset + filesize)) 1,
             emplace name (mkEntry data_offset filesize mode) entries)).

Definition scan (iteration : Z -> EntriesMap -> result (Z * EntriesMap + EntriesMap))
    : result EntriesMap :=
  while_ (fun '(offset, entries) =>
    match iteration offset entries with
    | Ok (inl next) => inl next
    | Ok (inr entries) => inr (Ok entries)
    | fl => inr (fail_as fl)
    end) Fuel (0, ∅).

Definition ParseNewc : result EntriesMap := scan newc_iteration.
Definition ParseOdc : result EntriesMap := scan odc_iteration.
Definition ParseBin (file_is_big_endian : bool) : result EntriesMap :=
  scan (bin_iteration file_is_big_endian).

Definition Parse : result EntriesMap :=
  let* magic := PReadExact reader 6 0 in
  if bool_decide (kBinaryLeMagic `prefix_of` magic) then ParseBin false
  else if bool_decide (kBinaryBeMagic `prefix_of` magic) then ParseBin true
  else if bool_decide (magic = kMagicNewc1) || bool_decide (magic = kMagicNewc2)
  then ParseNewc
  else if bool_decide (magic = kMagicOdc) then ParseOdc
  else Err "Unknown cpio magic".
End parse.

(** ** The opened archive *)
Record CpioReader (R : Type) := mkCpio { reader_ : R; entries_ : EntriesMap }.
Arguments mkCpio {R}. Arguments reader_ {R}. Arguments entries_ {R}.

Section cpio_reader.
Context {R : Type} `{ReaderSeeker R}.

Definition Open (reader : option R) : result (CpioReader R) :=
  match reader with
  | None => Err "Reader is null"
  | Some reader => let* entries := Parse reader in Ok (mkCpio reader entries)
  end.

Definition OpenReadOnly (c : CpioReader R) (path : bytes)
    : result (ReaderFakeSeeker (window R)) :=
  match entries_ c !! path with
  | None => Err "File not found in cpio"
  | Some e => Ok (ReadWindowView (reader_ c) (offset e) (size e))
  end.

Definition FileAttributes (c : CpioReader R) (path : bytes) : result Z :=
  match entries_ c !! path with
  | None => Err "File not found in cpio"
  | Some e => Ok (mode e)
  end.
End cpio_reader.


(** ** Alignment *)

(** The alignments the scanners use. *)
Lemma align4 v : 0 <= v < 2 ^ 63 + 2 ^ 40 ->
  AlignToPowerOf2 v 2 mod 4 = 0 /\ v <= AlignToPowerOf2 v 2 < v + 4.
Proof.
  intros. destruct (AlignToPowerOf2_spec v 2) as (q & -> & Hq); [lia..|].
  change (2 ^ 2) with 4 in *. split; [apply Z.mod_mul; lia|lia].
Qed.
Lemma align2 v : 0 <= v < 2 ^ 63 + 2 ^ 40 -> v <= AlignToPowerOf2 v 1 < v + 2.
Proof.
  intros. destruct (AlignToPowerOf2_spec v 1) as (q & -> & Hq); [lia..|].
  change (2 ^ 1) with 2 in *. lia.
Qed.

(** ** Numbers in headers *)
Lemma digit_value_range base c v : digit_value base c = Some v -> v < base.
Proof. unfold digit_value. case_match eqn:E; [|done]. intros [= <-]. lia. Qed.

Lemma digit_value_nonneg base c v : 0 <= base -> digit_value base c = Some v -> 0 <= v.
Proof.
  intros Hb. unfold digit_value. set (z := Z_of_byte c).
  repeat match goal with |- context [if ?b then _ else _] => destruct b eqn:? end;
    intros [= <-]; lia.
Qed.

Lemma digits_prefix_nonneg base l : 0 <= base -> Forall (Z.le 0) (digits_prefix base l).
Proof.
  intros Hb. induction l as [|c l IH]; simpl; [constructor|].
  destruct (digit_value base c) eqn:E; [|constructor].
  constructor; [by eapply digit_value_nonneg|done].
Qed.

Lemma digits_value_nonneg base ds : 0 <= base -> Forall (Z.le 0) ds -> 0 <= digits_value base ds.
Proof.
  intros Hb Hds. unfold digits_value. assert (0 <= 0) as H0 by lia. revert H0.
  generalize 0 at 2 4 as acc. induction Hds as [|d ds Hd _ IH]; intros acc Hacc; [done|].
  simpl. apply IH. nia.
Qed.

Lemma from_chars_u32_range base l v : 0 <= base -> from_chars_u32 base l = Some v -> is_u32 v.
Proof.
  intros Hb. unfold from_chars_u32. pose proof (digits_prefix_nonneg base l Hb) as Hn.
  destruct (digits_prefix base l) as [|d ds]; [done|].
  pose proof (digits_value_nonneg base (d :: ds) Hb Hn).
  destruct (_ <? _) eqn:E; [|done]. intros [= <-]. unfold is_u32. lia.
Qed.

Lemma ParseHex_range l v : ParseHex l = Ok v -> is_u32 v.
Proof.
  unfold ParseHex. destruct (from_chars_u32 16 l) eqn:E; [|done].
  intros [= <-]. by apply from_chars_u32_range in E.
Qed.
Lemma ParseOctal_range l v : ParseOctal l = Ok v -> is_u32 v.
Proof.
  unfold ParseOctal. destruct (from_chars_u32 8 l) eqn:E; [|done].
  intros [= <-]. by apply from_chars_u32_range in E.
Qed.

Lemma ReadUnaligned16_range l be : 0 <= ReadUnaligned16 l be < 2 ^ 16.
Proof.
  unfold ReadUnaligned16.
  set (p := if be then rev (ztake 2 l) else ztake 2 l).
  pose proof (le_value_range p) as [H1 H2].
  assert (zlen p <= 2). { unfold p. destruct be; unfold zlen; rewrite ?length_rev; fold (zlen (ztake 2 l)); zlen_lia. }
  assert (256 ^ zlen p <= 256 ^ 2) by (apply Z.pow_le_mono_r; lia). lia.
Qed.
Lemma ReadUnaligned32_range l be : 0 <= ReadUnaligned32 l be < 2 ^ 32.
Proof.
  unfold ReadUnaligned32.
  set (p := if be then rev (ztake 4 l) else ztake 4 l).
  pose proof (le_value_range p) as [H1 H2].
  assert (zlen p <= 4). { unfold p. destruct be; unfold zlen; rewrite ?length_rev; fold (zlen (ztake 4 l)); zlen_lia. }
  assert (256 ^ zlen p <= 256 ^ 4) by (apply Z.pow_le_mono_r; lia). lia.
Qed.

(** ** Termination *)
Definition kLimit : Z := 2 ^ 63 + 2 ^ 36.

Lemma scan_rule (it : Z -> EntriesMap -> result (Z * EntriesMap + EntriesMap)) (I : Z -> EntriesMap -> Prop) (Q : result EntriesMap -> Prop) :
  I 0 ∅ ->
  (forall off e, 0 <= off <= kLimit -> I off e ->
     match it off e with
     | Ok (inl (off', e')) => I off' e' /\ off < off' <= kLimit
     | Ok (inr e') => Q (Ok e')
     | fl => Q (fail_as fl)
     end) ->
  Q (scan it).
Proof.
  intros H0 Hstep. unfold scan.
  apply while_rule with (I := fun '(off, e) => 0 <= off <= kLimit /\ I off e)
    (m := fun '(off, e) => kLimit - off).
  - unfold kLimit. split; [lia|done].
  - unfold kLimit. lia.
  - intros [off e] [Hoff HI] _. specialize (Hstep off e Hoff HI).
    destruct (it off e) as [[[off' e']|e']| | |]; simpl in *; try done.
    destruct Hstep. split; [split; [lia|done]|lia].
Qed.

(** The outcome of one iteration: it moves forward, or reports an error. *)
Definition progress (off : Z) (r : result (Z * EntriesMap + EntriesMap)) : Prop :=
  match r with
  | Ok (inl (off', _)) => off < off' <= kLimit
  | Ok (inr _) | Err _ => True
  | Fatal _ | Fuel => False
  end.

Lemma scan_total (it : Z -> EntriesMap -> result (Z * EntriesMap + EntriesMap)) :
  (forall off e, 0 <= off <= kLimit -> progress off (it off e)) ->
  (exists e, scan it = Ok e) \/ (exists m, scan it = Err m).
Proof.
  intros Hp. apply scan_rule with (I := fun _ _ => True)
    (Q := fun t => (exists e, t = Ok e) \/ (exists m, t = Err m)); [done|].
  intros off e Hoff _. specialize (Hp off e Hoff).
  destruct (it off e) as [[[off' e']|e']| | |]; simpl in *; naive_solver.
Qed.

(** Operations that may fail but never crash. *)
Definition soft {A} (r : result A) : Prop :=
  match r with Ok _ | Err _ => True | Fatal _ | Fuel => False end.

Lemma progress_bind {A} off (r : result A) k :
  soft r -> (forall a, r = Ok a -> progress off (k a)) -> progress off (rbind r k).
Proof. destruct r; simpl; naive_solver. Qed.

Lemma soft_expect b m : soft (expect b m).
Proof. by destruct b. Qed.
Lemma soft_ParseHex l : soft (ParseHex l).
Proof. unfold ParseHex. by case_match. Qed.
Lemma soft_ParseOctal l : soft (ParseOctal l).
Proof. unfold ParseOctal. by case_match. Qed.
Lemma soft_string_ctor n : n <= InMemory.kMaxVector -> soft (string_ctor n).
Proof. intros. unfold string_ctor. by rewrite (proj2 (Z.leb_le _ _)). Qed.

Create HintDb cpio.
#[export] Hint Resolve soft_expect soft_ParseHex soft_ParseOctal soft_string_ctor : cpio.

Section total.
Context {R : Type} `{PReadLaws R} (r : R).
Hypothesis Hok : pread_ok r.
Hypothesis Hsize : zlen (contents r) < 2 ^ 63.

Lemma soft_PReadExact n off : is_u64 n -> is_u64 off -> soft (PReadExact r n off).
Proof. intros. rewrite PReadExact_spec by done. by case_match. Qed.

Lemma PReadExact_inside n off bs :
  is_u64 n -> is_u64 off -> 0 < n ->
  PReadExact r n off = Ok bs -> off + n <= zlen (contents r).
Proof.
  intros ?? Hn. rewrite PReadExact_spec by done. case_match eqn:E; [lia|done].
Qed.

(** The tail of an iteration, once the sizes are known. *)
Lemma progress_name off n o k :
  is_u64 n -> n <= InMemory.kMaxVector -> is_u64 o ->
  (forall name, progress off (k name)) ->
  progress off (let* _ := string_ctor n in let* name := PReadExact r n o in k name).
Proof.
  intros Hn Hmax Ho Hk. apply progress_bind; [auto with cpio|]. intros _ _.
  apply progress_bind; [by apply soft_PReadExact|]. auto.
Qed.

Lemma newc_progress off e :
  0 <= off <= kLimit -> progress off (newc_iteration r off e).
Proof.
  unfold kLimit. intros Hoff. unfold newc_iteration. cbv zeta.
  destruct (align4 off) as [_ Ha]; [lia|]. set (o := AlignToPowerOf2 off 2) in *.
  unfold newc_filename.
  apply progress_bind; [apply soft_PReadExact; unfold is_u64; lia|].
  intros header Hh%PReadExact_inside; try (unfold is_u64; lia).
  apply progress_bind; [auto with cpio|]. intros _ _.
  apply progress_bind; [auto with cpio|]. intros filesize Hf%ParseHex_range.
  apply progress_bind; [auto with cpio|]. intros namesize Hn%ParseHex_range.
  apply progress_bind; [auto with cpio|]. intros md _.
  pose proof (u32_range (namesize - 1)). unfold is_u32 in *.
  rewrite !(u64_id (o + _)) by (unfold is_u64; lia).
  rewrite !(u64_id (o + _ + _)) by (unfold is_u64; lia).
  apply progress_name; [unfold is_u64; lia|unfold InMemory.kMaxVector; lia|unfold is_u64; lia|].
  intros name. case_bool_decide; simpl; [done|].
  destruct (align4 (o + 110 + namesize)) as [_ Hd]; [lia|].
  rewrite u64_id by (unfold is_u64; lia). unfold kLimit. lia.
Qed.

Lemma odc_progress off e :
  0 <= off <= kLimit -> progress off (odc_iteration r off e).
Proof.
  unfold kLimit. intros Hoff. unfold odc_iteration. cbv zeta. unfold odc_filename.
  apply progress_bind; [apply soft_PReadExact; unfold is_u64; lia|].
  intros header Hh%PReadExact_inside; try (unfold is_u64; lia).
  apply progress_bind; [auto with cpio|]. intros _ _.
  apply progress_bind; [auto with cpio|]. intros md _.
  apply progress_bind; [auto with cpio|]. intros namesize Hn%ParseOctal_range.
  apply progress_bind; [auto with cpio|]. intros filesize Hf%ParseOctal_range.
  pose proof (u32_range (namesize - 1)). unfold is_u32 in *.
  rewrite !(u64_id (off + _)) by (unfold is_u64; lia).
  apply progress_name; [unfold is_u64; lia|unfold InMemory.kMaxVector; lia|unfold is_u64; lia|].
  intros name. case_bool_decide; simpl; [done|].
  rewrite (u64_id (off + 76 + namesize)) by (unfold is_u64; lia).
  rewrite u64_id by (unfold is_u64; lia). unfold kLimit. lia.
Qed.

(** A binary header whose name size is zero aborts the scan; all others make
    progress. *)
Lemma bin_progress be off e :
  0 <= off <= kLimit ->
  bin_iteration r be off e = Fatal "std::length_error" \/
  progress off (bin_iteration r be off e).
Proof.
  unfold kLimit. intros Hoff. unfold bin_iteration. cbv zeta. unfold bin_filename.
  destruct (PReadExact r 26 off) as [header|m|w|] eqn:Eh;
    [|right; done|exfalso..]; cycle 1.
  { assert (soft (PReadExact r 26 off)) by (apply soft_PReadExact; unfold is_u64; lia).
    by rewrite Eh in *. }
  { assert (soft (PReadExact r 26 off)) by (apply soft_PReadExact; unfold is_u64; lia).
    by rewrite Eh in *. }
  apply PReadExact_inside in Eh; try (unfold is_u64; lia).
  cbn [rbind]. set (magic_ok := bool_decide _).
  destruct magic_ok; [|right; done]. cbn [rbind expect].
  pose proof (ReadUnaligned16_range (zdrop bin_namesize header) be) as Hn.
  pose proof (ReadUnaligned32_range (zdrop bin_filesize header) be) as Hf.
  set (namesize := ReadUnaligned16 (zdrop bin_namesize header) be) in *.
  set (filesize := ReadUnaligned32 (zdrop bin_filesize header) be) in *.
  destruct (decide (namesize = 0)) as [->|Hnz].
  { left. reflexivity. }
  right. rewrite !(u64_id (namesize - 1)) by (unfold is_u64; lia).
  rewrite !(u64_id (off + _)) by (unfold is_u64; lia).
  apply progress_name; [unfold is_u64; lia|unfold InMemory.kMaxVector; lia|unfold is_u64; lia|].
  intros name. case_bool_decide; simpl; [done|].
  rewrite (u64_id (off + 26 + namesize)) by (unfold is_u64; lia).
  pose proof (align2 (off + 26 + namesize)).
  set (d := AlignToPowerOf2 (off + 26 + namesize) 1) in *.
  rewrite u64_id by (unfold is_u64; lia).
  pose proof (align2 (d + filesize)). unfold kLimit. lia.
Qed.
End total.

(** C39. [CpioReader::Parse] terminates on every input, however malformed, and
    a run that does not return a directory or an error can only be the
    binary format's uncaught [std::length_error]. *)
Theorem Parse_total {R} `{PReadLaws R} (r : R) :
  pread_ok r -> zlen (contents r) < 2 ^ 63 ->
  (exists e, Parse r = Ok e) \/ (exists m, Parse r = Err m) \/
  (Parse r = Fatal "std::length_error" /\
   ((ztake 2 (contents r) = kBinaryLeMagic) \/ ztake 2 (contents r) = kBinaryBeMagic)).
Proof.
  intros Hok Hsize.
  assert (Hbin : forall be, (exists e, ParseBin r be = Ok e) \/ (exists m, ParseBin r be = Err m) \/
                   ParseBin r be = Fatal "std::length_error").
  { intros be. unfold ParseBin.
    apply scan_rule with (I := fun _ _ => True)
      (Q := fun t => (exists e, t = Ok e) \/ (exists m, t = Err m) \/ t = Fatal "std::length_error");
      [done|]. intros off e Hoff _.
    destruct (bin_progress r Hok Hsize be off e Hoff) as [->|Hp]; [by right; right|].
    destruct (bin_iteration r be off e) as [[[off' e']|e']| | |]; simpl in *; naive_solver. }
  unfold Parse. rewrite PReadExact_spec by (done || (unfold is_u64; lia)).
  change (6 =? 0) with false. cbn [orb].
  destruct (0 + 6 <=? zlen (contents r)) eqn:E6; [|naive_solver]. cbn [rbind].
  assert (Hpre : forall p, zlen p = 2 -> p `prefix_of` zslice 0 6 (contents r) ->
                   ztake 2 (contents r) = p).
  { intros p Hp [k Hk]. unfold zslice in Hk. rewrite zdrop_0 in Hk by lia.
    apply (f_equal (ztake 2)) in Hk. rewrite ztake_ztake in Hk.
    change (2 `min` 6) with 2 in Hk. by rewrite Hk, ztake_app_le, ztake_all by lia. }
  assert (Hnewc : (exists e, ParseNewc r = Ok e) \/ (exists m, ParseNewc r = Err m))
    by (apply scan_total; intros; by apply newc_progress).
  assert (Hodc : (exists e, ParseOdc r = Ok e) \/ (exists m, ParseOdc r = Err m))
    by (apply scan_total; intros; by apply odc_progress).
  repeat case_bool_decide; cbn [orb].
  all: try (destruct Hnewc as [[? ->]|[? ->]]; by eauto).
  all: try (destruct Hodc as [[? ->]|[? ->]]; by eauto).
  all: try (destruct (Hbin true) as [[? ->]|[[? ->]| ->]]; by eauto 8).
  all: try (destruct (Hbin false) as [[? ->]|[[? ->]| ->]]; by eauto 8).
  eauto.
Qed.

Lemma Parse_total_witness :
  (exists e, Parse (InMemory.InMemoryIo_of (str "garbage")) = Ok e) \/
  (exists m, Parse (InMemory.InMemoryIo_of (str "garbage")) = Err m) \/
  (Parse (InMemory.InMemoryIo_of (str "garbage")) = Fatal "std::length_error" /\
   (ztake 2 (contents (InMemory.InMemoryIo_of (str "garbage"))) = kBinaryLeMagic \/
    ztake 2 (contents (InMemory.InMemoryIo_of (str "garbage"))) = kBinaryBeMagic)).
Proof.
  apply (Parse_total (InMemory.InMemoryIo_of (str "garbage"))).
  - unfold pread_ok; simpl. unfold InMemory.wf, zlen, InMemory.kMaxVector; simpl; lia.
  - unfold zlen; simpl; lia.
Defined.

(** ** The SVR4 format, written by an encoder *)
Definition hex_digit (d : Z) : ascii := byte_of_Z (if d <? 10 then 48 + d else 87 + d).
Fixpoint hexn (n : nat) (z : Z) : bytes :=
  match n with
  | O => []
  | S n' => hexn n' (z / 16) ++ [hex_digit (z mod 16)]
  end.

(** A member and the header fields [Parse] ignores, as raw bytes. *)
Record member := mkMember {
  m_name : bytes; m_mode : Z; m_data : bytes;
  m_ino : bytes; m_owner : bytes; m_dev : bytes; m_chksum : bytes
}.

Definition pad4 (n : Z) : bytes := replicate (Z.to_nat ((- n) mod 4)) zero.

Definition encode_header (m : member) : bytes :=
  kMagicNewc1 ++ m_ino m ++ hexn 8 (m_mode m) ++ m_owner m ++ hexn 8 (zlen (m_data m)) ++
  m_dev m ++ hexn 8 (zlen (m_name m) + 1) ++ m_chksum m.

Definition encode_member (m : member) : bytes :=
  encode_header m ++ (m_name m ++ [zero]) ++ pad4 (newc_filename + zlen (m_name m) + 1) ++
  m_data m ++ pad4 (zlen (m_data m)).

Definition trailer : member :=
  mkMember kTrailerName 0 [] (hexn 8 0) (hexn 32 0) (hexn 32 0) (hexn 8 0).

Definition encode (ms : list member) : bytes :=
  List.concat (encode_member <$> ms) ++ encode_member trailer.

Definition fields_ok (m : member) : Prop :=
  is_u32 (m_mode m) /\ zlen (m_data m) < 2 ^ 32 /\ zlen (m_name m) + 1 < 2 ^ 32 /\
  zlen (m_ino m) = 8 /\ zlen (m_owner m) = 32 /\ zlen (m_dev m) = 32 /\ zlen (m_chksum m) = 8.
Definition member_ok (m : member) : Prop := fields_ok m /\ m_name m <> kTrailerName.

(** The directory an archive should have: the first member of each name. *)
Definition member_entry (pos : Z) (m : member) : FileEntry :=
  mkEntry (pos + newc_filename + zlen (m_name m) + 1 +
           zlen (pad4 (newc_filename + zlen (m_name m) + 1)))
          (zlen (m_data m)) (m_mode m).
Fixpoint directory (pos : Z) (ms : list member) (e : EntriesMap) : EntriesMap :=
  match ms with
  | [] => e
  | m :: ms' => directory (pos + zlen (encode_member m)) ms'
                  (emplace (m_name m) (member_entry pos m) e)
  end.

Lemma zlen_hexn n z : zlen (hexn n z) = Z.of_nat n.
Proof.
  revert z. induction n as [|n IH]; intros z; [done|]. cbn [hexn].
  rewrite zlen_app, IH. change (zlen [_]) with 1. lia.
Qed.

Lemma digit_value_hex d : 0 <= d < 16 -> digit_value 16 (hex_digit d) = Some d.
Proof.
  intros Hd. assert (d ∈ seqZ 0 16) as Hin by (apply elem_of_seqZ; lia).
  clear Hd. revert d Hin. apply Forall_forall. repeat (constructor; [reflexivity|]). constructor.
Qed.

Lemma digits_prefix_snoc base l c d :
  length (digits_prefix base l) = length l -> digit_value base c = Some d ->
  digits_prefix base (l ++ [c]) = digits_prefix base l ++ [d].
Proof.
  intros Hl Hc. induction l as [|x l IH]; simpl in *; [by rewrite Hc|].
  destruct (digit_value base x); [|done]. simpl in *. by rewrite IH by lia.
Qed.

Lemma hexn_digits n z :
  0 <= z < 16 ^ Z.of_nat n ->
  length (digits_prefix 16 (hexn n z)) = length (hexn n z) /\
  digits_value 16 (digits_prefix 16 (hexn n z)) = z.
Proof.
  revert z. induction n as [|n IH]; intros z Hz; [simpl in *; split; [done|unfold digits_value; simpl; lia]|].
  cbn [hexn]. rewrite Nat2Z.inj_succ, Z.pow_succ_r in Hz by lia.
  destruct (IH (z / 16)) as [IH1 IH2].
  { split; [apply Z.div_pos; lia|apply Z.div_lt_upper_bound; lia]. }
  rewrite (digits_prefix_snoc 16 _ _ (z mod 16)); [|done|apply digit_value_hex, Z.mod_pos_bound; lia].
  rewrite !length_app, IH1. split; [done|].
  unfold digits_value in *. rewrite foldl_app, IH2. simpl.
  pose proof (Z.div_mod z 16). lia.
Qed.

Lemma ParseHex_hexn z : is_u32 z -> ParseHex (hexn 8 z) = Ok z.
Proof.
  unfold is_u32. intros Hz. destruct (hexn_digits 8 z) as [H1 H2]; [simpl; lia|].
  unfold ParseHex, from_chars_u32.
  pose proof (zlen_hexn 8 z) as Hl. unfold zlen in Hl.
  destruct (digits_prefix 16 (hexn 8 z)); [simpl in *; lia|].
  rewrite H2, (proj2 (Z.ltb_lt _ _)) by lia. done.
Qed.

Lemma trailer_ok : fields_ok trailer.
Proof. unfold fields_ok, is_u32, zlen. vm_compute. intuition discriminate. Qed.

Lemma zlen_pad4 n : zlen (pad4 n) = (- n) mod 4.
Proof. unfold pad4. rewrite zlen_replicate. pose proof (Z.mod_pos_bound (- n) 4). lia. Qed.

Lemma zlen_encode_header m : fields_ok m -> zlen (encode_header m) = newc_filename.
Proof.
  intros (_ & _ & _ & H1 & H2 & H3 & H4). unfold encode_header.
  rewrite !zlen_app, !zlen_hexn, H1, H2, H3, H4. done.
Qed.

Lemma align4_pad n : 0 <= n < 2 ^ 63 + 2 ^ 40 -> AlignToPowerOf2 n 2 = n + (- n) mod 4.
Proof.
  intros Hn. destruct (align4 n Hn) as [Hm Hb].
  pose proof (Z.div_mod (AlignToPowerOf2 n 2) 4). pose proof (Z.div_mod (- n) 4).
  pose proof (Z.mod_pos_bound (- n) 4). lia.
Qed.

(** The fields of a header. *)
Lemma field_mid l1 l2 l3 f : f = (zlen l1, zlen l2) -> field (l1 ++ l2 ++ l3) f = l2.
Proof. intros ->. apply zslice_mid. Qed.

Lemma header_fields m :
  fields_ok m ->
  ztake 6 (encode_header m) = kMagicNewc1 /\
  field (encode_header m) newc_mode = hexn 8 (m_mode m) /\
  field (encode_header m) newc_filesize = hexn 8 (zlen (m_data m)) /\
  field (encode_header m) newc_namesize = hexn 8 (zlen (m_name m) + 1).
Proof.
  intros (_ & _ & _ & H1 & H2 & H3 & H4). unfold encode_header. split_and!.
  - by rewrite ztake_app_le, ztake_all by done.
  - rewrite (app_assoc kMagicNewc1). apply field_mid.
    rewrite !zlen_app, !zlen_hexn, H1. done.
  - rewrite (app_assoc kMagicNewc1), (app_assoc (_ ++ _)), (app_assoc (_ ++ _)).
    apply field_mid. rewrite !zlen_app, !zlen_hexn, H1, H2. done.
  - rewrite (app_assoc kMagicNewc1), (app_assoc (_ ++ _)), (app_assoc (_ ++ _)), (app_assoc (_ ++ _)),
      (app_assoc (_ ++ _)).
    apply field_mid. rewrite !zlen_app, !zlen_hexn, H1, H2, H3. done.
Qed.

Section newc.
Context {R : Type} `{PReadLaws R} (r : R).
Hypothesis Hok : pread_ok r.
Hypothesis Hsize : zlen (contents r) < 2 ^ 63.

Lemma PReadExact_mid l1 l2 l3 n off :
  contents r = l1 ++ l2 ++ l3 -> off = zlen l1 -> n = zlen l2 -> PReadExact r n off = Ok l2.
Proof.
  intros Hc -> ->. pose proof (zlen_nonneg l1). pose proof (zlen_nonneg l2).
  pose proof (zlen_nonneg l3). rewrite Hc, !zlen_app in Hsize.
  rewrite PReadExact_spec by (done || (unfold is_u64; lia)).
  rewrite Hc, zslice_mid, !zlen_app, (proj2 (Z.leb_le _ _)) by lia. by rewrite orb_true_r.
Qed.

(** One iteration on an encoded member. *)
Lemma newc_iteration_member pre m rest off e :
  contents r = pre ++ encode_member m ++ rest -> fields_ok m ->
  0 <= off -> AlignToPowerOf2 off 2 = zlen pre -> zlen pre mod 4 = 0 ->
  newc_iteration r off e =
  if bool_decide (m_name m = kTrailerName) then Ok (inr e)
  else Ok (inl (offset (member_entry (zlen pre) m) + zlen (m_data m),
                emplace (m_name m) (member_entry (zlen pre) m) e)).
Proof.
  intros Hc Hm Hoff Ha Hpre. destruct (header_fields m Hm) as (F0 & F1 & F2 & F3).
  pose proof (zlen_encode_header m Hm) as Hh. pose proof Hm as (M1 & M2 & M3 & _).
  unfold newc_filename, is_u32 in *.
  pose proof (zlen_nonneg pre). pose proof (zlen_nonneg (m_name m)).
  pose proof (zlen_nonneg (m_data m)). pose proof (zlen_nonneg rest).
  assert (Hlen : zlen pre + 110 + zlen (m_name m) + 1 <= zlen (contents r)).
  { rewrite Hc. unfold encode_member. autorewrite with zlist. rewrite Hh.
    pose proof (zlen_nonneg (pad4 (zlen (m_data m)))). unfold newc_filename. zlen_lia. }
  unfold newc_iteration. cbv zeta. rewrite Ha. unfold newc_filename.
  rewrite (PReadExact_mid pre (encode_header m)
    ((m_name m ++ [zero]) ++ pad4 (110 + zlen (m_name m) + 1) ++
     m_data m ++ pad4 (zlen (m_data m)) ++ rest));
    [|rewrite Hc; unfold encode_member, newc_filename; by rewrite <- !app_assoc|done|done].
  cbn [rbind]. rewrite F0, bool_decide_true by done. cbn [orb expect rbind].
  rewrite F1, F2, F3, !ParseHex_hexn by (unfold is_u32; lia). cbn [rbind].
  rewrite Z.add_simpl_r, u32_id by (unfold is_u32; lia).
  unfold string_ctor. rewrite (proj2 (Z.leb_le _ _)) by (unfold InMemory.kMaxVector; lia).
  cbn [rbind check]. rewrite (u64_id (zlen pre + 110)) by (unfold is_u64; lia).
  rewrite (PReadExact_mid (pre ++ encode_header m) (m_name m)
    ([zero] ++ pad4 (110 + zlen (m_name m) + 1) ++ m_data m ++ pad4 (zlen (m_data m)) ++ rest));
    [|rewrite Hc; unfold encode_member, newc_filename; by rewrite <- !app_assoc
     |rewrite zlen_app; lia|done].
  cbn [rbind]. case_bool_decide; [done|].
  rewrite (u64_id (zlen pre + 110 + _)) by (unfold is_u64; lia). rewrite align4_pad by lia.
  unfold member_entry. cbn [offset]. rewrite zlen_pad4. unfold newc_filename.
  replace ((- (zlen pre + 110 + (zlen (m_name m) + 1))) mod 4)
    with ((- (110 + zlen (m_name m) + 1)) mod 4).
  2: { pose proof (Z.div_mod (zlen pre) 4).
       replace (- (zlen pre + 110 + (zlen (m_name m) + 1)))
         with (- (110 + zlen (m_name m) + 1) + (- (zlen pre / 4)) * 4) by lia.
       by rewrite Z.mod_add by lia. }
  pose proof (Z.mod_pos_bound (- (110 + zlen (m_name m) + 1)) 4).
  rewrite u64_id by (unfold is_u64; lia). rewrite !Z.add_assoc. done.
Qed.

Lemma zlen_encode_member m :
  fields_ok m ->
  zlen (encode_member m) =
    offset (member_entry 0 m) + zlen (m_data m) + zlen (pad4 (zlen (m_data m))) /\
  zlen (encode_member m) mod 4 = 0.
Proof.
  intros Hm. pose proof (zlen_encode_header m Hm) as Hh. unfold encode_member, member_entry.
  cbn [offset]. autorewrite with zlist. rewrite Hh, !zlen_pad4. unfold newc_filename.
  split; [lia|].
  pose proof (Z.div_mod (- (110 + zlen (m_name m) + 1)) 4).
  pose proof (Z.div_mod (- zlen (m_data m)) 4).
  apply Z.mod_divide; [lia|].
  exists (- (- (110 + zlen (m_name m) + 1) / 4) - (- zlen (m_data m) / 4)). lia.
Qed.

Lemma directory_snoc pos ms m e :
  directory pos (ms ++ [m]) e =
  emplace (m_name m) (member_entry (pos + zlen (List.concat (encode_member <$> ms))) m)
    (directory pos ms e).
Proof.
  revert pos e. induction ms as [|m' ms IH]; intros pos e.
  - simpl. by rewrite zlen_nil, Z.add_0_r.
  - rewrite fmap_cons. cbn [app directory List.concat].
    rewrite IH, zlen_app. by rewrite Z.add_assoc.
Qed.

(** Aligning the end of a member's data gives the start of the next member. *)
Lemma align_after_member pos m :
  fields_ok m -> 0 <= pos -> pos mod 4 = 0 -> pos + zlen (encode_member m) < kLimit ->
  let next := offset (member_entry pos m) + zlen (m_data m) in
  pos < next <= pos + zlen (encode_member m) /\
  AlignToPowerOf2 next 2 = pos + zlen (encode_member m).
Proof.
  intros Hm Hpos Hmod Hb. destruct (zlen_encode_member m Hm) as [Hl _].
  unfold kLimit, member_entry, newc_filename in *. cbn [offset] in *.
  rewrite !zlen_pad4 in *. rewrite Hl in *. cbv zeta.
  pose proof (Z.mod_pos_bound (- zlen (m_data m)) 4).
  pose proof (Z.mod_pos_bound (- (110 + zlen (m_name m) + 1)) 4).
  pose proof (zlen_nonneg (m_data m)). pose proof (zlen_nonneg (m_name m)).
  split; [lia|]. rewrite align4_pad by lia.
  set (d := (- (110 + zlen (m_name m) + 1)) mod 4) in *.
  assert ((- (pos + 110 + zlen (m_name m) + 1 + d + zlen (m_data m))) mod 4
          = (- zlen (m_data m)) mod 4) as ->; [|lia].
  pose proof (Z.div_mod pos 4).
  pose proof (Z.div_mod (- (110 + zlen (m_name m) + 1)) 4) as Hdiv. fold d in Hdiv.
  replace (- (pos + 110 + zlen (m_name m) + 1 + d + zlen (m_data m)))
    with (- zlen (m_data m) + (- (pos / 4) + - (110 + zlen (m_name m) + 1) / 4) * 4) by lia.
  by rewrite Z.mod_add by lia.
Qed.

Lemma ParseNewc_encode ms junk :
  contents r = encode ms ++ junk -> Forall member_ok ms ->
  ParseNewc r = Ok (directory 0 ms ∅).
Proof.
  intros Hc Hms. unfold ParseNewc.
  apply scan_rule with (I := fun off e => exists done todo, ms = done ++ todo /\
    AlignToPowerOf2 off 2 = zlen (List.concat (encode_member <$> done)) /\
    zlen (List.concat (encode_member <$> done)) mod 4 = 0 /\
    e = directory 0 done ∅).
  { exists [], ms. split_and!; reflexivity. }
  intros off e Hoff (dn & todo & Hsplit & Ha & Hmod & ->). destruct todo as [|m todo].
  - rewrite app_nil_r in Hsplit. subst ms.
    unfold encode in Hc. rewrite <- app_assoc in Hc.
    rewrite (newc_iteration_member _ trailer _ _ _ Hc trailer_ok) by (lia || assumption).
    rewrite bool_decide_true by done. reflexivity.
  - assert (member_ok m) as [Hm Hname].
    { rewrite Forall_forall in Hms. apply Hms. rewrite Hsplit. apply elem_of_app. right. left. }
    assert (Hc' := Hc). rewrite Hsplit in Hc'. unfold encode in Hc'.
    rewrite fmap_app, concat_app, fmap_cons in Hc'. cbn [List.concat] in Hc'.
    rewrite <- !app_assoc in Hc'.
    rewrite (newc_iteration_member _ m _ _ _ Hc' Hm) by (lia || assumption).
    rewrite bool_decide_false by done.
    set (pre := List.concat (encode_member <$> dn)) in *.
    assert (Hbound : zlen pre + zlen (encode_member m) <= zlen (contents r)).
    { rewrite Hc'. zlen_lia. }
    destruct (zlen_encode_member m Hm) as [_ Hl4].
    destruct (align_after_member (zlen pre) m Hm) as [Hnext Halign];
      [apply zlen_nonneg|done|unfold kLimit; lia|].
    pose proof (align4 off) as Hal. unfold kLimit in *.
    split; [|lia]. exists (dn ++ [m]), todo.
    assert (Hpre' : zlen (List.concat (encode_member <$> dn ++ [m]))
                    = zlen pre + zlen (encode_member m)).
    { rewrite fmap_app, concat_app. cbn [fmap list_fmap List.concat].
      fold pre. by rewrite zlen_app, app_nil_r. }
    rewrite Hpre'. split_and!.
    + rewrite Hsplit. by rewrite <- app_assoc.
    + done.
    + rewrite Zplus_mod, Hmod, Hl4. done.
    + by rewrite directory_snoc, Z.add_0_l.
Qed.
End newc.

(** ** Looking the members up *)
Lemma lookup_emplace (n : bytes) (x : FileEntry) (e : EntriesMap) (k : bytes) :
  emplace n x e !! k =
  match e !! k with Some y => Some y | None => if decide (n = k) then Some x else None end.
Proof.
  unfold emplace. destruct (e !! n) eqn:En.
  - destruct (e !! k) eqn:Ek; [done|]. rewrite decide_False by congruence. done.
  - rewrite lookup_insert. destruct (decide (n = k)) as [->|]; [by rewrite En|].
    by destruct (e !! k).
Qed.

Lemma directory_absent pos ms (e : EntriesMap) k :
  k ∉ m_name <$> ms -> directory pos ms e !! k = e !! k.
Proof.
  revert pos e. induction ms as [|m ms IH]; intros pos e Hk; [done|].
  rewrite fmap_cons, not_elem_of_cons in Hk. destruct Hk as [Hne Hk].
  cbn [directory]. rewrite IH, lookup_emplace by done.
  rewrite decide_False by congruence. by destruct (e !! k).
Qed.

Lemma directory_keeps pos ms (e : EntriesMap) k x : e !! k = Some x -> directory pos ms e !! k = Some x.
Proof.
  revert pos e. induction ms as [|m ms IH]; intros pos e Hk; [done|].
  cbn [directory]. apply IH. by rewrite lookup_emplace, Hk.
Qed.

Lemma directory_first a m b :
  m_name m ∉ m_name <$> a ->
  directory 0 (a ++ m :: b) ∅ !! m_name m =
  Some (member_entry (zlen (List.concat (encode_member <$> a))) m).
Proof.
  intros Hm. assert (forall pos ms1 ms2 e, directory pos (ms1 ++ ms2) e =
    directory (pos + zlen (List.concat (encode_member <$> ms1))) ms2 (directory pos ms1 e)) as Happ.
  { intros pos ms1. revert pos. induction ms1 as [|m1 ms1 IH]; intros pos ms2 e.
    - simpl. by rewrite zlen_nil, Z.add_0_r.
    - rewrite fmap_cons. cbn [app directory List.concat]. by rewrite IH, zlen_app, Z.add_assoc. }
  rewrite Happ. cbn [directory]. apply directory_keeps.
  rewrite lookup_emplace, directory_absent, lookup_empty by done.
  by rewrite decide_True, Z.add_0_l.
Qed.

Lemma Parse_newc {R} `{PReadLaws R} (r : R) ms junk :
  pread_ok r -> zlen (contents r) < 2 ^ 63 ->
  contents r = encode ms ++ junk -> Forall member_ok ms ->
  Parse r = Ok (directory 0 ms ∅).
Proof.
  intros Hok Hsize Hc Hms. unfold Parse.
  assert (exists tl, contents r = kMagicNewc1 ++ tl) as [tl Htl].
  { rewrite Hc. unfold encode. destruct ms as [|m ms];
      [exists (zdrop 6 (encode_member trailer) ++ junk); reflexivity|].
    rewrite fmap_cons. cbn [List.concat]. unfold encode_member at 1, encode_header.
    eexists. rewrite <- !app_assoc. reflexivity. }
  rewrite (PReadExact_mid r Hok Hsize [] kMagicNewc1 tl) by done.
  cbn [rbind]. rewrite bool_decide_false, bool_decide_false;
    [|by intros [k Hk]|by intros [k Hk]].
  rewrite bool_decide_true by done. cbn [orb].
  by apply (ParseNewc_encode r Hok Hsize ms junk).
Qed.

(** C6. Round trip of the SVR4 format: opening what an encoder wrote (followed
    by any padding) gives a reader in which every file, by the first member of
    its name, has its mode and reads back its data, and in which no other path
    can be opened. *)
Theorem newc_roundtrip {R} `{PReadLaws R} (r : R) ms junk :
  pread_ok r -> zlen (contents r) < 2 ^ 63 ->
  contents r = encode ms ++ junk -> Forall member_ok ms ->
  exists c, Open (Some r) = Ok c /\
    (forall a m b, ms = a ++ m :: b -> m_name m ∉ m_name <$> a ->
       FileAttributes c (m_name m) = Ok (m_mode m) /\
       exists f, OpenReadOnly c (m_name m) = Ok f /\ zlen (m_data m) = length_ f /\
         PReadExact f (length_ f) 0 = Ok (m_data m)) /\
    (forall path, path ∉ m_name <$> ms ->
       OpenReadOnly c path = Err "File not found in cpio" /\
       FileAttributes c path = Err "File not found in cpio").
Proof.
  intros Hok Hsize Hc Hms. unfold Open. rewrite (Parse_newc r ms junk) by done.
  eexists. split; [done|]. unfold FileAttributes, OpenReadOnly. cbn [entries_ reader_]. split.
  - intros a m b -> Hm. rewrite directory_first by done. split; [done|].
    eexists. split; [done|]. split; [done|]. cbn [length_ ReadWindowView size member_entry].
    assert (member_ok m) as [Hf _].
    { rewrite Forall_forall in Hms. apply Hms, elem_of_app. right. left. }
    pose proof (zlen_encode_header m Hf) as Hh. destruct Hf as (_ & Hd & _).
    unfold encode in Hc. rewrite fmap_app, concat_app, fmap_cons in Hc. cbn [List.concat] in Hc.
    unfold encode_member at 2 in Hc.
    set (pre := List.concat (encode_member <$> a)) in *.
    set (l1 := pre ++ encode_header m ++ (m_name m ++ [zero]) ++
               pad4 (newc_filename + zlen (m_name m) + 1)).
    assert (exists l3, contents r = l1 ++ m_data m ++ l3) as [l3 Hc'].
    { rewrite Hc. unfold l1. eexists. rewrite <- !app_assoc. reflexivity. }
    assert (zlen l1 = offset (member_entry (zlen pre) m)) as Hl1.
    { unfold l1, member_entry. cbn [offset]. rewrite !zlen_app, Hh.
      change (zlen [zero]) with 1. lia. }
    pose proof (zlen_nonneg (m_data m)). pose proof (zlen_nonneg l1). pose proof (zlen_nonneg l3).
    rewrite window_read_exact; [|done|lia|lia|rewrite Hc', !zlen_app; lia|done|unfold is_u64; lia..].
    rewrite Z.add_0_l, Z.leb_refl, orb_true_r, Z.add_0_r, <- Hl1, Hc'. by rewrite zslice_mid.
  - intros path Hp. by rewrite directory_absent, lookup_empty.
Qed.

Definition sample_members : list member :=
  [mkMember (str "init") 33261 (str "#!/bin/sh") (hexn 8 1) (hexn 32 0) (hexn 32 0) (hexn 8 0);
   mkMember (str "etc/rc") 33188 [] (hexn 8 2) (hexn 32 0) (hexn 32 0) (hexn 8 0)].

Lemma newc_roundtrip_witness :
  exists c, Open (Some (InMemory.InMemoryIo_of (encode sample_members ++ str "pad"))) = Ok c /\
    FileAttributes c (str "init") = Ok 33261.
Proof.
  destruct (newc_roundtrip (InMemory.InMemoryIo_of (encode sample_members ++ str "pad"))
              sample_members (str "pad")) as (c & H1 & H2 & _).
  - vm_compute. intuition discriminate.
  - vm_compute. reflexivity.
  - reflexivity.
  - repeat constructor; try (vm_compute; intuition discriminate).
  - exists c. split; [exact H1|]. apply (H2 [] _ _ eq_refl), not_elem_of_nil.
Defined.

(** A binary ("bin") archive whose first header has a zero name size crashes
    the process: [namesize - 1] is computed as an int and converted to a size
    no string can have. *)
Theorem ParseBin_zero_namesize {R} `{PReadLaws R} (r : R) fields filesize rest :
  pread_ok r -> zlen (contents r) < 2 ^ 63 -> zlen fields = 18 -> zlen filesize = 4 ->
  contents r = kBinaryLeMagic ++ fields ++ [zero; zero] ++ filesize ++ rest ->
  Parse r = Fatal "std::length_error".
Proof.
  intros Hok Hsize Hf Hs Hc. unfold Parse.
  rewrite PReadExact_spec by (done || (unfold is_u64; lia)).
  assert (26 <= zlen (contents r)) as Hlen.
  { rewrite Hc, !zlen_app, Hf, Hs. change (zlen kBinaryLeMagic) with 2.
    change (zlen [zero; zero]) with 2. pose proof (zlen_nonneg rest). lia. }
  rewrite (proj2 (Z.leb_le _ _)), orb_true_r by lia. cbn [rbind].
  rewrite bool_decide_true.
  2: { rewrite Hc. eexists. unfold zslice. rewrite zdrop_0, ztake_app by lia.
       rewrite (ztake_all _ kBinaryLeMagic) by done. reflexivity. }
  unfold ParseBin. apply scan_rule with (I := fun off _ => off = 0); [done|].
  intros off e _ ->. unfold bin_iteration. cbv zeta.
  rewrite (PReadExact_mid r Hok Hsize [] (kBinaryLeMagic ++ fields ++ [zero; zero] ++ filesize) rest);
    [|rewrite Hc; simpl; by rewrite <- !app_assoc|done
     |rewrite !zlen_app, Hf, Hs; done].
  cbn [rbind]. rewrite ztake_app_le, ztake_all, bool_decide_true by done. cbn [rbind expect].
  assert (ReadUnaligned16 (zdrop bin_namesize
            (kBinaryLeMagic ++ fields ++ [zero; zero] ++ filesize)) false = 0) as ->; [|done].
  rewrite app_assoc, zdrop_app_ge by (rewrite zlen_app, Hf; done).
  rewrite zlen_app, Hf. change (bin_namesize - _) with 0.
  rewrite zdrop_0 by lia. unfold ReadUnaligned16. by rewrite ztake_app_le by done.
Qed.

Lemma ParseBin_zero_namesize_witness :
  Parse (InMemory.InMemoryIo_of
    (kBinaryLeMagic ++ replicate 18 zero ++ [zero; zero] ++ replicate 4 zero ++ str "x"))
  = Fatal "std::length_error".
Proof.
  apply (ParseBin_zero_namesize (InMemory.InMemoryIo_of
    (kBinaryLeMagic ++ replicate 18 zero ++ [zero; zero] ++ replicate 4 zero ++ str "x"))
    (replicate 18 zero) (replicate 4 zero) (str "x")); try reflexivity.
  vm_compute. intuition discriminate.
Defined.
End Cpio.
