(* ===== verification/Flags.v ===== *)
(** * Command-line flags (flag_parser/flag.cpp, flag_parser/flag.h)

    A flag's callbacks act on the variables of the program that declared it:
    they are operations on a store [S].  [ConsumeFlags] matches a vector of
    arguments against the flags and compacts the vector in place while it
    iterates; the model keeps the vector, the two iterators and the moved-from
    strings, and the theorems relate it to a pass over a list. *)
From S2P Require Import Prelude CppString.

Module Flags.
Import CppString.

Inductive Style := Style_String | Style_Bool.
#[global] Instance Style_eq_dec : EqDecision Style.
Proof. solve_decision. Defined.

Record Flag (S : Type) := mkFlag {
  aliases_ : list bytes;
  style_ : Style;
  help_ : bytes;
  value_name_hint_ : bytes;
  getter_ : S -> bytes;
  setter_ : bytes -> M S unit;
  validators_ : list (M S unit)
}.
Arguments mkFlag {S}. Arguments aliases_ {S}. Arguments style_ {S}. Arguments help_ {S}.
Arguments value_name_hint_ {S}. Arguments getter_ {S}. Arguments setter_ {S}.
Arguments validators_ {S}.

Record ConsumeFlagsOpts := mkOpts {
  stop_at_double_dashes : bool;
  fail_on_unexpected_argument : bool
}.

Definition dash : ascii := "-"%char.
Definition underscore : ascii := "_"%char.

Section flags.
Context `{Absl} {S : Type}.
Implicit Types (flag : Flag S) (s : S) (args : list bytes).

Definition ConsumeDashes (flag_arg : bytes) : bytes * bool :=
  let '(rest, found) := ConsumePrefix flag_arg [dash] in
  if found then ((ConsumePrefix rest [dash]).1, true) else (rest, false).

Definition MatchNormalized (str1 str2 : bytes) : bool :=
  let n1 := StrReplaceAll str1 [(dash, [underscore])] in
  let n2 := StrReplaceAll str2 [(dash, [underscore])] in
  bool_decide (n1 = n2).

Definition DefaultValueNameHint (name : bytes) : bytes :=
  match last (StrSplitAnySkipEmpty name [dash; underscore]) with
  | None => str "VAL"
  | Some part => AsciiStrToUpper part
  end.

(** ** Building a flag *)
Definition ValidateAlias (aliases : list bytes) (alias : bytes) : result unit :=
  let* _ := check (negb (starts_with [dash] alias)) "Flag aliases should not start with -" in
  check (negb (bool_decide (alias ∈ aliases))) "Duplicate flag alias".

(** The constructor; an empty [std::function] throws when it is called. *)
Definition Flag_ (name : bytes) (style : Style) : result (Flag S) :=
  let* _ := ValidateAlias [] name in
  Ok (mkFlag [name] style [] (DefaultValueNameHint name) (fun _ => [])
        (fun _ => lift (Fatal "std::bad_function_call")) []).
Definition StringFlag (name : bytes) : result (Flag S) := Flag_ name Style_String.
Definition BoolFlag (name : bytes) : result (Flag S) := Flag_ name Style_Bool.

Definition Alias (alias : bytes) flag : result (Flag S) :=
  let* _ := ValidateAlias (aliases_ flag) alias in
  Ok (mkFlag (aliases_ flag ++ [alias]) (style_ flag) (help_ flag) (value_name_hint_ flag)
        (getter_ flag) (setter_ flag) (validators_ flag)).
Definition Help (help : bytes) flag : Flag S :=
  mkFlag (aliases_ flag) (style_ flag) help (value_name_hint_ flag)
    (getter_ flag) (setter_ flag) (validators_ flag).
Definition ValueNameHint (hint : bytes) flag : Flag S :=
  mkFlag (aliases_ flag) (style_ flag) (help_ flag) hint
    (getter_ flag) (setter_ flag) (validators_ flag).
Definition Getter (getter : S -> bytes) flag : Flag S :=
  mkFlag (aliases_ flag) (style_ flag) (help_ flag) (value_name_hint_ flag)
    getter (setter_ flag) (validators_ flag).
Definition Setter (setter : bytes -> M S unit) flag : Flag S :=
  mkFlag (aliases_ flag) (style_ flag) (help_ flag) (value_name_hint_ flag)
    (getter_ flag) setter (validators_ flag).
Definition AddValidator (validator : M S unit) flag : Flag S :=
  mkFlag (aliases_ flag) (style_ flag) (help_ flag) (value_name_hint_ flag)
    (getter_ flag) (setter_ flag) (validators_ flag ++ [validator]).

Definition Name flag : option bytes := head (aliases_ flag).

Definition Synopsis flag : bytes :=
  StrJoin ((fun alias => match style_ flag with
                         | Style_String => str "--" ++ alias ++ str "=" ++ value_name_hint_ flag
                         | Style_Bool => str "--[no]" ++ alias
                         end) <$> aliases_ flag) (str ", ").

(** ** Matching one argument *)
Fixpoint run_validators (vs : list (M S unit)) : M S unit :=
  match vs with
  | [] => mret tt
  | v :: vs => let! _ := v in run_validators vs
  end.

Definition SetAndValidate flag (value : bytes) : M S unit :=
  let! _ := setter_ flag value in run_validators (validators_ flag).

(** [string_view::substr(pos)] throws beyond the end. *)
Definition substr_from (pos : Z) (v : bytes) : result bytes :=
  if zlen v <? pos then Fatal "std::out_of_range" else Ok (zdrop pos v).

Definition matches_assignment (current_arg alias : bytes) : bool :=
  MatchNormalized (ztake (zlen alias + 1) current_arg) (alias ++ str "=").

(** The first loop of [MatchStringStyleFlag]: [--alias=value]. *)
Fixpoint match_assignment flag (current_arg : bytes) (aliases : list bytes) : M S (option Z) :=
  match aliases with
  | [] => mret None
  | alias :: aliases =>
      if matches_assignment current_arg alias then
        let! value := lift (substr_from (zlen alias + 1) current_arg) in
        let! _ := SetAndValidate flag value in mret (Some 1)
      else match_assignment flag current_arg aliases
  end.

(** The second: [--alias value]. *)
Fixpoint match_following flag (current_arg : bytes) (following_args : list bytes)
    (aliases : list bytes) : M S Z :=
  match aliases with
  | [] => mret 0
  | alias :: aliases =>
      if negb (MatchNormalized current_arg alias)
      then match_following flag current_arg following_args aliases
      else match following_args with
           | [] => lift (Err "No argument provided for flag")
           | value :: _ => let! _ := SetAndValidate flag value in mret 2
           end
  end.

Definition MatchStringStyleFlag flag (arg : bytes) (following_args : list bytes) : M S Z :=
  let '(current_arg, dashes) := ConsumeDashes arg in
  if negb dashes then mret 0
  else
    let! consumed := match_assignment flag current_arg (aliases_ flag) in
    match consumed with
    | Some n => mret n
    | None => match_following flag current_arg following_args (aliases_ flag)
    end.

Fixpoint match_bool flag (current_arg : bytes) (aliases : list bytes) : M S Z :=
  match aliases with
  | [] => mret 0
  | alias :: aliases =>
      if matches_assignment current_arg alias then
        let! value := lift (substr_from (zlen alias + 1) current_arg) in
        let! _ := SetAndValidate flag value in mret 1
      else if MatchNormalized current_arg alias then
        let! _ := SetAndValidate flag (str "yes") in mret 1
      else if MatchNormalized current_arg (str "no" ++ alias) then
        let! _ := SetAndValidate flag (str "no") in mret 1
      else match_bool flag current_arg aliases
  end.

Definition MatchBoolStyleFlag flag (arg : bytes) : M S Z :=
  let '(current_arg, dashes) := ConsumeDashes arg in
  if negb dashes then mret 0 else match_bool flag current_arg (aliases_ flag).

Definition Match flag (current_arg : bytes) (following_args : list bytes) : M S Z :=
  match style_ flag with
  | Style_String => MatchStringStyleFlag flag current_arg following_args
  | Style_Bool => MatchBoolStyleFlag flag current_arg
  end.

(** The [for] over the flags inside the loop of [ConsumeFlags]. *)
Fixpoint match_flags (flags : list (Flag S)) (current_arg : bytes)
    (following_args : list bytes) : M S Z :=
  match flags with
  | [] => mret 0
  | flag :: flags =>
      let! consumed := Match flag current_arg following_args in
      if consumed =? 0 then match_flags flags current_arg following_args else mret consumed
  end.

(** ** ConsumeFlags *)
Fixpoint check_aliases (seen : list bytes) (aliases : list bytes) : result unit :=
  match aliases with
  | [] => Ok tt
  | alias :: aliases =>
      let* _ := expect (negb (bool_decide (alias ∈ seen)))
                  "Ambiguous argument parsing possible" in
      check_aliases (alias :: seen) aliases
  end.

(** What a string holds after it was moved from is not specified. *)
Variable moved_from : bytes -> bytes.

(** [args[i] = v] inside the vector. *)
Definition assign (i : Z) (v : bytes) (args : list bytes) : list bytes :=
  <[Z.to_nat i := v]> args.

(** [std::find]: the index of the first occurrence, or the size. *)
Fixpoint find_index (x : bytes) (args : list bytes) : Z :=
  match args with
  | [] => 0
  | a :: args => if bool_decide (a = x) then 0 else 1 + find_index x args
  end.

(** The scope guard [delete_args]. *)
Definition delete_args (opts : ConsumeFlagsOpts) (available_slot match_it : Z) args
    : list bytes :=
  let args := ztake available_slot args ++ zdrop match_it args in
  if stop_at_double_dashes opts && bool_decide (znth available_slot args = Some (str "--"))
  then ztake available_slot args ++ zdrop (available_slot + 1) args else args.

Definition ConsumeFlags (flags : list (Flag S)) (opts : ConsumeFlagsOpts)
    : M (S * list bytes) unit := fun '(s, args) =>
  match check_aliases [] (flags ≫= aliases_) with
  | Ok _ =>
      let end_ := if stop_at_double_dashes opts then find_index (str "--") args else zlen args in
      while_ (fun '(s, args, available_slot, match_it) =>
        if match_it =? end_ then inr (Ok tt, (s, delete_args opts available_slot match_it args))
        else
          match znth match_it args with
          | None => inr (Fatal "iterator out of range", (s, args))
          | Some arg =>
              match match_flags flags arg (zslice (match_it + 1) (end_ - (match_it + 1)) args) s with
              | (Ok consumed, s) =>
                  if negb (consumed =? 0) then inl (s, args, available_slot, match_it + consumed)
                  else if fail_on_unexpected_argument opts
                  then inr (Err "Unexpected argument",
                            (s, delete_args opts available_slot match_it args))
                  else
                    let args :=
                      if available_slot =? match_it then args
                      else assign match_it (moved_from arg) (assign available_slot arg args) in
                    inl (s, args, available_slot + 1, match_it + 1)
              | (fl, s) =>
                  inr (fail_as fl, (s, delete_args opts available_slot match_it args))
              end
          end) (Fuel, (s, args)) (s, args, 0, 0)
  | fl => (fail_as fl, (s, args))
  end.
End flags.

(** ** Matching, and the number of arguments it consumes *)
Section match_lemmas.
Context `{Absl} {S : Type}.
Implicit Types (flag : Flag S) (s : S).

Lemma match_assignment_range flag arg aliases s c s' :
  match_assignment flag arg aliases s = (Ok c, s') -> c = None \/ c = Some 1.
Proof.
  induction aliases as [|alias aliases IH]; simpl; [by intros [= <-]; left|].
  destruct (matches_assignment arg alias); [|done].
  rewrite mbind_ok. intros (v & s1 & _ & Hk). apply mbind_ok in Hk as (u & s2 & _ & [= <-]).
  by right.
Qed.

Lemma match_following_range flag arg rest aliases s c s' :
  match_following flag arg rest aliases s = (Ok c, s') -> c = 0 \/ (c = 2 /\ rest <> []).
Proof.
  induction aliases as [|alias aliases IH]; simpl; [by intros [= <-]; left|].
  destruct (MatchNormalized arg alias); simpl; [|done].
  destruct rest as [|v rest]; [done|]. rewrite mbind_ok. intros (u & s1 & _ & [= <-]).
  by right.
Qed.

Lemma match_bool_range flag arg aliases s c s' :
  match_bool flag arg aliases s = (Ok c, s') -> c = 0 \/ c = 1.
Proof.
  induction aliases as [|alias aliases IH]; simpl; [by intros [= <-]; left|].
  destruct (matches_assignment arg alias).
  { rewrite mbind_ok. intros (v & s1 & _ & Hk). apply mbind_ok in Hk as (u & s2 & _ & [= <-]).
    by right. }
  destruct (MatchNormalized arg alias); [rewrite mbind_ok; intros (u & s1 & _ & [= <-]); by right|].
  destruct (MatchNormalized arg _); [rewrite mbind_ok; intros (u & s1 & _ & [= <-]); by right|done].
Qed.

Lemma Match_range flag arg rest s c s' :
  Match flag arg rest s = (Ok c, s') -> c = 0 \/ c = 1 \/ (c = 2 /\ rest <> []).
Proof.
  unfold Match. destruct (style_ flag).
  - unfold MatchStringStyleFlag. destruct (ConsumeDashes arg) as [cur []]; simpl;
      [|by intros [= <-]; left].
    rewrite mbind_ok. intros (o & s1 & Ho & Hk). apply match_assignment_range in Ho as [->| ->].
    + apply match_following_range in Hk. naive_solver.
    + injection Hk as <-. auto.
  - unfold MatchBoolStyleFlag. destruct (ConsumeDashes arg) as [cur []]; simpl;
      [|by intros [= <-]; left].
    intros Hb%match_bool_range. naive_solver.
Qed.

Lemma match_flags_range flags arg rest s c s' :
  match_flags flags arg rest s = (Ok c, s') -> c = 0 \/ c = 1 \/ (c = 2 /\ rest <> []).
Proof.
  revert s. induction flags as [|flag flags IH]; intros s; simpl; [by intros [= <-]; left|].
  rewrite mbind_ok. intros (n & s1 & Hn & Hk). apply Match_range in Hn.
  destruct (n =? 0); [eauto|]. by injection Hk as <-.
Qed.
End match_lemmas.

(** ** ConsumeFlags as a pass over a list

    The result, the store, the arguments kept and the arguments not looked at. *)
Section consume_spec.
Context `{Absl} {S : Type} (flags : list (Flag S)) (opts : ConsumeFlagsOpts).

Fixpoint consume_list (args : list bytes) (s : S)
    : result unit * S * list bytes * list bytes :=
  match args with
  | [] => (Ok tt, s, [], [])
  | arg :: rest =>
      match match_flags flags arg rest s with
      | (Ok consumed, s) =>
          if consumed =? 0 then
            if fail_on_unexpected_argument opts
            then (Err "Unexpected argument", s, [], args)
            else let '(r, s, kept, todo) := consume_list rest s in (r, s, arg :: kept, todo)
          else if consumed =? 1 then consume_list rest s
          else match rest with
               | _ :: rest => consume_list rest s
               | [] => (Ok tt, s, [], [])
               end
      | (fl, s) => (fail_as fl, s, [], args)
      end
  end.

(** The arguments before the separator, and from it on. *)
Definition before_dashes (args : list bytes) : list bytes :=
  if stop_at_double_dashes opts then ztake (find_index (str "--") args) args else args.
Definition after_dashes (args : list bytes) : list bytes :=
  if stop_at_double_dashes opts then zdrop (find_index (str "--") args) args else [].

Definition consume_spec (args : list bytes) (s : S) : result unit * (S * list bytes) :=
  match check_aliases [] (flags ≫= aliases_) with
  | Ok _ =>
      let '(r, s, kept, todo) := consume_list (before_dashes args) s in
      (r, (s, kept ++ match r with
                      | Ok _ => tail (after_dashes args)
                      | _ => todo ++ after_dashes args
                      end))
  | fl => (fail_as fl, (s, args))
  end.
End consume_spec.

Section consume_proof.
Context `{Absl} {S : Type} (flags : list (Flag S)) (opts : ConsumeFlagsOpts).

Lemma find_index_range x args : 0 <= find_index x args <= zlen args.
Proof.
  induction args as [|a args IH]; simpl; [done|]. rewrite zlen_cons.
  pose proof (zlen_nonneg args). case_bool_decide; lia.
Qed.

Lemma find_index_split x args :
  (x ∉ ztake (find_index x args) args) /\
  (zdrop (find_index x args) args = [] \/
   exists tl, zdrop (find_index x args) args = x :: tl).
Proof.
  induction args as [|a args IH]; [split; [apply not_elem_of_nil|by left]|].
  simpl find_index. case_bool_decide as E.
  - subst. rewrite ztake_0, zdrop_0 by lia. split; [apply not_elem_of_nil|]. right. by eexists.
  - pose proof (find_index_range x args). cbn [ztake zdrop].
    rewrite (proj2 (Z.leb_gt (1 + find_index x args) 0)) by lia.
    replace (1 + find_index x args - 1) with (find_index x args) by lia.
    rewrite not_elem_of_cons. naive_solver.
Qed.

Lemma assign_middle i v (l1 l2 : list bytes) x :
  i = zlen l1 -> assign i v (l1 ++ x :: l2) = l1 ++ v :: l2.
Proof.
  intros ->. unfold assign, zlen. rewrite Nat2Z.id.
  rewrite insert_app_r_alt, Nat.sub_diag by lia. done.
Qed.

Lemma znth_middle (l1 l2 : list bytes) x i : i = zlen l1 -> znth i (l1 ++ x :: l2) = Some x.
Proof.
  intros ->. rewrite znth_lookup by apply zlen_nonneg. unfold zlen. rewrite Nat2Z.id.
  by rewrite lookup_app_r, Nat.sub_diag by lia.
Qed.

(** Cleaning up: the gap goes, and a separator that follows goes with it. *)
Lemma delete_args_gap kept gap rest :
  delete_args opts (zlen kept) (zlen kept + zlen gap) (kept ++ gap ++ rest) =
  kept ++ (if stop_at_double_dashes opts && bool_decide (head rest = Some (str "--"))
           then tail rest else rest).
Proof.
  unfold delete_args.
  rewrite ztake_app_le, ztake_all by lia.
  rewrite app_assoc, zdrop_app_ge, zlen_app, Z.sub_diag, zdrop_0 by (rewrite ?zlen_app; lia).
  assert (znth (zlen kept) (kept ++ rest) = head rest) as ->.
  { destruct rest as [|x rest]; [|by apply znth_middle].
    rewrite app_nil_r, znth_lookup by apply zlen_nonneg. unfold zlen. rewrite Nat2Z.id.
    by apply lookup_ge_None_2. }
  destruct (_ && _) eqn:E; [|done]. f_equal.
  rewrite ztake_app_le, ztake_all by lia. f_equal.
  rewrite zdrop_app_ge by lia. replace (zlen kept + 1 - zlen kept) with 1 by lia.
  destruct rest as [|x rest]; [done|]. simpl. by rewrite zdrop_0.
Qed.

Lemma delete_args_end kept gap post :
  (post = [] \/ stop_at_double_dashes opts = true /\ head post = Some (str "--")) ->
  delete_args opts (zlen kept) (zlen kept + zlen gap) (kept ++ gap ++ post) = kept ++ tail post.
Proof.
  intros Hpost. rewrite delete_args_gap. f_equal.
  destruct Hpost as [->|[-> ->]]; [by rewrite andb_false_r|]. by rewrite bool_decide_true.
Qed.

Lemma delete_args_stop kept gap arg rest :
  (stop_at_double_dashes opts = true -> arg <> str "--") ->
  delete_args opts (zlen kept) (zlen kept + zlen gap) (kept ++ gap ++ arg :: rest) =
  kept ++ arg :: rest.
Proof.
  intros Harg. rewrite delete_args_gap. f_equal.
  destruct (stop_at_double_dashes opts); [|done]. rewrite bool_decide_false; [done|].
  intros [= ->]. by apply Harg.
Qed.

(** Keeping an argument: it moves to the first slot of the gap. *)
Lemma keep_argument moved_from kept gap (arg : bytes) rest :
  exists gap',
    (if zlen kept =? zlen kept + zlen gap then kept ++ gap ++ arg :: rest
     else assign (zlen kept + zlen gap) (moved_from arg)
            (assign (zlen kept) arg (kept ++ gap ++ arg :: rest))) =
    (kept ++ [arg]) ++ gap' ++ rest /\ zlen gap' = zlen gap.
Proof.
  destruct gap as [|g gap].
  - exists []. rewrite zlen_nil, Z.add_0_r, Z.eqb_refl. simpl. by rewrite <- app_assoc.
  - pose proof (zlen_nonneg gap). exists (gap ++ [moved_from arg]).
    rewrite (proj2 (Z.eqb_neq _ _)) by (rewrite zlen_cons; lia).
    change ((g :: gap) ++ arg :: rest) with (g :: (gap ++ arg :: rest)).
    rewrite assign_middle by done.
    replace (kept ++ arg :: gap ++ arg :: rest) with ((kept ++ arg :: gap) ++ arg :: rest)
      by (by rewrite <- app_assoc).
    rewrite assign_middle by (rewrite zlen_app, !zlen_cons; lia).
    split; [by rewrite <- !app_assoc|]. rewrite zlen_app, zlen_cons, zlen_cons, zlen_nil. lia.
Qed.

(** The arguments are those before the separator and those from it on. *)
Lemma dashes_split args :
  args = before_dashes opts args ++ after_dashes opts args /\
  zlen (before_dashes opts args) =
    (if stop_at_double_dashes opts then find_index (str "--") args else zlen args) /\
  (after_dashes opts args = [] \/
   stop_at_double_dashes opts = true /\ head (after_dashes opts args) = Some (str "--")) /\
  (stop_at_double_dashes opts = true -> str "--" ∉ before_dashes opts args).
Proof.
  unfold before_dashes, after_dashes.
  destruct (stop_at_double_dashes opts); [|rewrite app_nil_r; split_and!; by auto].
  pose proof (find_index_range (str "--") args).
  destruct (find_index_split (str "--") args) as [Hn Hd].
  rewrite ztake_zdrop. split_and!; [done|zlen_lia| |done].
  destruct Hd as [Hd|[tl Hd]]; rewrite Hd; auto.
Qed.

(** What the loop looks at: the argument at the gap's end, and those after it
    up to the separator. *)
Lemma current_argument (kept gap todo post : list bytes) arg end_ :
  end_ = zlen kept + zlen gap + (1 + zlen todo) ->
  znth (zlen kept + zlen gap) (kept ++ gap ++ (arg :: todo) ++ post) = Some arg /\
  zslice (zlen kept + zlen gap + 1) (end_ - (zlen kept + zlen gap + 1))
    (kept ++ gap ++ (arg :: todo) ++ post) = todo.
Proof.
  intros He. split.
  - rewrite app_assoc. simpl. apply znth_middle. by rewrite zlen_app.
  - replace (kept ++ gap ++ (arg :: todo) ++ post) with ((kept ++ gap ++ [arg]) ++ todo ++ post)
      by (by rewrite <- !app_assoc).
    replace (zlen kept + zlen gap + 1) with (zlen (kept ++ gap ++ [arg])) by zlen_lia.
    replace (end_ - _) with (zlen todo) by zlen_lia. apply zslice_mid.
Qed.

(** The state of the loop: the arguments kept, the gap that the consumed ones
    left, and those still to be looked at, whose outcome is that of the whole. *)
Definition consuming (end_ : Z) (post : list bytes) (final : result unit * S * list bytes * list bytes)
    (st : S * list bytes * Z * Z) : Prop :=
  let '(s, args, slot, it) := st in
  exists kept gap todo,
    args = kept ++ gap ++ todo ++ post /\ slot = zlen kept /\ it = zlen kept + zlen gap /\
    end_ = it + zlen todo /\ (stop_at_double_dashes opts = true -> str "--" ∉ todo) /\
    final = (let '(r, s', k, rest) := consume_list flags opts todo s in (r, s', kept ++ k, rest)).

Lemma ConsumeFlags_loop moved_from args s :
  zlen args < 2 ^ 64 ->
  ConsumeFlags moved_from flags opts (s, args) = consume_spec flags opts args s.
Proof.
  intros Hlen. unfold ConsumeFlags, consume_spec.
  destruct (check_aliases [] (flags ≫= aliases_)) as [u| | |]; [|done..]. cbv zeta.
  destruct (dashes_split args) as (Hargs & Hend & Hpost & Hpre). revert Hargs Hend Hpost Hpre.
  generalize (before_dashes opts args) (after_dashes opts args). intros pre post.
  generalize (if stop_at_double_dashes opts then find_index (str "--") args else zlen args).
  intros end_ -> Hend Hpost Hpre. pose proof (zlen_nonneg post). pose proof (zlen_nonneg pre).
  apply while_rule with (I := consuming end_ post (consume_list flags opts pre s))
    (m := fun '(s1, args1, slot, it) => end_ - it).
  - exists [], [], pre. change (zlen (@nil bytes)) with 0. split_and!; try done; try lia.
    by destruct (consume_list flags opts pre s) as [[[? ?] ?] ?].
  - rewrite zlen_app in Hlen. lia.
  - intros [[[s1 args1] slot] it] (kept & gap & todo & -> & -> & -> & He & Hnd & ->) _.
    destruct todo as [|arg todo].
    { rewrite zlen_nil, Z.add_0_r in He. rewrite (proj2 (Z.eqb_eq _ _)) by lia.
      simpl. rewrite app_nil_r. by rewrite delete_args_end. }
    pose proof (zlen_nonneg todo). rewrite zlen_cons in He.
    rewrite (proj2 (Z.eqb_neq _ _)) by lia.
    destruct (current_argument kept gap todo post arg end_ He) as [-> ->]. simpl consume_list.
    assert (Harg : stop_at_double_dashes opts = true -> arg <> str "--")
      by (intros Hs ->; apply (Hnd Hs); left).
    assert (Hnd' : stop_at_double_dashes opts = true -> str "--" ∉ todo)
      by (intros Hs Hin; apply (Hnd Hs); by right).
    destruct (match_flags flags arg todo s1) as [[c| | |] s2] eqn:Em;
      [|simpl; rewrite delete_args_stop by done; by rewrite app_nil_r..].
    apply match_flags_range in Em as [->|[->|[-> Hne]]]; simpl.
    + destruct (fail_on_unexpected_argument opts).
      { rewrite delete_args_stop by done. by rewrite app_nil_r. }
      destruct (keep_argument moved_from kept gap arg (todo ++ post)) as (gap' & Hk & Hg).
      rewrite Hk. split; [|lia]. exists (kept ++ [arg]), gap', todo.
      split_and!; [done|zlen_lia|zlen_lia|lia|done|].
      destruct (consume_list flags opts todo s2) as [[[? ?] ?] ?]. by rewrite <- app_assoc.
    + split; [|lia]. exists kept, (gap ++ [arg]), todo.
      split_and!; [by rewrite <- !app_assoc|done|zlen_lia|zlen_lia|done|done].
    + destruct todo as [|v todo]; [done|]. rewrite zlen_cons in *. pose proof (zlen_nonneg todo).
      split; [|lia]. exists kept, (gap ++ [arg; v]), todo.
      split_and!; [by rewrite <- !app_assoc|done|zlen_lia|zlen_lia| |done].
      intros Hs Hin. apply (Hnd' Hs). by right.
Qed.
End consume_proof.

(** C5. Refinement: the in-place loop of [ConsumeFlags], whatever moved-from
    strings contain, is the pass over the list that offers each argument before
    the "--" separator to the flags in order, drops what they consume, keeps the
    rest in order, stops at the first error with the arguments not yet looked at
    still in place, and on success also drops the separator. *)
Theorem ConsumeFlags_refines `{Absl} {S} (flags : list (Flag S)) opts moved_from args s :
  zlen args < 2 ^ 64 ->
  ConsumeFlags moved_from flags opts (s, args) = consume_spec flags opts args s.
Proof. apply ConsumeFlags_loop. Qed.

(** A store of two variables, and a flag for each. *)
Definition sample_flags : list (Flag (bytes * bytes)) :=
  [mkFlag [str "foo-bar"] Style_String [] [] fst
     (fun v => modify (fun s => (v, s.2))) [];
   mkFlag [str "verbose"] Style_Bool [] [] snd
     (fun v => modify (fun s => (s.1, v))) []].

Lemma ConsumeFlags_refines_witness :
  ConsumeFlags (fun _ => str "?") sample_flags (mkOpts true false)
    (([], []), [str "start"; str "--foo_bar"; str "7"; str "x"; str "-noverbose"; str "--"; str "y"])
  = (Ok tt, ((str "7", str "no"), [str "start"; str "x"; str "y"])).
Proof.
  rewrite (ConsumeFlags_refines sample_flags (mkOpts true false) (fun _ => str "?")
    [str "start"; str "--foo_bar"; str "7"; str "x"; str "-noverbose"; str "--"; str "y"]).
  - vm_compute. reflexivity.
  - vm_compute. reflexivity.
Defined.

(** ** Names are matched up to [-] and [_] *)
Section spelling.
Context `{Absl} {S : Type}.
Implicit Types (flag : Flag S) (s : S).

Definition normalize (v : bytes) : bytes :=
  (fun c => if bool_decide (c = dash) then underscore else c) <$> v.

Lemma MatchNormalized_spec v w : MatchNormalized v w = bool_decide (normalize v = normalize w).
Proof.
  assert (Hn : forall x, StrReplaceAll x [(dash, [underscore])] = normalize x).
  { intros x. rewrite StrReplaceAll_chars by apply NoDup_singleton.
    induction x as [|c x IH]; [done|]. simpl. rewrite IH. unfold replace_char. simpl.
    rewrite (bool_decide_ext (dash = c) (c = dash)) by naive_solver.
    by case_bool_decide. }
  unfold MatchNormalized. by rewrite !Hn.
Qed.

Lemma zlen_normalize v : zlen (normalize v) = zlen v.
Proof. unfold zlen, normalize. by rewrite length_fmap. Qed.

Lemma normalize_app v w : normalize (v ++ w) = normalize v ++ normalize w.
Proof. apply fmap_app. Qed.

Lemma matches_assignment_yes name spelled v :
  normalize spelled = normalize name ->
  matches_assignment (spelled ++ str "=" ++ v) name = true /\
  substr_from (zlen name + 1) (spelled ++ str "=" ++ v) = Ok v.
Proof.
  intros Hn. assert (zlen spelled = zlen name) as Hl by (by rewrite <- zlen_normalize, Hn, zlen_normalize).
  pose proof (zlen_nonneg name). pose proof (zlen_nonneg v).
  unfold matches_assignment, substr_from. rewrite MatchNormalized_spec. split.
  - rewrite app_assoc, ztake_app_le, ztake_all by (rewrite zlen_app, Hl; change (zlen (str "=")) with 1; lia).
    rewrite bool_decide_true; [done|]. by rewrite !normalize_app, Hn.
  - rewrite !zlen_app. change (zlen (str "=")) with 1. rewrite (proj2 (Z.ltb_ge _ _)) by lia.
    rewrite app_assoc, zdrop_app_ge by (rewrite zlen_app, Hl; change (zlen (str "=")) with 1; lia).
    rewrite zlen_app, Hl. change (zlen (str "=")) with 1. by rewrite zdrop_0 by lia.
Qed.

Lemma matches_assignment_short name spelled :
  normalize spelled = normalize name -> matches_assignment spelled name = false.
Proof.
  intros Hn. assert (zlen spelled = zlen name) as Hl by (by rewrite <- zlen_normalize, Hn, zlen_normalize).
  unfold matches_assignment. rewrite MatchNormalized_spec. apply bool_decide_eq_false.
  rewrite ztake_all by lia. intros Heq%(f_equal zlen).
  rewrite !zlen_normalize, zlen_app in Heq. change (zlen (str "=")) with 1 in Heq. lia.
Qed.

Lemma ConsumeDashes_spec dashes rest :
  dashes = str "-" \/ dashes = str "--" -> starts_with [dash] rest = false ->
  ConsumeDashes (dashes ++ rest) = (rest, true).
Proof.
  intros Hd Hr.
  assert (Hc : forall r, ConsumePrefix (dash :: r) [dash] = (r, true)).
  { intros r. rewrite ConsumePrefix_spec. change (zlen [dash]) with 1. simpl.
    by rewrite zdrop_0 by lia. }
  unfold ConsumeDashes. destruct Hd as [->| ->].
  - change (str "-" ++ rest) with (dash :: rest). by rewrite Hc, ConsumePrefix_spec, Hr.
  - change (str "--" ++ rest) with (dash :: dash :: rest). by rewrite !Hc.
Qed.
End spelling.

(** How a string flag is written: after one or two dashes, its name with
    [-] and [_] interchangeable, followed by [=value] or by the value as the
    next argument.  Exactly that value goes to the setter, then to the
    validators, and exactly the arguments used are consumed. *)
Theorem string_flag_spellings `{Absl} {S} (flag : Flag S) name spelled dashes value rest s :
  style_ flag = Style_String -> aliases_ flag = [name] ->
  dashes = str "-" \/ dashes = str "--" ->
  normalize spelled = normalize name -> starts_with [dash] spelled = false -> spelled <> [] ->
  Match flag (dashes ++ spelled ++ str "=" ++ value) rest s =
    (let! _ := SetAndValidate flag value in mret 1) s /\
  Match flag (dashes ++ spelled) (value :: rest) s =
    (let! _ := SetAndValidate flag value in mret 2) s /\
  Match flag (dashes ++ spelled) [] s = (Err "No argument provided for flag", s).
Proof.
  intros Hstyle Hal Hd Hn Hs Hne. unfold Match, MatchStringStyleFlag. rewrite Hstyle, Hal.
  destruct (matches_assignment_yes name spelled value Hn) as [Hy Hv].
  assert (MatchNormalized spelled name = true) as Hm
    by (rewrite MatchNormalized_spec; by apply bool_decide_eq_true_2).
  rewrite !ConsumeDashes_spec by (done || (destruct spelled; [done|exact Hs])). cbn [negb].
  cbn [match_assignment match_following]. rewrite Hy, Hv, matches_assignment_short, Hm by done.
  split_and!; [|done..]. unfold mbind, lift, mret. by destruct (SetAndValidate flag value s) as [[] ?].
Qed.

Lemma string_flag_spellings_witness :
  let f := mkFlag [str "foo-bar"] Style_String [] [] fst (fun v => modify (fun s => (v, s.2))) [] in
  Match f (str "-" ++ str "foo_bar") (str "v" :: []) (str "", str "") =
    (let! _ := SetAndValidate f (str "v") in mret 2) (str "", str "").
Proof.
  intros f.
  destruct (string_flag_spellings f (str "foo-bar") (str "foo_bar") (str "-") (str "v") []
              (str "", str "")) as (_ & H2 & _).
  - reflexivity.
  - reflexivity.
  - left. reflexivity.
  - reflexivity.
  - reflexivity.
  - discriminate.
  - exact H2.
Defined.

(** Two flags whose names differ only in [-] and [_] pass the check for
    ambiguous arguments, although every argument the second one accepts is
    taken by the first: the second flag can never be set. *)
Theorem ambiguity_undetected `{Absl} {S} (f1 f2 : Flag S) n1 n2 arg rest s :
  aliases_ f1 = [n1] -> aliases_ f2 = [n2] -> style_ f1 = style_ f2 ->
  n1 <> n2 -> normalize n1 = normalize n2 ->
  check_aliases [] ([f1; f2] ≫= aliases_) = Ok tt /\
  match_flags [f1; f2] arg rest s = match_flags [f1] arg rest s.
Proof.
  intros H1 H2 Hs Hne Hn. split.
  { simpl. rewrite H1, H2. simpl. rewrite bool_decide_false; [done|].
    rewrite list_elem_of_singleton. congruence. }
  assert (zlen n1 = zlen n2) as Hl by (by rewrite <- zlen_normalize, Hn, zlen_normalize).
  assert (Ha : forall cur, matches_assignment cur n1 = matches_assignment cur n2).
  { intros cur. unfold matches_assignment. by rewrite !MatchNormalized_spec, Hl, !normalize_app, Hn. }
  assert (Hm : forall cur pre, MatchNormalized cur (pre ++ n1) = MatchNormalized cur (pre ++ n2)).
  { intros cur pre. by rewrite !MatchNormalized_spec, !normalize_app, Hn. }
  assert (Hm0 : forall cur, MatchNormalized cur n1 = MatchNormalized cur n2)
    by (intros cur; apply (Hm cur [])).
  assert (Hz : forall s', Match f1 arg rest s = (Ok 0, s') -> Match f2 arg rest s' = (Ok 0, s')).
  { intros s'. unfold Match, MatchStringStyleFlag, MatchBoolStyleFlag. rewrite <- Hs, H1, H2.
    destruct (style_ f1), (ConsumeDashes arg) as [cur []]; cbn [negb]; try done;
      cbn [match_assignment match_following match_bool]; rewrite Ha.
    - destruct (matches_assignment cur n2).
      { rewrite mbind_ok. intros (o & s1 & Ho & Hk).
        rewrite mbind_ok in Ho. destruct Ho as (v & s2 & _ & Ho).
        rewrite mbind_ok in Ho. destruct Ho as (w & s3 & _ & [= <- <-]). done. }
      rewrite Hm0. simpl. unfold mbind, mret.
      destruct (MatchNormalized cur n2); simpl; [|done]. destruct rest as [|v rest]; [done|].
      by destruct (SetAndValidate f1 v s) as [[] ?].
    - destruct (matches_assignment cur n2).
      { rewrite mbind_ok. intros (v & s1 & _ & Hk). rewrite mbind_ok in Hk.
        by destruct Hk as (w & s3 & _ & ?). }
      rewrite Hm0, Hm. simpl.
      destruct (MatchNormalized cur n2);
        [rewrite mbind_ok; by intros (w & s3 & _ & ?)|].
      destruct (MatchNormalized cur _); [rewrite mbind_ok; by intros (w & s3 & _ & ?)|done]. }
  cbn [match_flags]. unfold mbind. destruct (Match f1 arg rest s) as [[c| | |] s'] eqn:E; try done.
  destruct (c =? 0) eqn:Ec; [|done]. assert (c = 0) as -> by lia. by rewrite (Hz s' eq_refl).
Qed.

Lemma ambiguity_undetected_witness :
  let f n := mkFlag [n] Style_String [] [] (fun s : bytes => s) (fun v => put v) [] in
  check_aliases [] ([f (str "a-b"); f (str "a_b")] ≫= aliases_) = Ok tt /\
  match_flags [f (str "a-b"); f (str "a_b")] (str "--a_b=1") [] [] =
  match_flags [f (str "a-b")] (str "--a_b=1") [] [].
Proof.
  intros f.
  apply (ambiguity_undetected (f (str "a-b")) (f (str "a_b")) (str "a-b") (str "a_b")); try reflexivity.
  discriminate.
Defined.
End Flags.
