(* ===== verification/GflagsCompat.v ===== *)
(** * gflags-style flags (flag_parser/gflags_compat.cpp)

    Flags bound to variables of several types.  A variable is a [ref]: how to
    read and how to overwrite it in the program's store.  The templates of the
    source that are specialised per type are members of the class [FlagValue]. *)
From S2P Require Import Prelude CppString Flags.

Module GflagsCompat.
Import CppString Flags.

(** A reference to a variable of the store. *)
Record ref (S T : Type) := mkRef { deref : S -> T; store : T -> S -> S }.
Arguments mkRef {S T}. Arguments deref {S T}. Arguments store {S T}.

Definition ref_ok {S T} (r : ref S T) : Prop :=
  (forall v s, deref r (store r v s) = v) /\ (forall s, store r (deref r s) s = s).

Inductive CoerceToNullopt := None_ | UnsetKeyword | EmptyString_.

(** The integral types flags are declared with. *)
Inductive IntType := int32_t | unsigned | size_t | int64_t.
Definition int_min (t : IntType) : Z :=
  match t with int32_t => - 2 ^ 31 | int64_t => - 2 ^ 63 | _ => 0 end.
Definition int_max (t : IntType) : Z :=
  match t with
  | int32_t => 2 ^ 31 - 1 | unsigned => 2 ^ 32 - 1
  | size_t => 2 ^ 64 - 1 | int64_t => 2 ^ 63 - 1
  end.

(** ** Values as text *)
Class FlagValue (T : Type) := {
  FlagValueToString : T -> bytes;
  ParseFlagValue : bytes -> result T
}.

Section values.
Context `{Absl}.

Definition ShouldBeNullOpt (value : bytes) (opt : CoerceToNullopt) : bool :=
  match opt with
  | None_ => false
  | UnsetKeyword => bool_decide (value = str "unset")
  | EmptyString_ => bool_decide (value = [])
  end.

Definition NullOptValue (opt : CoerceToNullopt) : bytes :=
  match opt with
  | None_ => str "[not set]"
  | UnsetKeyword => str "unset"
  | EmptyString_ => []
  end.

Definition FlagValue_string : FlagValue bytes :=
  {| FlagValueToString := fmt_str; ParseFlagValue := fun v => Ok v |}.

Definition FlagValue_int (t : IntType) : FlagValue Z :=
  {| FlagValueToString := fmt_int;
     ParseFlagValue := fun v =>
       let '(ok, value) := SimpleAtoi (int_min t) (int_max t) v in
       let* _ := expect ok "absl::SimpleAtoi(str, &value)" in Ok value |}.

Definition FlagValue_bool : FlagValue bool :=
  {| FlagValueToString := fmt_bool;
     ParseFlagValue := fun v =>
       let '(ok, value) := SimpleAtob v in
       let* _ := expect ok "absl::SimpleAtob(str, &result)" in Ok value |}.

Section vector.
Context {T : Type} `{FV : FlagValue T}.

Definition FlagVectorToString (values : list T) : bytes :=
    StrJoin (FlagValueToString <$> values) (str ",").

Fixpoint parse_elements (elements : list bytes) (default_value : T) : result (list T) :=
    match elements with
    | [] => Ok []
    | element :: elements =>
        let* value := (if bool_decide (element = []) then Ok default_value
                       else ParseFlagValue element) in
        let* parsed := parse_elements elements default_value in
        Ok (value :: parsed)
    end.

Definition ParseFlagVectorValue (v : bytes) (default_value : T) : result (list T) :=
    if bool_decide (v = []) then Ok []
    else parse_elements (StrSplit v ","%char) default_value.

Definition FlagOptionalToString (value : option T) (opt : CoerceToNullopt) : bytes :=
    match value with
    | None => NullOptValue opt
    | Some v => FlagValueToString v
    end.

Definition ParseFlagOptionalValue (v : bytes) (opt : CoerceToNullopt) : result (option T) :=
    if ShouldBeNullOpt v opt then Ok None
    else let* value := ParseFlagValue v in Ok (Some value).
End vector.

(** The specializations for vectors inside optionals. *)
Definition FlagValue_strings : FlagValue (list bytes) :=
  {| FlagValueToString := FlagVectorToString (FV := FlagValue_string);
     ParseFlagValue := fun v => ParseFlagVectorValue (FV := FlagValue_string) v [] |}.
Definition FlagValue_unsigneds : FlagValue (list Z) :=
  {| FlagValueToString := FlagVectorToString (FV := FlagValue_int unsigned);
     ParseFlagValue := fun v => ParseFlagVectorValue (FV := FlagValue_int unsigned) v 0 |}.
End values.

(** ** The flags *)
Section flags.
Context `{Absl} {S : Type}.

(** [value = CF_EXPECT(parsed)] on a variable. *)
Definition assign_to {T} (value : ref S T) (parsed : result T) : M S unit :=
  let! v := lift parsed in modify (store value v).

(** [SimpleAtoi] writes its output also when it fails. *)
Definition GflagsCompatFlag_int (t : IntType) (name : bytes) (value : ref S Z)
    : result (Flag S) :=
  let* f := StringFlag name in
  Ok (Setter (fun arg =>
        let '(ok, v) := SimpleAtoi (int_min t) (int_max t) arg in
        let! _ := modify (store value v) in
        lift (expect ok "Failed to parse as an integer"))
      (Getter (fun s => to_string (deref value s)) f)).

Definition GflagsCompatFlag_vector {T} `{FV : FlagValue T} (name : bytes) (value : ref S (list T))
    (default_value : T) : result (Flag S) :=
  let* f := StringFlag name in
  Ok (Setter (fun arg => assign_to value (ParseFlagVectorValue arg default_value))
      (Getter (fun s => FlagVectorToString (deref value s)) f)).

Definition GflagsCompatFlag_optional {T} `{FV : FlagValue T} (name : bytes)
    (value : ref S (option T)) (opt : CoerceToNullopt) : result (Flag S) :=
  let* f := StringFlag name in
  Ok (Setter (fun arg => assign_to value (ParseFlagOptionalValue arg opt))
      (Getter (fun s => FlagOptionalToString (deref value s) opt) f)).

Definition WithVectorNameValueHint (flag : Flag S) : Flag S :=
  let hint := value_name_hint_ flag in
  ValueNameHint (hint ++ str "[," ++ hint ++ str "...]") flag.

Definition GflagsCompatFlag_string (name : bytes) (value : ref S bytes) : result (Flag S) :=
  let* f := StringFlag name in
  Ok (Setter (fun arg => modify (store value arg)) (Getter (deref value) f)).

Definition GflagsCompatFlag_bool (name : bytes) (value : ref S bool) : result (Flag S) :=
  let* f := BoolFlag name in
  Ok (Setter (fun arg => assign_to value (ParseFlagValue (FlagValue := FlagValue_bool) arg))
      (Getter (fun s => fmt_bool (deref value s)) f)).

Definition GflagsCompatFlag_strings (name : bytes) (value : ref S (list bytes))
    : result (Flag S) :=
  let* f := GflagsCompatFlag_vector (FV := FlagValue_string) name value [] in
  Ok (WithVectorNameValueHint f).
Definition GflagsCompatFlag_unsigneds (name : bytes) (value : ref S (list Z))
    : result (Flag S) :=
  let* f := GflagsCompatFlag_vector (FV := FlagValue_int unsigned) name value 0 in
  Ok (WithVectorNameValueHint f).
Definition GflagsCompatFlag_bools (name : bytes) (value : ref S (list bool))
    (default_value : bool) : result (Flag S) :=
  let* f := GflagsCompatFlag_vector (FV := FlagValue_bool) name value default_value in
  Ok (WithVectorNameValueHint f).

Definition GflagsCompatFlag_opt_bool (name : bytes) (value : ref S (option bool))
    (opt : CoerceToNullopt) : result (Flag S) :=
  let* f := BoolFlag name in
  Ok (Setter (fun arg => assign_to value (ParseFlagOptionalValue (FV := FlagValue_bool) arg opt))
      (Getter (fun s => match deref value s with Some b => fmt_bool b | None => [] end) f)).

Definition GflagsCompatFlag_opt_strings (name : bytes) (value : ref S (option (list bytes)))
    (opt : CoerceToNullopt) : result (Flag S) :=
  let* f := GflagsCompatFlag_optional (FV := FlagValue_strings) name value opt in
  Ok (WithVectorNameValueHint f).
Definition GflagsCompatFlag_opt_unsigneds (name : bytes) (value : ref S (option (list Z)))
    (opt : CoerceToNullopt) : result (Flag S) :=
  let* f := GflagsCompatFlag_optional (FV := FlagValue_unsigneds) name value opt in
  Ok (WithVectorNameValueHint f).

(** ** Help output; a stream is a variable the text is appended to *)
Definition XmlEscape (v : bytes) : bytes :=
  StrReplaceAll v [("<"%char, str "&lt;"); (">"%char, str "&gt;")].

Definition newline : bytes := [byte_of_Z 10].
Definition quote : bytes := [byte_of_Z 34].
Definition xml_header : bytes := str "<?xml version=" ++ quote ++ str "1.0" ++ quote ++ str "?>".

Definition WriteGflagsCompatXml (flag : Flag S) (s : S) : bytes :=
  let type_str := match style_ flag with Style_String => str "string" | Style_Bool => str "bool" end in
  let value := XmlEscape (getter_ flag s) in
  str "<flag>" ++ newline ++
  str "  <file>file.cc</file>" ++ newline ++
  str "  <name>" ++ default [] (Name flag) ++ str "</name>" ++ newline ++
  str "  <meaning>" ++ XmlEscape (help_ flag) ++ str "</meaning>" ++ newline ++
  str "  <default>" ++ value ++ str "</default>" ++ newline ++
  str "  <current>" ++ value ++ str "</current>" ++ newline ++
  str "  <type>" ++ type_str ++ str "</type>" ++ newline ++
  str "</flag>" ++ newline.

Definition WriteGflagsCompatXml_all (flags : list (Flag S)) (s : S) : bytes :=
  flat_map (fun f => WriteGflagsCompatXml f s) flags.

(** [operator<<] of a flag. *)
Definition print_flag (flag : Flag S) (s : S) : bytes :=
  Synopsis flag ++ newline ++
  (if bool_decide (help_ flag = []) then [] else help_ flag ++ newline) ++
  str "Current value: " ++ quote ++ getter_ flag s ++ quote ++ newline.

(** [std::exit(1)] ends the program; [log] receives what LOG(INFO) prints. *)
Definition HelpFlag (flags : list (Flag S)) (log : ref S (list bytes)) (text : bytes)
    : result (Flag S) :=
  let* f := BoolFlag (str "help") in
  Ok (Setter (fun _ =>
        let! _ := modify (fun s => store log (deref log s ++
          (if bool_decide (text = []) then [] else [text]) ++
          ((fun flag => print_flag flag s) <$> flags)) s) in
        lift (Fatal "exit(1)")) f).

Definition HelpXmlFlag (flags : list (Flag S)) (out : ref S bytes) (print_xml : ref S bool)
    (text : bytes) : result (Flag S) :=
  let* f := BoolFlag (str "helpxml") in
  Ok (Setter (fun arg =>
        let! _ := assign_to print_xml (ParseFlagValue (FlagValue := FlagValue_bool) arg) in
        let! s := get in
        if negb (deref print_xml s) then mret tt
        else
          let! _ := modify (fun s => store out (deref out s ++
            (if bool_decide (text = []) then [] else text ++ newline) ++
            xml_header ++ newline ++ str "<AllFlags>" ++ newline ++
            WriteGflagsCompatXml_all flags s ++ str "</AllFlags>" ++ newline) s) in
          lift (Fatal "exit(1)")) f).
End flags.

(** ** Round trips *)
Section roundtrip.
Context `{Absl}.

Lemma parse_int_print t z :
  int_min t <= z <= int_max t ->
  ParseFlagValue (FlagValue := FlagValue_int t) (FlagValueToString (FlagValue := FlagValue_int t) z) = Ok z.
Proof. intros Hz. simpl. by rewrite fmt_int_spec, SimpleAtoi_print. Qed.

Lemma parse_bool_print b :
  ParseFlagValue (FlagValue := FlagValue_bool) (FlagValueToString (FlagValue := FlagValue_bool) b) = Ok b.
Proof.
  simpl. rewrite fmt_bool_spec.
  rewrite (proj2 (SimpleAtob_true (str (if b then "true" else "false")) b)); [done|].
  apply (bool_decide_unpack _). by destruct b.
Qed.

(** Elements that print as non-empty text without commas and read back. *)
Definition element_ok {T} `{FV : FlagValue T} (v : T) : Prop :=
  FlagValueToString v <> [] /\ (","%char ∉ FlagValueToString v) /\
  ParseFlagValue (FlagValueToString v) = Ok v.

Lemma parse_elements_print {T} `{FV : FlagValue T} (values : list T) d :
  Forall element_ok values -> parse_elements (FlagValueToString <$> values) d = Ok values.
Proof.
  induction 1 as [|v values (H1 & H2 & H3) _ IH]; [done|].
  rewrite fmap_cons. cbn [parse_elements].
  rewrite bool_decide_false by done. rewrite H3. cbn [rbind]. by rewrite IH.
Qed.

Lemma vector_roundtrip {T} `{FV : FlagValue T} (values : list T) d :
  Forall element_ok values -> ParseFlagVectorValue (FlagVectorToString values) d = Ok values.
Proof.
  intros Hv. unfold ParseFlagVectorValue, FlagVectorToString. rewrite StrJoin_spec.
  destruct values as [|v values]; [done|].
  assert (join (str ",") (FlagValueToString <$> v :: values) <> []) as Hne.
  { apply Forall_cons in Hv as [(Hn & _) _]. rewrite fmap_cons.
    destruct values as [|w values]; [done|]. rewrite fmap_cons, join_cons by done.
    intros [? _]%app_eq_nil. done. }
  rewrite bool_decide_false by done. rewrite StrSplit_unique.
  rewrite split_on_join; [by apply parse_elements_print|done|].
  apply Forall_fmap. eapply Forall_impl; [exact Hv|]. intros w (_ & Hw & _). exact Hw.
Qed.

Lemma to_string_element t z :
  int_min t <= z <= int_max t -> element_ok (FV := FlagValue_int t) z.
Proof.
  intros Hz. pose proof (parse_int_print t z Hz) as Hp. unfold element_ok.
  split_and!; [| |done]; simpl; rewrite fmt_int_spec.
  - intros Hn. pose proof (parse_to_string z) as Hx. by rewrite Hn in Hx.
  - intros Hin. assert (forall c, c ∈ to_string z -> c = "-"%char \/ is_digit c = true) as Hc.
    { intros c. unfold to_string. destruct (z <? 0) eqn:E.
      - pose proof (proj1 (to_string_nonneg (- z) ltac:(lia))) as Hd. unfold to_string in Hd.
        rewrite (proj2 (Z.ltb_ge _ _)) in Hd by lia. rewrite Forall_forall in Hd.
        rewrite elem_of_cons. naive_solver.
      - pose proof (proj1 (to_string_nonneg z ltac:(lia))) as Hd. unfold to_string in Hd.
        rewrite E in Hd. rewrite Forall_forall in Hd. naive_solver. }
    by destruct (Hc _ Hin).
Qed.

Lemma bool_element b : element_ok (FV := FlagValue_bool) b.
Proof.
  unfold element_ok. split_and!; [| |apply parse_bool_print]; simpl; rewrite fmt_bool_spec.
  - by destruct b.
  - apply (bool_decide_unpack _). by destruct b.
Qed.
End roundtrip.

(** Setting a flag to the text its getter shows changes nothing. *)
Definition stable {S} (f : Flag S) (s : S) : Prop :=
  setter_ f (getter_ f s) s = (Ok tt, s).

(** Round trip of flag values: for every integral, string, bool, list of
    unsigned and list of bool flag, the text the getter shows is accepted by the
    setter and restores exactly the variable, for every value of the type;
    lists of strings round-trip when their elements are non-empty and have no
    comma. *)
Theorem gflags_roundtrip `{Absl} {S} (name : bytes) t (i : ref S Z) (v : ref S bytes) (b : ref S bool)
    (us : ref S (list Z)) (bs : ref S (list bool)) (d : bool) (ss : ref S (list bytes)) (s : S) :
  starts_with [dash] name = false ->
  ref_ok i -> ref_ok v -> ref_ok b -> ref_ok us -> ref_ok bs -> ref_ok ss ->
  int_min t <= deref i s <= int_max t ->
  Forall (fun z => 0 <= z < 2 ^ 32) (deref us s) ->
  Forall (fun w => w <> [] /\ (","%char ∉ w)) (deref ss s) ->
  (exists f, GflagsCompatFlag_int t name i = Ok f /\ stable f s) /\
  (exists f, GflagsCompatFlag_string name v = Ok f /\ stable f s) /\
  (exists f, GflagsCompatFlag_bool name b = Ok f /\ stable f s) /\
  (exists f, GflagsCompatFlag_unsigneds name us = Ok f /\ stable f s) /\
  (exists f, GflagsCompatFlag_bools name bs d = Ok f /\ stable f s) /\
  (exists f, GflagsCompatFlag_strings name ss = Ok f /\ stable f s).
Proof.
  intros Hname [_ Hi] [_ Hv] [_ Hb] [_ Hus] [_ Hbs] [_ Hss] Hri Hrus Hrss.
  assert (forall style, exists f : Flag S, Flag_ name style = Ok f) as Hf.
  { intros style. unfold Flag_, ValidateAlias. rewrite Hname. simpl. by eexists. }
  destruct (Hf Style_String) as [fs Efs]. destruct (Hf Style_Bool) as [fb Efb].
  unfold GflagsCompatFlag_int, GflagsCompatFlag_string, GflagsCompatFlag_bool,
    GflagsCompatFlag_unsigneds, GflagsCompatFlag_bools, GflagsCompatFlag_strings,
    GflagsCompatFlag_vector, StringFlag, BoolFlag.
  rewrite Efs, Efb. simpl. split_and!; eexists; (split; [done|]); unfold stable; simpl.
  - rewrite SimpleAtoi_print by done. unfold mbind, modify, lift. simpl. by rewrite Hi.
  - unfold modify. by rewrite Hv.
  - pose proof (parse_bool_print (deref b s)) as Hp. simpl in Hp. rewrite Hp.
    unfold assign_to, mbind, lift, modify. by rewrite Hb.
  - unfold assign_to. rewrite vector_roundtrip.
    + unfold mbind, lift, modify. by rewrite Hus.
    + eapply Forall_impl; [exact Hrus|]. intros z Hz. cbv beta in Hz.
      apply (to_string_element unsigned). unfold int_min, int_max. lia.
  - unfold assign_to. rewrite vector_roundtrip.
    + unfold mbind, lift, modify. by rewrite Hbs.
    + apply Forall_forall. intros x _. apply bool_element.
  - unfold assign_to. rewrite vector_roundtrip.
    + unfold mbind, lift, modify. by rewrite Hss.
    + eapply Forall_impl; [exact Hrss|]. intros w [Hw1 Hw2]. unfold element_ok. simpl.
      by rewrite fmt_str_spec.
Qed.

(** A store with one variable of each type. *)
Definition sample_store : Type := Z * bytes * bool * list Z * list bool * list bytes.

Lemma gflags_roundtrip_witness :
  let s : sample_store := (-5, str "a b", true, [3; 0], [false; true], [str "x"; str "y"]) in
  exists f, GflagsCompatFlag_unsigneds (str "nums")
    (mkRef (fun '(_, _, _, u, _, _) => u) (fun x '(a, b, c, _, e, f) => (a, b, c, x, e, f))) = Ok f /\
    stable f s.
Proof.
  intros s.
  destruct (gflags_roundtrip (str "nums") int32_t
    (mkRef (fun '(a, _, _, _, _, _) => a) (fun x '(_, b, c, d, e, f) => (x, b, c, d, e, f)))
    (mkRef (fun '(_, b, _, _, _, _) => b) (fun x '(a, _, c, d, e, f) => (a, x, c, d, e, f)))
    (mkRef (fun '(_, _, c, _, _, _) => c) (fun x '(a, b, _, d, e, f) => (a, b, x, d, e, f)))
    (mkRef (fun '(_, _, _, u, _, _) => u) (fun x '(a, b, c, _, e, f) => (a, b, c, x, e, f)))
    (mkRef (fun '(_, _, _, _, e, _) => e) (fun x '(a, b, c, d, _, f) => (a, b, c, d, x, f)))
    true
    (mkRef (fun '(_, _, _, _, _, f) => f) (fun x '(a, b, c, d, e, _) => (a, b, c, d, e, x)))
    s) as (_ & _ & _ & H4 & _).
  - reflexivity.
  - split; [by intros v [[[[[? ?] ?] ?] ?] ?]|by intros [[[[[? ?] ?] ?] ?] ?]].
  - split; [by intros v [[[[[? ?] ?] ?] ?] ?]|by intros [[[[[? ?] ?] ?] ?] ?]].
  - split; [by intros v [[[[[? ?] ?] ?] ?] ?]|by intros [[[[[? ?] ?] ?] ?] ?]].
  - split; [by intros v [[[[[? ?] ?] ?] ?] ?]|by intros [[[[[? ?] ?] ?] ?] ?]].
  - split; [by intros v [[[[[? ?] ?] ?] ?] ?]|by intros [[[[[? ?] ?] ?] ?] ?]].
  - split; [by intros v [[[[[? ?] ?] ?] ?] ?]|by intros [[[[[? ?] ?] ?] ?] ?]].
  - simpl. lia.
  - repeat constructor; simpl; lia.
  - repeat constructor; try discriminate; apply (bool_decide_unpack _); vm_compute; exact I.
  - exact H4.
Defined.

(** Escaped text cannot open or close an XML element: no angle bracket of a
    flag's help or value reaches the output of [WriteGflagsCompatXml]. *)
Theorem XmlEscape_no_brackets `{Absl} (v : bytes) :
  ("<"%char ∉ XmlEscape v) /\ (">"%char ∉ XmlEscape v).
Proof.
  unfold XmlEscape. rewrite StrReplaceAll_chars by (apply (bool_decide_unpack _); vm_compute; done).
  assert (Hc : forall c, Forall (fun x => x <> "<"%char /\ x <> ">"%char)
    (replace_char [("<"%char, str "&lt;"); (">"%char, str "&gt;")] c)).
  { intros c. unfold replace_char. simpl. case_bool_decide as E1; [repeat constructor; done|].
    case_bool_decide as E2; repeat constructor; done || congruence. }
  assert (Hall : Forall (fun x => x <> "<"%char /\ x <> ">"%char)
    (flat_map (replace_char [("<"%char, str "&lt;"); (">"%char, str "&gt;")]) v)).
  { induction v as [|c v IH]; [constructor|]. simpl. apply Forall_app. by split. }
  rewrite Forall_forall in Hall. split; intros Hin; by destruct (Hall _ Hin).
Qed.
End GflagsCompat.
