(* ===== verification/Fetch.v ===== *)
(** * Build strings and the flags of cvd fetch (host/libs/web/android_build_string.cpp,
    chrome_os_build_string.cpp; host/commands/cvd/fetch: fetch_cvd_parser.cc and the files
    that turn flags into targets)

    Which builds to download and where: parsing build strings, the flags bound to them,
    the checks over all flags, and the list of targets.  Help texts are left out; the
    flags of the CAS downloader are a parameter. *)
From S2P Require Import Prelude CppString Flags GflagsCompat.

Module Fetch.
Import CppString Flags GflagsCompat.

(** ** Build strings *)
Record DeviceBuildString := mkDevice { branch_or_id : bytes; d_target : option bytes; d_filepath : option bytes }.
Record DirectoryBuildString := mkDirectory { paths : list bytes; dir_target : bytes; dir_filepath : option bytes }.
Inductive BuildString := Device (b : DeviceBuildString) | Directory (b : DirectoryBuildString).
#[global] Instance DeviceBuildString_eq_dec : EqDecision DeviceBuildString.
Proof. solve_decision. Defined.
#[global] Instance DirectoryBuildString_eq_dec : EqDecision DirectoryBuildString.
Proof. solve_decision. Defined.
#[global] Instance BuildString_eq_dec : EqDecision BuildString.
Proof. solve_decision. Defined.

Definition GetFilepath (b : BuildString) : option bytes :=
  match b with Device b => d_filepath b | Directory b => dir_filepath b end.
Definition SetFilepath (value : bytes) (b : BuildString) : BuildString :=
  match b with
  | Device b => Device (mkDevice (branch_or_id b) (d_target b) (Some value))
  | Directory b => Directory (mkDirectory (paths b) (dir_target b) (Some value))
  end.
Definition WithFallbackTarget (b : BuildString) (fallback : bytes) : BuildString :=
  match b with
  | Device b => Device (mkDevice (branch_or_id b) (Some (default fallback (d_target b))) (d_filepath b))
  | Directory b => Directory b
  end.

(** [substr(pos, count)] for a position inside the string; a count that has wrapped goes to
    the end. *)
Definition substr (pos count : Z) (l : bytes) : bytes := zslice pos (u64 count) l.

Section strings.
Context `{Absl}.

Definition ParseFilepath (build_string : bytes) : result (bytes * option bytes) :=
  let open_bracket := find_first_of "{"%char build_string in
  let close_bracket := find_first_of "}"%char build_string in
  match open_bracket, close_bracket with
  | None, None => Ok (build_string, None)
  | Some op, Some cl =>
      let remaining_substring := substr 0 op build_string in
      let* _ := expect (negb (bool_decide (remaining_substring = []))) "The build string excluding filepath cannot be empty" in
      let filepath_start := op + 1 in
      let filepath_substring := substr filepath_start (cl - filepath_start) build_string in
      let* _ := expect (negb (bool_decide (filepath_substring = []))) "The filepath cannot be empty" in
      Ok (remaining_substring, Some filepath_substring)
  | _, _ => Err "Open or close curly bracket exists without its complement"
  end.

Definition ParseDeviceBuildString (build_string : bytes) (filepath : option bytes) : result BuildString :=
  match find_first_of "/"%char build_string with
  | None => Ok (Device (mkDevice build_string None filepath))
  | Some slash_pos =>
      let* _ := expect (match find_first_of "/"%char (zdrop (slash_pos + 1) build_string) with None => true | Some _ => false end)
        "Build string argument cannot have more than one '/'" in
      Ok (Device (mkDevice (ztake slash_pos build_string) (Some (zdrop (slash_pos + 1) build_string)) filepath))
  end.

Definition ParseDirectoryBuildString (build_string : bytes) (filepath : option bytes) : result BuildString :=
  let split := StrSplit build_string ":"%char in
  Ok (Directory (mkDirectory (removelast split) (List.last split []) filepath)).

Definition ParseBuildString (build_string : bytes) : result BuildString :=
  let* _ := expect (negb (bool_decide (build_string = []))) "The given build string cannot be empty" in
  let* (remaining_build_string, filepath) := ParseFilepath build_string in
  match find_first_of ":"%char remaining_build_string with
  | Some _ => ParseDirectoryBuildString remaining_build_string filepath
  | None => ParseDeviceBuildString remaining_build_string filepath
  end.

(** [operator<<]. *)
Definition quoted (name value : bytes) : bytes := name ++ str "=" ++ quote ++ value ++ quote.
Definition print_build (b : BuildString) : bytes :=
  match b with
  | Device b =>
      str "(" ++ quoted (str "branch_or_id") (branch_or_id b) ++ str ", " ++ quoted (str "target") (default [] (d_target b)) ++
      str ", " ++ quoted (str "filepath") (default [] (d_filepath b)) ++ str ")"
  | Directory b =>
      str "(" ++ quoted (str "paths") (join (str ":") (paths b)) ++ str ", " ++ quoted (str "target") (dir_target b) ++
      str ", " ++ quoted (str "filepath") (default [] (dir_filepath b)) ++ str ")"
  end.
Definition print_optional_build (b : option BuildString) : bytes :=
  match b with Some b => str "has_value(" ++ print_build b ++ str ")" | None => str "no_value()" end.

(** Chrome OS builds: a builder of a project, or a build id. *)
Inductive ChromeOsBuildString := ChromeOsBuilder (project bucket builder : bytes) | ChromeOsBuildId (id : bytes).
#[global] Instance ChromeOsBuildString_eq_dec : EqDecision ChromeOsBuildString.
Proof. solve_decision. Defined.

Definition ParseChromeOsBuildString (build_string : bytes) : result ChromeOsBuildString :=
  match base.filter (fun f => f <> []) (StrSplit build_string "/"%char) with
  | [id] => Ok (ChromeOsBuildId id)
  | [project; bucket; builder] => Ok (ChromeOsBuilder project bucket builder)
  | _ => Err "Can't parse as Chrome OS build string"
  end.
Definition print_chrome_os (b : option ChromeOsBuildString) : bytes :=
  match b with
  | None => []
  | Some (ChromeOsBuildId id) => id
  | Some (ChromeOsBuilder project bucket builder) => project ++ str "/" ++ bucket ++ str "/" ++ builder
  end.

(** ** Flags bound to build strings *)
Section flags.
Context {S : Type}.

Definition GflagsCompatFlag_build (name : bytes) (value : ref S (option BuildString)) : result (Flag S) :=
  let* f := StringFlag name in
  Ok (Setter (fun arg =>
        let! _ := modify (store value None) in
        if bool_decide (arg = []) then mret tt
        else let! b := lift (ParseBuildString arg) in modify (store value (Some b)))
      (Getter (fun s => print_optional_build (deref value s)) f)).

(** The loop over the parts; what was parsed before an error stays. *)
Fixpoint emplace_all {T} (parse : bytes -> result T) (value : ref S (list (option T))) (str_vals : list bytes) : M S unit :=
  match str_vals with
  | [] => mret tt
  | str_val :: str_vals =>
      let! v := if bool_decide (str_val = []) then mret None
                else let! b := lift (parse str_val) in mret (Some b) in
      let! _ := modify (fun s => store value (deref value s ++ [v]) s) in
      emplace_all parse value str_vals
  end.
Definition set_builds {T} (parse : bytes -> result T) (value : ref S (list (option T))) (arg : bytes) : M S unit :=
  let! _ := modify (store value []) in
  if bool_decide (arg = []) then mret tt else emplace_all parse value (StrSplit arg ","%char).

Definition GflagsCompatFlag_builds (name : bytes) (value : ref S (list (option BuildString))) : result (Flag S) :=
  let* f := StringFlag name in
  Ok (Setter (set_builds ParseBuildString value)
      (Getter (fun s => StrJoin (print_optional_build <$> deref value s) (str ",")) f)).
Definition GflagsCompatFlag_chrome_os (name : bytes) (value : ref S (list (option ChromeOsBuildString))) : result (Flag S) :=
  let* f := StringFlag name in
  Ok (Getter (fun s => join (str ",") (print_chrome_os <$> deref value s))
      (Setter (set_builds ParseChromeOsBuildString value) f)).

(** [std::chrono::seconds]; unlike the other integers it is left alone by an error. *)
Definition GflagsCompatFlagSeconds (name : bytes) (value : ref S Z) : result (Flag S) :=
  let* f := StringFlag name in
  Ok (Setter (fun arg =>
        let '(ok, parsed_int) := SimpleAtoi (int_min int32_t) (int_max int32_t) arg in
        let! _ := lift (expect ok "Failed to parse as an integer") in
        modify (store value parsed_int))
      (Getter (fun s => to_string (deref value s)) f)).
End flags.
End strings.

(** ** The flags of a fetch *)
Record VectorFlags := mkVectorFlags {
  target_subdirectory : list bytes;
  default_build : list (option BuildString);
  system_build : list (option BuildString);
  kernel_build : list (option BuildString);
  boot_build : list (option BuildString);
  bootloader_build : list (option BuildString);
  android_efi_loader_build : list (option BuildString);
  otatools_build : list (option BuildString);
  test_suites_build : list (option BuildString);
  chrome_os_build : list (option ChromeOsBuildString);
  download_img_zip : list bool;
  download_target_files_zip : list bool;
  boot_artifact : list bytes;
  dynamic_super_image : list bool
}.
Record CredentialFlags := mkCredentialFlags {
  use_gce_metadata : bool;
  credential_filepath : bytes;
  service_account_filepath : bytes
}.
Record BuildApiFlags := mkBuildApiFlags {
  api_key : bytes;
  credential_flags : CredentialFlags;
  credential_source : bytes;
  project_id : bytes;
  wait_retry_period : Z;
  api_base_url : bytes;
  enable_caching : bool;
  max_cache_size_gb : Z
}.
Record FetchFlags := mkFetchFlags {
  target_directory : bytes;
  host_package_build : option BuildString;
  keep_downloaded_archives : bool;
  helpxml : bool;
  build_api_flags : BuildApiFlags;
  vector_flags : VectorFlags;
  host_substitutions : list bytes
}.

(** References to the members. *)
Definition target_subdirectory_ref : ref VectorFlags (list bytes) :=
  mkRef target_subdirectory (fun v x => mkVectorFlags v (default_build x) (system_build x) (kernel_build x) (boot_build x) (bootloader_build x) (android_efi_loader_build x) (otatools_build x) (test_suites_build x) (chrome_os_build x) (download_img_zip x) (download_target_files_zip x) (boot_artifact x) (dynamic_super_image x)).
Definition default_build_ref : ref VectorFlags (list (option BuildString)) :=
  mkRef default_build (fun v x => mkVectorFlags (target_subdirectory x) v (system_build x) (kernel_build x) (boot_build x) (bootloader_build x) (android_efi_loader_build x) (otatools_build x) (test_suites_build x) (chrome_os_build x) (download_img_zip x) (download_target_files_zip x) (boot_artifact x) (dynamic_super_image x)).
Definition system_build_ref : ref VectorFlags (list (option BuildString)) :=
  mkRef system_build (fun v x => mkVectorFlags (target_subdirectory x) (default_build x) v (kernel_build x) (boot_build x) (bootloader_build x) (android_efi_loader_build x) (otatools_build x) (test_suites_build x) (chrome_os_build x) (download_img_zip x) (download_target_files_zip x) (boot_artifact x) (dynamic_super_image x)).
Definition kernel_build_ref : ref VectorFlags (list (option BuildString)) :=
  mkRef kernel_build (fun v x => mkVectorFlags (target_subdirectory x) (default_build x) (system_build x) v (boot_build x) (bootloader_build x) (android_efi_loader_build x) (otatools_build x) (test_suites_build x) (chrome_os_build x) (download_img_zip x) (download_target_files_zip x) (boot_artifact x) (dynamic_super_image x)).
Definition boot_build_ref : ref VectorFlags (list (option BuildString)) :=
  mkRef boot_build (fun v x => mkVectorFlags (target_subdirectory x) (default_build x) (system_build x) (kernel_build x) v (bootloader_build x) (android_efi_loader_build x) (otatools_build x) (test_suites_build x) (chrome_os_build x) (download_img_zip x) (download_target_files_zip x) (boot_artifact x) (dynamic_super_image x)).
Definition bootloader_build_ref : ref VectorFlags (list (option BuildString)) :=
  mkRef bootloader_build (fun v x => mkVectorFlags (target_subdirectory x) (default_build x) (system_build x) (kernel_build x) (boot_build x) v (android_efi_loader_build x) (otatools_build x) (test_suites_build x) (chrome_os_build x) (download_img_zip x) (download_target_files_zip x) (boot_artifact x) (dynamic_super_image x)).
Definition android_efi_loader_build_ref : ref VectorFlags (list (option BuildString)) :=
  mkRef android_efi_loader_build (fun v x => mkVectorFlags (target_subdirectory x) (default_build x) (system_build x) (kernel_build x) (boot_build x) (bootloader_build x) v (otatools_build x) (test_suites_build x) (chrome_os_build x) (download_img_zip x) (download_target_files_zip x) (boot_artifact x) (dynamic_super_image x)).
Definition otatools_build_ref : ref VectorFlags (list (option BuildString)) :=
  mkRef otatools_build (fun v x => mkVectorFlags (target_subdirectory x) (default_build x) (system_build x) (kernel_build x) (boot_build x) (bootloader_build x) (android_efi_loader_build x) v (test_suites_build x) (chrome_os_build x) (download_img_zip x) (download_target_files_zip x) (boot_artifact x) (dynamic_super_image x)).
Definition test_suites_build_ref : ref VectorFlags (list (option BuildString)) :=
  mkRef test_suites_build (fun v x => mkVectorFlags (target_subdirectory x) (default_build x) (system_build x) (kernel_build x) (boot_build x) (bootloader_build x) (android_efi_loader_build x) (otatools_build x) v (chrome_os_build x) (download_img_zip x) (download_target_files_zip x) (boot_artifact x) (dynamic_super_image x)).
Definition chrome_os_build_ref : ref VectorFlags (list (option ChromeOsBuildString)) :=
  mkRef chrome_os_build (fun v x => mkVectorFlags (target_subdirectory x) (default_build x) (system_build x) (kernel_build x) (boot_build x) (bootloader_build x) (android_efi_loader_build x) (otatools_build x) (test_suites_build x) v (download_img_zip x) (download_target_files_zip x) (boot_artifact x) (dynamic_super_image x)).
Definition download_img_zip_ref : ref VectorFlags (list bool) :=
  mkRef download_img_zip (fun v x => mkVectorFlags (target_subdirectory x) (default_build x) (system_build x) (kernel_build x) (boot_build x) (bootloader_build x) (android_efi_loader_build x) (otatools_build x) (test_suites_build x) (chrome_os_build x) v (download_target_files_zip x) (boot_artifact x) (dynamic_super_image x)).
Definition download_target_files_zip_ref : ref VectorFlags (list bool) :=
  mkRef download_target_files_zip (fun v x => mkVectorFlags (target_subdirectory x) (default_build x) (system_build x) (kernel_build x) (boot_build x) (bootloader_build x) (android_efi_loader_build x) (otatools_build x) (test_suites_build x) (chrome_os_build x) (download_img_zip x) v (boot_artifact x) (dynamic_super_image x)).
Definition boot_artifact_ref : ref VectorFlags (list bytes) :=
  mkRef boot_artifact (fun v x => mkVectorFlags (target_subdirectory x) (default_build x) (system_build x) (kernel_build x) (boot_build x) (bootloader_build x) (android_efi_loader_build x) (otatools_build x) (test_suites_build x) (chrome_os_build x) (download_img_zip x) (download_target_files_zip x) v (dynamic_super_image x)).
Definition dynamic_super_image_ref : ref VectorFlags (list bool) :=
  mkRef dynamic_super_image (fun v x => mkVectorFlags (target_subdirectory x) (default_build x) (system_build x) (kernel_build x) (boot_build x) (bootloader_build x) (android_efi_loader_build x) (otatools_build x) (test_suites_build x) (chrome_os_build x) (download_img_zip x) (download_target_files_zip x) (boot_artifact x) v).
Definition use_gce_metadata_ref : ref CredentialFlags (bool) :=
  mkRef use_gce_metadata (fun v x => mkCredentialFlags v (credential_filepath x) (service_account_filepath x)).
Definition credential_filepath_ref : ref CredentialFlags (bytes) :=
  mkRef credential_filepath (fun v x => mkCredentialFlags (use_gce_metadata x) v (service_account_filepath x)).
Definition service_account_filepath_ref : ref CredentialFlags (bytes) :=
  mkRef service_account_filepath (fun v x => mkCredentialFlags (use_gce_metadata x) (credential_filepath x) v).
Definition api_key_ref : ref BuildApiFlags (bytes) :=
  mkRef api_key (fun v x => mkBuildApiFlags v (credential_flags x) (credential_source x) (project_id x) (wait_retry_period x) (api_base_url x) (enable_caching x) (max_cache_size_gb x)).
Definition credential_flags_ref : ref BuildApiFlags (CredentialFlags) :=
  mkRef credential_flags (fun v x => mkBuildApiFlags (api_key x) v (credential_source x) (project_id x) (wait_retry_period x) (api_base_url x) (enable_caching x) (max_cache_size_gb x)).
Definition credential_source_ref : ref BuildApiFlags (bytes) :=
  mkRef credential_source (fun v x => mkBuildApiFlags (api_key x) (credential_flags x) v (project_id x) (wait_retry_period x) (api_base_url x) (enable_caching x) (max_cache_size_gb x)).
Definition project_id_ref : ref BuildApiFlags (bytes) :=
  mkRef project_id (fun v x => mkBuildApiFlags (api_key x) (credential_flags x) (credential_source x) v (wait_retry_period x) (api_base_url x) (enable_caching x) (max_cache_size_gb x)).
Definition wait_retry_period_ref : ref BuildApiFlags (Z) :=
  mkRef wait_retry_period (fun v x => mkBuildApiFlags (api_key x) (credential_flags x) (credential_source x) (project_id x) v (api_base_url x) (enable_caching x) (max_cache_size_gb x)).
Definition api_base_url_ref : ref BuildApiFlags (bytes) :=
  mkRef api_base_url (fun v x => mkBuildApiFlags (api_key x) (credential_flags x) (credential_source x) (project_id x) (wait_retry_period x) v (enable_caching x) (max_cache_size_gb x)).
Definition enable_caching_ref : ref BuildApiFlags (bool) :=
  mkRef enable_caching (fun v x => mkBuildApiFlags (api_key x) (credential_flags x) (credential_source x) (project_id x) (wait_retry_period x) (api_base_url x) v (max_cache_size_gb x)).
Definition max_cache_size_gb_ref : ref BuildApiFlags (Z) :=
  mkRef max_cache_size_gb (fun v x => mkBuildApiFlags (api_key x) (credential_flags x) (credential_source x) (project_id x) (wait_retry_period x) (api_base_url x) (enable_caching x) v).
Definition target_directory_ref : ref FetchFlags (bytes) :=
  mkRef target_directory (fun v x => mkFetchFlags v (host_package_build x) (keep_downloaded_archives x) (helpxml x) (build_api_flags x) (vector_flags x) (host_substitutions x)).
Definition host_package_build_ref : ref FetchFlags (option BuildString) :=
  mkRef host_package_build (fun v x => mkFetchFlags (target_directory x) v (keep_downloaded_archives x) (helpxml x) (build_api_flags x) (vector_flags x) (host_substitutions x)).
Definition keep_downloaded_archives_ref : ref FetchFlags (bool) :=
  mkRef keep_downloaded_archives (fun v x => mkFetchFlags (target_directory x) (host_package_build x) v (helpxml x) (build_api_flags x) (vector_flags x) (host_substitutions x)).
Definition helpxml_ref : ref FetchFlags (bool) :=
  mkRef helpxml (fun v x => mkFetchFlags (target_directory x) (host_package_build x) (keep_downloaded_archives x) v (build_api_flags x) (vector_flags x) (host_substitutions x)).
Definition build_api_flags_ref : ref FetchFlags (BuildApiFlags) :=
  mkRef build_api_flags (fun v x => mkFetchFlags (target_directory x) (host_package_build x) (keep_downloaded_archives x) (helpxml x) v (vector_flags x) (host_substitutions x)).
Definition vector_flags_ref : ref FetchFlags (VectorFlags) :=
  mkRef vector_flags (fun v x => mkFetchFlags (target_directory x) (host_package_build x) (keep_downloaded_archives x) (helpxml x) (build_api_flags x) v (host_substitutions x)).
Definition host_substitutions_ref : ref FetchFlags (list bytes) :=
  mkRef host_substitutions (fun v x => mkFetchFlags (target_directory x) (host_package_build x) (keep_downloaded_archives x) (helpxml x) (build_api_flags x) (vector_flags x) v).

Definition inside {A B C} (r : ref A B) (r' : ref B C) : ref A C :=
  mkRef (fun s => deref r' (deref r s)) (fun v s => store r (store r' v (deref r s)) s).

Definition kDefaultDownloadImgZip : bool := true.
Definition kDefaultDownloadTargetFilesZip : bool := false.
Definition kDefaultDynamicSuperImageFragments : bool := false.

(** Default member initializers; [url] is [kAndroidBuildServiceUrl]. *)
Definition FetchFlags_ (url : bytes) : FetchFlags :=
  mkFetchFlags [] None false false
    (mkBuildApiFlags [] (mkCredentialFlags false [] []) [] [] 20 url true 25)
    (mkVectorFlags [] [] [] [] [] [] [] [] [] [] [] [] [] []) [].

Section parse.
Context `{Absl} (Cas : Type).

(** The variables the flags are bound to, with the output streams; [cas] are those of the
    CAS downloader. *)
Record Store := mkStore {
  fetch_flags : FetchFlags;
  directory : bytes;
  std_out : bytes;
  info_log : list bytes;
  cas : Cas
}.
Definition fetch_flags_ref : ref Store (FetchFlags) :=
  mkRef fetch_flags (fun v x => mkStore v (directory x) (std_out x) (info_log x) (cas x)).
Definition directory_ref : ref Store (bytes) :=
  mkRef directory (fun v x => mkStore (fetch_flags x) v (std_out x) (info_log x) (cas x)).
Definition std_out_ref : ref Store (bytes) :=
  mkRef std_out (fun v x => mkStore (fetch_flags x) (directory x) v (info_log x) (cas x)).
Definition info_log_ref : ref Store (list bytes) :=
  mkRef info_log (fun v x => mkStore (fetch_flags x) (directory x) (std_out x) v (cas x)).
Definition cas_ref : ref Store (Cas) :=
  mkRef cas (fun v x => mkStore (fetch_flags x) (directory x) (std_out x) (info_log x) v).

Fixpoint collect {A} (l : list (result A)) : result (list A) :=
  match l with
  | [] => Ok []
  | r :: l => let* x := r in let* xs := collect l in Ok (x :: xs)
  end.

Definition vector_ref {T} (r : ref VectorFlags T) : ref Store T := inside (inside fetch_flags_ref vector_flags_ref) r.
Definition api_ref {T} (r : ref BuildApiFlags T) : ref Store T := inside (inside fetch_flags_ref build_api_flags_ref) r.
Definition credential_ref {T} (r : ref CredentialFlags T) : ref Store T := inside (api_ref credential_flags_ref) r.

Definition VectorFlags_Flags : list (result (Flag Store)) := [
  GflagsCompatFlag_strings (str "target_subdirectory") (vector_ref target_subdirectory_ref);
  GflagsCompatFlag_builds (str "default_build") (vector_ref default_build_ref);
  GflagsCompatFlag_builds (str "system_build") (vector_ref system_build_ref);
  GflagsCompatFlag_builds (str "kernel_build") (vector_ref kernel_build_ref);
  GflagsCompatFlag_builds (str "boot_build") (vector_ref boot_build_ref);
  GflagsCompatFlag_builds (str "bootloader_build") (vector_ref bootloader_build_ref);
  GflagsCompatFlag_builds (str "android_efi_loader_build") (vector_ref android_efi_loader_build_ref);
  GflagsCompatFlag_builds (str "otatools_build") (vector_ref otatools_build_ref);
  GflagsCompatFlag_builds (str "test_suites_build") (vector_ref test_suites_build_ref);
  GflagsCompatFlag_chrome_os (str "chrome_os_build") (vector_ref chrome_os_build_ref);
  GflagsCompatFlag_strings (str "boot_artifact") (vector_ref boot_artifact_ref);
  GflagsCompatFlag_bools (str "download_img_zip") (vector_ref download_img_zip_ref) kDefaultDownloadImgZip;
  GflagsCompatFlag_bools (str "download_target_files_zip") (vector_ref download_target_files_zip_ref) kDefaultDownloadTargetFilesZip;
  GflagsCompatFlag_bools (str "dynamic_super_image") (vector_ref dynamic_super_image_ref) kDefaultDynamicSuperImageFragments ].

Definition CredentialFlags_Flags : list (result (Flag Store)) := [
  GflagsCompatFlag_bool (str "use_gce_metadata") (credential_ref use_gce_metadata_ref);
  GflagsCompatFlag_string (str "credential_filepath") (credential_ref credential_filepath_ref);
  GflagsCompatFlag_string (str "service_account_filepath") (credential_ref service_account_filepath_ref) ].

Context (cas_downloader_flags : list (result (Flag Store))).

Definition BuildApiFlags_Flags : list (result (Flag Store)) := [
  GflagsCompatFlag_string (str "api_key") (api_ref api_key_ref);
  GflagsCompatFlag_string (str "credential_source") (api_ref credential_source_ref);
  GflagsCompatFlag_string (str "project_id") (api_ref project_id_ref);
  GflagsCompatFlagSeconds (str "wait_retry_period") (api_ref wait_retry_period_ref);
  GflagsCompatFlag_string (str "api_base_url") (api_ref api_base_url_ref);
  GflagsCompatFlag_bool (str "enable_caching") (api_ref enable_caching_ref);
  GflagsCompatFlag_int size_t (str "max_cache_size_gb") (api_ref max_cache_size_gb_ref) ] ++
  CredentialFlags_Flags ++ cas_downloader_flags.

(** What the two help flags print is the list without themselves. *)
Definition GetFlagsVector (help_message : bytes) : result (list (Flag Store)) :=
  let* flags := collect ([
    GflagsCompatFlag_string (str "directory") directory_ref;
    GflagsCompatFlag_string (str "target_directory") (inside fetch_flags_ref target_directory_ref);
    GflagsCompatFlag_bool (str "keep_downloaded_archives") (inside fetch_flags_ref keep_downloaded_archives_ref);
    GflagsCompatFlag_build (str "host_package_build") (inside fetch_flags_ref host_package_build_ref);
    GflagsCompatFlag_strings (str "host_substitutions") (inside fetch_flags_ref host_substitutions_ref) ] ++
    BuildApiFlags_Flags ++ VectorFlags_Flags) in
  let* help := HelpFlag flags info_log_ref help_message in
  let* xml := HelpXmlFlag flags std_out_ref (inside fetch_flags_ref helpxml_ref) help_message in
  Ok (flags ++ [help; xml]).

(** ** Checks over all flags *)
(** The sizes compared; [dynamic_super_image] is not among them. *)
Definition flag_sizes (v : VectorFlags) : list Z :=
  [ zlen (default_build v); zlen (system_build v); zlen (kernel_build v); zlen (boot_build v); zlen (bootloader_build v);
    zlen (android_efi_loader_build v); zlen (otatools_build v); zlen (test_suites_build v); zlen (chrome_os_build v);
    zlen (boot_artifact v); zlen (download_img_zip v); zlen (download_target_files_zip v); zlen (target_subdirectory v) ].
Fixpoint common_size (number_of_builds : option Z) (sizes : list Z) : result (option Z) :=
  match sizes with
  | [] => Ok number_of_builds
  | flag_size :: sizes =>
      if flag_size =? 0 then common_size number_of_builds sizes
      else
        let* _ := match number_of_builds with
                  | Some n => expect (flag_size =? n) "Mismatched flag lengths"
                  | None => Ok tt
                  end in
        common_size (Some flag_size) sizes
  end.
Definition NumberOfBuilds (v : VectorFlags) : result Z :=
  let* n := common_size None (flag_sizes v) in Ok (as_i32 (default 1 n)).

Definition bool_count (b : bool) : Z := if b then 1 else 0.
Definition is_set (v : bytes) : bool := negb (bool_decide (v = [])).

Definition AbsolutePath (real_cwd : option bytes) (path : bytes) : bytes :=
  match path with
  | [] => []
  | c :: _ =>
      if bool_decide (c = "/"%char) then path
      else match real_cwd with Some cwd => cwd ++ str "/" ++ path | None => [] end
  end.

(** After the flags have been consumed. *)
Definition check_flags (current_directory : bytes) (real_cwd : option bytes) (s : Store) : result FetchFlags :=
  let ff := fetch_flags s in
  let target := if is_set (directory s)
                then if is_set (target_directory ff) then target_directory ff else directory s
                else if is_set (target_directory ff) then target_directory ff else current_directory in
  let ff := store target_directory_ref (AbsolutePath real_cwd target) ff in
  let v := vector_flags ff in
  let* _ := match boot_artifact v with
            | [] => Ok tt
            | _ => expect (forallb (fun b => match b with
                                            | Some b => bool_decide (GetFilepath b = None)
                                            | None => true
                                            end) (boot_build v))
                     "Cannot use both the --boot_artifact flag and set the filepath in the boot build string"
            end in
  let api := build_api_flags ff in
  let c := credential_flags api in
  let* _ := expect (bool_count (is_set (credential_source api)) + bool_count (use_gce_metadata c) +
                    bool_count (is_set (credential_filepath c)) + bool_count (is_set (service_account_filepath c)) <=? 1)
              "At most a single credential flag may be set." in
  let* _ := NumberOfBuilds v in
  Ok ff.

Definition Parse (moved_from : bytes -> bytes) (help_message url current_directory : bytes) (real_cwd : option bytes)
    (cas0 : Cas) (args : list bytes) : result FetchFlags * list bytes :=
  match GetFlagsVector help_message with
  | Ok flags =>
      match ConsumeFlags moved_from flags (mkOpts false true) (mkStore (FetchFlags_ url) [] [] [] cas0, args) with
      | (Ok _, (s, args)) => (check_flags current_directory real_cwd s, args)
      | (fl, (_, args)) => (fail_as fl, args)
      end
  | fl => (fail_as fl, args)
  end.
End parse.

(** ** Targets *)
Record BuildStrings := mkBuildStrings {
  b_default_build : option BuildString; b_system_build : option BuildString; b_kernel_build : option BuildString;
  b_boot_build : option BuildString; b_bootloader_build : option BuildString;
  b_android_efi_loader_build : option BuildString; b_otatools_build : option BuildString;
  b_test_suites_build : option BuildString; b_host_package_build : option BuildString;
  b_chrome_os_build : option ChromeOsBuildString
}.
Record DownloadFlags := mkDownloadFlags {
  d_download_img_zip : bool; d_download_target_files_zip : bool; d_dynamic_super_image : bool
}.
Record TargetDirectories := mkTargetDirectories { root : bytes; otatools : bytes; chrome_os : bytes; test_suites : bytes }.
Record Target := mkTarget { build_strings : BuildStrings; download_flags : DownloadFlags; directories : TargetDirectories }.
Record HostToolsTarget := mkHostToolsTarget { build_string : option BuildString; host_tools_directory : bytes }.

Definition GetOptional {T} (v : list T) (i : nat) : option T := v !! i.
Definition GetOptional_opt {T} (v : list (option T)) (i : nat) : option T := mjoin (v !! i).

Definition BuildStrings_Create (v : VectorFlags) (i : nat) : BuildStrings :=
  let possible_boot_artifact := default [] (GetOptional (boot_artifact v) i) in
  let boot := GetOptional_opt (boot_build v) i in
  mkBuildStrings (GetOptional_opt (default_build v) i) (GetOptional_opt (system_build v) i)
    (GetOptional_opt (kernel_build v) i)
    (if is_set possible_boot_artifact then SetFilepath possible_boot_artifact <$> boot else boot)
    (GetOptional_opt (bootloader_build v) i) (GetOptional_opt (android_efi_loader_build v) i)
    (GetOptional_opt (otatools_build v) i) (GetOptional_opt (test_suites_build v) i) None
    (GetOptional_opt (chrome_os_build v) i).

Definition DownloadFlags_Create (v : VectorFlags) (i : nat) : DownloadFlags :=
  mkDownloadFlags (default kDefaultDownloadImgZip (GetOptional (download_img_zip v) i))
    (default kDefaultDownloadTargetFilesZip (GetOptional (download_target_files_zip v) i))
    (default kDefaultDynamicSuperImageFragments (GetOptional (dynamic_super_image v) i)).

Definition TargetDirectories_Create (target_directory : bytes) (target_subdirectories : list bytes) (i : nat)
    (append_subdirectory : bool) : TargetDirectories :=
  let base_directory :=
    if append_subdirectory
    then target_directory ++ str "/" ++
         default (str "instance_" ++ to_string (Z.of_nat i)) (GetOptional target_subdirectories i)
    else target_directory in
  mkTargetDirectories base_directory (base_directory ++ str "/otatools/") (base_directory ++ str "/chromeos")
    (base_directory ++ str "/test_suites").

Definition kHostToolsSubdirectory : bytes := str "host_tools".
Definition HostToolsTarget_Create (flags : FetchFlags) (append_subdirectory : bool) : HostToolsTarget :=
  mkHostToolsTarget (host_package_build flags)
    (if append_subdirectory then target_directory flags ++ str "/" ++ kHostToolsSubdirectory else target_directory flags).

Definition number_or_one (v : VectorFlags) : Z := match NumberOfBuilds v with Ok n => n | _ => 1 end.
Definition ShouldAppendSubdirectory (flags : FetchFlags) : bool :=
  (1 <? number_or_one (vector_flags flags)) || negb (bool_decide (target_subdirectory (vector_flags flags) = [])).
Definition GetFetchTargets (flags : FetchFlags) (append_subdirectory : bool) : list Target :=
  (fun i => mkTarget (BuildStrings_Create (vector_flags flags) i) (DownloadFlags_Create (vector_flags flags) i)
     (TargetDirectories_Create (target_directory flags) (target_subdirectory (vector_flags flags)) i append_subdirectory)) <$>
  seq 0 (Z.to_nat (number_or_one (vector_flags flags))).

(** ** Build strings read what the usage text describes *)
Definition filepath_text (f : option bytes) : bytes := match f with Some f => str "{" ++ f ++ str "}" | None => [] end.
Definition name_text (b : BuildString) : bytes :=
  match b with
  | Device b => branch_or_id b ++ match d_target b with Some t => str "/" ++ t | None => [] end
  | Directory b => join (str ":") (paths b ++ [dir_target b])
  end.
Definition build_text (b : BuildString) : bytes := name_text b ++ filepath_text (GetFilepath b).

(** No character of the list. *)
Definition avoids (cs : list ascii) (l : bytes) : Prop := Forall (fun c => c ∉ l) cs.
Definition well_formed (b : BuildString) : Prop :=
  match b with
  | Device b =>
      branch_or_id b <> [] /\ avoids ["{"%char; "}"%char; "/"%char; ":"%char] (branch_or_id b) /\
      match d_target b with Some t => avoids ["{"%char; "}"%char; "/"%char; ":"%char] t | None => True end
  | Directory b => paths b <> [] /\ Forall (avoids ["{"%char; "}"%char; ":"%char]) (paths b ++ [dir_target b])
  end /\
  match GetFilepath b with Some f => f <> [] /\ ("}"%char ∉ f) | None => True end /\
  zlen (build_text b) < 2 ^ 64.

Lemma find_first_none c l : c ∉ l -> find_first_of c l = None.
Proof.
  intros Hl. pose proof (find_first_of_spec c l) as Hf. destruct (find_first_of c l); [|done].
  destruct Hf as (a & b & -> & _). destruct Hl. rewrite elem_of_app, elem_of_cons. auto.
Qed.

Section build_strings.
Context `{Absl}.

Lemma ParseFilepath_text base f :
  base <> [] -> "{"%char ∉ base -> "}"%char ∉ base -> match f with Some f => f <> [] /\ ("}"%char ∉ f) | None => True end ->
  zlen (base ++ filepath_text f) < 2 ^ 64 ->
  ParseFilepath (base ++ filepath_text f) = Ok (base, f).
Proof.
  intros Hne Ho Hc Hf Hlen. unfold ParseFilepath. destruct f as [f|]; cbn [filepath_text] in *.
  2: { by rewrite app_nil_r, !find_first_none. }
  destruct Hf as [Hfn Hfc]. change (str "{" ++ f ++ str "}") with ("{"%char :: f ++ ["}"%char]) in *.
  rewrite find_first_of_app by done.
  assert (Hcl : find_first_of "}"%char (base ++ "{"%char :: f ++ ["}"%char]) = Some (zlen base + 1 + zlen f)).
  { replace (base ++ "{"%char :: f ++ ["}"%char]) with ((base ++ "{"%char :: f) ++ ["}"%char]) by (by rewrite <- app_assoc).
    rewrite find_first_of_app; [rewrite zlen_app, zlen_cons; f_equal; lia|]. rewrite elem_of_app, elem_of_cons. naive_solver. }
  rewrite Hcl. unfold substr, zslice. rewrite zlen_app, zlen_cons, zlen_app in Hlen.
  pose proof (zlen_nonneg base). pose proof (zlen_nonneg f). change (zlen ["}"%char]) with 1 in Hlen.
  rewrite !u64_id by (unfold is_u64; lia). rewrite zdrop_0, ztake_exact by lia. rewrite bool_decide_eq_false_2 by done. cbn [negb expect rbind].
  replace (zlen base + 1 + zlen f - (zlen base + 1)) with (zlen f) by lia.
  assert (Hd : zdrop (zlen base + 1) (base ++ "{"%char :: f ++ ["}"%char]) = f ++ ["}"%char]).
  { replace (base ++ "{"%char :: f ++ ["}"%char]) with ((base ++ ["{"%char]) ++ f ++ ["}"%char]) by (by rewrite <- app_assoc).
    apply zdrop_exact. rewrite zlen_app. done. }
  by rewrite Hd, ztake_exact, bool_decide_eq_false_2.
Qed.

Lemma join_avoids c sep ps : c ∉ sep -> Forall (fun p => c ∉ p) ps -> c ∉ join sep ps.
Proof.
  intros Hs. induction 1 as [|p ps Hp Hps IH]; [apply not_elem_of_nil|]. destruct ps as [|q ps]; [done|].
  rewrite join_cons by done. rewrite !elem_of_app. naive_solver.
Qed.

(** The name, without the file path, is not empty and has no brackets. *)
Lemma name_text_plain b : well_formed b -> name_text b <> [] /\ ("{"%char ∉ name_text b) /\ ("}"%char ∉ name_text b).
Proof.
  intros (Hb & _ & _). destruct b as [b|b]; cbn in Hb |- *.
  - destruct Hb as (Hne & Ha & Ht). unfold avoids in *. rewrite !Forall_cons in Ha. destruct Ha as (H1 & H2 & _).
    split; [by destruct (branch_or_id b)|]. destruct (d_target b) as [t|]; [|by rewrite app_nil_r].
    rewrite !Forall_cons in Ht. destruct Ht as (H3 & H4 & _). rewrite !elem_of_app. set_solver.
  - destruct Hb as [Hne Hall]. split.
    + destruct (paths b) as [|p ps]; [done|]. cbn [app]. rewrite join_cons by (by destruct ps). destruct p; done.
    + split; apply join_avoids; try (cbn; set_solver); (eapply Forall_impl; [exact Hall|]); intros p Hp; unfold avoids in Hp;
        rewrite !Forall_cons in Hp; tauto.
Qed.

Lemma parse_name b : well_formed b ->
  (match find_first_of ":"%char (name_text b) with
   | Some _ => ParseDirectoryBuildString (name_text b) (GetFilepath b)
   | None => ParseDeviceBuildString (name_text b) (GetFilepath b)
   end) = Ok b.
Proof.
  intros (Hb & _ & _). destruct b as [[br t f]|[ps t f]];
    cbn [name_text GetFilepath branch_or_id d_target d_filepath paths dir_target dir_filepath] in *.
  - destruct Hb as (Hne & Ha & Ht). unfold avoids in *. rewrite !Forall_cons in Ha. destruct Ha as (H1 & H2 & H3 & H4 & _).
    destruct t as [t|].
    + rewrite !Forall_cons in Ht. destruct Ht as (H5 & H6 & H7 & H8 & _).
      change (str "/" ++ t) with ("/"%char :: t).
      rewrite (find_first_none ":"%char) by (rewrite elem_of_app, elem_of_cons; naive_solver).
      unfold ParseDeviceBuildString. rewrite find_first_of_app by done.
      rewrite ztake_exact by done.
      assert (Hd : zdrop (zlen br + 1) (br ++ "/"%char :: t) = t).
      { replace (br ++ "/"%char :: t) with ((br ++ ["/"%char]) ++ t) by (by rewrite <- app_assoc). apply zdrop_exact. by rewrite zlen_app. }
      by rewrite Hd, find_first_none.
    + rewrite app_nil_r, find_first_none by done. unfold ParseDeviceBuildString. by rewrite find_first_none.
  - destruct Hb as [Hne Hall]. assert (Hpieces : Forall (fun p => ":"%char ∉ p) (ps ++ [t])).
    { eapply Forall_impl; [exact Hall|]. intros p Hp. unfold avoids in Hp. rewrite !Forall_cons in Hp. tauto. }
    destruct (find_first_of ":"%char (join (str ":") (ps ++ [t]))) eqn:E.
    + unfold ParseDirectoryBuildString. rewrite StrSplit_unique, split_on_join; [|by destruct ps|done].
      by rewrite removelast_last, last_last.
    + exfalso. destruct ps as [|p ps]; [done|]. cbn [app] in *. rewrite join_cons in E by (by destruct ps).
      apply Forall_cons in Hpieces as [Hp _]. change (str ":" ++ join (str ":") (ps ++ [t])) with (":"%char :: join (str ":") (ps ++ [t])) in E.
      by rewrite find_first_of_app in E.
Qed.

Lemma ParseBuildString_text b : well_formed b -> ParseBuildString (build_text b) = Ok b.
Proof.
  intros Hwf. destruct (name_text_plain b Hwf) as (Hne & Ho & Hc). pose proof Hwf as (_ & Hf & Hlen). unfold ParseBuildString, build_text in *.
  rewrite bool_decide_eq_false_2 by (by destruct (name_text b)). cbn [negb expect rbind].
  rewrite ParseFilepath_text by done. cbn [rbind]. by apply parse_name.
Qed.

(** ** Flags with several builds *)
Definition optional_text (b : option BuildString) : bytes := match b with Some b => build_text b | None => [] end.
Definition element (b : option BuildString) : Prop :=
  match b with Some b => well_formed b /\ (","%char ∉ build_text b) | None => True end.

Lemma build_text_nonempty b : well_formed b -> build_text b <> [].
Proof. intros Hwf. destruct (name_text_plain b Hwf) as (Hne & _). unfold build_text. by destruct (name_text b). Qed.

Lemma emplace_all_texts {S} (r : ref S (list (option BuildString))) bs s :
  ref_ok r -> Forall element bs ->
  exists s', emplace_all ParseBuildString r (optional_text <$> bs) s = (Ok tt, s') /\ deref r s' = deref r s ++ bs.
Proof.
  intros [Hget _] Hbs. revert s. induction Hbs as [|b bs Hb Hbs IH]; intros s; cbn [fmap list_fmap emplace_all].
  { exists s. by rewrite app_nil_r. }
  assert (Hv : (if bool_decide (optional_text b = []) then mret None
                else let! b0 := lift (ParseBuildString (optional_text b)) in mret (Some b0)) s = (Ok b, s)).
  { destruct b as [b|]; [|done]. destruct Hb as [Hwf _]. cbn [optional_text].
    rewrite bool_decide_eq_false_2 by (by apply build_text_nonempty). unfold mbind, lift. by rewrite ParseBuildString_text. }
  rewrite (mbind_run _ _ _ _ _ Hv). unfold mbind at 1, modify.
  destruct (IH (store r (deref r s ++ [b]) s)) as (s' & Hrun & Hd). exists s'. split; [done|]. by rewrite Hd, Hget, <- app_assoc.
Qed.

(** A build flag stores what its argument says: builds written in the documented
    syntax (branch or id, target, file path; or directories and target) and joined by
    commas, with nothing between two commas for a device that uses no such build, are
    read back as exactly this list, whatever the variable held before. *)
Theorem build_flag_roundtrip {S} (name : bytes) (r : ref S (list (option BuildString))) f bs s :
  GflagsCompatFlag_builds name r = Ok f -> ref_ok r -> Forall element bs -> bs <> [] -> bs <> [None] ->
  exists s', setter_ f (join (str ",") (optional_text <$> bs)) s = (Ok tt, s') /\ deref r s' = bs.
Proof.
  intros Hf Hr Hbs Hne Hn1. unfold GflagsCompatFlag_builds in Hf. destruct (StringFlag name) as [f0| | |]; cbn in Hf; try done. simplify_eq.
  cbn [setter_ Setter Getter]. unfold set_builds. unfold mbind, modify.
  assert (Hpieces : Forall (fun p => ","%char ∉ p) (optional_text <$> bs)).
  { apply Forall_fmap. eapply Forall_impl; [exact Hbs|]. intros [b|]; [by intros [_ ?]|]. intros _. apply not_elem_of_nil. }
  rewrite bool_decide_eq_false_2.
  - rewrite StrSplit_unique, split_on_join; [|by destruct bs|done].
    destruct (emplace_all_texts r bs (store r [] s) Hr Hbs) as (s' & Hrun & Hd). exists s'. split; [done|].
    rewrite Hd. by rewrite (proj1 Hr).
  - destruct bs as [|b [|b' bs]]; [done| |].
    + cbn. apply Forall_cons in Hbs as [Hb _]. destruct b as [b|]; [|done]. destruct Hb as [Hwf _]. by apply build_text_nonempty.
    + rewrite !fmap_cons, join_cons by done. destruct (optional_text b); done.
Qed.

(** ** From the flags to the targets *)
Lemma common_size_spec acc sizes r :
  common_size acc sizes = Ok r ->
  (forall n, acc = Some n -> r = Some n) /\ forall x, x ∈ sizes -> x = 0 \/ r = Some x.
Proof.
  revert acc. induction sizes as [|x sizes IH]; intros acc; cbn [common_size].
  { intros [= <-]. split; [done|]. by intros y ?%not_elem_of_nil. }
  destruct (Z.eqb_spec x 0) as [->|Hx].
  - intros [Ha Hs]%IH. split; [done|]. intros y [->|Hy]%elem_of_cons; auto.
  - intros Hrun. assert (Hacc : (acc = None \/ acc = Some x) /\ common_size (Some x) sizes = Ok r).
    { destruct acc as [n|]; cbn [rbind] in Hrun; [|by auto]. destruct (Z.eqb_spec x n) as [->|]; cbn in Hrun; [by auto|done]. }
    destruct Hacc as [Hacc [Ha Hs]%IH]. specialize (Ha x eq_refl). split.
    + intros n ->. destruct Hacc as [Hc|Hc]; congruence.
    + intros y [->|Hy]%elem_of_cons; auto.
Qed.

Definition builds_of (v : VectorFlags) : list (list (option BuildString)) :=
  [default_build v; system_build v; kernel_build v; boot_build v; bootloader_build v; android_efi_loader_build v;
   otatools_build v; test_suites_build v].
Definition strings_of (b : BuildStrings) : list (option BuildString) :=
  [b_default_build b; b_system_build b; b_kernel_build b; b_boot_build b; b_bootloader_build b; b_android_efi_loader_build b;
   b_otatools_build b; b_test_suites_build b].
Definition boot_index : nat := 3.

Lemma builds_of_size v k row : builds_of v !! k = Some row -> zlen row ∈ flag_sizes v.
Proof.
  unfold flag_sizes. do 8 (destruct k as [|k]; [cbn; intros [= <-]; rewrite !elem_of_cons; tauto|]). done.
Qed.

Lemma number_of_row v n k row i (b : option BuildString) :
  NumberOfBuilds v = Ok n -> Forall (fun x => x < 2 ^ 31) (flag_sizes v) -> builds_of v !! k = Some row -> row !! i = Some b ->
  number_or_one v = zlen row.
Proof.
  intros Hn Hsz Hk Hi. unfold number_or_one. rewrite Hn. unfold NumberOfBuilds in Hn.
  destruct (common_size None (flag_sizes v)) as [r| | |] eqn:E; cbn in Hn; try done. simplify_eq.
  apply common_size_spec in E as [_ Hs]. pose proof (builds_of_size v k row Hk) as Hin.
  assert (zlen row <> 0) by (unfold zlen; apply lookup_lt_Some in Hi; lia).
  destruct (Hs _ Hin) as [Hz0| ->]; [done|]. rewrite Forall_forall in Hsz. specialize (Hsz _ Hin). cbn beta in Hsz. cbn [default]. unfold id.
  pose proof (zlen_nonneg row). unfold as_i32. rewrite Z.mod_small; lia.
Qed.

(** The strings of a target are those of its position. *)
Lemma strings_at v k row i b :
  builds_of v !! k = Some row -> row !! i = Some (Some b) ->
  exists b', strings_of (BuildStrings_Create v i) !! k = Some (Some b') /\
    (b' = b \/ (k = boot_index /\ exists a, boot_artifact v !! i = Some a /\ a <> [] /\ b' = SetFilepath a b)).
Proof.
  intros Hk Hi. destruct (decide (k = boot_index)) as [->|Hne].
  - cbn in Hk. injection Hk as <-. cbn. unfold GetOptional_opt, GetOptional, is_set. rewrite Hi. cbn [mjoin option_join].
    destruct (boot_artifact v !! i) as [a|]; cbn [default]; [|by exists b; auto].
    case_bool_decide as Ha; cbn [negb]; [by exists b; auto|]. exists (SetFilepath a b). split; [done|]. right. split; [done|]. by exists a.
  - exists b. split; [|by auto]. unfold boot_index in Hne.
    do 8 (destruct k as [|k]; [try done; cbn in Hk |- *; injection Hk as <-; unfold GetOptional_opt; by rewrite Hi|]). done.
Qed.

Section targets.
Context (Cas : Type) (cas_flags : list (result (Flag (Store Cas)))).

Lemma check_flags_ok cwd real (s : Store Cas) ff :
  check_flags Cas cwd real s = Ok ff ->
  (exists n, NumberOfBuilds (vector_flags ff) = Ok n) /\
  (boot_artifact (vector_flags ff) <> [] -> Forall (fun b => forall x, b = Some x -> GetFilepath x = None) (boot_build (vector_flags ff))).
Proof.
  unfold check_flags. cbn zeta. set (v := vector_flags (store target_directory_ref _ _)). intros Hrun.
  apply rbind_ok in Hrun as ([] & Hboot & Hrun). apply rbind_ok in Hrun as ([] & _ & Hrun). apply rbind_ok in Hrun as (n & Hn & [= <-]).
  unfold v in *. cbn [store target_directory_ref vector_flags] in *.
  split; [by exists n|]. intros Hne. destruct (boot_artifact (vector_flags (fetch_flags Cas s))) as [|a l]; [done|]. apply expect_ok in Hboot.
  rewrite forallb_forall in Hboot. apply Forall_forall. intros b Hb x ->. apply list_elem_of_In in Hb. specialize (Hboot _ Hb). cbn in Hboot.
  by apply bool_decide_eq_true in Hboot.
Qed.

End targets.

(** Without names for them the targets get directories of their own, apart from the host
    tools. *)
Lemma default_directories_distinct ff i j t u :
  target_subdirectory (vector_flags ff) = [] ->
  GetFetchTargets ff true !! i = Some t -> GetFetchTargets ff true !! j = Some u -> i <> j ->
  root (directories t) <> root (directories u) /\ root (directories t) <> host_tools_directory (HostToolsTarget_Create ff true).
Proof.
  intros Hsub Ht Hu Hne. unfold GetFetchTargets in *. rewrite list_lookup_fmap in *.
  destruct (seq 0 _ !! i) as [x|] eqn:Ex; [|done]. destruct (seq 0 _ !! j) as [y|] eqn:Ey; [|done].
  apply lookup_seq in Ex as [-> _]. apply lookup_seq in Ey as [-> _]. cbn in Ht, Hu. simplify_eq. cbn. rewrite Hsub. cbn. split.
  - intros E. apply (app_inv_head (target_directory ff)) in E. by simplify_eq.
  - intros E. by apply app_inv_head in E.
Qed.
End build_strings.

(** ** Where the parser is too generous *)
(** A closing bracket before the opening one is part of the branch, and what follows the
    closing bracket is dropped. *)
Lemma misplaced_brackets :
  ParseBuildString (str "a}b{c") = Ok (Device (mkDevice (str "a}b") None (Some (str "c")))) /\
  ParseBuildString (str "a{f}/target") = Ok (Device (mkDevice (str "a") None (Some (str "f")))).
Proof. split; vm_compute; reflexivity. Qed.

(** A value of --dynamic_super_image for a target that does not exist is accepted, and
    ignored. *)
Lemma dynamic_super_image_unchecked :
  let v := mkVectorFlags [] [None] [] [] [] [] [] [] [] [] [] [] [] [false; true] in
  NumberOfBuilds v = Ok 1.
Proof. reflexivity. Qed.

(** ** Witnesses *)
Lemma build_flag_roundtrip_witness :
  let bs := [Some (Device (mkDevice (str "aosp-main") (Some (str "cf_x86_64")) (Some (str "boot.img")))); None;
             Some (Directory (mkDirectory [str "out"; str "dist"] (str "cf") None))] in
  let r : ref (list (option BuildString)) _ := mkRef (fun s => s) (fun v _ => v) in
  match GflagsCompatFlag_builds (str "boot_build") r with
  | Ok f => exists s', setter_ f (str "aosp-main/cf_x86_64{boot.img},,out:dist:cf") [] = (Ok tt, s') /\ deref r s' = bs
  | _ => False
  end.
Proof.
  intros bs r. destruct (GflagsCompatFlag_builds (str "boot_build") r) as [f| | |] eqn:E; [|done..].
  change (str "aosp-main/cf_x86_64{boot.img},,out:dist:cf") with (join (str ",") (optional_text <$> bs)).
  apply (build_flag_roundtrip (str "boot_build")).
  - exact E.
  - by split.
  - unfold bs. repeat constructor; cbn; unfold avoids; repeat (apply Forall_cons; split); try apply Forall_nil; try done;
      try (by vm_compute); try (by apply (bool_decide_unpack _); vm_compute).
  - done.
  - done.
Defined.

End Fetch.
