(* ===== verification/Instances.v ===== *)
(** * Instances and instance groups (host/commands/cvd/instances)

    device_name.cpp, local_instance.cpp and local_instance_group.cpp, over the
    messages of cvd_persistent_data.proto.  A [LocalInstanceGroup] owns one
    [InstanceGroup] message and its [LocalInstance]s point into it, so a local
    instance is an index into the group and its setters change the group. *)
From S2P Require Import Prelude CppString.

Module Instances.
Import CppString.

(** ** cvd_persistent_data.proto *)
(** proto3 enums are open: a file may hold a number outside the list. *)
Inductive InstanceState :=
| INSTANCE_STATE_UNSPECIFIED | INSTANCE_STATE_PREPARING | INSTANCE_STATE_STARTING
| INSTANCE_STATE_RUNNING | INSTANCE_STATE_STOPPING | INSTANCE_STATE_STOPPED
| INSTANCE_STATE_PREPARE_FAILED | INSTANCE_STATE_BOOT_FAILED | INSTANCE_STATE_UNREACHABLE
| INSTANCE_STATE_CANCELLED | INSTANCE_STATE_other (n : Z).
#[global] Instance InstanceState_eq_dec : EqDecision InstanceState.
Proof. solve_decision. Defined.

Record Instance := mkInstance {
  id : Z; name : bytes; state : InstanceState; webrtc_device_id : bytes
}.
#[global] Instance Instance_eq_dec : EqDecision Instance.
Proof. solve_decision. Defined.

Record InstanceGroup := mkGroup {
  group_name : bytes; home_directory : bytes; host_artifacts_path : bytes;
  product_out_path : bytes; start_time_sec : Z; instances : list Instance
}.
#[global] Instance InstanceGroup_eq_dec : EqDecision InstanceGroup.
Proof. solve_decision. Defined.

(** [PersistentData]: its repeated field [instance_groups]. *)
Abbreviation PersistentData := (list InstanceGroup).

Definition set_state (st : InstanceState) (i : Instance) : Instance :=
  mkInstance (id i) (name i) st (webrtc_device_id i).
Definition set_webrtc (w : bytes) (i : Instance) : Instance :=
  mkInstance (id i) (name i) (state i) w.
Definition set_instances (insts : list Instance) (g : InstanceGroup) : InstanceGroup :=
  mkGroup (group_name g) (home_directory g) (host_artifacts_path g)
    (product_out_path g) (start_time_sec g) insts.
Definition set_group_name (n : bytes) (g : InstanceGroup) : InstanceGroup :=
  mkGroup n (home_directory g) (host_artifacts_path g)
    (product_out_path g) (start_time_sec g) (instances g).
Definition set_product_out_path (p : bytes) (g : InstanceGroup) : InstanceGroup :=
  mkGroup (group_name g) (home_directory g) (host_artifacts_path g)
    p (start_time_sec g) (instances g).
Definition set_start_time_sec (t : Z) (g : InstanceGroup) : InstanceGroup :=
  mkGroup (group_name g) (home_directory g) (host_artifacts_path g)
    (product_out_path g) t (instances g).

(** ** device_name.cpp *)
Definition is_word_start (c : ascii) : bool := is_alpha c || bool_decide (c = "_"%char).
Definition is_word (c : ascii) : bool := is_word_start c || is_digit c.

(** [std::regex_match] with [A-Za-z_][A-Za-z_0-9]* and with [A-Za-z_0-9]+. *)
Definition IsValidGroupName (token : bytes) : bool :=
  match token with [] => false | c :: rest => is_word_start c && forallb is_word rest end.
Definition is_piece (token : bytes) : bool :=
  match token with [] => false | _ => forallb is_word token end.

Record DeviceName := mkDeviceName { dn_group : bytes; dn_instance : bytes }.

Section device_name.
Context `{Absl}.

Definition IsValidInstanceName (token : bytes) : bool :=
  match token with
  | [] => true
  | _ => forallb is_piece (StrSplit token "-"%char)
  end.

Definition BreakDeviceName (device_name : bytes) : result DeviceName :=
  let* _ := expect (negb (bool_decide (device_name = []))) "!device_name.empty()" in
  match find_first_of "-"%char device_name with
  | None => Err "No '-'"
  | Some dash_pos =>
      let* _ := expect (negb (dash_pos =? 0) && negb (dash_pos =? zlen device_name - 1))
                  "dash_pos" in
      Ok (mkDeviceName (ztake dash_pos device_name) (zdrop (dash_pos + 1) device_name))
  end.

Definition IsValidDeviceName (token : bytes) : bool :=
  match token with
  | [] => false
  | _ => match BreakDeviceName token with
         | Ok d => IsValidGroupName (dn_group d) && IsValidInstanceName (dn_instance d)
         | _ => false
         end
  end.
End device_name.

(** ** local_instance.cpp *)
Definition BASE_ADB_PORT : Z := 6520.
Definition BASE_INSTANCE_ID : Z := 1.

(** [BASE_ADB_PORT + Id() - BASE_INSTANCE_ID] is unsigned and becomes an int. *)
Definition AdbPort (i : Instance) : Z :=
  if id i =? 0 then 0 else as_i32 (u32 (BASE_ADB_PORT + id i - BASE_INSTANCE_ID)).

Definition IsActive (i : Instance) : result bool :=
  match state i with
  | INSTANCE_STATE_RUNNING | INSTANCE_STATE_STARTING | INSTANCE_STATE_STOPPING
  | INSTANCE_STATE_PREPARING | INSTANCE_STATE_UNREACHABLE => Ok true
  | INSTANCE_STATE_UNSPECIFIED | INSTANCE_STATE_STOPPED | INSTANCE_STATE_PREPARE_FAILED
  | INSTANCE_STATE_BOOT_FAILED | INSTANCE_STATE_CANCELLED => Ok false
  | INSTANCE_STATE_other _ => Fatal "Invalid instance state"
  end.

(** [SetState] and [SetWebRtcDeviceId] through the [i]-th local instance. *)
Definition SetState (i : nat) (st : InstanceState) (g : InstanceGroup) : InstanceGroup :=
  set_instances (alter (set_state st) i (instances g)) g.
Definition SetWebRtcDeviceId (i : nat) (w : bytes) (g : InstanceGroup) : InstanceGroup :=
  set_instances (alter (set_webrtc w) i (instances g)) g.

(** ** local_instance_group.cpp *)
Fixpoint create_checks (ids : list Z) (names : list bytes) (insts : list Instance) : result unit :=
  match insts with
  | [] => Ok tt
  | i :: insts =>
      let* _ := expect (1 <=? id i) "Instance ids must be positive" in
      let* _ := expect (negb (bool_decide (id i ∈ ids))) "Instances must have unique ids" in
      let* _ := expect (negb (bool_decide (name i ∈ names))) "Instances must have unique names" in
      create_checks (id i :: ids) (name i :: names) insts
  end.

Definition Create (group_proto : InstanceGroup) : result InstanceGroup :=
  let* _ := expect (negb (bool_decide (instances group_proto = []))) "New group can't be empty" in
  let* _ := create_checks [] [] (instances group_proto) in
  Ok group_proto.

Record Builder := mkBuilder { base_dir_ : bytes; group_proto_ : InstanceGroup }.

Definition HomeDirFromBase (base_dir : bytes) : bytes := base_dir ++ str "/home".
Definition ArtifactsDirFromBase (base_dir : bytes) : bytes := base_dir ++ str "/artifacts".
Definition HostArtifactsDirFromBase (base_dir : bytes) : bytes :=
  ArtifactsDirFromBase base_dir ++ str "/host_tools".
Definition ProductDirFromBase (base_dir : bytes) (instance_index : Z) : bytes :=
  ArtifactsDirFromBase base_dir ++ str "/" ++ to_string instance_index.

Section builder.
Context `{Absl}.

(** The directory of the user and the clock are arguments. *)
Definition DefaultBaseDir (per_user_dir : bytes) (time : Z) : bytes :=
  fmt_str per_user_dir ++ str "/" ++ fmt_int time.

Definition Builder_ (per_user_dir : bytes) (time : Z) (gname : bytes) : Builder :=
  let base_dir := DefaultBaseDir per_user_dir time in
  mkBuilder base_dir
    (mkGroup gname (HomeDirFromBase base_dir) (HostArtifactsDirFromBase base_dir) [] 0 []).

Definition AddInstance_named (i : Z) (n : bytes) (b : Builder) : Builder :=
  mkBuilder (base_dir_ b)
    (set_instances (instances (group_proto_ b) ++
       [mkInstance i n INSTANCE_STATE_PREPARING []]) (group_proto_ b)).
Definition AddInstance (i : Z) (b : Builder) : Builder := AddInstance_named i (to_string i) b.

Definition Build (b : Builder) : result InstanceGroup :=
  let product_out_paths :=
    (fun i => ProductDirFromBase (base_dir_ b) (Z.of_nat i)) <$>
      seq 0 (length (instances (group_proto_ b))) in
  Create (set_product_out_path (StrJoin product_out_paths (str ",")) (group_proto_ b)).
End builder.

Fixpoint any_active (insts : list Instance) : result bool :=
  match insts with
  | [] => Ok false
  | i :: insts => let* active := IsActive i in if active then Ok true else any_active insts
  end.
Definition HasActiveInstances (g : InstanceGroup) : result bool := any_active (instances g).

Definition SetAllStates (st : InstanceState) (g : InstanceGroup) : InstanceGroup :=
  set_instances (set_state st <$> instances g) g.

(** [system_clock] counts nanoseconds. *)
Definition to_time_t (time : Z) : Z := Z.quot time 1000000000.
Definition from_time_t (t : Z) : Z := t * 1000000000.
Definition StartTime (g : InstanceGroup) : Z := from_time_t (start_time_sec g).
Definition SetStartTime (time : Z) (g : InstanceGroup) : InstanceGroup :=
  set_start_time_sec (to_time_t time) g.

(** The index of the local instance, as the methods return it. *)
Fixpoint find_instance (p : Instance -> bool) (n : nat) (insts : list Instance) : option nat :=
  match insts with
  | [] => None
  | i :: insts => if p i then Some n else find_instance p (S n) insts
  end.
Definition FindInstanceById (i : Z) (g : InstanceGroup) : result nat :=
  match find_instance (fun x => id x =? i) 0 (instances g) with
  | Some n => Ok n
  | None => Err "Group has no instance with id"
  end.

Fixpoint filter_indices (p : Instance -> bool) (n : nat) (insts : list Instance) : list nat :=
  match insts with
  | [] => []
  | i :: insts => if p i then n :: filter_indices p (S n) insts else filter_indices p (S n) insts
  end.
Definition FindByInstanceName (n : bytes) (g : InstanceGroup) : list nat :=
  filter_indices (fun x => bool_decide (name x = n)) 0 (instances g).

Definition MetricsDir (g : InstanceGroup) : bytes := home_directory g ++ str "/metrics".

(** ** Groups are well formed exactly when [Create] accepts them *)
Definition group_valid (g : InstanceGroup) : Prop :=
  instances g <> [] /\ Forall (fun i => 1 <= id i) (instances g) /\
  NoDup (id <$> instances g) /\ NoDup (name <$> instances g).

Lemma create_checks_ok ids names insts u :
  create_checks ids names insts = Ok u <->
  Forall (fun i => 1 <= id i /\ (id i ∉ ids) /\ (name i ∉ names)) insts /\
  NoDup (id <$> insts) /\ NoDup (name <$> insts).
Proof.
  destruct u. revert ids names. induction insts as [|i insts IH]; intros ids names.
  { simpl. split; [intros _; split_and!; constructor|done]. }
  cbn [create_checks]. rewrite !rbind_expect_ok, IH, Z.leb_le, !negb_true_iff, !bool_decide_eq_false.
  rewrite !fmap_cons, !NoDup_cons, Forall_cons, !Forall_forall.
  setoid_rewrite not_elem_of_cons.
  split.
  - intros (H1 & H2 & H3 & H4 & H5 & H6). split_and!; try done.
    + intros x Hx. destruct (H4 x Hx) as (? & [_ ?] & [_ ?]). done.
    + intros (x & Hx & Hin)%list_elem_of_fmap. destruct (H4 x Hin) as (_ & [? _] & _). congruence.
    + intros (x & Hx & Hin)%list_elem_of_fmap. destruct (H4 x Hin) as (_ & _ & [? _]). congruence.
  - intros ([(H1 & H2 & H3) H4] & [H5 H6] & [H7 H8]). split_and!; try done.
    intros x Hx. destruct (H4 x Hx) as (? & ? & ?). split_and!; try done.
    + intros Heq. apply H5. rewrite <- Heq. by apply list_elem_of_fmap_2.
    + intros Heq. apply H7. rewrite <- Heq. by apply list_elem_of_fmap_2.
Qed.

Lemma Create_ok g g' : Create g = Ok g' <-> g' = g /\ group_valid g.
Proof.
  unfold Create, group_valid. rewrite rbind_expect_ok, negb_true_iff, bool_decide_eq_false, rbind_ok.
  setoid_rewrite create_checks_ok. split.
  - intros (Hne & u & (H1 & H2 & H3) & [= <-]). split_and!; try done.
    eapply Forall_impl; [exact H1|]. naive_solver.
  - intros (-> & Hne & H1 & H2 & H3). split; [done|]. exists tt. split_and!; try done.
    eapply Forall_impl; [exact H1|]. intros x Hx. split_and!; [done|apply not_elem_of_nil..].
Qed.

Lemma create_checks_cases ids names insts :
  create_checks ids names insts = Ok tt \/ exists m, create_checks ids names insts = Err m.
Proof.
  revert ids names. induction insts as [|i insts IH]; intros ids names; [by left|].
  cbn [create_checks]. destruct (1 <=? id i); [|by right; eexists]. cbn [expect rbind].
  case_bool_decide; [by right; eexists|]. cbn [negb expect rbind].
  case_bool_decide; [by right; eexists|]. cbn [negb expect rbind]. apply IH.
Qed.

Lemma Create_cases g : Create g = Ok g \/ exists m, Create g = Err m.
Proof.
  unfold Create. case_bool_decide; [by right; eexists|]. cbn [negb expect rbind].
  destruct (create_checks_cases [] [] (instances g)) as [->|[m ->]]; [by left|by right; eexists].
Qed.

Lemma Create_valid g : group_valid g -> Create g = Ok g.
Proof. intros Hg. by apply Create_ok. Qed.

(** The setters keep a group well formed: they touch neither ids nor names. *)
Lemma set_instances_fields f (g : InstanceGroup) :
  (forall i, id (f i) = id i /\ name (f i) = name i) ->
  (id <$> (f <$> instances g)) = id <$> instances g /\
  (name <$> (f <$> instances g)) = name <$> instances g.
Proof.
  intros Hf. rewrite <- !list_fmap_compose. split; apply list_fmap_ext; intros; simpl; apply Hf.
Qed.

(** ** Device names *)
Lemma is_word_not_dash c : is_word c = true -> c <> "-"%char.
Proof. intros Hc ->. by vm_compute in Hc. Qed.

Lemma group_name_no_dash g : IsValidGroupName g = true -> g <> [] /\ ("-"%char ∉ g).
Proof.
  destruct g as [|c g]; [done|]. simpl. rewrite andb_true_iff, forallb_forall.
  intros [Hc Hg]. split; [done|]. rewrite not_elem_of_cons. split.
  - intros Heq. symmetry in Heq. revert Heq. apply is_word_not_dash.
    unfold is_word. by rewrite Hc.
  - intros Hin. apply (is_word_not_dash "-"%char); [|done]. by apply Hg, list_elem_of_In.
Qed.

(** What a device name is: [IsValidDeviceName] accepts exactly the names
    made of a valid group name, a dash and a non-empty valid instance name (in
    which further dashes are allowed), and [BreakDeviceName] takes them apart
    at that dash. *)
Theorem IsValidDeviceName_spec `{Absl} (t : bytes) :
  IsValidDeviceName t = true <->
  exists g i, t = g ++ "-"%char :: i /\ IsValidGroupName g = true /\
    IsValidInstanceName i = true /\ i <> [] /\ BreakDeviceName t = Ok (mkDeviceName g i).
Proof.
  assert (Hb : forall g i, ("-"%char ∉ g) -> BreakDeviceName (g ++ "-"%char :: i) =
    if bool_decide (g = []) || bool_decide (i = []) then Err "dash_pos" else Ok (mkDeviceName g i)).
  { intros g i Hg. unfold BreakDeviceName.
    rewrite bool_decide_false by (by destruct g). cbn [negb expect rbind].
    rewrite find_first_of_app by done. rewrite zlen_app, zlen_cons.
    pose proof (zlen_nonneg g). pose proof (zlen_nonneg i).
    rewrite ztake_app_le, ztake_all, zdrop_app_ge by lia.
    replace (zlen g + 1 - zlen g) with 1 by lia. cbn [zdrop]. rewrite (zdrop_0 (1 - 1)) by lia.
    change (1 <=? 0) with false. cbn [negb].
    destruct g as [|c g]; [done|]. rewrite (bool_decide_false (c :: g = [])) by done.
    destruct i as [|d i].
    { rewrite bool_decide_true by done. change (zlen []) with 0.
      rewrite (proj2 (Z.eqb_eq _ (_ - 1))) by lia.
      by rewrite andb_false_r. }
    rewrite bool_decide_false by done. rewrite zlen_cons in *. pose proof (zlen_nonneg i).
    pose proof (zlen_nonneg g). rewrite zlen_cons in *.
    by rewrite (proj2 (Z.eqb_neq _ 0)), (proj2 (Z.eqb_neq _ (_ - 1))) by lia. }
  split.
  - unfold IsValidDeviceName. destruct t as [|c t]; [done|].
    pose proof (find_first_of_spec "-"%char (c :: t)) as Hf.
    destruct (find_first_of "-"%char (c :: t)) as [p|] eqn:Ef.
    + destruct Hf as (g & i & Et & Hg & _). rewrite Et, Hb by done.
      case_bool_decide as E1; [done|]. case_bool_decide as E2; [done|]. simpl.
      rewrite andb_true_iff. intros [Hvg Hvi]. by exists g, i.
    + unfold BreakDeviceName. rewrite bool_decide_false by done. cbn [negb expect rbind].
      by rewrite Ef.
  - intros (g & i & -> & Hg & Hi & Hne & Hbr). unfold IsValidDeviceName. rewrite Hbr. simpl.
    rewrite Hg, Hi. by destruct g.
Qed.
End Instances.
