(* ===== verification/DataViewer.v ===== *)
(** * The instance database file (instances/data_viewer.h, data_viewer.cpp)

    [DataViewer] runs a task on the message stored in a file, under a lock of
    the file.  The protobuf codec is the class [Codec], with the documented
    round trip as its law; what the kernel answers to the calls on the file is
    an argument ([Io]), so every failure can be played.  The second part models
    several processes at once, one system call at a time. *)
From S2P Require Import Prelude CppString Instances.

Module DataViewer.
Import Instances.

(** ** protobuf *)
Class Codec := {
  SerializeToString : PersistentData -> option bytes;
  (* what the message holds afterwards, and whether the parse succeeded *)
  ParseFromString : bytes -> PersistentData * bool;
  Parse_Serialize d b : SerializeToString d = Some b -> ParseFromString b = (d, true);
  Parse_empty : ParseFromString [] = ([], true)
}.

(** A concrete codec, through stdpp's encoding of countable types: it shows
    that the law can hold, and evaluates. *)
Definition state_code (st : InstanceState) : Z * Z :=
  match st with
  | INSTANCE_STATE_UNSPECIFIED => (0, 0) | INSTANCE_STATE_PREPARING => (1, 0)
  | INSTANCE_STATE_STARTING => (2, 0) | INSTANCE_STATE_RUNNING => (3, 0)
  | INSTANCE_STATE_STOPPING => (4, 0) | INSTANCE_STATE_STOPPED => (5, 0)
  | INSTANCE_STATE_PREPARE_FAILED => (6, 0) | INSTANCE_STATE_BOOT_FAILED => (7, 0)
  | INSTANCE_STATE_UNREACHABLE => (8, 0) | INSTANCE_STATE_CANCELLED => (9, 0)
  | INSTANCE_STATE_other n => (10, n)
  end.
Definition state_of_code (c : Z * Z) : InstanceState :=
  match c.1 with
  | 0 => INSTANCE_STATE_UNSPECIFIED | 1 => INSTANCE_STATE_PREPARING
  | 2 => INSTANCE_STATE_STARTING | 3 => INSTANCE_STATE_RUNNING
  | 4 => INSTANCE_STATE_STOPPING | 5 => INSTANCE_STATE_STOPPED
  | 6 => INSTANCE_STATE_PREPARE_FAILED | 7 => INSTANCE_STATE_BOOT_FAILED
  | 8 => INSTANCE_STATE_UNREACHABLE | 9 => INSTANCE_STATE_CANCELLED
  | _ => INSTANCE_STATE_other c.2
  end.
#[global] Instance InstanceState_countable : Countable InstanceState.
Proof. apply (inj_countable' state_code state_of_code). by intros []. Defined.
#[global] Instance Instance_countable : Countable Instance.
Proof.
  apply (inj_countable' (fun i => (id i, name i, state i, webrtc_device_id i))
           (fun '(a, b, c, d) => mkInstance a b c d)). by intros [].
Defined.
#[global] Instance InstanceGroup_countable : Countable InstanceGroup.
Proof.
  apply (inj_countable' (fun g => (group_name g, home_directory g, host_artifacts_path g,
                                   product_out_path g, start_time_sec g, instances g))
           (fun '(a, b, c, d, e, f) => mkGroup a b c d e f)). by intros [].
Defined.

Fixpoint bits_of_pos (p : positive) : bytes :=
  match p with
  | xH => ["1"%char]
  | xO p => "a"%char :: bits_of_pos p
  | xI p => "b"%char :: bits_of_pos p
  end.
Fixpoint pos_of_bits (l : bytes) : option positive :=
  match l with
  | ["1"%char] => Some xH
  | "a"%char :: l => xO <$> pos_of_bits l
  | "b"%char :: l => xI <$> pos_of_bits l
  | _ => None
  end.
Lemma pos_of_bits_of_pos p : pos_of_bits (bits_of_pos p) = Some p.
Proof. induction p as [p IH|p IH|]; simpl; [by rewrite IH..|done]. Qed.

#[global, refine] Instance codec_reference : Codec := {
  SerializeToString := fun d => Some (bits_of_pos (encode d));
  ParseFromString := fun b =>
    match b with
    | [] => ([], true)
    | _ => match pos_of_bits b ≫= decode with Some d => (d, true) | None => ([], false) end
    end
}.
Proof.
  - intros d b [= <-]. destruct (bits_of_pos (encode d)) as [|x l] eqn:E.
    + by destruct (encode d).
    + assert (pos_of_bits (x :: l) ≫= decode = Some d) as ->; [|done].
      rewrite <- E, pos_of_bits_of_pos. apply decode_encode.
  - done.
Defined.

(** ** One process *)
(** What the system answers: [write_stops_at] is the number of bytes [WriteAll]
    manages to write when it does not complete. *)
Record Io := mkIo {
  open_ok : bool; flock_ok : bool; read_ok : bool;
  truncate_ok : bool; lseek_ok : bool; write_stops_at : option Z
}.
Definition no_faults : Io := mkIo true true true true true None.

(** The file's bytes (none when it does not exist yet) and the threads that are
    inside one of the two methods. *)
Record Viewer := mkViewer { file : bytes; lock_held_by_ : gset Z }.

Definition set_file (f : bytes) (v : Viewer) : Viewer := mkViewer f (lock_held_by_ v).

Section viewer.
Context `{Codec} {C : Type}.   (* the variables the tasks capture *)
Context (io : Io) (thread : Z).

Definition LockBackingFile : M (Viewer * C) unit :=
  let! _ := lift (expect (open_ok io) "open") in
  lift (expect (flock_ok io) "Failed to acquire lock for instance database backing file").

(** The result of [ParseFromString] is not looked at. *)
Definition LoadData : M (Viewer * C) PersistentData :=
  let! _ := lift (expect (read_ok io) "Failed to read from backing file") in
  let! s := get in mret (ParseFromString (file s.1)).1.

Definition on_file (f : bytes -> bytes) : M (Viewer * C) unit :=
  modify (fun s => (set_file (f (file s.1)) s.1, s.2)).

Definition StoreData (data : PersistentData) : M (Viewer * C) unit :=
  match SerializeToString data with
  | None => lift (Err "Failed to serialize data")
  | Some b =>
      let n := default (zlen b) (write_stops_at io) in
      let! _ := on_file (fun f => zwrite 0 (ztake n b) f) in
      lift (expect (Z.min n (zlen b) =? zlen b) "Failed to write to backing file")
  end.

(** The constructor and destructor of [DeadlockProtector] around a body. *)
Definition DeadlockProtector {R} (body : M (Viewer * C) R) : M (Viewer * C) R := fun s =>
  if bool_decide (thread ∈ lock_held_by_ s.1)
  then (Fatal "Detected deadlock due to method reentry", s)
  else
    let '(r, s') := body (mkViewer (file s.1) ({[thread]} ∪ lock_held_by_ s.1), s.2) in
    (r, (mkViewer (file s'.1) (lock_held_by_ s'.1 ∖ {[thread]}), s'.2)).

Definition WithSharedLock {R} (task : PersistentData -> M (Viewer * C) R) : M (Viewer * C) R :=
  DeadlockProtector (
    let! _ := LockBackingFile in
    let! data := LoadData in
    task data).

(** The task returns its result and the message it leaves behind. *)
Definition WithExclusiveLock {R} (task : PersistentData -> M (Viewer * C) (R * PersistentData))
    : M (Viewer * C) R :=
  DeadlockProtector (
    let! _ := LockBackingFile in
    let! data := LoadData in
    let! (res, data) := task data in
    let! _ := lift (expect (truncate_ok io) "Failed to truncate fd") in
    let! _ := on_file (fun _ => []) in
    let! _ := lift (expect (lseek_ok io) "Failed to seek to 0") in
    let! _ := StoreData data in
    mret res).
End viewer.

(** What a viewer's file holds. *)
Definition stored `{Codec} (v : Viewer) : PersistentData := (ParseFromString (file v)).1.

(** ** Specification of the two methods *)
Section viewer_spec.
Context `{Codec} {C : Type}.
Implicit Types (v : Viewer) (c : C).

(** A task that leaves the viewer alone: it only sees the data. *)
Definition pure_task {R} (task : PersistentData -> M C (R * PersistentData))
    : PersistentData -> M (Viewer * C) (R * PersistentData) := fun d '(v, c) =>
  let '(r, c') := task d c in (r, (v, c')).
Definition pure_query {R} (task : PersistentData -> M C R)
    : PersistentData -> M (Viewer * C) R := fun d '(v, c) =>
  let '(r, c') := task d c in (r, (v, c')).

Lemma difference_union_new thread (held : gset Z) :
  thread ∉ held -> ({[thread]} ∪ held) ∖ {[thread]} = held.
Proof. set_solver. Qed.

Lemma WithSharedLock_spec {R} io thread (task : PersistentData -> M C R) v c :
  thread ∉ lock_held_by_ v ->
  WithSharedLock io thread (pure_query task) (v, c) =
  if negb (open_ok io) then (Err "open", (v, c))
  else if negb (flock_ok io)
  then (Err "Failed to acquire lock for instance database backing file", (v, c))
  else if negb (read_ok io) then (Err "Failed to read from backing file", (v, c))
  else let '(r, c') := task (stored v) c in (r, (v, c')).
Proof.
  intros Ht. unfold WithSharedLock, DeadlockProtector, LockBackingFile, LoadData, pure_query.
  simpl. rewrite bool_decide_false by done. unfold mbind, lift, get, mret, expect.
  destruct v as [f held]; simpl in *. pose proof (difference_union_new thread held Ht) as Hd.
  destruct (open_ok io), (flock_ok io), (read_ok io); simpl; rewrite ?Hd; try done.
  unfold stored. simpl. destruct (task _ c) as [r c']. simpl. by rewrite Hd.
Qed.

(** Without faults: the new message is stored when the task succeeds. *)
Lemma WithExclusiveLock_no_faults {R} thread (task : PersistentData -> M C (R * PersistentData)) v c :
  thread ∉ lock_held_by_ v ->
  WithExclusiveLock no_faults thread (pure_task task) (v, c) =
  match task (stored v) c with
  | (Ok (r, d), c') =>
      match SerializeToString d with
      | Some b => (Ok r, (set_file b v, c'))
      | None => (Err "Failed to serialize data", (set_file [] v, c'))
      end
  | (fl, c') => (fail_as fl, (v, c'))
  end.
Proof.
  intros Ht. unfold WithExclusiveLock, DeadlockProtector, LockBackingFile, LoadData, pure_task, StoreData.
  simpl. rewrite bool_decide_false by done. unfold mbind, lift, get, mret, expect, stored.
  destruct v as [f held]; simpl in *. pose proof (difference_union_new thread held Ht) as Hd.
  destruct (task (ParseFromString f).1 c) as [[[r d]| | |] c1]; simpl; rewrite ?Hd; try done.
  destruct (SerializeToString d) as [b|]; simpl; rewrite ?Hd; [|done].
  rewrite Z.min_id, Z.eqb_refl. simpl. rewrite Hd. unfold set_file. simpl.
  by rewrite zwrite_nil, ztake_all by lia.
Qed.

Lemma stored_set_file v d b : SerializeToString d = Some b -> stored (set_file b v) = d.
Proof. intros Hb. unfold stored. simpl. by rewrite (Parse_Serialize d b Hb). Qed.
End viewer_spec.

(** Effect of [WithExclusiveLock] for every answer of the system and every
    task: the thread's reentry mark is released; success means that the task
    succeeded and that the file holds exactly the message the task left; and a
    file that changed was rewritten for a task that succeeded: it holds a
    prefix of that message's serialization. *)
Theorem WithExclusiveLock_effects `{Codec} {C R} io thread
    (task : PersistentData -> M C (R * PersistentData)) (v : Viewer) (c : C) res v' c' :
  thread ∉ lock_held_by_ v ->
  WithExclusiveLock io thread (pure_task task) (v, c) = (res, (v', c')) ->
  lock_held_by_ v' = lock_held_by_ v /\
  (forall r, res = Ok r -> exists d, (task (stored v) c).1 = Ok (r, d) /\ stored v' = d) /\
  (file v' = file v \/
   exists r d, (task (stored v) c).1 = Ok (r, d) /\
     exists n, file v' = ztake n (default [] (SerializeToString d))).
Proof.
  intros Ht. unfold WithExclusiveLock, DeadlockProtector, LockBackingFile, LoadData, pure_task, StoreData.
  simpl. rewrite bool_decide_false by done. unfold mbind, lift, get, mret, expect.
  destruct v as [f held]; simpl in *. pose proof (difference_union_new thread held Ht) as Hd.
  destruct (open_ok io), (flock_ok io), (read_ok io); simpl; rewrite ?Hd;
    try (intros [= <- <- <-]; split_and!; by auto).
  unfold stored. simpl. destruct (task (ParseFromString f).1 c) as [[[r d]| | |] c1]; simpl; rewrite ?Hd;
    try (intros [= <- <- <-]; split_and!; by auto).
  destruct (truncate_ok io); simpl; rewrite ?Hd; [|intros [= <- <- <-]; split_and!; by auto].
  destruct (lseek_ok io); simpl; rewrite ?Hd;
    [|intros [= <- <- <-]; split_and!; [done|done|right; exists r, d; split; [done|exists 0; simpl; by rewrite ztake_0 by lia]]].
  destruct (SerializeToString d) as [b|] eqn:Eb; simpl; rewrite ?Hd;
    [|intros [= <- <- <-]; split_and!; [done|done|right; exists r, d; split; [done|exists 0; by rewrite Eb]]].
  set (n := default (zlen b) (write_stops_at io)).
  rewrite zwrite_nil. destruct (_ =? _) eqn:En; simpl; rewrite ?Hd; intros [= <- <- <-]; split_and!;
    try done; simpl.
  - intros r0 [= <-]. exists d. split; [done|].
    rewrite ztake_all by lia. by rewrite (Parse_Serialize d b Eb).
  - right. exists r, d. rewrite Eb. split; [done|]. by exists n.
  - right. exists r, d. rewrite Eb. split; [done|]. by exists n.
Qed.

Definition sample_group (n : bytes) (i : Z) : InstanceGroup :=
  mkGroup n (str "/home/" ++ n) (str "/host") [] 0
    [mkInstance i (str "a") INSTANCE_STATE_RUNNING []].

Lemma WithExclusiveLock_effects_witness :
  let task d : M unit (Z * PersistentData) := mret (7, d ++ [sample_group (str "g") 1]) in
  let v := mkViewer [] ∅ in
  exists res v', WithExclusiveLock no_faults 1 (pure_task task) (v, tt) = (res, (v', tt)) /\
    lock_held_by_ v' = lock_held_by_ v.
Proof.
  intros task v.
  destruct (WithExclusiveLock no_faults 1 (pure_task task) (v, tt)) as [res [v' []]] eqn:E.
  exists res, v'. split; [reflexivity|].
  eapply (WithExclusiveLock_effects no_faults 1 task v tt res v' tt); [|exact E].
  apply (bool_decide_unpack _). vm_compute. exact I.
Defined.

(** ** Several processes

    Each process runs [WithExclusiveLock] with its own task, one system call
    per step; a closed descriptor drops the lock.  [flock_compatible] is
    flock(2): an exclusive lock excludes every other lock. *)
Inductive LockOp := LOCK_SH | LOCK_EX.
Definition flock_compatible (a b : LockOp) : bool :=
  match a, b with LOCK_SH, LOCK_SH => true | _, _ => false end.

(** The operation [WithExclusiveLock] passes to [LockBackingFile]. *)
Definition kWithExclusiveLockOp : LockOp := LOCK_SH.

Inductive Pc :=
| Start | Locked | Loaded (d : PersistentData) | Ran (d : PersistentData)
| Truncated (d : PersistentData) | Finished (ok : bool).

Record Proc := mkProc { pc : Pc; ptask : PersistentData -> option PersistentData }.
Record Sys := mkSys { sfile : bytes; holders : list (nat * LockOp); procs : list Proc }.

Section system.
Context `{Codec}.

Definition set_pc (i : nat) (p : Pc) (s : Sys) : Sys :=
  mkSys (sfile s) (holders s) (alter (fun x => mkProc p (ptask x)) i (procs s)).
Definition release (i : nat) (s : Sys) : Sys :=
  mkSys (sfile s) (base.filter (fun h => h.1 <> i) (holders s)) (procs s).

(** The next system call of process [i]; [None] while it has to wait. *)
Definition step (i : nat) (s : Sys) : option Sys :=
  match procs s !! i with
  | None => None
  | Some p =>
      match pc p with
      | Start =>
          if forallb (fun h => flock_compatible kWithExclusiveLockOp h.2) (holders s)
          then Some (set_pc i Locked
                 (mkSys (sfile s) ((i, kWithExclusiveLockOp) :: holders s) (procs s)))
          else None
      | Locked => Some (set_pc i (Loaded (ParseFromString (sfile s)).1) s)
      | Loaded d =>
          match ptask p d with
          | None => Some (set_pc i (Finished false) (release i s))
          | Some d' => Some (set_pc i (Ran d') s)
          end
      | Ran d => Some (set_pc i (Truncated d) (mkSys [] (holders s) (procs s)))
      | Truncated d =>
          match SerializeToString d with
          | None => Some (set_pc i (Finished false) (release i s))
          | Some b => Some (set_pc i (Finished true)
                        (release i (mkSys b (holders s) (procs s))))
          end
      | Finished _ => None
      end
  end.

Fixpoint exec (schedule : list nat) (s : Sys) : option Sys :=
  match schedule with
  | [] => Some s
  | i :: schedule => match step i s with Some s' => exec schedule s' | None => None end
  end.

Lemma exec_step i schedule s s' t :
  step i s = Some s' -> exec schedule s' = Some t -> exec (i :: schedule) s = Some t.
Proof. simpl. by intros ->. Qed.

(** The task that appends one group, as [AddInstanceGroup] does. *)
Definition append_group (g : InstanceGroup) (d : PersistentData) : option PersistentData :=
  Some (d ++ [g]).
Definition start_adding (f : bytes) (g1 g2 : InstanceGroup) : Sys :=
  mkSys f [] [mkProc Start (append_group g1); mkProc Start (append_group g2)].
End system.

(** [WithExclusiveLock] asks for a shared lock, so two processes can be
    inside it together and one update is lost: there is an interleaving in
    which both add a group, both report success, and the file only has the
    second group. *)
Theorem exclusive_lock_loses_update `{Codec} (f : bytes) (g1 g2 : InstanceGroup) b1 b2 :
  let d := (ParseFromString f).1 in
  SerializeToString (d ++ [g1]) = Some b1 -> SerializeToString (d ++ [g2]) = Some b2 ->
  exists schedule s, exec schedule (start_adding f g1 g2) = Some s /\
    (pc <$> procs s) = [Finished true; Finished true] /\ holders s = [] /\
    (ParseFromString (sfile s)).1 = d ++ [g2].
Proof.
  intros d H1 H2. subst d. exists [0; 1; 0; 1; 0; 1; 0; 0; 1; 1]%nat. eexists.
  split.
  { do 7 (eapply exec_step; [cbn; reflexivity|]).
    eapply exec_step; [cbn; rewrite H1; cbn; reflexivity|].
    eapply exec_step; [cbn; reflexivity|].
    eapply exec_step; [cbn; rewrite H2; cbn; reflexivity|]. reflexivity. }
  split_and!; [reflexivity|reflexivity|]. simpl. by rewrite (Parse_Serialize _ _ H2).
Qed.

Lemma exclusive_lock_loses_update_witness :
  exists schedule s,
    exec schedule (start_adding [] (sample_group (str "g") 1) (sample_group (str "h") 2)) = Some s /\
    (pc <$> procs s) = [Finished true; Finished true] /\ holders s = [] /\
    (ParseFromString (sfile s)).1 = (ParseFromString []).1 ++ [sample_group (str "h") 2].
Proof.
  eapply (exclusive_lock_loses_update [] (sample_group (str "g") 1) (sample_group (str "h") 2)).
  - reflexivity.
  - reflexivity.
Defined.
End DataViewer.
