(* ===== verification/InstanceDb.v ===== *)
(** * The instance database (instances/instance_database.cpp)

    Each operation is a task on the stored message, run by the [DataViewer]:
    the tasks are modelled on their own, then under the viewer.  The database
    invariant says that names, home directories and instance ids identify
    groups and instances; it is preserved by every operation. *)
From S2P Require Import Prelude CppString Instances DataViewer.

Module InstanceDb.
Import CppString Instances DataViewer.

Definition UNSET_ID : Z := 0.
Definition kInternalGroupName : bytes := str "cvd".

Record Filter := mkFilter {
  f_instance_id : option Z;
  f_group_name : option bytes;
  f_instance_names : bytes_set
}.

Definition Filter_Empty (f : Filter) : bool :=
  bool_decide (f_instance_id f = None) && bool_decide (f_group_name f = None) &&
  bool_decide (f_instance_names f = ∅).

(** A filter on the group's name alone. *)
Definition by_group (n : bytes) : Filter := mkFilter None (Some n) ∅.

Definition names_of (data : PersistentData) : bytes_set := list_to_set (group_name <$> data).

Section queries.
Context `{Absl}.

Definition generated_name (i : Z) : bytes :=
  fmt_str kInternalGroupName ++ str "_" ++ fmt_int i.

(** [for (i = 1; i <= size + 1; ++i)]. *)
Fixpoint gen_loop (used : bytes_set) (i : Z) (n : nat) : result bytes :=
  match n with
  | O => Err "Can't generate unique group name"
  | S n => if bool_decide (generated_name i ∈ used) then gen_loop used (i + 1) n
           else Ok (generated_name i)
  end.
Definition GenUniqueGroupName (data : PersistentData) : result bytes :=
  let used := names_of data in gen_loop used 1 (size used + 1).

Definition InstanceMatches (i : Instance) (f : Filter) : bool :=
  match f_instance_id f with None => true | Some x => x =? id i end &&
  (bool_decide (f_instance_names f = ∅) || bool_decide (name i ∈ f_instance_names f)).

Definition GroupMatches (g : InstanceGroup) (f : Filter) : bool :=
  match f_group_name f with
  | Some n => bool_decide (n = group_name g)
  | None => true
  end &&
  match f_instance_id f with
  | Some x => bool_decide (x ∈ id <$> instances g)
  | None => true
  end &&
  forallb (fun n => bool_decide (n ∈ name <$> instances g)) (elements (f_instance_names f)).

(** The static [FindGroups]: a stored group that fails validation aborts. *)
Fixpoint FindGroups_in (data : PersistentData) (f : Filter) : result (list InstanceGroup) :=
  match data with
  | [] => Ok []
  | g :: data =>
      if negb (GroupMatches g f) then FindGroups_in data f
      else match Create g with
           | Ok g' => let* rest := FindGroups_in data f in Ok (g' :: rest)
           | _ => Fatal "Instance group from database fails validation"
           end
  end.

Fixpoint create_all (data : list InstanceGroup) : result (list InstanceGroup) :=
  match data with
  | [] => Ok []
  | g :: data => let* g' := Create g in let* rest := create_all data in Ok (g' :: rest)
  end.

Definition IsEmpty_task (data : PersistentData) : M unit bool :=
  mret (bool_decide (data = [])).

Definition Clear_task (data : PersistentData) : M unit (list InstanceGroup * PersistentData) :=
  let! groups := lift (create_all data) in mret (groups, []).

(** ** AddInstanceGroup *)
Fixpoint check_homes (home : bytes) (data : PersistentData) : result unit :=
  match data with
  | [] => Ok tt
  | g :: data =>
      let* _ := expect (negb (bool_decide (home_directory g = home)))
                  "An instance group already exists with HOME directory" in
      check_homes home data
  end.

Definition add_ids (m : gmap Z bytes) (g : InstanceGroup) : gmap Z bytes :=
  foldl (fun m i =>
    if id i =? UNSET_ID then m
    else <[id i := fmt_str (group_name g) ++ str "/" ++ fmt_str (name i)]> m) m (instances g).
Definition ids_to_name_map (data : PersistentData) : gmap Z bytes := foldl add_ids ∅ data.

Fixpoint check_ids (m : gmap Z bytes) (insts : list Instance) : result unit :=
  match insts with
  | [] => Ok tt
  | i :: insts =>
      if id i =? UNSET_ID then check_ids m insts
      else
        let* _ := expect (bool_decide (m !! id i = None))
                    "New instance conflicts with existing instance" in
        check_ids m insts
  end.

(** The task; its captured variable is the message shared with the caller. *)
Definition AddInstanceGroup_task (data : PersistentData)
    : M InstanceGroup (unit * PersistentData) :=
  let! group := get in
  let! _ := (if bool_decide (group_name group = []) then
               let! n := lift (GenUniqueGroupName data) in modify (set_group_name n)
             else mret tt) in
  let! group := get in
  let! found := lift (FindGroups_in data (by_group (group_name group))) in
  let! _ := lift (expect (bool_decide (found = []))
                   "An instance group already exists with name") in
  let! _ := lift (check_homes (home_directory group) data) in
  let! _ := lift (check_ids (ids_to_name_map data) (instances group)) in
  mret (tt, data ++ [group]).

(** [for (auto& group_proto : groups)]: replaces the first of that name. *)
Fixpoint update_first (g : InstanceGroup) (data : PersistentData) : option PersistentData :=
  match data with
  | [] => None
  | x :: data =>
      if bool_decide (group_name x = group_name g) then Some (g :: data)
      else (cons x) <$> update_first g data
  end.
Definition UpdateInstanceGroup_task (g : InstanceGroup) (data : PersistentData)
    : M unit (unit * PersistentData) :=
  match update_first g data with
  | Some data' => mret (tt, data')
  | None => lift (Err "Group not found")
  end.

Fixpoint remove_first (n : bytes) (data : PersistentData) : option PersistentData :=
  match data with
  | [] => None
  | x :: data => if bool_decide (group_name x = n) then Some data
                 else (cons x) <$> remove_first n data
  end.
Definition RemoveInstanceGroup_task (n : bytes) (data : PersistentData)
    : M unit (bool * PersistentData) :=
  match remove_first n data with
  | Some data' => mret (true, data')
  | None => mret (false, data)
  end.

(** ** Finding instances; an instance is the group and its index *)
Fixpoint scan_instances (g : InstanceGroup) (f : Filter) (n : nat) (insts : list Instance)
    (found : option (nat * InstanceGroup)) : result (option (nat * InstanceGroup)) :=
  match insts with
  | [] => Ok found
  | i :: insts =>
      if negb (InstanceMatches i f) then scan_instances g f (S n) insts found
      else
        let* _ := expect (bool_decide (found = None)) "Found more than one instance" in
        let* local_group := Create g in
        scan_instances g f (S n) insts (Some (n, local_group))
  end.
Fixpoint scan_groups (f : Filter) (data : PersistentData) (found : option (nat * InstanceGroup))
    : result (option (nat * InstanceGroup)) :=
  match data with
  | [] => Ok found
  | g :: data =>
      if negb (GroupMatches g f) then scan_groups f data found
      else let* found := scan_instances g f 0 (instances g) found in scan_groups f data found
  end.
Definition FindInstanceWithGroup_task (f : Filter) (data : PersistentData)
    : result (nat * InstanceGroup) :=
  let* found := scan_groups f data None in
  match found with Some x => Ok x | None => Err "Found no matches" end.

Fixpoint FindInstances_task (f : Filter) (data : PersistentData)
    : result (list (InstanceGroup * list nat)) :=
  match data with
  | [] => Ok []
  | g :: data =>
      if negb (GroupMatches g f) then FindInstances_task f data
      else
        let* local_group := Create g in
        let instance_results := filter_indices (fun i => InstanceMatches i f) 0 (instances g) in
        let* rest := FindInstances_task f data in
        Ok (if bool_decide (instance_results = []) then rest
            else (local_group, instance_results) :: rest)
  end.
End queries.

(** ** The methods: tasks under the viewer *)
Section methods.
Context `{Absl} `{Codec} (io : Io) (thread : Z).

Definition no_vars {A} (m : M (Viewer * unit) A) : M Viewer A := fun v =>
  let '(r, (v', _)) := m (v, tt) in (r, v').

Definition IsEmpty : M Viewer bool :=
  no_vars (WithSharedLock io thread (pure_query IsEmpty_task)).
Definition Clear : M Viewer (list InstanceGroup) :=
  no_vars (WithExclusiveLock io thread (pure_task Clear_task)).

(** The message [group] is shared with the caller, who sees its new name. *)
Definition AddInstanceGroup : M (Viewer * InstanceGroup) unit :=
  let! s := get in
  let group := s.2 in
  let! _ := lift (expect (bool_decide (group_name group = []) || IsValidGroupName (group_name group))
                   "GroupName is ill-formed.") in
  let! _ := lift (expect (forallb (fun i => IsValidInstanceName (name i)) (instances group))
                   "instance_name is invalid") in
  WithExclusiveLock io thread (pure_task AddInstanceGroup_task).

Definition UpdateInstanceGroup (g : InstanceGroup) : M Viewer unit :=
  no_vars (WithExclusiveLock io thread (pure_task (UpdateInstanceGroup_task g))).
Definition RemoveInstanceGroup (n : bytes) : M Viewer bool :=
  no_vars (WithExclusiveLock io thread (pure_task (RemoveInstanceGroup_task n))).
Definition FindGroups (f : Filter) : M Viewer (list InstanceGroup) :=
  no_vars (WithSharedLock io thread (pure_query (fun d => lift (FindGroups_in d f)))).
Definition FindGroup (f : Filter) : M Viewer InstanceGroup :=
  let! groups := FindGroups f in
  match groups with
  | [g] => mret g
  | _ => lift (Err "Expected unique result")
  end.
Definition FindInstanceWithGroup (f : Filter) : M Viewer (nat * InstanceGroup) :=
  let! _ := lift (expect (Nat.leb (size (f_instance_names f)) 1)
                   "Can't find single instance when multiple names specified") in
  no_vars (WithSharedLock io thread (pure_query (fun d => lift (FindInstanceWithGroup_task f d)))).
Definition FindInstances (f : Filter) : M Viewer (list (InstanceGroup * list nat)) :=
  no_vars (WithSharedLock io thread (pure_query (fun d => lift (FindInstances_task f d)))).
Definition InstanceGroups : M Viewer (list InstanceGroup) :=
  no_vars (WithSharedLock io thread (pure_query (fun d => lift (create_all d)))).
End methods.

(** ** The invariant of the database *)
Definition all_ids (data : PersistentData) : list Z := data ≫= (fun g => id <$> instances g).

Definition db_wf (data : PersistentData) : Prop :=
  Forall group_valid data /\ Forall (fun g => IsValidGroupName (group_name g) = true) data /\
  NoDup (group_name <$> data) /\ NoDup (home_directory <$> data) /\ NoDup (all_ids data).

Lemma db_wf_nil : db_wf [].
Proof. unfold db_wf, all_ids. simpl. split_and!; constructor. Qed.

Lemma all_ids_app d1 d2 : all_ids (d1 ++ d2) = all_ids d1 ++ all_ids d2.
Proof. apply bind_app. Qed.

Lemma all_ids_cons g d : all_ids (g :: d) = (id <$> instances g) ++ all_ids d.
Proof. done. Qed.

Lemma size_list_to_set_le (l : list bytes) :
  (size (list_to_set l : bytes_set) <= length l)%nat.
Proof.
  induction l as [|x l IH]; [done|]. simpl. rewrite size_union_alt, size_singleton.
  assert (list_to_set l ∖ {[x]} ⊆ (list_to_set l : bytes_set)) as Hs%subseteq_size by set_solver.
  lia.
Qed.

Section gen_name.
Context `{Absl}.

Lemma generated_name_inj i j : generated_name i = generated_name j -> i = j.
Proof.
  unfold generated_name. rewrite !fmt_int_spec, !fmt_str_spec. intros Heq.
  apply (inj (app kInternalGroupName)), (inj (app (str "_"))) in Heq. by apply (inj to_string).
Qed.

Lemma generated_name_valid i : 0 <= i -> IsValidGroupName (generated_name i) = true.
Proof.
  intros Hi. unfold generated_name. rewrite fmt_int_spec, fmt_str_spec.
  destruct (to_string_nonneg i Hi) as [Hd _]. simpl. rewrite Forall_forall in Hd.
  apply forallb_forall. intros c Hc%list_elem_of_In%Hd. unfold is_word.
  rewrite Hc. apply orb_true_r.
Qed.

Lemma gen_loop_spec used i n :
  match gen_loop used i n with
  | Ok x => exists j, i <= j < i + Z.of_nat n /\ x = generated_name j /\ (x ∉ used) /\
              (forall k, i <= k < j -> generated_name k ∈ used)
  | Err _ => forall k, i <= k < i + Z.of_nat n -> generated_name k ∈ used
  | _ => False
  end.
Proof.
  revert i. induction n as [|n IH]; intros i; simpl; [lia|].
  case_bool_decide as E.
  - specialize (IH (i + 1)). destruct (gen_loop used (i + 1) n) as [x|m| |]; try done.
    + destruct IH as (j & Hj & -> & Hx & Hk). exists j. split_and!; try (done || lia).
      intros k Hk2. destruct (decide (k = i)) as [->|]; [done|]. apply Hk. lia.
    + intros k Hk. destruct (decide (k = i)) as [->|]; [done|]. apply IH. lia.
  - exists i. split_and!; try (done || lia).
Qed.

(** The loop always finds a name: it tries more names than there are groups. *)
Lemma GenUniqueGroupName_spec data :
  exists i, 1 <= i <= Z.of_nat (length data) + 1 /\
    GenUniqueGroupName data = Ok (generated_name i) /\
    (generated_name i ∉ group_name <$> data) /\
    (forall k, 1 <= k < i -> generated_name k ∈ group_name <$> data).
Proof.
  unfold GenUniqueGroupName. cbv zeta.
  assert (size (names_of data) <= length data)%nat as Hle.
  { unfold names_of. rewrite <- (length_fmap group_name data). apply size_list_to_set_le. }
  pose proof (gen_loop_spec (names_of data) 1 (size (names_of data) + 1)) as Hg.
  destruct (gen_loop _ _ _) as [x|m| |]; [|exfalso|done..].
  - destruct Hg as (j & Hj & -> & Hx & Hk). exists j. unfold names_of in *.
    rewrite elem_of_list_to_set in Hx. split_and!; try (done || lia).
    intros k Hk2%Hk. by rewrite elem_of_list_to_set in Hk2.
  - set (cands := generated_name <$> seqZ 1 (Z.of_nat (size (names_of data)) + 1)).
    assert (NoDup cands) as Hnd.
    { apply NoDup_fmap_2_strong; [|apply NoDup_seqZ]. intros ????. apply generated_name_inj. }
    assert (list_to_set cands ⊆ names_of data) as Hsub.
    { intros x. rewrite elem_of_list_to_set. intros (k & -> & Hk%elem_of_seqZ)%list_elem_of_fmap.
      apply Hg. lia. }
    apply subseteq_size in Hsub. rewrite size_list_to_set in Hsub by done.
    unfold cands in Hsub. rewrite length_fmap, length_seqZ in Hsub. lia.
Qed.
End gen_name.

(** ** The checks of the tasks, as facts about the data *)
Section checks.
Context `{Absl}.

Lemma GroupMatches_by_group g n : GroupMatches g (by_group n) = bool_decide (n = group_name g).
Proof. unfold GroupMatches, by_group. simpl. by rewrite elements_empty, !andb_true_r. Qed.

(** On validated data [FindGroups] is a filter. *)
Lemma FindGroups_in_filter data f :
  Forall group_valid data ->
  FindGroups_in data f = Ok (base.filter (fun g => GroupMatches g f = true) data).
Proof.
  induction 1 as [|g data Hg Hd IH]; [done|]. simpl. rewrite filter_cons.
  destruct (GroupMatches g f); simpl; [|by rewrite IH].
  by rewrite (Create_valid g Hg), IH.
Qed.

Lemma find_by_name_nil data n :
  Forall group_valid data ->
  FindGroups_in data (by_group n) = Ok [] <-> n ∉ group_name <$> data.
Proof.
  intros Hv. rewrite FindGroups_in_filter by done. split.
  - intros [= Hf] (g & -> & Hin)%list_elem_of_fmap.
    apply (filter_nil_not_elem_of _ _ g Hf); [|done].
    rewrite GroupMatches_by_group. by apply bool_decide_eq_true.
  - intros Hn. f_equal. apply filter_none. intros g Hg Hm.
    rewrite GroupMatches_by_group in Hm. apply bool_decide_eq_true in Hm as ->.
    apply Hn. by apply list_elem_of_fmap_2.
Qed.

Lemma check_homes_ok home data u :
  check_homes home data = Ok u <-> home ∉ home_directory <$> data.
Proof.
  destruct u. induction data as [|g data IH]; simpl.
  - split; [intros _; apply not_elem_of_nil|done].
  - rewrite rbind_expect_ok, IH, negb_true_iff, bool_decide_eq_false, not_elem_of_cons.
    naive_solver.
Qed.

Lemma add_ids_lookup m g i :
  is_Some (add_ids m g !! i) <-> is_Some (m !! i) \/ (i <> UNSET_ID /\ i ∈ id <$> instances g).
Proof.
  unfold add_ids. revert m. induction (instances g) as [|x insts IH]; intros m.
  { simpl. set_solver. }
  cbn [foldl]. rewrite IH, fmap_cons, elem_of_cons.
  destruct (id x =? UNSET_ID) eqn:E.
  - apply Z.eqb_eq in E. naive_solver.
  - apply Z.eqb_neq in E. rewrite lookup_insert. case_decide; naive_solver.
Qed.

Lemma ids_to_name_map_lookup data i :
  is_Some (ids_to_name_map data !! i) <-> i <> UNSET_ID /\ i ∈ all_ids data.
Proof.
  unfold ids_to_name_map. assert (forall m, is_Some (foldl add_ids m data !! i) <->
    is_Some (m !! i) \/ (i <> UNSET_ID /\ i ∈ all_ids data)) as Hgen.
  { induction data as [|g data IH]; intros m; [simpl; set_solver|].
    cbn [foldl]. rewrite IH, add_ids_lookup, all_ids_cons, elem_of_app. naive_solver. }
  rewrite Hgen, lookup_empty, is_Some_alt. naive_solver.
Qed.

Lemma check_ids_ok data insts u :
  check_ids (ids_to_name_map data) insts = Ok u <->
  Forall (fun i => id i = UNSET_ID \/ (id i ∉ all_ids data)) insts.
Proof.
  destruct u. induction insts as [|i insts IH]; cbn [check_ids]; [by split|].
  rewrite Forall_cons. destruct (id i =? UNSET_ID) eqn:E.
  - apply Z.eqb_eq in E. rewrite IH. naive_solver.
  - apply Z.eqb_neq in E. rewrite rbind_expect_ok, IH, bool_decide_eq_true,
      eq_None_not_Some, ids_to_name_map_lookup.
    naive_solver.
Qed.
End checks.

(** Results that are not a crash. *)
Lemma check_homes_cases home data :
  check_homes home data = Ok tt \/ exists m, check_homes home data = Err m.
Proof.
  induction data as [|g data IH]; [by left|]. simpl.
  case_bool_decide; [by right; eexists|done].
Qed.
Lemma check_ids_cases m insts : check_ids m insts = Ok tt \/ exists e, check_ids m insts = Err e.
Proof.
  induction insts as [|i insts IH]; [by left|]. simpl. destruct (_ =? _); [done|].
  case_bool_decide; [done|by right; eexists].
Qed.

(** The group [AddInstanceGroup] is about to store, and when it may. *)
Definition named `{Absl} (data : PersistentData) (g : InstanceGroup) : InstanceGroup :=
  if bool_decide (group_name g = []) then
    match GenUniqueGroupName data with Ok n => set_group_name n g | _ => g end
  else g.

Definition no_conflict (data : PersistentData) (g : InstanceGroup) : Prop :=
  (group_name g ∉ group_name <$> data) /\ (home_directory g ∉ home_directory <$> data) /\
  (forall i, i ∈ id <$> instances g -> i ∉ all_ids data).

Section add.
Context `{Absl}.

Lemma named_fields data g :
  home_directory (named data g) = home_directory g /\ instances (named data g) = instances g.
Proof.
  unfold named. case_bool_decide; [|done]. by destruct (GenUniqueGroupName data).
Qed.

Lemma named_valid data g :
  group_name g = [] \/ IsValidGroupName (group_name g) = true ->
  IsValidGroupName (group_name (named data g)) = true /\
  (group_name g = [] -> group_name (named data g) ∉ group_name <$> data).
Proof.
  intros Hn. unfold named. case_bool_decide as E.
  - destruct (GenUniqueGroupName_spec data) as (i & Hi & -> & Hf & _). simpl.
    split; [apply generated_name_valid; lia|done].
  - naive_solver.
Qed.

(** The task decides exactly [no_conflict], and never crashes. *)
Lemma AddInstanceGroup_task_spec data g :
  Forall group_valid data -> group_valid g ->
  exists r, AddInstanceGroup_task data g = (r, named data g) /\
    ((r = Ok (tt, data ++ [named data g]) /\ no_conflict data (named data g)) \/
     ((exists m, r = Err m) /\ ~ no_conflict data (named data g))).
Proof.
  intros Hv Hg. unfold AddInstanceGroup_task.
  destruct (named_fields data g) as [Hhome Hinst].
  assert (Hname : (if bool_decide (group_name g = []) then
               let! n := lift (GenUniqueGroupName data) in modify (set_group_name n)
             else mret tt) g = (Ok tt, named data g)).
  { unfold named. case_bool_decide; [|done].
    destruct (GenUniqueGroupName_spec data) as (i & _ & -> & _). done. }
  unfold mbind at 1, get at 1. unfold mbind at 1. rewrite Hname. clear Hname.
  set (g' := named data g) in *. unfold mbind at 1, get.
  rewrite (FindGroups_in_filter data (by_group (group_name g')) Hv).
  pose proof (find_by_name_nil data (group_name g') Hv) as Hf.
  rewrite FindGroups_in_filter in Hf by done.
  unfold mbind at 1, lift at 1. case_bool_decide as E; cbn [expect].
  2: { eexists. split; [done|]. right. split; [by eexists|]. intros (Hn & _).
       apply Hf in Hn. congruence. }
  rewrite E in Hf. assert (group_name g' ∉ group_name <$> data) as Hn by (by apply Hf).
  pose proof (check_homes_ok (home_directory g') data tt) as Hh.
  unfold mbind at 1, lift at 1. unfold mbind at 1, lift at 1.
  destruct (check_homes_cases (home_directory g') data) as [E2|[m E2]]; rewrite E2 in Hh |- *.
  2: { eexists. split; [done|]. right. split; [by eexists|]. intros (_ & Hno & _).
       by apply Hh in Hno. }
  pose proof (check_ids_ok data (instances g') tt) as Hi.
  unfold mbind at 1, lift at 1.
  destruct (check_ids_cases (ids_to_name_map data) (instances g')) as [E3|[m E3]]; rewrite E3 in Hi |- *.
  - eexists. split; [done|]. left. split; [done|]. split_and!; [done|by apply Hh|].
    destruct Hi as [Hi _]. specialize (Hi eq_refl). rewrite Forall_forall in Hi.
    intros i (x & -> & Hx)%list_elem_of_fmap. destruct (Hi x Hx) as [Hz|]; [|done].
    destruct Hg as (_ & Hpos & _). rewrite Forall_forall in Hpos.
    rewrite Hinst in Hx. specialize (Hpos x Hx). unfold UNSET_ID in Hz. lia.
  - eexists. split; [done|]. right. split; [by eexists|]. intros (_ & _ & Hno).
    destruct Hi as [_ Hi]. discriminate Hi. apply Forall_forall. intros x Hx. right.
    apply Hno. by apply list_elem_of_fmap_2.
Qed.

Lemma add_wf data g :
  db_wf data -> group_valid g -> IsValidGroupName (group_name g) = true ->
  no_conflict data g -> db_wf (data ++ [g]).
Proof.
  intros (W1 & W2 & W3 & W4 & W5) Hg Hvn (C1 & C2 & C3). pose proof Hg as (_ & _ & Hids & _).
  unfold db_wf. rewrite all_ids_app, !fmap_app, !Forall_app, !NoDup_app. simpl.
  split_and!; [done|by apply Forall_singleton|done|by apply Forall_singleton
    |done| |apply NoDup_singleton|done| |apply NoDup_singleton|done| |].
  - intros x Hx ->%list_elem_of_singleton. done.
  - intros x Hx ->%list_elem_of_singleton. done.
  - intros x Hx Hin. apply (C3 x); [|done]. unfold all_ids in Hin. simpl in Hin.
    by rewrite app_nil_r in Hin.
  - unfold all_ids. simpl. by rewrite app_nil_r.
Qed.
End add.

(** ** The other operations *)
Definition same_identity (x g : InstanceGroup) : Prop :=
  group_name g = group_name x /\ home_directory g = home_directory x /\
  (id <$> instances g) = id <$> instances x /\ (name <$> instances g) = name <$> instances x.

Lemma update_first_some g data d' :
  update_first g data = Some d' ->
  exists a x b, data = a ++ x :: b /\ group_name x = group_name g /\
    (group_name g ∉ group_name <$> a) /\ d' = a ++ g :: b.
Proof.
  revert d'. induction data as [|y data IH]; intros d'; [done|]. simpl.
  case_bool_decide as E.
  - intros [= <-]. exists [], y, data. split_and!; [done|done|apply not_elem_of_nil|done].
  - intros (d1 & Hd & ->)%fmap_Some. destruct (IH d1 Hd) as (a & x & b & -> & Hx & Ha & ->).
    exists (y :: a), x, b. split_and!; [done|done| |done].
    rewrite fmap_cons, not_elem_of_cons. split; [congruence|done].
Qed.

Lemma remove_first_some n data d' :
  remove_first n data = Some d' ->
  exists a x b, data = a ++ x :: b /\ group_name x = n /\ (n ∉ group_name <$> a) /\ d' = a ++ b.
Proof.
  revert d'. induction data as [|y data IH]; intros d'; [done|]. simpl.
  case_bool_decide as E.
  - intros [= <-]. exists [], y, data. split_and!; [done|done|apply not_elem_of_nil|done].
  - intros (d1 & Hd & ->)%fmap_Some. destruct (IH d1 Hd) as (a & x & b & -> & Hx & Ha & ->).
    exists (y :: a), x, b. split_and!; [done|done| |done].
    rewrite fmap_cons, not_elem_of_cons. split; [congruence|done].
Qed.

Lemma remove_first_none n data : remove_first n data = None -> n ∉ group_name <$> data.
Proof.
  induction data as [|y data IH]; intros Hn; [apply not_elem_of_nil|]. simpl in Hn.
  case_bool_decide as E; [done|]. rewrite fmap_None in Hn.
  rewrite fmap_cons, not_elem_of_cons. split; [congruence|auto].
Qed.

Lemma same_identity_valid x g : same_identity x g -> group_valid x -> group_valid g.
Proof.
  intros (_ & _ & Hi & Hn) (H1 & H2 & H3 & H4). split_and!.
  - intros Hnil. apply H1. apply (fmap_nil_inv id). by rewrite <- Hi, Hnil.
  - rewrite Forall_forall in H2 |- *. intros i Hin%(list_elem_of_fmap_2 id).
    rewrite Hi in Hin. apply list_elem_of_fmap in Hin as (y & -> & Hy). auto.
  - by rewrite Hi.
  - by rewrite Hn.
Qed.

Lemma update_wf a x b g : same_identity x g -> db_wf (a ++ x :: b) -> db_wf (a ++ g :: b).
Proof.
  intros Hid (W1 & W2 & W3 & W4 & W5). pose proof Hid as (Hn & Hh & Hi & _).
  unfold db_wf. rewrite Forall_app, Forall_cons in *. rewrite !fmap_app, !fmap_cons in *.
  rewrite all_ids_app, all_ids_cons in *. rewrite Forall_app, Forall_cons in *.
  rewrite Hn, Hh, Hi. destruct W1 as (Wa & Wx & Wb).
  split_and!; try (done || naive_solver). by apply (same_identity_valid x).
Qed.

Lemma remove_wf a x b : db_wf (a ++ x :: b) -> db_wf (a ++ b).
Proof.
  assert (a ++ b `sublist_of` a ++ x :: b) as Hsub
    by (apply sublist_app; [done|by constructor]).
  intros (W1 & W2 & W3 & W4 & W5). unfold db_wf.
  rewrite !Forall_app, !Forall_cons in *. rewrite !fmap_app, !fmap_cons in *.
  rewrite !all_ids_app, !all_ids_cons in *. split_and!; try naive_solver.
  - eapply sublist_NoDup; [exact W3|apply sublist_app; [done|by constructor]].
  - eapply sublist_NoDup; [exact W4|apply sublist_app; [done|by constructor]].
  - eapply sublist_NoDup; [exact W5|apply sublist_app; [done|by apply sublist_inserts_l]].
Qed.

(** ** Histories of the database file *)
Section history.
Context `{Absl} `{Codec}.

(** Without faults the viewer stores what the task left, or nothing changes
    (an unserializable message leaves an empty file). *)
Lemma WithExclusiveLock_stored {C R} thread (task : PersistentData -> M C (R * PersistentData))
    (v : Viewer) (c : C) res v' c' :
  lock_held_by_ v = ∅ ->
  WithExclusiveLock no_faults thread (pure_task task) (v, c) = (res, (v', c')) ->
  lock_held_by_ v' = ∅ /\ c' = (task (stored v) c).2 /\
  (is_ok res = true -> exists r d, res = Ok r /\ (task (stored v) c).1 = Ok (r, d) /\ stored v' = d) /\
  (stored v' = stored v \/ stored v' = [] \/
   exists r d, (task (stored v) c).1 = Ok (r, d) /\ stored v' = d).
Proof.
  intros Hh. rewrite WithExclusiveLock_no_faults by (rewrite Hh; set_solver).
  destruct (task (stored v) c) as [[[r d]|m|w|] c1]; simpl;
    try (intros [= <- <- <-]; split_and!; [done|done|done|by left]).
  destruct (SerializeToString d) as [b|] eqn:Eb; intros [= <- <- <-].
  - rewrite (stored_set_file v d b Eb). split_and!; [done|done| |]; eauto 8.
  - split_and!; [done..|]. right. left. unfold stored. simpl. by rewrite Parse_empty.
Qed.

(** States of the file after any sequence of calls, failed ones included.  A
    group passed to [UpdateInstanceGroup] was read from the database and
    changed by setters, so it has the identity of the stored one. *)
Inductive db_reach : Viewer -> Prop :=
| reach_new : db_reach (mkViewer [] ∅)
| reach_add thread v g res v' g' :
    db_reach v -> group_valid g ->
    AddInstanceGroup no_faults thread (v, g) = (res, (v', g')) -> db_reach v'
| reach_update thread v g res v' :
    db_reach v -> Forall (fun x => group_name x = group_name g -> same_identity x g) (stored v) ->
    UpdateInstanceGroup no_faults thread g v = (res, v') -> db_reach v'
| reach_remove thread v n res v' :
    db_reach v -> RemoveInstanceGroup no_faults thread n v = (res, v') -> db_reach v'
| reach_clear thread v res v' :
    db_reach v -> Clear no_faults thread v = (res, v') -> db_reach v'.
End history.

Lemma sample_group_valid n i : 1 <= i -> group_valid (sample_group n i).
Proof.
  intros Hi. unfold group_valid. simpl.
  split_and!; [done|by apply Forall_singleton|apply NoDup_singleton..].
Qed.

Section reach_lemmas.
Context `{Absl} `{Codec}.

Lemma AddInstanceGroup_wf thread v g res v' g' :
  lock_held_by_ v = ∅ -> db_wf (stored v) -> group_valid g ->
  AddInstanceGroup no_faults thread (v, g) = (res, (v', g')) ->
  lock_held_by_ v' = ∅ /\ db_wf (stored v') /\
  (is_ok res = true -> stored v' = stored v ++ [g'] /\ g' = named (stored v) g /\
     no_conflict (stored v) g').
Proof.
  intros Hh Hwf Hg. pose proof Hwf as (Hv & _).
  unfold AddInstanceGroup. unfold mbind at 1, get at 1. unfold mbind at 1, lift at 1.
  destruct (_ || _) eqn:En; cbn [expect fst snd];
    [|intros [= <- <- <-]; split_and!; done].
  unfold mbind at 1, lift at 1. destruct (forallb _ _); cbn [expect];
    [|intros [= <- <- <-]; split_and!; done].
  intros Hrun. destruct (WithExclusiveLock_stored thread AddInstanceGroup_task v g res v' g' Hh Hrun)
    as (Hh' & Hg' & Hok & Hst).
  destruct (AddInstanceGroup_task_spec (stored v) g Hv Hg) as (r & Er & Hr).
  rewrite Er in *. simpl in *. subst g'.
  assert (IsValidGroupName (group_name (named (stored v) g)) = true) as Hvn.
  { apply named_valid. rewrite orb_true_iff, bool_decide_eq_true in En. done. }
  assert (group_valid (named (stored v) g)) as Hgv.
  { unfold group_valid. destruct (named_fields (stored v) g) as [_ ->]. done. }
  destruct Hr as [[-> Hc]|[[m ->] Hc]].
  - split_and!; [done| |].
    + destruct Hst as [->|[->|(r & d & [= <- <-] & ->)]];
        [done|apply db_wf_nil|by apply add_wf].
    + intros (r & d & _ & [= <- <-] & ->)%Hok. done.
  - split_and!; [done| |].
    + destruct Hst as [->|[->|(r & d & Habs & _)]]; [done|apply db_wf_nil|done].
    + intros (r & d & _ & Habs & _)%Hok. done.
Qed.

Lemma reach_invariant v : db_reach v -> lock_held_by_ v = ∅ /\ db_wf (stored v).
Proof.
  induction 1 as [|thread v g res v' g' _ [Hh IH] Hg Hrun|thread v g res v' _ [Hh IH] Hid Hrun
                 |thread v n res v' _ [Hh IH] Hrun|thread v res v' _ [Hh IH] Hrun].
  - split; [done|]. unfold stored. simpl. rewrite Parse_empty. apply db_wf_nil.
  - destruct (AddInstanceGroup_wf thread v g res v' g' Hh IH Hg Hrun) as (? & ? & _). done.
  - unfold UpdateInstanceGroup, no_vars in Hrun.
    destruct (WithExclusiveLock _ _ _ _) as [res' [v1 c1]] eqn:E. injection Hrun as <- <-.
    apply WithExclusiveLock_stored in E as (Hh' & _ & _ & Hst); [|done]. split; [done|].
    destruct Hst as [->|[->|(r & d & Htask & ->)]]; [done|apply db_wf_nil|].
    unfold UpdateInstanceGroup_task in Htask.
    destruct (update_first g (stored v)) as [d'|] eqn:Eu; [|done]. injection Htask as <-. subst.
    apply update_first_some in Eu as (a & x & b & Es & Hx & _ & ->).
    rewrite Es in IH, Hid. apply (update_wf a x b g); [|done].
    rewrite Forall_forall in Hid. apply Hid; [|done]. apply elem_of_app. right. left.
  - unfold RemoveInstanceGroup, no_vars in Hrun.
    destruct (WithExclusiveLock _ _ _ _) as [res' [v1 c1]] eqn:E. injection Hrun as <- <-.
    apply WithExclusiveLock_stored in E as (Hh' & _ & _ & Hst); [|done]. split; [done|].
    destruct Hst as [->|[->|(r & d & Htask & ->)]]; [done|apply db_wf_nil|].
    unfold RemoveInstanceGroup_task in Htask.
    destruct (remove_first n (stored v)) as [d'|] eqn:Eu; injection Htask as <- <-; [|done].
    apply remove_first_some in Eu as (a & x & b & Es & _ & _ & ->).
    rewrite Es in IH. by apply (remove_wf a x b).
  - unfold Clear, no_vars in Hrun.
    destruct (WithExclusiveLock _ _ _ _) as [res' [v1 c1]] eqn:E. injection Hrun as <- <-.
    apply WithExclusiveLock_stored in E as (Hh' & _ & _ & Hst); [|done]. split; [done|].
    destruct Hst as [->|[->|(r & d & Htask & ->)]]; [done|apply db_wf_nil|].
    unfold Clear_task, mbind, lift, mret in Htask.
    destruct (create_all (stored v)); try done. injection Htask as <- <-. apply db_wf_nil.
Qed.
End reach_lemmas.



(** [GenUniqueGroupName] always succeeds, with the first of cvd_1, cvd_2, ...
    that no group uses; the error after its loop cannot happen. *)
Theorem GenUniqueGroupName_total `{Absl} (data : PersistentData) :
  exists i, 1 <= i <= Z.of_nat (length data) + 1 /\
    GenUniqueGroupName data = Ok (generated_name i) /\
    (generated_name i ∉ group_name <$> data) /\
    (forall k, 1 <= k < i -> generated_name k ∈ group_name <$> data).
Proof. apply GenUniqueGroupName_spec. Qed.

(** [AddInstanceGroup] on a database that satisfies its invariant: it
    succeeds exactly when the (possibly generated) name, the home directory and
    the instance ids are unused, and then the group can be found by the name
    the caller's object now carries. *)
Theorem AddInstanceGroup_find `{Absl} `{Codec} thread (v : Viewer) g res v' g' :
  lock_held_by_ v = ∅ -> db_wf (stored v) -> group_valid g ->
  AddInstanceGroup no_faults thread (v, g) = (res, (v', g')) -> is_ok res = true ->
  no_conflict (stored v) g' /\ instances g' = instances g /\
  FindGroup no_faults thread (by_group (group_name g')) v' = (Ok g', v') /\
  (group_name g <> [] -> g' = g).
Proof.
  intros Hh Hwf Hg Hrun Hok.
  destruct (AddInstanceGroup_wf thread v g res v' g' Hh Hwf Hg Hrun) as (Hh' & Hwf' & Hadd).
  destruct (Hadd Hok) as (Hst & Hnamed & Hc). destruct (named_fields (stored v) g) as [_ Hinst].
  split; [done|]. split; [by rewrite Hnamed|]. split.
  - unfold FindGroup, mbind at 1, FindGroups, no_vars.
    rewrite WithSharedLock_spec by (rewrite Hh'; set_solver). simpl.
    unfold lift. rewrite FindGroups_in_filter by apply Hwf'. rewrite Hst, filter_app.
    rewrite (filter_none _ (stored v)).
    + simpl. rewrite filter_cons, GroupMatches_by_group, bool_decide_true by done.
      by rewrite decide_True, filter_nil.
    + intros x Hx. rewrite GroupMatches_by_group, bool_decide_eq_true. intros Heq.
      destruct Hc as (Hn & _). apply Hn. rewrite Heq. by apply list_elem_of_fmap_2.
  - intros Hne. rewrite Hnamed. unfold named. by rewrite bool_decide_false.
Qed.

Lemma AddInstanceGroup_find_witness :
  let g := sample_group [] 3 in
  let r := AddInstanceGroup no_faults 1 (mkViewer [] ∅, g) in
  FindGroup no_faults 1 (by_group (group_name r.2.2)) r.2.1 = (Ok r.2.2, r.2.1).
Proof.
  intros g r. subst r.
  destruct (AddInstanceGroup no_faults 1 (mkViewer [] ∅, g)) as [res [v' g']] eqn:E.
  apply (AddInstanceGroup_find 1 (mkViewer [] ∅) g res v' g').
  - reflexivity.
  - unfold stored; simpl. apply db_wf_nil.
  - apply sample_group_valid. lia.
  - exact E.
  - apply (f_equal fst) in E. simpl in E. rewrite <- E. vm_compute. reflexivity.
Defined.

(** ** Finding instances *)
Section find.
Context `{Absl}.

(** Every matching instance, with its group, in database order. *)
Definition group_matches_of (f : Filter) (g : InstanceGroup) : list (nat * InstanceGroup) :=
  if GroupMatches g f
  then (fun n => (n, g)) <$> filter_indices (fun i => InstanceMatches i f) 0 (instances g)
  else [].
Definition all_matches (f : Filter) (data : PersistentData) : list (nat * InstanceGroup) :=
  data ≫= group_matches_of f.

Definition accumulate (found : option (nat * InstanceGroup)) (l : list (nat * InstanceGroup))
    : result (option (nat * InstanceGroup)) :=
  match found, l with
  | None, [] => Ok None
  | None, [x] => Ok (Some x)
  | Some x, [] => Ok (Some x)
  | _, _ => Err "Found more than one instance"
  end.

Lemma accumulate_app found l k :
  rbind (accumulate found l) (fun f => accumulate f k) = accumulate found (l ++ k).
Proof. by destruct found, l as [|? []], k as [|? []]. Qed.

Lemma scan_instances_spec g f n insts found :
  group_valid g ->
  scan_instances g f n insts found =
  accumulate found ((fun k => (k, g)) <$> filter_indices (fun i => InstanceMatches i f) n insts).
Proof.
  intros Hg. revert n found. induction insts as [|i insts IH]; intros n found; [by destruct found|].
  simpl. destruct (InstanceMatches i f); simpl; [|apply IH].
  rewrite (Create_valid g Hg). destruct found as [x|]; [done|]. cbn [expect rbind].
  rewrite bool_decide_true by done. cbn [rbind expect]. rewrite IH.
  by destruct (filter_indices _ _ _).
Qed.

Lemma scan_groups_spec f data found :
  Forall group_valid data -> scan_groups f data found = accumulate found (all_matches f data).
Proof.
  intros Hv. revert found. induction Hv as [|g data Hg _ IH]; intros found; [by destruct found|].
  assert (all_matches f (g :: data) = group_matches_of f g ++ all_matches f data) as -> by done.
  rewrite <- accumulate_app. simpl. unfold group_matches_of.
  destruct (GroupMatches g f); simpl.
  - rewrite scan_instances_spec by done. destruct (accumulate _ _); simpl; [apply IH|done..].
  - destruct found; simpl; apply IH.
Qed.

Lemma filter_indices_lookup p n insts k :
  k ∈ filter_indices p n insts <->
  exists j i, k = (n + j)%nat /\ insts !! j = Some i /\ p i = true.
Proof.
  revert n. induction insts as [|x insts IH]; intros n; simpl.
  { rewrite elem_of_nil. split; [done|]. by intros (j & i & _ & ? & _). }
  assert (Hs : (exists j i, k = (S n + j)%nat /\ insts !! j = Some i /\ p i = true) <->
               (exists j i, k = (n + S j)%nat /\ insts !! j = Some i /\ p i = true)).
  { split; intros (j & i & -> & ?); exists j, i; (split; [lia|done]). }
  destruct (p x) eqn:Ep; rewrite ?elem_of_cons, IH, Hs; split.
  - intros [->|(j & i & -> & ? & ?)]; [exists 0%nat, x; split; [lia|done]|by exists (S j), i].
  - intros ([|j] & i & -> & ? & ?); [left; lia|right; by exists j, i].
  - intros (j & i & -> & ? & ?); by exists (S j), i.
  - intros ([|j] & i & -> & Hl & Hp); [simpl in Hl; congruence|by exists j, i].
Qed.
End find.

(** [FindInstanceWithGroup] returns an instance exactly when it is the only
    one of the whole database that matches the filter; otherwise it reports
    that there is none or that there are several. *)
Theorem FindInstanceWithGroup_unique `{Absl} (f : Filter) (data : PersistentData) :
  Forall group_valid data ->
  FindInstanceWithGroup_task f data =
    match all_matches f data with
    | [] => Err "Found no matches"
    | [x] => Ok x
    | _ => Err "Found more than one instance"
    end /\
  (forall n g, (n, g) ∈ all_matches f data <->
     g ∈ data /\ GroupMatches g f = true /\
     exists i, instances g !! n = Some i /\ InstanceMatches i f = true).
Proof.
  intros Hv. split.
  - unfold FindInstanceWithGroup_task. rewrite scan_groups_spec by done.
    by destruct (all_matches f data) as [|x [|y l]].
  - intros n g. unfold all_matches. rewrite list_elem_of_bind. unfold group_matches_of. split.
    + intros (x & Hin & Hx). destruct (GroupMatches x f) eqn:Em; [|by apply elem_of_nil in Hin].
      apply list_elem_of_fmap in Hin as (k & [= -> ->] & Hk).
      apply filter_indices_lookup in Hk as (j & i & -> & ? & ?). eauto.
    + intros (Hg & Hm & i & Hl & Hi). exists g. rewrite Hm. split; [|done].
      apply list_elem_of_fmap. exists n. split; [done|]. apply filter_indices_lookup.
      exists n, i. done.
Qed.

Lemma FindInstanceWithGroup_unique_witness :
  let data := [sample_group (str "g") 1; sample_group (str "h") 2] in
  FindInstanceWithGroup_task (mkFilter (Some 2) None ∅) data = Ok (0%nat, sample_group (str "h") 2).
Proof.
  intros data. destruct (FindInstanceWithGroup_unique (mkFilter (Some 2) None ∅) data) as [H _].
  - unfold data. rewrite !Forall_cons. split_and!; [apply sample_group_valid; lia..|constructor].
  - rewrite H. reflexivity.
Defined.

(** A filter with several instance names does match instances: when a group
    has an instance of each name, [FindInstances] lists all of them, although
    the filter's documentation says that it matches no instances. *)
Theorem FindInstances_many_names `{Absl} (data : PersistentData) (names : bytes_set) g n i :
  Forall group_valid data -> g ∈ data ->
  (forall x, x ∈ names -> x ∈ name <$> instances g) ->
  instances g !! n = Some i -> name i ∈ names ->
  exists found ns, FindInstances_task (mkFilter None None names) data = Ok found /\
    (g, ns) ∈ found /\ n ∈ ns.
Proof.
  intros Hv Hin Hall Hl Hn. set (f := mkFilter None None names).
  assert (Hm : GroupMatches g f = true).
  { unfold GroupMatches. simpl. apply forallb_forall. intros x Hx%list_elem_of_In.
    apply bool_decide_eq_true, Hall. by apply elem_of_elements. }
  assert (Hk : n ∈ filter_indices (fun i => InstanceMatches i f) 0 (instances g)).
  { apply filter_indices_lookup. exists n, i. split_and!; [done|done|].
    unfold InstanceMatches. simpl. by rewrite (bool_decide_true (name i ∈ names)), orb_true_r. }
  exists (omap (fun g => if GroupMatches g f then
      match filter_indices (fun i => InstanceMatches i f) 0 (instances g) with
      | [] => None | l => Some (g, l) end else None) data),
    (filter_indices (fun i => InstanceMatches i f) 0 (instances g)).
  split_and!; [|apply list_elem_of_omap|done].
  - clear - Hv. induction Hv as [|x data Hx _ IH]; [done|]. simpl.
    destruct (GroupMatches x f); simpl; [|exact IH]. rewrite (Create_valid x Hx). simpl. rewrite IH.
    simpl. by destruct (filter_indices _ _ _).
  - exists g. split; [done|]. rewrite Hm.
    destruct (filter_indices _ _ _); [by apply elem_of_nil in Hk|done].
Qed.

Definition two_names : InstanceGroup :=
  mkGroup (str "g") (str "/h") (str "/host") [] 0
    [mkInstance 1 (str "a") INSTANCE_STATE_RUNNING [];
     mkInstance 2 (str "b") INSTANCE_STATE_RUNNING []].

Lemma FindInstances_many_names_witness :
  exists found ns,
    FindInstances_task (mkFilter None None {[str "a"; str "b"]}) [two_names] = Ok found /\
    (two_names, ns) ∈ found /\ 1%nat ∈ ns.
Proof.
  apply (FindInstances_many_names [two_names] {[str "a"; str "b"]} two_names 1
           (mkInstance 2 (str "b") INSTANCE_STATE_RUNNING [])).
  - apply Forall_singleton. apply (Create_ok two_names two_names). reflexivity.
  - left.
  - intros x Hx. apply (bool_decide_unpack _). revert x Hx.
    apply (bool_decide_unpack (set_Forall (fun x => bool_decide (x ∈ name <$> instances two_names))
             {[str "a"; str "b"]})). vm_compute. exact I.
  - reflexivity.
  - apply (bool_decide_unpack _). vm_compute. exact I.
Defined.
End InstanceDb.
