(* ===== verification/InstanceLock.v ===== *)
(** * Instance lock files (instances/lock/lock_file.cpp, instance_lock.cpp)

    One file per instance id: flock(2) on it is held while a process decides
    about the id, its first byte says whether a device uses the id.  Paths name
    inodes, as in the file system: unlinking a path keeps the inode of an open
    descriptor, and its lock, alive. *)
From S2P Require Import Prelude CppString.

Module InstanceLock.
Import CppString.

Inductive InUseState := kInUse | kNotInUse.
#[global] Instance InUseState_eq_dec : EqDecision InUseState.
Proof. solve_decision. Defined.
Definition state_char (s : InUseState) : ascii :=
  match s with kInUse => "I"%char | kNotInUse => "N"%char end.

(** Paths, and for each inode its contents and whether it is flocked. *)
Record LockFs := mkLockFs {
  inode_of : bytes_map Z;
  inodes : gmap Z (bytes * bool);
  next_inode : Z
}.

(** [InstanceLockFile]: the open descriptor and the id. *)
Record InstanceLockFile := mkLock { l_inode : Z; instance_num_ : Z }.

Section locks.
Context (instance_locks_path_ : bytes).
(* whether the directory can be made, and the file opened *)
Context (ensure_dir : bool) (open_ok : bytes -> bool).

Definition lock_path (instance_num : Z) : bytes :=
  instance_locks_path_ ++ str "local-instance-" ++ to_string instance_num ++ str ".lock".

Definition LockFilePath (instance_num : Z) : result bytes :=
  let* _ := expect ensure_dir "EnsureDirectoryExists(path.str())" in
  Ok (lock_path instance_num).

Definition OpenLockFile (path : bytes) : M LockFs Z := fun fs =>
  if negb ensure_dir then (Err "EnsureDirectoryExists(parent_dir)", fs)
  else if negb (open_ok path) then (Err "open", fs)
  else match inode_of fs !! path with
       | Some n => (Ok n, fs)
       | None =>
           let n := next_inode fs in
           (Ok n, mkLockFs (<[path := n]> (inode_of fs)) (<[n := ([], false)]> (inodes fs)) (n + 1))
       end.

Definition set_held (n : Z) (h : bool) (fs : LockFs) : LockFs :=
  mkLockFs (inode_of fs) (alter (fun x => (x.1, h)) n (inodes fs)) (next_inode fs).
Definition is_held (n : Z) (fs : LockFs) : bool :=
  match inodes fs !! n with Some (_, h) => h | None => false end.

(** [~LockFileReleaser]. *)
Definition release (l : InstanceLockFile) (fs : LockFs) : LockFs := set_held (l_inode l) false fs.
Definition release_all (ls : list InstanceLockFile) (fs : LockFs) : LockFs :=
  foldl (fun fs l => release l fs) fs ls.

(** A blocking flock on a lock nobody gives up does not return. *)
Definition AcquireLock (instance_num : Z) : M LockFs InstanceLockFile :=
  let! path := lift (LockFilePath instance_num) in
  let! n := OpenLockFile path in
  let! fs := get in
  if is_held n fs then lift (Fatal "blocked in flock")
  else let! _ := put (set_held n true fs) in mret (mkLock n instance_num).

Definition TryAcquireLock (instance_num : Z) : M LockFs (option InstanceLockFile) :=
  let! path := lift (LockFilePath instance_num) in
  let! n := OpenLockFile path in
  let! fs := get in
  if is_held n fs then mret None
  else let! _ := put (set_held n true fs) in mret (Some (mkLock n instance_num)).

(** An empty file leaves the initial [kNotInUse] in the buffer. *)
Definition Status (l : InstanceLockFile) (fs : LockFs) : result InUseState :=
  match inodes fs !! l_inode l with
  | None => Err "read"
  | Some ([], _) => Ok kNotInUse
  | Some (c :: _, _) =>
      if bool_decide (c = state_char kInUse) then Ok kInUse
      else if bool_decide (c = state_char kNotInUse) then Ok kNotInUse
      else Err "Unexpected state value"
  end.

Definition SetStatus (l : InstanceLockFile) (s : InUseState) : M LockFs unit := fun fs =>
  match inodes fs !! l_inode l with
  | None => (Err "lseek", fs)
  | Some (content, h) =>
      (Ok tt, mkLockFs (inode_of fs)
         (<[l_inode l := (state_char s :: tail content, h)]> (inodes fs)) (next_inode fs))
  end.

Definition RemoveLockFile (instance_num : Z) : M LockFs unit :=
  let! path := lift (LockFilePath instance_num) in
  fun fs =>
    match inode_of fs !! path with
    | None => (Err "No such file or directory", fs)
    | Some _ => (Ok tt, mkLockFs (delete path (inode_of fs)) (inodes fs) (next_inode fs))
    end.

(** [for (unsigned i = 1;; i++)]; a lock that is in use is dropped, hence
    released, at the end of the iteration. *)
Definition AcquireUnusedLock : M LockFs InstanceLockFile := fun fs =>
  while_ (fun '(fs, i) =>
    match TryAcquireLock i fs with
    | (Ok None, fs1) => inl (fs1, u32 (i + 1))
    | (Ok (Some lock), fs1) =>
        match Status lock fs1 with
        | Ok kNotInUse => inr (Ok lock, fs1)
        | Ok kInUse => inl (release lock fs1, u32 (i + 1))
        | fl => inr (fail_as fl, release lock fs1)
        end
    | (fl, fs1) => inr (fail_as fl, fs1)
    end) (Fuel, fs) (fs, 1).
End locks.

(** ** Well-formed lock directories *)
Definition content_ok (c : bytes) : Prop :=
  match c with [] => True | x :: _ => x = state_char kInUse \/ x = state_char kNotInUse end.

Definition fs_wf (fs : LockFs) : Prop :=
  (forall p n, inode_of fs !! p = Some n -> is_Some (inodes fs !! n)) /\
  (forall p q n, inode_of fs !! p = Some n -> inode_of fs !! q = Some n -> p = q) /\
  (forall n x, inodes fs !! n = Some x -> n < next_inode fs /\ content_ok x.1).

Section busy.
Context (locks_path : bytes).

Lemma lock_path_inj i j : lock_path locks_path i = lock_path locks_path j -> i = j.
Proof.
  unfold lock_path. intros Heq.
  apply (inj (app locks_path)), (inj (app (str "local-instance-"))) in Heq.
  apply (inj (fun x => x ++ str ".lock")) in Heq. by apply (inj to_string).
Qed.

(** An id that cannot be handed out: locked by someone, or marked in use. *)
Definition busy (i : Z) (fs : LockFs) : Prop :=
  exists n c h, inode_of fs !! lock_path locks_path i = Some n /\ inodes fs !! n = Some (c, h) /\
    (h = true \/ head c = Some (state_char kInUse)).

#[global] Instance busy_dec i fs : Decision (busy i fs).
Proof.
  unfold busy. destruct (inode_of fs !! lock_path locks_path i) as [n|] eqn:E1;
    [|right; naive_solver].
  destruct (inodes fs !! n) as [[c h]|] eqn:E2; [|right; naive_solver].
  destruct (decide (h = true \/ head c = Some (state_char kInUse))) as [H|H];
    [left; naive_solver|right; naive_solver].
Defined.

(** What an id's file becomes once its lock is taken. *)
Definition opened (i : Z) (fs : LockFs) : Z * LockFs :=
  match inode_of fs !! lock_path locks_path i with
  | Some n => (n, fs)
  | None =>
      let n := next_inode fs in
      (n, mkLockFs (<[lock_path locks_path i := n]> (inode_of fs))
            (<[n := ([], false)]> (inodes fs)) (n + 1))
  end.

Lemma opened_wf i fs : fs_wf fs -> fs_wf (opened i fs).2.
Proof.
  intros (W1 & W2 & W3). unfold opened.
  destruct (inode_of fs !! lock_path locks_path i) eqn:E; [done|].
  assert (inodes fs !! next_inode fs = None) as Hfresh.
  { destruct (inodes fs !! next_inode fs) as [x|] eqn:Ex; [|done]. apply W3 in Ex as [? _]. lia. }
  assert (Hne : forall p n, inode_of fs !! p = Some n -> n <> next_inode fs).
  { intros p n Hp ->. apply W1 in Hp as [x Hx]. congruence. }
  split_and!; simpl.
  - intros p n. rewrite !lookup_insert. repeat case_decide; subst; intros; simplify_eq; eauto.
  - intros p q n. rewrite !lookup_insert. repeat case_decide; subst; intros; simplify_eq;
      try done; try (exfalso; by eapply Hne); eauto.
  - intros n x. rewrite lookup_insert. case_decide; intros; simplify_eq.
    + split; [lia|done].
    + destruct (W3 n x) as [? ?]; [done|]. split; [lia|done].
Qed.
End busy.

(** ** Acquiring locks when the file system does not fail *)
Section acquire.
Context (locks_path : bytes).
Let ok : bytes -> bool := fun _ => true.
Implicit Types (fs : LockFs).

Lemma TryAcquireLock_opened i fs :
  TryAcquireLock locks_path true ok i fs =
  let '(n, fs1) := opened locks_path i fs in
  if is_held n fs1 then (Ok None, fs1) else (Ok (Some (mkLock n i)), set_held n true fs1).
Proof.
  unfold TryAcquireLock, OpenLockFile, opened, mbind, lift, get, put, mret. simpl.
  destruct (inode_of fs !! lock_path locks_path i) as [n|] eqn:E; simpl.
  - by destruct (is_held n fs).
  - unfold is_held at 1 2. simpl. by rewrite lookup_insert_eq.
Qed.

Lemma AcquireLock_opened i fs :
  AcquireLock locks_path true ok i fs =
  let '(n, fs1) := opened locks_path i fs in
  if is_held n fs1 then (Fatal "blocked in flock", fs1) else (Ok (mkLock n i), set_held n true fs1).
Proof.
  unfold AcquireLock, OpenLockFile, opened, mbind, lift, get, put, mret. simpl.
  destruct (inode_of fs !! lock_path locks_path i) as [n|] eqn:E; simpl.
  - by destruct (is_held n fs).
  - unfold is_held at 1 2. simpl. by rewrite lookup_insert_eq.
Qed.

(** A busy id leaves the directory as it was. *)
Lemma try_busy i fs :
  fs_wf fs -> busy locks_path i fs ->
  TryAcquireLock locks_path true ok i fs = (Ok None, fs) \/
  exists lock fs1, TryAcquireLock locks_path true ok i fs = (Ok (Some lock), fs1) /\
    Status lock fs1 = Ok kInUse /\ release lock fs1 = fs.
Proof.
  intros Hwf (n & c & h & Hp & Hn & Hb). rewrite TryAcquireLock_opened. unfold opened.
  rewrite Hp. unfold is_held. rewrite Hn. destruct h; [by left|]. right.
  destruct Hb as [|Hb]; [done|]. eexists _, _. split; [done|]. split.
  - unfold Status, set_held. simpl. rewrite lookup_alter_eq, Hn. simpl.
    destruct c as [|x c]; [done|]. injection Hb as ->. by rewrite bool_decide_true.
  - unfold release, set_held. simpl. destruct fs as [p m k]. simpl in *. f_equal.
    rewrite alter_alter_eq. apply map_eq. intros j. rewrite lookup_alter.
    case_decide; [subst; by rewrite Hn|done].
Qed.

Lemma opened_content i fs :
  fs_wf fs -> ~ busy locks_path i fs ->
  exists c, inodes (opened locks_path i fs).2 !! (opened locks_path i fs).1 = Some (c, false) /\
    head c <> Some (state_char kInUse) /\ content_ok c.
Proof.
  intros (W1 & W2 & W3) Hb. unfold opened.
  destruct (inode_of fs !! lock_path locks_path i) as [n|] eqn:E; simpl.
  - destruct (W1 _ _ E) as [[c h] Hn]. destruct (W3 n (c, h) Hn) as [_ Hc].
    exists c. destruct h; [exfalso; apply Hb; exists n, c, true; auto|].
    split_and!; [done| |done]. intros Hh. apply Hb. exists n, c, false. auto.
  - rewrite lookup_insert_eq. by exists [].
Qed.

Lemma try_free i fs :
  fs_wf fs -> ~ busy locks_path i fs ->
  exists lock fs1, TryAcquireLock locks_path true ok i fs = (Ok (Some lock), fs1) /\
    AcquireLock locks_path true ok i fs = (Ok lock, fs1) /\
    Status lock fs1 = Ok kNotInUse /\ instance_num_ lock = i /\ l_inode lock = (opened locks_path i fs).1 /\
    fs1 = set_held (opened locks_path i fs).1 true (opened locks_path i fs).2.
Proof.
  intros Hwf Hb. rewrite TryAcquireLock_opened, AcquireLock_opened.
  destruct (opened_content i fs Hwf Hb) as (c & Hn & Hh & Hc).
  destruct (opened locks_path i fs) as [n fs1] eqn:Eo. simpl in *. unfold is_held. rewrite Hn.
  eexists _, _. split; [done|]. split; [done|]. split_and!; try done.
  unfold Status, set_held. simpl. rewrite lookup_alter_eq, Hn. simpl.
  destruct c as [|x c]; [done|]. simpl in Hh. rewrite bool_decide_false by congruence.
  destruct Hc as [->| ->]; [done|]. by rewrite bool_decide_true.
Qed.

(** The search returns the smallest id that is free. *)
Lemma AcquireUnusedLock_spec fs k :
  fs_wf fs -> 1 <= k < 2 ^ 32 -> ~ busy locks_path k fs ->
  (forall j, 1 <= j < k -> busy locks_path j fs) ->
  exists lock, AcquireUnusedLock locks_path true ok fs =
      (Ok lock, set_held (opened locks_path k fs).1 true (opened locks_path k fs).2) /\
    instance_num_ lock = k /\ l_inode lock = (opened locks_path k fs).1.
Proof.
  intros Hwf Hk Hfree Hbusy. unfold AcquireUnusedLock.
  apply while_rule with
    (I := fun '(fs', i) => fs' = fs /\ 1 <= i <= k)
    (m := fun '(fs', i) => k - i)
    (Q := fun t => exists lock, t = (Ok lock, set_held (opened locks_path k fs).1 true (opened locks_path k fs).2) /\
            instance_num_ lock = k /\ l_inode lock = (opened locks_path k fs).1).
  - split; [done|lia].
  - lia.
  - intros [fs' i] [-> Hi] _. destruct (decide (i = k)) as [->|Hne].
    + destruct (try_free k fs Hwf Hfree) as (lock & fs1 & -> & _ & -> & Hl & Hn & ->). by exists lock.
    + rewrite u32_id by (unfold is_u32; lia).
      destruct (try_busy i fs Hwf (Hbusy i ltac:(lia))) as [->|(lock & fs1 & -> & -> & ->)];
        (split; [split; [done|lia]|lia]).
Qed.
End acquire.

Section taken.
Context (locks_path : bytes).
Implicit Types (fs : LockFs).

Definition taken (i : Z) fs : LockFs :=
  set_held (opened locks_path i fs).1 true (opened locks_path i fs).2.

Lemma opened_path i fs :
  inode_of (opened locks_path i fs).2 !! lock_path locks_path i = Some (opened locks_path i fs).1.
Proof.
  unfold opened. destruct (inode_of fs !! lock_path locks_path i) as [n|] eqn:E; simpl; [done|].
  by rewrite lookup_insert_eq.
Qed.

Lemma set_held_wf n h fs : fs_wf fs -> fs_wf (set_held n h fs).
Proof.
  intros (W1 & W2 & W3). split_and!; simpl.
  - intros p m Hp. rewrite lookup_alter. destruct (W1 p m Hp) as [x Hx].
    case_decide; [subst; rewrite Hx; by eexists|by eexists].
  - done.
  - intros m x. rewrite lookup_alter. case_decide; [subst|by apply W3].
    intros (y & Hy & ->)%fmap_Some. simpl. by apply (W3 _ y).
Qed.

Lemma taken_wf i fs : fs_wf fs -> fs_wf (taken i fs).
Proof. intros. by apply set_held_wf, opened_wf. Qed.

Lemma busy_opened i j fs :
  fs_wf fs -> busy locks_path j (opened locks_path i fs).2 <-> busy locks_path j fs.
Proof.
  intros (W1 & W2 & W3). unfold opened.
  destruct (inode_of fs !! lock_path locks_path i) as [n|] eqn:E; simpl; [done|].
  unfold busy. simpl. split.
  - intros (n & c & h & Hp & Hn & Hb). destruct (decide (next_inode fs = n)) as [<-|Hne].
    { rewrite lookup_insert_eq in Hn. simplify_eq. by destruct Hb. }
    rewrite lookup_insert_ne in Hn by done. rewrite lookup_insert in Hp.
    case_decide; simplify_eq. by exists n, c, h.
  - intros (n & c & h & Hp & Hn & Hb). exists n, c, h.
    rewrite lookup_insert_ne by congruence. rewrite lookup_insert_ne; [done|].
    intros <-. apply W3 in Hn as [? _]. lia.
Qed.

Lemma busy_taken i j fs :
  fs_wf fs -> busy locks_path j (taken i fs) <-> j = i \/ busy locks_path j fs.
Proof.
  intros Hwf. rewrite <- (busy_opened i j fs Hwf). pose proof (opened_wf locks_path i fs Hwf) as (W1 & W2 & _).
  pose proof (opened_path i fs) as Hp. unfold taken.
  destruct (opened locks_path i fs) as [n fs1]. simpl in *. unfold busy, set_held. simpl. split.
  - intros (m & c & h & Hm & Hc & Hb). destruct (decide (n = m)) as [->|Hne].
    + left. by apply (lock_path_inj locks_path), (W2 _ _ m).
    + rewrite lookup_alter_ne in Hc by done. right. by exists m, c, h.
  - intros [->|(m & c & h & Hm & Hc & Hb)].
    + destruct (W1 _ _ Hp) as [[c h] Hn]. exists n, c, true.
      rewrite lookup_alter_eq, Hn. by auto.
    + destruct (decide (n = m)) as [->|Hne].
      * exists m, c, true. rewrite lookup_alter_eq, Hc. by auto.
      * exists m, c, h. by rewrite lookup_alter_ne by done.
Qed.

Lemma smallest_free fs :
  exists k, 1 <= k <= Z.of_nat (size (inode_of fs)) + 1 /\ ~ busy locks_path k fs /\
    forall j, 1 <= j < k -> busy locks_path j fs.
Proof.
  assert (Hsearch : forall n : nat,
    (exists k, 1 <= k <= Z.of_nat n /\ ~ busy locks_path k fs /\
       forall j, 1 <= j < k -> busy locks_path j fs) \/
    (forall j, 1 <= j <= Z.of_nat n -> busy locks_path j fs)).
  { induction n as [|n [(k & Hk & ?)|Hall]]; [right; lia|left; exists k; split; [lia|done]|].
    destruct (decide (busy locks_path (Z.of_nat (S n)) fs)) as [Hb|Hb].
    - right. intros j Hj. destruct (decide (j = Z.of_nat (S n))) as [->|]; [done|].
      apply Hall. lia.
    - left. exists (Z.of_nat (S n)). split_and!; [lia|lia|done|]. intros j Hj. apply Hall. lia. }
  destruct (Hsearch (size (inode_of fs) + 1)%nat) as [(k & Hk & Hb)|Hall].
  { exists k. split; [lia|done]. }
  exfalso. set (paths := lock_path locks_path <$> seqZ 1 (Z.of_nat (size (inode_of fs)) + 1)).
  assert (NoDup paths) as Hnd.
  { apply NoDup_fmap_2_strong; [|apply NoDup_seqZ]. intros ????. apply lock_path_inj. }
  assert (list_to_set paths ⊆ (dom (inode_of fs) : bytes_set)) as Hsub.
  { intros x. rewrite elem_of_list_to_set. intros (k & -> & Hk%elem_of_seqZ)%list_elem_of_fmap.
    destruct (Hall k) as (n & c & h & Hp & _); [lia|]. by apply elem_of_dom_2 in Hp. }
  apply subseteq_size in Hsub. rewrite size_list_to_set, size_dom in Hsub by done.
  unfold paths in Hsub. rewrite length_fmap, length_seqZ in Hsub. lia.
Qed.
End taken.

(** [AcquireUnusedLock] terminates and hands out the smallest positive id
    that is neither locked nor marked as in use, leaving its lock held and
    every other id as it was. *)
Theorem AcquireUnusedLock_smallest locks_path (fs : LockFs) :
  fs_wf fs -> Z.of_nat (size (inode_of fs)) + 1 < 2 ^ 32 ->
  exists lock fs', AcquireUnusedLock locks_path true (fun _ => true) fs = (Ok lock, fs') /\
    fs_wf fs' /\ 1 <= instance_num_ lock /\ ~ busy locks_path (instance_num_ lock) fs /\
    (forall j, 1 <= j < instance_num_ lock -> busy locks_path j fs) /\
    (forall j, busy locks_path j fs' <-> j = instance_num_ lock \/ busy locks_path j fs).
Proof.
  intros Hwf Hsize. destruct (smallest_free locks_path fs) as (k & Hk & Hfree & Hbusy).
  destruct (AcquireUnusedLock_spec locks_path fs k Hwf ltac:(lia) Hfree Hbusy) as (lock & Hrun & Hl & Hn).
  exists lock, (taken locks_path k fs). rewrite Hl. split_and!; try done; try lia.
  - by apply taken_wf.
  - intros j. by apply busy_taken.
Qed.

Definition empty_fs : LockFs := mkLockFs ∅ ∅ 0.
Lemma empty_fs_wf : fs_wf empty_fs.
Proof. split_and!; simpl; intros; simplify_map_eq. Qed.

Lemma AcquireUnusedLock_smallest_witness :
  exists lock fs', AcquireUnusedLock (str "/lock/") true (fun _ => true) empty_fs = (Ok lock, fs') /\
    1 <= instance_num_ lock.
Proof.
  destruct (AcquireUnusedLock_smallest (str "/lock/") empty_fs) as (lock & fs' & H1 & _ & H2 & _).
  - apply empty_fs_wf.
  - vm_compute. reflexivity.
  - exists lock, fs'. split; [exact H1|exact H2].
Defined.
End InstanceLock.
