(* ===== verification/InstanceManager.v ===== *)
(** * The instance manager (instances/instance_manager.cpp)

    Creating, stopping and removing groups of instances: the manager ties the
    lock files, the database and the directories of a group together.  What the
    directory helpers and the stop command answer is an argument; the calls
    that change the file system are recorded in order. *)
From S2P Require Import Prelude CppString Instances DataViewer InstanceDb InstanceLock.

Module InstanceManager.
Import CppString Instances DataViewer InstanceDb InstanceLock.

Record InstanceParams := mkParams { instance_id : option Z; per_instance_name : option bytes }.
Record InstanceGroupParams := mkGroupParams {
  gp_group_name : bytes; gp_instances : list InstanceParams
}.
Record GroupDirectories := mkDirs {
  base_directory : option bytes; dir_home : option bytes;
  dir_host_artifacts_path : option bytes; product_out_paths : list (option bytes)
}.

Inductive InstanceDirActionOnStop := Keep | ClearDirs.

(** File-system calls, in order. *)
Inductive FsCall :=
| CallSymlink (target path : bytes)
| CallMkdir (path : bytes)
| CallRemoveTree (path : bytes)
| CallRemoveFile (path : bytes)
| CallStopCvd (home : bytes) (clear : bool) (nums : list Z).

Record World := mkWorld { locks : LockFs; db : Viewer; calls : list FsCall }.
Definition set_locks (f : LockFs) (w : World) : World := mkWorld f (db w) (calls w).
Definition set_db (v : Viewer) (w : World) : World := mkWorld (locks w) v (calls w).
Definition add_call (c : FsCall) (w : World) : World := mkWorld (locks w) (db w) (calls w ++ [c]).

Definition on_locks {A} (m : M LockFs A) : M World A := fun w =>
  let '(r, f) := m (locks w) in (r, set_locks f w).
Definition on_db {A} (m : M Viewer A) : M World A := fun w =>
  let '(r, v) := m (db w) in (r, set_db v w).

(** ** The outside world *)
Record Env := mkEnv {
  locks_path : bytes; locks_dir_ok : bool; lock_open_ok : bytes -> bool;
  db_io : Io; thread : Z;
  per_user_dir : bytes; now : Z;
  DirectoryExists : bytes -> bool; Symlink : bytes -> bytes -> bool;
  EnsureDirectoryExists : bytes -> bool; RemoveTree_ok : bytes -> bool;
  RemoveFile_ok : bytes -> bool;
  Dirname : bytes -> bytes; GroupDirFromHome : bytes -> result bytes;
  StopBin : bytes -> result bytes; RunStopCvd : bytes -> list Z -> result unit;
  config_json_name : bytes
}.

Section manager.
Context `{Absl} `{Codec} (e : Env).

Definition BaseDir (g : InstanceGroup) : bytes := Dirname e (home_directory g).
Definition ArtifactsDir (g : InstanceGroup) : bytes := BaseDir g ++ str "/artifacts".
Definition ProductDir (g : InstanceGroup) (i : Z) : bytes :=
  ArtifactsDir g ++ str "/" ++ fmt_int i.

(** ** AllocateAndLockInstanceIds *)
(** The first loop; a failure drops, hence releases, the locks taken. *)
Fixpoint acquire_requested (ps : list InstanceParams) (requested : list Z)
    (acc : list InstanceLockFile) (fs : LockFs) : result (list InstanceLockFile) * LockFs :=
  match ps with
  | [] => (Ok acc, fs)
  | p :: ps =>
      match instance_id p with
      | None => acquire_requested ps requested acc fs
      | Some i =>
          if bool_decide (i ∈ requested)
          then (Err "Requested instance ids must be distinct", release_all acc fs)
          else match AcquireLock (locks_path e) (locks_dir_ok e) (lock_open_ok e) i fs with
               | (Ok l, fs) => acquire_requested ps (i :: requested) (acc ++ [l]) fs
               | (fl, fs) => (fail_as fl, release_all acc fs)
               end
      end
  end.

(** [InternalInstanceDesc] *)
Definition Desc : Type := InstanceLockFile * option bytes.

Fixpoint assign_locks (ps : list InstanceParams) (requested : list InstanceLockFile)
    (ret : list Desc) (fs : LockFs) : result (list Desc) * LockFs :=
  match ps with
  | [] => (Ok ret, fs)
  | p :: ps =>
      match instance_id p with
      | Some _ =>
          match requested with
          | [] => (Err "requested_it != requested_lock_files.end()", release_all (ret.*1) fs)
          | l :: requested => assign_locks ps requested (ret ++ [(l, per_instance_name p)]) fs
          end
      | None =>
          match AcquireUnusedLock (locks_path e) (locks_dir_ok e) (lock_open_ok e) fs with
          | (Ok l, fs) => assign_locks ps requested (ret ++ [(l, per_instance_name p)]) fs
          | (fl, fs) => (fail_as fl, release_all (ret.*1 ++ requested) fs)
          end
      end
  end.

Definition AllocateAndLockInstanceIds (ps : list InstanceParams) : M LockFs (list Desc) := fun fs =>
  match acquire_requested ps [] [] fs with
  | (Ok ls, fs) => assign_locks ps ls [] fs
  | (fl, fs) => (fail_as fl, fs)
  end.

(** ** Directories *)
Definition LinkOrMakeDir (target : option bytes) (path : bytes) : M World unit :=
  match target with
  | Some t =>
      let! _ := lift (expect (DirectoryExists e t) "DirectoryExists(*target)") in
      let! _ := lift (expect (Symlink e t path) "symlink") in
      modify (add_call (CallSymlink t path))
  | None =>
      let! _ := lift (expect (EnsureDirectoryExists e path) "Failed to create directory") in
      modify (add_call (CallMkdir path))
  end.

Fixpoint link_product_dirs (g : InstanceGroup) (i : Z) (paths : list (option bytes))
    : M World unit :=
  match paths with
  | [] => mret tt
  | p :: paths =>
      let! _ := LinkOrMakeDir p (ProductDir g i) in link_product_dirs g (i + 1) paths
  end.

Definition CreateOrLinkGroupDirectories (g : InstanceGroup) (d : GroupDirectories) : M World unit :=
  let! _ := LinkOrMakeDir (base_directory d) (BaseDir g) in
  let! _ := LinkOrMakeDir (dir_home d) (home_directory g) in
  let! _ := LinkOrMakeDir None (ArtifactsDir g) in
  let! _ := LinkOrMakeDir (dir_host_artifacts_path d) (host_artifacts_path g) in
  link_product_dirs g 0 (product_out_paths d).

Definition RemoveGroupDirectory (g : InstanceGroup) : M World unit :=
  if negb (StartsWith (home_directory g) (per_user_dir e)) then mret tt
  else
    let! group_directory := lift (GroupDirFromHome e (home_directory g)) in
    if DirectoryExists e group_directory then
      let! _ := lift (expect (RemoveTree_ok e group_directory) "Failed to remove group directory") in
      modify (add_call (CallRemoveTree group_directory))
    else mret tt.

(** ** CreateInstanceGroup *)
Definition add_desc (b : Builder) (d : Desc) : Builder :=
  match d.2 with
  | Some n => AddInstance_named (instance_num_ d.1) n b
  | None => AddInstance (instance_num_ d.1) b
  end.
Definition build_group (gname : bytes) (descs : list Desc) : result InstanceGroup :=
  Build (foldl add_desc (Builder_ (per_user_dir e) (now e) gname) descs).

Fixpoint mark_in_use (ls : list InstanceLockFile) : M LockFs unit :=
  match ls with
  | [] => mret tt
  | l :: ls => let! _ := SetStatus l kInUse in mark_in_use ls
  end.

(** [AddInstanceGroup(group)]: the copy shares the message, so the caller's
    group has the name the database gave it. *)
Definition add_to_db (g : InstanceGroup) : M World InstanceGroup := fun w =>
  match AddInstanceGroup (db_io e) (thread e) (db w, g) with
  | (Ok _, (v, g')) => (Ok g', set_db v w)
  | (fl, (v, _)) => (fail_as fl, set_db v w)
  end.

(** The body after the ids are allocated; the locks are dropped on return. *)
Definition create_with (gname : bytes) (d : GroupDirectories) (descs : list Desc)
    : M World InstanceGroup :=
  let! group := lift (build_group gname descs) in
  let! _ := CreateOrLinkGroupDirectories group d in
  let! group := add_to_db group in
  let! _ := on_locks (mark_in_use (descs.*1)) in
  mret group.

Definition CreateInstanceGroup (params : InstanceGroupParams) (d : GroupDirectories)
    : M World InstanceGroup :=
  let! _ := lift (expect (Nat.eqb (length (gp_instances params)) (length (product_out_paths d)))
                   "Number of product directories doesn't match number of instances") in
  let! descs := on_locks (AllocateAndLockInstanceIds (gp_instances params)) in
  fun w =>
    let '(r, w') := create_with (gp_group_name params) d descs w in
    (r, set_locks (release_all (descs.*1) (locks w')) w').

(** ** Removing, updating and stopping *)
(** Failing to remove a lock file is only logged. *)
Fixpoint remove_lock_files (insts : list Instance) (fs : LockFs) : LockFs :=
  match insts with
  | [] => fs
  | i :: insts =>
      if id i =? 0 then remove_lock_files insts fs
      else remove_lock_files insts
             (RemoveLockFile (locks_path e) (locks_dir_ok e) (id i) fs).2
  end.

Definition RemoveInstanceGroup (g : InstanceGroup) : M World bool :=
  let! active := lift (HasActiveInstances g) in
  let! _ := lift (expect (negb active) "Group still contains active instances") in
  let! _ := modify (fun w => set_locks (remove_lock_files (instances g) (locks w)) w) in
  let! _ := RemoveGroupDirectory g in
  on_db (InstanceDb.RemoveInstanceGroup (db_io e) (thread e) (group_name g)).

Definition UpdateInstanceGroup (g : InstanceGroup) : M World unit :=
  on_db (InstanceDb.UpdateInstanceGroup (db_io e) (thread e) g).

(** The group is passed by reference: its new value is returned too, and its
    update in the database may fail silently. *)
Definition StopInstanceGroup (g : InstanceGroup) (action : InstanceDirActionOnStop)
    (instance_nums : list Z) : M World InstanceGroup :=
  let! _ := lift (expect (forallb (fun n => bool_decide (n ∈ id <$> instances g)) instance_nums)
                   "Instance ID does not belong to group") in
  let! _ := lift (StopBin e (host_artifacts_path g)) in
  let! _ := modify (add_call (CallStopCvd (home_directory g)
                     (match action with ClearDirs => true | Keep => false end) instance_nums)) in
  let! _ := lift (RunStopCvd e (home_directory g) instance_nums) in
  let g' :=
    if bool_decide (instance_nums = []) then SetAllStates INSTANCE_STATE_STOPPED g
    else set_instances ((fun i => if bool_decide (id i ∈ instance_nums)
                                  then set_state INSTANCE_STATE_STOPPED i else i) <$> instances g) g in
  let! _ := attempt (UpdateInstanceGroup g') in
  mret g'.

(** One group of [Clear]; errors are logged. *)
Definition clear_group (g : InstanceGroup) : M World unit :=
  let! active := lift (HasActiveInstances g) in
  let! _ := (if active then let! _ := attempt (StopInstanceGroup g ClearDirs []) in mret tt
             else mret tt) in
  let! _ := modify (fun w => set_locks (remove_lock_files (instances g) (locks w)) w) in
  let! _ := modify (add_call (CallRemoveFile (home_directory g ++ str "/cuttlefish_runtime"))) in
  let! _ := modify (add_call (CallRemoveFile (home_directory g ++ str "/" ++ config_json_name e))) in
  let! _ := attempt (RemoveGroupDirectory g) in
  mret tt.
Fixpoint clear_groups (gs : list InstanceGroup) : M World unit :=
  match gs with
  | [] => mret tt
  | g :: gs => let! _ := clear_group g in clear_groups gs
  end.
Definition Clear : M World unit :=
  let! groups := on_db (InstanceDb.Clear (db_io e) (thread e)) in
  clear_groups groups.

Definition HasInstanceGroups : M World bool :=
  let! empty := on_db (IsEmpty (db_io e) (thread e)) in mret (negb empty).
Definition FindGroup (f : Filter) : M World InstanceGroup :=
  let! output := on_db (FindGroups (db_io e) (thread e) f) in
  match output with
  | [g] => mret g
  | _ => lift (Err "output.size() == 1ul")
  end.
End manager.

(** ** Allocation *)
(** The environment in which no file operation fails. *)
Definition locks_fine (e : Env) : Prop :=
  locks_dir_ok e = true /\ lock_open_ok e = fun _ => true.

Lemma taken_size lp i fs :
  (size (inode_of (taken lp i fs)) <= size (inode_of fs) + 1)%nat.
Proof.
  unfold taken, set_held, opened. simpl.
  destruct (inode_of fs !! lock_path lp i) eqn:E; simpl; [lia|].
  rewrite map_size_insert_None by done. lia.
Qed.

Lemma AcquireLock_ok lp i fs l fs' :
  AcquireLock lp true (fun _ => true) i fs = (Ok l, fs') ->
  fs' = taken lp i fs /\ instance_num_ l = i.
Proof.
  rewrite AcquireLock_opened. unfold taken. destruct (opened lp i fs) as [n fs1]. simpl.
  destruct (is_held n fs1); [done|]. by intros [= <- <-].
Qed.

Section alloc.
Context (e : Env) (Hfine : locks_fine e).
Local Abbreviation lp := (locks_path e).

Definition requested_ids (ps : list InstanceParams) : list Z := omap instance_id ps.

Lemma acquire_requested_spec ps requested acc fs acc' fs' :
  fs_wf fs -> acquire_requested e ps requested acc fs = (Ok acc', fs') ->
  exists new, acc' = acc ++ new /\ (instance_num_ <$> new) = requested_ids ps /\
    NoDup (requested_ids ps) /\ (forall i, i ∈ requested_ids ps -> i ∉ requested) /\
    fs_wf fs' /\ (size (inode_of fs') <= size (inode_of fs) + length ps)%nat /\
    (forall j, busy lp j fs' <-> j ∈ requested_ids ps \/ busy lp j fs).
Proof.
  destruct Hfine as [Hd Ho]. unfold requested_ids.
  revert requested acc fs. induction ps as [|p ps IH]; intros requested acc fs Hwf; simpl.
  { intros [= <- <-]. exists []. rewrite app_nil_r. split_and!; try done; try lia.
    - constructor.
    - intros i Hi. by apply elem_of_nil in Hi.
    - intros j. rewrite elem_of_nil. naive_solver. }
  destruct (instance_id p) as [i|] eqn:Ei.
  - case_bool_decide as Er; [done|]. rewrite Hd, Ho.
    destruct (AcquireLock _ _ _ i fs) as [[l| | |] fs1] eqn:Ea; try done.
    apply AcquireLock_ok in Ea as [-> Hl]. intros Hrun.
    pose proof (taken_wf (locks_path e) i fs Hwf) as Hwf1.
    pose proof (taken_size (locks_path e) i fs) as Hs1.
    apply IH in Hrun as (new & -> & Hn & Hnd & Hdis & Hwf' & Hs & Hb); [|done].
    exists (l :: new). rewrite <- app_assoc. cbn [fmap list_fmap]. rewrite Hl, Hn.
    split_and!; try done.
    + constructor; [|done]. intros Hin. apply Hdis in Hin. apply Hin. left.
    + intros j. rewrite elem_of_cons. intros [->|Hj]; [done|]. apply Hdis in Hj.
      intros Hin. apply Hj. by right.
    + lia.
    + intros j. rewrite Hb, elem_of_cons, busy_taken by done. naive_solver.
  - intros Hrun. apply IH in Hrun as (new & -> & ? & ? & ? & ? & ? & ?); [|done].
    exists new. split_and!; try done. lia.
Qed.

Definition desc_id (d : Desc) : Z := instance_num_ d.1.

(** What an entry of the result owes to its parameters. *)
Definition desc_for (fs : LockFs) (p : InstanceParams) (d : Desc) : Prop :=
  d.2 = per_instance_name p /\
  match instance_id p with
  | Some i => desc_id d = i
  | None => 1 <= desc_id d /\ ~ busy lp (desc_id d) fs
  end.

(** Ids that are taken and were not asked for are none of the ids given out. *)
Lemma desc_for_not_in fs ps new i :
  Forall2 (desc_for fs) ps new -> busy lp i fs -> i ∉ requested_ids ps ->
  i ∉ desc_id <$> new.
Proof.
  intros Hall Hb Hi Hin. apply list_elem_of_fmap in Hin as (d & Heq & Hdin).
  apply list_elem_of_lookup in Hdin as [k Hk].
  destruct (Forall2_lookup_r _ _ _ _ _ Hall Hk) as (q & Hq & _ & Hid).
  destruct (instance_id q) as [iq|] eqn:Eq.
  - apply Hi. apply list_elem_of_omap. exists q.
    split; [by eapply list_elem_of_lookup_2|congruence].
  - destruct Hid as [_ Hfree]. apply Hfree. by rewrite <- Heq.
Qed.

Lemma assign_locks_spec ps requested ret fs ret' fs' :
  fs_wf fs -> Z.of_nat (size (inode_of fs)) + zlen ps + 1 < 2 ^ 32 ->
  (instance_num_ <$> requested) = requested_ids ps ->
  (forall i, i ∈ requested_ids ps -> busy lp i fs) ->
  assign_locks e ps requested ret fs = (Ok ret', fs') ->
  exists new, ret' = ret ++ new /\ Forall2 (desc_for fs) ps new /\
    (NoDup (requested_ids ps) -> NoDup (desc_id <$> new)) /\ fs_wf fs' /\
    (forall j, busy lp j fs' <-> busy lp j fs \/ j ∈ desc_id <$> new).
Proof.
  destruct Hfine as [Hd Ho]. unfold requested_ids.
  revert requested ret fs. induction ps as [|p ps IH]; intros requested ret fs Hwf Hsz Hreq Hbusy; simpl.
  { intros [= <- <-]. exists []. rewrite app_nil_r. 
    split_and!; [done|constructor|intros _; constructor|done|].
    intros j. rewrite elem_of_nil. naive_solver. }
  rewrite zlen_cons in Hsz. pose proof (zlen_nonneg ps). simpl in Hreq, Hbusy.
  destruct (instance_id p) as [i|] eqn:Ei.
  - destruct requested as [|l requested]; [done|]. injection Hreq as Hl Hreq. intros Hrun.
    apply IH in Hrun as (new & -> & Hall & Hnd & Hwf' & Hb); [|done|lia|done|].
    2: { intros j Hj. apply Hbusy. by right. }
    exists ((l, per_instance_name p) :: new). rewrite <- app_assoc. split_and!; try done.
    + constructor; [|done]. split; [done|]. by rewrite Ei.
    + intros [Hi Hnd']%NoDup_cons. cbn [fmap list_fmap]. apply NoDup_cons.
      split; [|by apply Hnd]. unfold desc_id at 1. simpl. rewrite Hl.
      eapply desc_for_not_in; [exact Hall| |exact Hi]. apply Hbusy. left.
    + intros j. rewrite Hb. cbn [fmap list_fmap]. rewrite elem_of_cons.
      unfold desc_id at 2. simpl. rewrite Hl. split; [naive_solver|].
      intros [|[->|]]; [by left| |by right]. left. apply Hbusy. left.
  - rewrite Hd, Ho.
    destruct (smallest_free lp fs) as (k & Hk & Hfree & Hsm).
    destruct (AcquireUnusedLock_spec lp fs k Hwf ltac:(lia) Hfree Hsm) as (l & Hrun & Hl & _).
    rewrite Hrun. fold (taken (locks_path e) k fs). intros Hrec.
    pose proof (taken_wf (locks_path e) k fs Hwf) as Hwf1.
    pose proof (taken_size (locks_path e) k fs) as Hs1.
    apply IH in Hrec as (new & -> & Hall & Hnd & Hwf' & Hb); [|done|lia|done|].
    2: { intros j Hj. apply busy_taken; [done|]. right. by apply Hbusy. }
    exists ((l, per_instance_name p) :: new). rewrite <- app_assoc. split_and!; try done.
    + constructor.
      * split; [done|]. rewrite Ei. unfold desc_id. simpl. rewrite Hl. split; [lia|done].
      * eapply Forall2_impl; [exact Hall|]. intros q d [Hname Hq]. split; [done|].
        destruct (instance_id q); [done|]. destruct Hq as [? Hq]. split; [done|].
        intros Hbq. apply Hq. apply busy_taken; [done|]. by right.
    + intros Hnd'. cbn [fmap list_fmap]. apply NoDup_cons. split; [|by apply Hnd].
      unfold desc_id at 1. simpl. rewrite Hl.
      eapply desc_for_not_in; [exact Hall|apply busy_taken; [done|by left]|].
      intros Hin. apply Hfree, Hbusy, Hin.
    + intros j. rewrite Hb, busy_taken by done. cbn [fmap list_fmap]. rewrite elem_of_cons.
      unfold desc_id at 2. simpl. rewrite Hl. naive_solver.
Qed.
End alloc.

(** ** CreateInstanceGroup *)
Section create.
Context (e : Env) (Hfine : locks_fine e).

(** A lock stands for the file its id's path names. *)
Definition owns (fs : LockFs) (l : InstanceLockFile) : Prop :=
  inode_of fs !! lock_path (locks_path e) (instance_num_ l) = Some (l_inode l).

Lemma taken_owns i fs l : owns fs l -> owns (taken (locks_path e) i fs) l.
Proof.
  unfold owns, taken, opened, set_held. simpl.
  destruct (inode_of fs !! lock_path (locks_path e) i) eqn:E; simpl; [done|].
  intros Hl. rewrite lookup_insert_ne; [done|]. intros Heq. rewrite Heq in E. congruence.
Qed.

Lemma taken_owns_new i fs l :
  instance_num_ l = i -> l_inode l = (opened (locks_path e) i fs).1 ->
  owns (taken (locks_path e) i fs) l.
Proof. intros <- Hl. unfold owns, taken. simpl. rewrite Hl. apply opened_path. Qed.

Lemma acquire_requested_owns ps requested acc fs acc' fs' :
  acquire_requested e ps requested acc fs = (Ok acc', fs') ->
  Forall (owns fs) acc -> Forall (owns fs') acc'.
Proof.
  destruct Hfine as [Hd Ho]. revert requested acc fs.
  induction ps as [|p ps IH]; intros requested acc fs; simpl; [by intros [= <- <-]|].
  destruct (instance_id p) as [i|]; [|apply IH]. case_bool_decide; [done|]. rewrite Hd, Ho.
  rewrite AcquireLock_opened. destruct (opened (locks_path e) i fs) as [n fs1] eqn:Eo.
  destruct (is_held n fs1); [done|]. intros Hrun Hacc. eapply IH; [exact Hrun|].
  assert (set_held n true fs1 = taken (locks_path e) i fs) as ->
    by (unfold taken; by rewrite Eo).
  apply Forall_app. split.
  - eapply Forall_impl; [exact Hacc|]. intros l. apply taken_owns.
  - apply Forall_singleton, taken_owns_new; [done|]. by rewrite Eo.
Qed.

Lemma assign_locks_owns ps requested ret fs ret' fs' :
  fs_wf fs -> Z.of_nat (size (inode_of fs)) + zlen ps + 1 < 2 ^ 32 ->
  assign_locks e ps requested ret fs = (Ok ret', fs') ->
  Forall (owns fs) requested -> Forall (owns fs) ret.*1 -> Forall (owns fs') ret'.*1.
Proof.
  destruct Hfine as [Hd Ho]. revert requested ret fs.
  induction ps as [|p ps IH]; intros requested ret fs Hwf Hsz; simpl; [by intros [= <- <-]|].
  rewrite zlen_cons in Hsz. pose proof (zlen_nonneg ps).
  destruct (instance_id p) as [i|].
  - destruct requested as [|l requested]; [done|]. intros Hrun Hreq%Forall_cons Hret.
    refine (IH _ _ _ Hwf _ Hrun _ _); [lia|by destruct Hreq|].
    rewrite fmap_app, Forall_app. split; [done|]. apply Forall_singleton. by destruct Hreq.
  - rewrite Hd, Ho. destruct (smallest_free (locks_path e) fs) as (k & Hk & Hfree & Hsm).
    destruct (AcquireUnusedLock_spec (locks_path e) fs k Hwf ltac:(lia) Hfree Hsm)
      as (l & -> & Hl & Hn). fold (taken (locks_path e) k fs). intros Hrun Hreq Hret.
    pose proof (taken_size (locks_path e) k fs).
    refine (IH _ _ _ (taken_wf _ _ _ Hwf) _ Hrun _ _); [lia| |].
    + eapply Forall_impl; [exact Hreq|]. intros x. apply taken_owns.
    + rewrite fmap_app, Forall_app. split.
      * eapply Forall_impl; [exact Hret|]. intros x. apply taken_owns.
      * apply Forall_singleton. by apply taken_owns_new.
Qed.

(** Marking and releasing only touch inodes. *)
Definition marked (fs : LockFs) (n : Z) : Prop :=
  exists c h, inodes fs !! n = Some (c, h) /\ head c = Some (state_char kInUse).

Lemma mark_in_use_spec ls fs :
  Forall (fun l => is_Some (inodes fs !! l_inode l)) ls ->
  exists fs', mark_in_use ls fs = (Ok tt, fs') /\ inode_of fs' = inode_of fs /\
    (forall n, marked fs n -> marked fs' n) /\ Forall (fun l => marked fs' (l_inode l)) ls.
Proof.
  revert fs. induction ls as [|l ls IH]; intros fs Hls; simpl.
  { exists fs. split_and!; [done|done|done|constructor]. }
  apply Forall_cons in Hls as [[[c h] Hl] Hls].
  unfold mbind, SetStatus. rewrite Hl.
  set (fs1 := mkLockFs _ _ _).
  assert (Hm1 : forall n, marked fs n \/ n = l_inode l -> marked fs1 n).
  { intros n Hn. unfold marked, fs1. simpl. destruct (decide (l_inode l = n)) as [<-|Hne].
    - rewrite lookup_insert_eq. by eexists _, _.
    - rewrite lookup_insert_ne by done. destruct Hn as [Hn| ->]; [exact Hn|done]. }
  destruct (IH fs1) as (fs' & Hrun & Hi & Hmono & Hmarked).
  { eapply Forall_impl; [exact Hls|]. intros x [y Hy]. unfold fs1. simpl.
    rewrite lookup_insert. case_decide; by eexists. }
  exists fs'. split_and!; [done|by rewrite Hi| |].
  - intros n Hn. apply Hmono, Hm1. by left.
  - constructor; [|done]. apply Hmono, Hm1. by right.
Qed.

Lemma release_all_spec ls fs :
  inode_of (release_all ls fs) = inode_of fs /\
  (forall n c h, inodes fs !! n = Some (c, h) ->
     exists h', inodes (release_all ls fs) !! n = Some (c, h') /\
       (h = false \/ n ∈ l_inode <$> ls -> h' = false)).
Proof.
  unfold release_all. revert fs. induction ls as [|l ls IH]; intros fs.
  { split; [done|]. intros n c h Hn. exists h. split; [done|]. intros [|Hin]; [done|].
    by apply elem_of_nil in Hin. }
  cbn [foldl]. destruct (IH (release l fs)) as [Hi Hc]. split; [by rewrite Hi|].
  intros n c h Hn. assert (inodes (release l fs) !! n =
    Some (c, if decide (l_inode l = n) then false else h)) as Hn1.
  { unfold release, set_held. simpl. destruct (decide (l_inode l = n)) as [<-|];
      [by rewrite lookup_alter_eq, Hn|by rewrite lookup_alter_ne, Hn]. }
  destruct (Hc _ _ _ Hn1) as (h' & Hh' & Hf). exists h'. split; [done|].
  rewrite fmap_cons, elem_of_cons. intros Hor. apply Hf. case_decide; [by left|].
  destruct Hor as [->|[->|]]; [by left|done|by right].
Qed.

(** Directory operations leave the locks and the database alone. *)
Definition framed {A} (m : M World A) : Prop :=
  forall w r w', m w = (r, w') -> locks w' = locks w /\ db w' = db w.

Lemma framed_bind {A B} (m : M World A) (k : A -> M World B) :
  framed m -> (forall a, framed (k a)) -> framed (mbind m k).
Proof.
  intros Hm Hk w r w'. unfold mbind. destruct (m w) as [[a| | |] w1] eqn:E;
    apply Hm in E as [E1 E2]; [|by intros [= <- <-]..].
  intros [E3 E4]%Hk. by rewrite E3, E4.
Qed.
Lemma framed_lift {A} (r : result A) : framed (lift r).
Proof. intros w r' w' [= <- <-]. done. Qed.
Lemma framed_call c : framed (modify (add_call c)).
Proof. intros w r w' [= <- <-]. done. Qed.

Lemma framed_LinkOrMakeDir t p : framed (LinkOrMakeDir e t p).
Proof.
  unfold LinkOrMakeDir. destruct t;
    repeat (apply framed_bind; [apply framed_lift|intros _]); apply framed_call.
Qed.

Lemma framed_CreateOrLinkGroupDirectories `{Absl} g d : framed (CreateOrLinkGroupDirectories e g d).
Proof.
  unfold CreateOrLinkGroupDirectories.
  do 4 (apply framed_bind; [apply framed_LinkOrMakeDir|intros _]).
  generalize 0. induction (product_out_paths d) as [|p ps IH]; intros i; simpl.
  - intros w r w' [= <- <-]. done.
  - apply framed_bind; [apply framed_LinkOrMakeDir|intros _; apply IH].
Qed.

Lemma build_group_ok `{Absl} gname descs g :
  build_group e gname descs = Ok g ->
  group_valid g /\ group_name g = gname /\ (id <$> instances g) = desc_id <$> descs.
Proof.
  unfold build_group, Build. intros [-> Hv]%Create_ok. split; [done|]. simpl. clear Hv.
  set (b0 := Builder_ _ _ _).
  assert (forall b, group_name (group_proto_ (foldl add_desc b descs)) = group_name (group_proto_ b) /\
     (id <$> instances (group_proto_ (foldl add_desc b descs))) =
     (id <$> instances (group_proto_ b)) ++ (desc_id <$> descs)) as Hfold.
  { induction descs as [|d descs IH]; intros b; simpl; [by rewrite app_nil_r|].
    destruct (IH (add_desc b d)) as [-> ->]. unfold add_desc, AddInstance.
    destruct (d.2); simpl; rewrite fmap_app, <- app_assoc; done. }
  destruct (Hfold b0) as [-> ->]. done.
Qed.
End create.

Lemma alloc_spec (e : Env) ps fs descs fs' :
  locks_fine e -> fs_wf fs -> Z.of_nat (size (inode_of fs)) + 2 * zlen ps + 1 < 2 ^ 32 ->
  AllocateAndLockInstanceIds e ps fs = (Ok descs, fs') ->
  (NoDup (desc_id <$> descs) /\
   Forall2 (desc_for e fs) ps descs /\
   (forall j, busy (locks_path e) j fs' <-> busy (locks_path e) j fs \/ j ∈ desc_id <$> descs)) /\
  fs_wf fs' /\ Forall (owns e fs') descs.*1.
Proof.
  intros Hfine Hwf Hsz. unfold AllocateAndLockInstanceIds.
  destruct (acquire_requested e ps [] [] fs) as [[ls| | |] fs1] eqn:E1; try done.
  pose proof (acquire_requested_owns e Hfine _ _ _ _ _ _ E1 (Forall_nil_2 _)) as Ho1.
  apply (acquire_requested_spec e Hfine) in E1 as (new & -> & Hn & Hnd & _ & Hwf1 & Hs1 & Hb1); [|done].
  intros Hrun. assert (Z.of_nat (size (inode_of fs1)) + zlen ps + 1 < 2 ^ 32) as Hsz1
    by (unfold zlen in *; lia).
  pose proof (assign_locks_owns e Hfine _ _ _ _ _ _ Hwf1 Hsz1 Hrun Ho1 (Forall_nil_2 _)) as Ho2.
  apply (assign_locks_spec e Hfine) in Hrun as (ds & -> & Hall & Hnd2 & Hwf2 & Hb2); [|done..|].
  2: { intros i Hi. apply Hb1. by left. }
  split; [|done]. simpl. split; [by apply Hnd2|]. split.
  - eapply Forall2_impl; [exact Hall|]. intros p d [Hname Hd]. split; [done|].
    destruct (instance_id p); [done|]. destruct Hd as [? Hnb]. split; [done|].
    intros Hb. apply Hnb, Hb1. by right.
  - intros j. rewrite Hb2, Hb1. split; [|naive_solver].
    intros [[Hj|Hj]|Hj]; [|by left|by right]. right.
    unfold requested_ids in Hj. apply list_elem_of_omap in Hj as (p & Hp & Hid).
    apply list_elem_of_lookup in Hp as [k Hk].
    destruct (Forall2_lookup_l _ _ _ _ _ Hall Hk) as (d & Hdk & _ & Hdi).
    rewrite Hid in Hdi. apply list_elem_of_fmap. exists d. split; [done|].
    by eapply list_elem_of_lookup_2.
Qed.

(** [AllocateAndLockInstanceIds]: on success every instance gets the id it
    asked for, or else a positive id that nobody held or used before the call;
    the ids are pairwise distinct, names are kept, and all the ids are locked. *)
Theorem AllocateAndLockInstanceIds_distinct (e : Env) ps fs descs fs' :
  locks_fine e -> fs_wf fs -> Z.of_nat (size (inode_of fs)) + 2 * zlen ps + 1 < 2 ^ 32 ->
  AllocateAndLockInstanceIds e ps fs = (Ok descs, fs') ->
  NoDup (desc_id <$> descs) /\
  Forall2 (desc_for e fs) ps descs /\
  (forall j, busy (locks_path e) j fs' <-> busy (locks_path e) j fs \/ j ∈ desc_id <$> descs).
Proof.
  intros Hfine Hwf Hsz Hrun. by apply (alloc_spec e ps fs descs fs' Hfine Hwf Hsz Hrun).
Qed.

Definition sample_env : Env :=
  mkEnv (str "/lock/") true (fun _ => true) no_faults 1 (str "/u") 7
    (fun _ => true) (fun _ _ => true) (fun _ => true) (fun _ => true) (fun _ => true)
    (fun x => x) (fun _ => Ok (str "/u/7")) (fun _ => Ok (str "stop_cvd")) (fun _ _ => Ok tt)
    (str "cfg.json").

Lemma AllocateAndLockInstanceIds_distinct_witness :
  let ps := [mkParams None None; mkParams (Some 1) None; mkParams None (Some (str "x"))] in
  exists descs fs', AllocateAndLockInstanceIds sample_env ps empty_fs = (Ok descs, fs') /\
    (desc_id <$> descs) = [2; 1; 3] /\ NoDup (desc_id <$> descs).
Proof.
  intros ps.
  assert (exists descs fs', AllocateAndLockInstanceIds sample_env ps empty_fs = (Ok descs, fs') /\
    (desc_id <$> descs) = [2; 1; 3]) as (descs & fs' & Hrun & Hids).
  { destruct (AllocateAndLockInstanceIds sample_env ps empty_fs) as [r fs'] eqn:E.
    apply (f_equal fst) in E. simpl in E. vm_compute in E. subst r. eexists _, fs'. by split. }
  exists descs, fs'. split; [exact Hrun|]. split; [exact Hids|].
  apply (AllocateAndLockInstanceIds_distinct sample_env ps empty_fs descs fs').
  - split; reflexivity.
  - apply empty_fs_wf.
  - vm_compute. reflexivity.
  - exact Hrun.
Defined.

(** The id's file says that a device uses the id, and nobody holds its lock. *)
Definition in_use (lp : bytes) (fs : LockFs) (i : Z) : Prop :=
  exists n c, inode_of fs !! lock_path lp i = Some n /\ inodes fs !! n = Some (c, false) /\
    head c = Some (state_char kInUse).

Lemma desc_for_instances (e : Env) fs ps ds insts :
  Forall2 (desc_for e fs) ps ds ->
  Forall2 (fun (x : Instance) (y : Desc) => id x = desc_id y) insts ds ->
  Forall2 (fun p i => match instance_id p with
                      | Some x => id i = x
                      | None => ~ busy (locks_path e) (id i) fs
                      end) ps insts.
Proof.
  intros Hfor. revert insts.
  induction Hfor as [|p x ps ds [_ Hx] _ IH]; intros insts; [by intros ->%Forall2_nil_inv_r|].
  intros (i & insts' & Hi & Hrest & ->)%Forall2_cons_inv_r. constructor; [|by apply IH].
  rewrite Hi. destruct (instance_id p); [done|]. by destruct Hx.
Qed.

(** C4. [CreateInstanceGroup], on success: the group returned is the one added
    to the database, whose invariant is kept; it has one instance per
    parameter, with the id that was asked for or a fresh one; and every id of
    the group is marked in use in its lock file, with the lock released. *)
Theorem CreateInstanceGroup_effects `{Absl} `{Codec} (e : Env) params d w g w' :
  locks_fine e -> db_io e = no_faults -> lock_held_by_ (db w) = ∅ ->
  db_wf (stored (db w)) -> fs_wf (locks w) ->
  Z.of_nat (size (inode_of (locks w))) + 2 * zlen (gp_instances params) + 1 < 2 ^ 32 ->
  CreateInstanceGroup e params d w = (Ok g, w') ->
  stored (db w') = stored (db w) ++ [g] /\ db_wf (stored (db w')) /\
  Forall2 (fun p i => match instance_id p with
                      | Some x => id i = x
                      | None => ~ busy (locks_path e) (id i) (locks w)
                      end) (gp_instances params) (instances g) /\
  Forall (fun i => in_use (locks_path e) (locks w') (id i)) (instances g).
Proof.
  intros Hfine Hio Hheld Hwf Hfs Hsz. unfold CreateInstanceGroup.
  rewrite mbind_ok. intros (u & w0 & Hexp & Hrun).
  assert (w0 = w) as -> by (unfold lift, expect in Hexp; destruct (Nat.eqb _ _); congruence).
  rewrite mbind_ok in Hrun. destruct Hrun as (descs & w1 & Halloc & Hrun).
  unfold on_locks in Halloc.
  destruct (AllocateAndLockInstanceIds e (gp_instances params) (locks w)) as [r fs1] eqn:Ea.
  injection Halloc as -> <-.
  destruct (alloc_spec e _ _ _ _ Hfine Hfs Hsz Ea) as ((_ & Hfor & _) & (Wn1 & _) & Howns).
  destruct (create_with e (gp_group_name params) d descs (set_locks fs1 w)) as [r w2] eqn:Ec.
  injection Hrun as -> <-. unfold create_with in Ec.
  rewrite mbind_ok in Ec. destruct Ec as (g0 & w3 & Hb & Ec).
  injection Hb as Hbuild <-. apply build_group_ok in Hbuild as (Hg0 & _ & Hids).
  rewrite mbind_ok in Ec. destruct Ec as (u1 & w4 & Hdirs & Ec).
  apply framed_CreateOrLinkGroupDirectories in Hdirs as [Hl4 Hd4]. simpl in Hl4, Hd4.
  rewrite mbind_ok in Ec. destruct Ec as (g1 & w5 & Hadd & Ec).
  unfold add_to_db in Hadd. rewrite Hio, Hd4 in Hadd.
  destruct (AddInstanceGroup no_faults (thread e) (db w, g0)) as [ra [v5 g5]] eqn:Eadd.
  destruct ra as [u2| | |]; try done. injection Hadd as -> <-.
  destruct (AddInstanceGroup_wf _ _ _ _ _ _ Hheld Hwf Hg0 Eadd) as (_ & Hwf5 & Hst).
  destruct (Hst eq_refl) as (Hst5 & Hnamed & _).
  assert (instances g1 = instances g0) as Hinst by (rewrite Hnamed; apply named_fields).
  rewrite mbind_ok in Ec. destruct Ec as (u3 & w6 & Hmark & Ec). injection Ec as <- <-.
  unfold on_locks in Hmark. simpl in Hmark. rewrite Hl4 in Hmark.
  destruct (mark_in_use_spec descs.*1 fs1) as (fs2 & Hmk & Hi2 & _ & Hall).
  { eapply Forall_impl; [exact Howns|]. intros l Hl. by apply (Wn1 (lock_path (locks_path e) (instance_num_ l))). }
  rewrite Hmk in Hmark. injection Hmark as _ <-. simpl.
  split; [done|]. split; [done|].
  assert (Hlen : Forall2 (fun (x : Instance) (y : Desc) => id x = desc_id y) (instances g1) descs).
  { rewrite Hinst. by apply fmap_eq_Forall2. }
  split.
  - by eapply desc_for_instances.
  - apply Forall_forall. intros i [k Hk]%list_elem_of_lookup.
    destruct (Forall2_lookup_l _ _ _ _ _ Hlen Hk) as (x & Hx & Hid).
    assert (x.1 ∈ descs.*1) as Hin by (apply list_elem_of_fmap_2; by eapply list_elem_of_lookup_2).
    rewrite Forall_forall in Hall, Howns.
    destruct (Hall _ Hin) as (c & h & Hc & Hhead). specialize (Howns _ Hin). unfold owns in Howns.
    destruct (release_all_spec descs.*1 fs2) as [Hi3 Hc3]. destruct (Hc3 _ _ _ Hc) as (h' & Hh' & Hf).
    exists (l_inode x.1), c. rewrite Hi3, Hi2. unfold desc_id in Hid. rewrite Hid.
    split_and!; [done| |done]. rewrite Hh', Hf; [done|]. right. by apply list_elem_of_fmap_2.
Qed.

Definition sample_world : World := mkWorld empty_fs (mkViewer [] ∅) [].
Definition sample_params : InstanceGroupParams :=
  mkGroupParams [] [mkParams None None; mkParams (Some 4) (Some (str "x"))].

Lemma CreateInstanceGroup_effects_witness :
  exists g w', CreateInstanceGroup sample_env sample_params (mkDirs None None None [None; None])
      sample_world = (Ok g, w') /\
    stored (db w') = stored (db sample_world) ++ [g].
Proof.
  destruct (CreateInstanceGroup sample_env sample_params (mkDirs None None None [None; None])
              sample_world) as [r w'] eqn:E.
  assert (is_ok r = true) as Hok.
  { apply (f_equal (fun x => is_ok x.1)) in E. simpl in E. rewrite <- E. vm_compute. reflexivity. }
  destruct r as [g| | |]; try discriminate Hok. exists g, w'. split; [reflexivity|].
  apply (CreateInstanceGroup_effects sample_env sample_params (mkDirs None None None [None; None])
           sample_world g w').
  - split; reflexivity.
  - reflexivity.
  - reflexivity.
  - unfold stored; simpl. apply db_wf_nil.
  - apply empty_fs_wf.
  - vm_compute. reflexivity.
  - exact E.
Defined.

(** ** RemoveInstanceGroup *)
Lemma remove_lock_files_paths (e : Env) insts fs :
  locks_dir_ok e = true ->
  inodes (remove_lock_files e insts fs) = inodes fs /\
  forall p n, inode_of (remove_lock_files e insts fs) !! p = Some n <->
    inode_of fs !! p = Some n /\
    Forall (fun i => id i <> 0 -> p <> lock_path (locks_path e) (id i)) insts.
Proof.
  intros Hd. revert fs. induction insts as [|i insts IH]; intros fs; cbn [remove_lock_files].
  { split; [done|]. intros p n. rewrite Forall_nil. naive_solver. }
  setoid_rewrite Forall_cons. destruct (id i =? 0) eqn:E.
  - apply Z.eqb_eq in E. destruct (IH fs) as [H1 H2]. split; [done|]. intros p n. rewrite H2.
    naive_solver.
  - apply Z.eqb_neq in E. unfold RemoveLockFile, LockFilePath. rewrite Hd. cbn [expect rbind].
    unfold mbind, lift.
    destruct (inode_of fs !! lock_path (locks_path e) (id i)) eqn:El; simpl.
    + match goal with |- context [remove_lock_files e insts ?f] => destruct (IH f) as [H1 H2] end.
      split; [by rewrite H1|]. intros p n. rewrite H2. simpl. rewrite lookup_delete_Some. naive_solver.
    + destruct (IH fs) as [H1 H2]. split; [done|]. intros p n. rewrite H2. split; [|naive_solver].
      intros [Hp Hall]. split_and!; [done| |done]. intros _ ->. congruence.
Qed.


End InstanceManager.
