(* ===== verification/Selector.v ===== *)
(** * From the command line to groups and instances (cvd/cli/selector)

    num_instances_parser.cpp, selector_common_parser.cpp, creation_analyzer.cpp
    and selector.cpp: which instances a creation asks for, and which group or
    instance a command is about. *)
From S2P Require Import Prelude CppString Flags GflagsCompat Instances.
From S2P Require Import DataViewer InstanceDb InstanceLock InstanceManager.

Module Selector.
Import CppString Flags GflagsCompat Instances DataViewer InstanceDb InstanceLock InstanceManager.

Record SelectorOptions := mkSelectors {
  so_group_name : option bytes;
  so_instance_names : option (list bytes)
}.

(** ** selector_common_parser.cpp *)
Section common_parser.
Context `{Absl}.

Definition ValidateGroupNameOpt (gname : option bytes) : result unit :=
  match gname with
  | None => Ok tt
  | Some n => expect (IsValidGroupName n) "Invalid group name"
  end.

Fixpoint check_names (seen : list bytes) (names : list bytes) : result unit :=
  match names with
  | [] => Ok tt
  | n :: names =>
      let* _ := expect (IsValidInstanceName n) "IsValidInstanceName(instance_name)" in
      let* _ := expect (bool_decide (n = []) || negb (bool_decide (n ∈ seen))) "duplicate" in
      check_names (n :: seen) names
  end.
Definition ValidateInstanceNamesOpt (names : option (list bytes)) : result unit :=
  match names with
  | None => Ok tt
  | Some names => check_names [] names
  end.

Definition ref_group_name : ref SelectorOptions (option bytes) :=
  mkRef so_group_name (fun v o => mkSelectors v (so_instance_names o)).
Definition ref_instance_names : ref SelectorOptions (option (list bytes)) :=
  mkRef so_instance_names (fun v o => mkSelectors (so_group_name o) v).

(** The two flags, over the options they fill in. *)
Definition BuildCommonSelectorFlags : result (list (Flag SelectorOptions)) :=
  let* group_name_flag := GflagsCompatFlag_optional (FV := FlagValue_string)
                            (str "group_name") ref_group_name None_ in
  let group_name_flag :=
    AddValidator (fun o => (ValidateGroupNameOpt (so_group_name o), o)) group_name_flag in
  let* instance_name_flag := GflagsCompatFlag_opt_strings (str "instance_name")
                               ref_instance_names None_ in
  let* instance_name_flag := Alias (str "instance_names") instance_name_flag in
  let instance_name_flag :=
    AddValidator (fun o => (ValidateInstanceNamesOpt (so_instance_names o), o)) instance_name_flag in
  Ok [group_name_flag; instance_name_flag].
End common_parser.

(** ** num_instances_parser.cpp *)
Record NumInstancesParser := mkNumParser {
  num_instance_names_ : option Z; num_instances_ : option Z;
  base_instance_num_ : option Z; instance_nums_ : option (list Z)
}.

Definition NumInstances (p : NumInstancesParser) : Z :=
  match num_instances_ p with
  | Some n => n
  | None => match instance_nums_ p with
            | Some l => zlen l
            | None => default 1 (num_instance_names_ p)
            end
  end.

(** [for (i = 0; i < NumInstances(); ++i) ids.push_back(base + i)] with 32-bit ids. *)
Definition InstanceIds (p : NumInstancesParser) : list Z :=
  match instance_nums_ p with
  | Some l => l
  | None => match base_instance_num_ p with
            | None => []
            | Some b => (fun i => u32 (b + i)) <$> seqZ 0 (NumInstances p)
            end
  end.

(** The set the loop looks ids up in, as the loop leaves it: nothing is ever
    inserted. *)
Fixpoint check_distinct (seen : list Z) (nums : list Z) : result unit :=
  match nums with
  | [] => Ok tt
  | n :: nums =>
      let* _ := expect (negb (bool_decide (as_i32 n ∈ seen))) "Instance ids must be unique" in
      check_distinct seen nums
  end.

Definition expect_equal (a b : option Z) (msg : string) : result unit :=
  match a, b with
  | Some x, Some y => expect (x =? y) msg
  | _, _ => Ok tt
  end.

Definition Validate (p : NumInstancesParser) : result unit :=
  let* _ := expect_equal (num_instances_ p) (num_instance_names_ p) "--num_instances" in
  let* _ := expect_equal (num_instances_ p) (zlen <$> instance_nums_ p) "--instance_nums" in
  let* _ := expect_equal (zlen <$> instance_nums_ p) (num_instance_names_ p) "cardinality" in
  let* _ := match instance_nums_ p with
            | Some l => check_distinct [] l
            | None => Ok tt
            end in
  expect (bool_decide (instance_nums_ p = None) || bool_decide (base_instance_num_ p = None))
    "--base_instance_num and --instance_nums are mutually exclusive".

Section num_flags.
Context `{Absl}.

Definition validator : M NumInstancesParser unit := fun p => (Validate p, p).

(** [Flags]: [num_instance_names_] is set first, then the flags are built. *)
Definition NumFlags : result (list (Flag NumInstancesParser)) :=
  let* f1 := GflagsCompatFlag_optional (FV := FlagValue_int size_t) (str "num_instances")
               (mkRef num_instances_ (fun v p =>
                  mkNumParser (num_instance_names_ p) v (base_instance_num_ p) (instance_nums_ p)))
               None_ in
  let* f2 := GflagsCompatFlag_opt_unsigneds (str "instance_nums")
               (mkRef instance_nums_ (fun v p =>
                  mkNumParser (num_instance_names_ p) (num_instances_ p) (base_instance_num_ p) v))
               None_ in
  let* f3 := GflagsCompatFlag_optional (FV := FlagValue_int unsigned) (str "base_instance_num")
               (mkRef base_instance_num_ (fun v p =>
                  mkNumParser (num_instance_names_ p) (num_instances_ p) v (instance_nums_ p)))
               None_ in
  Ok [AddValidator validator f1; AddValidator validator f2; AddValidator validator f3].
Definition with_selectors (o : SelectorOptions) (p : NumInstancesParser) : NumInstancesParser :=
  match so_instance_names o with
  | Some l => mkNumParser (Some (zlen l)) (num_instances_ p) (base_instance_num_ p) (instance_nums_ p)
  | None => p
  end.
End num_flags.

(** ** creation_analyzer.cpp *)
Definition set_id (i : option Z) (p : InstanceParams) : InstanceParams :=
  mkParams i (per_instance_name p).
Definition set_name (n : option bytes) (p : InstanceParams) : InstanceParams :=
  mkParams (instance_id p) n.

(** [n] default parameters, the first ones with the given ids, all with the
    given names. *)
Definition BuildInstanceParams (n_instances : nat) (instance_ids : list Z)
    (names : option (list bytes)) : result (list InstanceParams) :=
  let params := imap (fun i p => set_id (instance_ids !! i) p)
                  (replicate n_instances (mkParams None None)) in
  match names with
  | None => Ok params
  | Some names =>
      let* _ := expect (Nat.eqb (length names) n_instances) "Number of instance names" in
      Ok (imap (fun i p => set_name (names !! i) p) params)
  end.

Record CreationEnv := mkCreationEnv {
  SystemWideUserHome : result bytes;
  EnsureDir : bytes -> bool;
  IsValidAndroidHostOutPath : bytes -> bool;
  CurrentDirectory : bytes
}.

Section creation.
Context `{Absl} (c : CreationEnv) (envs : bytes_map bytes).

Definition HomeFromEnvironment : result (option bytes) :=
  match envs !! str "HOME" with
  | None => Ok None
  | Some home =>
      let* system := SystemWideUserHome c in
      if bool_decide (home = system) then Ok None
      else
        let* _ := expect (EnsureDir c home)
                    "Provided home directory doesn't exist and can't be created" in
        Ok (Some home)
  end.

Definition valid_host_path (var : bytes) : option bytes :=
  match envs !! var with
  | Some p => if IsValidAndroidHostOutPath c p then Some p else None
  | None => None
  end.

Definition AndroidHostPath : result bytes :=
  match valid_host_path (str "ANDROID_HOST_OUT") with
  | Some p => Ok p
  | None =>
      match valid_host_path (str "ANDROID_SOONG_HOST_OUT") with
      | Some p => Ok p
      | None =>
          match valid_host_path (str "HOME") with
          | Some p => Ok p
          | None =>
              let* _ := expect (IsValidAndroidHostOutPath c (CurrentDirectory c))
                          "Unable to find a valid host tool directory." in
              Ok (CurrentDirectory c)
          end
      end
  end.

Definition ExpandProductPaths (product_path : bytes) (num_instances : nat) : list bytes :=
  let split := StrSplit product_path ","%char in
  (fun i => default (default [] (head split)) (split !! i)) <$> seq 0 num_instances.

Definition AnalyzeCreation (selectors : SelectorOptions) (num_instances : nat)
    (instance_ids : list Z) : result (InstanceGroupParams * GroupDirectories) :=
  let* instances := BuildInstanceParams num_instances instance_ids (so_instance_names selectors) in
  let* home := HomeFromEnvironment in
  let* host := AndroidHostPath in
  let product_out_val := default host (envs !! str "ANDROID_PRODUCT_OUT") in
  Ok (mkGroupParams (default [] (so_group_name selectors)) instances,
      mkDirs None home (Some host) (Some <$> ExpandProductPaths product_out_val num_instances)).
End creation.

(** ** selector.cpp *)
Definition BuildFilterFromSelectors (o : SelectorOptions) : Filter :=
  mkFilter None (so_group_name o) (list_to_set (default [] (so_instance_names o))).

Section selection.
Context `{Absl} `{Codec} (e : InstanceManager.Env).
(* the lines the user types, and whether the terminal allows a menu *)
Context (input : list bytes) (CanShowSelectionMenu : bool).

(** The loop ends with the first line that is a number of the menu; when the
    terminal has no more lines, [ReadLine] fails. *)
Fixpoint prompt (lines : list bytes) (max_selection : Z) : result Z :=
  match lines with
  | [] => Err "ReadLine"
  | line :: lines =>
      let '(ok, selection) := SimpleAtoi (- 2 ^ 31) (2 ^ 31 - 1) line in
      if negb ok then prompt lines max_selection
      else if (selection <? 0) || (selection >? max_selection) then prompt lines max_selection
      else Ok selection
  end.
Definition PromptForSelection (max_selection : Z) : result Z := prompt input max_selection.

Definition no_filter : Filter := mkFilter None None ∅.

Definition PromptUserForGroup : M World InstanceGroup :=
  let! groups := on_db (FindGroups (db_io e) (thread e) no_filter) in
  let! selection := lift (PromptForSelection (zlen groups - 1)) in
  match znth selection groups with
  | None => lift (Fatal "out of range")
  | Some g => InstanceManager.FindGroup e (by_group (group_name g))
  end.

Definition SelectGroup (o : SelectorOptions) : M World InstanceGroup :=
  let! groups := on_db (FindGroups (db_io e) (thread e) (BuildFilterFromSelectors o)) in
  match groups with
  | [] => lift (Err "No instance groups available")
  | [g] => mret g
  | _ =>
      let! _ := lift (expect CanShowSelectionMenu "Multiple groups found.") in
      PromptUserForGroup
  end.

Definition flatten_instances (found : list (InstanceGroup * list nat)) : list (nat * InstanceGroup) :=
  found ≫= (fun '(g, ns) => (fun n => (n, g)) <$> ns).

Definition PromptUserForInstance (found : list (InstanceGroup * list nat))
    : result (nat * InstanceGroup) :=
  let flat := flatten_instances found in
  let* _ := expect (negb (bool_decide (flat = []))) "No instances available" in
  let* selection := PromptForSelection (zlen flat - 1) in
  match znth selection flat with Some x => Ok x | None => Fatal "out of range" end.

Definition SelectInstance (o : SelectorOptions) : M World (nat * InstanceGroup) :=
  let! found := on_db (FindInstances (db_io e) (thread e) (BuildFilterFromSelectors o)) in
  match found with
  | [] => lift (Err "No instances available")
  | [(g, [n])] => mret (n, g)
  | _ =>
      let! _ := lift (expect CanShowSelectionMenu "Multiple instances found.") in
      lift (PromptUserForInstance found)
  end.
End selection.

(** ** Theorems *)
(** The check that requested instance ids are distinct never fires: a list of
    ids is accepted whatever its repetitions. *)
Theorem Validate_accepts_repeated_ids (l : list Z) :
  Validate (mkNumParser None None None (Some l)) = Ok tt.
Proof.
  assert (check_distinct [] l = Ok tt) as Hc.
  { induction l as [|n l IH]; [done|]. cbn [check_distinct].
    rewrite bool_decide_false by apply not_elem_of_nil. done. }
  unfold Validate. simpl. by rewrite Hc.
Qed.

Lemma zlen_seqZ i n : zlen (seqZ i n) = Z.max 0 n.
Proof. unfold zlen. rewrite length_seqZ. lia. Qed.

(** What the parsed flags mean together: when [Validate] accepts them, the
    list of ids is empty (the ids are then chosen by cvd) or has exactly
    [NumInstances] entries, and ids computed from a base number are
    consecutive and distinct. *)
Theorem InstanceIds_consistent (p : NumInstancesParser) :
  Validate p = Ok tt -> 0 <= NumInstances p ->
  (InstanceIds p = [] \/ zlen (InstanceIds p) = NumInstances p) /\
  (forall b, base_instance_num_ p = Some b -> 0 <= b -> b + NumInstances p <= 2 ^ 32 ->
     InstanceIds p = seqZ b (NumInstances p) /\ NoDup (InstanceIds p)).
Proof.
  intros Hv Hn. unfold Validate in Hv.
  rewrite rbind_ok in Hv. destruct Hv as (u1 & _ & Hv).
  rewrite rbind_ok in Hv. destruct Hv as (u2 & Hc & Hv).
  rewrite rbind_ok in Hv. destruct Hv as (u3 & _ & Hv).
  rewrite rbind_ok in Hv. destruct Hv as (u4 & _ & Hv). apply expect_ok in Hv.
  unfold InstanceIds. destruct (instance_nums_ p) as [l|] eqn:El.
  - simpl in *. rewrite bool_decide_eq_true in Hv. split; [|congruence].
    right. unfold NumInstances. rewrite El. destruct (num_instances_ p) as [n|]; [|done].
    simpl in Hc. apply expect_ok in Hc. lia.
  - destruct (base_instance_num_ p) as [b|] eqn:Eb; [|split; [by left|done]]. split.
    + right. rewrite zlen_fmap, zlen_seqZ. lia.
    + intros b' [= <-] Hb Hmax.
      assert (((fun i => u32 (b + i)) <$> seqZ 0 (NumInstances p)) = seqZ b (NumInstances p)) as ->.
      { apply list_eq. intros i. rewrite list_lookup_fmap.
        destruct (seqZ 0 (NumInstances p) !! i) as [x|] eqn:Ex.
        - apply lookup_seqZ in Ex as [-> Hi]. simpl. symmetry. apply lookup_seqZ.
          rewrite u32_id by (unfold is_u32; lia). split; [lia|done].
        - apply lookup_ge_None in Ex. simpl. symmetry. apply lookup_ge_None.
          rewrite length_seqZ in *. done. }
      split; [done|apply NoDup_seqZ].
Qed.

Lemma InstanceIds_consistent_witness :
  InstanceIds (mkNumParser None (Some 3) (Some 4) None) = seqZ 4 3 /\
  NoDup (InstanceIds (mkNumParser None (Some 3) (Some 4) None)).
Proof.
  destruct (InstanceIds_consistent (mkNumParser None (Some 3) (Some 4) None)) as [_ H].
  - reflexivity.
  - unfold NumInstances; simpl; lia.
  - apply (H 4); [reflexivity|lia|unfold NumInstances; simpl; lia].
Defined.

(** ** Names of instances *)
Lemma BuildInstanceParams_names n ids names ps :
  BuildInstanceParams n ids (Some names) = Ok ps ->
  (per_instance_name <$> ps) = Some <$> names /\ length names = n.
Proof.
  unfold BuildInstanceParams. rewrite rbind_expect_ok. intros [Hlen%Nat.eqb_eq [= <-]].
  split; [|done]. apply list_eq. intros i.
  rewrite !list_lookup_fmap, !list_lookup_imap, <- Hlen.
  destruct (names !! i) as [x|] eqn:Ex.
  - apply lookup_lt_Some in Ex as Hi. by rewrite lookup_replicate_2.
  - apply lookup_ge_None in Ex as Hi. assert (replicate (length names) (mkParams None None) !! i = None) as ->; [|done].
    apply lookup_ge_None. by rewrite length_replicate.
Qed.

Lemma build_group_names `{Absl} e gname descs g :
  build_group e gname descs = Ok g ->
  Forall2 (fun (d : Desc) i => forall n, d.2 = Some n -> name i = n) descs (instances g) /\
  NoDup (name <$> instances g).
Proof.
  unfold build_group, Build. intros [-> Hv]%Create_ok. destruct Hv as (_ & _ & _ & Hnd).
  split; [|done]. simpl. clear Hnd. set (b0 := Builder_ _ _ _).
  assert (Hfold : forall b pre, Forall2 (fun (d : Desc) i => forall n, d.2 = Some n -> name i = n) pre
      (instances (group_proto_ b)) ->
    Forall2 (fun (d : Desc) i => forall n, d.2 = Some n -> name i = n) (pre ++ descs)
      (instances (group_proto_ (foldl add_desc b descs)))).
  { induction descs as [|d descs IH]; intros b pre Hb; [by rewrite app_nil_r|].
    replace (pre ++ d :: descs) with ((pre ++ [d]) ++ descs) by (by rewrite <- app_assoc).
    simpl. apply IH. unfold add_desc, AddInstance. destruct (d.2) eqn:Ed; simpl;
      apply Forall2_app; try done; constructor; try constructor; naive_solver. }
  apply (Hfold b0 []). constructor.
Qed.

(** Empty names are not replaced: two empty instance names pass the check of
    the selector flags, whose comment promises default names for them, but no
    group can be created with them. *)
Theorem empty_names_rejected `{Absl} `{Codec} (e : InstanceManager.Env) n ids names ps gname d w i j :
  locks_fine e -> fs_wf (locks w) ->
  Z.of_nat (size (inode_of (locks w))) + 2 * zlen ps + 1 < 2 ^ 32 ->
  BuildInstanceParams n ids (Some names) = Ok ps ->
  i <> j -> names !! i = Some [] -> names !! j = Some [] ->
  is_ok (CreateInstanceGroup e (mkGroupParams gname ps) d w).1 = false.
Proof.
  intros Hfine Hfs Hsz Hps Hij Hi Hj.
  destruct (is_ok _) eqn:Eok; [exfalso|done].
  destruct (CreateInstanceGroup e (mkGroupParams gname ps) d w) as [r w'] eqn:Erun. simpl in Eok.
  apply is_ok_spec in Eok as [g ->]. unfold CreateInstanceGroup in Erun.
  rewrite mbind_ok in Erun. destruct Erun as (u & w0 & Hexp & Erun).
  assert (w0 = w) as -> by (unfold lift, expect in Hexp; destruct (Nat.eqb _ _); congruence).
  rewrite mbind_ok in Erun. destruct Erun as (descs & w1 & Halloc & Erun).
  unfold on_locks in Halloc. simpl in Halloc.
  destruct (AllocateAndLockInstanceIds e ps (locks w)) as [ra fs1] eqn:Ea. injection Halloc as -> <-.
  destruct (alloc_spec e _ _ _ _ Hfine Hfs Hsz Ea) as ((_ & Hfor & _) & _ & _).
  destruct (create_with e (gp_group_name (mkGroupParams gname ps)) d descs (set_locks fs1 w))
    as [rc w2] eqn:Ec. injection Erun as -> _. unfold create_with in Ec.
  rewrite mbind_ok in Ec. destruct Ec as (g0 & w3 & Hb & _). injection Hb as Hbuild _.
  apply build_group_names in Hbuild as [Hnames Hnd].
  destruct (BuildInstanceParams_names n ids names ps Hps) as [Hpn _].
  assert (Hempty : forall k, names !! k = Some [] -> (name <$> instances g0) !! k = Some []).
  { intros k Hk. assert ((per_instance_name <$> ps) !! k = Some (Some [])) as Hp
      by (rewrite Hpn, list_lookup_fmap, Hk; done).
    rewrite list_lookup_fmap in Hp. apply fmap_Some in Hp as (p & Hp & Hpe).
    destruct (Forall2_lookup_l _ _ _ _ _ Hfor Hp) as (x & Hx & Hxn & _).
    destruct (Forall2_lookup_l _ _ _ _ _ Hnames Hx) as (y & Hy & Hyn).
    rewrite list_lookup_fmap, Hy. simpl. f_equal. apply Hyn. congruence. }
  apply Hij. eapply NoDup_lookup; [exact Hnd|by apply Hempty|by apply Hempty].
Qed.

Lemma empty_names_rejected_witness :
  ValidateInstanceNamesOpt (Some [[]; []]) = Ok tt /\
  is_ok (CreateInstanceGroup sample_env
    (mkGroupParams [] [mkParams None (Some []); mkParams None (Some [])])
    (mkDirs None None None [None; None]) sample_world).1 = false.
Proof.
  split; [reflexivity|].
  apply (empty_names_rejected sample_env 2 [] [[]; []]
           [mkParams None (Some []); mkParams None (Some [])] [] _ sample_world 0 1).
  - split; reflexivity.
  - apply empty_fs_wf.
  - vm_compute. reflexivity.
  - reflexivity.
  - lia.
  - reflexivity.
  - reflexivity.
Defined.

(** ** Selecting *)
Lemma prompt_range `{Absl} lines m r : prompt lines m = Ok r -> 0 <= r <= m.
Proof.
  induction lines as [|line lines IH]; simpl; [done|].
  destruct (SimpleAtoi _ _ line) as [ok sel]. destruct ok; simpl; [|done].
  destruct (_ || _) eqn:E; [done|]. intros [= <-]. lia.
Qed.

Section select.
Context `{Absl} `{Codec} (e : InstanceManager.Env) (input : list bytes) (menu : bool).

Lemma on_db_query {A} (task : PersistentData -> result A) (w : World) :
  db_io e = no_faults -> lock_held_by_ (db w) = ∅ ->
  on_db (no_vars (WithSharedLock (db_io e) (thread e) (pure_query (fun d => lift (task d))))) w =
  (task (stored (db w)), w).
Proof.
  intros Hio Hh. unfold on_db, no_vars. rewrite Hio, WithSharedLock_spec by (rewrite Hh; set_solver).
  simpl. unfold lift. destruct w as [l v c]. simpl. done.
Qed.

Lemma FindInstances_task_sound f data found g ns n :
  FindInstances_task f data = Ok found -> (g, ns) ∈ found -> n ∈ ns ->
  g ∈ data /\ GroupMatches g f = true /\
  exists i, instances g !! n = Some i /\ InstanceMatches i f = true.
Proof.
  revert found. induction data as [|x data IH]; intros found; simpl.
  { intros [= <-] Hin. by apply elem_of_nil in Hin. }
  destruct (GroupMatches x f) eqn:Em; simpl.
  - rewrite rbind_ok. intros (x' & [-> _]%Create_ok & Hrest) Hin Hn.
    rewrite rbind_ok in Hrest. destruct Hrest as (rest & Hr & [= <-]).
    assert ((g, ns) ∈ rest \/ (g = x /\ ns = filter_indices (fun i => InstanceMatches i f) 0 (instances x)))
      as [Hin'|[-> ->]].
    { case_bool_decide; [by left|]. rewrite elem_of_cons in Hin. naive_solver. }
    + destruct (IH rest Hr Hin' Hn) as (? & ? & ?). split; [by right|done].
    + split; [left|]. split; [done|]. apply filter_indices_lookup in Hn as (j & i & -> & ? & ?). eauto.
  - intros Hr Hin Hn. destruct (IH found Hr Hin Hn) as (? & ? & ?). split; [by right|done].
Qed.
End select.

(** [SelectInstance] only ever returns an instance that is in the database
    and matches the selectors, whether it was the only one or the user picked
    it from the menu. *)
Theorem SelectInstance_matches `{Absl} `{Codec} (e : InstanceManager.Env) input menu o w n g w' :
  db_io e = no_faults -> lock_held_by_ (db w) = ∅ ->
  SelectInstance e input menu o w = (Ok (n, g), w') ->
  w' = w /\ g ∈ stored (db w) /\ GroupMatches g (BuildFilterFromSelectors o) = true /\
  exists i, instances g !! n = Some i /\ InstanceMatches i (BuildFilterFromSelectors o) = true.
Proof.
  intros Hio Hh. unfold SelectInstance. rewrite mbind_ok. intros (found & w1 & Hf & Hrun).
  unfold FindInstances in Hf. rewrite on_db_query in Hf by done. injection Hf as Hf <-.
  assert (Hsound : (n, g) ∈ flatten_instances found -> g ∈ stored (db w) /\
    GroupMatches g (BuildFilterFromSelectors o) = true /\
    exists i, instances g !! n = Some i /\ InstanceMatches i (BuildFilterFromSelectors o) = true).
  { intros Hin. unfold flatten_instances in Hin. apply list_elem_of_bind in Hin as ([x ns] & Hin & Hx).
    apply list_elem_of_fmap in Hin as (m & [= <- <-] & Hm).
    by apply (FindInstances_task_sound _ _ _ _ _ _ Hf Hx Hm). }
  assert (Hprompt : (lift (PromptUserForInstance input found)) w = (Ok (n, g), w') ->
    w' = w /\ (n, g) ∈ flatten_instances found).
  { intros [= Hp <-]. split; [done|]. unfold PromptUserForInstance in Hp.
    rewrite rbind_expect_ok in Hp. destruct Hp as [_ Hp].
    rewrite rbind_ok in Hp. destruct Hp as (sel & Hsel & Hp). apply prompt_range in Hsel.
    destruct (znth sel (flatten_instances found)) as [x|] eqn:Ex; [|done]. injection Hp as ->.
    rewrite znth_lookup in Ex by lia. by eapply list_elem_of_lookup_2. }
  assert (Hmenu : (let! _ := lift (expect menu "Multiple instances found.") in
            lift (PromptUserForInstance input found)) w = (Ok (n, g), w') ->
            w' = w /\ (n, g) ∈ flatten_instances found).
  { rewrite mbind_ok. intros (u & w2 & [= _ <-] & Hp). by apply Hprompt. }
  destruct found as [|[x [|m [|m' ms]]] [|y found]]; try done;
    try (destruct (Hmenu Hrun) as [-> Hin]; split; [done|by apply Hsound]).
  injection Hrun as -> -> <-. split; [done|]. apply Hsound.
  unfold flatten_instances. simpl. left.
Qed.

Definition two_groups : PersistentData := [sample_group (str "g") 1; sample_group (str "h") 2].
Definition two_groups_world : World :=
  mkWorld empty_fs (mkViewer (default [] (SerializeToString two_groups)) ∅) [].

Lemma SelectInstance_matches_witness :
  exists n g w', SelectInstance sample_env [str "x"; str "7"; str "1"] true (mkSelectors None None)
      two_groups_world = (Ok (n, g), w') /\ g ∈ stored (db two_groups_world).
Proof.
  destruct (SelectInstance sample_env [str "x"; str "7"; str "1"] true (mkSelectors None None)
              two_groups_world) as [r w'] eqn:E.
  assert (is_ok r = true) as Hok.
  { apply (f_equal (fun x => is_ok x.1)) in E. simpl in E. rewrite <- E. vm_compute. reflexivity. }
  destruct r as [[n g]| | |]; try discriminate Hok. exists n, g, w'. split; [reflexivity|].
  apply (SelectInstance_matches sample_env [str "x"; str "7"; str "1"] true (mkSelectors None None)
           two_groups_world n g w').
  - reflexivity.
  - reflexivity.
  - exact E.
Defined.

Lemma filter_by_name `{Absl} (data : PersistentData) x :
  NoDup (group_name <$> data) -> x ∈ data ->
  base.filter (fun g => GroupMatches g (by_group (group_name x)) = true) data = [x].
Proof.
  intros Hnd (a & b & ->)%list_elem_of_split.
  rewrite fmap_app, fmap_cons, NoDup_app, NoDup_cons in Hnd. destruct Hnd as (_ & Ha & Hb & _).
  assert (Hno : forall l, (group_name x ∉ group_name <$> l) ->
    base.filter (fun g => GroupMatches g (by_group (group_name x)) = true) l = []).
  { intros l Hl. apply filter_none. intros y Hy. rewrite GroupMatches_by_group, bool_decide_eq_true.
    intros Heq. apply Hl. rewrite Heq. by apply list_elem_of_fmap_2. }
  rewrite filter_app, filter_cons_True by (rewrite GroupMatches_by_group; by apply bool_decide_eq_true).
  rewrite !Hno; [done|done|]. intros Hin. apply (Ha _ Hin). left.
Qed.

(** When several groups match the selectors, [SelectGroup] shows a menu of
    all groups, matching or not: the user's choice is returned even when it is
    a group the selectors exclude. *)
Theorem SelectGroup_menu_ignores_selectors `{Absl} `{Codec} (e : InstanceManager.Env) o w k x more :
  db_io e = no_faults -> lock_held_by_ (db w) = ∅ -> db_wf (stored (db w)) ->
  (1 < length (base.filter (fun g => GroupMatches g (BuildFilterFromSelectors o) = true)
                 (stored (db w))))%nat ->
  0 <= k < 2 ^ 31 -> znth k (stored (db w)) = Some x ->
  SelectGroup e (to_string k :: more) true o w = (Ok x, w).
Proof.
  intros Hio Hh Hwf Hmany Hk Hx. pose proof Hwf as (Hv & _ & Hnd & _).
  unfold SelectGroup, mbind at 1, FindGroups. rewrite on_db_query by done.
  rewrite FindGroups_in_filter by done.
  destruct (base.filter _ (stored (db w))) as [|g1 [|g2 gs]]; [simpl in Hmany; lia..|].
  unfold mbind at 1, lift at 1. cbn [expect].
  unfold PromptUserForGroup, mbind at 1, FindGroups. rewrite on_db_query by done.
  rewrite FindGroups_in_filter by done.
  rewrite (filter_every _ (stored (db w))).
  2: { intros y _. unfold GroupMatches. simpl. by rewrite elements_empty. }
  assert (k < zlen (stored (db w))) as Hlt.
  { rewrite znth_lookup in Hx by lia. apply lookup_lt_Some in Hx. unfold zlen. lia. }
  unfold mbind at 1, lift at 1, PromptForSelection. cbn [prompt].
  rewrite SimpleAtoi_print by lia. cbn [negb].
  rewrite (proj2 (Z.ltb_ge k 0)) by lia. rewrite Z.gtb_ltb, (proj2 (Z.ltb_ge _ _)) by lia. cbn [orb].
  rewrite Hx. unfold InstanceManager.FindGroup, mbind at 1, FindGroups. rewrite on_db_query by done.
  rewrite FindGroups_in_filter by done. rewrite filter_by_name; [done|done|].
  rewrite znth_lookup in Hx by lia. by eapply list_elem_of_lookup_2.
Qed.

Definition three_groups : PersistentData :=
  [mkGroup (str "g") (str "/g") [] [] 0 [mkInstance 1 (str "a") INSTANCE_STATE_RUNNING []];
   mkGroup (str "h") (str "/h") [] [] 0 [mkInstance 2 (str "a") INSTANCE_STATE_RUNNING []];
   mkGroup (str "k") (str "/k") [] [] 0 [mkInstance 3 (str "b") INSTANCE_STATE_RUNNING []]].
Definition three_groups_world : World :=
  mkWorld empty_fs (mkViewer (default [] (SerializeToString three_groups)) ∅) [].

Lemma three_groups_stored : stored (db three_groups_world) = three_groups.
Proof.
  assert (SerializeToString three_groups = Some (bits_of_pos (encode three_groups))) as Hs
    by reflexivity.
  change (stored (db three_groups_world))
    with (ParseFromString (bits_of_pos (encode three_groups))).1.
  by rewrite (Parse_Serialize _ _ Hs).
Qed.

Lemma three_groups_wf : db_wf three_groups.
Proof.
  assert (Hnd : forall l : list bytes, bool_decide (NoDup l) = true -> NoDup l)
    by (intros l; apply bool_decide_eq_true_1).
  split_and!.
  - unfold three_groups. rewrite !Forall_cons. split_and!;
      [eapply Create_ok; reflexivity..|constructor].
  - repeat constructor.
  - apply Hnd. vm_compute. reflexivity.
  - apply Hnd. vm_compute. reflexivity.
  - apply (bool_decide_eq_true_1 (NoDup (all_ids three_groups))). vm_compute. reflexivity.
Qed.

Lemma SelectGroup_menu_ignores_selectors_witness :
  let o := mkSelectors None (Some [str "a"]) in
  exists x, SelectGroup sample_env [to_string 2] true o three_groups_world = (Ok x, three_groups_world) /\
    GroupMatches x (BuildFilterFromSelectors o) = false.
Proof.
  intros o. eexists. split.
  - apply (SelectGroup_menu_ignores_selectors sample_env o three_groups_world 2 _ []).
    + reflexivity.
    + reflexivity.
    + rewrite three_groups_stored. apply three_groups_wf.
    + rewrite three_groups_stored. vm_compute. lia.
    + lia.
    + rewrite three_groups_stored. reflexivity.
  - vm_compute. reflexivity.
Defined.
End Selector.
