(* ===== verification/ModemCommand.v ===== *)
(** * AT commands of the modem simulator

    command_parser.{h,cpp}, modem_service.{h,cpp} and client.cc: the cursor
    over a command line, the choice of a handler, and what a service sends.
    The C++ library's [std::map<int, T>], [std::strtol] and [std::stoi], which
    the services use, come first. *)
From S2P Require Import Prelude CppString.

Module ModemCommand.
Import CppString.

(** ** [std::map<int, T>]

    A map iterates in key order, so it is kept as its sorted entries. *)
Section std_map.
Context {T : Type}.
Implicit Types (m : list (Z * T)).

Fixpoint map_find (k : Z) (m : list (Z * T)) : option T :=
  match m with
  | [] => None
  | (i, x) :: m' => if i =? k then Some x else map_find k m'
  end.

(** [m[k] = x]. *)
Fixpoint map_set (k : Z) (x : T) (m : list (Z * T)) : list (Z * T) :=
  match m with
  | [] => [(k, x)]
  | (i, y) :: m' => if k <? i then (k, x) :: m
                    else if k =? i then (k, x) :: m' else (i, y) :: map_set k x m'
  end.

Fixpoint map_erase (k : Z) (m : list (Z * T)) : list (Z * T) :=
  match m with
  | [] => []
  | (i, y) :: m' => if i =? k then m' else (i, y) :: map_erase k m'
  end.

Definition map_sorted (m : list (Z * T)) : Prop := StronglySorted Z.lt m.*1.

Lemma map_find_elem k m x : map_find k m = Some x -> (k, x) ∈ m.
Proof.
  induction m as [|[i y] m IH]; simpl; [done|]. destruct (Z.eqb_spec i k).
  - intros [= ->]. subst. left.
  - intros H. right. auto.
Qed.

Lemma elem_map_find k m x : map_sorted m -> (k, x) ∈ m -> map_find k m = Some x.
Proof.
  unfold map_sorted. induction m as [|[i y] m IH]; simpl; [intros _ H; by apply elem_of_nil in H|].
  intros [Hs Hi]%StronglySorted_inv [[= -> ->]|Hx]%elem_of_cons; [by rewrite Z.eqb_refl|].
  rewrite Forall_forall in Hi. assert (i < k) by (apply Hi; by apply (list_elem_of_fmap_2 fst) in Hx).
  rewrite (proj2 (Z.eqb_neq _ _)) by lia. auto.
Qed.

Lemma elem_of_map_set k x m p : p ∈ map_set k x m -> p = (k, x) \/ p ∈ m.
Proof.
  induction m as [|[i y] m IH]; simpl; [set_solver|].
  destruct (k <? i); [|destruct (Z.eqb_spec k i)]; set_solver.
Qed.

Lemma elem_of_map_erase k m p : p ∈ map_erase k m -> p ∈ m.
Proof. induction m as [|[i y] m IH]; simpl; [done|]. destruct (i =? k); set_solver. Qed.

Lemma map_find_set k x m i :
  map_find i (map_set k x m) = if k =? i then Some x else map_find i m.
Proof.
  induction m as [|[j y] m IH]; simpl; [done|].
  destruct (Z.ltb_spec k j), (Z.eqb_spec k j); simpl; try lia.
  - destruct (Z.eqb_spec k i); [done|]. by destruct (Z.eqb_spec j i).
  - subst. by destruct (Z.eqb_spec j i).
  - rewrite IH. destruct (Z.eqb_spec j i), (Z.eqb_spec k i); try done. lia.
Qed.

Lemma map_sorted_set k x m : map_sorted m -> map_sorted (map_set k x m).
Proof.
  unfold map_sorted. induction m as [|[i y] m IH]; simpl; [repeat constructor|].
  intros [Hs Hi]%StronglySorted_inv.
  destruct (Z.ltb_spec k i); [|destruct (Z.eqb_spec k i)]; simpl.
  - constructor; [by constructor|]. constructor; [done|].
    eapply Forall_impl; [exact Hi|]. intros. simpl in *. lia.
  - subst. by constructor.
  - constructor; [auto|]. rewrite Forall_forall in *. intros j Hj.
    apply list_elem_of_fmap in Hj as ([j' z] & -> & Hz).
    apply elem_of_map_set in Hz as [[= -> ->]|Hz]; simpl; [lia|].
    apply Hi. by apply (list_elem_of_fmap_2 fst) in Hz.
Qed.

Lemma map_sorted_sublist m k : sublist k m -> map_sorted m -> map_sorted k.
Proof.
  intros Hsub. by apply sublist_StronglySorted, fmap_sublist.
Qed.

Lemma map_erase_sublist k m : sublist (map_erase k m) m.
Proof.
  induction m as [|[i y] m IH]; simpl; [done|].
  destruct (i =? k); [by constructor|by constructor].
Qed.

Lemma map_sorted_erase k m : map_sorted m -> map_sorted (map_erase k m).
Proof. apply map_sorted_sublist, map_erase_sublist. Qed.

Lemma map_find_erase k m i :
  map_sorted m -> map_find i (map_erase k m) = if k =? i then None else map_find i m.
Proof.
  unfold map_sorted. induction m as [|[j y] m IH]; simpl; [by destruct (k =? i)|].
  intros [Hs Hi]%StronglySorted_inv. destruct (Z.eqb_spec j k).
  - subst. destruct (Z.eqb_spec k i); [|done]. subst.
    destruct (map_find i m) eqn:E; [|done]. apply map_find_elem in E.
    rewrite Forall_forall in Hi. apply (list_elem_of_fmap_2 fst) in E. apply Hi in E. simpl in E. lia.
  - simpl. rewrite IH by done. destruct (Z.eqb_spec j i), (Z.eqb_spec k i); try done. lia.
Qed.
End std_map.

(** ** [std::strtol], [std::stoi] and streams *)
Definition is_space (c : ascii) : bool :=
  let z := Z_of_byte c in (z =? 32) || ((9 <=? z) && (z <=? 13)).

Definition digit_of (base : Z) (c : ascii) : option Z :=
  let z := Z_of_byte c in
  let d := if (48 <=? z) && (z <=? 57) then z - 48
           else if (65 <=? z) && (z <=? 90) then z - 55
           else if (97 <=? z) && (z <=? 122) then z - 87 else base in
  if d <? base then Some d else None.

Fixpoint skip_space (s : bytes) : bytes :=
  match s with
  | c :: s' => if is_space c then skip_space s' else s
  | [] => []
  end.

Fixpoint read_digits (base acc : Z) (s : bytes) : Z :=
  match s with
  | c :: s' => match digit_of base c with
               | Some d => read_digits base (acc * base + d) s'
               | None => acc
               end
  | [] => acc
  end.

(** The digits after the sign; base 16 allows a 0x that is followed by one. *)
Definition strip_0x (base : Z) (s : bytes) : bytes :=
  match s with
  | c0 :: x :: c :: _ =>
      if (base =? 16) && bool_decide (c0 = "0"%char) &&
         (bool_decide (x = "x"%char) || bool_decide (x = "X"%char)) &&
         bool_decide (is_Some (digit_of base c))
      then zdrop 2 s else s
  | _ => s
  end.

(** The value and whether errno is ERANGE; [None] when there is no conversion
    ([p == p_end]). *)
Definition strtol (base : Z) (s : bytes) : option (Z * bool) :=
  let s := skip_space s in
  let '(neg, s) := match s with
                   | c :: s' => if bool_decide (c = "-"%char) then (true, s')
                                else if bool_decide (c = "+"%char) then (false, s') else (false, s)
                   | [] => (false, [])
                   end in
  let s := strip_0x base s in
  match s with
  | c :: _ =>
      match digit_of base c with
      | Some _ =>
          let v := read_digits base 0 s in
          let v := if neg then - v else v in
          Some (if in_i64 v then (v, false)
                else (if neg then - 2 ^ 63 else 2 ^ 63 - 1, true))
      | None => None
      end
  | [] => None
  end.

(** [std::stoi] throws where there is no number or it is not an int. *)
Definition stoi (s : bytes) : result Z :=
  match strtol 10 s with
  | None => Fatal "std::invalid_argument"
  | Some (v, erange) => if erange || negb (in_i32 v) then Fatal "std::out_of_range" else Ok v
  end.

(** [std::string::substr(pos, n)], which throws past the end. *)
Definition substr (pos n : Z) (s : bytes) : result bytes :=
  if zlen s <? pos then Fatal "std::out_of_range" else Ok (zslice pos n s).
Definition substr_from (pos : Z) (s : bytes) : result bytes := substr pos (zlen s) s.

(** [find_last_of] of one character. *)
Definition find_last_of (c : ascii) (s : bytes) : option Z :=
  (fun p => zlen s - 1 - p) <$> find_first_of c (rev s).

Definition show_bool (b : bool) : bytes := if b then str "1" else str "0".

(** ** CommandParser

    The parser is its cursor [command_]: operations return the rest. *)
Definition dquote : ascii := byte_of_Z 34.
Definition comma : ascii := ","%char.

(** [command_.find(c, pos)]. *)
Definition find_from (c : ascii) (pos : Z) (s : bytes) : option Z :=
  find_char_from pos c (zdrop pos s).

(** Skip up to and including the first [c], if there is one. *)
Definition skip_past (c : ascii) (command_ : bytes) : bytes :=
  match find_first_of c command_ with
  | Some pos => zdrop (Z.min (pos + 1) (zlen command_)) command_
  | None => command_
  end.

Definition SkipPrefix (command_ : bytes) : bytes := skip_past "="%char command_.
Definition SkipComma (command_ : bytes) : bytes := skip_past comma command_.
Definition SkipWhiteSpace (command_ : bytes) : bytes := skip_past " "%char command_.
Definition SkipPrefixAT `{Absl} (command_ : bytes) : bytes := (ConsumePrefix command_ (str "AT")).1.

Definition GetNextStr (command_ : bytes) : bytes * bytes :=
  match find_first_of dquote command_ with
  | None => ([], command_)
  | Some fpos =>
      match find_from dquote (fpos + 1) command_ with
      | None => ([], zdrop (fpos + 1) command_)
      | Some spos =>
          (zslice (fpos + 1) (spos - fpos - 1) command_, SkipComma (zdrop (spos + 1) command_))
      end
  end.

Definition GetNextStr_flag (flag : ascii) (command_ : bytes) : bytes * bytes :=
  match find_first_of flag command_ with
  | Some pos => (ztake pos command_, zdrop (Z.min (pos + 1) (zlen command_)) command_)
  | None => (command_, [])
  end.

(** The conversion of the [long] to [int] truncates. *)
Definition parse_int_ (snumber : bytes) (base : Z) : Z :=
  match snumber with
  | [] => -1
  | _ => match strtol base snumber with
         | None => -1
         | Some (lval, range_error) => if range_error then -1 else as_i32 lval
         end
  end.

Definition next_int (base : Z) (command_ : bytes) : Z * bytes :=
  match command_ with
  | [] => (-1, [])
  | _ => let '(sub, rest) := GetNextStr_flag comma command_ in (parse_int_ sub base, rest)
  end.

Definition GetNextInt : bytes -> Z * bytes := next_int 10.
Definition GetNextHexInt : bytes -> Z * bytes := next_int 16.

Definition hex_digit (d : Z) : ascii := byte_of_Z (if d <? 10 then 48 + d else 55 + d).
Fixpoint hex_go (fuel : nat) (z : Z) (acc : bytes) : bytes :=
  match fuel with
  | O => acc
  | S fuel => if z <? 16 then hex_digit z :: acc
              else hex_go fuel (z / 16) (hex_digit (z mod 16) :: acc)
  end.
(** [ss << std::hex << std::uppercase << value]: the 32 bits of the int. *)
Definition show_hex (value : Z) : bytes := hex_go 8 (u32 value) [].

Definition GetNextStrDeciToHex (command_ : bytes) : bytes * bytes :=
  let '(value, rest) := GetNextInt command_ in
  if value =? -1 then ([], rest) else (show_hex value, rest).

(** ** Choosing a handler *)
Inductive MatchMode := FULL_MATCH | PARTIAL_MATCH.
Record CommandHandler (H : Type) := mkHandler {
  command_prefix : bytes; match_mode : MatchMode; handler_ : H }.
Arguments mkHandler {H}. Arguments command_prefix {H}. Arguments match_mode {H}.
Arguments handler_ {H}.

(** Whether [Compare(command)] is 0: the first two characters are skipped,
    whatever they are. *)
Definition Compare {H} (h : CommandHandler H) (command : bytes) : bool :=
  if zlen command <? 2 then false
  else match match_mode h with
       | PARTIAL_MATCH => bool_decide (ztake (zlen (command_prefix h)) (zdrop 2 command) = command_prefix h)
       | FULL_MATCH => bool_decide (ztake (zlen command) (zdrop 2 command) = command_prefix h)
       end.

(** [HandleModemCommand]: the handler that runs, or [None] for [false]. *)
Definition HandleModemCommand {H} (command_handlers_ : list (CommandHandler H)) (command : bytes)
  : option H :=
  handler_ <$> find (fun h => Compare h command) command_handlers_.

(** ** What a service sends

    [Response] is [Client::SendCommandResponse] of a list of lines to the
    client that sent the command, [Unsolicited], [ToRemote] and [CloseRemote]
    go through the channel monitor. *)
Inductive Output :=
| Response (lines : list bytes)
| Unsolicited (line : bytes)
| ToRemote (client : Z) (line : bytes)
| CloseRemote (client : Z)
| RemoteSocket (port : bytes) (data : list bytes)
| SaveNvram (emergency_mode : bool).

Definition kCmeErrorOperationNotAllowed : bytes := str "+CME ERROR: 3".
Definition kCmeErrorOperationNotSupported : bytes := str "+CME ERROR: 4".
Definition kCmeErrorInvalidIndex : bytes := str "+CME ERROR: 21".
Definition kCmeErrorNoNetworkService : bytes := str "+CME ERROR: 30".
Definition kCmeErrorNetworkNotAllowedEmergencyCallsOnly : bytes := str "+CME ERROR: 32".
Definition kCmeErrorInCorrectParameters : bytes := str "+CME ERROR: 50".
Definition kCmeErrorFixedDialNumberOnlyAllowed : bytes := str "+CME ERROR: 56".
Definition kCmsErrorInvalidPDUModeParam : bytes := str "+CMS ERROR: 304".
Definition kCmsErrorSCAddressUnknown : bytes := str "+CMS ERROR: 304".
Definition kRemotePortRange : Z * Z := (6520, 6527).

(** The text [SendCommandResponse] writes for one line. *)
Definition cr : ascii := byte_of_Z 13.
Definition SendCommandResponse (response : bytes) : bytes :=
  match last response with
  | None => []
  | Some c => if bool_decide (c = cr) then response else response ++ [cr]
  end.
(** ** Reading back what is printed *)
Lemma digit_of_10 c : digit_of 10 c = char_digit c.
Proof.
  unfold digit_of, char_digit. pose proof (Z_of_byte_range c).
  repeat match goal with |- context [?a <=? ?b] => destruct (Z.leb_spec a b) end;
    simpl; try (destruct (Z.ltb_spec (Z_of_byte c - 48) 10)); try done; try lia;
    repeat match goal with |- context [?a <? ?b] => destruct (Z.ltb_spec a b) end; try done; lia.
Qed.

Lemma read_digits_dec acc ds rest v :
  dec_value acc ds = Some v -> head rest ≫= digit_of 10 = None ->
  read_digits 10 acc (ds ++ rest) = v.
Proof.
  intros Hv Hr. revert acc Hv. induction ds as [|c ds IH]; intros acc Hv.
  - injection Hv as <-. destruct rest; [done|]. simpl in *. by rewrite Hr.
  - simpl. rewrite digit_of_10. unfold dec_value in Hv. simpl in Hv.
    destruct (char_digit c) as [d|]; [by apply IH|].
    exfalso. revert Hv. clear. induction ds; simpl; [done|assumption].
Qed.

Lemma digit_not_space c : is_digit c = true ->
  is_space c = false /\ c <> "-"%char /\ c <> "+"%char.
Proof.
  unfold is_digit, char_digit, is_space. pose proof (Z_of_byte_range c).
  destruct (_ && _) eqn:E; [|done]. intros _. split_and!; [lia| |]; intros ->; by vm_compute in E.
Qed.

Lemma strtol_digits ds v :
  Forall (fun c => is_digit c = true) ds -> ds <> [] -> dec_value 0 ds = Some v -> in_i64 v = true ->
  strtol 10 ds = Some (v, false).
Proof.
  intros Hd Hne Hv Hi. destruct ds as [|c ds]; [done|].
  inversion Hd as [|? ? Hc Hds]; subst. destruct (digit_not_space c Hc) as (Hs & Hm & Hp).
  unfold strtol. cbn [skip_space]. rewrite Hs, !bool_decide_false by done.
  assert (Hx : strip_0x 10 (c :: ds) = c :: ds) by (by destruct ds as [|? []]). rewrite Hx.
  rewrite digit_of_10. unfold is_digit in Hc. destruct (char_digit c); [|done].
  pose proof (read_digits_dec 0 (c :: ds) [] v Hv eq_refl) as Hr. rewrite app_nil_r in Hr.
  rewrite Hr, Hi. done.
Qed.

Lemma strtol_to_string z : in_i64 z = true -> strtol 10 (to_string z) = Some (z, false).
Proof.
  intros Hi. destruct (decide (0 <= z)) as [Hz|Hz].
  - destruct (to_string_nonneg z Hz) as (H1 & H2 & H3).
    apply strtol_digits; [done|done| |done]. by destruct (to_string z).
  - destruct (to_string_nonneg (- z)) as (H1 & H2 & H3); [lia|].
    assert (E : to_string z = "-"%char :: to_string (- z)).
    { unfold to_string. rewrite (proj2 (Z.ltb_lt z 0)), (proj2 (Z.ltb_ge (- z) 0)) by lia. done. }
    rewrite E. destruct (to_string (- z)) as [|c ds] eqn:Ez; [done|].
    inversion H1 as [|? ? Hc Hds]; subst.
    unfold strtol. cbn [skip_space]. change (is_space "-") with false. cbv beta iota zeta.
    rewrite bool_decide_true by done. cbv beta iota zeta.
    assert (Hx : strip_0x 10 (c :: ds) = c :: ds) by (by destruct ds as [|? []]). rewrite Hx.
    rewrite digit_of_10. unfold is_digit in Hc. destruct (char_digit c); [|done].
    pose proof (read_digits_dec 0 (c :: ds) [] (- z) H2 eq_refl) as Hr. rewrite app_nil_r in Hr.
    rewrite Hr, Z.opp_involutive, Hi. done.
Qed.

Lemma in_i32_i64 z : in_i32 z = true -> in_i64 z = true /\ as_i32 z = z.
Proof.
  unfold in_i32, in_i64, as_i32. intros. split; [lia|].
  rewrite Z.mod_small by lia. lia.
Qed.

Lemma to_string_nonempty z : to_string z <> [].
Proof. intros E. pose proof (parse_to_string z) as H. by rewrite E in H. Qed.

Lemma parse_int_to_string z : in_i32 z = true -> parse_int_ (to_string z) 10 = z.
Proof.
  intros [Hi He]%in_i32_i64. unfold parse_int_. pose proof (strtol_to_string z Hi) as Hs.
  pose proof (to_string_nonempty z). destruct (to_string z); [done|]. by rewrite Hs.
Qed.

Lemma to_string_no_comma z c : is_digit c = false -> c <> "-"%char -> c ∉ to_string z.
Proof.
  intros Hd Hm Hin. assert (Hall : forall z', 0 <= z' -> c ∉ to_string z').
  { intros z' Hz' H. destruct (to_string_nonneg z' Hz') as [Hf _].
    rewrite Forall_forall in Hf. apply Hf in H. congruence. }
  destruct (decide (0 <= z)); [by eapply Hall|]. revert Hin. unfold to_string.
  rewrite (proj2 (Z.ltb_lt z 0)) by lia. rewrite elem_of_cons. intros [?|Hin]; [congruence|].
  apply (Hall (- z)); [lia|]. unfold to_string. by rewrite (proj2 (Z.ltb_ge (- z) 0)) by lia.
Qed.

Lemma skip_past_app c p r : c ∉ p -> skip_past c (p ++ c :: r) = r.
Proof.
  intros Hp. unfold skip_past. rewrite find_first_of_app by done.
  rewrite Z.min_l by zlen_lia. rewrite zdrop_app_ge by zlen_lia.
  replace (zlen p + 1 - zlen p) with 1 by lia. by destruct r.
Qed.

Lemma skip_past_head c r : skip_past c (c :: r) = r.
Proof. apply (skip_past_app c []). set_solver. Qed.

Lemma GetNextStr_flag_app c p r : c ∉ p -> GetNextStr_flag c (p ++ c :: r) = (p, r).
Proof.
  intros Hp. pose proof (skip_past_app c p r Hp) as Hs. unfold skip_past in Hs. revert Hs.
  unfold GetNextStr_flag. rewrite find_first_of_app by done. intros ->.
  by rewrite ztake_app_le, ztake_all by lia.
Qed.

Lemma GetNextStr_flag_all c p : c ∉ p -> GetNextStr_flag c p = (p, []).
Proof.
  intros Hp. unfold GetNextStr_flag. pose proof (find_first_of_spec c p) as H.
  destruct (find_first_of c p); [|done]. destruct H as (a & b & -> & _). set_solver.
Qed.

Lemma GetNextInt_app z r :
  in_i32 z = true -> GetNextInt (to_string z ++ comma :: r) = (z, r).
Proof.
  intros Hz. unfold GetNextInt, next_int.
  rewrite GetNextStr_flag_app by (by apply to_string_no_comma).
  rewrite parse_int_to_string by done. by destruct (to_string z).
Qed.

Lemma GetNextInt_last z : in_i32 z = true -> GetNextInt (to_string z) = (z, []).
Proof.
  intros Hz. unfold GetNextInt, next_int.
  rewrite GetNextStr_flag_all by (by apply to_string_no_comma).
  rewrite parse_int_to_string by done.
  pose proof (to_string_nonempty z). by destruct (to_string z).
Qed.

Lemma find_char_from_app c p r : c ∉ p -> forall pos, find_char_from pos c (p ++ c :: r) = Some (pos + zlen p).
Proof.
  induction p as [|x p IH]; intros Hp pos; cbn [app find_char_from].
  - rewrite bool_decide_true by done. f_equal. zlen_lia.
  - apply not_elem_of_cons in Hp as [? ?]. rewrite bool_decide_false by congruence.
    rewrite IH by done. f_equal. zlen_lia.
Qed.

Lemma GetNextStr_after p s r :
  dquote ∉ p -> dquote ∉ s -> GetNextStr (p ++ dquote :: s ++ dquote :: r) = (s, SkipComma r).
Proof.
  intros Hp Hs. unfold GetNextStr. rewrite find_first_of_app by done. unfold find_from.
  assert (Hd : zdrop (zlen p + 1) (p ++ dquote :: s ++ dquote :: r) = s ++ dquote :: r).
  { rewrite zdrop_app_ge by lia. replace (zlen p + 1 - zlen p) with 1 by lia. by destruct (s ++ dquote :: r). }
  rewrite Hd, find_char_from_app by done. f_equal.
  - replace (zlen p + 1 + zlen s - zlen p - 1) with (zlen s) by lia. unfold zslice. rewrite Hd.
    by rewrite ztake_app_le, ztake_all by lia.
  - f_equal. replace (zlen p + 1 + zlen s + 1) with ((zlen p + 1) + (zlen s + 1)) by lia.
    pose proof (zlen_nonneg p). pose proof (zlen_nonneg s). rewrite <- zdrop_zdrop, Hd by lia.
    rewrite zdrop_app_ge by lia. replace (zlen s + 1 - zlen s) with 1 by lia. by destruct r.
Qed.

Lemma GetNextStr_quoted s r :
  dquote ∉ s -> GetNextStr (dquote :: s ++ dquote :: r) = (s, SkipComma r).
Proof. apply (GetNextStr_after []). apply not_elem_of_nil. Qed.

Lemma skip_past_none c p : c ∉ p -> skip_past c p = p.
Proof.
  intros Hp. unfold skip_past. pose proof (find_first_of_spec c p) as H.
  destruct (find_first_of c p); [|done]. destruct H as (a & b & -> & _). set_solver.
Qed.
Lemma Compare_cons {X} (h : CommandHandler X) a b r :
  Compare h (a :: b :: r) =
  match match_mode h with
  | PARTIAL_MATCH => starts_with (command_prefix h) r
  | FULL_MATCH => bool_decide (r = command_prefix h)
  end.
Proof.
  unfold Compare. rewrite (proj2 (Z.ltb_ge _ _)) by zlen_lia.
  assert (Hd : zdrop 2 (a :: b :: r) = r) by (destruct r; done). rewrite Hd.
  destruct (match_mode h); [by rewrite ztake_all by zlen_lia|].
  apply eq_true_iff_eq. rewrite bool_decide_eq_true, starts_with_spec. split.
  - intros E. exists (zdrop (zlen (command_prefix h)) r). rewrite <- E at 1. symmetry. apply ztake_zdrop.
  - intros [k ->]. by rewrite ztake_app_le, ztake_all by lia.
Qed.

Lemma dec_value_total acc l :
  Forall (fun c => is_digit c = true) l -> 0 <= acc ->
  exists v, dec_value acc l = Some v /\ 0 <= v < (acc + 1) * 10 ^ zlen l.
Proof.
  intros Hl. revert acc. induction Hl as [|c l Hc Hl IH]; intros acc Ha.
  - exists acc. split; [done|]. change (zlen []) with 0. lia.
  - unfold is_digit in Hc. destruct (char_digit c) as [d|] eqn:Ed; [|done].
    assert (0 <= d < 10).
    { unfold char_digit in Ed. destruct (_ && _) eqn:E; [|done]. injection Ed as <-. lia. }
    destruct (IH (acc * 10 + d)) as (v & Hv & Hb); [lia|]. exists v. split.
    + unfold dec_value. simpl. rewrite Ed. exact Hv.
    + pose proof (zlen_nonneg l). rewrite zlen_cons, Z.add_1_l, Z.pow_succ_r by lia. split; [lia|].
      eapply Z.lt_le_trans; [apply Hb|]. nia.
Qed.

Lemma stoi_digits l :
  Forall (fun c => is_digit c = true) l -> 0 < zlen l <= 9 -> exists v, stoi l = Ok v.
Proof.
  intros Hl Hn. destruct (dec_value_total 0 l Hl) as (v & Hv & Hb); [lia|].
  assert (Hp : 10 ^ zlen l <= 10 ^ 9) by (apply Z.pow_le_mono_r; lia).
  exists v. unfold stoi. rewrite (strtol_digits l v).
  - cbn [orb negb]. replace (in_i32 v) with true by (unfold in_i32; lia). done.
  - done.
  - intros ->. change (zlen []) with 0 in Hn. lia.
  - done.
  - unfold in_i64. lia.
Qed.

Lemma substr_ok pos n l : pos <= zlen l -> substr pos n l = Ok (zslice pos n l).
Proof. intros. unfold substr. by rewrite (proj2 (Z.ltb_ge _ _)) by lia. Qed.
(** ** Hexadecimal numbers read back *)
Definition show_hex_lower (value : Z) : bytes := ascii_lower <$> show_hex value.

Lemma hex_digit_plain c d : digit_of 16 c = Some d ->
  is_space c = false /\ c <> "-"%char /\ c <> "+"%char /\ c <> "x"%char /\ c <> "X"%char /\ c <> dquote.
Proof.
  destruct c as [b0 b1 b2 b3 b4 b5 b6 b7].
  destruct b0, b1, b2, b3, b4, b5, b6, b7; intros H; vm_compute in H; try discriminate H; vm_compute; repeat split; discriminate.
Qed.

Lemma digit_of_hex_digit z : 0 <= z < 16 -> digit_of 16 (ascii_lower (hex_digit z)) = Some z.
Proof.
  intros Hz. assert (Forall (fun z => digit_of 16 (ascii_lower (hex_digit z)) = Some z) (seqZ 0 16)) as H
    by (repeat constructor).
  rewrite Forall_forall in H. apply H, elem_of_seqZ. lia.
Qed.

Lemma hex_go_read fuel : forall z acc,
  0 <= z < 16 ^ Z.of_nat fuel -> (0 < fuel)%nat ->
  read_digits 16 0 (ascii_lower <$> hex_go fuel z acc) = read_digits 16 z (ascii_lower <$> acc) /\
  (Forall (fun c => is_Some (digit_of 16 c)) (ascii_lower <$> acc) ->
   Forall (fun c => is_Some (digit_of 16 c)) (ascii_lower <$> hex_go fuel z acc)) /\
  hex_go fuel z acc <> [].
Proof.
  induction fuel as [|fuel IH]; intros z acc Hz Hf; [lia|]. cbn [hex_go]. destruct (Z.ltb_spec z 16) as [Hlt|Hge].
  - rewrite fmap_cons. cbn [read_digits]. rewrite digit_of_hex_digit by lia. split_and!; [done| |done].
    intros. constructor; [|done]. rewrite digit_of_hex_digit by lia. by eexists.
  - destruct fuel as [|fuel]; [change (16 ^ Z.of_nat 1) with 16 in Hz; lia|].
    pose proof (Z.mod_pos_bound z 16). pose proof (Z.div_mod z 16).
    destruct (IH (z / 16) (hex_digit (z mod 16) :: acc)) as (H1 & H2 & H3); [|lia|].
    { rewrite Nat2Z.inj_succ, Z.pow_succ_r in Hz by lia. split; [apply Z.div_pos; lia|].
      apply Z.div_lt_upper_bound; lia. }
    rewrite H1, fmap_cons in *. cbn [read_digits]. rewrite digit_of_hex_digit in * by lia.
    split_and!; [f_equal; lia| |done]. intros Ha. apply H2. constructor; [|done].
    rewrite digit_of_hex_digit by lia. by eexists.
Qed.

Lemma strtol_show_hex z : 0 <= z < 2 ^ 32 -> strtol 16 (show_hex_lower z) = Some (z, false).
Proof.
  intros Hz. unfold show_hex_lower, show_hex. rewrite u32_id by (unfold is_u32; lia).
  destruct (hex_go_read 8 z []) as (Hr & Hd & Hne); [done|lia|]. specialize (Hd ltac:(constructor)).
  change (read_digits 16 z (ascii_lower <$> [])) with z in Hr.
  assert (Hne' : ascii_lower <$> hex_go 8 z [] <> []) by (by destruct (hex_go 8 z [])).
  revert Hr Hd Hne'. generalize (ascii_lower <$> hex_go 8 z []). intros l Hr Hd Hne'.
  destruct l as [|c l]; [done|]. apply Forall_cons in Hd as [[d Hc] Hd].
  destruct (hex_digit_plain c d Hc) as (Hs & Hm & Hp & _). unfold strtol. cbn [skip_space].
  rewrite Hs, !bool_decide_false by done.
  assert (strip_0x 16 (c :: l) = c :: l) as ->.
  { destruct l as [|x [|y l]]; try done. apply Forall_cons in Hd as [[dx Hx] _].
    destruct (hex_digit_plain x dx Hx) as (_ & _ & _ & Hx1 & Hx2 & _). unfold strip_0x.
    rewrite (bool_decide_false (x = "x"%char)), (bool_decide_false (x = "X"%char)) by done.
    by rewrite !andb_false_r. }
  rewrite Hc, Hr. replace (in_i64 z) with true by (unfold in_i64; lia). done.
Qed.

Lemma show_hex_unquoted z : 0 <= z < 2 ^ 32 -> dquote ∉ show_hex_lower z.
Proof.
  intros Hz Hin. unfold show_hex_lower, show_hex in Hin. rewrite u32_id in Hin by (unfold is_u32; lia).
  destruct (hex_go_read 8 z []) as (_ & Hd & _); [done|lia|]. specialize (Hd ltac:(constructor)).
  rewrite Forall_forall in Hd. destruct (Hd _ Hin) as [d Hd']. by apply hex_digit_plain in Hd' as (_ & _ & _ & _ & _ & []).
Qed.
Lemma stoi_to_string z : in_i32 z = true -> stoi (to_string z) = Ok z.
Proof.
  intros Hz. unfold stoi. destruct (in_i32_i64 z Hz) as [Hi _].
  rewrite strtol_to_string by done. by rewrite Hz.
Qed.

End ModemCommand.
