(* ===== verification/ThreadLooper.v ===== *)
(** * The modem's timer queue (modem_simulator/thread_looper.{h,cpp})

    One thread runs the callbacks the services post.  Every method works under
    the looper's mutex, so operations are atomic; the time of the steady clock
    is an argument.  The specification is a map from serials to pending
    callbacks, of which the loop runs the earliest one that is due. *)
From S2P Require Import Prelude.

Module ThreadLooper.
Section looper.
Context {Callback : Type}.

Record Event := mkEvent { when : Z; cb : Callback; serial : Z }.
Record Looper := mkLooper { stopped_ : bool; queue_ : list Event; next_serial_ : Z }.

Definition ThreadLooper_ : Looper := mkLooper false [] 1.

Fixpoint insert_event (event : Event) (queue : list Event) : list Event :=
  match queue with
  | [] => [event]
  | e :: q => if when e <=? when event then e :: insert_event event q else event :: queue
  end.

Definition Insert (event : Event) (l : Looper) : Looper :=
  mkLooper (stopped_ l) (insert_event event (queue_ l)) (next_serial_ l).

(** [Post(cb, delay)] at time [now]; [Post(cb)] is a delay of 0.  The serial
    is an int32_t counter. *)
Definition Post (now : Z) (c : Callback) (delay : Z) (l : Looper) : Z * Looper :=
  let s := next_serial_ l in
  (s, Insert (mkEvent (now + delay) c s) (mkLooper (stopped_ l) (queue_ l) (as_i32 (s + 1)))).

Fixpoint erase_serial (s : Z) (queue : list Event) : bool * list Event :=
  match queue with
  | [] => (false, [])
  | e :: q => if serial e =? s then (true, q)
              else let '(found, q') := erase_serial s q in (found, e :: q')
  end.

Definition CancelSerial (s : Z) (l : Looper) : bool * Looper :=
  let '(found, q) := erase_serial s (queue_ l) in
  (found, mkLooper (stopped_ l) q (next_serial_ l)).

(** One turn of [ThreadLoop]: leave, wait to be notified or for the time to
    pass, or run a callback. *)
Inductive Turn := Exit | Wait | Run (c : Callback).

Definition ThreadLoop_turn (now : Z) (l : Looper) : Turn * Looper :=
  if stopped_ l then (Exit, l)
  else match queue_ l with
       | [] => (Wait, l)
       | e :: q => if 0 <? when e - now then (Wait, l)
                   else (Run (cb e), mkLooper (stopped_ l) q (next_serial_ l))
       end.

Definition Stop (l : Looper) : Looper :=
  if stopped_ l then l else mkLooper true (queue_ l) (next_serial_ l).

(** ** Operations in sequence *)
Inductive op := OPost (now : Z) (c : Callback) (delay : Z) | OCancel (s : Z) | OTurn (now : Z) | OStop.
Inductive out := RPost (s : Z) | RCancel (found : bool) | RTurn (t : Turn) | RStop.

Definition do_op (o : op) (l : Looper) : out * Looper :=
  match o with
  | OPost now c d => let '(s, l') := Post now c d l in (RPost s, l')
  | OCancel s => let '(b, l') := CancelSerial s l in (RCancel b, l')
  | OTurn now => let '(t, l') := ThreadLoop_turn now l in (RTurn t, l')
  | OStop => (RStop, Stop l)
  end.

Fixpoint do_ops (os : list op) (l : Looper) : list out * Looper :=
  match os with
  | [] => ([], l)
  | o :: os => let '(r, l1) := do_op o l in
               let '(rs, l2) := do_ops os l1 in (r :: rs, l2)
  end.

(** ** Specification *)
Record Spec := mkSpec { pending : gmap Z (Z * Callback); running : bool }.

(** Earlier, and of two callbacks due at the same time the one posted first. *)
Definition before (w s w' s' : Z) : Prop := w < w' \/ (w = w' /\ s <= s').

Inductive spec_step : Spec -> op -> out -> Spec -> Prop :=
| spec_post m b now c d s :
    m !! s = None ->
    spec_step (mkSpec m b) (OPost now c d) (RPost s) (mkSpec (<[s := (now + d, c)]> m) b)
| spec_cancel m b s :
    spec_step (mkSpec m b) (OCancel s) (RCancel (bool_decide (is_Some (m !! s))))
      (mkSpec (delete s m) b)
| spec_run m now w c s :
    m !! s = Some (w, c) -> w <= now ->
    (forall s' w' c', m !! s' = Some (w', c') -> before w s w' s') ->
    spec_step (mkSpec m true) (OTurn now) (RTurn (Run c)) (mkSpec (delete s m) true)
| spec_wait m now :
    (forall s w c, m !! s = Some (w, c) -> now < w) ->
    spec_step (mkSpec m true) (OTurn now) (RTurn Wait) (mkSpec m true)
| spec_exit m now : spec_step (mkSpec m false) (OTurn now) (RTurn Exit) (mkSpec m false)
| spec_stop m b : spec_step (mkSpec m b) OStop RStop (mkSpec m false).

Inductive spec_steps : Spec -> list op -> list out -> Spec -> Prop :=
| spec_nil a : spec_steps a [] [] a
| spec_cons a b c o r os rs :
    spec_step a o r b -> spec_steps b os rs c -> spec_steps a (o :: os) (r :: rs) c.

Definition entry (e : Event) : Z * (Z * Callback) := (serial e, (when e, cb e)).
Definition abstract (l : Looper) : Spec :=
  mkSpec (list_to_map (entry <$> queue_ l)) (negb (stopped_ l)).

(** The queue is in the order events run, with serials below the next one. *)
Definition ordered (e e' : Event) : Prop :=
  when e < when e' \/ (when e = when e' /\ serial e < serial e').
Definition looper_inv (l : Looper) : Prop :=
  StronglySorted ordered (queue_ l) /\ NoDup (serial <$> queue_ l) /\
  Forall (fun e => serial e < next_serial_ l) (queue_ l).

Lemma elem_of_insert_event e q x : x ∈ insert_event e q <-> x = e \/ x ∈ q.
Proof.
  induction q as [|y q IH]; simpl; [set_solver|]. destruct (when y <=? when e); set_solver.
Qed.

Lemma insert_event_perm e q : insert_event e q ≡ₚ e :: q.
Proof.
  induction q as [|y q IH]; simpl; [done|]. destruct (when y <=? when e); [|done].
  rewrite IH. constructor.
Qed.

Lemma insert_event_sorted e q :
  StronglySorted ordered q -> Forall (fun x => serial x < serial e) q ->
  StronglySorted ordered (insert_event e q).
Proof.
  induction q as [|y q IH]; intros Hs Hq; simpl; [repeat constructor|].
  apply StronglySorted_inv in Hs as [Hs Hy]. inversion Hq as [|? ? Hys Hq']; subst.
  destruct (Z.leb_spec (when y) (when e)).
  - constructor; [auto|]. apply Forall_forall. intros x [->|Hx]%elem_of_insert_event.
    + unfold ordered. lia.
    + rewrite Forall_forall in Hy. auto.
  - constructor; [by constructor|]. constructor; [by left|].
    eapply Forall_impl; [exact Hy|]. unfold ordered. intros. simpl in *. lia.
Qed.

Lemma erase_serial_spec s q :
  NoDup (serial <$> q) ->
  erase_serial s q =
    (bool_decide (is_Some ((list_to_map (entry <$> q) : gmap Z (Z * Callback)) !! s)),
     base.filter (fun e => serial e <> s) q).
Proof.
  induction q as [|e q IH]; intros Hn; simpl.
  - rewrite bool_decide_false; [done|]. rewrite lookup_empty. intros []. done.
  - apply NoDup_cons in Hn as [He Hn]. destruct (Z.eqb_spec (serial e) s) as [<-|Hne].
    + rewrite lookup_insert_eq, bool_decide_true by done. rewrite filter_cons_False by naive_solver.
      f_equal. symmetry. apply filter_every. intros x Hx Heq. apply He. rewrite <- Heq.
      by apply list_elem_of_fmap_2.
    + rewrite IH by done. rewrite lookup_insert_ne by done.
      by rewrite filter_cons_True by done.
Qed.

Lemma abstract_lookup q s w c :
  NoDup (serial <$> q) ->
  (list_to_map (entry <$> q) : gmap Z (Z * Callback)) !! s = Some (w, c) <-> mkEvent w c s ∈ q.
Proof.
  intros Hn. rewrite <- elem_of_list_to_map.
  - rewrite list_elem_of_fmap. split.
    + intros ([w' c' s'] & [= -> -> ->] & H). done.
    + intros H. by exists (mkEvent w c s).
  - rewrite <- list_fmap_compose. done.
Qed.

Lemma abstract_filter q s :
  (list_to_map (entry <$> base.filter (fun e => serial e <> s) q) : gmap Z (Z * Callback)) =
  delete s (list_to_map (entry <$> q)).
Proof.
  induction q as [|e q IH]; simpl; [by rewrite delete_empty|].
  destruct (decide (serial e <> s)) as [H|H].
  - rewrite filter_cons_True by done. rewrite fmap_cons.
    change (list_to_map (entry e :: ?l)) with (<[serial e := (when e, cb e)]> (list_to_map l : gmap Z (Z * Callback))).
    by rewrite IH, delete_insert_ne.
  - apply dec_stable in H. subst. rewrite filter_cons_False by naive_solver.
    by rewrite delete_insert_eq, IH.
Qed.

Lemma Post_refines now c d l :
  looper_inv l -> next_serial_ l < 2 ^ 31 - 1 -> - 2 ^ 31 <= next_serial_ l ->
  let '(r, l') := do_op (OPost now c d) l in
  looper_inv l' /\ spec_step (abstract l) (OPost now c d) r (abstract l') /\
  next_serial_ l' = next_serial_ l + 1.
Proof.
  intros (Hs & Hn & Hb) Hlt Hge. simpl. unfold Insert. simpl.
  assert (Has : as_i32 (next_serial_ l + 1) = next_serial_ l + 1).
  { unfold as_i32. rewrite Z.mod_small; lia. }
  set (e := mkEvent (now + d) c (next_serial_ l)).
  assert (Hfresh : serial e ∉ serial <$> queue_ l).
  { intros (x & Hx & Hin)%list_elem_of_fmap. rewrite Forall_forall in Hb. apply Hb in Hin.
    unfold e in Hx. simpl in Hx. lia. }
  split_and!; simpl.
  - split_and!; simpl.
    + by apply insert_event_sorted.
    + rewrite insert_event_perm. simpl. by apply NoDup_cons.
    + rewrite Has. apply Forall_forall. intros x [->|Hx]%elem_of_insert_event; [simpl; lia|].
      rewrite Forall_forall in Hb. apply Hb in Hx. lia.
  - unfold abstract. simpl.
    rewrite (list_to_map_proper (entry <$> insert_event e (queue_ l)) (entry <$> e :: queue_ l)).
    + constructor. apply not_elem_of_list_to_map. rewrite <- list_fmap_compose. done.
    + rewrite <- list_fmap_compose. rewrite insert_event_perm. by apply NoDup_cons.
    + by rewrite insert_event_perm.
  - done.
Qed.

Lemma CancelSerial_refines s l :
  looper_inv l ->
  let '(r, l') := do_op (OCancel s) l in
  looper_inv l' /\ spec_step (abstract l) (OCancel s) r (abstract l') /\
  next_serial_ l' = next_serial_ l.
Proof.
  intros (Hs & Hn & Hb). simpl. unfold CancelSerial. rewrite erase_serial_spec by done.
  assert (Hsub : sublist (base.filter (fun e => serial e <> s) (queue_ l)) (queue_ l))
    by apply sublist_filter.
  split_and!; simpl.
  - split_and!; simpl.
    + by eapply sublist_StronglySorted.
    + eapply sublist_NoDup; [exact Hn|]. by apply fmap_sublist.
    + rewrite Forall_forall in *. intros x Hx. apply Hb. by eapply sublist_subseteq.
  - unfold abstract. simpl. rewrite abstract_filter. constructor.
  - done.
Qed.

Lemma ThreadLoop_refines now l :
  looper_inv l ->
  let '(r, l') := do_op (OTurn now) l in
  looper_inv l' /\ spec_step (abstract l) (OTurn now) r (abstract l') /\
  next_serial_ l' = next_serial_ l.
Proof.
  intros (Hs & Hn & Hb). simpl. unfold ThreadLoop_turn, abstract.
  destruct (stopped_ l) eqn:Est; [split_and!; try done; rewrite Est; constructor|].
  destruct (queue_ l) as [|e q] eqn:Eq.
  { split_and!; [split_and!; rewrite Eq; constructor| |done].
    rewrite Est, Eq. apply spec_wait. intros s w c. simpl. by rewrite lookup_empty. }
  apply StronglySorted_inv in Hs as [Hs He].
  assert (Hmin : forall x, x ∈ e :: q -> before (when e) (serial e) (when x) (serial x)).
  { intros x [->|Hx]%elem_of_cons; [right; lia|]. rewrite Forall_forall in He.
    apply He in Hx. unfold ordered, before in *. lia. }
  destruct (Z.ltb_spec 0 (when e - now)); (split; [|split; [|done]]).
  - split_and!; rewrite Eq; [by constructor|done|done].
  - rewrite Est, Eq. simpl. apply spec_wait. intros s w c Hl. apply (abstract_lookup (e :: q)) in Hl; [|done].
    apply Hmin in Hl. unfold before in Hl. simpl in Hl. lia.
  - split_and!; simpl; [done|by apply NoDup_cons in Hn as [_ ?]|by inversion Hb].
  - simpl. assert (Hd : (list_to_map (entry <$> q) : gmap Z (Z * Callback)) =
      delete (serial e) (list_to_map (entry <$> e :: q))).
    { simpl. rewrite delete_insert_id; [done|].
      apply not_elem_of_list_to_map. rewrite <- list_fmap_compose. by apply NoDup_cons in Hn as [? _]. }
    rewrite Hd. apply spec_run with (when e).
    + apply abstract_lookup; [done|]. destruct e. left.
    + lia.
    + intros s' w' c' Hl. apply (abstract_lookup (e :: q)) in Hl; [|done]. by apply Hmin in Hl.
Qed.

Definition is_post (o : op) : bool := match o with OPost _ _ _ => true | _ => false end.
Fixpoint posts (os : list op) : Z :=
  match os with [] => 0 | o :: os => (if is_post o then 1 else 0) + posts os end.

Lemma posts_nonneg os : 0 <= posts os.
Proof. induction os as [|o os IH]; simpl; [done|]. destruct (is_post o); lia. Qed.

Lemma do_op_refines o l :
  looper_inv l -> 1 <= next_serial_ l -> (is_post o = true -> next_serial_ l < 2 ^ 31 - 1) ->
  let '(r, l') := do_op o l in
  looper_inv l' /\ spec_step (abstract l) o r (abstract l') /\
  next_serial_ l' = next_serial_ l + (if is_post o then 1 else 0).
Proof.
  intros Hi Hge Hp. destruct o; cbn [is_post] in *; rewrite ?Z.add_0_r.
  - apply Post_refines; [done|auto|lia].
  - by apply CancelSerial_refines.
  - by apply ThreadLoop_refines.
  - simpl. unfold Stop, abstract.
    destruct (stopped_ l) eqn:E; simpl; rewrite ?E; split_and!; try done; constructor.
Qed.

Lemma do_ops_refines os l :
  looper_inv l -> 1 <= next_serial_ l -> next_serial_ l + posts os < 2 ^ 31 ->
  let '(rs, l') := do_ops os l in
  looper_inv l' /\ spec_steps (abstract l) os rs (abstract l').
Proof.
  revert l. induction os as [|o os IH]; intros l Hi Hge Hlt; [split; [done|constructor]|].
  cbn [do_ops posts] in *. pose proof (posts_nonneg os).
  pose proof (do_op_refines o l Hi Hge) as Hstep.
  destruct (do_op o l) as [r l1]. destruct Hstep as (Hi1 & Hst & Hser).
  { intros E. rewrite E in Hlt. lia. }
  specialize (IH l1 Hi1). destruct (do_ops os l1) as [rs l2].
  destruct IH as [Hi2 Hsts]; [destruct (is_post o); lia|lia|].
  split; [done|]. by econstructor.
Qed.

(** C9. Whatever the services post and cancel, as long as fewer than 2^31 - 1
    callbacks are posted, the queue implements the specification: posting
    returns an unused serial, [CancelSerial] removes exactly the callback with
    that serial and says whether it was pending, a turn of the loop runs the
    earliest pending callback, in posting order among those due together, if it
    is due, waits otherwise, and leaves once stopped. *)
Theorem looper_refines os :
  posts os < 2 ^ 31 - 1 ->
  let '(rs, l) := do_ops os ThreadLooper_ in
  looper_inv l /\ spec_steps (mkSpec ∅ true) os rs (abstract l).
Proof.
  intros Hp. apply (do_ops_refines os ThreadLooper_); simpl; [|lia|lia].
  split_and!; constructor.
Qed.
End looper.
Arguments Event : clear implicits.
Arguments Looper : clear implicits.

Definition example_ops : list (@op string) :=
  [OPost 0 "late" 60; OPost 0 "first" 1; OPost 0 "second" 1; OTurn 0; OTurn 2; OCancel 1; OTurn 2].

Example looper_refines_witness :
  posts example_ops = 3 /\
  (do_ops example_ops ThreadLooper_).1 =
    [RPost 1; RPost 2; RPost 3; RTurn Wait; RTurn (Run "first"%string); RCancel true;
     RTurn (Run "second"%string)] /\
  let '(rs, l) := do_ops example_ops ThreadLooper_ in
  looper_inv l /\ spec_steps (mkSpec ∅ true) example_ops rs (abstract l).
Proof. split; [reflexivity|]. split; [reflexivity|]. apply looper_refines. reflexivity. Defined.
End ThreadLooper.
