(* ===== verification/PduParser.v ===== *)
(** * Short message PDUs (modem_simulator/pdu_parser.{h,cpp})

    A PDU is a string of hexadecimal octets.  [DecodePDU] cuts it into fields,
    [CreatePDU] and [CreateStatuReport] make what the receiver is told, and
    [CreateRemotePDU] rewrites the address for the modem of another device.
    The C library's clock is an argument ([Clock]). *)
From S2P Require Import Prelude CppString ModemCommand.

Module PduParser.
Import CppString ModemCommand.

Definition kWithoutServiceCenterAddress : bytes := str "00".
Definition kStatusReportIndicator : bytes := str "06".
Definition kSRIAndMMSIndicator : bytes := str "24".
Definition kUDHIAndSRIAndMMSIndicator : bytes := str "64".

Record PDUParser := mkPdu {
  is_valid_pdu_ : bool;
  pdu_type_ : bytes;
  message_reference_ : bytes;
  originator_address_ : bytes;
  protocol_id_ : bytes;
  data_code_scheme_ : bytes;
  user_data_ : bytes
}.

Definition HexCharToInt (c : ascii) : Z :=
  let z := Z_of_byte c in
  if (48 <=? z) && (z <=? 57) then z - 48
  else if (65 <=? z) && (z <=? 70) then z - 65 + 10
  else if (97 <=? z) && (z <=? 102) then z - 97 + 10
  else -1.

Definition Hex2ToByte (hex : bytes) : Z :=
  match hex with
  | c0 :: c1 :: _ =>
      let hi := HexCharToInt c0 in
      let lo := HexCharToInt c1 in
      if (hi <? 0) || (lo <? 0) then -1 else Z.lor (Z.shiftl hi 4) lo
  | _ => -1
  end.

(** The length of an address field and of the user data, from their length
    octets (-1 when it is not an octet). *)
Definition oa_size (oa_length : Z) : Z :=
  (if Z.odd oa_length then oa_length + 1 else oa_length) + 4.
Definition ud_size (dcs : bytes) (ud_length : Z) : Z :=
  if bool_decide (dcs = str "00") then ud_length * 2 + 2 - Z.quot ud_length 8 * 2
  else ud_length * 2 + 2.

Definition DecodePDU (pdu : bytes) : PDUParser :=
  let pdu_total_length := zlen pdu in
  if pdu_total_length <? 8 then mkPdu false [] [] [] [] [] []
  else
    let view pos n := zslice (Z.min pos pdu_total_length) n pdu in
    (* 1. SMSC address; [pos] is a size_t *)
    let temp := view 0 2 in
    let pos := if bool_decide (temp = kWithoutServiceCenterAddress) then 2
               else u64 (2 + Hex2ToByte temp * 2) in
    (* 2. PDU type *)
    let pdu_type := view pos 2 in
    let pos := u64 (pos + 2) in
    (* 3. MR *)
    let message_reference := view pos 2 in
    let pos := u64 (pos + 2) in
    (* 4., 5. originator address *)
    let oa_length := Hex2ToByte (view pos 2) in
    let originator_address := view pos (oa_size oa_length) in
    let pos := u64 (pos + oa_size oa_length) in
    (* 6. protocol id *)
    let protocol_id := view pos 2 in
    let pos := u64 (pos + 2) in
    (* 7. data code scheme *)
    let data_code_scheme := view pos 2 in
    let pos := u64 (pos + 2) in
    (* 8., 9. user data *)
    let ud_length := Hex2ToByte (view pos 2) in
    let user_data := view pos pdu_total_length in
    let pos := u64 (pos + ud_size data_code_scheme ud_length) in
    mkPdu (pos =? pdu_total_length) pdu_type message_reference originator_address protocol_id
      data_code_scheme user_data.

Definition IsValidPDU (p : PDUParser) : bool := is_valid_pdu_ p.

(** ** Time stamps *)
Record Tm := mkTm { tm_year : Z; tm_mon : Z; tm_mday : Z; tm_hour : Z; tm_min : Z; tm_sec : Z }.
(** [localtime] of now, and [difftime(mktime(local), mktime(gm))] in seconds. *)
Record Clock := mkClock { local_time : Tm; time_diff : Z }.

Definition IntToHexString (value : Z) : bytes :=
  to_string (Z.rem value 10) ++ to_string (Z.quot value 10).

Definition IntToHexStringTimeZoneDiff (tzdiff_hour : Z) : bytes :=
  let '(tzdiff_hour, delta) :=
    if tzdiff_hour <? 0 then (- tzdiff_hour, 8) else (tzdiff_hour, 0) in
  let tzdiff_quarter_hour := 4 * tzdiff_hour in
  let hi := Z.quot tzdiff_quarter_hour 10 + delta in
  let lo := Z.rem tzdiff_quarter_hour 10 in
  show_hex_lower lo ++ show_hex_lower hi.

Definition GetCurrentTimeStamp (now : Clock) : bytes :=
  let t := local_time now in
  let tzdiff := Z.quot (time_diff now) (60 * 60) in
  IntToHexString (Z.rem (tm_year t) 100) ++ IntToHexString (tm_mon t + 1) ++
  IntToHexString (tm_mday t) ++ IntToHexString (tm_hour t) ++ IntToHexString (tm_min t) ++
  IntToHexString (tm_sec t) ++ IntToHexStringTimeZoneDiff tzdiff.

(** ** Semi-octets *)
Fixpoint swap_pairs (l : bytes) : bytes :=
  match l with
  | a :: b :: l' => b :: a :: swap_pairs l'
  | _ => l
  end.

(** The replacement "\0" is an empty C string: the last character goes. *)
Definition BCDToString (data : bytes) : bytes :=
  if bool_decide (data = []) then []
  else if Z.odd (zlen data) then []
  else let dst := swap_pairs data in
       if bool_decide (last dst = Some "F"%char) then ztake (zlen data - 1) dst else dst.

Fixpoint StringToBCD (data : bytes) : bytes :=
  match data with
  | a :: b :: l => b :: a :: StringToBCD l
  | [a] => ["F"%char; a]
  | [] => []
  end.

(** ** PDUs for the receiver *)
Definition CreatePDU (now : Clock) (p : PDUParser) : bytes :=
  if negb (is_valid_pdu_ p) then []
  else
    kWithoutServiceCenterAddress ++
    (if Z.testbit (Hex2ToByte (pdu_type_ p)) 6 then kUDHIAndSRIAndMMSIndicator
     else kSRIAndMMSIndicator) ++
    originator_address_ p ++ protocol_id_ p ++ data_code_scheme_ p ++
    GetCurrentTimeStamp now ++ user_data_ p.

Definition IsNeededStatuReport (p : PDUParser) : bool :=
  if negb (is_valid_pdu_ p) then false else Z.testbit (Hex2ToByte (pdu_type_ p)) 5.

(** [std::setfill('0') << std::setw(2)]. *)
Definition pad2 (s : bytes) : bytes := replicate (2 - length s) "0"%char ++ s.

(** The second time stamp is taken a second after the first. *)
Definition CreateStatuReport (now later : Clock) (message_reference : Z) (p : PDUParser) : bytes :=
  if negb (is_valid_pdu_ p) then []
  else
    kWithoutServiceCenterAddress ++ kStatusReportIndicator ++
    pad2 (show_hex_lower message_reference) ++ originator_address_ p ++
    GetCurrentTimeStamp now ++ GetCurrentTimeStamp later ++ str "00".

Definition GetPhoneNumberFromAddress (p : PDUParser) : result bytes :=
  if negb (is_valid_pdu_ p) then Ok []
  else
    let* address := substr_from (if zlen (originator_address_ p) =? 18 then 6 else 4)
                      (originator_address_ p) in
    Ok (BCDToString address).

Definition CreateRemotePDU (host_port : bytes) (p : PDUParser) : result bytes :=
  if negb (zlen host_port =? 4) || negb (is_valid_pdu_ p) then Ok []
  else
    let* number := GetPhoneNumberFromAddress p in
    let new_phone_number := ztake (u64 (zlen number - 4)) number ++ host_port in
    let new_phone_number :=
      if Z.odd (zlen new_phone_number) then new_phone_number ++ str "F" else new_phone_number in
    Ok (kWithoutServiceCenterAddress ++ pdu_type_ p ++ message_reference_ p ++
        ztake (u64 (zlen (originator_address_ p) - zlen new_phone_number)) (originator_address_ p) ++
        BCDToString new_phone_number ++ protocol_id_ p ++ data_code_scheme_ p ++ user_data_ p).

(** The example of the source's comment. *)
Definition example_pdu : bytes := str "00010005810180F600000D61B2996C0691CD6433190402".
Example decode_example :
  DecodePDU example_pdu =
  mkPdu true (str "01") (str "00") (str "05810180F6") (str "00") (str "00")
    (str "0D61B2996C0691CD6433190402").
Proof. reflexivity. Qed.
Example number_example : GetPhoneNumberFromAddress (DecodePDU example_pdu) = Ok (str "10086").
Proof. reflexivity. Qed.
(** ** Decoding *)
Lemma Hex2ToByte_range s : -1 <= Hex2ToByte s <= 255.
Proof.
  assert (Hall : forallb (fun hi => forallb (fun lo =>
    (0 <=? Z.lor (Z.shiftl hi 4) lo) && (Z.lor (Z.shiftl hi 4) lo <=? 255)) (seqZ 0 16)) (seqZ 0 16) = true)
    by (vm_compute; reflexivity).
  assert (Hc : forall c, -1 <= HexCharToInt c < 16).
  { intros c. unfold HexCharToInt. repeat case_match; lia. }
  unfold Hex2ToByte. destruct s as [|c0 [|c1 s]]; try lia.
  destruct (_ || _) eqn:E; [lia|]. rewrite forallb_forall in Hall.
  specialize (Hall (HexCharToInt c0)). rewrite forallb_forall in Hall.
  pose proof (Hc c0). pose proof (Hc c1).
  assert (Hr : (0 <=? Z.lor (Z.shiftl (HexCharToInt c0) 4) (HexCharToInt c1)) &&
    (Z.lor (Z.shiftl (HexCharToInt c0) 4) (HexCharToInt c1) <=? 255) = true).
  { apply Hall; apply list_elem_of_In, elem_of_seqZ; lia. }
  lia.
Qed.

Lemma oa_size_range l : -1 <= l <= 255 -> 4 <= oa_size l <= 260.
Proof.
  intros Hl. unfold oa_size. destruct (Z.odd l) eqn:E; [lia|].
  destruct (decide (l = -1)) as [->|]; [done|]. lia.
Qed.

Lemma ud_size_range d l : -1 <= l <= 255 -> 0 <= ud_size d l <= 512.
Proof.
  intros Hl. unfold ud_size. case_bool_decide; [|lia]. Z.to_euclidean_division_equations. lia.
Qed.

(** The fields of a valid PDU have the sizes their length octets give. *)
Record wf_pdu (p : PDUParser) : Prop := {
  wf_type : zlen (pdu_type_ p) = 2;
  wf_mr : zlen (message_reference_ p) = 2;
  wf_oa : zlen (originator_address_ p) = oa_size (Hex2ToByte (ztake 2 (originator_address_ p)));
  wf_pid : zlen (protocol_id_ p) = 2;
  wf_dcs : zlen (data_code_scheme_ p) = 2;
  wf_ud : zlen (user_data_ p) = ud_size (data_code_scheme_ p) (Hex2ToByte (ztake 2 (user_data_ p)))
}.

(** The octets of a PDU after the service center address. *)
Definition fields (p : PDUParser) : bytes :=
  pdu_type_ p ++ message_reference_ p ++ originator_address_ p ++ protocol_id_ p ++
  data_code_scheme_ p ++ user_data_ p.

Lemma ztake_zslice n pos m (s : bytes) : n <= m -> ztake n (zslice pos m s) = zslice pos n s.
Proof. intros. unfold zslice. rewrite ztake_ztake. f_equal. lia. Qed.

(** Nothing of a valid PDU is lost. *)
Lemma DecodePDU_wf pdu :
  is_valid_pdu_ (DecodePDU pdu) = true ->
  wf_pdu (DecodePDU pdu) /\ exists sca, pdu = sca ++ fields (DecodePDU pdu).
Proof.
  unfold DecodePDU. destruct (Z.ltb_spec (zlen pdu) 8) as [|HL]; [done|]. cbv zeta.
  set (L := zlen pdu) in *.
  set (k := if bool_decide _ then 2 else u64 _).
  assert (Hk : 0 <= k <= 512).
  { unfold k. case_bool_decide; [lia|]. pose proof (Hex2ToByte_range (zslice (Z.min 0 L) 2 pdu)).
    rewrite u64_id; unfold is_u64; lia. }
  rewrite !(u64_id (k + 2)) by (unfold is_u64; lia).
  rewrite !(u64_id (k + 2 + 2)) by (unfold is_u64; lia).
  match goal with |- context [oa_size ?x] => remember (oa_size x) as oa eqn:Eoa end.
  assert (Hoa : 4 <= oa <= 260) by (subst oa; apply oa_size_range, Hex2ToByte_range).
  rewrite !(u64_id (k + 2 + 2 + oa)) by (unfold is_u64; lia).
  rewrite !(u64_id (k + 2 + 2 + oa + 2)) by (unfold is_u64; lia).
  rewrite !(u64_id (k + 2 + 2 + oa + 2 + 2)) by (unfold is_u64; lia).
  match goal with |- context [ud_size ?d ?x] => remember (ud_size d x) as ud eqn:Eud end.
  assert (Hud : 0 <= ud <= 512) by (subst ud; apply ud_size_range, Hex2ToByte_range).
  rewrite (u64_id (k + 2 + 2 + oa + 2 + 2 + ud)) by (unfold is_u64; lia).
  cbn [is_valid_pdu_]. intros Hv%Z.eqb_eq.
  rewrite Z.min_l in Eoa by lia. rewrite !Z.min_l in Eud by lia.
  rewrite !Z.min_l by lia. split.
  - constructor; cbn [pdu_type_ message_reference_ originator_address_ protocol_id_
      data_code_scheme_ user_data_]; rewrite ?ztake_zslice by lia; rewrite zlen_zslice by lia; fold L; lia.
  - exists (ztake k pdu). unfold fields. cbn [pdu_type_ message_reference_ originator_address_ protocol_id_
      data_code_scheme_ user_data_].
    rewrite <- (ztake_zdrop k pdu) at 1. f_equal.
    assert (Hd : zdrop k pdu = zslice k (2 + (2 + (oa + (2 + (2 + ud))))) pdu).
    { unfold zslice. symmetry. apply ztake_all. rewrite zlen_zdrop. fold L. lia. }
    assert (Hu : zslice (k + 2 + 2 + oa + 2 + 2) L pdu = zslice (k + 2 + 2 + oa + 2 + 2) ud pdu).
    { unfold zslice. rewrite !ztake_all; rewrite ?zlen_zdrop; fold L; [done|lia|lia]. }
    by rewrite Hd, !zslice_plus, Hu by lia.
Qed.

Lemma view_mid pos n (pre x post : bytes) :
  pos = zlen pre -> n = zlen x ->
  zslice (Z.min pos (zlen (pre ++ x ++ post))) n (pre ++ x ++ post) = x.
Proof. intros -> ->. rewrite Z.min_l by zlen_lia. apply zslice_mid. Qed.

Lemma view_head pos n (pre x post : bytes) :
  pos = zlen pre -> n <= zlen x ->
  zslice (Z.min pos (zlen (pre ++ x ++ post))) n (pre ++ x ++ post) = ztake n x.
Proof.
  intros -> Hn. rewrite Z.min_l by zlen_lia.
  by rewrite <- (ztake_zslice n (zlen pre) (zlen x)), zslice_mid by lia.
Qed.

(** The views [DecodePDU] takes of a PDU put together from its fields. *)
Lemma fields_views (t mr oa pid dcs ud : bytes) :
  zlen t = 2 -> zlen mr = 2 -> zlen pid = 2 -> zlen dcs = 2 -> 2 <= zlen oa ->
  let pdu := kWithoutServiceCenterAddress ++ t ++ mr ++ oa ++ pid ++ dcs ++ ud in
  let view pos n := zslice (Z.min pos (zlen pdu)) n pdu in
  zlen pdu = 10 + zlen oa + zlen ud /\
  view 0 2 = kWithoutServiceCenterAddress /\ view 2 2 = t /\ view 4 2 = mr /\
  view 6 2 = ztake 2 oa /\ view 6 (zlen oa) = oa /\ view (6 + zlen oa) 2 = pid /\
  view (8 + zlen oa) 2 = dcs /\ forall n, view (10 + zlen oa) n = ztake n ud.
Proof.
  intros H1 H2 H4 H5 Hoa. cbv zeta. set (sca := kWithoutServiceCenterAddress).
  assert (Hs : zlen sca = 2) by done. set (pdu := sca ++ _).
  assert (HL : zlen pdu = 10 + zlen oa + zlen ud) by (unfold pdu; zlen_lia).
  assert (E2 : pdu = (sca ++ t) ++ mr ++ (oa ++ pid ++ dcs ++ ud)) by (unfold pdu; by rewrite <- !app_assoc).
  assert (E3 : pdu = (sca ++ t ++ mr) ++ oa ++ (pid ++ dcs ++ ud)) by (unfold pdu; by rewrite <- !app_assoc).
  assert (E4 : pdu = (sca ++ t ++ mr ++ oa) ++ pid ++ (dcs ++ ud)) by (unfold pdu; by rewrite <- !app_assoc).
  assert (E5 : pdu = (sca ++ t ++ mr ++ oa ++ pid) ++ dcs ++ ud) by (unfold pdu; by rewrite <- !app_assoc).
  assert (E6 : pdu = (sca ++ t ++ mr ++ oa ++ pid ++ dcs) ++ ud) by (unfold pdu; by rewrite <- !app_assoc).
  split_and!; [done| | | | | | | |].
  - by apply (view_mid 0 2 []).
  - by apply view_mid.
  - rewrite E2; apply view_mid; zlen_lia.
  - rewrite E3; apply view_head; zlen_lia.
  - rewrite E3; apply view_mid; zlen_lia.
  - rewrite E4; apply view_mid; zlen_lia.
  - rewrite E5; apply view_mid; zlen_lia.
  - intros n. pose proof (zlen_nonneg ud). rewrite E6 at 2. rewrite Z.min_l by lia.
    rewrite zslice_app_r by zlen_lia. unfold zslice. rewrite zdrop_0 by zlen_lia. done.
Qed.

(** A PDU put together from fields of the right sizes decodes to them. *)
Lemma DecodePDU_build p :
  wf_pdu p -> is_valid_pdu_ p = true ->
  DecodePDU (kWithoutServiceCenterAddress ++ fields p) = p.
Proof.
  intros [H1 H2 H3 H4 H5 H6] Hv. destruct p as [v t mr oa pid dcs ud]. unfold fields.
  cbn [is_valid_pdu_ pdu_type_ message_reference_ originator_address_ protocol_id_
    data_code_scheme_ user_data_] in *. subst v.
  pose proof (oa_size_range _ (Hex2ToByte_range (ztake 2 oa))) as Hoa.
  pose proof (ud_size_range dcs _ (Hex2ToByte_range (ztake 2 ud))) as Hud.
  destruct (fields_views t mr oa pid dcs ud) as (HL & V0 & V1 & V2 & V3 & V3' & V4 & V5 & V6);
    [lia..|].
  set (pdu := kWithoutServiceCenterAddress ++ _) in *.
  unfold DecodePDU. rewrite (proj2 (Z.ltb_ge _ _)) by lia. cbv zeta.
  rewrite V0, bool_decide_true by done.
  rewrite !(u64_id (2 + 2)), !(u64_id (2 + 2 + 2)) by (unfold is_u64; lia).
  change (2 + 2) with 4. change (4 + 2) with 6. rewrite V1, V2, V3, <- !H3, V3'.
  rewrite !(u64_id (6 + zlen oa)) by (unfold is_u64; lia). rewrite V4.
  rewrite !(u64_id (6 + zlen oa + 2)) by (unfold is_u64; lia).
  replace (6 + zlen oa + 2) with (8 + zlen oa) by lia. rewrite V5.
  rewrite !(u64_id (8 + zlen oa + 2)) by (unfold is_u64; lia).
  replace (8 + zlen oa + 2) with (10 + zlen oa) by lia. rewrite !V6 by lia. rewrite <- !H6.
  rewrite (ztake_all (zlen pdu)) by lia.
  rewrite (u64_id (10 + zlen oa + zlen ud)) by (unfold is_u64; lia).
  rewrite (proj2 (Z.eqb_eq _ _)) by lia. done.
Qed.

(** ** Semi-octets *)
Definition pad_F (s : bytes) : bytes := if Z.odd (zlen s) then s ++ str "F" else s.

Lemma pair_ind (P : bytes -> Prop) :
  P [] -> (forall a, P [a]) -> (forall a b l, P l -> P (a :: b :: l)) -> forall l, P l.
Proof.
  intros H0 H1 H2. assert (Hl : forall l, P l /\ forall a, P (a :: l)).
  { induction l as [|x l [IH1 IH2]]; split; auto. }
  intros l. apply Hl.
Qed.

Lemma odd_pair a b (l : bytes) : Z.odd (zlen (a :: b :: l)) = Z.odd (zlen l).
Proof.
  rewrite !zlen_cons. replace (1 + (1 + zlen l)) with (zlen l + 2 * 1) by lia.
  by rewrite Z.odd_add_mul_2.
Qed.

Lemma swap_pairs_involutive l : swap_pairs (swap_pairs l) = l.
Proof. induction l as [|a|a b l IH] using pair_ind; simpl; [done|done|by rewrite IH]. Qed.

Lemma zlen_swap_pairs l : zlen (swap_pairs l) = zlen l.
Proof. induction l as [|a|a b l IH] using pair_ind; simpl; [done|done|]. rewrite !zlen_cons. lia. Qed.

Lemma last_swap_pairs l x y : Z.odd (zlen l) = false -> last (swap_pairs (l ++ [x; y])) = Some x.
Proof.
  induction l as [|a|a b l IH] using pair_ind; [done|done|]. rewrite odd_pair. intros H.
  simpl. specialize (IH H). destruct (swap_pairs (l ++ [x; y])) eqn:E; [|done].
  apply (f_equal zlen) in E. rewrite zlen_swap_pairs, zlen_app in E. zlen_lia.
Qed.

Lemma odd_pad_F s : Z.odd (zlen (pad_F s)) = false.
Proof.
  unfold pad_F. destruct (Z.odd (zlen s)) eqn:E; [|done].
  rewrite zlen_app. change (zlen (str "F")) with 1. rewrite Z.odd_add, E. done.
Qed.

(** [StringToBCD] pads to an even number of digits and swaps them in pairs. *)
Lemma StringToBCD_swap s : StringToBCD s = swap_pairs (pad_F s).
Proof.
  induction s as [|a|a b l IH] using pair_ind; [done|done|]. simpl. rewrite IH.
  unfold pad_F. rewrite odd_pair. by destruct (Z.odd (zlen l)).
Qed.

Lemma BCD_swap_pad s :
  s <> [] -> last s <> Some "F"%char -> BCDToString (swap_pairs (pad_F s)) = s.
Proof.
  intros Hne Hl. pose proof (odd_pad_F s) as Ho.
  assert (Hp : swap_pairs (pad_F s) <> []).
  { intros E. apply (f_equal zlen) in E. rewrite zlen_swap_pairs in E. apply zlen_0_nil in E.
    revert E. unfold pad_F. destruct (Z.odd (zlen s)); [by destruct s|exact Hne]. }
  unfold BCDToString. rewrite bool_decide_false, zlen_swap_pairs, Ho, swap_pairs_involutive by done.
  unfold pad_F in *. destruct (Z.odd (zlen s)) eqn:E.
  - rewrite bool_decide_true by (by rewrite last_app).
    rewrite zlen_app. change (zlen (str "F")) with 1.
    rewrite ztake_app_le, ztake_all by lia. done.
  - rewrite bool_decide_false by done. done.
Qed.

(** The digits that end in neither place with the filler 'F'. *)
Lemma BCDToString_plain m x y :
  Z.odd (zlen m) = false -> x <> "F"%char -> BCDToString (m ++ [x; y]) = swap_pairs (m ++ [x; y]).
Proof.
  intros Hm Hx. unfold BCDToString. rewrite bool_decide_false by (by destruct m).
  rewrite zlen_app, Z.odd_add, Hm. change (Z.odd (zlen [x; y])) with false. cbn [xorb].
  rewrite last_swap_pairs by done. by rewrite bool_decide_false by congruence.
Qed.

(** Packing digits into semi-octets and back. *)
Theorem BCD_roundtrip s :
  s <> [] -> last s <> Some "F"%char -> BCDToString (StringToBCD s) = s.
Proof. rewrite StringToBCD_swap. apply BCD_swap_pad. Qed.

Lemma BCD_pad_host m host :
  zlen host = 4 -> Forall (fun c => is_digit c = true) host ->
  BCDToString (pad_F (m ++ host)) = swap_pairs (pad_F (m ++ host)).
Proof.
  intros Hl Hd. destruct host as [|a [|b [|c [|d [|e host]]]]]; try (vm_compute in Hl; done).
  2: { exfalso. pose proof (zlen_nonneg host). rewrite !zlen_cons in Hl. lia. }
  rewrite !Forall_cons in Hd. destruct Hd as (Ha & Hb & Hc & Hd & _).
  assert (HF : forall x, is_digit x = true -> x <> "F"%char) by (intros x Hx ->; done).
  assert (Ho : Z.odd (zlen (m ++ [a; b; c; d])) = Z.odd (zlen m)).
  { rewrite zlen_app, Z.odd_add. change (Z.odd (zlen [a; b; c; d])) with false. apply xorb_false_r. }
  unfold pad_F. rewrite Ho. destruct (Z.odd (zlen m)) eqn:E.
  - replace ((m ++ [a; b; c; d]) ++ str "F") with ((m ++ [a; b; c]) ++ [d; "F"%char])
      by (rewrite <- !app_assoc; done).
    apply BCDToString_plain; [|by apply HF].
    rewrite zlen_app, Z.odd_add, E. done.
  - replace (m ++ [a; b; c; d]) with ((m ++ [a; b]) ++ [c; d]) by (rewrite <- !app_assoc; done).
    apply BCDToString_plain; [|by apply HF]. rewrite zlen_app, Z.odd_add, E. done.
Qed.

(** ** Messages between devices *)
Definition skip_of (p : PDUParser) : Z := if zlen (originator_address_ p) =? 18 then 6 else 4.

Lemma oa_size_even l : -1 <= l -> Z.odd (oa_size l) = false.
Proof.
  intros. unfold oa_size. rewrite Z.odd_add. destruct (Z.odd l) eqn:E; [|rewrite E; done].
  rewrite Z.odd_add, E. done.
Qed.

Lemma GetPhoneNumber_wf p :
  wf_pdu p -> is_valid_pdu_ p = true ->
  GetPhoneNumberFromAddress p = Ok (BCDToString (zdrop (skip_of p) (originator_address_ p))).
Proof.
  intros Hw Hv. unfold GetPhoneNumberFromAddress, skip_of. rewrite Hv. simpl.
  pose proof (wf_oa p Hw) as Ho.
  pose proof (oa_size_range _ (Hex2ToByte_range (ztake 2 (originator_address_ p)))).
  unfold substr_from, substr. rewrite (proj2 (Z.ltb_ge _ _)) by (case_match; lia). simpl.
  do 2 f_equal. unfold zslice. apply ztake_all. rewrite zlen_zdrop. case_match; lia.
Qed.

(** The number of a valid PDU, and the length of its semi-octets. *)
Lemma number_length p n :
  wf_pdu p -> BCDToString (zdrop (skip_of p) (originator_address_ p)) = n -> n <> [] ->
  zlen n + (if Z.odd (zlen n) then 1 else 0) = zlen (originator_address_ p) - skip_of p.
Proof.
  intros Hw Hn Hne. set (a := zdrop (skip_of p) (originator_address_ p)) in *.
  assert (Hs : skip_of p = 4 \/ (skip_of p = 6 /\ zlen (originator_address_ p) = 18)).
  { unfold skip_of. destruct (Z.eqb_spec (zlen (originator_address_ p)) 18); [right|left]; done. }
  pose proof (wf_oa p Hw) as Ho.
  pose proof (oa_size_range _ (Hex2ToByte_range (ztake 2 (originator_address_ p)))) as Hr.
  assert (Ha : zlen a = zlen (originator_address_ p) - skip_of p)
    by (unfold a; rewrite zlen_zdrop; lia).
  unfold BCDToString in Hn. case_bool_decide; [done|]. destruct (Z.odd (zlen a)) eqn:Eo; [done|].
  pose proof (zlen_nonneg a). case_bool_decide.
  - subst n. rewrite zlen_ztake, zlen_swap_pairs in *.
    assert (0 < zlen a). { destruct a as [|x a]; [done|]. zlen_lia. }
    rewrite Z.max_l, Z.min_l by lia.
    replace (Z.odd (zlen a - 1)) with true by (rewrite Z.odd_sub, Eo; done). lia.
  - subst n. rewrite zlen_swap_pairs, Eo. lia.
Qed.

(** A valid PDU whose number ends in the four digits of a port:
    [CreateRemotePDU] replaces these digits by the sender's port and changes
    nothing else, and the receiver's parser accepts what it makes. *)
Lemma CreateRemotePDU_delivers pdu host n :
  let p := DecodePDU pdu in
  is_valid_pdu_ p = true -> GetPhoneNumberFromAddress p = Ok n -> 4 <= zlen n < 2 ^ 63 ->
  zlen host = 4 -> Forall (fun c => is_digit c = true) host ->
  exists pdu' oa', CreateRemotePDU host p = Ok pdu' /\
    DecodePDU pdu' = mkPdu true (pdu_type_ p) (message_reference_ p) oa' (protocol_id_ p)
                       (data_code_scheme_ p) (user_data_ p) /\
    GetPhoneNumberFromAddress (DecodePDU pdu') = Ok (ztake (zlen n - 4) n ++ host).
Proof.
  intros p Hv Hn Hlen Hh Hd. destruct (DecodePDU_wf pdu Hv) as [Hw _]. fold p in Hw. clearbody p.
  pose proof Hn as Hn0. rewrite GetPhoneNumber_wf in Hn0 by done. injection Hn0 as Hn0.
  pose proof (number_length p n Hw Hn0 ltac:(intros ->; rewrite zlen_nil in Hlen; lia)) as Hnl.
  set (new := ztake (zlen n - 4) n ++ host).
  assert (Hnew : zlen new = zlen n) by (unfold new; rewrite zlen_app, zlen_ztake; lia).
  assert (Hpl : zlen (pad_F new) = zlen (originator_address_ p) - skip_of p).
  { unfold pad_F. rewrite Hnew, <- Hnl. destruct (Z.odd (zlen n)); [rewrite zlen_app, Hnew; done|lia]. }
  assert (Hs : 4 <= skip_of p <= 6) by (unfold skip_of; destruct (_ =? 18); lia).
  pose proof (zlen_nonneg (pad_F new)) as Hp0.
  set (oa' := ztake (skip_of p) (originator_address_ p) ++ swap_pairs (pad_F new)).
  assert (Hoa' : zlen oa' = zlen (originator_address_ p)).
  { unfold oa'. rewrite zlen_app, zlen_ztake, zlen_swap_pairs, Hpl. lia. }
  set (p' := mkPdu true (pdu_type_ p) (message_reference_ p) oa' (protocol_id_ p)
               (data_code_scheme_ p) (user_data_ p)).
  assert (Hw' : wf_pdu p').
  { destruct Hw. constructor; simpl; try done. rewrite Hoa'.
    assert (ztake 2 oa' = ztake 2 (originator_address_ p)) as ->; [|done].
    unfold oa'. rewrite ztake_app_le, ztake_ztake by (rewrite zlen_ztake; lia). f_equal. lia. }
  exists (kWithoutServiceCenterAddress ++ fields p'), oa'. split_and!.
  - unfold CreateRemotePDU. rewrite Hh, Hv, Hn. cbn [negb orb rbind Z.eqb Pos.eqb].
    rewrite (u64_id (zlen n - 4)) by (unfold is_u64; lia). fold new.
    change (if Z.odd (zlen new) then new ++ str "F" else new) with (pad_F new).
    rewrite Hpl. replace (zlen (originator_address_ p) - _) with (skip_of p) by lia.
    rewrite u64_id by (unfold is_u64; lia).
    unfold new at 1. rewrite BCD_pad_host by done. fold new.
    unfold fields. simpl. unfold oa'. by rewrite <- app_assoc.
  - by apply DecodePDU_build.
  - rewrite DecodePDU_build, GetPhoneNumber_wf by done. f_equal.
    assert (Hsk : skip_of p' = skip_of p) by (unfold skip_of; simpl; by rewrite Hoa').
    rewrite Hsk. simpl. unfold oa'. rewrite zdrop_app_ge, zlen_ztake by (rewrite zlen_ztake; lia).
    rewrite zdrop_0 by lia. apply BCD_swap_pad.
    + intros E. rewrite E, zlen_nil in Hnew. lia.
    + unfold new. rewrite last_app. destruct (last host) as [c|] eqn:El.
      * intros [= ->]. apply last_Some in El as [l' ->].
        rewrite Forall_app, Forall_cons in Hd. destruct Hd as (_ & Hd & _). done.
      * apply last_None in El. subst host. done.
Qed.

End PduParser.
