(* ===== verification/CallService.v ===== *)
(** * Voice calls (modem_simulator/call_service.{h,cpp})

    The state is the table of calls, the emergency and mute flags, the timer
    queue as far as this service uses it, and the counter of client ids; what
    the service sends is appended to [out].  The registration state, the fixed
    dialling list, the sockets and the clock are the environment [Env], which
    may differ at every step. *)
From S2P Require Import Prelude CppString ModemCommand ThreadLooper.

Module CallService.
Import CppString ModemCommand ThreadLooper.

Inductive CallState :=
  CALL_STATE_ACTIVE | CALL_STATE_HELD | CALL_STATE_DIALING | CALL_STATE_ALERTING
| CALL_STATE_INCOMING | CALL_STATE_WAITING | CALL_STATE_HANGUP.
#[global] Instance CallState_eq_dec : EqDecision CallState.
Proof. solve_decision. Defined.

Definition state_int (s : CallState) : Z :=
  match s with
  | CALL_STATE_ACTIVE => 0 | CALL_STATE_HELD => 1 | CALL_STATE_DIALING => 2
  | CALL_STATE_ALERTING => 3 | CALL_STATE_INCOMING => 4 | CALL_STATE_WAITING => 5
  | CALL_STATE_HANGUP => 6
  end.

Record CallStatus := mkCall {
  call_state : CallState;
  is_mobile_terminated : bool;
  is_international : bool;
  is_voice_mode : bool;
  is_multi_party : bool;
  is_remote_call : bool;
  remote_client : option Z;
  timeout_serial : option Z;
  number : bytes;
  can_present_number : bool
}.

(** [CallStatus(number)] leaves [is_remote_call] uninitialised: its value is an
    argument. *)
Definition CallStatus_ (uninit : bool) (number : bytes) : CallStatus :=
  mkCall CALL_STATE_INCOMING true false true false uninit None None number true.

Definition set_state (s : CallState) (c : CallStatus) : CallStatus :=
  mkCall s (is_mobile_terminated c) (is_international c) (is_voice_mode c) (is_multi_party c)
    (is_remote_call c) (remote_client c) (timeout_serial c) (number c) (can_present_number c).

Definition is_state (s : CallState) (c : CallStatus) : bool := bool_decide (call_state c = s).
Definition isCallBackground := is_state CALL_STATE_HELD.
Definition isCallActive := is_state CALL_STATE_ACTIVE.
Definition isCallDialing := is_state CALL_STATE_DIALING.
Definition isCallIncoming := is_state CALL_STATE_INCOMING.
Definition isCallWaiting := is_state CALL_STATE_WAITING.
Definition isCallAlerting := is_state CALL_STATE_ALERTING.

Definition SetCallBackground (c : CallStatus) : bool * CallStatus :=
  match call_state c with
  | CALL_STATE_ACTIVE => (true, set_state CALL_STATE_HELD c)
  | _ => (false, c)
  end.

Definition SetCallActive (c : CallStatus) : bool * CallStatus :=
  match call_state c with
  | CALL_STATE_INCOMING | CALL_STATE_WAITING | CALL_STATE_DIALING | CALL_STATE_HELD =>
      (true, set_state CALL_STATE_ACTIVE c)
  | _ => (false, c)
  end.

(** The callbacks this service posts. *)
Inductive Callback :=
| SimulatePendingCallsAnswered_cb
| TimerWaitingRemoteCallResponse_cb (token : Z * bytes)
| CallStateUpdate_cb.

Record Service := mkService {
  active_calls_ : list (Z * CallStatus);
  in_emergency_mode_ : bool;
  mute_on_ : bool;
  looper : Looper Callback;
  next_client_id : Z;
  out : list Output
}.

Inductive RegistrationState :=
  NET_REGISTRATION_UNREGISTERED | NET_REGISTRATION_HOME | NET_REGISTRATION_SEARCHING
| NET_REGISTRATION_DENIED | NET_REGISTRATION_UNKNOWN | NET_REGISTRATION_ROAMING
| NET_REGISTRATION_EMERGENCY.
#[global] Instance RegistrationState_eq_dec : EqDecision RegistrationState.
Proof. solve_decision. Defined.

Record Env := mkEnv {
  network_service_ : option RegistrationState;  (* GetVoiceRegistrationState, None: no service *)
  radio_off : bool;
  IsFDNEnabled : bool;
  IsFixedDialNumber : bytes -> result bool;     (* of sim_service_, may throw *)
  ConnectToRemoteCvd : bytes -> bool;           (* whether the socket is open *)
  host_id : Z;
  channel_monitor_ : bool;                      (* whether there is one *)
  now : Z;                                      (* steady clock, seconds *)
  uninit : bool                                 (* what uninitialised memory holds *)
}.

Definition set_calls (m : list (Z * CallStatus)) (s : Service) : Service :=
  mkService m (in_emergency_mode_ s) (mute_on_ s) (looper s) (next_client_id s) (out s).
Definition set_emergency (b : bool) (s : Service) : Service :=
  mkService (active_calls_ s) b (mute_on_ s) (looper s) (next_client_id s) (out s).
Definition set_mute (b : bool) (s : Service) : Service :=
  mkService (active_calls_ s) (in_emergency_mode_ s) b (looper s) (next_client_id s) (out s).
Definition set_looper (l : Looper Callback) (s : Service) : Service :=
  mkService (active_calls_ s) (in_emergency_mode_ s) (mute_on_ s) l (next_client_id s) (out s).
Definition emit (os : list Output) (s : Service) : Service :=
  mkService (active_calls_ s) (in_emergency_mode_ s) (mute_on_ s) (looper s) (next_client_id s)
    (out s ++ os).

(** The loop of [FindFreeCallIndex]; there is a free index among the first
    [size() + 1]. *)
Fixpoint find_free (fuel : nat) (index : Z) (m : list (Z * CallStatus)) : result Z :=
  match fuel with
  | O => Fuel
  | S fuel => match map_find index m with
              | None => Ok index
              | Some _ => find_free fuel (index + 1) m
              end
  end.
Definition FindFreeCallIndex (s : Service) : result Z :=
  find_free (S (length (active_calls_ s))) 1 (active_calls_ s).

(** A pass over the table that updates or erases each call and sends. *)
Fixpoint for_calls (f : CallStatus -> list Output * option CallStatus) (m : list (Z * CallStatus))
  : list Output * list (Z * CallStatus) :=
  match m with
  | [] => ([], [])
  | (i, c) :: m' =>
      let '(o, r) := f c in
      let '(os, m'') := for_calls f m' in
      (o ++ os, match r with Some c' => (i, c') :: m'' | None => m'' end)
  end.

Definition run_pass (f : CallStatus -> list Output * option CallStatus) (s : Service) : Service :=
  let '(os, m) := for_calls f (active_calls_ s) in emit os (set_calls m s).

Section handlers.
Context `{Absl} (env : Env).

Definition GetHostId : bytes := to_string (host_id env).
Definition monitored (os : list Output) : list Output := if channel_monitor_ env then os else [].
Definition reply (line : bytes) : M Service unit := modify (emit [Response [line]]).
Definition replies (lines : list bytes) : M Service unit := modify (emit [Response lines]).

(** ** Timers *)
Definition PostCallback (c : Callback) (delay : Z) (s : Service) : Z * Service :=
  let '(serial, l) := Post (now env) c delay (looper s) in (serial, set_looper l s).

Definition SimulatePendingCallsAnswered (s : Service) : Service :=
  run_pass (fun c => ([], Some (if isCallDialing c then (SetCallActive c).2 else c))) s.

Definition CallStateUpdate (s : Service) : Service := emit (monitored [Unsolicited (str "RING")]) s.

Definition TimerWaitingRemoteCallResponse (call_token : Z * bytes) (s : Service) : Service :=
  match map_find call_token.1 (active_calls_ s) with
  | Some c =>
      if bool_decide (number c = call_token.2) then
        let s := match remote_client c with
                 | Some id => emit (monitored [CloseRemote id]) s
                 | None => s
                 end in
        CallStateUpdate (set_calls (map_erase call_token.1 (active_calls_ s)) s)
      else s
  | None => s
  end.

Definition run_callback (c : Callback) (s : Service) : Service :=
  match c with
  | SimulatePendingCallsAnswered_cb => SimulatePendingCallsAnswered s
  | TimerWaitingRemoteCallResponse_cb t => TimerWaitingRemoteCallResponse t s
  | CallStateUpdate_cb => CallStateUpdate s
  end.

(** ** ATD *)
(** The number in the command, without 'D', category and clir, and whether it
    is an emergency number; positions are size_t. *)
Definition dial_number (cmd : bytes) : result (bytes * bool) :=
  match find_last_of "@"%char cmd with
  | Some pos => let* n := substr 1 (u64 (pos - 1)) cmd in Ok (n, true)
  | None =>
      let pos := match find_last_of "i"%char cmd with
                 | Some p => Some p
                 | None => match find_last_of "I"%char cmd with
                           | Some p => Some p
                           | None => find_last_of ";"%char cmd
                           end
                 end in
      match pos with
      | None => let* n := substr_from 1 cmd in Ok (n, false)
      | Some pos => let* n := substr 1 (u64 (pos - 1)) cmd in Ok (n, false)
      end
  end.

(** The number of a remote device, from all or the last four digits. *)
Definition dial_port (number : bytes) : result Z :=
  if zlen number =? 11 then let* p := substr_from 7 number in stoi p
  else if zlen number =? 4 then stoi number
  else Ok 0.

Definition in_remote_range (port : Z) : bool :=
  (kRemotePortRange.1 <=? port) && (port <=? kRemotePortRange.2).

(** "AT+REMOTECALL=4,0,0,<host>,129". *)
Definition remote_call_command (state mode mpty : bytes) (host num_type : bytes) : bytes :=
  str "AT+REMOTECALL=" ++ state ++ comma :: mode ++ comma :: mpty ++ comma ::
    dquote :: host ++ dquote :: comma :: num_type.

Definition dial_remote (port : Z) (s : Service) : result unit * Service :=
  let remote_port := to_string port in
  let remote_open := ConnectToRemoteCvd env remote_port in
  let client_id := next_client_id s in
  let s := mkService (active_calls_ s) (in_emergency_mode_ s) (mute_on_ s) (looper s)
             (client_id + 1) (out s) in
  if negb remote_open then reply kCmeErrorNoNetworkService s
  else if bool_decide (GetHostId = remote_port) then reply kCmeErrorOperationNotAllowed s
  else
    let '(client_id, s) :=
      if channel_monitor_ env then
        (next_client_id s,
         mkService (active_calls_ s) (in_emergency_mode_ s) (mute_on_ s) (looper s)
           (next_client_id s + 1) (out s))
      else (client_id, s) in
    let s := emit (monitored [ToRemote client_id (str "REM0");
                              ToRemote client_id
                                (remote_call_command (str "4") (str "0") (str "0") GetHostId (str "129"))]) s in
    match FindFreeCallIndex s with
    | Ok index =>
        let '(serial, s) :=
          PostCallback (TimerWaitingRemoteCallResponse_cb (index, remote_port)) 60 s in
        let call_status :=
          mkCall CALL_STATE_DIALING false false true false true (Some client_id) (Some serial)
            remote_port true in
        let s := set_calls (map_set index call_status (active_calls_ s)) s in
        reply (str "OK") s
    | r => (fail_as r, s)
    end.

Definition dial_local (number : bytes) (emergency_number : bool) (s : Service)
  : result unit * Service :=
  match FindFreeCallIndex s with
  | Ok index =>
      let call_status :=
        mkCall CALL_STATE_DIALING false false true false (uninit env) None None number true in
      let s := set_calls (map_set index call_status (active_calls_ s)) s in
      let s := if emergency_number
               then emit (monitored [Unsolicited (str "+WSOS: 1")]) (set_emergency true s) else s in
      let '(_, s) := PostCallback SimulatePendingCallsAnswered_cb 1 s in
      reply (str "OK") s
  | r => (fail_as r, s)
  end.

(** Whether the fixed dialling numbers of the card allow the call. *)
Definition may_dial (number : bytes) (emergency_number : bool) : M Service bool :=
  if negb emergency_number && IsFDNEnabled env then lift (IsFixedDialNumber env number) else mret true.

Definition HandleDial (command : bytes) : M Service unit :=
  let registration_state :=
    match network_service_ env with Some r => r | None => NET_REGISTRATION_UNKNOWN end in
  let dial (emergency_only : bool) : M Service unit :=
    let cmd := SkipPrefixAT command in
    let! (number, emergency_number) := lift (dial_number cmd) in
    if negb (forallb is_digit number) then reply kCmeErrorInCorrectParameters
    else if emergency_only && negb emergency_number
    then reply kCmeErrorNetworkNotAllowedEmergencyCallsOnly
    else
      let! allowed := may_dial number emergency_number in
      if negb allowed then reply kCmeErrorFixedDialNumberOnlyAllowed
      else
        let! port := lift (dial_port number) in
        if in_remote_range port then dial_remote port else dial_local number emergency_number in
  match registration_state with
  | NET_REGISTRATION_HOME | NET_REGISTRATION_ROAMING => dial false
  | NET_REGISTRATION_EMERGENCY => dial true
  | _ => reply kCmeErrorNoNetworkService
  end.

(** ** Telling the other device *)
Definition SendCallStatusToRemote (call : CallStatus) (state : CallState) : list Output :=
  match remote_client call with
  | Some id =>
      if is_remote_call call then
        monitored (ToRemote id (remote_call_command (to_string (state_int state))
                     (show_bool (is_voice_mode call)) (show_bool (is_multi_party call)) GetHostId
                     (show_bool (is_international call))) ::
                   (if bool_decide (state = CALL_STATE_HANGUP) then [CloseRemote id] else []))
      else []
  | None => []
  end.

(** What a pass does to a call: keep it, change its state and tell, or tell and
    erase it. *)
Definition keep (c : CallStatus) : list Output * option CallStatus := ([], Some c).
Definition activate (c : CallStatus) : list Output * option CallStatus :=
  let c := (SetCallActive c).2 in (SendCallStatusToRemote c CALL_STATE_ACTIVE, Some c).
Definition hold (c : CallStatus) : list Output * option CallStatus :=
  let c := (SetCallBackground c).2 in (SendCallStatusToRemote c CALL_STATE_HELD, Some c).
Definition hang_up (c : CallStatus) : list Output * option CallStatus :=
  (SendCallStatusToRemote c CALL_STATE_HANGUP, None).

Definition HandleAcceptCall : M Service unit :=
  let! _ := modify (run_pass (fun c => if isCallIncoming c then activate c
                                       else if isCallActive c then hold c else keep c)) in
  reply (str "OK").

Definition HandleRejectCall : M Service unit :=
  let! _ := modify (run_pass (fun c => if isCallIncoming c then hang_up c else keep c)) in
  reply (str "OK").

Definition clcc_line (p : Z * CallStatus) : bytes :=
  let '(index, c) := p in
  str "+CLCC: " ++ to_string index ++ comma :: show_bool (is_mobile_terminated c) ++ comma ::
    to_string (state_int (call_state c)) ++ comma :: show_bool (is_voice_mode c) ++ comma ::
    show_bool (is_multi_party c) ++ comma :: number c ++ comma ::
    (if is_international c then str "145" else str "129").

Definition HandleCurrentCalls : M Service unit := fun s =>
  replies ((clcc_line <$> active_calls_ s) ++ [str "OK"]) s.

(** ** AT+CHLD *)
(** Release the call with an index. *)
Definition hang_up_index (index : Z) (s : Service) : Service :=
  match map_find index (active_calls_ s) with
  | Some c => emit (SendCallStatusToRemote c CALL_STATE_HANGUP)
                (set_calls (map_erase index (active_calls_ s)) s)
  | None => s
  end.

Definition resume_held (c : CallStatus) : list Output * option CallStatus :=
  if isCallBackground c then activate c else keep c.

Definition HandleHangup (command : bytes) : M Service unit :=
  let action := SkipPrefix command in
  let n := match action with [] => -1 | c :: _ => Z_of_byte c - 48 end in
  let! index := lift (if 1 <? zlen action then let* rest := substr_from 1 action in stoi rest
                      else Ok (-1)) in
  match n with
  | 0 => let! _ := modify (run_pass (fun c =>
           if isCallIncoming c || isCallBackground c || isCallWaiting c then hang_up c else keep c)) in
         reply (str "OK")
  | 1 => let! _ := modify (if index =? -1 then
           run_pass (fun c => if isCallActive c then hang_up c
                              else if isCallBackground c || isCallWaiting c then activate c else keep c)
           else hang_up_index index) in
         reply (str "OK")
  | 2 => let! _ := modify (if index =? -1 then
           run_pass (fun c => if isCallActive c || isCallWaiting c then hold c
                              else if isCallBackground c then activate c else keep c)
           else hang_up_index index) in
         reply (str "OK")
  | 3 => let! _ := modify (run_pass resume_held) in reply (str "OK")
  | 4 => let! _ := modify (run_pass resume_held) in reply (str "OK")
  | _ => reply kCmeErrorOperationNotAllowed
  end.

(** ** Flags *)
Definition HandleMute (command : bytes) : M Service unit := fun s =>
  let cmd := SkipPrefix command in
  if bool_decide (cmd = str "AT+CMUT?")
  then replies [str "+CMUT: " ++ show_bool (mute_on_ s); str "OK"] s
  else match (GetNextInt cmd).1 with
       | 0 => replies [str "OK"] (set_mute false s)
       | 1 => replies [str "OK"] (set_mute true s)
       | _ => reply kCmeErrorInCorrectParameters s
       end.

Definition HandleSendDtmf (command : bytes) : M Service unit := reply (str "OK").
Definition HandleCancelUssd (command : bytes) : M Service unit := reply (str "OK").

(** The answer to the query is collected, but only "OK" is sent. *)
Definition HandleEmergencyMode (command : bytes) : M Service unit := fun s =>
  let cmd := SkipPrefix command in
  if bool_decide (cmd = str "AT+WSOS?") then reply (str "OK") s
  else match (GetNextInt cmd).1 with
       | 0 => reply (str "OK") (emit [SaveNvram false] (set_emergency false s))
       | 1 => reply (str "OK") (emit [SaveNvram true] (set_emergency true s))
       | _ => reply kCmeErrorInCorrectParameters s
       end.

(** ** AT+REMOTECALL *)
(** [thread_looper_->CancelSerial] of the call's timer, if it has one. *)
Definition cancel_timer (c : CallStatus) (s : Service) : Service :=
  match timeout_serial c with
  | Some serial => set_looper (CancelSerial serial (looper s)).2 s
  | None => s
  end.

Definition find_number (n : bytes) (m : list (Z * CallStatus)) : option (Z * CallStatus) :=
  find (fun p => bool_decide (number p.2 = n)) m.

(** The switch of [HandleRemoteCall]; [client] is the id of the client that sent
    the command. *)
Definition remote_call (client state mode mpty : Z) (num : bytes) (num_type : Z) : M Service unit := fun s =>
  let iter := find_number num (active_calls_ s) in
  let posted (s : Service) := (Ok tt, (PostCallback CallStateUpdate_cb 0 s).2) in
  match state with
  | 0 => posted (match iter with
                 | Some (i, c) =>
                     cancel_timer c (set_calls (map_set i (SetCallActive c).2 (active_calls_ s)) s)
                 | None => s
                 end)
  | 1 => posted (match iter with
                 | Some (i, c) =>
                     cancel_timer c (set_calls (map_set i (SetCallBackground c).2 (active_calls_ s)) s)
                 | None => s
                 end)
  | 6 => posted (match iter with
                 | Some (i, c) =>
                     let s := match remote_client c with
                              | Some id => emit (monitored [CloseRemote id]) s
                              | None => s
                              end in
                     set_calls (map_erase i (active_calls_ s)) (cancel_timer c s)
                 | None => s
                 end)
  | 4 => if bool_decide (is_Some (network_service_ env)) && radio_off env
         then (Ok tt, emit (monitored [CloseRemote client]) s)
         else match FindFreeCallIndex s with
              | Ok index =>
                  let call_status :=
                    mkCall CALL_STATE_INCOMING true (num_type =? 145) (negb (mode =? 0))
                      (negb (mpty =? 0)) true (Some client) None num true in
                  posted (set_calls (map_set index call_status (active_calls_ s)) s)
              | r => (fail_as r, s)
              end
  | _ => (Ok tt, s)
  end.

Definition HandleRemoteCall (client : Z) (command : bytes) : M Service unit :=
  let cmd := SkipPrefix command in
  let '(state, cmd) := GetNextInt cmd in
  let '(mode, cmd) := GetNextInt cmd in
  let '(mpty, cmd) := GetNextInt cmd in
  let '(num, cmd) := GetNextStr cmd in
  let '(num_type, cmd) := GetNextInt cmd in
  remote_call client state mode mpty num num_type.

(** ** Dispatch *)
Inductive Handler :=
  HDial | HAccept | HReject | HCurrentCalls | HHangup | HMute | HDtmf | HUssd | HEmergency
| HRemoteCall.

Definition InitializeCommandHandlers : list (CommandHandler Handler) :=
  [ mkHandler (str "D") PARTIAL_MATCH HDial;
    mkHandler (str "A") FULL_MATCH HAccept;
    mkHandler (str "H") FULL_MATCH HReject;
    mkHandler (str "+CLCC") FULL_MATCH HCurrentCalls;
    mkHandler (str "+CHLD=") PARTIAL_MATCH HHangup;
    mkHandler (str "+CMUT") PARTIAL_MATCH HMute;
    mkHandler (str "+VTS=") PARTIAL_MATCH HDtmf;
    mkHandler (str "+CUSD=") PARTIAL_MATCH HUssd;
    mkHandler (str "+WSOS=0") PARTIAL_MATCH HEmergency;
    mkHandler (str "+REMOTECALL") PARTIAL_MATCH HRemoteCall ].

Definition run_handler (client : Z) (command : bytes) (h : Handler) : M Service unit :=
  match h with
  | HDial => HandleDial command
  | HAccept => HandleAcceptCall
  | HReject => HandleRejectCall
  | HCurrentCalls => HandleCurrentCalls
  | HHangup => HandleHangup command
  | HMute => HandleMute command
  | HDtmf => HandleSendDtmf command
  | HUssd => HandleCancelUssd command
  | HEmergency => HandleEmergencyMode command
  | HRemoteCall => HandleRemoteCall client command
  end.

(** [HandleModemCommand] of this service: whether a handler took the command. *)
Definition handle (client : Z) (command : bytes) : M Service bool :=
  match HandleModemCommand InitializeCommandHandlers command with
  | Some h => let! _ := run_handler client command h in mret true
  | None => mret false
  end.

(** One turn of the looper thread. *)
Definition turn (s : Service) : Service :=
  let '(t, l) := ThreadLoop_turn (now env) (looper s) in
  match t with
  | Run c => run_callback c (set_looper l s)
  | _ => s
  end.
End handlers.

(** [CallService(...)]: the mode comes from the NVRAM configuration. *)
Definition CallService_ (emergency_mode : bool) (next_id : Z) : Service :=
  mkService [] emergency_mode false ThreadLooper_ next_id [].
(** ** Free indices *)
Lemma find_free_spec fuel i m :
  match find_free fuel i m with
  | Ok j => i <= j /\ map_find j m = None /\ forall k, i <= k < j -> is_Some (map_find k m)
  | Fuel => forall k, i <= k < i + Z.of_nat fuel -> is_Some (map_find k m)
  | _ => False
  end.
Proof.
  revert i. induction fuel as [|fuel IH]; intros i; simpl; [intros; lia|].
  destruct (map_find i m) eqn:E; [|split_and!; [lia|done|intros; lia]].
  specialize (IH (i + 1)). destruct (find_free fuel (i + 1) m) as [j| | |]; try done.
  - destruct IH as (H1 & H2 & H3). split_and!; [lia|done|]. intros k Hk.
    destruct (decide (k = i)) as [->|]; [by rewrite E|apply H3; lia].
  - intros k Hk. destruct (decide (k = i)) as [->|]; [by rewrite E|apply IH; lia].
Qed.

Lemma FindFreeCallIndex_spec s :
  exists index, FindFreeCallIndex s = Ok index /\ 1 <= index /\
    map_find index (active_calls_ s) = None /\
    forall k, 1 <= k < index -> is_Some (map_find k (active_calls_ s)).
Proof.
  unfold FindFreeCallIndex. set (m := active_calls_ s).
  pose proof (find_free_spec (S (length m)) 1 m) as H.
  destruct (find_free _ 1 m) as [j| | |]; [naive_solver|done|done|]. exfalso.
  assert (Hsub : seqZ 1 (Z.of_nat (S (length m))) ⊆+ m.*1).
  { apply NoDup_submseteq; [apply NoDup_seqZ|]. intros k Hk%elem_of_seqZ.
    destruct (H k) as [c Hc]; [lia|]. apply map_find_elem in Hc.
    by apply (list_elem_of_fmap_2 fst) in Hc. }
  apply submseteq_length in Hsub. rewrite length_seqZ, length_fmap in Hsub. lia.
Qed.

(** ** Passes over the table *)
Lemma for_calls_spec f m :
  for_calls f m = (concat ((fun p => (f p.2).1) <$> m), omap (fun p => (p.1,.) <$> (f p.2).2) m).
Proof.
  induction m as [|[i c] m IH]; simpl; [done|]. rewrite IH.
  destruct (f c) as [o [c'|]]; done.
Qed.

Lemma run_pass_calls f s :
  active_calls_ (run_pass f s) = omap (fun p => (p.1,.) <$> (f p.2).2) (active_calls_ s).
Proof. unfold run_pass. by rewrite for_calls_spec. Qed.

Lemma pass_keys (f : CallStatus -> list Output * option CallStatus) (m : list (Z * CallStatus)) :
  sublist (omap (fun p => (p.1,.) <$> (f p.2).2) m : list (Z * CallStatus)).*1 m.*1.
Proof.
  induction m as [|[i c] m IH]; simpl; [done|]. destruct (f c).2; simpl; by constructor.
Qed.

Lemma pass_find (f : CallStatus -> list Output * option CallStatus) (m : list (Z * CallStatus)) i :
  map_sorted m ->
  map_find i (omap (fun p => (p.1,.) <$> (f p.2).2) m) = map_find i m ≫= (fun c => (f c).2).
Proof.
  unfold map_sorted. induction m as [|[j c] m IH]; simpl; [done|].
  intros [Hs Hj]%StronglySorted_inv. specialize (IH Hs).
  destruct (f c).2 as [c'|] eqn:Ef; simpl; destruct (Z.eqb_spec j i) as [->|]; rewrite ?IH; try done.
  simpl. rewrite Ef. destruct (map_find i m) eqn:E; [|done].
  apply map_find_elem, (list_elem_of_fmap_2 fst) in E. rewrite Forall_forall in Hj.
  apply Hj in E. simpl in E. lia.
Qed.

(** ** The invariant of the table *)
Record ok_call (c : CallStatus) : Prop := {
  ok_state : call_state c ∈ [CALL_STATE_ACTIVE; CALL_STATE_HELD; CALL_STATE_DIALING; CALL_STATE_INCOMING];
  ok_dialing : call_state c = CALL_STATE_DIALING -> is_mobile_terminated c = false;
  ok_incoming : call_state c = CALL_STATE_INCOMING ->
    is_mobile_terminated c = true /\ is_remote_call c = true /\ is_Some (remote_client c);
  ok_timer : is_Some (timeout_serial c) ->
    is_mobile_terminated c = false /\ is_remote_call c = true /\ is_Some (remote_client c)
}.

Definition calls_inv (s : Service) : Prop :=
  map_sorted (active_calls_ s) /\
  Forall (fun p => 1 <= p.1 /\ ok_call p.2) (active_calls_ s).

Lemma ok_call_states s c :
  s = CALL_STATE_ACTIVE \/ s = CALL_STATE_HELD -> ok_call c -> ok_call (set_state s c).
Proof.
  intros Hs []. constructor; simpl; try done; destruct Hs as [-> | ->]; try done; set_solver.
Qed.

Lemma ok_call_active c : ok_call c -> ok_call (SetCallActive c).2.
Proof.
  intros Hc. unfold SetCallActive. destruct (call_state c); try done; apply ok_call_states; auto.
Qed.
Lemma ok_call_background c : ok_call c -> ok_call (SetCallBackground c).2.
Proof.
  intros Hc. unfold SetCallBackground. destruct (call_state c); try done; apply ok_call_states; auto.
Qed.

Definition ok_pass (f : CallStatus -> list Output * option CallStatus) : Prop :=
  forall c c', ok_call c -> (f c).2 = Some c' -> ok_call c'.

Create HintDb calls.
#[local] Hint Resolve ok_call_active ok_call_background : calls.

Lemma ok_pass_if (b : CallStatus -> bool) f g :
  ok_pass f -> ok_pass g -> ok_pass (fun c => if b c then f c else g c).
Proof. intros Hf Hg c c'. destruct (b c); [apply Hf|apply Hg]. Qed.
Lemma ok_pass_keep : ok_pass keep.
Proof. intros c c' ? [= <-]. done. Qed.
Lemma ok_pass_hang_up env : ok_pass (hang_up env).
Proof. intros c c' ? [=]. Qed.
Lemma ok_pass_activate env : ok_pass (activate env).
Proof. intros c c' ? [= <-]. auto with calls. Qed.
Lemma ok_pass_hold env : ok_pass (hold env).
Proof. intros c c' ? [= <-]. auto with calls. Qed.
#[local] Hint Resolve ok_pass_if ok_pass_keep ok_pass_hang_up ok_pass_activate ok_pass_hold : calls.

Lemma calls_inv_calls s s' :
  active_calls_ s = active_calls_ s' -> calls_inv s -> calls_inv s'.
Proof. unfold calls_inv. by intros ->. Qed.

Lemma calls_inv_pass f s : ok_pass f -> calls_inv s -> calls_inv (run_pass f s).
Proof.
  intros Hf [Hs Ha]. unfold calls_inv. rewrite run_pass_calls. split.
  - unfold map_sorted. eapply sublist_StronglySorted; [apply pass_keys|done].
  - rewrite Forall_forall in *. intros p Hp.
    apply list_elem_of_omap in Hp as ([i c] & Hin & Hc). simpl in Hc.
    apply fmap_Some in Hc as (c' & Hc & ->). destruct (Ha _ Hin). simpl in *. eauto.
Qed.

Lemma calls_inv_set i c s :
  1 <= i -> ok_call c -> calls_inv s -> calls_inv (set_calls (map_set i c (active_calls_ s)) s).
Proof.
  intros Hi Hc [Hs Ha]. split; [by apply map_sorted_set|]. simpl. rewrite Forall_forall in *.
  intros p [->|Hp]%elem_of_map_set; [done|auto].
Qed.

Lemma calls_inv_erase i s : calls_inv s -> calls_inv (set_calls (map_erase i (active_calls_ s)) s).
Proof.
  intros [Hs Ha]. split; [by apply map_sorted_erase|]. simpl. rewrite Forall_forall in *.
  intros p Hp%elem_of_map_erase. auto.
Qed.

(** The same with the other fields changed too. *)
Lemma calls_inv_add i c s s' :
  active_calls_ s' = map_set i c (active_calls_ s) -> 1 <= i -> ok_call c -> calls_inv s -> calls_inv s'.
Proof. intros E Hi Hc Hs. eapply calls_inv_calls; [|by apply (calls_inv_set i c s)]. done. Qed.
Lemma calls_inv_remove i s s' :
  active_calls_ s' = map_erase i (active_calls_ s) -> calls_inv s -> calls_inv s'.
Proof. intros E Hs. eapply calls_inv_calls; [|by apply (calls_inv_erase i s)]. done. Qed.

Section invariant.
Context `{Absl}.
Implicit Types (env : Env) (s : Service).

(** Two commands that leave the table as it is do not affect the invariant. *)
Ltac same_calls := eapply calls_inv_calls; [|eassumption]; reflexivity.

Lemma calls_inv_hang_up_index env i s : calls_inv s -> calls_inv (hang_up_index env i s).
Proof.
  intros Hi. unfold hang_up_index. destruct (map_find i (active_calls_ s)); [|done].
  by eapply (calls_inv_remove i).
Qed.

Lemma calls_inv_callback env cb s : calls_inv s -> calls_inv (run_callback env cb s).
Proof.
  intros Hi. destruct cb as [|[i n]|]; simpl.
  - apply calls_inv_pass; [|done]. intros c c' Hc [= <-]. destruct (isCallDialing c); auto with calls.
  - unfold TimerWaitingRemoteCallResponse. simpl.
    destruct (map_find i (active_calls_ s)) as [c|]; [|done]. case_bool_decide; [|done].
    destruct (remote_client c); by eapply (calls_inv_remove i).
  - same_calls.
Qed.

Lemma calls_inv_dial_remote env port s :
  calls_inv s -> calls_inv (dial_remote env port s).2.
Proof.
  intros Hi. unfold dial_remote. destruct (ConnectToRemoteCvd _ _); [|same_calls].
  cbn [negb]. case_bool_decide; [same_calls|].
  destruct (channel_monitor_ env); cbv beta iota zeta;
    (match goal with |- context [FindFreeCallIndex ?x] =>
       destruct (FindFreeCallIndex_spec x) as (index & Hf & Hge & _) end);
    rewrite Hf; (eapply (calls_inv_add index _ s); [reflexivity|done| |done]);
    constructor; simpl; try done; set_solver.
Qed.

Lemma calls_inv_dial_local env n e s : calls_inv s -> calls_inv (dial_local env n e s).2.
Proof.
  intros Hi. unfold dial_local. destruct (FindFreeCallIndex_spec s) as (index & Hf & Hge & _).
  rewrite Hf. destruct e; (eapply (calls_inv_add index _ s); [reflexivity|done| |done]);
    constructor; simpl; try done; try set_solver; by intros [].
Qed.

(** The check of fixed dialling numbers does not change the calls. *)
Lemma fdn_check env n e s :
  exists r, may_dial env n e s = (r, s).
Proof. unfold may_dial. destruct (negb e && IsFDNEnabled env); unfold lift, mret; eauto. Qed.

Lemma calls_inv_HandleDial env command s : calls_inv s -> calls_inv (HandleDial env command s).2.
Proof.
  intros Hi. unfold HandleDial. destruct (network_service_ env) as [[]|]; try same_calls;
    unfold mbind, lift; destruct (dial_number _) as [[n e]| | |]; try done;
    repeat (match goal with |- context [if ?b then reply _ else _] => destruct b; [same_calls|] end);
    destruct (fdn_check env n e s) as [[[]| | |] ->]; cbn [negb]; try done; try (by same_calls);
    destruct (dial_port n) as [port| | |]; try done;
    (destruct (in_remote_range port); [by apply calls_inv_dial_remote|by apply calls_inv_dial_local]).
Qed.

Lemma calls_inv_remote_call env client st mode mpty num nt s :
  calls_inv s -> calls_inv (remote_call env client st mode mpty num nt s).2.
Proof.
  intros Hi. unfold remote_call. cbv zeta.
  assert (Hf : forall i c, find_number num (active_calls_ s) = Some (i, c) -> 1 <= i /\ ok_call c).
  { intros i c Hf. apply find_some in Hf as [Hin _]. apply list_elem_of_In in Hin.
    destruct Hi as [_ Ha]. rewrite Forall_forall in Ha. by apply (Ha (i, c)). }
  assert (Hset : forall i c c', find_number num (active_calls_ s) = Some (i, c) -> ok_call c' ->
    calls_inv (PostCallback env CallStateUpdate_cb 0
      (cancel_timer c (set_calls (map_set i c' (active_calls_ s)) s))).2).
  { intros i c c' E Hc'. destruct (Hf i c E) as [H1 H2]. unfold cancel_timer.
    destruct (timeout_serial c); by eapply (calls_inv_add i c'). }
  destruct (find_number num (active_calls_ s)) as [[i c]|] eqn:Efn;
    [destruct (Hf i c eq_refl) as [Hi1 Hc]|];
    (destruct st as [|p|p]; [|do 3 (try destruct p as [p|p|]; try exact Hi)|exact Hi]);
    try same_calls; try (apply Hset; auto with calls).
  2, 3: destruct (_ && _); [same_calls|]; destruct (FindFreeCallIndex_spec s) as (index & Hx & Hge & _);
    rewrite Hx; (eapply (calls_inv_add index _ s); [reflexivity|done| |done]);
    constructor; simpl; try done; try set_solver; by intros [].
  all: cbn [snd]; unfold cancel_timer; destruct (remote_client c), (timeout_serial c);
    by eapply (calls_inv_remove i).
Qed.

Lemma calls_inv_HandleRemoteCall env client command s :
  calls_inv s -> calls_inv (HandleRemoteCall env client command s).2.
Proof.
  intros Hi. unfold HandleRemoteCall. repeat case_match. by apply calls_inv_remote_call.
Qed.

Lemma calls_inv_HandleHangup env command s : calls_inv s -> calls_inv (HandleHangup env command s).2.
Proof.
  intros Hi. unfold HandleHangup, mbind at 1, lift at 1.
  destruct (if 1 <? zlen (SkipPrefix command) then _ else _) as [index| | |]; try done.
  assert (Hp : forall f r, ok_pass f ->
    calls_inv ((let! _ := modify (run_pass f) in reply r) s).2).
  { intros f r Hf. eapply calls_inv_calls; [|by apply (calls_inv_pass f s)]. done. }
  assert (Hx : forall f r i (b : bool), ok_pass f ->
    calls_inv ((let! _ := modify (if b then run_pass f else hang_up_index env i) in reply r) s).2).
  { intros f r i [] Hf; [by apply Hp|].
    eapply calls_inv_calls; [|by apply (calls_inv_hang_up_index env i s)]. done. }
  destruct (match SkipPrefix command with [] => _ | _ => _ end) as [|p|p]; [| |same_calls].
  { apply Hp. auto with calls. }
  do 3 (try destruct p as [p|p|]; try same_calls); try apply Hp; try apply Hx;
    unfold resume_held; auto 10 with calls.
Qed.

(** Every command keeps the invariant. *)
Lemma calls_inv_handle env client command s :
  calls_inv s -> calls_inv (handle env client command s).2.
Proof.
  intros Hi. unfold handle. destruct (HandleModemCommand _ _) as [h|]; [|done].
  enough (Hh : calls_inv (run_handler env client command h s).2).
  { unfold mbind. by destruct (run_handler env client command h s) as [[] s1]. }
  destruct h; simpl.
  - by apply calls_inv_HandleDial.
  - eapply calls_inv_calls; [|apply (calls_inv_pass (fun c => if isCallIncoming c then activate env c
      else if isCallActive c then hold env c else keep c) s); auto with calls]. done.
  - eapply calls_inv_calls; [|apply (calls_inv_pass (fun c => if isCallIncoming c then hang_up env c
      else keep c) s); auto with calls]. done.
  - same_calls.
  - by apply calls_inv_HandleHangup.
  - unfold HandleMute. repeat case_match; same_calls.
  - same_calls.
  - same_calls.
  - unfold HandleEmergencyMode. repeat case_match; same_calls.
  - by apply calls_inv_HandleRemoteCall.
Qed.

(** ** Runs of the service *)
Inductive reachable : Service -> Prop :=
| reach_init e n : reachable (CallService_ e n)
| reach_command env client command b s s' :
    reachable s -> handle env client command s = (Ok b, s') -> reachable s'
| reach_turn env s : reachable s -> reachable (turn env s).

(** C10. In every state the service reaches, whatever commands and remote
    messages arrive and timers run in whatever environment: calls have distinct
    positive indices in increasing order; each is active, held, dialing or
    incoming (never alerting, waiting or hung up); a dialing call was made here,
    an incoming one comes from a remote device whose connection is known, and
    only calls made to a remote device carry a timer. *)
Theorem calls_invariant s : reachable s -> calls_inv s.
Proof.
  induction 1 as [e n|env client command b s s' _ IH Hh|env s _ IH].
  - split; simpl; constructor.
  - apply (calls_inv_handle env client command) in IH. by rewrite Hh in IH.
  - unfold turn. destruct (ThreadLoop_turn _ _) as [[] l]; [done|done|].
    apply calls_inv_callback. same_calls.
Qed.
End invariant.


(** ** Which handler runs, and that it returns *)
Lemma dispatch_dial r :
  HandleModemCommand InitializeCommandHandlers (str "ATD" ++ r) = Some HDial.
Proof.
  change (str "ATD" ++ r) with ("A"%char :: "T"%char :: "D"%char :: r).
  unfold HandleModemCommand, InitializeCommandHandlers. cbn [find]. rewrite Compare_cons. done.
Qed.

Lemma dispatch_remote_call r :
  HandleModemCommand InitializeCommandHandlers (str "AT+REMOTECALL" ++ r) = Some HRemoteCall.
Proof.
  change (str "AT+REMOTECALL" ++ r) with ("A"%char :: "T"%char :: str "+REMOTECALL" ++ r).
  unfold HandleModemCommand, InitializeCommandHandlers. cbn [find]. rewrite !Compare_cons.
  vm_compute. done.
Qed.

Lemma dial_port_total n : forallb is_digit n = true -> exists p, dial_port n = Ok p.
Proof.
  intros Hn. assert (Hf : Forall (fun c => is_digit c = true) n).
  { rewrite forallb_forall in Hn. apply Forall_forall. intros. by apply Hn, list_elem_of_In. }
  unfold dial_port. destruct (Z.eqb_spec (zlen n) 11) as [E|E]; [|destruct (Z.eqb_spec (zlen n) 4); eauto].
  - unfold substr_from. rewrite substr_ok by lia. simpl. apply stoi_digits.
    + unfold zslice. rewrite ztake_take, zdrop_drop. by apply Forall_take, Forall_drop.
    + rewrite zlen_zslice; lia.
  - apply stoi_digits; [done|lia].
Qed.

Lemma dial_number_total c cmd : exists n e, dial_number (c :: cmd) = Ok (n, e).
Proof.
  unfold dial_number, substr_from.
  repeat match goal with |- context [find_last_of ?x ?y] => destruct (find_last_of x y) end;
    rewrite substr_ok by zlen_lia; simpl; eauto.
Qed.

Section totality.
Context `{Absl}.

Lemma dial_remote_total env port s : exists s', dial_remote env port s = (Ok tt, s').
Proof.
  unfold dial_remote. destruct (ConnectToRemoteCvd _ _); cbn [negb]; [|by eexists].
  case_bool_decide; [by eexists|].
  destruct (channel_monitor_ env); cbv beta iota zeta;
    (match goal with |- context [FindFreeCallIndex ?x] =>
       destruct (FindFreeCallIndex_spec x) as (index & Hf & _) end);
    rewrite Hf; by eexists.
Qed.

Lemma fdn_allowed env n e s :
  (forall n, is_ok (IsFixedDialNumber env n) = true) ->
  exists b, may_dial env n e s = (Ok b, s).
Proof.
  intros Hf. unfold may_dial. destruct (negb e && IsFDNEnabled env); unfold lift, mret; [|eauto].
  destruct (proj1 (is_ok_spec _) (Hf n)) as [b ->]. eauto.
Qed.

Lemma HandleDial_total env c cmd s :
  (forall n, is_ok (IsFixedDialNumber env n) = true) ->
  SkipPrefixAT cmd = c -> c <> [] -> exists s', HandleDial env cmd s = (Ok tt, s').
Proof.
  intros Hfdn <- Hne. destruct (SkipPrefixAT cmd) as [|x c] eqn:Ec; [done|].
  destruct (dial_number_total x c) as (n & e & Hd).
  unfold HandleDial. destruct (network_service_ env) as [[]|]; try by eexists.
  all: rewrite Ec; unfold mbind, lift; rewrite Hd.
  all: destruct (forallb is_digit n) eqn:En; cbn [negb]; [|by eexists].
  all: destruct (dial_port_total n En) as [port Hp];
    repeat (match goal with |- context [if ?b then reply _ else _] => destruct b; [by eexists|] end);
    destruct (fdn_allowed env n e s Hfdn) as [[] ->]; cbn [negb]; [|by eexists];
    rewrite Hp; destruct (in_remote_range port); [by apply dial_remote_total|];
    unfold dial_local; destruct (FindFreeCallIndex_spec s) as (index & Hf & _); rewrite Hf;
    destruct e; by eexists.
Qed.

Lemma remote_call_total env client st mode mpty num nt s :
  exists s', remote_call env client st mode mpty num nt s = (Ok tt, s').
Proof.
  unfold remote_call. destruct st as [|p|p]; [by eexists| |by eexists].
  do 3 (try destruct p as [p|p|]; try by eexists).
  destruct (_ && _); [by eexists|]. destruct (FindFreeCallIndex_spec s) as (index & Hf & _).
  rewrite Hf. by eexists.
Qed.

Lemma dialled_nonempty command :
  HandleModemCommand InitializeCommandHandlers command = Some HDial -> SkipPrefixAT command <> [].
Proof.
  unfold HandleModemCommand. intros (h & Hf & Hh)%fmap_Some.
  apply find_some in Hf as [Hin Hc]. unfold SkipPrefixAT. rewrite ConsumePrefix_spec.
  destruct command as [|a [|b r]]; [by vm_compute in Hc|by vm_compute in Hc|].
  rewrite Compare_cons in Hc.
  assert (E : h = mkHandler (str "D") PARTIAL_MATCH HDial).
  { unfold InitializeCommandHandlers in Hin. simpl in Hin.
    repeat (destruct Hin as [<-|Hin]; [done || discriminate Hh|]). done. }
  subst h. simpl in Hc. destruct r as [|x r]; [done|].
  destruct (starts_with _ _); simpl; [|done]. by destruct r.
Qed.

(** The service answers every command line that reaches it from any state, on a
    card whose list of fixed dialling numbers can be read: handlers always return, except that AT+CHLD raises an exception nobody
    catches when its action is followed by something that is not a number that
    fits an int. *)
Theorem handle_total env client command s :
  (forall n, is_ok (IsFixedDialNumber env n) = true) ->
  (exists b s', handle env client command s = (Ok b, s')) \/
  (HandleModemCommand InitializeCommandHandlers command = Some HHangup /\
   1 < zlen (SkipPrefix command) /\
   (forall v, stoi (zdrop 1 (SkipPrefix command)) <> Ok v) /\
   exists w, handle env client command s = (Fatal w, s)).
Proof.
  intros Hfdn. unfold handle. destruct (HandleModemCommand _ command) as [h|] eqn:Eh; [|left; (do 2 eexists; reflexivity)].
  assert (Hok : forall s', run_handler env client command h s = (Ok tt, s') ->
    exists b s', (let! _ := run_handler env client command h in mret true) s = (Ok b, s')).
  { intros s' E. exists true, s'. unfold mbind. by rewrite E. }
  destruct h; try (left; eapply Hok; reflexivity).
  - left. destruct (HandleDial_total env _ command s Hfdn eq_refl) as [s' E]; [by apply dialled_nonempty|eauto].
  - unfold run_handler, HandleHangup, mbind at 2, lift. destruct (Z.ltb_spec 1 (zlen (SkipPrefix command))).
    + unfold substr_from. rewrite substr_ok by lia. cbn [rbind]. unfold zslice.
      rewrite ztake_all by (rewrite zlen_zdrop; lia).
      unfold mbind at 1. destruct (stoi _) as [index| | |] eqn:Es.
      * left. destruct (match SkipPrefix command with [] => _ | _ => _ end) as [|p|p];
          [(do 2 eexists; reflexivity)|do 3 (try destruct p as [p|p|]; try (do 2 eexists; reflexivity))|(do 2 eexists; reflexivity)].
      * exfalso. unfold stoi in Es. repeat case_match; done.
      * right. split_and!; [done|done|by intros|by eexists].
      * exfalso. unfold stoi in Es. repeat case_match; done.
    + left. unfold mbind. destruct (match SkipPrefix command with [] => _ | _ => _ end) as [|p|p];
          [(do 2 eexists; reflexivity)|do 3 (try destruct p as [p|p|]; try (do 2 eexists; reflexivity))|(do 2 eexists; reflexivity)].
  - left. simpl. unfold mbind, HandleMute. case_bool_decide; [do 2 eexists; reflexivity|].
    destruct (GetNextInt _).1 as [|[]|]; (do 2 eexists; reflexivity).
  - left. simpl. unfold mbind, HandleEmergencyMode. case_bool_decide; [do 2 eexists; reflexivity|].
    destruct (GetNextInt _).1 as [|[]|]; (do 2 eexists; reflexivity).
  - left. simpl. unfold mbind, HandleRemoteCall.
    destruct (GetNextInt (SkipPrefix command)) as [st c1]. destruct (GetNextInt c1) as [mode c2].
    destruct (GetNextInt c2) as [mpty c3]. destruct (GetNextStr c3) as [num c4].
    destruct (GetNextInt c4) as [nt c5].
    destruct (remote_call_total env client st mode mpty num nt s) as [s' ->]. (do 2 eexists; reflexivity).
Qed.
End totality.


(** ** Two devices *)
Lemma parse_remote_call `{Absl} env client st m mp host nt s :
  in_i32 st = true -> in_i32 m = true -> in_i32 mp = true -> in_i32 nt = true -> dquote ∉ host ->
  HandleRemoteCall env client
    (remote_call_command (to_string st) (to_string m) (to_string mp) host (to_string nt)) s =
  remote_call env client st m mp host nt s.
Proof.
  intros H1 H2 H3 H4 Hq. unfold HandleRemoteCall, remote_call_command, SkipPrefix.
  match goal with |- context [str "AT+REMOTECALL=" ++ ?r] =>
    change (str "AT+REMOTECALL=" ++ r) with (str "AT+REMOTECALL" ++ "="%char :: r) end.
  rewrite skip_past_app by (apply (bool_decide_unpack _); vm_compute; exact I).
  rewrite !GetNextInt_app by done. rewrite GetNextStr_quoted by done.
  unfold SkipComma. by rewrite skip_past_head, GetNextInt_last.
Qed.

Lemma handle_remote_call `{Absl} env client st m mp host nt s s' :
  in_i32 st = true -> in_i32 m = true -> in_i32 mp = true -> in_i32 nt = true -> dquote ∉ host ->
  remote_call env client st m mp host nt s = (Ok tt, s') ->
  handle env client
    (remote_call_command (to_string st) (to_string m) (to_string mp) host (to_string nt)) s = (Ok true, s').
Proof.
  intros H1 H2 H3 H4 Hq Hr. unfold handle. pose proof (parse_remote_call env client st m mp host nt s
    H1 H2 H3 H4 Hq) as Hp. unfold remote_call_command in *.
  match goal with |- context [str "AT+REMOTECALL=" ++ ?r] =>
    change (str "AT+REMOTECALL=" ++ r) with (str "AT+REMOTECALL" ++ "="%char :: r) in * end.
  rewrite dispatch_remote_call. simpl in *. unfold mbind. by rewrite Hp, Hr.
Qed.

(** What dialling the number of a device comes to. *)
Lemma device_number b :
  6520 <= b <= 6527 ->
  dial_number (str "D" ++ to_string b ++ str ";") = Ok (to_string b, false) /\
  dial_port (to_string b) = Ok b /\ forallb is_digit (to_string b) = true /\
  (dquote ∉ to_string b) /\ in_remote_range b = true.
Proof.
  intros Hb.
  assert (b = 6520 \/ b = 6521 \/ b = 6522 \/ b = 6523 \/ b = 6524 \/ b = 6525 \/ b = 6526 \/ b = 6527)
    as Hc by lia.
  repeat destruct Hc as [-> | Hc]; try subst b; (split_and!; [reflexivity|reflexivity|reflexivity| |reflexivity]);
    (apply (bool_decide_unpack _); vm_compute; exact I).
Qed.

Lemma find_number_fresh i c m :
  map_sorted m -> (forall k d, map_find k m = Some d -> number d <> number c) ->
  find_number (number c) (map_set i c m) = Some (i, c).
Proof.
  intros Hs Hf. unfold find_number.
  assert (Hin : (i, c) ∈ map_set i c m).
  { apply map_find_elem. by rewrite map_find_set, Z.eqb_refl. }
  destruct (find _ (map_set i c m)) as [[k d]|] eqn:E.
  - apply find_some in E as [Hk Hd]. simpl in Hd. apply bool_decide_eq_true in Hd.
    apply list_elem_of_In, elem_of_map_set in Hk as [|Hk]; [congruence|].
    apply elem_map_find in Hk; [|done]. by apply Hf in Hk.
  - apply list_elem_of_In in Hin. apply (find_none _ _ E) in Hin. simpl in Hin.
    by rewrite bool_decide_true in Hin.
Qed.

(** A device that can call and one that can be called. *)
Record linked (envA envB : Env) (a b : Z) : Prop := {
  link_a : host_id envA = a /\ 6520 <= a <= 6527;
  link_b : host_id envB = b /\ 6520 <= b <= 6527;
  link_ne : a <> b;
  link_registered : network_service_ envA = Some NET_REGISTRATION_HOME;
  link_fdn : IsFDNEnabled envA = false;
  link_open : ConnectToRemoteCvd envA (to_string b) = true;
  link_monitors : channel_monitor_ envA = true /\ channel_monitor_ envB = true;
  link_radio : radio_off envB = false
}.

Definition dial_command (b : Z) : bytes := str "ATD" ++ to_string b ++ str ";".
Definition incoming_message (a : Z) : bytes :=
  remote_call_command (to_string 4) (to_string 0) (to_string 0) (to_string a) (to_string 129).
Definition answer_message (b : Z) : bytes :=
  remote_call_command (to_string 0) (to_string 0) (to_string 0) (to_string b) (to_string 0).

Section two_devices.
Context `{Absl} (envA envB : Env) (a b : Z) (link : linked envA envB a b).

Definition dialed_call (client serial : Z) : CallStatus :=
  mkCall CALL_STATE_DIALING false false true false true (Some client) (Some serial) (to_string b) true.
Definition incoming_call (client : Z) : CallStatus :=
  mkCall CALL_STATE_INCOMING true false false false true (Some client) None (to_string a) true.

(** The caller: a new dialing call with a timer of a minute. *)
Lemma dial_device client s :
  exists i s1, handle envA client (dial_command b) s = (Ok true, s1) /\
    map_find i (active_calls_ s) = None /\ 1 <= i /\
    out s1 = out s ++ [ToRemote (next_client_id s + 1) (str "REM0");
                       ToRemote (next_client_id s + 1) (incoming_message a)] ++ [Response [str "OK"]] /\
    active_calls_ s1 =
      map_set i (dialed_call (next_client_id s + 1) (next_serial_ (looper s))) (active_calls_ s) /\
    looper s1 = (Post (now envA) (TimerWaitingRemoteCallResponse_cb (i, to_string b)) 60 (looper s)).2.
Proof.
  destruct link as [[Ha Har] [Hb Hbr] Hne Hr Hf Ho [Hm _] _].
  destruct (device_number b Hbr) as (Hd & Hp & Hdig & _ & Hrange).
  destruct (FindFreeCallIndex_spec s) as (i & Hi & Hge & Hfree & _). unfold FindFreeCallIndex in Hi.
  assert (Hat : SkipPrefixAT (dial_command b) = str "D" ++ to_string b ++ str ";").
  { unfold SkipPrefixAT, dial_command. by rewrite ConsumePrefix_spec. }
  assert (Hself : bool_decide (GetHostId envA = to_string b) = false).
  { apply bool_decide_eq_false. unfold GetHostId. rewrite Ha. intros E%(inj to_string). done. }
  unfold handle, dial_command at 1. rewrite dispatch_dial. unfold run_handler, mbind at 1.
  unfold HandleDial. rewrite Hr, Hat. unfold mbind at 1, lift at 1. rewrite Hd. cbv beta iota zeta.
  rewrite Hdig. cbn [negb andb].
  unfold mbind at 1, may_dial. rewrite Hf. cbn [negb andb]. unfold mret at 1. cbn [negb].
  unfold mbind at 1, lift at 1. rewrite Hp, Hrange.
  unfold dial_remote. rewrite Ho, Hself, Hm. cbn [negb]. cbv beta iota zeta.
  unfold FindFreeCallIndex. cbn [active_calls_ emit]. rewrite Hi. cbv beta iota zeta.
  exists i. eexists. split; [reflexivity|]. split_and!; [done|done| |reflexivity|reflexivity].
  simpl. unfold monitored, GetHostId. rewrite Hm, Ha. by rewrite <- app_assoc.
Qed.

(** The callee: an incoming call. *)
Lemma receive_call client s :
  exists j s1, handle envB client (incoming_message a) s = (Ok true, s1) /\
    map_find j (active_calls_ s) = None /\ out s1 = out s /\
    active_calls_ s1 = map_set j (incoming_call client) (active_calls_ s).
Proof.
  destruct link as [[Ha Har] [Hb Hbr] Hne Hr Hf Ho [_ Hm] Hradio].
  destruct (device_number a Har) as (_ & _ & _ & Hq & _).
  destruct (FindFreeCallIndex_spec s) as (j & Hj & Hge & Hfree & _).
  exists j. eexists. split.
  - apply handle_remote_call; [done|done|done|done|done|].
    unfold remote_call. rewrite Hradio, andb_false_r, Hj. reflexivity.
  - done.
Qed.

Lemma accept_call client s j c :
  map_sorted (active_calls_ s) -> map_find j (active_calls_ s) = Some (incoming_call c) ->
  exists s1, handle envB client (str "ATA") s = (Ok true, s1) /\
    map_find j (active_calls_ s1) = Some (set_state CALL_STATE_ACTIVE (incoming_call c)) /\
    exists o, out s1 = out s ++ o /\ ToRemote c (answer_message b) ∈ o.
Proof.
  intros Hs Hj. destruct link as [_ [Hb Hbr] _ _ _ _ [_ Hm] _].
  eexists. split; [reflexivity|]. cbn [snd modify emit active_calls_ out].
  set (f := fun c0 => _). split.
  - rewrite run_pass_calls, pass_find, Hj by done. done.
  - unfold run_pass. rewrite for_calls_spec. cbn [out emit set_calls].
    eexists. rewrite <- app_assoc. split; [reflexivity|]. apply elem_of_app. left.
    apply list_elem_of_In, in_concat. exists (f (incoming_call c)).1. split.
    + apply list_elem_of_In. apply map_find_elem in Hj.
      exact (list_elem_of_fmap_2 (fun p : Z * CallStatus => (f p.2).1) _ _ Hj).
    + unfold f. simpl. unfold SendCallStatusToRemote, monitored, GetHostId. rewrite Hm, Hb. by left.
Qed.

(** The caller again: the call becomes active and its timer is gone. *)
Lemma call_answered client s i c serial :
  map_find i (active_calls_ s) = Some (dialed_call c serial) ->
  find_number (to_string b) (active_calls_ s) = Some (i, dialed_call c serial) ->
  NoDup (ThreadLooper.serial <$> queue_ (looper s)) -> next_serial_ (looper s) <> serial ->
  exists s1, handle envA client (answer_message b) s = (Ok true, s1) /\
    map_find i (active_calls_ s1) = Some (set_state CALL_STATE_ACTIVE (dialed_call c serial)) /\
    forall e, e ∈ queue_ (looper s1) -> ThreadLooper.serial e <> serial.
Proof.
  intros Hi Hf Hn Hser. destruct link as [_ [Hb Hbr] _ _ _ _ _ _].
  destruct (device_number b Hbr) as (_ & _ & _ & Hq & _).
  eexists. split; [apply handle_remote_call; [done|done|done|done|done|]|].
  { unfold remote_call. rewrite Hf. reflexivity. }
  simpl. unfold CancelSerial. rewrite erase_serial_spec by done. simpl. split.
  - by rewrite map_find_set, Z.eqb_refl.
  - intros e [->|He]%elem_of_insert_event; [done|].
    by apply list_elem_of_filter in He as [He _].
Qed.
End two_devices.

(** C7. A call between two devices: device a dials device b, whose number is
    none of its current calls; the message sent makes an incoming call on b;
    accepting it there makes that call active and sends a message that makes
    the call on a active and cancels its timer. *)
Theorem remote_call_established `{Absl} envA envB a b clA clB cB sA sB :
  linked envA envB a b -> map_sorted (active_calls_ sA) -> map_sorted (active_calls_ sB) ->
  (forall k d, map_find k (active_calls_ sA) = Some d -> number d <> to_string b) ->
  looper_inv (looper sA) -> 1 <= next_serial_ (looper sA) < 2 ^ 31 - 1 ->
  let cA := next_client_id sA + 1 in
  exists i j sA1 sB1 sB2 sA2,
    handle envA clA (dial_command b) sA = (Ok true, sA1) /\
    ToRemote cA (incoming_message a) ∈ out sA1 /\
    handle envB cB (incoming_message a) sB = (Ok true, sB1) /\
    map_find j (active_calls_ sB) = None /\
    map_find j (active_calls_ sB1) = Some (incoming_call a cB) /\
    handle envB clB (str "ATA") sB1 = (Ok true, sB2) /\
    map_find j (active_calls_ sB2) = Some (set_state CALL_STATE_ACTIVE (incoming_call a cB)) /\
    ToRemote cB (answer_message b) ∈ out sB2 /\
    handle envA cA (answer_message b) sA1 = (Ok true, sA2) /\
    map_find i (active_calls_ sA) = None /\
    map_find i (active_calls_ sA2) =
      Some (set_state CALL_STATE_ACTIVE (dialed_call b cA (next_serial_ (looper sA)))) /\
    (forall e, e ∈ queue_ (looper sA2) -> serial e <> next_serial_ (looper sA)).
Proof.
  intros link HsA HsB Hfresh HlA Hser cA.
  destruct (dial_device envA envB a b link clA sA) as (i & sA1 & H1 & Hi & _ & Ho & Hc & Hl).
  destruct (receive_call envA envB a b link cB sB) as (j & sB1 & H2 & Hj & _ & HcB).
  assert (HjB : map_find j (active_calls_ sB1) = Some (incoming_call a cB))
    by (by rewrite HcB, map_find_set, Z.eqb_refl).
  destruct (accept_call envA envB a b link clB sB1 j cB) as (sB2 & H3 & HjB2 & o & Ho2 & Hin);
    [rewrite HcB; by apply map_sorted_set|done|].
  pose proof (Post_refines (now envA) (TimerWaitingRemoteCallResponse_cb (i, to_string b)) 60 (looper sA)
    HlA ltac:(lia) ltac:(lia)) as Hpost. cbn [do_op] in Hpost.
  destruct (Post _ _ _ (looper sA)) as [ser l1] eqn:Epost. destruct Hpost as ((_ & Hnd & _) & _ & Hnext).
  simpl in Hl. subst l1.
  destruct (call_answered envA envB a b link cA sA1 i cA (next_serial_ (looper sA)))
    as (sA2 & H4 & HiA2 & Hq).
  - by rewrite Hc, map_find_set, Z.eqb_refl.
  - rewrite Hc. by apply (find_number_fresh i (dialed_call b cA (next_serial_ (looper sA)))).
  - done.
  - lia.
  - exists i, j, sA1, sB1, sB2, sA2. split_and!; try done.
    + rewrite Ho. set_solver.
    + rewrite Ho2. set_solver.
Qed.

(** ** Ordinary calls *)
Definition plain_number (n : bytes) : Prop :=
  forallb is_digit n = true /\ zlen n <> 4 /\ zlen n <> 11 /\ zlen n < 2 ^ 63.
Definition call_command (n : bytes) : bytes := str "ATD" ++ n ++ str ";".

Lemma find_last_of_None c l : c ∉ l -> find_last_of c l = None.
Proof.
  intros Hc. unfold find_last_of. pose proof (find_first_of_spec c (rev l)) as H.
  destruct (find_first_of c (rev l)) as [p|]; [|done]. destruct H as (a & b & Hr & _). exfalso. apply Hc.
  apply list_elem_of_In, in_rev. rewrite Hr. apply in_app_iff. right. by left.
Qed.

Lemma dialled_number n : plain_number n -> dial_number (str "D" ++ n ++ str ";") = Ok (n, false).
Proof.
  intros (Hd & _ & _ & Hl). pose proof (zlen_nonneg n). unfold dial_number.
  assert (Hn : forall c, is_digit c = false -> c <> "D"%char -> c <> ";"%char -> c ∉ str "D" ++ n ++ str ";").
  { intros c Hc H1 H2. change (str "D") with ["D"%char]. change (str ";") with [";"%char].
    rewrite !not_elem_of_app, !list_elem_of_singleton. split_and!; [done| |done].
    intros Hin%list_elem_of_In. rewrite forallb_forall in Hd. apply Hd in Hin. congruence. }
  rewrite !find_last_of_None by (apply Hn; done).
  assert (El : zlen (str "D" ++ n ++ str ";") = zlen n + 2) by (rewrite !zlen_app; change (zlen (str "D")) with 1; change (zlen (str ";")) with 1; lia).
  unfold find_last_of. rewrite !rev_app_distr. change (rev (str ";")) with [";"%char].
  change (([";"%char] ++ rev n) ++ rev (str "D")) with ([] ++ ";"%char :: (rev n ++ rev (str "D"))).
  rewrite find_first_of_app by set_solver. cbn [fmap option_fmap option_map]. rewrite El. change (zlen (@nil ascii)) with 0.
  unfold substr. rewrite (proj2 (Z.ltb_ge _ _)) by lia. cbn [rbind]. f_equal. f_equal.
  rewrite u64_id by (unfold is_u64; lia). replace (zlen n + 2 - 1 - 0 - 1) with (zlen n) by lia.
  exact (zslice_mid (str "D") n (str ";")).
Qed.

Section ordinary.
Context `{Absl}.
Lemma skip_call n : SkipPrefixAT (call_command n) = str "D" ++ n ++ str ";".
Proof. unfold SkipPrefixAT, call_command. by rewrite ConsumePrefix_spec. Qed.

(** A registered phone calls, one that is registered for emergencies only does not. *)
Lemma call_placed env client n s :
  network_service_ env = Some NET_REGISTRATION_HOME -> IsFDNEnabled env = false -> plain_number n ->
  exists i s', handle env client (call_command n) s = (Ok true, s') /\ map_find i (active_calls_ s) = None /\
    active_calls_ s' = map_set i (mkCall CALL_STATE_DIALING false false true false (uninit env) None None n true)
                         (active_calls_ s) /\
    out s' = out s ++ [Response [str "OK"]].
Proof.
  intros Hr Hf Hn. destruct (FindFreeCallIndex_spec s) as (i & Hi & _ & Hfree & _). exists i.
  unfold handle, call_command at 1. rewrite dispatch_dial. unfold run_handler, mbind at 1.
  unfold HandleDial. rewrite Hr, skip_call. unfold mbind at 1, lift at 1. rewrite dialled_number by done.
  destruct Hn as (Hd & H4 & H11 & _). rewrite Hd. cbn [negb andb].
  unfold mbind at 1, may_dial. rewrite Hf. cbn [negb andb]. unfold mret at 1. cbn [negb].
  unfold mbind at 1, lift at 1, dial_port. rewrite (proj2 (Z.eqb_neq _ _) H11), (proj2 (Z.eqb_neq _ _) H4).
  change (in_remote_range 0) with false. cbv iota. unfold dial_local. rewrite Hi. eexists. split; [reflexivity|]. done.
Qed.
Lemma call_refused env client n s :
  network_service_ env = Some NET_REGISTRATION_EMERGENCY -> plain_number n ->
  handle env client (call_command n) s =
    (Ok true, emit [Response [kCmeErrorNetworkNotAllowedEmergencyCallsOnly]] s).
Proof.
  intros Hr Hn. unfold handle, call_command at 1. rewrite dispatch_dial. unfold run_handler, mbind at 1.
  unfold HandleDial. rewrite Hr, skip_call. unfold mbind at 1, lift at 1. rewrite dialled_number by done.
  destruct Hn as (Hd & _). by rewrite Hd.
Qed.
End ordinary.

(** ** Examples *)
Definition env_at (host t : Z) : Env :=
  mkEnv (Some NET_REGISTRATION_HOME) false false (fun _ => Ok false) (fun _ => true) host true t false.

Lemma handle_total_witness :
  exists b s', handle (env_at 6520 0) 7 (str "ATD5551;") (CallService_ false 10) = (Ok b, s').
Proof.
  destruct (handle_total (env_at 6520 0) 7 (str "ATD5551;") (CallService_ false 10)) as [H|(H & _)].
  - intros n. reflexivity.
  - exact H.
  - vm_compute in H. discriminate H.
Defined.

Definition after_dial : Service :=
  (handle (env_at 6520 0) 7 (str "ATD6521;") (CallService_ false 10)).2.

Example calls_invariant_witness :
  map fst (active_calls_ after_dial) = [1] /\ calls_inv after_dial.
Proof.
  split; [reflexivity|]. apply calls_invariant.
  apply (reach_command (env_at 6520 0) 7 (str "ATD6521;") true (CallService_ false 10));
    [constructor|reflexivity].
Defined.

Example remote_call_established_witness :
  linked (env_at 6520 0) (env_at 6521 5) 6520 6521 /\
  exists i j sA1 sB1 sB2 sA2,
    handle (env_at 6520 0) 7 (dial_command 6521) (CallService_ false 10) = (Ok true, sA1) /\
    ToRemote 11 (incoming_message 6520) ∈ out sA1 /\
    handle (env_at 6521 5) 3 (incoming_message 6520) (CallService_ false 20) = (Ok true, sB1) /\
    map_find j (active_calls_ (CallService_ false 20)) = None /\
    map_find j (active_calls_ sB1) = Some (incoming_call 6520 3) /\
    handle (env_at 6521 5) 2 (str "ATA") sB1 = (Ok true, sB2) /\
    map_find j (active_calls_ sB2) = Some (set_state CALL_STATE_ACTIVE (incoming_call 6520 3)) /\
    ToRemote 3 (answer_message 6521) ∈ out sB2 /\
    handle (env_at 6520 0) 11 (answer_message 6521) sA1 = (Ok true, sA2) /\
    map_find i (active_calls_ (CallService_ false 10)) = None /\
    map_find i (active_calls_ sA2) =
      Some (set_state CALL_STATE_ACTIVE (dialed_call 6521 11 1)) /\
    (forall e, e ∈ queue_ (looper sA2) -> serial e <> 1).
Proof.
  assert (Hl : linked (env_at 6520 0) (env_at 6521 5) 6520 6521)
    by (constructor; simpl; (done || (split; done) || (split; [done|split; done]))).
  split; [exact Hl|].
  apply (remote_call_established (env_at 6520 0) (env_at 6521 5) 6520 6521 7 2 3
           (CallService_ false 10) (CallService_ false 20) Hl).
  - constructor.
  - constructor.
  - intros k d Hd. discriminate Hd.
  - split; [constructor|split; constructor].
  - simpl. lia.
Defined.

(** A run given by what happens. *)
Inductive action := ACommand (env : Env) (client : Z) (command : bytes) | ATurn (env : Env).
Definition act (x : action) (s : Service) : option Service :=
  match x with
  | ACommand env client command =>
      match handle env client command s with (Ok _, s') => Some s' | _ => None end
  | ATurn env => Some (turn env s)
  end.
Definition run (xs : list action) : option Service :=
  foldl (fun s x => s ≫= act x) (Some (CallService_ false 10)) xs.

Lemma run_reachable xs s : run xs = Some s -> reachable s.
Proof.
  unfold run. revert s. induction xs as [|x xs IH] using rev_ind; intros s.
  - intros [= <-]. constructor.
  - rewrite foldl_app. simpl. intros (s1 & H1 & H2)%bind_Some. apply IH in H1.
    destruct x as [env client command|env]; simpl in H2.
    + destruct (handle env client command s1) as [[b| | |] s2] eqn:E; try done.
      injection H2 as <-. by eapply reach_command.
    + injection H2 as <-. by constructor.
Qed.

(** Dial device 6521, give up with AT+CHLD=11 after ten seconds, dial it again,
    and the other side answers. *)
Definition redial : list action :=
  [ACommand (env_at 6520 0) 7 (str "ATD6521;"); ACommand (env_at 6520 10) 7 (str "AT+CHLD=11");
   ACommand (env_at 6520 20) 7 (str "ATD6521;"); ACommand (env_at 6520 30) 13 (answer_message 6521);
   ATurn (env_at 6520 30)].

(** Releasing a call that is still dialing leaves its timer pending.  When
    the same device is dialled again the new call gets the same index and
    number, and after it has been answered, and its own timer cancelled, the old
    timer closes the connection and removes the active call. *)
Theorem stale_timer_drops_call :
  exists s c, run redial = Some s /\ reachable s /\
    active_calls_ s = [(1, c)] /\ call_state c = CALL_STATE_ACTIVE /\ remote_client c = Some 13 /\
    (forall e, e ∈ queue_ (looper s) -> Some (serial e) <> timeout_serial c) /\
    active_calls_ (turn (env_at 6520 60) s) = [] /\
    CloseRemote 13 ∈ out (turn (env_at 6520 60) s).
Proof.
  destruct (run redial) as [s|] eqn:E; [|by vm_compute in E].
  pose proof (run_reachable _ _ E) as Hr. vm_compute in E. injection E as <-.
  eexists _, _. split; [reflexivity|]. split; [exact Hr|]. split; [reflexivity|].
  split; [reflexivity|]. split; [reflexivity|]. split.
  - intros e He. simpl in He. apply list_elem_of_singleton in He. by subst e.
  - split; [reflexivity|]. simpl. set_solver.
Qed.
End CallService.
