(* ===== verification/SmsService.v ===== *)
(** * Short messages (modem_simulator/sms_service.{h,cpp})

    Sending (AT+CMGS and the PDU that follows), the messages stored on the SIM
    (AT+CMGW, AT+CMGD), broadcast and service center settings, and messages
    from other devices (AT+REMOTESMS). *)
From S2P Require Import Prelude CppString ModemCommand ThreadLooper PduParser.

Module SmsService.
Import CppString ModemCommand ThreadLooper PduParser.

(** [SmsStatus] is stored as the integer that is cast to it. *)
Record SmsMessage := mkMessage { message : bytes; status : Z }.
Record BroadcastConfig := mkBroadcast { mode : Z; mids : bytes; dcss : bytes }.
Record SmsServiceCenterAddress := mkSca { sca : bytes; tosca : Z }.

Inductive Callback :=
| HandleReceiveSMS_cb (sms_pdu : PDUParser)
| HandleSMSStatuReport_cb (sms_pdu : PDUParser) (message_reference : Z).

Record Service := mkService {
  is_waiting_sms_pdu_ : bool;
  is_waiting_sms_to_sim_ : bool;
  message_id_ : Z;
  message_reference_ : Z;
  sms_status_on_sim_ : Z;
  broadcast_config_ : BroadcastConfig;
  sms_service_center_address_ : SmsServiceCenterAddress;
  messages_on_sim_card_ : list (Z * SmsMessage);
  looper : Looper Callback;
  out : list Output
}.

Record Env := mkEnv {
  GetPhoneNumber : option (result bytes); (* of sim_service_, may throw; None: no service *)
  ConnectToRemoteCvd : bytes -> bool;
  host_id : Z;
  channel_monitor_ : bool;
  now : Z
}.

(** [InitializeServiceState]; what it does not set is uninitialised. *)
Definition SmsService_ (uninit_status uninit_tosca : Z) : Service :=
  mkService false false 1 1 uninit_status (mkBroadcast 0 [] []) (mkSca [] uninit_tosca) []
    ThreadLooper_ [].

Definition emit (os : list Output) (s : Service) : Service :=
  mkService (is_waiting_sms_pdu_ s) (is_waiting_sms_to_sim_ s) (message_id_ s) (message_reference_ s)
    (sms_status_on_sim_ s) (broadcast_config_ s) (sms_service_center_address_ s)
    (messages_on_sim_card_ s) (looper s) (out s ++ os).
Definition set_waiting (pdu to_sim : bool) (s : Service) : Service :=
  mkService pdu to_sim (message_id_ s) (message_reference_ s) (sms_status_on_sim_ s)
    (broadcast_config_ s) (sms_service_center_address_ s) (messages_on_sim_card_ s) (looper s) (out s).
Definition set_messages (m : list (Z * SmsMessage)) (id : Z) (s : Service) : Service :=
  mkService (is_waiting_sms_pdu_ s) (is_waiting_sms_to_sim_ s) id (message_reference_ s)
    (sms_status_on_sim_ s) (broadcast_config_ s) (sms_service_center_address_ s) m (looper s) (out s).
Definition set_reference (r : Z) (s : Service) : Service :=
  mkService (is_waiting_sms_pdu_ s) (is_waiting_sms_to_sim_ s) (message_id_ s) r
    (sms_status_on_sim_ s) (broadcast_config_ s) (sms_service_center_address_ s)
    (messages_on_sim_card_ s) (looper s) (out s).
Definition set_status (st : Z) (s : Service) : Service :=
  mkService (is_waiting_sms_pdu_ s) (is_waiting_sms_to_sim_ s) (message_id_ s) (message_reference_ s)
    st (broadcast_config_ s) (sms_service_center_address_ s) (messages_on_sim_card_ s) (looper s) (out s).
Definition set_broadcast (b : BroadcastConfig) (s : Service) : Service :=
  mkService (is_waiting_sms_pdu_ s) (is_waiting_sms_to_sim_ s) (message_id_ s) (message_reference_ s)
    (sms_status_on_sim_ s) b (sms_service_center_address_ s) (messages_on_sim_card_ s) (looper s) (out s).
Definition set_sca (a : SmsServiceCenterAddress) (s : Service) : Service :=
  mkService (is_waiting_sms_pdu_ s) (is_waiting_sms_to_sim_ s) (message_id_ s) (message_reference_ s)
    (sms_status_on_sim_ s) (broadcast_config_ s) a (messages_on_sim_card_ s) (looper s) (out s).
Definition set_looper (l : Looper Callback) (s : Service) : Service :=
  mkService (is_waiting_sms_pdu_ s) (is_waiting_sms_to_sim_ s) (message_id_ s) (message_reference_ s)
    (sms_status_on_sim_ s) (broadcast_config_ s) (sms_service_center_address_ s)
    (messages_on_sim_card_ s) l (out s).

Section handlers.
Context (env : Env).

Definition GetHostId : bytes := to_string (host_id env).
Definition monitored (os : list Output) : list Output := if channel_monitor_ env then os else [].
Definition reply (lines : list bytes) : M Service unit := modify (emit [Response lines]).
Definition PostCallback (c : Callback) (delay : Z) (s : Service) : Service :=
  set_looper (Post (now env) c delay (looper s)).2 s.

(** [++x] on an int. *)
Definition increment (x : Z) : result Z :=
  if in_i32 (x + 1) then Ok (x + 1) else Fatal "signed overflow".

Definition HandleSendSMS (command : bytes) : M Service unit := fun s =>
  reply [str "> "] (set_waiting true (is_waiting_sms_to_sim_ s) s).

Definition HandleSMSAcknowledge (command : bytes) : M Service unit := reply [str "OK"].

Definition HandleWriteSMSToSim (command : bytes) : M Service unit := fun s =>
  let s := set_waiting (is_waiting_sms_pdu_ s) true s in
  let cmd := SkipComma (SkipPrefix command) in
  reply [str "> "] (set_status (GetNextInt cmd).1 s).

Definition HandleDeleteSmsOnSim (command : bytes) : M Service unit := fun s =>
  let index := (GetNextInt (SkipPrefix command)).1 in
  match map_find index (messages_on_sim_card_ s) with
  | None => reply [kCmeErrorInvalidIndex] s
  | Some _ => reply [str "OK"]
                (set_messages (map_erase index (messages_on_sim_card_ s)) (message_id_ s) s)
  end.

Definition HandleBroadcastConfig (command : bytes) : M Service unit := fun s =>
  let cmd := SkipPrefix command in
  if bool_decide (cmd = str "AT+CSCB?") then
    let b := broadcast_config_ s in
    reply [str "+CSCB: " ++ to_string (mode b) ++ comma :: mids b ++ comma :: dcss b; str "OK"] s
  else
    let '(m, cmd) := GetNextInt cmd in
    let '(i, cmd) := GetNextStr cmd in
    let '(d, cmd) := GetNextStr cmd in
    reply [str "OK"] (set_broadcast (mkBroadcast m i d) s).

Definition HandleGetSmscAddress : M Service unit := fun s =>
  let a := sms_service_center_address_ s in
  reply [str "+CSCA: " ++ sca a ++ comma :: to_string (tosca a); str "OK"] s.

Definition HandleSetSmscAddress (command : bytes) : M Service unit := fun s =>
  let cmd := SkipPrefix command in
  let '(a, cmd) := GetNextStr cmd in
  let '(t, cmd) := GetNextInt cmd in
  reply [str "OK"] (set_sca (mkSca a t) s).

(** ** Sending *)
Definition remote_sms_command (pdu : bytes) : bytes := str "AT+REMOTESMS=" ++ pdu.

Definition SendSmsToRemote (remote_port : bytes) (sms_pdu : PDUParser) : M Service unit :=
  if negb (ConnectToRemoteCvd env remote_port) then mret tt
  else
    let! pdu := lift (CreateRemotePDU GetHostId sms_pdu) in
    modify (emit [RemoteSocket remote_port [str "REM0"; remote_sms_command pdu ++ [cr]]]).

Definition sms_port (phone_number : bytes) : result Z :=
  if zlen phone_number =? 11 then let* p := substr_from 7 phone_number in stoi p
  else if zlen phone_number =? 4 then stoi phone_number
  else Ok 0.

(** Where the message goes: to this device after a second, to another device,
    or nowhere. *)
Definition route (port : Z) (phone_number : bytes) (sms_pdu : PDUParser) : M Service unit :=
  if (kRemotePortRange.1 <=? port) && (port <=? kRemotePortRange.2) then
    let remote_host_port := to_string port in
    if bool_decide (GetHostId = remote_host_port)
    then modify (PostCallback (HandleReceiveSMS_cb sms_pdu) 1)
    else SendSmsToRemote remote_host_port sms_pdu
  else
    match GetPhoneNumber env with
    | Some own =>
        let! own := lift own in
        if bool_decide (own = phone_number) then modify (PostCallback (HandleReceiveSMS_cb sms_pdu) 1) else mret tt
    | None => mret tt
    end.

Definition HandleSendSMSPDU (command : bytes) : M Service unit := fun s =>
  let s := set_waiting false (is_waiting_sms_to_sim_ s) s in
  let sms_pdu := DecodePDU command in
  if negb (IsValidPDU sms_pdu) then reply [kCmsErrorInvalidPDUModeParam] s
  else
    (let! phone_number := lift (GetPhoneNumberFromAddress sms_pdu) in
     let! port := lift (sms_port phone_number) in
     if bool_decide (phone_number = []) then reply [kCmsErrorSCAddressUnknown]
     else
       let! _ := route port phone_number sms_pdu in
       let! s := get in
       let! ref := lift (increment (message_reference_ s)) in
       let! _ := modify (set_reference ref) in
       let! _ := reply [str "+CMGS: " ++ to_string ref; str "OK"] in
       if IsNeededStatuReport sms_pdu
       then modify (PostCallback (HandleSMSStatuReport_cb sms_pdu ref) 1)
       else mret tt) s.

(** ** Receiving *)
Definition deliver (pdu : bytes) : list Output :=
  match pdu with
  | [] => []
  | _ => monitored [Unsolicited (str "+CMT: 0"); Unsolicited pdu]
  end.

Definition HandleReceiveSMS (clock : Clock) (sms_pdu : PDUParser) (s : Service) : Service :=
  emit (deliver (CreatePDU clock sms_pdu)) s.

Definition HandleSMSStatuReport (clock later : Clock) (sms_pdu : PDUParser) (message_reference : Z)
  (s : Service) : Service :=
  let pdu := CreateStatuReport clock later message_reference sms_pdu in
  let pdu_length := u64 (zlen pdu - 2) / 2 in
  if negb (bool_decide (pdu = [])) && (0 <? pdu_length)
  then emit (monitored [Unsolicited (str "+CDS: " ++ to_string pdu_length); Unsolicited pdu]) s
  else s.

Definition HandleReceiveRemoteSMS (clock : Clock) (command : bytes) : M Service unit := fun s =>
  let sms_pdu := DecodePDU (SkipPrefix command) in
  if negb (IsValidPDU sms_pdu) then (Ok tt, s)
  else (Ok tt, emit (deliver (CreatePDU clock sms_pdu)) s).

(** ** Storing *)
Definition HandleWriteSMSPduToSim (command : bytes) : M Service unit := fun s =>
  let s := set_waiting (is_waiting_sms_pdu_ s) false s in
  let index := message_id_ s in
  match increment index with
  | Ok next =>
      reply [str "+CMGW: " ++ to_string index; str "OK"]
        (set_messages (map_set index (mkMessage command (sms_status_on_sim_ s))
                         (messages_on_sim_card_ s)) next s)
  | r => (fail_as r, s)
  end.
End handlers.

(** ** Dispatch *)
Inductive Handler :=
  HSendSMS | HSMSAcknowledge | HWriteSMSToSim | HDeleteSmsOnSim | HBroadcastConfig
| HGetSmscAddress | HSetSmscAddress | HReceiveRemoteSMS.

Definition InitializeCommandHandlers : list (CommandHandler Handler) :=
  [ mkHandler (str "+CMGS") PARTIAL_MATCH HSendSMS;
    mkHandler (str "+CNMA") PARTIAL_MATCH HSMSAcknowledge;
    mkHandler (str "+CMGW") PARTIAL_MATCH HWriteSMSToSim;
    mkHandler (str "+CMGD") PARTIAL_MATCH HDeleteSmsOnSim;
    mkHandler (str "+CSCB") PARTIAL_MATCH HBroadcastConfig;
    mkHandler (str "+CSCA?") FULL_MATCH HGetSmscAddress;
    mkHandler (str "+CSCA=") PARTIAL_MATCH HSetSmscAddress;
    mkHandler (str "+REMOTESMS") PARTIAL_MATCH HReceiveRemoteSMS ].

Definition run_handler (clock : Clock) (env : Env) (command : bytes) (h : Handler) : M Service unit :=
  match h with
  | HSendSMS => HandleSendSMS command
  | HSMSAcknowledge => HandleSMSAcknowledge command
  | HWriteSMSToSim => HandleWriteSMSToSim command
  | HDeleteSmsOnSim => HandleDeleteSmsOnSim command
  | HBroadcastConfig => HandleBroadcastConfig command
  | HGetSmscAddress => HandleGetSmscAddress
  | HSetSmscAddress => HandleSetSmscAddress command
  | HReceiveRemoteSMS => HandleReceiveRemoteSMS env clock command
  end.

Definition handle (clock : Clock) (env : Env) (command : bytes) : M Service bool :=
  match HandleModemCommand InitializeCommandHandlers command with
  | Some h => let! _ := run_handler clock env command h in mret true
  | None => mret false
  end.

(** [ModemSimulator::DispatchCommand] as far as this service is concerned: the
    line after AT+CMGS or AT+CMGW is a PDU, whatever it looks like.  The result
    says whether the command was taken. *)
Definition dispatch (clock : Clock) (env : Env) (command : bytes) : M Service bool := fun s =>
  if is_waiting_sms_pdu_ s then (let! _ := HandleSendSMSPDU env command in mret true) s
  else if is_waiting_sms_to_sim_ s then (let! _ := HandleWriteSMSPduToSim command in mret true) s
  else handle clock env command s.

(** A turn of the looper. *)
Definition turn (clock later : Clock) (env : Env) (s : Service) : Service :=
  let '(t, l) := ThreadLoop_turn (now env) (looper s) in
  match t with
  | Run (HandleReceiveSMS_cb p) => HandleReceiveSMS env clock p (set_looper l s)
  | Run (HandleSMSStatuReport_cb p r) => HandleSMSStatuReport env clock later p r (set_looper l s)
  | _ => s
  end.
(** ** Stored messages *)
Definition store_inv (s : Service) : Prop :=
  map_sorted (messages_on_sim_card_ s) /\ 1 <= message_id_ s /\
  Forall (fun p => 1 <= p.1 < message_id_ s) (messages_on_sim_card_ s).

Lemma store_inv_same s s' :
  messages_on_sim_card_ s = messages_on_sim_card_ s' -> message_id_ s = message_id_ s' ->
  store_inv s -> store_inv s'.
Proof. unfold store_inv. intros -> ->. done. Qed.

Lemma store_inv_route env port n p s s' r :
  route env port n p s = (r, s') -> store_inv s -> store_inv s'.
Proof.
  unfold route. intros Hr Hi. destruct (_ && _).
  - case_bool_decide; [injection Hr as <- <-; by eapply store_inv_same|].
    unfold SendSmsToRemote in Hr. destruct (ConnectToRemoteCvd _ _); cbn [negb] in Hr;
      [|by injection Hr as <- <-].
    unfold mbind, lift in Hr. destruct (CreateRemotePDU _ _); injection Hr as <- <-; try done.
  - destruct (GetPhoneNumber env) as [own|]; [|by injection Hr as <- <-]. unfold mbind, lift in Hr.
    destruct own as [own| | |]; try by injection Hr as <- <-.
    case_bool_decide; injection Hr as <- <-; [by eapply store_inv_same|done].
Qed.

Lemma store_inv_send env command s s' r :
  HandleSendSMSPDU env command s = (r, s') -> store_inv s -> store_inv s'.
Proof.
  intros Hh Hi. assert (Hi0 : store_inv (set_waiting false (is_waiting_sms_to_sim_ s) s))
    by (by eapply store_inv_same). revert Hh Hi0. unfold HandleSendSMSPDU.
  generalize (set_waiting false (is_waiting_sms_to_sim_ s) s). clear. intros s Hh Hi.
  destruct (IsValidPDU _); cbn [negb] in Hh; [|injection Hh as <- <-; by eapply store_inv_same].
  unfold mbind at 1, lift at 1 in Hh.
  destruct (GetPhoneNumberFromAddress _) as [n| | |]; try by injection Hh as <- <-.
  unfold mbind at 1, lift at 1 in Hh. destruct (sms_port n) as [port| | |]; try by injection Hh as <- <-.
  case_bool_decide; [injection Hh as <- <-; by eapply store_inv_same|].
  unfold mbind at 1 in Hh. destruct (route env port n _ s) as [r1 s1] eqn:Er.
  assert (Hi1 : store_inv s1) by (by eapply store_inv_route).
  destruct r1; try by injection Hh as <- <-.
  unfold mbind, get, lift, modify in Hh. destruct (increment _); try by injection Hh as <- <-.
  destruct (IsNeededStatuReport _); injection Hh as <- <-; by eapply store_inv_same.
Qed.

Lemma store_inv_write command s s' r :
  HandleWriteSMSPduToSim command s = (r, s') -> store_inv s -> store_inv s'.
Proof.
  unfold HandleWriteSMSPduToSim, increment. intros Hh (Hs & H1 & Hf). cbn [message_id_ set_waiting] in Hh.
  destruct (in_i32 _); injection Hh as <- <-; [|done]. split_and!; simpl; [by apply map_sorted_set|lia|].
  rewrite Forall_forall in *. intros p [->|Hp]%elem_of_map_set; simpl; [lia|]. apply Hf in Hp. lia.
Qed.

Lemma store_inv_dispatch clock env command s s' r :
  dispatch clock env command s = (r, s') -> store_inv s -> store_inv s'.
Proof.
  unfold dispatch, handle. intros Hh Hi. destruct (is_waiting_sms_pdu_ s).
  { unfold mbind in Hh. destruct (HandleSendSMSPDU env command s) as [r1 s1] eqn:E.
    assert (s1 = s') as <- by (by destruct r1; injection Hh). by eapply store_inv_send. }
  destruct (is_waiting_sms_to_sim_ s).
  { unfold mbind in Hh. destruct (HandleWriteSMSPduToSim command s) as [r1 s1] eqn:E.
    assert (s1 = s') as <- by (by destruct r1; injection Hh). by eapply store_inv_write. }
  destruct (HandleModemCommand _ command) as [h|]; [|by injection Hh as <- <-].
  unfold mbind in Hh. destruct h; simpl in Hh; try (injection Hh as <- <-; by eapply store_inv_same).
  - unfold HandleDeleteSmsOnSim in Hh. destruct (map_find _ _); injection Hh as <- <-;
      [|by eapply store_inv_same]. destruct Hi as (Hs & H1 & Hf).
    split_and!; simpl; [by apply map_sorted_erase|done|].
    rewrite Forall_forall in *. intros p Hp%elem_of_map_erase. auto.
  - unfold HandleBroadcastConfig in Hh. case_bool_decide; [injection Hh as <- <-; by eapply store_inv_same|].
    destruct (GetNextInt _) as [m c1]. destruct (GetNextStr c1) as [i c2].
    destruct (GetNextStr c2) as [d c3]. injection Hh as <- <-. by eapply store_inv_same.
  - unfold HandleSetSmscAddress in Hh. destruct (GetNextStr _) as [a c1]. destruct (GetNextInt c1) as [t c2].
    injection Hh as <- <-. by eapply store_inv_same.
  - unfold HandleReceiveRemoteSMS in Hh. destruct (negb _); injection Hh as <- <-; [done|by eapply store_inv_same].
Qed.

Inductive reachable : Service -> Prop :=
| reach_init x y : reachable (SmsService_ x y)
| reach_command clock env command b s s' :
    reachable s -> dispatch clock env command s = (Ok b, s') -> reachable s'
| reach_turn clock later env s : reachable s -> reachable (turn clock later env s).

Lemma reachable_store s : reachable s -> store_inv s.
Proof.
  induction 1 as [x y|clock env command b s s' _ IH Hd|clock later env s _ IH].
  - split_and!; simpl; [constructor|lia|constructor].
  - by eapply store_inv_dispatch.
  - unfold turn. destruct (ThreadLoop_turn _ _) as [[| |[p|p r]] l]; try done.
    unfold HandleSMSStatuReport. destruct (_ && _); by apply (store_inv_same s).
Qed.

Definition write_command (length stat : Z) : bytes :=
  str "AT+CMGW=" ++ to_string length ++ comma :: to_string stat.
Definition delete_command (index : Z) : bytes := str "AT+CMGD=" ++ to_string index.

Lemma skip_to_equals (p r : bytes) :
  bool_decide ("="%char ∈ p) = false -> SkipPrefix (p ++ "="%char :: r) = r.
Proof. intros Hp. apply skip_past_app. by apply bool_decide_eq_false in Hp. Qed.

Lemma dispatch_write r :
  HandleModemCommand InitializeCommandHandlers (str "AT+CMGW=" ++ r) = Some HWriteSMSToSim.
Proof.
  change (str "AT+CMGW=" ++ r) with ("A"%char :: "T"%char :: str "+CMGW=" ++ r).
  unfold HandleModemCommand, InitializeCommandHandlers. cbn [find]. rewrite !Compare_cons.
  vm_compute. done.
Qed.
Lemma dispatch_delete r :
  HandleModemCommand InitializeCommandHandlers (str "AT+CMGD=" ++ r) = Some HDeleteSmsOnSim.
Proof.
  change (str "AT+CMGD=" ++ r) with ("A"%char :: "T"%char :: str "+CMGD=" ++ r).
  unfold HandleModemCommand, InitializeCommandHandlers. cbn [find]. rewrite !Compare_cons.
  vm_compute. done.
Qed.
Lemma dispatch_remote_sms r :
  HandleModemCommand InitializeCommandHandlers (str "AT+REMOTESMS=" ++ r) = Some HReceiveRemoteSMS.
Proof.
  change (str "AT+REMOTESMS=" ++ r) with ("A"%char :: "T"%char :: str "+REMOTESMS=" ++ r).
  unfold HandleModemCommand, InitializeCommandHandlers. cbn [find]. rewrite !Compare_cons.
  vm_compute. done.
Qed.

(** Storing a message in any state the service reaches: AT+CMGW prompts for
    it, the line that follows is stored as it is, with the status asked for,
    under an index not in use, which the answer names; other messages stay.
    AT+CMGD with that index restores what was stored before. *)
Theorem sms_store_delete clock env s length stat pdu :
  reachable s -> is_waiting_sms_pdu_ s = false -> is_waiting_sms_to_sim_ s = false ->
  message_id_ s < 2 ^ 31 - 1 -> in_i32 length = true -> in_i32 stat = true ->
  let index := message_id_ s in
  exists s1 s2 s3,
    dispatch clock env (write_command length stat) s = (Ok true, s1) /\
    out s1 = out s ++ [Response [str "> "]] /\
    dispatch clock env pdu s1 = (Ok true, s2) /\
    out s2 = out s1 ++ [Response [str "+CMGW: " ++ to_string index; str "OK"]] /\
    map_find index (messages_on_sim_card_ s) = None /\
    (forall i, map_find i (messages_on_sim_card_ s2) =
       if index =? i then Some (mkMessage pdu stat) else map_find i (messages_on_sim_card_ s)) /\
    dispatch clock env (delete_command index) s2 = (Ok true, s3) /\
    out s3 = out s2 ++ [Response [str "OK"]] /\
    (forall i, map_find i (messages_on_sim_card_ s3) = map_find i (messages_on_sim_card_ s)).
Proof.
  intros Hr Hw1 Hw2 Hid Hl Hst index. destruct (reachable_store s Hr) as (Hs & H1 & Hf).
  assert (Hnone : map_find index (messages_on_sim_card_ s) = None).
  { destruct (map_find index _) eqn:E; [|done]. apply map_find_elem in E.
    rewrite Forall_forall in Hf. apply Hf in E. simpl in E. unfold index in E. lia. }
  assert (Hst' : (GetNextInt (SkipComma (SkipPrefix (write_command length stat)))).1 = stat).
  { unfold write_command.
    change (str "AT+CMGW=" ++ ?r) with (str "AT+CMGW" ++ "="%char :: r).
    rewrite skip_to_equals by done. unfold SkipComma.
    rewrite skip_past_app by (by apply to_string_no_comma). by rewrite GetNextInt_last. }
  assert (Hix : (GetNextInt (SkipPrefix (delete_command index))).1 = index).
  { unfold delete_command. change (str "AT+CMGD=" ++ ?r) with (str "AT+CMGD" ++ "="%char :: r).
    rewrite skip_to_equals, GetNextInt_last by (done || (unfold in_i32, index; lia)). done. }
  assert (Hd1 : HandleModemCommand InitializeCommandHandlers (write_command length stat) =
    Some HWriteSMSToSim) by apply dispatch_write.
  assert (Hd2 : HandleModemCommand InitializeCommandHandlers (delete_command index) =
    Some HDeleteSmsOnSim) by apply dispatch_delete.
  eexists _, _, _. split_and!.
  - unfold dispatch, handle. rewrite Hw1, Hw2, Hd1. unfold mbind, run_handler.
    unfold HandleWriteSMSToSim. rewrite Hst'. reflexivity.
  - done.
  - unfold dispatch. simpl. rewrite Hw1. unfold mbind, HandleWriteSMSPduToSim, increment. simpl.
    replace (in_i32 (message_id_ s + 1)) with true by (unfold in_i32; lia). reflexivity.
  - done.
  - done.
  - intros i. simpl. apply map_find_set.
  - unfold dispatch, handle. simpl is_waiting_sms_pdu_. simpl is_waiting_sms_to_sim_.
    rewrite ?Hw1, Hd2. unfold mbind, run_handler, HandleDeleteSmsOnSim. rewrite Hix.
    cbn [messages_on_sim_card_ emit set_messages set_waiting set_status].
    rewrite map_find_set. fold index. rewrite Z.eqb_refl. reflexivity.
  - done.
  - intros i. simpl. rewrite map_find_erase by (by apply map_sorted_set).
    rewrite map_find_set. fold index. destruct (Z.eqb_spec index i) as [<-|]; done.
Qed.
Definition env_of (host : Z) : Env := mkEnv (Some (Ok (str "5551234567"))) (fun _ => true) host true 0.
Definition noon : Clock := mkClock (mkTm 126 0 31 12 0 0) 3600.

Example sms_store_delete_witness :
  message_id_ (SmsService_ 0 0) = 1 /\
  exists s1 s2 s3,
    dispatch noon (env_of 6520) (write_command 9 3) (SmsService_ 0 0) = (Ok true, s1) /\
    out s1 = [] ++ [Response [str "> "]] /\
    dispatch noon (env_of 6520) (str "ATA") s1 = (Ok true, s2) /\
    out s2 = out s1 ++ [Response [str "+CMGW: " ++ to_string 1; str "OK"]] /\
    map_find 1 (messages_on_sim_card_ (SmsService_ 0 0)) = None /\
    (forall i, map_find i (messages_on_sim_card_ s2) =
       if 1 =? i then Some (mkMessage (str "ATA") 3)
       else map_find i (messages_on_sim_card_ (SmsService_ 0 0))) /\
    dispatch noon (env_of 6520) (delete_command 1) s2 = (Ok true, s3) /\
    out s3 = out s2 ++ [Response [str "OK"]] /\
    (forall i, map_find i (messages_on_sim_card_ s3) =
       map_find i (messages_on_sim_card_ (SmsService_ 0 0))).
Proof.
  split; [reflexivity|].
  apply (sms_store_delete noon (env_of 6520) (SmsService_ 0 0) 9 3 (str "ATA"));
    [constructor|reflexivity|reflexivity|simpl; lia|reflexivity|reflexivity].
Defined.

(** ** Messages between devices *)
Lemma device_digits b :
  6520 <= b <= 6527 ->
  zlen (to_string b) = 4 /\ Forall (fun c => is_digit c = true) (to_string b) /\ in_i32 b = true.
Proof.
  intros Hb. split_and!; [|apply to_string_nonneg; lia|unfold in_i32; lia].
  assert (b = 6520 \/ b = 6521 \/ b = 6522 \/ b = 6523 \/ b = 6524 \/ b = 6525 \/ b = 6526 \/ b = 6527)
    as Hc by lia.
  repeat destruct Hc as [-> | Hc]; try subst b; reflexivity.
Qed.

Lemma sms_port_device m b :
  6520 <= b <= 6527 -> zlen m = 0 \/ zlen m = 7 -> sms_port (m ++ to_string b) = Ok b.
Proof.
  intros Hb Hm. destruct (device_digits b Hb) as (Hl & _ & Hi). unfold sms_port.
  rewrite zlen_app, Hl. destruct Hm as [Hm|Hm]; rewrite Hm; simpl.
  - apply zlen_0_nil in Hm. subst m. by apply stoi_to_string.
  - unfold substr_from. rewrite substr_ok by zlen_lia. simpl.
    rewrite zslice_app_r by lia. rewrite Hm. rewrite zslice_all by zlen_lia. by apply stoi_to_string.
Qed.

Lemma send_to_device env a b pdu n cmd s :
  host_id env = a -> a <> b -> 6520 <= b <= 6527 -> ConnectToRemoteCvd env (to_string b) = true ->
  IsValidPDU (DecodePDU pdu) = true -> GetPhoneNumberFromAddress (DecodePDU pdu) = Ok n ->
  sms_port n = Ok b -> n <> [] -> in_i32 (message_reference_ s + 1) = true ->
  CreateRemotePDU (to_string a) (DecodePDU pdu) = Ok cmd ->
  exists s1, HandleSendSMSPDU env pdu s = (Ok tt, s1) /\
    out s1 = out s ++ [RemoteSocket (to_string b) [str "REM0"; remote_sms_command cmd ++ [cr]];
                       Response [str "+CMGS: " ++ to_string (message_reference_ s + 1); str "OK"]].
Proof.
  intros Ha Hne Hb Ho Hv Hn Hp Hnn Hi Hc. unfold HandleSendSMSPDU. rewrite Hv. cbn [negb].
  unfold mbind at 1, lift at 1. rewrite Hn. unfold mbind at 1, lift at 1. rewrite Hp.
  rewrite bool_decide_false by done. unfold mbind at 1, route.
  replace (_ && _) with true by (simpl; lia).
  rewrite bool_decide_false by (unfold GetHostId; rewrite Ha; intros E%(inj to_string); done).
  unfold SendSmsToRemote. rewrite Ho. cbn [negb]. unfold mbind at 1, lift at 1, GetHostId.
  rewrite Ha, Hc. unfold mbind, get, lift, increment, modify. simpl message_reference_. rewrite Hi.
  destruct (IsNeededStatuReport _); (eexists; split; [reflexivity|simpl; by rewrite <- app_assoc]).
Qed.

(** C8. A short message from device a to device b, by its four-digit number or
    the eleven-digit one that ends in it: sending a valid PDU answers with a new
    message reference and writes to b's socket a command on which b reports a
    new message, with the protocol, coding and text that were sent and with the
    number that reaches a as its originator. *)
Theorem remote_sms_delivered clock envA envB a b m pdu s sB :
  let p := DecodePDU pdu in
  host_id envA = a -> 6520 <= a <= 6527 -> 6520 <= b <= 6527 -> a <> b ->
  ConnectToRemoteCvd envA (to_string b) = true -> channel_monitor_ envB = true ->
  IsValidPDU p = true -> GetPhoneNumberFromAddress p = Ok (m ++ to_string b) ->
  zlen m = 0 \/ zlen m = 7 -> in_i32 (message_reference_ s + 1) = true ->
  is_waiting_sms_pdu_ sB = false -> is_waiting_sms_to_sim_ sB = false ->
  exists s1 sB1 command oa',
    HandleSendSMSPDU envA pdu s = (Ok tt, s1) /\
    out s1 = out s ++ [RemoteSocket (to_string b) [str "REM0"; command ++ [cr]];
                       Response [str "+CMGS: " ++ to_string (message_reference_ s + 1); str "OK"]] /\
    dispatch clock envB command sB = (Ok true, sB1) /\
    let p' := mkPdu true (pdu_type_ p) (PduParser.message_reference_ p) oa' (protocol_id_ p)
                (data_code_scheme_ p) (user_data_ p) in
    out sB1 = out sB ++ [Unsolicited (str "+CMT: 0"); Unsolicited (CreatePDU clock p')] /\
    GetPhoneNumberFromAddress p' = Ok (m ++ to_string a).
Proof.
  intros p Ha Har Hb Hne Ho Hm Hv Hn Hml Hi Hw1 Hw2.
  destruct (device_digits a Har) as (Hla & Hda & _). destruct (device_digits b Hb) as (Hlb & _ & _).
  destruct (CreateRemotePDU_delivers pdu (to_string a) (m ++ to_string b)) as (pdu' & oa' & Hc & Hd & Hnum);
    [done|done|zlen_lia|done|done|].
  fold p in Hc, Hd. rewrite Hd in Hnum.
  rewrite zlen_app, Hlb, ztake_app_le, ztake_all in Hnum by lia.
  destruct (send_to_device envA a b pdu (m ++ to_string b) pdu' s) as (s1 & Hs1 & Hout); try done.
  - by apply sms_port_device.
  - intros E. apply (f_equal zlen) in E. rewrite zlen_app, Hlb, zlen_nil in E. zlen_lia.
  - eexists s1, _, (remote_sms_command pdu'), oa'. split; [done|]. split; [done|]. split; [|split; [|done]].
    + unfold dispatch, handle, remote_sms_command. rewrite Hw1, Hw2, dispatch_remote_sms.
      unfold mbind, run_handler, HandleReceiveRemoteSMS.
      change (str "AT+REMOTESMS=" ++ pdu') with (str "AT+REMOTESMS" ++ "="%char :: pdu').
      rewrite skip_to_equals, Hd by done. reflexivity.
    + simpl. unfold deliver, monitored. rewrite Hm. done.
Qed.

Definition example_sms : bytes := str "0001000481561200000361F118".
Example remote_sms_delivered_witness :
  IsValidPDU (DecodePDU example_sms) = true /\
  exists s1 sB1 command oa',
    HandleSendSMSPDU (env_of 6520) example_sms (SmsService_ 0 0) = (Ok tt, s1) /\
    out s1 = [] ++ [RemoteSocket (to_string 6521) [str "REM0"; command ++ [cr]];
                    Response [str "+CMGS: " ++ to_string (1 + 1); str "OK"]] /\
    dispatch noon (env_of 6521) command (SmsService_ 0 0) = (Ok true, sB1) /\
    let p' := mkPdu true (str "01") (str "00") oa' (str "00") (str "00") (str "0361F118") in
    out sB1 = [] ++ [Unsolicited (str "+CMT: 0"); Unsolicited (CreatePDU noon p')] /\
    GetPhoneNumberFromAddress p' = Ok ([] ++ to_string 6520).
Proof.
  split; [reflexivity|].
  apply (remote_sms_delivered noon (env_of 6520) (env_of 6521) 6520 6521 [] example_sms
           (SmsService_ 0 0) (SmsService_ 0 0));
    try reflexivity; try lia; left; reflexivity.
Defined.
End SmsService.
