(* ===== verification/SupService.v ===== *)
(** * Supplementary services (modem_simulator/sup_service.{h,cpp})

    Call forwarding, call waiting and the settings around them. *)
From S2P Require Import Prelude CppString ModemCommand.

Module SupService.
Import CppString ModemCommand.

(** Enumerations are kept as the integers that are cast to them. *)
Record CallForwardInfo := mkForward {
  status : Z; reason : Z; number_type : Z; ton : Z; number : bytes; timeSeconds : Z }.
Definition DISABLE : Z := 0.
Definition ENABLE : Z := 1.
Definition INTERROGATE : Z := 2.
Definition REGISTRATION : Z := 3.
Definition CFNR : Z := 2.

Definition CallForwardInfo_ (reason : Z) : CallForwardInfo := mkForward DISABLE reason 2 129 [] 0.

Record CallWaitingInfo := mkWaiting { presentation_status : Z; mode : Z; classx : Z }.

Record Service := mkService {
  clir_type : Z; clir_status : Z;
  call_forward_infos_ : list CallForwardInfo;
  call_waiting_info_ : CallWaitingInfo;
  out : list Output
}.

(** [InitializeServiceState]; [clir_status_] is not initialised. *)
Definition SupService_ (uninit_type uninit_status : Z) : Service :=
  mkService uninit_type uninit_status
    [CallForwardInfo_ 0; CallForwardInfo_ 1; CallForwardInfo_ 2; CallForwardInfo_ 3]
    (mkWaiting 1 0 7) [].

Definition reply (lines : list bytes) (s : Service) : Service :=
  mkService (clir_type s) (clir_status s) (call_forward_infos_ s) (call_waiting_info_ s)
    (out s ++ [Response lines]).
Definition set_forward (fs : list CallForwardInfo) (s : Service) : Service :=
  mkService (clir_type s) (clir_status s) fs (call_waiting_info_ s) (out s).

Definition HandleUSSD (command : bytes) (s : Service) : Service := reply [str "OK"] s.
Definition HandleSuppServiceNotifications (command : bytes) (s : Service) : Service := reply [str "OK"] s.
Definition HandleCLIP (s : Service) : Service := reply [str "+CLIP: 0, 0"; str "OK"] s.

Definition HandleCLIR (command : bytes) (s : Service) : Service :=
  let cmd := SkipPrefix command in
  if bool_decide (cmd = str "AT+CLIR?")
  then reply [str "+CLIR:" ++ to_string (clir_type s) ++ comma :: to_string (clir_status s); str "OK"] s
  else reply [str "OK"]
         (mkService (GetNextInt cmd).1 (clir_status s) (call_forward_infos_ s) (call_waiting_info_ s) (out s)).

(** One line of an interrogation. *)
Definition ccfcu_line (classx number_type_ ton_ : Z) (info : CallForwardInfo) (with_time : bool) : bytes :=
  str "+CCFCU: " ++ to_string (status info) ++ comma :: to_string classx ++ comma ::
    to_string number_type_ ++ comma :: to_string ton_ ++ comma ::
    dquote :: number info ++ dquote ::
    (if with_time then str ",,," ++ to_string (timeSeconds info) else []).

Definition HandleCallForward (command : bytes) (s : Service) : result unit * Service :=
  let cmd := SkipPrefix command in
  let '(reason_, cmd) := GetNextInt cmd in
  let '(status_, cmd) := GetNextInt cmd in
  let '(number_type_, cmd) := GetNextInt cmd in
  let '(ton_, cmd) := GetNextInt cmd in
  let '(number_, cmd) := GetNextStr cmd in
  let '(classx_, cmd) := GetNextInt cmd in
  if reason_ =? 4 then
    (* ALL_CF *)
    let responses :=
      if status_ =? INTERROGATE
      then (fun i => ccfcu_line classx_ number_type_ ton_ i (reason i =? CFNR)) <$> call_forward_infos_ s
      else [] in
    (Ok tt, reply (responses ++ [str "OK"]) s)
  else if (0 <=? reason_) && (reason_ <=? 3) then
    match znth reason_ (call_forward_infos_ s) with
    | None => (Fatal "vector index", s)
    | Some info =>
        if status_ =? INTERROGATE
        then (Ok tt, reply [ccfcu_line classx_ number_type_ ton_ info (reason_ =? CFNR); str "OK"] s)
        else
          let time := if reason_ =? CFNR
                      then let t := (GetNextInt (SkipComma (SkipComma (SkipComma cmd)))).1 in
                           if 0 <=? t then t else 0
                      else timeSeconds info in
          let info' := mkForward (if status_ =? REGISTRATION then ENABLE else status_) (reason info)
                         number_type_ ton_ number_ time in
          (Ok tt, reply [str "OK"] (set_forward (<[Z.to_nat reason_ := info']> (call_forward_infos_ s)) s))
    end
  else (Ok tt, reply [kCmeErrorInCorrectParameters] s).

Definition HandleCallWaiting (command : bytes) (s : Service) : Service :=
  let cmd := SkipComma (SkipPrefix command) in
  let '(mode_, cmd) := GetNextInt cmd in
  let '(classx_, cmd) := GetNextInt cmd in
  let w := call_waiting_info_ s in
  if mode_ =? 2 then
    let classx_ := if classx_ =? -1 then 7 else classx_ in
    reply [str "+CCWA: " ++ to_string (mode w) ++ comma :: to_string classx_; str "OK"] s
  else if (mode_ =? 0) || (mode_ =? 1) then
    let w' := mkWaiting (presentation_status w) mode_ (if classx_ =? -1 then classx w else classx_) in
    reply [str "OK"] (mkService (clir_type s) (clir_status s) (call_forward_infos_ s) w' (out s))
  else reply [str "OK"] s.

(** ** Dispatch *)
Inductive Handler := HUSSD | HCLIR | HCallWaiting | HCLIP | HCallForward | HSuppServiceNotifications.
Definition InitializeCommandHandlers : list (CommandHandler Handler) :=
  [ mkHandler (str "+CUSD") PARTIAL_MATCH HUSSD;
    mkHandler (str "+CLIR") PARTIAL_MATCH HCLIR;
    mkHandler (str "+CCWA") PARTIAL_MATCH HCallWaiting;
    mkHandler (str "+CLIP?") FULL_MATCH HCLIP;
    mkHandler (str "+CCFCU") PARTIAL_MATCH HCallForward;
    mkHandler (str "+CSSN") PARTIAL_MATCH HSuppServiceNotifications ].

Definition run_handler (command : bytes) (h : Handler) : M Service unit := fun s =>
  match h with
  | HUSSD => (Ok tt, HandleUSSD command s)
  | HCLIR => (Ok tt, HandleCLIR command s)
  | HCallWaiting => (Ok tt, HandleCallWaiting command s)
  | HCLIP => (Ok tt, HandleCLIP s)
  | HCallForward => HandleCallForward command s
  | HSuppServiceNotifications => (Ok tt, HandleSuppServiceNotifications command s)
  end.

Definition handle (command : bytes) : M Service bool :=
  match HandleModemCommand InitializeCommandHandlers command with
  | Some h => let! _ := run_handler command h in mret true
  | None => mret false
  end.

(** ** Call forwarding *)
Definition ccfcu_command (reason status nt ton : Z) (num : bytes) (classx time : Z) : bytes :=
  str "AT+CCFCU=" ++ to_string reason ++ comma :: to_string status ++ comma :: to_string nt ++
    comma :: to_string ton ++ comma :: dquote :: num ++ dquote :: comma :: to_string classx ++
    comma :: str ",,," ++ to_string time.

Definition forward_inv (s : Service) : Prop :=
  reason <$> call_forward_infos_ s = [0; 1; 2; 3].

Lemma parse_ccfcu r st nt t num c time :
  in_i32 r = true -> in_i32 st = true -> in_i32 nt = true -> in_i32 t = true -> in_i32 c = true ->
  dquote ∉ num ->
  let c0 := SkipPrefix (ccfcu_command r st nt t num c time) in
  let '(a, c1) := GetNextInt c0 in let '(b, c2) := GetNextInt c1 in
  let '(d, c3) := GetNextInt c2 in let '(e, c4) := GetNextInt c3 in
  let '(f, c5) := GetNextStr c4 in let '(g, c6) := GetNextInt c5 in
  (a, b, d, e, f, g, c6) = (r, st, nt, t, num, c, str ",,," ++ to_string time).
Proof.
  intros H1 H2 H3 H4 H5 Hq. cbv zeta. unfold ccfcu_command, SkipPrefix.
  match goal with |- context [str "AT+CCFCU=" ++ ?x] =>
    change (str "AT+CCFCU=" ++ x) with (str "AT+CCFCU" ++ "="%char :: x) end.
  rewrite skip_past_app by (apply (bool_decide_unpack _); vm_compute; exact I).
  rewrite !GetNextInt_app by done. rewrite GetNextStr_quoted by done.
  unfold SkipComma. by rewrite skip_past_head, GetNextInt_app.
Qed.

Lemma skip_commas time :
  SkipComma (SkipComma (SkipComma (str ",,," ++ to_string time))) = to_string time.
Proof.
  unfold SkipComma. change (str ",,," ++ to_string time) with (comma :: comma :: comma :: to_string time).
  by rewrite !skip_past_head.
Qed.

Lemma forward_call r st nt t num c time s :
  in_i32 r = true -> in_i32 st = true -> in_i32 nt = true -> in_i32 t = true -> in_i32 c = true ->
  in_i32 time = true -> (dquote ∉ num) -> 0 <= r <= 3 -> forward_inv s ->
  exists info, call_forward_infos_ s !! Z.to_nat r = Some info /\ reason info = r /\
  HandleCallForward (ccfcu_command r st nt t num c time) s =
    if st =? INTERROGATE
    then (Ok tt, reply [ccfcu_line c nt t info (r =? CFNR); str "OK"] s)
    else (Ok tt, reply [str "OK"] (set_forward (<[Z.to_nat r :=
           mkForward (if st =? REGISTRATION then ENABLE else st) r nt t num
             (if r =? CFNR then if 0 <=? time then time else 0 else timeSeconds info)]>
           (call_forward_infos_ s)) s)).
Proof.
  intros H1 H2 H3 H4 H5 H6 Hq Hr Hi.
  pose proof (parse_ccfcu r st nt t num c time H1 H2 H3 H4 H5 Hq) as Hp. cbv zeta in Hp.
  assert (Hx : exists info, call_forward_infos_ s !! Z.to_nat r = Some info /\ reason info = r).
  { assert (Hl : ([0; 1; 2; 3] : list Z) !! Z.to_nat r = Some r).
    { assert (r = 0 \/ r = 1 \/ r = 2 \/ r = 3) as Hc by lia. by destruct Hc as [->|[->|[->| ->]]]. }
    rewrite <- Hi, list_lookup_fmap in Hl. apply fmap_Some in Hl as (info & ? & ?). by exists info. }
  destruct Hx as (info & Hl & Hre). exists info. split; [done|]. split; [done|].
  unfold HandleCallForward. revert Hp.
  destruct (GetNextInt (SkipPrefix _)) as [a c1]. destruct (GetNextInt c1) as [b c2].
  destruct (GetNextInt c2) as [d c3]. destruct (GetNextInt c3) as [e c4].
  destruct (GetNextStr c4) as [f c5]. destruct (GetNextInt c5) as [g c6].
  intros Hp. assert (c6 = str ",,," ++ to_string time) as -> by congruence.
  assert (a = r) as -> by congruence. assert (b = st) as -> by congruence.
  assert (d = nt) as -> by congruence. assert (e = t) as -> by congruence.
  assert (f = num) as -> by congruence. assert (g = c) as -> by congruence. clear Hp.
  rewrite (proj2 (Z.eqb_neq r 4)), (proj2 (Z.leb_le 0 r)), (proj2 (Z.leb_le r 3)) by lia. cbn [andb].
  rewrite znth_lookup, Hl by lia. rewrite skip_commas, GetNextInt_last by done. cbn [fst].
  rewrite Hre. done.
Qed.

(** Call forwarding, for each of the four conditions the service keeps: a
    registration (AT+CCFCU with status 3) is answered with OK, changes the entry
    of that condition only, and a later interrogation reports forwarding enabled
    to the number registered, with the time that was given for no-reply. *)
Theorem call_forward_roundtrip r nt t num c time c' nt' t' s :
  0 <= r <= 3 -> Forall (fun z => in_i32 z = true) [nt; t; c; time; c'; nt'; t'] -> 0 <= time ->
  (dquote ∉ num) -> forward_inv s ->
  exists s1 s2,
    HandleCallForward (ccfcu_command r REGISTRATION nt t num c time) s = (Ok tt, s1) /\
    out s1 = out s ++ [Response [str "OK"]] /\ forward_inv s1 /\
    (forall i, i <> Z.to_nat r -> call_forward_infos_ s1 !! i = call_forward_infos_ s !! i) /\
    HandleCallForward (ccfcu_command r INTERROGATE nt' t' [] c' 0) s1 = (Ok tt, s2) /\
    exists info, number info = num /\ status info = ENABLE /\ (r = CFNR -> timeSeconds info = time) /\
      out s2 = out s1 ++ [Response [ccfcu_line c' nt' t' info (r =? CFNR); str "OK"]].
Proof.
  intros Hr Hz Ht Hq Hi. rewrite !Forall_cons in Hz. destruct Hz as (H1 & H2 & H3 & H4 & H5 & H6 & H7 & _).
  assert (Hri : in_i32 r = true) by (unfold in_i32; lia).
  destruct (forward_call r REGISTRATION nt t num c time s) as (info & Hl & Hre & ->); try done.
  change (REGISTRATION =? INTERROGATE) with false. cbv iota.
  set (info' := mkForward _ r nt t num _). set (s1 := reply _ _).
  assert (Hlt : (Z.to_nat r < length (call_forward_infos_ s))%nat) by (by eapply lookup_lt_Some).
  assert (Hl1 : call_forward_infos_ s1 !! Z.to_nat r = Some info') by (by apply list_lookup_insert_eq).
  assert (Hi1 : forward_inv s1).
  { unfold forward_inv, s1. simpl. rewrite list_fmap_insert. rewrite Hi. simpl.
    apply list_insert_id. rewrite <- Hi, list_lookup_fmap, Hl. simpl. by rewrite Hre. }
  destruct (forward_call r INTERROGATE nt' t' [] c' 0 s1) as (info2 & Hl2 & _ & He); try done.
  { set_solver. }
  rewrite Hl1 in Hl2. injection Hl2 as <-.
  change (INTERROGATE =? INTERROGATE) with true in He. cbv iota in He.
  exists s1. eexists. split_and!; [done|done|done| |exact He|].
  - intros i Hne. unfold s1. simpl. by apply list_lookup_insert_ne.
  - exists info'. split_and!; [done|done| |done].
    intros ->. simpl. by rewrite (proj2 (Z.leb_le 0 time)).
Qed.

Example call_forward_roundtrip_witness :
  forward_inv (SupService_ 0 0) /\
  exists s1 s2,
    HandleCallForward (ccfcu_command 2 REGISTRATION 2 145 (str "5551234") 1 20) (SupService_ 0 0) = (Ok tt, s1) /\
    out s1 = [] ++ [Response [str "OK"]] /\ forward_inv s1 /\
    (forall i, i <> Z.to_nat 2 ->
       call_forward_infos_ s1 !! i = call_forward_infos_ (SupService_ 0 0) !! i) /\
    HandleCallForward (ccfcu_command 2 INTERROGATE 2 129 [] 1 0) s1 = (Ok tt, s2) /\
    exists info, number info = str "5551234" /\ status info = ENABLE /\ (2 = CFNR -> timeSeconds info = 20) /\
      out s2 = out s1 ++ [Response [ccfcu_line 1 2 129 info (2 =? CFNR); str "OK"]].
Proof.
  split; [reflexivity|].
  apply (call_forward_roundtrip 2 2 145 (str "5551234") 1 20 1 2 129 (SupService_ 0 0));
    [lia|repeat constructor|lia|apply (bool_decide_unpack _); vm_compute; exact I|reflexivity].
Defined.
End SupService.
