(* ===== verification/DataService.v ===== *)
(** * Data contexts (modem_simulator/data_service.{h,cpp})

    The table of PDP contexts and the notices about the physical channel. *)
From S2P Require Import Prelude CppString ModemCommand ThreadLooper.

Module DataService.
Import CppString ModemCommand ThreadLooper.

Inductive CidState := ACTIVE | NO_ACTIVE.
#[global] Instance CidState_eq_dec : EqDecision CidState.
Proof. solve_decision. Defined.
Definition state_int (s : CidState) : Z := match s with ACTIVE => 0 | NO_ACTIVE => 1 end.

Record PDPContext := mkContext {
  cid : Z; state : CidState; conn_types : bytes; apn : bytes;
  addresses : bytes; dnses : bytes; gateways : bytes }.

(** The callback this service posts for itself. *)
Inductive Callback := UpdatePhysicalChannelconfigs_cb (modem_tech freq bandwidth count : Z).

Record Service := mkService {
  pdp_context_ : list PDPContext; looper : Looper Callback; out : list Output }.
Definition DataService_ : Service := mkService [] ThreadLooper_ [].

(** What the device configuration says. *)
Record Env := mkEnv {
  ril_address_and_prefix : bytes; ril_dns : bytes; ril_gateway : bytes;
  channel_monitor_ : bool; now : Z }.

Definition emit (os : list Output) (s : Service) : Service :=
  mkService (pdp_context_ s) (looper s) (out s ++ os).
Definition reply (lines : list bytes) : Service -> Service := emit [Response lines].

Definition HandleActivateDataCall (command : bytes) (s : Service) : Service := reply [str "OK"] s.
Definition HandleCommandDefaultSupported (s : Service) : Service := reply [str "OK" ++ [cr]] s.

Definition HandleQueryDataCallList (s : Service) : Service :=
  reply (((fun c => str "+CGACT: " ++ to_string (cid c) ++ comma :: to_string (state_int (state c))) <$>
            base.filter (fun c => state c = ACTIVE) (pdp_context_ s)) ++ [str "OK"]) s.

(** Replace the context with the same cid, or add one. *)
Fixpoint put_context (c : PDPContext) (l : list PDPContext) : list PDPContext :=
  match l with
  | [] => [c]
  | d :: l' => if cid c =? cid d then c :: l' else d :: put_context c l'
  end.

Definition HandlePDPContext (env : Env) (command : bytes) (s : Service) : Service :=
  let cmd := SkipPrefix command in
  let '(cid_, cmd) := GetNextInt cmd in
  let '(ip_type, cmd) := GetNextStr_flag comma cmd in
  let '(apn_, cmd) := GetNextStr_flag comma cmd in
  let pdp_context := mkContext cid_ ACTIVE ip_type apn_ (ril_address_and_prefix env) (ril_dns env)
                       (ril_gateway env) in
  reply [str "OK"] (mkService (put_context pdp_context (pdp_context_ s)) (looper s) (out s)).

Definition HandleQueryPDPContextList (s : Service) : Service :=
  reply (((fun c => str "+CGDCONT: " ++ to_string (cid c) ++ comma :: conn_types c ++ comma :: apn c ++
                      comma :: addresses c ++ str ",0,0") <$> pdp_context_ s) ++ [str "OK"]) s.

Definition find_active (cid_ : Z) (s : Service) : option PDPContext :=
  find (fun c => (cid_ =? cid c) && bool_decide (state c = ACTIVE)) (pdp_context_ s).

Definition HandleEnterDataState (command : bytes) (s : Service) : Service :=
  let cid_ := (GetNextInt (SkipComma (SkipPrefix command))).1 in
  match find_active cid_ s with
  | Some _ => reply [str "CONNECT"] s
  | None => reply [str "ERROR"] s
  end.

Definition HandleReadDynamicParam (command : bytes) (s : Service) : Service :=
  let cid_ := (GetNextInt (SkipPrefix command)).1 in
  match find_active cid_ s with
  | None => reply [kCmeErrorInvalidIndex] s
  | Some c =>
      reply [str "+CGCONTRDP: " ++ to_string (cid c) ++ str ",5," ++ apn c ++ comma :: addresses c ++
               comma :: gateways c ++ comma :: dnses c; str "OK"] s
  end.

Definition sendOnePhysChanCfgUpdate (env : Env) (status bandwidth rat freq id : Z) : list Output :=
  if channel_monitor_ env then
    [Unsolicited (str "%CGFPCCFG: " ++ to_string status ++ comma :: to_string bandwidth ++ comma ::
                    to_string rat ++ comma :: to_string freq ++ comma :: to_string id)]
  else [].

Definition updatePhysicalChannelconfigs (env : Env) (modem_tech freq bandwidth count : Z) (s : Service)
  : Service :=
  if count <=? 0 then s
  else
    let notices := concat ((fun c =>
      sendOnePhysChanCfgUpdate env 1 bandwidth modem_tech freq (cid c) ++
      sendOnePhysChanCfgUpdate env 2 bandwidth modem_tech freq (cid c)) <$>
      base.filter (fun c => state c = ACTIVE) (pdp_context_ s)) in
    let s := emit notices s in
    mkService (pdp_context_ s)
      (Post (now env) (UpdatePhysicalChannelconfigs_cb modem_tech freq bandwidth (count - 1)) 1 (looper s)).2
      (out s).

Definition onUpdatePhysicalChannelconfigs (env : Env) (modem_tech freq bandwidth : Z) (s : Service) : Service :=
  updatePhysicalChannelconfigs env modem_tech freq bandwidth 3 s.

(** ** Dispatch *)
Inductive Handler :=
  HActivateDataCall | HQueryDataCallList | HPDPContext | HQueryPDPContextList | HDefaultSupported
| HEnterDataState | HReadDynamicParam.
Definition InitializeCommandHandlers : list (CommandHandler Handler) :=
  [ mkHandler (str "+CGACT=") PARTIAL_MATCH HActivateDataCall;
    mkHandler (str "+CGACT?") FULL_MATCH HQueryDataCallList;
    mkHandler (str "+CGDCONT=") PARTIAL_MATCH HPDPContext;
    mkHandler (str "+CGDCONT?") FULL_MATCH HQueryPDPContextList;
    mkHandler (str "+CGQREQ=1") FULL_MATCH HDefaultSupported;
    mkHandler (str "+CGQMIN=1") FULL_MATCH HDefaultSupported;
    mkHandler (str "+CGEREP=1,0") FULL_MATCH HDefaultSupported;
    mkHandler (str "+CGDATA") PARTIAL_MATCH HEnterDataState;
    mkHandler (str "D*99***1#") FULL_MATCH HDefaultSupported;
    mkHandler (str "+CGCONTRDP") PARTIAL_MATCH HReadDynamicParam ].

Definition run_handler (env : Env) (command : bytes) (h : Handler) (s : Service) : Service :=
  match h with
  | HActivateDataCall => HandleActivateDataCall command s
  | HQueryDataCallList => HandleQueryDataCallList s
  | HPDPContext => HandlePDPContext env command s
  | HQueryPDPContextList => HandleQueryPDPContextList s
  | HDefaultSupported => HandleCommandDefaultSupported s
  | HEnterDataState => HandleEnterDataState command s
  | HReadDynamicParam => HandleReadDynamicParam command s
  end.

Definition handle (env : Env) (command : bytes) (s : Service) : bool * Service :=
  match HandleModemCommand InitializeCommandHandlers command with
  | Some h => (true, run_handler env command h s)
  | None => (false, s)
  end.

(** ** Contexts *)
Definition contexts_inv (s : Service) : Prop :=
  NoDup (cid <$> pdp_context_ s) /\ Forall (fun c => state c = ACTIVE) (pdp_context_ s).

Lemma elem_of_put_context c l x : x ∈ put_context c l -> x = c \/ x ∈ l.
Proof.
  induction l as [|d l IH]; simpl; [set_solver|]. destruct (cid c =? cid d); set_solver.
Qed.

Lemma put_context_cids c l k : k ∈ cid <$> put_context c l -> k = cid c \/ k ∈ cid <$> l.
Proof.
  intros (x & -> & [->|Hx]%elem_of_put_context)%list_elem_of_fmap; [by left|right].
  by apply list_elem_of_fmap_2.
Qed.

Lemma put_context_NoDup c l : NoDup (cid <$> l) -> NoDup (cid <$> put_context c l).
Proof.
  induction l as [|d l IH]; simpl; [intros _; apply NoDup_singleton|].
  intros [Hd Hn]%NoDup_cons. destruct (Z.eqb_spec (cid c) (cid d)) as [E|E].
  - simpl. rewrite E. by apply NoDup_cons.
  - simpl. apply NoDup_cons. split; [|auto]. intros [?|?]%put_context_cids; [congruence|done].
Qed.

Lemma contexts_inv_handle env command s : contexts_inv s -> contexts_inv (handle env command s).2.
Proof.
  intros [Hn Ha]. unfold handle. destruct (HandleModemCommand _ _) as [h|]; [|done].
  destruct h; simpl; try done.
  - unfold HandlePDPContext. destruct (GetNextInt _) as [i c1].
    destruct (GetNextStr_flag comma c1) as [t c2]. destruct (GetNextStr_flag comma c2) as [a c3].
    split; simpl; [by apply put_context_NoDup|]. rewrite Forall_forall in *.
    intros x [->|Hx]%elem_of_put_context; auto.
  - unfold HandleEnterDataState. by destruct (find_active _ _).
  - unfold HandleReadDynamicParam. by destruct (find_active _ _).
Qed.

Lemma find_put_context c l i :
  NoDup (cid <$> l) -> Forall (fun c => state c = ACTIVE) (c :: l) ->
  find (fun d => (i =? cid d) && bool_decide (state d = ACTIVE)) (put_context c l) =
  if i =? cid c then Some c
  else find (fun d => (i =? cid d) && bool_decide (state d = ACTIVE)) l.
Proof.
  intros Hn [Hc Ha]%Forall_cons. induction l as [|d l IH]; simpl.
  - destruct (i =? cid c); [|done]. by rewrite bool_decide_true.
  - apply NoDup_cons in Hn as [_ Hn]. apply Forall_cons in Ha as [Hd Ha]. specialize (IH Hn Ha).
    destruct (Z.eqb_spec (cid c) (cid d)) as [E|E]; simpl.
    + rewrite <- E, !bool_decide_true by done. destruct (i =? cid c); done.
    + rewrite IH, !(bool_decide_true (state d = ACTIVE)) by done.
      destruct (Z.eqb_spec i (cid d)), (Z.eqb_spec i (cid c)); simpl; try done. congruence.
Qed.

Inductive reachable : Service -> Prop :=
| reach_init : reachable DataService_
| reach_command env command s : reachable s -> reachable (handle env command s).2
| reach_update env t f b n s : reachable s -> reachable (updatePhysicalChannelconfigs env t f b n s).

Lemma reachable_contexts s : reachable s -> contexts_inv s.
Proof.
  induction 1 as [|env command s _ IH|env t f b n s _ IH].
  - split; simpl; constructor.
  - by apply contexts_inv_handle.
  - unfold updatePhysicalChannelconfigs. by destruct (n <=? 0).
Qed.

Definition define_command (i : Z) (ip_type name : bytes) : bytes :=
  str "AT+CGDCONT=" ++ to_string i ++ comma :: ip_type ++ comma :: name.

(** Data contexts in any state the service reaches: their ids are distinct;
    defining one (AT+CGDCONT) gives that id exactly the type and access point
    asked for, with the device's addresses, and leaves the others; and an id can
    enter the data state if and only if it has been defined. *)
Theorem data_contexts env i ip_type name s :
  reachable s -> in_i32 i = true -> (comma ∉ ip_type) -> (comma ∉ name) ->
  let s1 := HandlePDPContext env (define_command i ip_type name) s in
  NoDup (cid <$> pdp_context_ s) /\
  out s1 = out s ++ [Response [str "OK"]] /\
  (forall j, find_active j s1 =
     if j =? i then Some (mkContext i ACTIVE ip_type name (ril_address_and_prefix env) (ril_dns env)
                            (ril_gateway env))
     else find_active j s) /\
  (forall j, in_i32 j = true ->
     out (HandleEnterDataState (str "AT+CGDATA=PPP," ++ to_string j) s) =
     out s ++ [Response [if bool_decide (j ∈ cid <$> pdp_context_ s) then str "CONNECT" else str "ERROR"]]).
Proof.
  intros Hr Hi Ht Hn s1. destruct (reachable_contexts s Hr) as [Hnd Ha].
  assert (E1 : s1 = reply [str "OK"] (mkService (put_context
    (mkContext i ACTIVE ip_type name (ril_address_and_prefix env) (ril_dns env) (ril_gateway env))
    (pdp_context_ s)) (looper s) (out s))).
  { unfold s1, HandlePDPContext, define_command, SkipPrefix.
    match goal with |- context [str "AT+CGDCONT=" ++ ?x] =>
      change (str "AT+CGDCONT=" ++ x) with (str "AT+CGDCONT" ++ "="%char :: x) end.
    rewrite skip_past_app by (apply (bool_decide_unpack _); vm_compute; exact I).
    by rewrite GetNextInt_app, GetNextStr_flag_app, GetNextStr_flag_all. }
  split; [done|]. rewrite E1. split; [done|]. split.
  - intros j. unfold find_active. cbn [pdp_context_ reply emit]. apply find_put_context; [done|].
    by constructor.
  - intros j Hj. unfold HandleEnterDataState, SkipPrefix.
    change (str "AT+CGDATA=PPP," ++ to_string j) with (str "AT+CGDATA" ++ "="%char :: str "PPP" ++ comma :: to_string j).
    rewrite skip_past_app by (apply (bool_decide_unpack _); vm_compute; exact I). unfold SkipComma.
    rewrite skip_past_app by (apply (bool_decide_unpack _); vm_compute; exact I).
    rewrite GetNextInt_last by done. cbn [fst]. unfold find_active.
    destruct (find _ (pdp_context_ s)) as [c|] eqn:E.
    + apply find_some in E as [Hin Hc]. apply andb_true_iff in Hc as [Hc%Z.eqb_eq _].
      rewrite bool_decide_true; [done|]. subst j. by apply list_elem_of_fmap_2, list_elem_of_In.
    + rewrite bool_decide_false; [done|]. intros (c & -> & Hin)%list_elem_of_fmap.
      rewrite Forall_forall in Ha. pose proof (Ha c Hin) as Hst.
      apply list_elem_of_In, (find_none _ _ E) in Hin. rewrite Z.eqb_refl, bool_decide_true in Hin by done.
      done.
Qed.

Example data_contexts_witness :
  let env := mkEnv (str "10.0.0.2/24") (str "8.8.8.8") (str "10.0.0.1") true 0 in
  let s1 := HandlePDPContext env (define_command 1 (str "IP") (str "internet")) DataService_ in
  NoDup (cid <$> pdp_context_ DataService_) /\
  out s1 = [] ++ [Response [str "OK"]] /\
  (forall j, find_active j s1 =
     if j =? 1 then Some (mkContext 1 ACTIVE (str "IP") (str "internet") (str "10.0.0.2/24") (str "8.8.8.8")
                            (str "10.0.0.1"))
     else find_active j DataService_) /\
  (forall j, in_i32 j = true ->
     out (HandleEnterDataState (str "AT+CGDATA=PPP," ++ to_string j) DataService_) =
     [] ++ [Response [if bool_decide (j ∈ cid <$> pdp_context_ DataService_) then str "CONNECT" else str "ERROR"]]).
Proof.
  apply (data_contexts (mkEnv (str "10.0.0.2/24") (str "8.8.8.8") (str "10.0.0.1") true 0) 1
           (str "IP") (str "internet") DataService_);
    [constructor|reflexivity| |]; (apply (bool_decide_unpack _); vm_compute; exact I).
Defined.
End DataService.
