(* ===== verification/MiscService.v ===== *)
(** * Identity and time notices (modem_simulator/misc_service.{h,cpp})

    The clock is an argument: what [gmtime], [localtime] and [TimeZoneOffset]
    make of it. *)
From S2P Require Import Prelude CppString ModemCommand PduParser.

Module MiscService.
Import CppString ModemCommand PduParser.

(** [timezone_] and what was sent. *)
Record Service := mkService { timezone_ : bytes; out : list Output }.

Record Env := mkEnv {
  gm_time : Tm;              (* gmtime of now *)
  TimeZoneOffset : Z;        (* seconds *)
  tm_isdst : Z;              (* of localtime *)
  channel_monitor_ : bool
}.

Definition emit (os : list Output) (s : Service) : Service := mkService (timezone_ s) (out s ++ os).
Definition reply (lines : list bytes) : Service -> Service := emit [Response lines].

(** The first slash would separate fields of the notice. *)
Definition FixTimeZone (line : bytes) : bytes :=
  match find_first_of "/"%char line with
  | Some pos => ztake pos line ++ str "!" ++ zdrop (pos + 1) line
  | None => line
  end.

(** The constructor; [None]: no time zone file or an empty one. *)
Definition ParseTimeZone (first_line : option bytes) : Service :=
  mkService (match first_line with Some line => FixTimeZone line | None => [] end) [].

Definition SetTimeZone (timezone : bytes) (s : Service) : Service :=
  mkService (FixTimeZone timezone) (out s).

Definition identityGsmImei : bytes := str "867400022047199".
Definition identityGsmSvn : bytes := str "01".
Definition information : bytes := str "modem simulator".

Definition HandleGetIMEI (command : bytes) (s : Service) : Service :=
  let line :=
    if bool_decide (command = str "AT+CGSN") then identityGsmImei
    else
      let snt := (GetNextInt (SkipPrefix command)).1 in
      if snt =? 0 then identityGsmImei ++ information
      else if snt =? 1 then identityGsmImei
      else if snt =? 2 then identityGsmImei ++ identityGsmSvn
      else if snt =? 3 then identityGsmSvn
      else identityGsmImei in
  reply [line; str "OK"] s.

Definition time_notice (env : Env) (timezone : bytes) : bytes :=
  let t := gm_time env in
  let tzdiff := Z.quot (TimeZoneOffset env) (15 * 60) in
  let two v := pad2 (to_string v) in
  str "%CTZV: " ++ two (Z.rem (tm_year t) 100) ++ str "/" ++ two (tm_mon t + 1) ++ str "/" ++
  two (tm_mday t) ++ str ":" ++ two (tm_hour t) ++ str ":" ++ two (tm_min t) ++ str ":" ++
  two (tm_sec t) ++ (if tzdiff >=? 0 then str "+" ++ to_string tzdiff else str "-" ++ to_string (- tzdiff)) ++
  str ":" ++ to_string (tm_isdst env) ++
  (if bool_decide (timezone = []) then [] else str ":" ++ timezone).

Definition TimeUpdate (env : Env) (s : Service) : Service :=
  if channel_monitor_ env then emit [Unsolicited (time_notice env (timezone_ s))] s else s.

Definition HandleTimeUpdate (env : Env) (command : bytes) (s : Service) : Service := TimeUpdate env s.

(** ** Dispatch *)
Inductive Handler := HDefaultSupported | HGetIMEI | HTimeUpdate.
Definition InitializeCommandHandlers : list (CommandHandler Handler) :=
  [ mkHandler (str "E0Q0V1") FULL_MATCH HDefaultSupported;
    mkHandler (str "S0=0") FULL_MATCH HDefaultSupported;
    mkHandler (str "+CMEE=1") FULL_MATCH HDefaultSupported;
    mkHandler (str "+CMOD=0") FULL_MATCH HDefaultSupported;
    mkHandler (str "+CSSN=0,1") FULL_MATCH HDefaultSupported;
    mkHandler (str "+COLP=0") FULL_MATCH HDefaultSupported;
    mkHandler (str "+CSCS=" ++ dquote :: str "HEX" ++ [dquote]) FULL_MATCH HDefaultSupported;
    mkHandler (str "+CMGF=0") FULL_MATCH HDefaultSupported;
    mkHandler (str "+CGSN") PARTIAL_MATCH HGetIMEI;
    mkHandler (str "+REMOTETIMEUPDATE") PARTIAL_MATCH HTimeUpdate ].

Definition run_handler (env : Env) (command : bytes) (h : Handler) (s : Service) : Service :=
  match h with
  | HDefaultSupported => reply [str "OK" ++ [cr]] s
  | HGetIMEI => HandleGetIMEI command s
  | HTimeUpdate => HandleTimeUpdate env command s
  end.

Definition handle (env : Env) (command : bytes) (s : Service) : bool * Service :=
  match HandleModemCommand InitializeCommandHandlers command with
  | Some h => (true, run_handler env command h s)
  | None => (false, s)
  end.

(** ** Time zone names *)
Lemma FixTimeZone_spec line :
  (FixTimeZone line = line /\ ("/"%char ∉ line)) \/
  exists a b, line = a ++ "/"%char :: b /\ ("/"%char ∉ a) /\ FixTimeZone line = a ++ "!"%char :: b.
Proof.
  unfold FixTimeZone. pose proof (find_first_of_spec "/"%char line) as H.
  destruct (find_first_of "/"%char line) as [pos|].
  - destruct H as (a & b & -> & Ha & ->). right. exists a, b. split_and!; [done|done|].
    rewrite ztake_app_le, ztake_all by lia. f_equal. simpl. f_equal.
    rewrite zdrop_app_ge by lia. replace (zlen a + 1 - zlen a) with 1 by lia. by destruct b.
  - by left.
Qed.

(** A name with two slashes (as in America/Argentina/Salta) keeps the second. *)
Lemma FixTimeZone_keeps_slash a b :
  "/"%char ∈ b -> "/"%char ∈ FixTimeZone (a ++ "/"%char :: b).
Proof.
  intros Hb. destruct (FixTimeZone_spec (a ++ "/"%char :: b)) as [[_ H]|(a' & b' & E & Ha & ->)]; [set_solver|].
  destruct (decide ("/"%char ∈ a)) as [Hin|Hin].
  - assert ("/"%char ∈ a ++ "/"%char :: b) as Hx by set_solver.
    apply list_elem_of_split in Hin as (x & y & ->). rewrite <- app_assoc in E. simpl in E.
    destruct (decide ("/"%char ∈ b')); [set_solver|]. exfalso.
    assert (length (base.filter (eq "/"%char) (x ++ "/"%char :: y ++ "/"%char :: b)) =
            length (base.filter (eq "/"%char) (a' ++ "/"%char :: b'))) as El by (by rewrite E).
    rewrite !filter_app, !filter_cons_True, !filter_app, !filter_cons_True, !length_app in El by done.
    cbn [length] in El. rewrite !length_app in El. cbn [length] in El.
    rewrite (filter_none (eq "/"%char) a'), (filter_none (eq "/"%char) b') in El by set_solver.
    simpl in El. lia.
  - assert (a = a' /\ b = b') as [-> ->]; [|set_solver].
    clear Hb. revert a' Ha E. induction a as [|c a IH]; intros [|c' a'] Ha E; simpl in E; simplify_eq; try set_solver.
    destruct (IH ltac:(set_solver) a') as [-> ->]; [set_solver|done|done].
Qed.
End MiscService.
