(* ===== verification/NetworkService.v ===== *)
(** * Radio, operators and registration (modem_simulator/network_service.{h,cpp})

    The service with the saved settings (nvram_config.cpp), the data service it
    notifies and the misc service it asks for time notices.  Times of the steady
    clock are in milliseconds.  Values that the code casts from integers to enums
    stay integers. *)
From S2P Require Import Prelude CppString ModemCommand ThreadLooper PduParser.
From S2P Require Import DataService MiscService.

Module NetworkService.
Import CppString ModemCommand ThreadLooper PduParser.

(** ** Enums *)
Definition M_MODEM_TECH_GSM : Z := 1.
Definition M_MODEM_TECH_WCDMA : Z := 2.
Definition M_MODEM_TECH_CDMA : Z := 4.
Definition M_MODEM_TECH_EVDO : Z := 8.
Definition M_MODEM_TECH_TDSCDMA : Z := 16.
Definition M_MODEM_TECH_LTE : Z := 32.
Definition M_MODEM_TECH_NR : Z := 64.

Definition NET_REGISTRATION_UNREGISTERED : Z := 0.
Definition NET_REGISTRATION_HOME : Z := 1.
Definition NET_REGISTRATION_SEARCHING : Z := 2.
Definition NET_REGISTRATION_DENIED : Z := 3.
Definition NET_REGISTRATION_UNKNOWN : Z := 4.
Definition NET_REGISTRATION_ROAMING : Z := 5.
Definition NET_REGISTRATION_EMERGENCY : Z := 8.

Inductive OperatorState := OPER_STATE_UNKNOWN | OPER_STATE_AVAILABLE | OPER_STATE_CURRENT | OPER_STATE_FORBIDDEN.
#[global] Instance OperatorState_eq_dec : EqDecision OperatorState.
Proof. solve_decision. Defined.
Definition operator_state_int (s : OperatorState) : Z :=
  match s with
  | OPER_STATE_UNKNOWN => 0 | OPER_STATE_AVAILABLE => 1 | OPER_STATE_CURRENT => 2 | OPER_STATE_FORBIDDEN => 3
  end.

Definition OPER_SELECTION_AUTOMATIC : Z := 0.
Definition OPER_SELECTION_MANUAL : Z := 1.
Definition OPER_SELECTION_DEREGISTRATION : Z := 2.
Definition OPER_SELECTION_MANUAL_AUTOMATIC : Z := 4.

Definition REGISTRATION_UNSOL_DISABLED : Z := 0.
Definition REGISTRATION_UNSOL_ENABLED : Z := 1.
Definition REGISTRATION_UNSOL_ENABLED_FULL : Z := 2.

Definition ACCESS_TECH_EGPRS : Z := 3.
Definition ACCESS_TECH_HSPA : Z := 6.
Definition ACCESS_TECH_EUTRAN : Z := 7.
Definition ACCESS_TECH_NR : Z := 11.

Inductive SimStatus := SIM_STATUS_ABSENT | SIM_STATUS_NOT_READY | SIM_STATUS_READY | SIM_STATUS_PIN | SIM_STATUS_PUK.
#[global] Instance SimStatus_eq_dec : EqDecision SimStatus.
Proof. solve_decision. Defined.

(** ** State *)
Record NetworkOperator := mkOperator {
  numeric : bytes; long_name : bytes; short_name : bytes; operator_state : OperatorState
}.
Record NetworkRegistrationStatus := mkStatus { unsol_mode : Z; registration_state : Z; network_type : Z }.
Definition NetworkRegistrationStatus_ : NetworkRegistrationStatus :=
  mkStatus REGISTRATION_UNSOL_ENABLED_FULL NET_REGISTRATION_UNREGISTERED ACCESS_TECH_EUTRAN.

(** The values of this service in the nvram file. *)
Record Nvram := mkNvram {
  network_selection_mode : Z; operator_numeric : bytes; modem_technoloy : Z; preferred_network_mode : Z
}.
Definition InitDefaultNvramConfig : Nvram :=
  mkNvram OPER_SELECTION_AUTOMATIC [] M_MODEM_TECH_LTE
    (Z.lor (Z.lor M_MODEM_TECH_LTE M_MODEM_TECH_WCDMA) M_MODEM_TECH_GSM).

Inductive Callback := UpdateRegisterState_cb (state : Z) | UpdateSignalStrength_cb.

Record Service := mkService {
  radio_on : bool;                                   (* radio_state_ *)
  operator_list_ : list NetworkOperator;
  current_operator_numeric_ : bytes;
  oper_selection_mode_ : Z;
  signal_strength_percent_ : Z;
  voice_registration_status_ : NetworkRegistrationStatus;
  data_registration_status_ : NetworkRegistrationStatus;
  current_network_mode_ : Z;
  preferred_network_mode_ : Z;
  first_signal_strength_request_ : bool;
  android_last_signal_time_ : Z;
  nvram : Nvram;
  data_service_ : DataService.Service;
  timezone_ : bytes;                                 (* of misc_service_ *)
  looper : @Looper Callback;
  out : list Output
}.
Definition modem_radio_capability_ : Z :=
  Z.lor (Z.lor (Z.lor M_MODEM_TECH_GSM M_MODEM_TECH_WCDMA) M_MODEM_TECH_LTE) M_MODEM_TECH_NR.

Record Env := mkEnv {
  sim_service_ : option SimStatus;                   (* GetSimStatus; None: no service *)
  now : Z;                                           (* steady clock, ms *)
  time_0 : Z;                                        (* time(0) *)
  channel_monitor_ : bool;
  data_env : DataService.Env;
  misc_env : MiscService.Env
}.

Definition set_radio (b : bool) (s : Service) : Service :=
  mkService b (operator_list_ s) (current_operator_numeric_ s) (oper_selection_mode_ s) (signal_strength_percent_ s)
    (voice_registration_status_ s) (data_registration_status_ s) (current_network_mode_ s) (preferred_network_mode_ s)
    (first_signal_strength_request_ s) (android_last_signal_time_ s) (nvram s) (data_service_ s) (timezone_ s)
    (looper s) (out s).
Definition set_operators (l : list NetworkOperator) (current : bytes) (mode : Z) (s : Service) : Service :=
  mkService (radio_on s) l current mode (signal_strength_percent_ s)
    (voice_registration_status_ s) (data_registration_status_ s) (current_network_mode_ s) (preferred_network_mode_ s)
    (first_signal_strength_request_ s) (android_last_signal_time_ s) (nvram s) (data_service_ s) (timezone_ s)
    (looper s) (out s).
Definition set_percent (p : Z) (s : Service) : Service :=
  mkService (radio_on s) (operator_list_ s) (current_operator_numeric_ s) (oper_selection_mode_ s) p
    (voice_registration_status_ s) (data_registration_status_ s) (current_network_mode_ s) (preferred_network_mode_ s)
    (first_signal_strength_request_ s) (android_last_signal_time_ s) (nvram s) (data_service_ s) (timezone_ s)
    (looper s) (out s).
Definition set_status (voice data : NetworkRegistrationStatus) (s : Service) : Service :=
  mkService (radio_on s) (operator_list_ s) (current_operator_numeric_ s) (oper_selection_mode_ s) (signal_strength_percent_ s)
    voice data (current_network_mode_ s) (preferred_network_mode_ s)
    (first_signal_strength_request_ s) (android_last_signal_time_ s) (nvram s) (data_service_ s) (timezone_ s)
    (looper s) (out s).
Definition set_modes (current preferred : Z) (s : Service) : Service :=
  mkService (radio_on s) (operator_list_ s) (current_operator_numeric_ s) (oper_selection_mode_ s) (signal_strength_percent_ s)
    (voice_registration_status_ s) (data_registration_status_ s) current preferred
    (first_signal_strength_request_ s) (android_last_signal_time_ s) (nvram s) (data_service_ s) (timezone_ s)
    (looper s) (out s).
Definition set_request (first : bool) (time : Z) (s : Service) : Service :=
  mkService (radio_on s) (operator_list_ s) (current_operator_numeric_ s) (oper_selection_mode_ s) (signal_strength_percent_ s)
    (voice_registration_status_ s) (data_registration_status_ s) (current_network_mode_ s) (preferred_network_mode_ s)
    first time (nvram s) (data_service_ s) (timezone_ s) (looper s) (out s).
Definition set_nvram (n : Nvram) (s : Service) : Service :=
  mkService (radio_on s) (operator_list_ s) (current_operator_numeric_ s) (oper_selection_mode_ s) (signal_strength_percent_ s)
    (voice_registration_status_ s) (data_registration_status_ s) (current_network_mode_ s) (preferred_network_mode_ s)
    (first_signal_strength_request_ s) (android_last_signal_time_ s) n (data_service_ s) (timezone_ s)
    (looper s) (out s).
Definition set_io (d : DataService.Service) (l : @Looper Callback) (os : list Output) (s : Service) : Service :=
  mkService (radio_on s) (operator_list_ s) (current_operator_numeric_ s) (oper_selection_mode_ s) (signal_strength_percent_ s)
    (voice_registration_status_ s) (data_registration_status_ s) (current_network_mode_ s) (preferred_network_mode_ s)
    (first_signal_strength_request_ s) (android_last_signal_time_ s) (nvram s) d (timezone_ s) l os.

Definition emit (os : list Output) (s : Service) : Service := set_io (data_service_ s) (looper s) (out s ++ os) s.
Definition reply (lines : list bytes) : Service -> Service := emit [Response lines].

(** ** Technologies *)
Definition getNetworkTypeFromTech (modemTech : Z) : Z :=
  if modemTech =? M_MODEM_TECH_GSM then ACCESS_TECH_EGPRS
  else if modemTech =? M_MODEM_TECH_WCDMA then ACCESS_TECH_HSPA
  else if modemTech =? M_MODEM_TECH_LTE then ACCESS_TECH_EUTRAN
  else if modemTech =? M_MODEM_TECH_NR then ACCESS_TECH_NR
  else ACCESS_TECH_EGPRS.

Definition getTechFromNetworkType (act : Z) : Z :=
  if bool_decide (act ∈ [0; 1; 3; 8]) then M_MODEM_TECH_GSM
  else if bool_decide (act ∈ [2; 4; 5; 6]) then M_MODEM_TECH_WCDMA
  else if bool_decide (act ∈ [7; 9; 10]) then M_MODEM_TECH_LTE
  else if bool_decide (act ∈ [11; 12; 13]) then M_MODEM_TECH_NR
  else M_MODEM_TECH_GSM.

(** The loops over [i] from 3 and [j] from 7 as one list of pairs; bit [8i+j] of
    the int. *)
Definition bit_order : list (Z * Z) :=
  flat_map (fun i => (fun j => (i, j)) <$> [7; 6; 5; 4; 3; 2; 1; 0]) [3; 2; 1; 0].
Definition getModemTechFromPrefer (preferred_mask : Z) : Z :=
  match find (fun '(i, j) => Z.testbit (u32 preferred_mask) (j + 8 * i)) bit_order with
  | Some (_, j) => Z.shiftl 1 j
  | None => M_MODEM_TECH_GSM
  end.

(** ** Signal strength *)
Definition INT_MAX : Z := 2147483647.
Record SignalStrength := mkSignal {
  gsm_rssi : Z; gsm_ber : Z; cdma_dbm : Z; cdma_ecio : Z; evdo_dbm : Z; evdo_ecio : Z; evdo_snr : Z;
  lte_rssi : Z; lte_rsrp : Z; lte_rsrq : Z; lte_rssnr : Z; lte_cqi : Z; lte_ta : Z; tdscdma_rscp : Z;
  wcdma_rssi : Z; wcdma_ber : Z; nr_ss_rsrp : Z; nr_ss_rsrq : Z; nr_ss_sinr : Z; nr_csi_rsrp : Z;
  nr_csi_rsrq : Z; nr_csi_sinr : Z
}.
Definition kRssiUnknownValue : Z := 99.
Definition kBerUnknownValue : Z := 99.
Definition kEcioUnknownValue : Z := -1.
Definition kSnrUnknownValue : Z := -1.
Definition kRssiRange : Z * Z := (4, 30).
Definition kDbmRange : Z * Z := (-120, -4).
Definition kRsrpRange : Z * Z := (-140, -44).

(** [(int)((percent / 101.0) * range_size)]: for the ranges above and a percent
    from 0 to 100 the product is no integer unless the percent is 0, and further
    from one than the rounding of doubles, so it is truncated like the quotient of
    integers. *)
Definition GetValueInRange (range : Z * Z) (percent : Z) : Z :=
  let range_size := range.2 - range.1 + 1 in
  range.1 + Z.quot (percent * range_size) 101.

Definition BuildCSQCommandResponse (g : SignalStrength) : bytes :=
  str "+CSQ: " ++ join (str ",") (to_string <$>
    [gsm_rssi g; gsm_ber g; cdma_dbm g; cdma_ecio g; evdo_dbm g; evdo_ecio g; evdo_snr g; lte_rssi g; lte_rsrp g;
     lte_rsrq g; lte_rssnr g; lte_cqi g; lte_ta g; tdscdma_rscp g; wcdma_rssi g; wcdma_ber g; nr_ss_rsrp g;
     nr_ss_rsrq g; nr_ss_sinr g; nr_csi_rsrp g; nr_csi_rsrq g; nr_csi_sinr g]).

Definition IsHasNetwork (s : Service) : bool :=
  radio_on s && negb (oper_selection_mode_ s =? OPER_SELECTION_DEREGISTRATION).

(** The fields some technology sets; the others keep INT_MAX. *)
Definition signal (gsm ber cdma cecio evdo eecio snr lrssi lrsrp wrssi nr : Z) : SignalStrength :=
  mkSignal gsm ber cdma cecio evdo eecio snr lrssi lrsrp INT_MAX INT_MAX INT_MAX INT_MAX INT_MAX wrssi INT_MAX nr
    INT_MAX INT_MAX INT_MAX INT_MAX INT_MAX.
Definition SignalStrength_ : SignalStrength :=
  signal INT_MAX INT_MAX INT_MAX INT_MAX INT_MAX INT_MAX INT_MAX INT_MAX INT_MAX INT_MAX INT_MAX.

Definition GetCurrentSignalStrength (s : Service) : SignalStrength :=
  let M := INT_MAX in
  if negb (IsHasNetwork s) then SignalStrength_
  else
    let percent := signal_strength_percent_ s in
    let mode := current_network_mode_ s in
    if mode =? M_MODEM_TECH_GSM then
      signal (GetValueInRange kRssiRange percent) kBerUnknownValue M M M M M M M M M
    else if mode =? M_MODEM_TECH_CDMA then
      signal M M (GetValueInRange kDbmRange percent * -1) kEcioUnknownValue M M M M M M M
    else if mode =? M_MODEM_TECH_EVDO then
      signal M M M M (GetValueInRange kDbmRange percent * -1) kEcioUnknownValue kSnrUnknownValue M M M M
    else if mode =? M_MODEM_TECH_LTE then
      signal M M M M M M M kRssiUnknownValue (GetValueInRange kRsrpRange percent * -1) M M
    else if mode =? M_MODEM_TECH_WCDMA then
      signal M M M M M M M M M (GetValueInRange kRssiRange percent) M
    else if mode =? M_MODEM_TECH_NR then
      signal M M M M M M M M M M (GetValueInRange kRsrpRange percent * -1)
    else SignalStrength_.

Section service.
Context (env : Env).

Definition SendUnsolicitedCommand (line : bytes) (s : Service) : Service :=
  if channel_monitor_ env then emit [Unsolicited line] s else s.

Definition PostCallback (c : Callback) (delay : Z) (s : Service) : Service :=
  set_io (data_service_ s) (Post (now env) c delay (looper s)).2 (out s) s.

(** Calls of the other services, which write to the same channel. *)
Definition on_data (f : DataService.Service -> DataService.Service) (s : Service) : Service :=
  let d := f (DataService.mkService (DataService.pdp_context_ (data_service_ s))
                (DataService.looper (data_service_ s)) (out s)) in
  set_io (DataService.mkService (DataService.pdp_context_ d) (DataService.looper d) []) (looper s)
    (DataService.out d) s.
Definition TimeUpdate (s : Service) : Service :=
  set_io (data_service_ s) (looper s)
    (MiscService.out (MiscService.TimeUpdate (misc_env env) (MiscService.mkService (timezone_ s) (out s)))) s.

Definition OnSignalStrengthChanged (s : Service) : Service :=
  SendUnsolicitedCommand (BuildCSQCommandResponse (GetCurrentSignalStrength s)) s.

(** ** Notices about the registration *)
Definition quoted (s : bytes) : bytes := dquote :: s ++ [dquote].
Definition kAreaCode : bytes := str "2142".
Definition kCellId : bytes := str "0000B804".
Definition cell (type : Z) : bytes :=
  str "," ++ quoted kAreaCode ++ str "," ++ quoted kCellId ++ str "," ++ to_string type.
Definition registered (state : Z) : bool :=
  (state =? NET_REGISTRATION_HOME) || (state =? NET_REGISTRATION_ROAMING).

Definition OnVoiceRegisterStateChanged (s : Service) : Service :=
  let v := voice_registration_status_ s in
  let line := str "+CREG: " ++ to_string (registration_state v) in
  if unsol_mode v =? REGISTRATION_UNSOL_ENABLED then SendUnsolicitedCommand line s
  else if unsol_mode v =? REGISTRATION_UNSOL_ENABLED_FULL then
    SendUnsolicitedCommand (line ++ (if registered (registration_state v) then cell (network_type v) else [])) s
  else s.

Definition OnDataRegisterStateChanged (s : Service) : Service :=
  let d := data_registration_status_ s in
  let state := to_string (registration_state d) in
  let eutran := network_type d =? ACCESS_TECH_EUTRAN in
  if unsol_mode d =? REGISTRATION_UNSOL_ENABLED then
    SendUnsolicitedCommand
      (str "+CGREG: " ++ state ++ (if eutran then [cr] ++ str "+CEREG: " ++ state else [])) s
  else if unsol_mode d =? REGISTRATION_UNSOL_ENABLED_FULL then
    let where_ := if registered (registration_state d) then cell (network_type d) else [] in
    SendUnsolicitedCommand
      (str "+CGREG: " ++ state ++ where_ ++ (if eutran then [cr] ++ str "+CEREG: " ++ state ++ where_ else [])) s
  else s.

Definition UpdateRegisterState (state : Z) (s : Service) : Service :=
  let type := getNetworkTypeFromTech (current_network_mode_ s) in
  let s := set_status (mkStatus (unsol_mode (voice_registration_status_ s)) state type)
             (mkStatus (unsol_mode (data_registration_status_ s)) state type) s in
  let s := OnSignalStrengthChanged (OnDataRegisterStateChanged (OnVoiceRegisterStateChanged s)) in
  let '(freq, cellBandwidthDownlink) :=
    if current_network_mode_ s =? M_MODEM_TECH_NR then (4, 50000) else (0, 5000) in
  on_data (DataService.onUpdatePhysicalChannelconfigs (data_env env) (current_network_mode_ s) freq
             cellBandwidthDownlink) s.

Definition set_voice_state (state : Z) (s : Service) : Service :=
  let v := voice_registration_status_ s in
  set_status (mkStatus (unsol_mode v) state (network_type v)) (data_registration_status_ s) s.

Definition OnSimStatusChanged (sim_status : SimStatus) (s : Service) : Service :=
  if negb (radio_on s) then s
  else
    let s := if bool_decide (sim_status = SIM_STATUS_READY) then set_voice_state NET_REGISTRATION_HOME s
             else set_modes M_MODEM_TECH_WCDMA (preferred_network_mode_ s)
                    (set_voice_state NET_REGISTRATION_EMERGENCY s) in
    PostCallback (UpdateRegisterState_cb (registration_state (voice_registration_status_ s))) 1000 s.

(** ** Radio power *)
Definition HandleRadioPowerReq (s : Service) : Service :=
  reply [str "+CFUN: " ++ show_bool (radio_on s); str "OK"] s.

Definition HandleRadioPower (command : bytes) (s : Service) : Service :=
  let on := (GetNextInt (SkipPrefix command)).1 in
  if on =? 0 then
    reply [str "OK"] (UpdateRegisterState NET_REGISTRATION_UNREGISTERED (set_radio false s))
  else if on =? 1 then
    let s := set_radio true s in
    let s := match sim_service_ env with Some sim_status => OnSimStatusChanged sim_status s | None => s end in
    reply [str "OK"] (TimeUpdate s)
  else reply [kCmeErrorOperationNotSupported] s.

Definition WakeupFromSleep (s : Service) : bool :=
  if android_last_signal_time_ s =? 0 then false else android_last_signal_time_ s + 120 <? time_0 env.

Definition HandleSignalStrength (s : Service) : Service :=
  let s := if WakeupFromSleep s then TimeUpdate s
           else if first_signal_strength_request_ s
                then TimeUpdate (set_request false (android_last_signal_time_ s) s) else s in
  let s := set_request (first_signal_strength_request_ s) (time_0 env) s in
  reply [BuildCSQCommandResponse (GetCurrentSignalStrength s); str "OK"] s.

(** ** Operators *)
Definition find_operator (n : bytes) (s : Service) : option NetworkOperator :=
  find (fun o => bool_decide (numeric o = n)) (operator_list_ s).
Definition set_state (st : OperatorState) (o : NetworkOperator) : NetworkOperator :=
  mkOperator (numeric o) (long_name o) (short_name o) st.

Definition HandleQueryNetworkSelectionMode (s : Service) : Service :=
  let line :=
    if negb (IsHasNetwork s) then str "+COPS: 0,0,0"
    else match find_operator (current_operator_numeric_ s) s with
         | Some o => str "+COPS: " ++ to_string (oper_selection_mode_ s) ++ str ",2," ++ numeric o
         | None => str "+COPS: " ++ to_string (oper_selection_mode_ s) ++ str ",0,0"
         end in
  reply [line; str "OK"] s.

Definition HandleRequestOperator (s : Service) : Service :=
  if negb (IsHasNetwork s) then reply [kCmeErrorOperationNotAllowed] s
  else match find_operator (current_operator_numeric_ s) s with
       | None => reply [kCmeErrorNoNetworkService] s
       | Some o => reply [str "+COPS: 0,0," ++ long_name o; str "+COPS: 0,1," ++ short_name o;
                          str "+COPS: 0,2," ++ numeric o; str "OK"] s
       end.

Definition HandleQueryAvailableNetwork (s : Service) : Service :=
  reply (((fun o => str "+COPS: (" ++ to_string (operator_state_int (operator_state o)) ++ str "," ++ long_name o ++
                      str "," ++ short_name o ++ str "," ++ numeric o ++ str "),") <$> operator_list_ s) ++
         [str "OK"]) s.

(** The first operator after the head that is the current one becomes available. *)
Fixpoint release_first (l : list NetworkOperator) : list NetworkOperator :=
  match l with
  | [] => []
  | o :: l => if bool_decide (operator_state o = OPER_STATE_CURRENT) then set_state OPER_STATE_AVAILABLE o :: l
              else o :: release_first l
  end.
(** Set the state of the first operator with this number. *)
Fixpoint set_first (n : bytes) (st : OperatorState) (l : list NetworkOperator) : list NetworkOperator :=
  match l with
  | [] => []
  | o :: l => if bool_decide (numeric o = n) then set_state st o :: l else o :: set_first n st l
  end.
(** Every other current operator becomes available. *)
Definition release_others (n : bytes) (l : list NetworkOperator) : list NetworkOperator :=
  (fun o => if bool_decide (numeric o <> n) && bool_decide (operator_state o = OPER_STATE_CURRENT)
            then set_state OPER_STATE_AVAILABLE o else o) <$> l.

(** The modes of [AT+COPS=].  Mode 1 ends by reading the state of the operator past
    the last one, and mode 4 does when the operator is not found. *)
Definition select_mode (mode : Z) (cmd : bytes) : M Service unit :=
  let! s := get in
  if mode =? OPER_SELECTION_AUTOMATIC then
    match operator_list_ s with
    | o :: l =>
        modify (fun s => reply [str "OK"] (set_voice_state NET_REGISTRATION_HOME
          (set_operators (set_state OPER_STATE_CURRENT o :: release_first l) (numeric o) mode s)))
    | [] => lift (Fatal "operator_list_ is empty")
    end
  else if mode =? OPER_SELECTION_MANUAL then
    let '(n, cmd) := GetNextStr cmd in
    let! _ := modify (set_operators (operator_list_ s) n mode) in
    match find_operator n s with
    | None =>
        modify (fun s => reply [kCmeErrorNoNetworkService] (set_voice_state NET_REGISTRATION_UNKNOWN s))
    | Some _ =>
        let! _ := modify (set_operators (release_others n (set_first n OPER_STATE_CURRENT (operator_list_ s))) n mode) in
        let act := (GetNextInt cmd).1 in
        let! _ := modify (fun s =>
          if negb (act =? -1) then
            let tech := getTechFromNetworkType act in
            if negb (Z.land tech modem_radio_capability_ =? 0)
            then set_modes tech (preferred_network_mode_ s) s else s
          else s) in
        lift (Fatal "iter is operator_list_.end()")
    end
  else if mode =? OPER_SELECTION_DEREGISTRATION then
    modify (fun s => reply [str "OK"] (set_voice_state NET_REGISTRATION_UNREGISTERED
      (set_operators (operator_list_ s) (current_operator_numeric_ s) mode s)))
  else
    let! _ := modify (set_operators (operator_list_ s) (current_operator_numeric_ s) mode) in
    let n := (GetNextStr cmd).1 in
    match find_operator n s with
    | None => lift (Fatal "iter is operator_list_.end()")
    | Some o =>
        let n := numeric o in
        let l := (fun o => if bool_decide (numeric o = n) then set_state OPER_STATE_CURRENT o
                           else if bool_decide (operator_state o = OPER_STATE_CURRENT)
                                then set_state OPER_STATE_AVAILABLE o else o) <$> operator_list_ s in
        modify (fun s => reply [str "OK"] (set_voice_state NET_REGISTRATION_HOME (set_operators l n mode s)))
    end.

Definition HandleSetNetworkSelectionMode (command : bytes) : M Service unit :=
  let '(mode, cmd) := GetNextInt (SkipPrefix command) in
  let cmd := SkipPrefix cmd in
  if bool_decide (mode ∈ [OPER_SELECTION_AUTOMATIC; OPER_SELECTION_MANUAL; OPER_SELECTION_DEREGISTRATION;
                          OPER_SELECTION_MANUAL_AUTOMATIC]) then
    let! _ := select_mode mode cmd in
    modify (fun s =>
      let s := set_nvram (mkNvram (oper_selection_mode_ s) (current_operator_numeric_ s)
                            (modem_technoloy (nvram s)) (preferred_network_mode (nvram s))) s in
      PostCallback (UpdateRegisterState_cb (registration_state (voice_registration_status_ s))) 1000 s)
  else modify (reply [kCmeErrorInCorrectParameters]).

(** ** Registration queries *)
Definition reported (s : Service) : bool :=
  let v := voice_registration_status_ s in
  (unsol_mode v =? REGISTRATION_UNSOL_ENABLED_FULL) &&
  (registered (registration_state v) || (registration_state v =? NET_REGISTRATION_EMERGENCY)).

Definition HandleVoiceNetworkRegistration (command : bytes) (s : Service) : Service :=
  let cmd := SkipPrefix command in
  let v := voice_registration_status_ s in
  if bool_decide (cmd = str "AT+CREG?") then
    reply [str "+CREG: " ++ to_string (unsol_mode v) ++ str "," ++ to_string (registration_state v) ++
           (if reported s then cell (network_type v) else []); str "OK"] s
  else
    let n := (GetNextInt cmd).1 in
    if bool_decide (n ∈ [0; 1; 2])
    then reply [str "OK"] (set_status (mkStatus n (registration_state v) (network_type v)) (data_registration_status_ s) s)
    else reply [kCmeErrorInCorrectParameters] s.

(** [s.find(p) != npos]. *)
Fixpoint contains (p l : bytes) : bool :=
  starts_with p l || match l with [] => false | _ :: l => contains p l end.

Definition HandleDataNetworkRegistration (command : bytes) (s : Service) : Service :=
  let cmd := SkipPrefix command in
  let prefix := if contains (str "CGREG") command then str "+CGREG: "
                else if contains (str "CEREG") command then str "+CEREG: " else [] in
  let d := data_registration_status_ s in
  if bool_decide (cmd = str "AT+CGREG?") || bool_decide (cmd = str "AT+CEREG?") then
    let line := prefix ++ to_string (unsol_mode d) ++ str "," ++ to_string (registration_state d) in
    if reported s then
      let type := getNetworkTypeFromTech (current_network_mode_ s) in
      reply [line ++ cell type; str "OK"]
        (set_status (voice_registration_status_ s) (mkStatus (unsol_mode d) (registration_state d) type) s)
    else reply [line; str "OK"] s
  else
    let n := (GetNextInt cmd).1 in
    if bool_decide (n ∈ [0; 1; 2])
    then reply [str "OK"] (set_status (voice_registration_status_ s) (mkStatus n (registration_state d) (network_type d)) s)
    else reply [kCmeErrorInCorrectParameters] s.

(** ** Preferred technologies *)
Definition HandleGetPreferredNetworkType (s : Service) : Service :=
  reply [str "+CTEC: " ++ to_string (current_network_mode_ s) ++ str "," ++ show_hex_lower (preferred_network_mode_ s);
         str "OK"] s.

Definition HandleQuerySupportedTechs (s : Service) : Service := reply [str "+CTEC: 0,1,5,6"; str "OK"] s.

(** [std::stoi(s, nullptr, 16)]. *)
Definition stoi_hex (s : bytes) : result Z :=
  match strtol 16 s with
  | None => Fatal "std::invalid_argument"
  | Some (v, erange) => if erange || negb (in_i32 v) then Fatal "std::out_of_range" else Ok v
  end.

Definition HandleSetPreferredNetworkType (command : bytes) : M Service unit :=
  let '(current, cmd) := GetNextInt (SkipPrefix command) in
  let preferred := (GetNextStr cmd).1 in
  let! preferred_mask_new := lift (stoi_hex preferred) in
  let! s := get in
  let s := if negb (preferred_mask_new =? preferred_network_mode_ s)
           then set_modes (getModemTechFromPrefer preferred_mask_new) preferred_mask_new s else s in
  let '(line, s) :=
    if negb (current =? current_network_mode_ s) then
      (str "+CTEC: " ++ to_string (current_network_mode_ s),
       PostCallback (UpdateRegisterState_cb NET_REGISTRATION_HOME) 200
         (UpdateRegisterState NET_REGISTRATION_UNREGISTERED s))
    else (str "+CTEC: DONE", s) in
  let s := set_nvram (mkNvram (network_selection_mode (nvram s)) (operator_numeric (nvram s))
                        (current_network_mode_ s) (preferred_network_mode_ s)) s in
  modify (fun _ => reply [line; str "OK"] s).

(** ** Commands of the host *)
Definition HandleReceiveRemoteVoiceDataReg (command : bytes) : M Service unit :=
  let! states := lift (substr_from 13 command) in
  let! stated := lift (stoi states) in
  modify (fun s => PostCallback (UpdateRegisterState_cb stated) 1000
                     (UpdateRegisterState NET_REGISTRATION_UNREGISTERED s)).

Definition HandleReceiveRemoteCTEC (command : bytes) : M Service unit :=
  let! types := lift (substr_from 15 command) in
  let! preferred_mask_new := lift (stoi types) in
  modify (fun s =>
    let current_network_mode_new := getModemTechFromPrefer preferred_mask_new in
    let s := set_modes (current_network_mode_ s) preferred_mask_new s in
    if negb (current_network_mode_new =? current_network_mode_ s) then
      let s := set_modes current_network_mode_new preferred_mask_new s in
      let saved_state := registration_state (voice_registration_status_ s) in
      PostCallback (UpdateRegisterState_cb saved_state) 1000 (UpdateRegisterState NET_REGISTRATION_UNREGISTERED s)
    else s).

Definition HandleReceiveRemoteSignal (command : bytes) : M Service unit :=
  let! percents := lift (substr_from 16 command) in
  let! percent := lift (stoi percents) in
  modify (fun s => if (percent >=? 0) && (percent <=? 100) then OnSignalStrengthChanged (set_percent percent s) else s).

(** [HandleIdentifierDisclosure] and [HandleSecurityAlgorithmUpdate]. *)
Definition forward_event (command : bytes) : M Service unit :=
  let! line := lift (substr_from 2 command) in
  modify (SendUnsolicitedCommand line).

Definition UpdateSignalStrengthCallback (s : Service) : Service :=
  let s :=
    if IsHasNetwork s then
      let p := signal_strength_percent_ s - 5 in
      OnSignalStrengthChanged (set_percent (if p <=? 10 then 100 else p) s)
    else s in
  PostCallback UpdateSignalStrength_cb 10000 s.

Definition run_callback (c : Callback) (s : Service) : Service :=
  match c with
  | UpdateRegisterState_cb state => UpdateRegisterState state s
  | UpdateSignalStrength_cb => UpdateSignalStrengthCallback s
  end.

(** ** Start *)
Definition kOperators : list NetworkOperator :=
  [ mkOperator (str "311740") (str "Android Virtual Operator") (str "Android") OPER_STATE_AVAILABLE;
    mkOperator (str "310300") (str "Alternative Operator") (str "Alternative") OPER_STATE_AVAILABLE;
    mkOperator (str "310400") (str "Hermetic Network Operator") (str "Hermetic") OPER_STATE_FORBIDDEN ].

Definition select_head (s : Service) : Service :=
  match operator_list_ s with
  | o :: l => set_operators (set_state OPER_STATE_CURRENT o :: l) (numeric o) (oper_selection_mode_ s) s
  | [] => s
  end.

Definition InitializeNetworkOperator (s : Service) : Service :=
  let s := set_operators (operator_list_ s ++ kOperators) (current_operator_numeric_ s) (oper_selection_mode_ s) s in
  if oper_selection_mode_ s =? OPER_SELECTION_AUTOMATIC then select_head s
  else if oper_selection_mode_ s =? OPER_SELECTION_MANUAL_AUTOMATIC then
    match find_operator (current_operator_numeric_ s) s with
    | Some _ => set_operators (set_first (current_operator_numeric_ s) OPER_STATE_CURRENT (operator_list_ s))
                  (current_operator_numeric_ s) (oper_selection_mode_ s) s
    | None => select_head s
    end
  else s.

(** The constructor with the settings of the nvram file, and the data service. *)
Definition InitializeServiceState (n : Nvram) (d : DataService.Service) (timezone : bytes) : Service :=
  let s := mkService false [] (operator_numeric n) (network_selection_mode n) 80
             NetworkRegistrationStatus_ NetworkRegistrationStatus_ (modem_technoloy n) (preferred_network_mode n)
             true 0 n d timezone ThreadLooper_ [] in
  UpdateSignalStrengthCallback (InitializeNetworkOperator s).

(** [std::swap] of the first operator with this number and the head. *)
Fixpoint take_out (n : bytes) (l : list NetworkOperator) : option (list NetworkOperator * NetworkOperator * list NetworkOperator) :=
  match l with
  | [] => None
  | o :: l => if bool_decide (numeric o = n) then Some ([], o, l)
              else '(pre, x, post) ← take_out n l; Some (o :: pre, x, post)
  end.
Definition swap_with_head (n : bytes) (l : list NetworkOperator) : option (list NetworkOperator) :=
  '(pre, x, post) ← take_out n l;
  Some match pre with [] => x :: post | h :: pre => x :: pre ++ h :: post end.

(** [sim_operator]: what [GetSimOperator] returns, [None] without a SIM service;
    [operators_file]: the text of the item for a number in the operators' file,
    [None] when it cannot be read. *)
Definition InitializeSimOperator (sim_operator : option bytes) (operators_file : option (bytes -> option bytes))
    (s : Service) : Service :=
  match sim_operator with
  | None | Some [] => s
  | Some n =>
      match swap_with_head n (operator_list_ s) with
      | Some l => set_operators l (current_operator_numeric_ s) (oper_selection_mode_ s) s
      | None =>
          match operators_file with
          | None => s
          | Some names_of =>
              InitializeNetworkOperator
                (match names ← names_of n; pos ← find_first_of "="%char names; Some (names, pos) with
                 | Some (names, pos) =>
                     set_operators (mkOperator n (ztake pos names) (zdrop (pos + 1) names) OPER_STATE_AVAILABLE ::
                                    operator_list_ s) (current_operator_numeric_ s) (oper_selection_mode_ s) s
                 | None => s
                 end)
          end
      end
  end.

(** ** Dispatch *)
Inductive Handler :=
  HRadioPowerReq | HRadioPower | HSignalStrength | HQueryNetworkSelectionMode | HRequestOperator
| HQueryAvailableNetwork | HSetNetworkSelectionMode | HVoiceNetworkRegistration | HDataNetworkRegistration
| HGetPreferredNetworkType | HQuerySupportedTechs | HSetPreferredNetworkType | HReceiveRemoteCTEC
| HReceiveRemoteSignal | HReceiveRemoteVoiceDataReg | HForwardEvent.

Definition InitializeCommandHandlers : list (CommandHandler Handler) :=
  [ mkHandler (str "+CFUN?") FULL_MATCH HRadioPowerReq;
    mkHandler (str "+CFUN=") PARTIAL_MATCH HRadioPower;
    mkHandler (str "+REMOTECFUN=") PARTIAL_MATCH HRadioPower;
    mkHandler (str "+CSQ") FULL_MATCH HSignalStrength;
    mkHandler (str "+COPS?") FULL_MATCH HQueryNetworkSelectionMode;
    mkHandler (str "+COPS=3,0;+COPS?;+COPS=3,1;+COPS?;+COPS=3,2;+COPS?") FULL_MATCH HRequestOperator;
    mkHandler (str "+COPS=?") FULL_MATCH HQueryAvailableNetwork;
    mkHandler (str "+COPS=") PARTIAL_MATCH HSetNetworkSelectionMode;
    mkHandler (str "+CREG") PARTIAL_MATCH HVoiceNetworkRegistration;
    mkHandler (str "+CGREG") PARTIAL_MATCH HDataNetworkRegistration;
    mkHandler (str "+CEREG") PARTIAL_MATCH HDataNetworkRegistration;
    mkHandler (str "+CTEC?") FULL_MATCH HGetPreferredNetworkType;
    mkHandler (str "+CTEC=?") FULL_MATCH HQuerySupportedTechs;
    mkHandler (str "+CTEC=") PARTIAL_MATCH HSetPreferredNetworkType;
    mkHandler (str "+REMOTECTEC") PARTIAL_MATCH HReceiveRemoteCTEC;
    mkHandler (str "+REMOTESIGNAL") PARTIAL_MATCH HReceiveRemoteSignal;
    mkHandler (str "+REMOTEREG") PARTIAL_MATCH HReceiveRemoteVoiceDataReg;
    mkHandler (str "+REMOTEIDDISCLOSURE") PARTIAL_MATCH HForwardEvent;
    mkHandler (str "+UPDATESECURITYALGORITHM") PARTIAL_MATCH HForwardEvent ].

Definition run_handler (command : bytes) (h : Handler) : M Service unit :=
  match h with
  | HRadioPowerReq => modify HandleRadioPowerReq
  | HRadioPower => modify (HandleRadioPower command)
  | HSignalStrength => modify HandleSignalStrength
  | HQueryNetworkSelectionMode => modify HandleQueryNetworkSelectionMode
  | HRequestOperator => modify HandleRequestOperator
  | HQueryAvailableNetwork => modify HandleQueryAvailableNetwork
  | HSetNetworkSelectionMode => HandleSetNetworkSelectionMode command
  | HVoiceNetworkRegistration => modify (HandleVoiceNetworkRegistration command)
  | HDataNetworkRegistration => modify (HandleDataNetworkRegistration command)
  | HGetPreferredNetworkType => modify HandleGetPreferredNetworkType
  | HQuerySupportedTechs => modify HandleQuerySupportedTechs
  | HSetPreferredNetworkType => HandleSetPreferredNetworkType command
  | HReceiveRemoteCTEC => HandleReceiveRemoteCTEC command
  | HReceiveRemoteSignal => HandleReceiveRemoteSignal command
  | HReceiveRemoteVoiceDataReg => HandleReceiveRemoteVoiceDataReg command
  | HForwardEvent => forward_event command
  end.

Definition handle (command : bytes) : M Service bool :=
  match HandleModemCommand InitializeCommandHandlers command with
  | Some h => let! _ := run_handler command h in mret true
  | None => mret false
  end.

(** One turn of the looper's thread. *)
Definition loop_turn (s : Service) : Service :=
  match ThreadLoop_turn (now env) (looper s) with
  | (Run c, l) => run_callback c (set_io (data_service_ s) l (out s) s)
  | (_, l) => set_io (data_service_ s) l (out s) s
  end.
End service.

(** ** Reachable states *)
Inductive reachable : Service -> Prop :=
| net_init env n d tz : reachable (InitializeServiceState env n d tz)
| net_sim sim file s : reachable s -> reachable (InitializeSimOperator sim file s)
| net_handle env command b s s' : reachable s -> handle env command s = (Ok b, s') -> reachable s'
| net_sim_status env st s : reachable s -> reachable (OnSimStatusChanged env st s)
| net_turn env s : reachable s -> reachable (loop_turn env s).

(** ** Invariant: the percent is one, and the queue is in the order of its times *)
Definition due_sorted (l : @Looper Callback) : Prop :=
  StronglySorted (fun e e' => when e <= when e') (queue_ l).
Definition net_inv (s : Service) : Prop := 0 <= signal_strength_percent_ s <= 100 /\ due_sorted (looper s).

Lemma insert_event_split (e : @Event Callback) q :
  StronglySorted (fun e e' => when e <= when e') q ->
  exists q1 q2, q = q1 ++ q2 /\ insert_event e q = q1 ++ e :: q2 /\
    Forall (fun x => when x <= when e) q1 /\ Forall (fun x => when e < when x) q2.
Proof.
  induction q as [|y q IH]; intros Hs; simpl; [by exists [], []|].
  apply StronglySorted_inv in Hs as [Hs Hy]. destruct (Z.leb_spec (when y) (when e)) as [Hle|Hlt].
  - destruct (IH Hs) as (q1 & q2 & -> & -> & H1 & H2). exists (y :: q1), q2. by repeat constructor.
  - exists [], (y :: q). split_and!; try done. constructor; [lia|].
    eapply Forall_impl; [exact Hy|]. simpl. lia.
Qed.

Lemma due_sorted_Post t c d l : due_sorted l -> due_sorted (Post t c d l).2.
Proof.
  unfold due_sorted. simpl. intros Hs. generalize (mkEvent (t + d) c (next_serial_ l)). intros e.
  revert Hs. generalize (queue_ l). intros q. induction q as [|y q IH]; intros Hs; simpl; [repeat constructor|].
  apply StronglySorted_inv in Hs as [Hs Hy]. destruct (Z.leb_spec (when y) (when e)) as [Hle|Hlt].
  - constructor; [auto|]. apply Forall_forall. intros x [->|Hx]%elem_of_insert_event; [done|].
    rewrite Forall_forall in Hy. auto.
  - constructor; [by constructor|]. constructor; [lia|]. eapply Forall_impl; [exact Hy|]. simpl. lia.
Qed.

Create HintDb net discriminated.
Lemma inv_emit os s : net_inv s -> net_inv (emit os s). Proof. done. Qed.
Lemma inv_reply ls s : net_inv s -> net_inv (reply ls s). Proof. done. Qed.
Lemma inv_radio b s : net_inv s -> net_inv (set_radio b s). Proof. done. Qed.
Lemma inv_operators l c m s : net_inv s -> net_inv (set_operators l c m s). Proof. done. Qed.
Lemma inv_status v d s : net_inv s -> net_inv (set_status v d s). Proof. done. Qed.
Lemma inv_voice v s : net_inv s -> net_inv (set_voice_state v s). Proof. done. Qed.
Lemma inv_modes c p s : net_inv s -> net_inv (set_modes c p s). Proof. done. Qed.
Lemma inv_request b t s : net_inv s -> net_inv (set_request b t s). Proof. done. Qed.
Lemma inv_nvram n s : net_inv s -> net_inv (set_nvram n s). Proof. done. Qed.
Lemma inv_data f s : net_inv s -> net_inv (on_data f s). Proof. done. Qed.
Lemma inv_time env s : net_inv s -> net_inv (TimeUpdate env s). Proof. done. Qed.
Lemma inv_unsolicited env l s : net_inv s -> net_inv (SendUnsolicitedCommand env l s).
Proof. unfold SendUnsolicitedCommand. by case_match. Qed.
Lemma inv_post env c d s : net_inv s -> net_inv (PostCallback env c d s).
Proof. intros [H1 H2]. split; [done|]. by apply due_sorted_Post. Qed.
Lemma inv_percent p s : net_inv s -> 0 <= p <= 100 -> net_inv (set_percent p s).
Proof. by intros [_ H]. Qed.
#[local] Hint Resolve inv_emit inv_reply inv_radio inv_operators inv_status inv_voice inv_modes inv_request
  inv_nvram inv_data inv_time inv_unsolicited inv_post : net.

Ltac net_cases := repeat (case_match; try done); intros; simplify_eq; eauto 8 with net.

Lemma inv_signal env s : net_inv s -> net_inv (OnSignalStrengthChanged env s).
Proof. intros. by apply inv_unsolicited. Qed.
Lemma inv_register env st s : net_inv s -> net_inv (UpdateRegisterState env st s).
Proof.
  intros Hi. unfold UpdateRegisterState. case_match. apply inv_data, inv_signal.
  unfold OnDataRegisterStateChanged, OnVoiceRegisterStateChanged. net_cases.
Qed.
#[local] Hint Resolve inv_signal inv_register : net.
Lemma inv_sim_status env st s : net_inv s -> net_inv (OnSimStatusChanged env st s).
Proof. intros. unfold OnSimStatusChanged. net_cases. Qed.
#[local] Hint Resolve inv_sim_status : net.
Lemma inv_run_callback env c s : net_inv s -> net_inv (run_callback env c s).
Proof.
  intros Hi. destruct c; simpl; [eauto with net|]. unfold UpdateSignalStrengthCallback. apply inv_post.
  destruct (IsHasNetwork s); [|done]. apply inv_signal, inv_percent; [done|]. destruct Hi as [Hp _].
  destruct (Z.leb_spec (signal_strength_percent_ s - 5) 10); lia.
Qed.

Lemma inv_select mode cmd s r s' :
  net_inv s -> select_mode mode cmd s = (r, s') -> net_inv s'.
Proof.
  intros Hi. unfold select_mode, mbind, get, modify, lift. net_cases.
Qed.

Lemma inv_remote_signal env command s r s' :
  net_inv s -> HandleReceiveRemoteSignal env command s = (r, s') -> net_inv s'.
Proof.
  intros Hi. unfold HandleReceiveRemoteSignal, mbind, lift, modify. repeat (case_match; simplify_eq); intros; simplify_eq;
    try done. apply inv_signal, inv_percent; [done|]. lia.
Qed.

Lemma inv_handler env command h s r s' :
  net_inv s -> run_handler env command h s = (r, s') -> net_inv s'.
Proof.
  intros Hi. destruct h; simpl; unfold HandleRadioPowerReq, HandleRadioPower, HandleSignalStrength,
    HandleQueryNetworkSelectionMode, HandleRequestOperator, HandleQueryAvailableNetwork,
    HandleVoiceNetworkRegistration, HandleDataNetworkRegistration, HandleGetPreferredNetworkType,
    HandleQuerySupportedTechs, HandleSetPreferredNetworkType, HandleReceiveRemoteCTEC,
    HandleReceiveRemoteVoiceDataReg, forward_event, mbind, get, modify, lift; try (net_cases; fail).
  - unfold HandleSetNetworkSelectionMode, mbind, modify. case_match. case_match; [|net_cases].
    destruct (select_mode _ _ _) as [r1 s1] eqn:E. apply inv_select in E; [|done]. net_cases.
  - by apply inv_remote_signal.
Qed.

Lemma inv_network_operator s : net_inv s -> net_inv (InitializeNetworkOperator s).
Proof. intros. unfold InitializeNetworkOperator, select_head. net_cases. Qed.
#[local] Hint Resolve inv_network_operator : net.

Lemma inv_turn env s : net_inv s -> net_inv (loop_turn env s).
Proof.
  intros [Hp Hs]. unfold loop_turn, ThreadLoop_turn. case_match eqn:E.
  assert (Hl : due_sorted l).
  { repeat case_match; simplify_eq; try done. unfold due_sorted in *. simpl.
    rewrite H0 in Hs. by apply StronglySorted_inv in Hs as [Hs _]. }
  assert (net_inv (set_io (data_service_ s) l (out s) s)) by done.
  destruct t; [done|done|]. by apply inv_run_callback.
Qed.

Lemma reachable_network s : reachable s -> net_inv s.
Proof.
  induction 1 as [env n d tz|sim file s _ IH|env cmd b s s' _ IH Hh|env st s _ IH|env s _ IH].
  - apply (inv_run_callback env UpdateSignalStrength_cb), inv_network_operator. split; [simpl; lia|constructor].
  - unfold InitializeSimOperator. net_cases.
  - unfold handle in Hh. destruct (HandleModemCommand _ _) as [h|]; [|by injection Hh as _ <-].
    unfold mbind, mret in Hh. destruct (run_handler env cmd h s) as [r s1] eqn:E.
    apply inv_handler in E; [|done]. by destruct r; simplify_eq.
  - by apply inv_sim_status.
  - by apply inv_turn.
Qed.

(** ** Signal strength *)
(** A field of the answer: not reported, the value for unknown, or in a range. *)
Definition in_range (lo hi v : Z) : Prop := v = INT_MAX \/ v = 99 \/ lo <= v <= hi.
(** The ranges that the header documents for the fields the service sets. *)
Definition signal_documented (g : SignalStrength) : Prop :=
  in_range 0 31 (gsm_rssi g) /\ in_range 0 7 (gsm_ber g) /\ in_range 0 INT_MAX (cdma_dbm g) /\
  in_range 0 INT_MAX (evdo_dbm g) /\ in_range 0 31 (lte_rssi g) /\ in_range 44 140 (lte_rsrp g) /\
  in_range 0 31 (wcdma_rssi g) /\ in_range 44 140 (nr_ss_rsrp g).

Lemma GetValueInRange_bounds lo hi percent :
  lo <= hi -> 0 <= percent <= 100 -> lo <= GetValueInRange (lo, hi) percent <= hi.
Proof.
  intros Hr Hp. unfold GetValueInRange. simpl. rewrite Z.quot_div_nonneg by nia.
  pose proof (Z.div_pos (percent * (hi - lo + 1)) 101). pose proof (Z.div_lt_upper_bound (percent * (hi - lo + 1)) 101 (hi - lo + 1)).
  nia.
Qed.

(** The signal strengths the modem reports stay in the ranges its header
    documents, whatever commands, host requests and timers came before. *)
Theorem signal_in_range (s : Service) :
  reachable s -> signal_documented (GetCurrentSignalStrength s).
Proof.
  intros [Hp _]%reachable_network. unfold GetCurrentSignalStrength.
  pose proof (GetValueInRange_bounds 4 30 _ ltac:(lia) Hp) as H1.
  pose proof (GetValueInRange_bounds (-120) (-4) _ ltac:(lia) Hp) as H2.
  pose proof (GetValueInRange_bounds (-140) (-44) _ ltac:(lia) Hp) as H3.
  unfold signal_documented, in_range, SignalStrength_, signal, kRssiRange, kDbmRange, kRsrpRange, kRssiUnknownValue,
    kBerUnknownValue, INT_MAX in *.
  repeat case_match; cbn [gsm_rssi gsm_ber cdma_dbm evdo_dbm lte_rssi lte_rsrp wcdma_rssi nr_ss_rsrp]; lia.
Qed.
(** ** Preferred technology *)
Lemma bit_order_rev : bit_order = (fun k => (Z.of_nat k / 8, Z.of_nat k mod 8)) <$> rev (seq 0 32).
Proof. reflexivity. Qed.

Lemma find_top_bit m n :
  0 < m -> Z.log2 m < Z.of_nat n ->
  find (fun '(i, j) => Z.testbit m (j + 8 * i)) ((fun k => (Z.of_nat k / 8, Z.of_nat k mod 8)) <$> rev (seq 0 n)) =
    Some (Z.log2 m / 8, Z.log2 m mod 8).
Proof.
  intros Hm. induction n as [|n IH]; intros Hn; [pose proof (Z.log2_nonneg m); lia|].
  rewrite seq_S, rev_app_distr. cbn [rev app fmap list_fmap find]. change (0 + n)%nat with n.
  replace (Z.of_nat n mod 8 + 8 * (Z.of_nat n / 8)) with (Z.of_nat n) by (pose proof (Z.div_mod (Z.of_nat n) 8); lia).
  destruct (Z.eq_dec (Z.log2 m) (Z.of_nat n)) as [<-|Hne]; [by rewrite Z.bit_log2|].
  rewrite Z.bits_above_log2 by lia. apply IH. lia.
Qed.

(** [getModemTechFromPrefer] is the technology of the highest bit of the mask,
    counted within its byte: the byte with the highest priority wins, and of its
    technologies the highest numbered one. *)
Theorem getModemTechFromPrefer_highest (mask : Z) :
  getModemTechFromPrefer mask =
    if u32 mask =? 0 then M_MODEM_TECH_GSM else 2 ^ (Z.log2 (u32 mask) mod 8).
Proof.
  unfold getModemTechFromPrefer. rewrite bit_order_rev. pose proof (u32_range mask) as Hr. unfold is_u32 in Hr.
  destruct (Z.eqb_spec (u32 mask) 0) as [E|E]; [by rewrite E|].
  rewrite find_top_bit; [|lia|]; [by rewrite Z.shiftl_1_l|].
  change (Z.of_nat 32) with 32. apply Z.log2_lt_pow2; lia.
Qed.

(** ** Registration after the radio is switched on *)
Fixpoint turns (env : Env) (n : nat) (s : Service) : Service :=
  match n with O => s | S n => turns env n (loop_turn env s) end.

(** The registration both domains report. *)
Definition registered_as (state : Z) (s : Service) : Prop :=
  registration_state (voice_registration_status_ s) = state /\
  registration_state (data_registration_status_ s) = state.

(** What [UpdateRegisterState] and [emit] do to the parts that matter here. *)
Lemma register_effects env st s :
  let s' := UpdateRegisterState env st s in
  registered_as st s' /\ looper s' = looper s /\ radio_on s' = radio_on s.
Proof.
  unfold registered_as, UpdateRegisterState, OnSignalStrengthChanged, OnDataRegisterStateChanged, OnVoiceRegisterStateChanged,
    SendUnsolicitedCommand. cbv zeta. destruct (channel_monitor_ env); repeat case_match; done.
Qed.
Lemma insert_event_app (e : @Event Callback) q1 q2 :
  Forall (fun x => when x <= when e) q1 -> insert_event e (q1 ++ q2) = q1 ++ insert_event e q2.
Proof.
  induction 1 as [|x q1 Hx _ IH]; [done|]. simpl. by rewrite (proj2 (Z.leb_le _ _)), IH by lia.
Qed.

Lemma unsolicited_effects env l s :
  let s' := SendUnsolicitedCommand env l s in looper s' = looper s /\ radio_on s' = radio_on s.
Proof. unfold SendUnsolicitedCommand. by case_match. Qed.

Lemma callback_effects env c s :
  let s' := run_callback env c s in
  radio_on s' = radio_on s /\ stopped_ (looper s') = stopped_ (looper s) /\
  (queue_ (looper s') = queue_ (looper s) \/
   exists e, queue_ (looper s') = insert_event e (queue_ (looper s)) /\ when e = now env + 10000).
Proof.
  destruct c as [st|]; cbn [run_callback].
  - destruct (register_effects env st s) as (_ & E & R). cbv zeta. rewrite E, R. split_and!; auto.
  - cbv zeta. unfold UpdateSignalStrengthCallback, OnSignalStrengthChanged.
    destruct (IsHasNetwork s); cbn [PostCallback]; unfold PostCallback; cbn [set_io radio_on looper];
      rewrite ?(proj1 (unsolicited_effects env _ _)), ?(proj2 (unsolicited_effects env _ _));
      (split_and!; [done|done|right; eexists; split; [reflexivity|done]]).
Qed.

(** Everything that is due runs, in order; what that posts is due later. *)
Lemma run_due env q1 : forall s q2,
  queue_ (looper s) = q1 ++ q2 -> stopped_ (looper s) = false ->
  Forall (fun e => when e <= now env) q1 -> Forall (fun e => now env < when e) q2 ->
  let s' := turns env (length q1) s in
  radio_on s' = radio_on s /\ Forall (fun e => now env < when e) (queue_ (looper s')) /\
  (forall e st, last q1 = Some e -> cb e = UpdateRegisterState_cb st -> registered_as st s').
Proof.
  induction q1 as [|x q1 IH]; intros s q2 Hq Hstop H1 H2; cbn [length turns].
  { cbv zeta. by rewrite Hq. }
  apply Forall_cons in H1 as [Hx H1].
  set (s1 := set_io (data_service_ s) (mkLooper false (q1 ++ q2) (next_serial_ (looper s))) (out s) s).
  assert (loop_turn env s = run_callback env (cb x) s1) as ->.
  { unfold loop_turn, ThreadLoop_turn. rewrite Hstop, Hq. simpl. by rewrite (proj2 (Z.ltb_ge _ _)) by lia. }
  destruct (callback_effects env (cb x) s1) as (Hr & Hst & Hqueue).
  assert (exists q2', queue_ (looper (run_callback env (cb x) s1)) = q1 ++ q2' /\ Forall (fun e => now env < when e) q2')
    as (q2' & Hq' & H2').
  { destruct Hqueue as [->|(e & -> & He)]; [by exists q2|]. exists (insert_event e q2). split.
    - apply insert_event_app. eapply Forall_impl; [exact H1|]. simpl. lia.
    - apply Forall_forall. intros y [->|Hy]%elem_of_insert_event; [lia|]. rewrite Forall_forall in H2. auto. }
  destruct (IH _ q2' Hq' ltac:(by rewrite Hst) H1 H2') as (Hr' & Hlater & Hreg).
  split; [by rewrite Hr', Hr|]. split; [done|]. intros e st Hlast Hcb.
  destruct q1 as [|y q1]; [|by apply (Hreg e)]. injection Hlast as ->. cbn [length turns].
  rewrite Hcb. apply register_effects.
Qed.

(** A registration that was posted runs after a second, whatever was pending. *)
Lemma posted_registers env env' st s s1 :
  due_sorted (looper s) -> stopped_ (looper s) = false ->
  looper s1 = (Post (now env) (UpdateRegisterState_cb st) 1000 (looper s)).2 -> now env' = now env + 1000 ->
  exists n, radio_on (turns env' n s1) = radio_on s1 /\ registered_as st (turns env' n s1) /\
    Forall (fun e => now env' < when e) (queue_ (looper (turns env' n s1))).
Proof.
  intros Hs Hstop Hl Hnow.
  destruct (insert_event_split (mkEvent (now env + 1000) (UpdateRegisterState_cb st)
    (next_serial_ (looper s))) (queue_ (looper s)) Hs) as (q1 & q2 & Hq & Hins & H1 & H2). cbn [when] in *.
  set (e := mkEvent _ _ _) in *.
  destruct (run_due env' (q1 ++ [e]) s1 q2) as (Hr & Hlater & Hreg).
  - rewrite Hl. simpl. unfold e in Hins. rewrite Hins. by rewrite <- app_assoc.
  - by rewrite Hl.
  - rewrite Hnow. apply Forall_app. split; [done|]. constructor; [simpl; lia|done].
  - by rewrite Hnow.
  - exists (length (q1 ++ [e])). split_and!; [done| |done]. apply (Hreg e); [apply last_snoc|done].
Qed.

(** Switching the radio on registers: after AT+CFUN=1 with a ready SIM, once the
    looper has run everything that is due one second later, whatever was pending
    before, voice and data are registered at home, the radio is on, and nothing due
    is left. *)
Theorem radio_on_registers (env env' : Env) (s : Service) :
  reachable s -> stopped_ (looper s) = false -> sim_service_ env = Some SIM_STATUS_READY ->
  now env' = now env + 1000 ->
  exists s1, handle env (str "AT+CFUN=1") s = (Ok true, s1) /\
  exists n, radio_on (turns env' n s1) = true /\ registered_as NET_REGISTRATION_HOME (turns env' n s1) /\
    Forall (fun e => now env' < when e) (queue_ (looper (turns env' n s1))).
Proof.
  intros [_ Hs]%reachable_network Hstop Hsim Hnow.
  set (s0 := set_voice_state NET_REGISTRATION_HOME (set_radio true s)).
  set (s1 := reply [str "OK"] (TimeUpdate env (PostCallback env (UpdateRegisterState_cb NET_REGISTRATION_HOME) 1000 s0))).
  exists s1. split.
  { unfold handle. change (HandleModemCommand InitializeCommandHandlers (str "AT+CFUN=1")) with (Some HRadioPower).
    cbn [run_handler]. unfold mbind, modify, mret. f_equal. unfold HandleRadioPower.
    change (GetNextInt (SkipPrefix (str "AT+CFUN=1"))).1 with 1. cbv zeta. by rewrite Hsim. }
  destruct (posted_registers env env' NET_REGISTRATION_HOME s s1 Hs Hstop eq_refl Hnow) as (n & Hr & Hreg & Hl).
  exists n. by rewrite Hr.
Qed.

(** ** Concrete runs *)
Definition test_env (t : Z) : Env :=
  mkEnv (Some SIM_STATUS_READY) t 0 true (DataService.mkEnv [] [] [] true 0)
    (MiscService.mkEnv (mkTm 0 0 1 0 0 0) 0 0 true).
Definition fresh : Service :=
  InitializeServiceState (test_env 0) InitDefaultNvramConfig DataService.DataService_ [].
Lemma fresh_reachable : reachable fresh.
Proof. apply net_init. Qed.

Lemma signal_in_range_witness : signal_documented (GetCurrentSignalStrength fresh).
Proof. apply signal_in_range, fresh_reachable. Defined.

Lemma radio_on_registers_witness :
  exists s1, handle (test_env 0) (str "AT+CFUN=1") fresh = (Ok true, s1) /\
  exists n, radio_on (turns (test_env 1000) n s1) = true /\
    registered_as NET_REGISTRATION_HOME (turns (test_env 1000) n s1).
Proof.
  destruct (radio_on_registers (test_env 0) (test_env 1000) fresh fresh_reachable eq_refl eq_refl eq_refl)
    as (s1 & H1 & n & H2 & H3 & _).
  exists s1. split; [exact H1|]. exists n. split; [exact H2|exact H3].
Defined.

(** Switching the radio off does not cancel the registration that switching it on
    has posted: with AT+CFUN=0 within a second of AT+CFUN=1, the modem registers at
    home while its radio is off. *)
Theorem registers_with_radio_off :
  let s1 := (handle (test_env 0) (str "AT+CFUN=1") fresh).2 in
  let s2 := (handle (test_env 500) (str "AT+CFUN=0") s1).2 in
  let s3 := loop_turn (test_env 1000) s2 in
  radio_on s2 = false /\ registered_as NET_REGISTRATION_UNREGISTERED s2 /\
  radio_on s3 = false /\ registered_as NET_REGISTRATION_HOME s3.
Proof. vm_compute. repeat split. Qed.

(** Choosing an operator by hand (AT+COPS=1) reads past the end of the list of
    operators whenever the operator exists, whatever the state. *)
Theorem manual_selection_undefined (env : Env) (s : Service) (n : bytes) (o : NetworkOperator) :
  dquote ∉ n -> "="%char ∉ n -> find_operator n s = Some o ->
  exists s', handle env (str "AT+COPS=1,2," ++ quoted n) s = (Fatal "iter is operator_list_.end()", s').
Proof.
  intros Hn Heq Hf. unfold handle.
  assert (HandleModemCommand InitializeCommandHandlers (str "AT+COPS=1,2," ++ quoted n) = Some HSetNetworkSelectionMode) as ->.
  { unfold HandleModemCommand, InitializeCommandHandlers. change (str "AT+COPS=1,2,") with ("A"%char :: "T"%char :: str "+COPS=1,2,").
    cbn [app find]. rewrite !Compare_cons. cbn [match_mode command_prefix].
    rewrite !bool_decide_false by (intros E; discriminate E). reflexivity. }
  cbn [run_handler]. unfold HandleSetNetworkSelectionMode.
  change (SkipPrefix (str "AT+COPS=1,2," ++ quoted n)) with (skip_past "="%char (str "AT+COPS" ++ "="%char :: str "1,2," ++ quoted n)).
  rewrite skip_past_app by compute_done.
  pose proof (GetNextInt_app 1 (str "2," ++ quoted n) eq_refl) as Hi.
  change (to_string 1 ++ comma :: str "2," ++ quoted n) with (str "1,2," ++ quoted n) in Hi. rewrite Hi.
  unfold SkipPrefix. rewrite skip_past_none.
  2: { unfold quoted. rewrite not_elem_of_app, not_elem_of_cons, not_elem_of_app.
    split_and!; [compute_done|done|done|compute_done]. }
  rewrite bool_decide_true by set_solver. unfold select_mode.
  pose proof (GetNextStr_after (str "2,") n [] ltac:(compute_done) Hn) as Hs. unfold quoted.
  change (n ++ [dquote]) with (n ++ dquote :: []). rewrite Hs.
  eexists. unfold mbind, get, modify, lift. cbn. by rewrite Hf.
Qed.
Lemma manual_selection_undefined_witness :
  exists s', handle (test_env 0) (str "AT+COPS=1,2," ++ quoted (str "310300")) fresh =
    (Fatal "iter is operator_list_.end()", s').
Proof.
  eapply (manual_selection_undefined (test_env 0) fresh (str "310300")).
  - compute_done.
  - compute_done.
  - vm_compute. reflexivity.
Defined.

(** When the SIM's operator is not one of the built-in ones, setting up the SIM
    service adds the built-in operators a second time, and two operators are marked
    as the current one. *)
Theorem sim_operator_duplicates :
  let s := InitializeSimOperator (Some (str "00101")) (Some (fun _ => Some (str "Test Operator=Test"))) fresh in
  (numeric <$> operator_list_ s) =
    str "00101" :: (numeric <$> kOperators) ++ (numeric <$> kOperators) /\
  (numeric <$> base.filter (fun o => operator_state o = OPER_STATE_CURRENT) (operator_list_ s)) =
    [str "00101"; str "311740"].
Proof. vm_compute. split; reflexivity. Qed.

(** ** Preferred technologies are kept *)
Lemma stoi_hex_show z : 0 <= z < 2 ^ 31 -> stoi_hex (show_hex_lower z) = Ok z.
Proof.
  intros Hz. unfold stoi_hex. rewrite strtol_show_hex by lia.
  replace (in_i32 z) with true by (unfold in_i32; lia). done.
Qed.

Definition ctec_command (current mask : Z) : bytes :=
  str "AT+CTEC=" ++ to_string current ++ comma :: quoted (show_hex_lower mask).

Lemma ctec_dispatch current mask :
  HandleModemCommand InitializeCommandHandlers (ctec_command current mask) = Some HSetPreferredNetworkType.
Proof.
  unfold ctec_command, HandleModemCommand, InitializeCommandHandlers.
  change (str "AT+CTEC=") with ("A"%char :: "T"%char :: str "+CTEC="). cbn [app find]. rewrite !Compare_cons.
  cbn [match_mode command_prefix]. rewrite !bool_decide_false; [reflexivity|..]; intros E; try discriminate E.
  apply (f_equal zlen) in E. unfold quoted in E. rewrite !zlen_app, !zlen_cons, zlen_app in E.
  pose proof (zlen_nonneg (show_hex_lower mask)). pose proof (zlen_nonneg (to_string current)).
  change (zlen (str "+CTEC=?")) with 7 in E. change (zlen (str "+CTEC=")) with 6 in E. change (zlen [dquote]) with 1 in E. lia.
Qed.

Lemma register_modes env st s :
  let s' := UpdateRegisterState env st s in
  preferred_network_mode_ s' = preferred_network_mode_ s /\ current_network_mode_ s' = current_network_mode_ s.
Proof.
  unfold UpdateRegisterState, OnSignalStrengthChanged, OnDataRegisterStateChanged, OnVoiceRegisterStateChanged,
    SendUnsolicitedCommand. cbv zeta. destruct (channel_monitor_ env); repeat case_match; done.
Qed.

Lemma init_modes env n d tz :
  let s := InitializeServiceState env n d tz in
  preferred_network_mode_ s = preferred_network_mode n /\ current_network_mode_ s = modem_technoloy n.
Proof.
  unfold InitializeServiceState, UpdateSignalStrengthCallback, InitializeNetworkOperator, select_head,
    OnSignalStrengthChanged, SendUnsolicitedCommand. cbv zeta. repeat case_match; done.
Qed.

Lemma ctec_query env s :
  last (out (handle env (str "AT+CTEC?") s).2) =
    Some (Response [str "+CTEC: " ++ to_string (current_network_mode_ s) ++ comma :: show_hex_lower (preferred_network_mode_ s);
                    str "OK"]).
Proof. apply last_snoc. Qed.

(** The preferred technologies are kept: after AT+CTEC=current,"mask" the modem
    uses the technology of the mask (or stays where it is when the mask did not
    change), AT+CTEC? answers with both, and a modem started from what was saved has
    the same technologies. *)
Theorem preferred_mode_roundtrip (env env' : Env) (s : Service) (current mask : Z) d tz :
  in_i32 current = true -> 0 <= mask < 2 ^ 31 ->
  exists s1, handle env (ctec_command current mask) s = (Ok true, s1) /\
    preferred_network_mode_ s1 = mask /\
    current_network_mode_ s1 =
      (if mask =? preferred_network_mode_ s then current_network_mode_ s else getModemTechFromPrefer mask) /\
    last (out (handle env' (str "AT+CTEC?") s1).2) =
      Some (Response [str "+CTEC: " ++ to_string (current_network_mode_ s1) ++ comma :: show_hex_lower mask; str "OK"]) /\
    let s2 := InitializeServiceState env' (nvram s1) d tz in
    preferred_network_mode_ s2 = mask /\ current_network_mode_ s2 = current_network_mode_ s1.
Proof.
  intros Hc Hm. unfold handle at 1. rewrite ctec_dispatch. cbn [run_handler]. unfold HandleSetPreferredNetworkType.
  assert (SkipPrefix (ctec_command current mask) = to_string current ++ comma :: quoted (show_hex_lower mask)) as ->.
  { apply (skip_past_app "="%char (str "AT+CTEC")). compute_done. }
  rewrite GetNextInt_app by done. unfold quoted at 1.
  rewrite (GetNextStr_quoted (show_hex_lower mask) []) by (apply show_hex_unquoted; lia). cbn [fst].
  unfold mbind, lift, get, modify, mret. rewrite stoi_hex_show by done.
  set (s' := if negb (mask =? preferred_network_mode_ s) then _ else _).
  assert (Hp : preferred_network_mode_ s' = mask).
  { unfold s'. destruct (Z.eqb_spec mask (preferred_network_mode_ s)); simpl; congruence. }
  assert (Hcur : current_network_mode_ s' =
    (if mask =? preferred_network_mode_ s then current_network_mode_ s else getModemTechFromPrefer mask)).
  { unfold s'. by destruct (mask =? preferred_network_mode_ s). }
  clearbody s'. destruct (if negb (current =? current_network_mode_ s') then _ else _) as [line s0] eqn:E.
  assert (Hmodes : preferred_network_mode_ s0 = mask /\ current_network_mode_ s0 = current_network_mode_ s').
  { destruct (negb _); simplify_eq; [|done]. unfold PostCallback. cbn [set_io preferred_network_mode_ current_network_mode_].
    destruct (register_modes env NET_REGISTRATION_UNREGISTERED s') as [-> ->]. done. }
  destruct Hmodes as [Hm1 Hm2]. eexists. split; [reflexivity|].
  cbn [reply emit set_io set_nvram preferred_network_mode_ current_network_mode_ nvram]. cbv zeta.
  destruct (init_modes env' (mkNvram (network_selection_mode (nvram s0)) (operator_numeric (nvram s0))
    (current_network_mode_ s0) (preferred_network_mode_ s0)) d tz) as [-> ->].
  cbn [preferred_network_mode modem_technoloy]. rewrite Hm1, Hm2. split_and!; try done.
  rewrite ctec_query. cbn [reply emit set_io set_nvram preferred_network_mode_ current_network_mode_]. by rewrite Hm1, Hm2.
Qed.

Lemma preferred_mode_roundtrip_witness :
  exists s1, handle (test_env 0) (ctec_command 0 513) fresh = (Ok true, s1) /\
    preferred_network_mode_ s1 = 513 /\ current_network_mode_ s1 = M_MODEM_TECH_WCDMA.
Proof.
  destruct (preferred_mode_roundtrip (test_env 0) (test_env 0) fresh 0 513 DataService.DataService_ [] eq_refl ltac:(lia))
    as (s1 & H1 & H2 & H3 & _). exists s1. split; [exact H1|]. split; [exact H2|exact H3].
Defined.

End NetworkService.
