(* ===== verification/ChannelMonitor.v ===== *)
(** * Clients of the modem (modem_simulator/channel_monitor.{h,cpp})

    The monitor splits what clients send into commands for the modem and carries
    the modem's answers.  The modem is known by the interface [Modem]; what the
    sockets deliver is an argument of each step. *)
From S2P Require Import Prelude CppString ModemCommand PduParser SmsService.

Module ChannelMonitor.
Import CppString ModemCommand.

(** What the monitor uses of a modem.  [DispatchCommand] is told which client it
    is and whether it is another modem, and returns what it sends. *)
Class Modem (S : Type) := {
  IsWaitingSmsPdu : S -> bool;
  DispatchCommand : Z -> bool -> bytes -> M S (list Output);
  OnFirstClientConnected : S -> list Output * S
}.

Record Client := mkClient {
  id : Z; remote : bool; incomplete_command : bytes; is_open : bool; is_valid : bool; first_read_command_ : bool
}.
Record Monitor (S : Type) := mkMonitor {
  clients_ : list Client; remote_clients_ : list Client; next_id_ : Z;
  triggers : Z;                          (* messages in the pipe *)
  modem_ : S; sent : list (Z * bytes)    (* what was written, by client *)
}.
Arguments mkMonitor {S}. Arguments clients_ {S}. Arguments remote_clients_ {S}. Arguments next_id_ {S}.
Arguments triggers {S}. Arguments modem_ {S}. Arguments sent {S}.

(** What a read delivers: data, or an error or the end of the stream, with whether
    errno is EAGAIN. *)
Inductive Incoming := Data (buffer : bytes) | Nothing (again : bool).

Section monitor.
Context `{Absl} {S : Type} `{Modem S}.
Abbreviation Mon := (Monitor S).

Definition set_clients (l r : list Client) (m : Mon) : Mon :=
  mkMonitor l r (next_id_ m) (triggers m) (modem_ m) (sent m).
Definition write_to (i : Z) (text : bytes) (m : Mon) : Mon :=
  mkMonitor (clients_ m) (remote_clients_ m) (next_id_ m) (triggers m) (modem_ m) (sent m ++ [(i, text)]).
Definition set_modem (s : S) (m : Mon) : Mon :=
  mkMonitor (clients_ m) (remote_clients_ m) (next_id_ m) (triggers m) s (sent m).
Definition trigger (m : Mon) : Mon :=
  mkMonitor (clients_ m) (remote_clients_ m) (next_id_ m) (triggers m + 1) (modem_ m) (sent m).

(** ** Answers *)
Definition SendUnsolicitedCommand (response : bytes) (m : Mon) : Mon :=
  match clients_ m with
  | c :: _ => write_to (id c) (SendCommandResponse response) m
  | [] => m
  end.

Definition SendRemoteCommand (client : Z) (response : bytes) (m : Mon) : Mon :=
  match find (fun c => id c =? client) (remote_clients_ m) with
  | Some c => write_to (id c) (SendCommandResponse response) m
  | None => m
  end.

Fixpoint close_first (client : Z) (l : list Client) : list Client :=
  match l with
  | [] => []
  | c :: l => if id c =? client
              then mkClient (id c) (remote c) (incomplete_command c) false false (first_read_command_ c) :: l
              else c :: close_first client l
  end.
Definition CloseRemoteConnection (client : Z) (m : Mon) : Mon :=
  match find (fun c => id c =? client) (remote_clients_ m) with
  | Some _ => trigger (set_clients (clients_ m) (close_first client (remote_clients_ m)) m)
  | None => m
  end.

(** What the modem sends while it handles a command of client [i].  Connections the
    services open themselves and the nvram file do not go through the monitor. *)
Definition execute (i : Z) (o : Output) (m : Mon) : Mon :=
  match o with
  | Response lines => foldl (fun m line => write_to i (SendCommandResponse line) m) m lines
  | Unsolicited line => SendUnsolicitedCommand line m
  | ToRemote client line => SendRemoteCommand client line m
  | CloseRemote client => CloseRemoteConnection client m
  | RemoteSocket _ _ | SaveNvram _ => m
  end.

Definition dispatch (c : Client) (command : bytes) : M Mon unit := fun m =>
  match DispatchCommand (id c) (remote c) command (modem_ m) with
  | (Ok os, s) => (Ok tt, foldl (fun m o => execute (id c) o m) (set_modem s m) os)
  | (r, s) => (fail_as r, set_modem s m)
  end.

(** ** Commands *)
Definition ctrl_z : ascii := byte_of_Z 26.
Definition newline : ascii := byte_of_Z 10.
Definition terminator (m : Mon) : ascii := if IsWaitingSmsPdu (modem_ m) then ctrl_z else cr.

(** The loop of [ReadCommand]: dispatch the complete commands, return the rest. *)
Definition split_commands (c : Client) (commands : bytes) : M Mon bytes := fun m =>
  while_ (fun '(pos, m) =>
    match find_from (terminator m) pos commands with
    | Some r_pos =>
        let command := zslice pos (r_pos - pos) commands in
        if bool_decide (command = []) then inl (r_pos + 1, m)
        else match dispatch c command m with
             | (Ok _, m) => inl (r_pos + 1, m)
             | (r, m) => inr (fail_as r, m)
             end
    | None => inr (Ok (if pos <? zlen commands then zdrop pos commands else []), m)
    end) (Fuel, m) (0, m).

Definition erase_client (c : Client) (m : Mon) : Mon :=
  let erase := List.filter (fun d => negb (id d =? id c)) in
  if remote c then set_clients (clients_ m) (erase (remote_clients_ m)) m
  else set_clients (erase (clients_ m)) (remote_clients_ m) m.

Definition ReadCommand (c : Client) (incoming : Incoming) : M Mon Client :=
  match incoming with
  | Nothing again =>
      if again && remote c && first_read_command_ c then mret c
      else
        let! _ := modify (erase_client c) in
        mret (mkClient (id c) (remote c) (incomplete_command c) false (is_valid c) (first_read_command_ c))
  | Data buffer =>
      let commands := StrReplaceAll (incomplete_command c ++ buffer) [(newline, [cr])] in
      let! rest := split_commands c commands in
      mret (mkClient (id c) (remote c) rest (is_open c) (is_valid c) (first_read_command_ c))
  end.

(** ** Connections *)
Definition AcceptIncomingConnection (accepted : bool) (m : Mon) : Mon :=
  if negb accepted then m
  else
    let m := mkMonitor (clients_ m ++ [mkClient (next_id_ m) false [] true true false]) (remote_clients_ m)
               (next_id_ m + 1) (triggers m) (modem_ m) (sent m) in
    if zlen (clients_ m) =? 1 then
      let '(os, s) := OnFirstClientConnected (modem_ m) in
      foldl (fun m o => execute (next_id_ m) o m) (set_modem s m) os
    else m.

(** [accepted]: what the first read of an accepted client delivers, if it is one. *)
Definition SetRemoteClient (connected : bool) (accepted : option Incoming) : M Mon Z :=
  let! m := get in
  let c := mkClient (next_id_ m) true [] connected true true in
  let! _ := modify (fun m => mkMonitor (clients_ m) (remote_clients_ m) (next_id_ m + 1) (triggers m) (modem_ m) (sent m)) in
  let! c := match accepted with Some incoming => ReadCommand c incoming | None => mret c end in
  let! _ := modify (fun m =>
    if is_open c then
      set_clients (clients_ m) (remote_clients_ m ++
        [mkClient (id c) true (incomplete_command c) true (is_valid c) false]) m
    else m) in
  let! _ := modify trigger in
  mret (id c).

Definition removeInvalidClients : list Client -> list Client := List.filter is_valid.

(** The rest of a command goes back to the client in its list. *)
Definition store (c : Client) (m : Mon) : Mon :=
  let put := fmap (fun d => if id d =? id c
    then mkClient (id d) (remote d) (incomplete_command c) (is_open d) (is_valid d) (first_read_command_ d) else d) in
  set_clients (put (clients_ m)) (put (remote_clients_ m)) m.

(** [for (auto& client : clients)]: the end is the one the vector had at the start.
    [i] of [n] clients are done; reading a slot that an erasure left is undefined. *)
Fixpoint read_clients (list_of : Mon -> list Client) (incoming : Z -> option Incoming) (i n : nat) : M Mon unit :=
  match n with
  | O => mret tt
  | Datatypes.S n =>
      let! m := get in
      match list_of m !! i with
      | None => lift (Fatal "client was erased while iterating")
      | Some c =>
          let! _ := match incoming (id c) with
                    | Some data => let! c := ReadCommand c data in modify (store c)
                    | None => mret tt
                    end in
          read_clients list_of incoming (Datatypes.S i) n
      end
  end.

(** One round of [MonitorLoop] after select: the result says whether it goes on.
    [accept]: a connection is waiting and was accepted; [pipe]: a message, true to
    leave. *)
Definition MonitorLoop_turn (accept : option bool) (pipe : option bool) (incoming : Z -> option Incoming) : M Mon bool :=
  let! _ := match accept with Some ok => modify (AcceptIncomingConnection ok) | None => mret tt end in
  match pipe with
  | Some true => mret false
  | _ =>
      let! _ := match pipe with
                | Some _ => modify (fun m => set_clients (removeInvalidClients (clients_ m))
                                               (removeInvalidClients (remote_clients_ m)) m)
                | None => mret tt
                end in
      let! m := get in
      let! _ := read_clients clients_ incoming 0 (length (clients_ m)) in
      let! m := get in
      let! _ := read_clients remote_clients_ incoming 0 (length (remote_clients_ m)) in
      mret true
  end.
(** ** Commands do not depend on how the stream was cut

    [feed] is the reference: it takes one byte at a time and keeps the command read
    so far. *)
Definition norm (x : ascii) : ascii := if bool_decide (x = newline) then cr else x.

Fixpoint feed (c : Client) (cur stream : bytes) : M Mon bytes := fun m =>
  match stream with
  | [] => (Ok cur, m)
  | x :: stream =>
      let x := norm x in
      if bool_decide (x = terminator m) then
        if bool_decide (cur = []) then feed c [] stream m
        else match dispatch c cur m with
             | (Ok _, m) => feed c [] stream m
             | (r, m) => (fail_as r, m)
             end
      else feed c (cur ++ [x]) stream m
  end.

(** The client after a stream of chunks. *)
Fixpoint read_all (c : Client) (chunks : list bytes) : M Mon Client :=
  match chunks with
  | [] => mret c
  | buffer :: chunks => let! c := ReadCommand c (Data buffer) in read_all c chunks
  end.
Definition set_rest (rest : bytes) (c : Client) : Client :=
  mkClient (id c) (remote c) rest (is_open c) (is_valid c) (first_read_command_ c).

(** The part of a command a client keeps: normalised, and not yet complete. *)
Definition pending (m : Mon) (cur : bytes) : Prop := Forall (fun x => norm x = x /\ x <> terminator m) cur.

Lemma StrReplaceAll_norm l : StrReplaceAll l [(newline, [cr])] = norm <$> l.
Proof.
  rewrite StrReplaceAll_chars by apply NoDup_singleton. induction l as [|x l IH]; [done|].
  cbn [flat_map fmap list_fmap]. rewrite IH. unfold norm, replace_char. simpl.
  destruct (bool_decide_reflect (x = newline)); [subst; done|]. by rewrite bool_decide_false by done.
Qed.

Lemma norm_norm x : norm (norm x) = norm x.
Proof. unfold norm. repeat case_bool_decide; try done. Qed.

Lemma feed_norm c stream : forall cur m, feed c cur (norm <$> stream) m = feed c cur stream m.
Proof.
  induction stream as [|x stream IH]; intros cur m; [done|]. cbn [fmap list_fmap feed]. cbv zeta. rewrite norm_norm.
  repeat case_match; auto.
Qed.

Lemma feed_pending c p : forall cur stream m,
  pending m p -> feed c cur (p ++ stream) m = feed c (cur ++ p) stream m.
Proof.
  induction p as [|x p IH]; intros cur stream m Hp; [by rewrite app_nil_r|].
  apply Forall_cons in Hp as [[Hn Ht] Hp]. cbn [app feed]. cbv zeta. rewrite Hn, bool_decide_false by done.
  rewrite IH by done. by rewrite <- app_assoc.
Qed.

Lemma feed_app c s1 : forall cur s2 m,
  feed c cur (s1 ++ s2) m = (let! rest := feed c cur s1 in feed c rest s2) m.
Proof.
  induction s1 as [|x s1 IH]; intros cur s2 m; [done|]. cbn [app feed]. unfold mbind. cbn [feed]. cbv zeta.
  case_bool_decide; [|apply IH]. case_bool_decide; [apply IH|]. case_match. by case_match.
Qed.

Lemma feed_rest c s : forall cur m rest m',
  pending m cur -> feed c cur s m = (Ok rest, m') -> pending m' rest.
Proof.
  induction s as [|x s IH]; intros cur m rest m' Hp; cbn [feed]; cbv zeta.
  { by intros [= <- <-]. }
  case_bool_decide as Ex.
  - case_bool_decide; [apply IH; constructor|]. case_match. case_match; try done. apply IH. constructor.
  - apply IH, Forall_app. split; [done|]. constructor; [|constructor]. split; [apply norm_norm|done].
Qed.
(** A command up to its terminator. *)
Lemma feed_command c p rest m :
  pending m p -> feed c [] (p ++ terminator m :: rest) m =
    if bool_decide (p = []) then feed c [] rest m
    else match dispatch c p m with
         | (Ok _, m) => feed c [] rest m
         | (r, m) => (fail_as r, m)
         end.
Proof.
  intros Hp. rewrite feed_pending by done. cbn [app feed]. cbv zeta.
  assert (norm (terminator m) = terminator m) as ->.
  { unfold terminator. by destruct (IsWaitingSmsPdu (modem_ m)). }
  by rewrite bool_decide_true by done.
Qed.

(** The loop over positions does what [feed] does. *)
Lemma split_commands_feed c l m :
  Forall (fun x => norm x = x) l -> zlen l < 2 ^ 64 -> split_commands c l m = feed c [] l m.
Proof.
  intros Hl Hlen. unfold split_commands.
  apply (while_rule _ (fun '(pos, m1) => 0 <= pos <= zlen l /\ feed c [] (zdrop pos l) m1 = feed c [] l m)
    (fun '(pos, _) => zlen l - pos) (fun r => r = feed c [] l m)).
  - pose proof (zlen_nonneg l). rewrite zdrop_0 by lia. split; [lia|done].
  - pose proof (zlen_nonneg l). lia.
  - intros [pos m1] [Hpos Heq] _. unfold find_from.
    pose proof (find_char_from_spec pos (terminator m1) (zdrop pos l)) as Hf.
    destruct (find_char_from pos (terminator m1) (zdrop pos l)) as [r_pos|].
    + destruct Hf as (a & b & Hd & Ha & ->). rewrite Hd in Heq.
      assert (Hcmd : zslice pos (pos + zlen a - pos) l = a).
      { unfold zslice. rewrite Hd. replace (pos + zlen a - pos) with (zlen a) by lia.
        by rewrite ztake_app_le, ztake_all by lia. }
      assert (Hrest : zdrop (pos + zlen a + 1) l = b).
      { rewrite <- Z.add_assoc, <- zdrop_zdrop by (pose proof (zlen_nonneg a); lia). rewrite Hd.
        rewrite zdrop_app_ge by lia. replace (zlen a + 1 - zlen a) with 1 by lia. by destruct b. }
      assert (Hlen' : pos + zlen a + 1 <= zlen l).
      { apply (f_equal zlen) in Hd. rewrite zlen_zdrop, zlen_app, zlen_cons in Hd. pose proof (zlen_nonneg b). lia. }
      assert (Hpend : pending m1 a).
      { apply Forall_forall. intros x Hx. split; [|intros ->; done]. rewrite Forall_forall in Hl. apply Hl.
        rewrite <- (ztake_zdrop pos l), Hd. set_solver. }
      rewrite feed_command in Heq by done. rewrite Hcmd. pose proof (zlen_nonneg a).
      case_bool_decide; [rewrite Hrest; split; [split; [lia|done]|lia]|].
      destruct (dispatch c a m1) as [[]]; try done. rewrite Hrest. split; [split; [lia|done]|lia].
    + rewrite <- Heq. assert (Hpend : pending m1 (zdrop pos l)).
      { apply Forall_forall. intros x Hx. split; [|intros ->; done]. rewrite Forall_forall in Hl. apply Hl.
        rewrite <- (ztake_zdrop pos l). set_solver. }
      rewrite <- (app_nil_r (zdrop pos l)), feed_pending by done. rewrite app_nil_r. cbn [feed app].
      destruct (Z.ltb_spec pos (zlen l)); [done|]. by rewrite zdrop_all by lia.
Qed.

Lemma ReadCommand_feed c buffer m :
  pending m (incomplete_command c) -> zlen (incomplete_command c ++ buffer) < 2 ^ 64 ->
  ReadCommand c (Data buffer) m =
    (let! rest := feed c (incomplete_command c) buffer in mret (set_rest rest c)) m.
Proof.
  intros Hp Hlen. unfold ReadCommand. cbv zeta. rewrite StrReplaceAll_norm. unfold mbind.
  rewrite split_commands_feed.
  - rewrite feed_norm, feed_pending by done. done.
  - apply Forall_forall. intros x (y & -> & _)%list_elem_of_fmap. apply norm_norm.
  - by rewrite zlen_fmap.
Qed.
(** What a dispatch sees of a client is not changed by reading. *)
Lemma feed_set_rest rest c s : forall cur m, feed (set_rest rest c) cur s m = feed c cur s m.
Proof.
  induction s as [|x s IH]; intros cur m; [done|]. cbn [feed]. cbv zeta.
  change (dispatch (set_rest rest c)) with (dispatch c). case_bool_decide; [|apply IH].
  case_bool_decide; [apply IH|]. case_match. by case_match.
Qed.

Lemma feed_length c s : forall cur m rest m',
  feed c cur s m = (Ok rest, m') -> zlen rest <= zlen cur + zlen s.
Proof.
  induction s as [|x s IH]; intros cur m rest m'; cbn [feed]; cbv zeta.
  { intros [= <- _]. rewrite zlen_nil. lia. }
  rewrite zlen_cons. pose proof (zlen_nonneg cur). case_bool_decide.
  - case_bool_decide; [intros E%IH; rewrite zlen_nil in E; lia|]. case_match. case_match; try done.
    intros E%IH. rewrite zlen_nil in E. lia.
  - intros E%IH. rewrite zlen_app, zlen_cons, zlen_nil in E. lia.
Qed.

(** How the sockets cut a client's stream does not matter: reading it chunk by
    chunk dispatches the same commands in the same order, and leaves the same modem
    and the same incomplete command, as taking it byte by byte; commands end with a
    carriage return or newline, or with control-Z while the modem waits for a PDU. *)
Theorem commands_independent_of_chunks (c : Client) (chunks : list bytes) (m : Mon) :
  pending m (incomplete_command c) -> zlen (incomplete_command c ++ concat chunks) < 2 ^ 64 ->
  read_all c chunks m =
    (let! rest := feed c (incomplete_command c) (concat chunks) in mret (set_rest rest c)) m.
Proof.
  revert c m. induction chunks as [|buffer chunks IH]; intros c m Hp Hlen; cbn [read_all concat].
  { unfold mbind, mret. cbn [feed]. by destruct c. }
  cbn [concat] in Hlen. rewrite !zlen_app in Hlen.
  pose proof (zlen_nonneg (concat chunks)). pose proof (zlen_nonneg (incomplete_command c)).
  unfold mbind at 1. rewrite ReadCommand_feed by (done || (rewrite zlen_app; lia)).
  unfold mbind. rewrite feed_app. unfold mbind.
  destruct (feed c (incomplete_command c) buffer m) as [[rest| | |] m'] eqn:E; try done.
  unfold mret at 1. rewrite IH.
  - unfold mbind, mret. cbn [set_rest incomplete_command]. by rewrite feed_set_rest.
  - cbn [set_rest incomplete_command]. by eapply feed_rest.
  - cbn [set_rest incomplete_command]. rewrite zlen_app. apply feed_length in E. lia.
Qed.

(** When the first of two clients disconnects, the loop over the clients reads
    the slot that erasing it has left: undefined behaviour, whatever the modem. *)
Theorem disconnect_while_iterating (m : Mon) (c1 c2 : Client) (incoming : Z -> option Incoming) :
  clients_ m = [c1; c2] -> id c1 <> id c2 -> remote c1 = false ->
  incoming (id c1) = Some (Nothing false) -> incoming (id c2) = None ->
  exists m', MonitorLoop_turn None None incoming m = (Fatal "client was erased while iterating", m').
Proof.
  intros Hc Hne Hr H1 H2. unfold MonitorLoop_turn, mbind, get, mret. rewrite Hc. cbn [length read_clients].
  unfold mbind, get, modify, lift, mret. rewrite Hc. cbn [lookup list_lookup]. rewrite H1. cbn [ReadCommand andb].
  unfold mbind, modify, mret, erase_client, store. rewrite Hr, Hc. cbn [set_clients clients_ remote_clients_ id List.filter].
  rewrite Z.eqb_refl. cbn [negb]. rewrite (proj2 (Z.eqb_neq (id c2) (id c1))) by congruence. cbn [negb].
  eexists. reflexivity.
Qed.
End monitor.

(** ** The modem of the message service

    [ModemSimulator] as far as messages are concerned; other commands get the error
    for what no service supports. *)
Definition sms_outputs (s s' : SmsService.Service) : list Output := drop (length (SmsService.out s)) (SmsService.out s').
#[local] Instance sms_modem (clock : PduParser.Clock) (env : SmsService.Env) : Modem SmsService.Service := {
  IsWaitingSmsPdu s := SmsService.is_waiting_sms_pdu_ s || SmsService.is_waiting_sms_to_sim_ s;
  DispatchCommand client from_remote command := fun s =>
    match SmsService.dispatch clock env command s with
    | (Ok taken, s') =>
        (Ok (sms_outputs s s' ++
             (if negb taken && negb from_remote then [Response [kCmeErrorOperationNotSupported]] else [])), s')
    | (r, s') => (fail_as r, s')
    end;
  OnFirstClientConnected s := ([], s)
}.

Definition one_client : Client := mkClient 0 false [] true true false.
Definition sms_monitor : Monitor SmsService.Service :=
  mkMonitor [one_client] [] 1 0 (SmsService.SmsService_ 0 0) [].
(** A message for the SIM in two ways of cutting: the second command ends with
    control-Z, and the carriage return in it is part of it. *)
Definition sms_chunks : list bytes :=
  [str "AT+CM"; str "GW=3,1" ++ [newline] ++ str "AB"; [cr]; str "C" ++ [ctrl_z] ++ str "AT"].

Lemma commands_independent_of_chunks_witness :
  exists m', @read_all _ _ (sms_modem SmsService.noon (SmsService.env_of 6520)) one_client sms_chunks sms_monitor =
    (Ok (set_rest (str "AT") one_client), m') /\
  sent m' = [(0, str "> " ++ [cr]); (0, str "+CMGW: 1" ++ [cr]); (0, str "OK" ++ [cr])] /\
  SmsService.messages_on_sim_card_ (modem_ m') = [(1, SmsService.mkMessage (str "AB" ++ [cr] ++ str "C") 1)].
Proof.
  eexists. split.
  - rewrite (@commands_independent_of_chunks _ _ (sms_modem SmsService.noon (SmsService.env_of 6520))).
    + reflexivity.
    + constructor.
    + reflexivity.
  - split; reflexivity.
Defined.

Lemma disconnect_while_iterating_witness :
  exists m', @MonitorLoop_turn _ _ (sms_modem SmsService.noon (SmsService.env_of 6520)) None None
    (fun i => if i =? 0 then Some (Nothing false) else None)
    (mkMonitor [one_client; mkClient 1 false [] true true false] [] 2 0 (SmsService.SmsService_ 0 0) []) =
    (Fatal "client was erased while iterating", m').
Proof.
  apply (@disconnect_while_iterating _ _ (sms_modem SmsService.noon (SmsService.env_of 6520)) _
    one_client (mkClient 1 false [] true true false)); reflexivity || discriminate.
Defined.
End ChannelMonitor.
