(* ===== verification/Xml.v ===== *)
(** * XML documents

    The SIM card of the modem simulator is an XML document handled with the
    tinyxml2 library, which is not part of the repository.  The class [Xml] has
    the calls that sim_service.cpp and stk_service.cpp make, with elements as
    pointers into a document; [XmlLaws] states what the library documents about
    them.  [tree_xml] is an instance, with documents as trees and pointers as
    paths. *)
From S2P Require Import Prelude CppString.

Module Xml.
Import CppString.

(** [Elements] are the child elements in document order, which
    FirstChildElement and NextSiblingElement walk; [InsertNewElement] is
    InsertEndChild of a NewElement, with a NewText inside when there is one.
    [LoadFile] returns whether it was XML_SUCCESS and the document after it. *)
Class Xml := {
  Doc : Type; Node : Type; File : Type;
  Node_eq_dec :: EqDecision Node;
  XMLDocument_ : Doc;
  RootElement : Doc -> option Node;
  Name : Doc -> Node -> bytes;
  Elements : Doc -> Node -> list Node;
  AttributeValue : Doc -> Node -> bytes -> option bytes;
  GetText : Doc -> Node -> option bytes;
  SetText : Node -> bytes -> Doc -> Doc;
  InsertNewElement : Node -> bytes -> option bytes -> Doc -> Doc * Node;
  HasContent : File -> bool;
  LoadFile : File -> bool * Doc;
  SaveFile : Doc -> File
}.

(** [FirstChildElement(name)] and the elements that [NextSiblingElement(name)]
    goes on to. *)
Definition ElementsNamed `{Xml} (d : Doc) (n : Node) (name : bytes) : list Node :=
  filter (fun c => Name d c = name) (Elements d n).
Definition FirstChildElement `{Xml} (d : Doc) (n : Node) (name : bytes) : option Node :=
  head (ElementsNamed d n name).

(** A C string ends at its first zero byte. *)
Fixpoint c_str (s : bytes) : bytes :=
  match s with
  | [] => []
  | c :: s => if Z_of_byte c =? 0 then [] else c :: c_str s
  end.

(** Text that is stored and read back as it is. *)
Definition printable (c : ascii) : Prop := 32 <= Z_of_byte c <= 126.
Definition plain (s : bytes) : Prop := Forall printable s /\ exists c, c ∈ s /\ Z_of_byte c <> 32.

(** The same element in two documents. *)
Definition bisimulation `{Xml} (R : Node -> Node -> Prop) (d d' : Doc) : Prop :=
  forall n n', R n n' ->
    Name d n = Name d' n' /\ (forall a, AttributeValue d n a = AttributeValue d' n' a) /\
    GetText d n = GetText d' n' /\ Forall2 R (Elements d n) (Elements d' n').

(** [alive d n]: [n] points to an element of [d]. *)
Class XmlLaws `(X : Xml) := {
  alive : Doc -> Node -> Prop;
  no_root : RootElement XMLDocument_ = None;
  root_alive d n : RootElement d = Some n -> alive d n;
  elements_alive d n c : alive d n -> c ∈ Elements d n -> alive d c;
  SetText_same d n t :
    alive d n -> RootElement (SetText n (c_str t) d) = RootElement d /\
    (forall m, alive (SetText n (c_str t) d) m <-> alive d m) /\
    forall m, alive d m ->
      Name (SetText n (c_str t) d) m = Name d m /\
      Elements (SetText n (c_str t) d) m = Elements d m /\
      (forall a, AttributeValue (SetText n (c_str t) d) m a = AttributeValue d m a) /\
      GetText (SetText n (c_str t) d) m = if decide (m = n) then Some (c_str t) else GetText d m;
  InsertNewElement_same d p name t d' n :
    alive d p -> InsertNewElement p name t d = (d', n) ->
    RootElement d' = RootElement d /\ (forall m, alive d' m <-> alive d m \/ m = n) /\
    (forall m, alive d m ->
      Name d' m = Name d m /\ (forall a, AttributeValue d' m a = AttributeValue d m a) /\
      GetText d' m = GetText d m /\ Elements d' m = if decide (m = p) then Elements d m ++ [n] else Elements d m);
  InsertNewElement_new d p name t d' n :
    alive d p -> InsertNewElement p name t d = (d', n) ->
    ~ alive d n /\ Name d' n = name /\ Elements d' n = [] /\ GetText d' n = t /\
    (forall a, AttributeValue d' n a = None);
  SaveFile_content d n : RootElement d = Some n -> HasContent (SaveFile d) = true;
  LoadFile_SaveFile d r :
    RootElement d = Some r -> (forall n t, alive d n -> GetText d n = Some t -> plain t) ->
    exists d' r' R, LoadFile (SaveFile d) = (true, d') /\ RootElement d' = Some r' /\
      R r r' /\ bisimulation R d d'
}.

(** ** Finding elements *)
Section xml.
Context `{XL : XmlLaws}.

Lemma elements_named_alive d n name c : alive d n -> c ∈ ElementsNamed d n name -> alive d c.
Proof. intros Hn [_ Hc]%list_elem_of_filter. by eapply elements_alive. Qed.
Lemma first_child_alive d n name c : alive d n -> FirstChildElement d n name = Some c -> alive d c.
Proof.
  intros Hn Hc. unfold FirstChildElement in Hc. apply (elements_named_alive d n name); [done|].
  by apply head_Some_elem_of.
Qed.
Lemma first_child_name d n name c : FirstChildElement d n name = Some c -> Name d c = name.
Proof. intros Hc%head_Some_elem_of. by apply list_elem_of_filter in Hc as [? _]. Qed.

Definition child_text (d : Doc) (n : Node) (name : bytes) : option bytes := FirstChildElement d n name ≫= GetText d.

Lemma filter_ext_elem (P Q : Node -> Prop) `{!forall x, Decision (P x), !forall x, Decision (Q x)} (l : list Node) :
  (forall x, x ∈ l -> P x <-> Q x) -> filter P l = filter Q l.
Proof.
  induction l as [|x l IH]; intros Hl; [done|]. rewrite !filter_cons, IH by (intros; apply Hl; by right).
  destruct (Hl x) as [H1 H2]; [left|]. repeat case_decide; tauto.
Qed.

(** ** What updates leave alone *)
Lemma named_SetText d n t m name :
  alive d n -> alive d m -> ElementsNamed (SetText n (c_str t) d) m name = ElementsNamed d m name.
Proof.
  intros Hn Hm. destruct (SetText_same d n t Hn) as (_ & _ & Hs). unfold ElementsNamed.
  destruct (Hs m Hm) as (_ & -> & _). apply filter_ext_elem. intros c Hc.
  destruct (Hs c) as (-> & _); [by eapply elements_alive|done].
Qed.
Lemma first_SetText d n t m name :
  alive d n -> alive d m -> FirstChildElement (SetText n (c_str t) d) m name = FirstChildElement d m name.
Proof. intros. unfold FirstChildElement. by rewrite named_SetText. Qed.

Lemma named_Insert d p new t d' n m name :
  alive d p -> InsertNewElement p new t d = (d', n) -> alive d m ->
  ElementsNamed d' m name = ElementsNamed d m name ++ (if decide (m = p /\ name = new) then [n] else []).
Proof.
  intros Hp E Hm. destruct (InsertNewElement_same d p new t d' n Hp E) as (_ & _ & Hs).
  destruct (InsertNewElement_new d p new t d' n Hp E) as (_ & Hn & _).
  unfold ElementsNamed. destruct (Hs m Hm) as (_ & _ & _ & ->).
  assert (Hold : forall l : list Node, (forall c, c ∈ l -> alive d c) ->
    filter (fun c => Name d' c = name) l = filter (fun c => Name d c = name) l).
  { intros l Hl. apply filter_ext_elem. intros c Hc. by destruct (Hs c (Hl c Hc)) as (-> & _). }
  destruct (decide (m = p)) as [->|Hne].
  - rewrite filter_app, Hold by (intros; by eapply elements_alive). f_equal. rewrite filter_cons, Hn, filter_nil.
    repeat case_decide; naive_solver.
  - rewrite Hold by (intros; by eapply elements_alive). case_decide; [naive_solver|]. by rewrite app_nil_r.
Qed.
Lemma first_Insert_other d p new t d' n m name :
  alive d p -> InsertNewElement p new t d = (d', n) -> alive d m -> name <> new ->
  FirstChildElement d' m name = FirstChildElement d m name.
Proof.
  intros Hp E Hm Hne. unfold FirstChildElement. rewrite (named_Insert d p new t d' n) by done.
  rewrite decide_False by tauto. by rewrite app_nil_r.
Qed.
Lemma first_Insert_old d p new t d' n m name c :
  alive d p -> InsertNewElement p new t d = (d', n) -> alive d m ->
  FirstChildElement d m name = Some c -> FirstChildElement d' m name = Some c.
Proof.
  intros Hp E Hm. unfold FirstChildElement. rewrite (named_Insert d p new t d' n) by done.
  by destruct (ElementsNamed d m name).
Qed.
Lemma first_Insert_new d p new t d' n :
  alive d p -> InsertNewElement p new t d = (d', n) -> FirstChildElement d p new = None ->
  FirstChildElement d' p new = Some n.
Proof.
  intros Hp E. unfold FirstChildElement. rewrite (named_Insert d p new t d' n p new Hp E Hp).
  rewrite decide_True by done. by destruct (ElementsNamed d p new).
Qed.

(** ** The same document in another copy *)
Lemma first_bisimulation R d d' n n' name :
  bisimulation R d d' -> R n n' ->
  match FirstChildElement d n name, FirstChildElement d' n' name with
  | Some c, Some c' => R c c'
  | None, None => True
  | _, _ => False
  end.
Proof.
  intros HR Hn. destruct (HR n n' Hn) as (_ & _ & _ & He). unfold FirstChildElement, ElementsNamed.
  induction He as [|c c' l l' Hc _ IH]; [done|]. rewrite !filter_cons. destruct (HR c c' Hc) as (-> & _).
  case_decide; done.
Qed.
Lemma child_text_bisimulation R d d' n n' name :
  bisimulation R d d' -> R n n' -> child_text d n name = child_text d' n' name.
Proof.
  intros HR Hn. pose proof (first_bisimulation R d d' n n' name HR Hn) as Hc. unfold child_text.
  destruct (FirstChildElement d n name) as [c|], (FirstChildElement d' n' name) as [c'|]; try done.
  cbn. by destruct (HR c c' Hc) as (_ & _ & -> & _).
Qed.
End xml.

(** ** Trees as documents *)
#[local] Set Warnings "-register-all".
Inductive Tree := TNode (name : bytes) (attrs : list (bytes * bytes)) (text : option bytes) (children : list Tree).
Definition tree_name (t : Tree) : bytes := let '(TNode n _ _ _) := t in n.
Definition tree_attrs (t : Tree) : list (bytes * bytes) := let '(TNode _ a _ _) := t in a.
Definition tree_text (t : Tree) : option bytes := let '(TNode _ _ x _) := t in x.
Definition children (t : Tree) : list Tree := let '(TNode _ _ _ c) := t in c.

Fixpoint at_path (p : list nat) (t : Tree) : option Tree :=
  match p with
  | [] => Some t
  | i :: p => children t !! i ≫= at_path p
  end.
Fixpoint alter_at (f : Tree -> Tree) (p : list nat) (t : Tree) : Tree :=
  match p with
  | [] => f t
  | i :: p => TNode (tree_name t) (tree_attrs t) (tree_text t) (alter (alter_at f p) i (children t))
  end.
Definition assoc (k : bytes) (l : list (bytes * bytes)) : option bytes :=
  snd <$> find (fun kv => bool_decide (kv.1 = k)) l.
Definition set_tree_text (s : bytes) (t : Tree) : Tree := TNode (tree_name t) (tree_attrs t) (Some s) (children t).
Definition add_child (c t : Tree) : Tree := TNode (tree_name t) (tree_attrs t) (tree_text t) (children t ++ [c]).

Definition tree_at (d : option Tree) (p : list nat) : option Tree := d ≫= at_path p.
Definition tree_Elements (d : option Tree) (p : list nat) : list (list nat) :=
  match tree_at d p with
  | Some t => (fun i => p ++ [i]) <$> seq 0 (length (children t))
  | None => []
  end.

#[global] Instance tree_xml : Xml := {|
  Doc := option Tree; Node := list nat; File := option Tree;
  XMLDocument_ := None;
  RootElement := fun d => match d with Some _ => Some [] | None => None end;
  Name := fun d p => default [] (tree_name <$> tree_at d p);
  Elements := tree_Elements;
  AttributeValue := fun d p a => tree_at d p ≫= (fun t => assoc a (tree_attrs t));
  GetText := fun d p => tree_at d p ≫= tree_text;
  SetText := fun p s d => option_map (alter_at (set_tree_text s) p) d;
  InsertNewElement := fun p name s d =>
    (option_map (alter_at (add_child (TNode name [] s [])) p) d,
     p ++ [length (default [] (children <$> tree_at d p))]);
  HasContent := fun f => if f is Some _ then true else false;
  LoadFile := fun f => (if f is Some _ then true else false, f);
  SaveFile := fun d => d
|}.

(** What an element has, apart from its place. *)
Definition label (t : Tree) : bytes * list (bytes * bytes) * option bytes * nat :=
  (tree_name t, tree_attrs t, tree_text t, length (children t)).

Lemma at_alter f p :
  (forall u i c, children u !! i = Some c -> children (f u) !! i = Some c) ->
  forall q t u, at_path q t = Some u ->
  exists u', at_path q (alter_at f p t) = Some u' /\ if decide (q = p) then u' = f u else label u' = label u.
Proof.
  intros Hf. induction p as [|j p IH]; intros q t u Hu.
  - destruct q as [|i q]; simpl in *; [injection Hu as ->; eauto|].
    apply bind_Some in Hu as (c & Hc & Hu). exists u. by rewrite (Hf _ _ _ Hc).
  - destruct q as [|i q]; simpl in *.
    + injection Hu as <-. eexists. split; [done|]. unfold label. simpl. by rewrite length_alter.
    + apply bind_Some in Hu as (c & Hc & Hu). destruct (decide (i = j)) as [->|Hne].
      * rewrite list_lookup_alter, Hc, decide_True by done. simpl. destruct (IH q c u Hu) as (u' & H1 & H2). exists u'.
        split; [done|]. repeat case_decide; naive_solver.
      * rewrite list_lookup_alter_ne, Hc by done. exists u. split; [done|]. case_decide; naive_solver.
Qed.

Lemma at_alter_inv f p : forall q t,
  is_Some (at_path q (alter_at f p t)) ->
  is_Some (at_path q t) \/ exists u r, q = p ++ r /\ at_path p t = Some u /\ is_Some (at_path r (f u)).
Proof.
  induction p as [|j p IH]; intros q t Hq; [right; by exists t, q|].
  destruct q as [|i q]; [left; by eexists|]. cbn in *. destruct (decide (i = j)) as [->|Hne].
  - rewrite list_lookup_alter, decide_True in Hq by done. destruct (children t !! j) as [c|]; [|by destruct Hq].
    cbn in *. destruct (IH q c Hq) as [|(u & r & -> & ? & ?)]; [by left|right]. by exists u, r.
  - rewrite list_lookup_alter_ne in Hq by done. by left.
Qed.

Lemma at_path_app p q t : at_path (p ++ q) t = at_path p t ≫= at_path q.
Proof.
  revert t. induction p as [|i p IH]; intros t; [done|]. simpl. destruct (children t !! i); simpl; auto.
Qed.

Definition tree_alive (d : option Tree) (p : list nat) : Prop := is_Some (tree_at d p).

(** An update keeps an element's place and everything but what it changes. *)
Lemma alive_update f p d q :
  (forall u i c, children u !! i = Some c -> children (f u) !! i = Some c) -> tree_alive d q ->
  exists u u', tree_at d q = Some u /\ tree_at (option_map (alter_at f p) d) q = Some u' /\
    if decide (q = p) then u' = f u else label u' = label u.
Proof.
  intros Hf [u Hu]. destruct d as [t|]; [|inversion Hu]. simpl in *.
  destruct (at_alter f p Hf q t u Hu) as (u' & H1 & H2). eauto.
Qed.

Lemma add_alive c p d m :
  children c = [] -> tree_alive d p ->
  tree_alive (option_map (alter_at (add_child c) p) d) m <->
  tree_alive d m \/ m = p ++ [length (default [] (children <$> tree_at d p))].
Proof.
  intros Hc [u Hu]. rewrite Hu. destruct d as [r|]; [|inversion Hu]. unfold tree_alive. cbn in *. split.
  - intros [|(v & q & -> & Hv & Hq)]%at_alter_inv; [by left|]. replace v with u in * by congruence.
    destruct q as [|i q]; [left; rewrite app_nil_r; by eexists|]. cbn in Hq.
    destruct (children u !! i) as [x|] eqn:Ei.
    + left. rewrite at_path_app, Hu. cbn. rewrite Ei. by rewrite (lookup_app_l_Some _ _ _ _ Ei) in Hq.
    + right. apply lookup_ge_None in Ei. rewrite lookup_app_r in Hq by done.
      destruct (i - length (children u))%nat as [|k] eqn:Ek; [|by destruct Hq]. cbn in Hq.
      destruct q as [|j q]; [do 2 f_equal; lia|]. cbn in Hq. rewrite Hc in Hq. by destruct Hq.
  - intros [[v Hv]| ->].
    + destruct (at_alter (add_child c) p) with (q := m) (t := r) (u := v) as (v' & Hv' & _);
        [intros; by apply lookup_app_l_Some|done|]. by exists v'.
    + destruct (at_alter (add_child c) p) with (q := p) (t := r) (u := u) as (v' & Hv' & Hd);
        [intros; by apply lookup_app_l_Some|done|]. rewrite decide_True in Hd by done. subst v'.
      rewrite at_path_app, Hv'. cbn. rewrite lookup_app_r, Nat.sub_diag by done. by eexists.
Qed.

#[global] Instance tree_laws : XmlLaws tree_xml.
Proof.
  refine {| alive := (tree_alive : @Doc tree_xml -> @Node tree_xml -> Prop) |}.
  - done.
  - intros [t|] n Hn; inversion Hn. by exists t.
  - intros d n c [t Ht] Hc. simpl in Hc. unfold tree_Elements in Hc. rewrite Ht in Hc.
    apply list_elem_of_fmap in Hc as (i & -> & Hi%elem_of_seq). unfold tree_alive, tree_at in *.
    destruct d as [u|]; [|inversion Ht]. simpl in *. rewrite at_path_app, Ht. simpl.
    destruct (children t !! i) eqn:E; [by eexists|]. apply lookup_ge_None in E. lia.
  - intros d n s Hn. split; [by destruct d|]. split.
    { intros m. split.
      - destruct d as [r|]; [|by intros [? [=]]]. intros [|(u & q & -> & Hu & Hq)]%at_alter_inv; [done|].
        unfold tree_alive. cbn. rewrite at_path_app, Hu. by destruct q.
      - intros Hm. destruct (alive_update (set_tree_text (c_str s)) n d m) as (u & u' & _ & Hu' & _); [done|done|].
        by exists u'. }
    intros m Hm. destruct (alive_update (set_tree_text (c_str s)) n d m) as (u & u' & Hu & Hu' & H); [done|done|].
    unfold tree_alive. simpl. unfold tree_Elements. rewrite Hu, Hu'. simpl.
    case_decide; [subst u'; done|]. unfold label in H. simplify_eq. split_and!; try done; congruence.
  - intros d p name t d' n Hp E. cbn in E. injection E as <- <-. split; [by destruct d|]. split.
    { intros m. exact (add_alive (TNode name [] t []) p d m eq_refl Hp). }
    intros m Hm. destruct (alive_update (add_child (TNode name [] t [])) p d m) as (u & u' & Hu & Hu' & H);
      [intros; by apply lookup_app_l_Some|done|].
    unfold tree_alive. cbn. unfold tree_Elements. rewrite Hu, Hu'. cbn.
    case_decide; [subst u' m|unfold label in H; simplify_eq; split_and!; try done; congruence].
    split_and!; try done. rewrite Hu. cbn. by rewrite length_app, seq_app, fmap_app.
  - intros d p name t d' n Hp E. cbn in E. injection E as <- <-.
    destruct (alive_update (add_child (TNode name [] t [])) p d p) as (u & u' & Hu & Hu' & H);
      [intros; by apply lookup_app_l_Some|done|].
    rewrite decide_True in H by done. subst u'. rewrite Hu. cbn [fmap option_fmap option_map default from_option].
    assert (Hn : tree_at (option_map (alter_at (add_child (TNode name [] t [])) p) d) (p ++ [length (children u)])
                 = Some (TNode name [] t [])).
    { destruct d as [r|]; [|inversion Hu]. cbn in *. rewrite at_path_app, Hu'. cbn.
      by rewrite lookup_app_r, Nat.sub_diag. }
    split.
    { intros [v Hv]. destruct d as [r|]; [|inversion Hu]. cbn in *. rewrite at_path_app, Hu in Hv. cbn in Hv.
      by rewrite lookup_ge_None_2 in Hv. }
    cbn. unfold tree_Elements. rewrite Hn. done.
  - by intros [t|] n.
  - intros [t|] r Hr Ht; [|inversion Hr]. exists (Some t), r, eq. split_and!; try done.
    intros n ? <-. split_and!; done.
Defined.
End Xml.
