(* ===== verification/SimService.v ===== *)
(** * The SIM card (modem_simulator/sim_service.{h,cpp})

    The card's files are an XML document ([Xml]); its state is the status, the two
    PINs, the facility locks and the logical channels.  [World] adds the files on
    disk and the network service, which is told when the status changes and whose
    output the replies go to; SetupDependency connects the two services before the
    first command. *)
From S2P Require Import Prelude CppString ModemCommand ThreadLooper PduParser.
From S2P Require Import DataService NetworkService Xml.

Module SimService.
Import CppString ModemCommand ThreadLooper PduParser Xml.
Abbreviation SimStatus := NetworkService.SimStatus.
Abbreviation SIM_STATUS_ABSENT := NetworkService.SIM_STATUS_ABSENT.
Abbreviation SIM_STATUS_NOT_READY := NetworkService.SIM_STATUS_NOT_READY.
Abbreviation SIM_STATUS_READY := NetworkService.SIM_STATUS_READY.
Abbreviation SIM_STATUS_PIN := NetworkService.SIM_STATUS_PIN.
Abbreviation SIM_STATUS_PUK := NetworkService.SIM_STATUS_PUK.

(** ** Constants *)
Definition kSimPinSizeRange : Z * Z := (4, 8).
Definition kSimPukSize : Z := 8.
Definition kSimPinMaxRetryTimes : Z := 3.
Definition kSimPukMaxRetryTimes : Z := 10.
Definition kDefaultPinCode : bytes := str "1234".
Definition kDefaultPukCode : bytes := str "12345678".
Definition MF_SIM : bytes := str "3F00".
Definition DF_TELECOM : bytes := str "7F10".
Definition DF_PHONEBOOK : bytes := str "5F3A".
Definition DF_GRAPHICS : bytes := str "5F50".
Definition DF_ADF : bytes := str "7FFF".
Definition kFooterSizeBytes : Z := 14.
Definition kMaxNumberSizeBytes : Z := 11.
Definition kMaxLogicalChannels : Z := 3.

Definition kCmeErrorSimNotInserted : bytes := str "+CME ERROR: 10".
Definition kCmeErrorSimBusy : bytes := str "+CME ERROR: 14".
Definition kCmeErrorIncorrectPassword : bytes := str "+CME ERROR: 16".
Definition kCmeErrorMemoryFull : bytes := str "+CME ERROR: 20".
Definition kCmeErrorNotFound : bytes := str "+CME ERROR: 22".

(** ** Files of the card *)
Definition EF_ADN : Z := 0x6F3A.
Definition EF_FDN : Z := 0x6F3B.
Definition EF_GID1 : Z := 0x6F3E.
Definition EF_GID2 : Z := 0x6F3F.
Definition EF_SDN : Z := 0x6F49.
Definition EF_EXT1 : Z := 0x6F4A.
Definition EF_EXT2 : Z := 0x6F4B.
Definition EF_EXT3 : Z := 0x6F4C.
Definition EF_EXT5 : Z := 0x6F4E.
Definition EF_EXT6 : Z := 0x6FC8.
Definition EF_MWIS : Z := 0x6FCA.
Definition EF_MBDN : Z := 0x6FC7.
Definition EF_PNN : Z := 0x6FC5.
Definition EF_OPL : Z := 0x6FC6.
Definition EF_SPN : Z := 0x6F46.
Definition EF_SMS : Z := 0x6F3C.
Definition EF_ICCID : Z := 0x2FE2.
Definition EF_AD : Z := 0x6FAD.
Definition EF_MBI : Z := 0x6FC9.
Definition EF_MSISDN : Z := 0x6F40.
Definition EF_SPDI : Z := 0x6FCD.
Definition EF_SST : Z := 0x6F38.
Definition EF_CFIS : Z := 0x6FCB.
Definition EF_IMG : Z := 0x4F20.
Definition EF_PBR : Z := 0x4F30.
Definition EF_LI : Z := 0x6F05.
Definition EF_MAILBOX_CPHS : Z := 0x6F17.
Definition EF_VOICE_MAIL_INDICATOR_CPHS : Z := 0x6F11.
Definition EF_CFF_CPHS : Z := 0x6F13.
Definition EF_SPN_CPHS : Z := 0x6F14.
Definition EF_SPN_SHORT_CPHS : Z := 0x6F18.
Definition EF_INFO_CPHS : Z := 0x6F16.
Definition EF_CSP_CPHS : Z := 0x6F15.
Definition EF_PL : Z := 0x2F05.
Definition EF_PSI : Z := 0x6FE5.
Definition EF_PLMN_W_ACT : Z := 0x6F60.
Definition EF_OPLMN_W_ACT : Z := 0x6F61.
Definition EF_HPLMN_W_ACT : Z := 0x6F62.
Definition EF_EHPLMN : Z := 0x6FD9.
Definition EF_FPLMN : Z := 0x6F7B.
Definition EF_LRPLMNSI : Z := 0x6FDC.
Definition EF_HPPLMN : Z := 0x6F31.

Definition GetCommonIccEFPath (efid : Z) : bytes :=
  if bool_decide (efid ∈ [EF_ADN; EF_FDN; EF_MSISDN; EF_SDN; EF_EXT1; EF_EXT2; EF_EXT3; EF_PSI])
  then MF_SIM ++ DF_TELECOM
  else if bool_decide (efid ∈ [EF_ICCID; EF_PL]) then MF_SIM
  else if efid =? EF_PBR then MF_SIM ++ DF_TELECOM ++ DF_PHONEBOOK
  else if efid =? EF_IMG then MF_SIM ++ DF_TELECOM ++ DF_GRAPHICS
  else [].

Definition GetUsimEFPath (efid : Z) : bytes :=
  if bool_decide (efid ∈
       [EF_SMS; EF_EXT5; EF_EXT6; EF_MWIS; EF_MBI; EF_SPN; EF_AD; EF_MBDN; EF_PNN; EF_OPL; EF_SPDI; EF_SST; EF_CFIS;
        EF_MAILBOX_CPHS; EF_VOICE_MAIL_INDICATOR_CPHS; EF_CFF_CPHS; EF_SPN_CPHS; EF_SPN_SHORT_CPHS; EF_FDN; EF_SDN;
        EF_EXT3; EF_MSISDN; EF_EXT2; EF_INFO_CPHS; EF_CSP_CPHS; EF_GID1; EF_GID2; EF_LI; EF_PLMN_W_ACT;
        EF_OPLMN_W_ACT; EF_HPLMN_W_ACT; EF_EHPLMN; EF_FPLMN; EF_LRPLMNSI; EF_HPPLMN])
  then MF_SIM ++ DF_ADF
  else if efid =? EF_PBR then MF_SIM ++ DF_TELECOM ++ DF_PHONEBOOK
  else match GetCommonIccEFPath efid with
       | [] => MF_SIM ++ DF_TELECOM ++ DF_PHONEBOOK
       | path => path
       end.

(** ** PINs *)
Record PinStatus := mkPin { pin_ : bytes; puk_ : bytes; pin_remaining_times_ : Z; puk_remaining_times_ : Z }.
Inductive ChangeMode := WITH_PIN | WITH_PUK.

Definition CheckPasswordValid (password : bytes) : bool := forallb is_digit password.

Definition VerifyPIN (pin : bytes) (p : PinStatus) : bool * PinStatus :=
  if (zlen pin <? kSimPinSizeRange.1) || (zlen pin >? kSimPinSizeRange.2) then (false, p)
  else if negb (CheckPasswordValid pin) then (false, p)
  else if pin_remaining_times_ p <=? 0 then (false, p)
  else if bool_decide (pin = pin_ p) then (true, mkPin (pin_ p) (puk_ p) kSimPinMaxRetryTimes (puk_remaining_times_ p))
  else (false, mkPin (pin_ p) (puk_ p) (pin_remaining_times_ p - 1) (puk_remaining_times_ p)).

Definition VerifyPUK (puk : bytes) (p : PinStatus) : bool * PinStatus :=
  if negb (zlen puk =? kSimPukSize) then (false, p)
  else if negb (CheckPasswordValid puk) then (false, p)
  else if puk_remaining_times_ p <=? 0 then (false, p)
  else if bool_decide (puk = puk_ p) then (true, mkPin (pin_ p) (puk_ p) kSimPinMaxRetryTimes kSimPukMaxRetryTimes)
  else (false, mkPin (pin_ p) (puk_ p) (pin_remaining_times_ p) (puk_remaining_times_ p - 1)).

Definition ChangePIN (mode : ChangeMode) (pin_or_puk new_pin : bytes) (p : PinStatus) : bool * PinStatus :=
  let length := zlen new_pin in
  if (length <? kSimPinSizeRange.1) || (length >? kSimPinSizeRange.2) then (false, p)
  else
    let '(result, p) := match mode with WITH_PIN => VerifyPIN pin_or_puk p | WITH_PUK => VerifyPUK pin_or_puk p end in
    if negb result then (false, p)
    else if negb (CheckPasswordValid new_pin) then (false, p)
    else (true, mkPin new_pin (puk_ p) (pin_remaining_times_ p) (puk_remaining_times_ p)).

Definition ChangePUK (puk new_puk : bytes) (p : PinStatus) : bool * PinStatus :=
  let '(result, p) := VerifyPUK puk p in
  if negb result then (false, p)
  else if negb (zlen new_puk =? kSimPukSize) then (false, p)
  else (true, mkPin (pin_ p) new_puk (pin_remaining_times_ p) (puk_remaining_times_ p)).

(** ** State *)
Record LogicalChannel := mkChannel { df_name : bytes; is_open : bool; session_id : Z }.

(** [facility_lock_] is in the order of the map, with whether the lock is enabled. *)
Record Sim {X : Xml} := mkSim {
  sim_status_ : SimStatus;
  doc : Doc;                                 (* sim_file_system_ *)
  file_path : bytes;
  pin1_status_ : PinStatus;
  pin2_status_ : PinStatus;
  facility_lock_ : list (bytes * bool);
  logical_channels_ : list LogicalChannel;
  last_file_id_ : bytes;
  cdma_subscription_source_ : Z;
  cdma_roaming_preference_ : Z
}.
Arguments mkSim {X}.

Record World {X : Xml} := mkWorld {
  sim : Sim; files : gmap bytes File; network_service_ : NetworkService.Service }.
Arguments mkWorld {X}.

Record Env := mkEnv {
  service_id_ : Z;
  sim_type : Z;                              (* of NvramConfig *)
  PerInstancePath : bytes -> bytes;
  DefaultHostArtifactsPath : bytes -> bytes;
  save_ok : bool;                            (* the file can be written *)
  net_env : NetworkService.Env
}.

Section service.
Context {X : Xml} (env : Env).

Definition set_status (st : SimStatus) (w : World) : World :=
  let s := sim w in
  mkWorld (mkSim st (doc s) (file_path s) (pin1_status_ s) (pin2_status_ s) (facility_lock_ s) (logical_channels_ s)
             (last_file_id_ s) (cdma_subscription_source_ s) (cdma_roaming_preference_ s))
    (files w) (network_service_ w).
Definition set_doc (d : Doc) (path : bytes) (w : World) : World :=
  let s := sim w in
  mkWorld (mkSim (sim_status_ s) d path (pin1_status_ s) (pin2_status_ s) (facility_lock_ s) (logical_channels_ s)
             (last_file_id_ s) (cdma_subscription_source_ s) (cdma_roaming_preference_ s))
    (files w) (network_service_ w).
Definition set_pins (p1 p2 : PinStatus) (w : World) : World :=
  let s := sim w in
  mkWorld (mkSim (sim_status_ s) (doc s) (file_path s) p1 p2 (facility_lock_ s) (logical_channels_ s)
             (last_file_id_ s) (cdma_subscription_source_ s) (cdma_roaming_preference_ s))
    (files w) (network_service_ w).
Definition set_locks (l : list (bytes * bool)) (w : World) : World :=
  let s := sim w in
  mkWorld (mkSim (sim_status_ s) (doc s) (file_path s) (pin1_status_ s) (pin2_status_ s) l (logical_channels_ s)
             (last_file_id_ s) (cdma_subscription_source_ s) (cdma_roaming_preference_ s))
    (files w) (network_service_ w).
Definition set_channels (l : list LogicalChannel) (last : bytes) (w : World) : World :=
  let s := sim w in
  mkWorld (mkSim (sim_status_ s) (doc s) (file_path s) (pin1_status_ s) (pin2_status_ s) (facility_lock_ s) l last
             (cdma_subscription_source_ s) (cdma_roaming_preference_ s))
    (files w) (network_service_ w).
Definition set_cdma (source roaming : Z) (w : World) : World :=
  let s := sim w in
  mkWorld (mkSim (sim_status_ s) (doc s) (file_path s) (pin1_status_ s) (pin2_status_ s) (facility_lock_ s)
             (logical_channels_ s) (last_file_id_ s) source roaming)
    (files w) (network_service_ w).
Definition on_net (f : NetworkService.Service -> NetworkService.Service) (w : World) : World :=
  mkWorld (sim w) (files w) (f (network_service_ w)).
Definition reply (lines : list bytes) : World -> World := on_net (NetworkService.reply lines).

(** [sim_file_system_.doc.SaveFile(file_path)], whose result the code ignores. *)
Definition save_file (w : World) : World :=
  if save_ok env
  then mkWorld (sim w) (<[file_path (sim w) := SaveFile (doc (sim w))]> (files w)) (network_service_ w) else w.

(** ** Finding elements *)
Definition FindAttribute (d : Doc) (parent : option Node) (attr_name attr_value : bytes) : option Node :=
  match parent with
  | None => None
  | Some parent =>
      find (fun child => bool_decide (AttributeValue d child attr_name = Some attr_value)) (Elements d parent)
  end.

(** The loop over the path, four characters at a time. *)
Fixpoint sub_paths (path : bytes) : list bytes :=
  match path with
  | [] => []
  | a :: b :: c :: e :: path => [a; b; c; e] :: sub_paths path
  | sub_path => [sub_path]
  end.
Fixpoint walk (d : Doc) (parent : Node) (subs : list bytes) : option Node :=
  match subs with
  | [] => Some parent
  | sub_path :: subs =>
      match FindAttribute d (Some parent) (str "path") sub_path with
      | Some app => walk d app subs
      | None => None
      end
  end.
Definition find_path (d : Doc) (parent : Node) (path : bytes) : option Node := walk d parent (sub_paths path).

Definition AppendNewElement (parent : Node) (name : bytes) (d : Doc) : Doc * Node := InsertNewElement parent name None d.
Definition AppendNewElementWithText (parent : Node) (name text : bytes) (d : Doc) : Doc * Node :=
  InsertNewElement parent name (Some (c_str text)) d.

(** [GetText] is null for an element without text, and every use makes a
    std::string of it. *)
Definition text_of (d : Doc) (e : Node) : result bytes :=
  match GetText d e with Some t => Ok t | None => Fatal "null text" end.

(** ** Loading the card *)
Definition icc_profile_name : bytes :=
  str "iccprofile_for_sim" ++ to_string (service_id_ env) ++
  (if sim_type env =? 2 then str "_for_CtsCarrierApiTestCases.xml" else str ".xml").
Definition etc_profile_name : bytes := str "etc/modem_simulator/files/" ++ icc_profile_name.

(** [FileExists] and [FileHasContent]. *)
Definition readable (path : bytes) (w : World) : option File :=
  match files w !! path with
  | Some f => if HasContent f then Some f else None
  | None => None
  end.

Definition load_code (d : Doc) (pin_profile : Node) (name : bytes) (code : bytes) : result bytes :=
  match FirstChildElement d pin_profile name with Some e => text_of d e | None => Ok code end.
Definition load_times (d : Doc) (pin_profile : Node) (name : bytes) (times : Z) : result Z :=
  match FirstChildElement d pin_profile name with
  | Some e => let* t := text_of d e in stoi t
  | None => Ok times
  end.

Definition load_pin_profile (d : Doc) (pin_profile : Node) : result (SimStatus * PinStatus * PinStatus) :=
  let* status :=
    match FirstChildElement d pin_profile (str "PINSTATE") with
    | Some e =>
        let* state := text_of d e in
        Ok (if bool_decide (state = str "PINSTATE_ENABLED_NOT_VERIFIED") then SIM_STATUS_PIN
            else if bool_decide (state = str "PINSTATE_ENABLED_BLOCKED") then SIM_STATUS_PUK else SIM_STATUS_READY)
    | None => Ok SIM_STATUS_READY
    end in
  let* pin := load_code d pin_profile (str "PINCODE") kDefaultPinCode in
  let* puk := load_code d pin_profile (str "PUKCODE") kDefaultPukCode in
  let* pin_times := load_times d pin_profile (str "PINREMAINTIMES") kSimPinMaxRetryTimes in
  let* puk_times := load_times d pin_profile (str "PUKREMAINTIMES") kSimPukMaxRetryTimes in
  let* pin2 := load_code d pin_profile (str "PIN2CODE") kDefaultPinCode in
  let* puk2 := load_code d pin_profile (str "PUK2CODE") kDefaultPukCode in
  let* pin2_times := load_times d pin_profile (str "PIN2REMAINTIMES") kSimPinMaxRetryTimes in
  let* puk2_times := load_times d pin_profile (str "PUK2REMAINTIMES") kSimPukMaxRetryTimes in
  Ok (status, mkPin pin puk pin_times puk_times, mkPin pin2 puk2 pin2_times puk2_times).

Definition default_pin : PinStatus :=
  mkPin kDefaultPinCode kDefaultPukCode kSimPinMaxRetryTimes kSimPukMaxRetryTimes.

Definition InitializeSimFileSystemAndSimState : M World unit :=
  let icc_profile_path := PerInstancePath env icc_profile_name in
  let! w := get in
  match (match readable icc_profile_path w with
         | Some f => Some f
         | None => readable (DefaultHostArtifactsPath env etc_profile_name) w
         end) with
  | None => modify (set_status SIM_STATUS_ABSENT)
  | Some f =>
      let '(success, d) := LoadFile f in
      let! _ := modify (set_doc d icc_profile_path) in
      if negb success then modify (set_status SIM_STATUS_ABSENT)
      else match RootElement d with
           | None => modify (set_status SIM_STATUS_ABSENT)
           | Some root =>
               let! _ := modify (fun w => set_pins default_pin default_pin (set_status SIM_STATUS_READY w)) in
               match FirstChildElement d root (str "PinProfile") with
               | None => mret tt
               | Some pin_profile =>
                   let! x := lift (load_pin_profile d pin_profile) in
                   let '(status, pin1, pin2) := x in
                   modify (fun w => set_pins pin1 pin2 (set_status status w))
               end
           end
  end.

Definition kFacilities : list bytes :=
  [str "AB"; str "AC"; str "AG"; str "AI"; str "AO"; str "FD"; str "IR"; str "OI"; str "OX"; str "SC"].

(** The lock's element, when there is one, decides. *)
Fixpoint load_locks (d : Doc) (facility_lock : Node) (l : list (bytes * bool)) : result (list (bytes * bool)) :=
  match l with
  | [] => Ok []
  | (name, status) :: l =>
      let* status :=
        match FirstChildElement d facility_lock name with
        | Some e => let* state := text_of d e in Ok (if bool_decide (state = str "ENABLE") then true else status)
        | None => Ok status
        end in
      let* l := load_locks d facility_lock l in
      Ok ((name, status) :: l)
  end.

Definition InitializeFacilityLock : M World unit :=
  let! _ := modify (set_locks ((fun f => (f, false)) <$> kFacilities)) in
  let! w := get in
  let d := doc (sim w) in
  match RootElement d with
  | None => modify (set_status SIM_STATUS_ABSENT)
  | Some root =>
      match FirstChildElement d root (str "FacilityLock") with
      | None => mret tt
      | Some facility_lock =>
          let! l := lift (load_locks d facility_lock (facility_lock_ (sim w))) in
          modify (set_locks l)
      end
  end.

Definition kChannels : list LogicalChannel :=
  [mkChannel [] false 1; mkChannel [] false 2; mkChannel [] false kMaxLogicalChannels].

Definition InitializeServiceState : M World unit :=
  let! _ := InitializeSimFileSystemAndSimState in
  let! _ := InitializeFacilityLock in
  modify (fun w => set_channels kChannels (last_file_id_ (sim w)) w).

(** ** Saving the card *)

(** The child of [parent] with this name gets the text, or a new child, called
    [new_name], is appended with it. *)
Definition put_text (parent : Node) (name new_name text : bytes) (d : Doc) : Doc :=
  match FirstChildElement d parent name with
  | None => (AppendNewElementWithText parent new_name text d).1
  | Some e => SetText e (c_str text) d
  end.

(** The first child with this name, appended when there is none. *)
Definition ensure_child (root : Node) (name : bytes) (d : Doc) : Doc * Node :=
  match FirstChildElement d root name with
  | Some e => (d, e)
  | None => AppendNewElement root name d
  end.

Definition lock_status (lock : bytes) (s : Sim) : option bool :=
  snd <$> find (fun l => bool_decide (l.1 = lock)) (facility_lock_ s).

Definition pin_state_text (s : Sim) : bytes :=
  if bool_decide (sim_status_ s = SIM_STATUS_PUK) then str "PINSTATE_ENABLED_BLOCKED"
  else match lock_status (str "SC") s with
       | Some true => str "PINSTATE_ENABLED_NOT_VERIFIED"
       | _ => str "PINSTATE_UNKNOWN"
       end.

(** The elements in the order of the code; a missing PIN2REMAINTIMES is appended as
    another PINREMAINTIMES. *)
Definition save_pins (s : Sim) (pin_profile : Node) (d : Doc) : Doc :=
  let p1 := pin1_status_ s in
  let p2 := pin2_status_ s in
  let put name text d := put_text pin_profile name name text d in
  let d := put (str "PINSTATE") (pin_state_text s) d in
  let d := put (str "PINCODE") (pin_ p1) d in
  let d := put (str "PUKCODE") (puk_ p1) d in
  let d := put (str "PINREMAINTIMES") (to_string (pin_remaining_times_ p1)) d in
  let d := put (str "PUKREMAINTIMES") (to_string (puk_remaining_times_ p1)) d in
  let d := put (str "PIN2CODE") (pin_ p2) d in
  let d := put (str "PUK2CODE") (puk_ p2) d in
  let d := put_text pin_profile (str "PIN2REMAINTIMES") (str "PINREMAINTIMES") (to_string (pin_remaining_times_ p2)) d in
  put (str "PUK2REMAINTIMES") (to_string (puk_remaining_times_ p2)) d.

Definition SavePinStateToIccProfile (w : World) : World :=
  let d := doc (sim w) in
  match RootElement d with
  | None => set_status SIM_STATUS_ABSENT w
  | Some root =>
      let '(d, pin_profile) := ensure_child root (str "PinProfile") d in
      save_file (set_doc (save_pins (sim w) pin_profile d) (file_path (sim w)) w)
  end.

Fixpoint save_locks (facility_lock : Node) (l : list (bytes * bool)) (d : Doc) : Doc :=
  match l with
  | [] => d
  | (name, enabled) :: l =>
      save_locks facility_lock l
        (put_text facility_lock name name (if enabled : bool then str "ENABLE" else str "DISABLE") d)
  end.

Definition SaveFacilityLockToIccProfile : M World unit :=
  let! w := get in
  let d := doc (sim w) in
  match RootElement d with
  | None => modify (set_status SIM_STATUS_ABSENT)
  | Some root =>
      let '(d, facility_lock) := ensure_child root (str "FacilityLock") d in
      let d := save_locks facility_lock (facility_lock_ (sim w)) d in
      let! _ := modify (fun w => save_file (set_doc d (file_path (sim w)) w)) in
      let! _ := InitializeSimFileSystemAndSimState in
      InitializeFacilityLock
  end.

(** [ModemSimulator::SaveModemState]. *)
Definition SaveModemState : M World unit :=
  let! _ := modify SavePinStateToIccProfile in
  SaveFacilityLockToIccProfile.

(** ** Numbers stored on the card *)
Definition IsFDNEnabled (s : Sim) : bool :=
  match lock_status (str "FD") s with Some true => true | _ => false end.

(** [record[i]] of a std::string: the character after the last one is zero. *)
Definition char_at (s : bytes) (i : Z) : result Z :=
  if i =? zlen s then Ok 0
  else match znth i s with
       | Some c => Ok (let z := Z_of_byte c in if z <? 128 then z else z - 256)
       | None => Fatal "index out of range"
       end.

(** The number in an ADN record; [None] when its length is not valid. *)
Definition record_number (record : bytes) : result (option bytes) :=
  let footerOffset := as_i32 (zlen record - kFooterSizeBytes * 2) in
  let* hi := char_at record footerOffset in
  let* lo := char_at record (footerOffset + 1) in
  let numberLength := (hi - 48) * 16 + lo - 48 in
  if numberLength >? kMaxNumberSizeBytes then Ok None
  else
    let* bcd := if numberLength * 2 =? 16
                then substr (u64 (footerOffset + 6)) (u64 (numberLength * 2 - 4)) record
                else substr (u64 (footerOffset + 4)) (u64 (numberLength * 2 - 2)) record in
    Ok (Some (BCDToString bcd)).

Fixpoint any_record (d : Doc) (number : bytes) (records : list Node) : result bool :=
  match records with
  | [] => Ok false
  | final :: records =>
      let* record := text_of d final in
      let* fdn := record_number record in
      if bool_decide (fdn = Some number) then Ok true else any_record d number records
  end.

Definition IsFixedDialNumber (number : bytes) (s : Sim) : result bool :=
  let d := doc s in
  match root ← RootElement d; parent ← find_path d root (GetUsimEFPath EF_FDN);
        FindAttribute d (Some parent) (str "id") (str "6F3B") with
  | None => Ok false
  | Some ef => any_record d number (ElementsNamed d ef (str "SIMIO"))
  end.

Definition GetIccProfile (s : Sim) : option Node := RootElement (doc s).

Definition GetPhoneNumberElement (s : Sim) : option Node :=
  let d := doc s in
  root ← RootElement d; parent ← find_path d root (GetUsimEFPath EF_MSISDN);
  ef ← FindAttribute d (Some parent) (str "id") (str "6F40");
  FindAttribute d (Some ef) (str "cmd") (str "B2").

Definition GetPhoneNumber (s : Sim) : result bytes :=
  match GetPhoneNumberElement s with
  | None => Ok []
  | Some final =>
      let* record := text_of (doc s) final in
      let* number := record_number record in
      Ok (default [] number)
  end.

(** [std::string::replace(pos, n, data)] and the assignment [s[i] = c]. *)
Definition string_replace (pos n : Z) (data s : bytes) : result bytes :=
  if zlen s <? pos then Fatal "std::out_of_range" else Ok (ztake pos s ++ data ++ zdrop (pos + n) s).
Definition set_char (i c : Z) (s : bytes) : result bytes :=
  if (0 <=? i) && (i <? zlen s) then Ok (ztake i s ++ byte_of_Z c :: zdrop (i + 1) s) else Fatal "index out of range".

(** The record with a new number. *)
Definition put_number (number record : bytes) : result bytes :=
  let footerOffset := as_i32 (zlen record - kFooterSizeBytes * 2) in
  let bcd_number := StringToBCD number in
  let* x :=
    if (zlen number =? 12) && bool_decide (number = str "68")
    then let* r := string_replace (u64 (footerOffset + 6)) (zlen bcd_number) bcd_number record in Ok (r, 8)
    else let* r := string_replace (u64 (footerOffset + 4)) (zlen bcd_number) bcd_number record in
         Ok (r, (zlen bcd_number + 2) / 2) in
  let '(record, newLength) := x in
  let* record := set_char footerOffset (48 + newLength / 16) record in
  set_char (footerOffset + 1) (48 + newLength mod 16) record.

Definition SetPhoneNumber (number : bytes) : M World bool :=
  if zlen number >? kMaxNumberSizeBytes then mret false
  else
    let! w := get in
    match GetPhoneNumberElement (sim w) with
    | None => mret false
    | Some elem =>
        let! record := lift (text_of (doc (sim w)) elem) in
        let! record := lift (put_number number record) in
        let! _ := modify (fun w => save_file (set_doc (SetText elem (c_str record) (doc (sim w))) (file_path (sim w)) w)) in
        mret true
    end.

Definition GetSimStatus (s : Sim) : SimStatus := sim_status_ s.

(** The first three digits of the IMSI and as many more as EF_AD says. *)
Definition GetSimOperator (s : Sim) : result bytes :=
  let d := doc s in
  match root ← RootElement d; mf ← FindAttribute d (Some root) (str "path") MF_SIM;
        FindAttribute d (Some mf) (str "path") DF_ADF with
  | None => Ok []
  | Some df =>
      match ef ← FindAttribute d (Some df) (str "id") (str "6F07"); FirstChildElement d ef (str "CIMI") with
      | None => Ok []
      | Some cimi =>
          let* imsi := text_of d cimi in
          match FindAttribute d (Some df) (str "id") (str "6FAD") with
          | None => Ok []
          | Some ef =>
              match find (fun e => bool_decide (AttributeValue d e (str "cmd") = Some (str "B0")))
                      (ElementsNamed d ef (str "SIMIO")) with
              | None => Ok []
              | Some sim_io =>
                  let* length := text_of d sim_io in
                  let* digits := substr_from (u64 (zlen length - 2)) length in
                  let* mnc_size := stoi digits in
                  substr 0 (u64 (3 + mnc_size)) imsi
              end
          end
      end
  end.

(** ** Status and PIN commands *)
Definition gSimStatusResponse (st : SimStatus) : bytes :=
  match st with
  | NetworkService.SIM_STATUS_ABSENT => kCmeErrorSimNotInserted
  | NetworkService.SIM_STATUS_NOT_READY => kCmeErrorSimBusy
  | NetworkService.SIM_STATUS_READY => str "+CPIN: READY"
  | NetworkService.SIM_STATUS_PIN => str "+CPIN: SIM PIN"
  | NetworkService.SIM_STATUS_PUK => str "+CPIN: SIM PUK"
  end.
Definition HandleSIMStatusReq (w : World) : World := reply [gSimStatusResponse (sim_status_ (sim w)); str "OK"] w.

Definition OnSimStatusChanged (w : World) : World :=
  on_net (NetworkService.OnSimStatusChanged (net_env env) (sim_status_ (sim w))) w.

Definition set_pin1 (p : PinStatus) (w : World) : World := set_pins p (pin2_status_ (sim w)) w.
Definition set_pin2 (p : PinStatus) (w : World) : World := set_pins (pin1_status_ (sim w)) p w.

Definition checkPin1AndAdjustSimStatus (pin : bytes) (w : World) : bool * World :=
  let '(ok, p) := VerifyPIN pin (pin1_status_ (sim w)) in
  let w := set_pin1 p w in
  if ok then (true, OnSimStatusChanged (set_status SIM_STATUS_READY w))
  else if pin_remaining_times_ p <=? 0 then (false, OnSimStatusChanged (set_status SIM_STATUS_PUK w))
  else (false, w).

Definition ChangePin1AndAdjustSimStatus (mode : ChangeMode) (pin new_pin : bytes) (w : World) : bool * World :=
  let '(ok, p) := ChangePIN mode pin new_pin (pin1_status_ (sim w)) in
  let w := set_pin1 p w in
  if ok then (true, OnSimStatusChanged (set_status SIM_STATUS_READY w))
  else if bool_decide (sim_status_ (sim w) = SIM_STATUS_READY) && (pin_remaining_times_ p <=? 0)
  then (false, OnSimStatusChanged (set_status SIM_STATUS_PIN w))
  else if bool_decide (sim_status_ (sim w) = SIM_STATUS_PIN) && (puk_remaining_times_ p <=? 0)
  then (false, OnSimStatusChanged (set_status SIM_STATUS_ABSENT w))
  else (false, w).

Definition ok_or (error : bytes) (r : bool * World) : World := reply [if r.1 then str "OK" else error] r.2.
Definition ok_or_incorrect : bool * World -> World := ok_or kCmeErrorIncorrectPassword.
(** An operation on the second PIN. *)
Definition on_pin2 (f : PinStatus -> bool * PinStatus) (w : World) : bool * World :=
  let '(ok, p) := f (pin2_status_ (sim w)) in (ok, set_pin2 p w).

Definition HandleChangeOrEnterPIN (command : bytes) (w : World) : World :=
  let cmd := SkipPrefix command in
  let change mode := let '(pin, new_pin) := GetNextStr_flag comma cmd in
                     ok_or_incorrect (ChangePin1AndAdjustSimStatus mode pin new_pin w) in
  match sim_status_ (sim w) with
  | NetworkService.SIM_STATUS_ABSENT => reply [kCmeErrorSimNotInserted] w
  | NetworkService.SIM_STATUS_NOT_READY => reply [kCmeErrorSimBusy] w
  | NetworkService.SIM_STATUS_READY =>
      match find_first_of comma cmd with
      | Some _ => change WITH_PIN
      | None => ok_or_incorrect (on_pin2 (VerifyPIN cmd) w)
      end
  | NetworkService.SIM_STATUS_PIN => ok_or_incorrect (checkPin1AndAdjustSimStatus cmd w)
  | NetworkService.SIM_STATUS_PUK =>
      match find_first_of comma cmd with
      | Some _ => change WITH_PUK
      | None => reply [kCmeErrorOperationNotAllowed] w
      end
  end.

Definition set_lock (lock : bytes) (enabled : bool) (w : World) : World :=
  set_locks ((fun l => if bool_decide (l.1 = lock) then (lock, enabled) else l) <$> facility_lock_ (sim w)) w.

Definition HandleFacilityLock (command : bytes) (w : World) : World :=
  let '(lock, cmd) := GetNextStr command in
  let '(mode, cmd) := GetNextInt cmd in
  let password := (GetNextStr cmd).1 in
  match lock_status lock (sim w) with
  | None => reply [kCmeErrorOperationNotSupported] w
  | Some status =>
      let locked (r : bool * World) := if r.1 then (true, set_lock lock (mode =? 1) r.2) else r in
      if mode =? 2 then reply [str "+CLCK: " ++ show_bool status; str "OK"] w
      else if (mode =? 1) || (mode =? 0) then
        if bool_decide (lock = str "SC") then ok_or_incorrect (locked (checkPin1AndAdjustSimStatus password w))
        else if bool_decide (lock = str "FD") then ok_or_incorrect (locked (on_pin2 (VerifyPIN password) w))
        else reply [str "OK"] (set_lock lock (mode =? 1) w)
      else reply [kCmeErrorInCorrectParameters] w
  end.

Definition HandleChangePassword (command : bytes) (w : World) : World :=
  let '(lock, cmd) := GetNextStr (SkipPrefix command) in
  let '(old_password, cmd) := GetNextStr cmd in
  let new_password := (GetNextStr cmd).1 in
  if bool_decide (lock = str "SC")
  then ok_or_incorrect (ChangePin1AndAdjustSimStatus WITH_PIN old_password new_password w)
  else if bool_decide (lock = str "P2") || bool_decide (lock = str "FD")
  then ok_or_incorrect (on_pin2 (ChangePIN WITH_PIN old_password new_password) w)
  else reply [kCmeErrorOperationNotSupported] w.

Definition HandleQueryRemainTimes (command : bytes) (w : World) : World :=
  let lock_type := (GetNextStr (SkipPrefix command)).1 in
  let p1 := pin1_status_ (sim w) in
  let p2 := pin2_status_ (sim w) in
  let answer times max := reply [str "+CPINR: " ++ lock_type ++ str "," ++ to_string times ++ str "," ++ to_string max;
                                 str "OK"] w in
  if bool_decide (lock_type = str "SIM PIN") then answer (pin_remaining_times_ p1) kSimPinMaxRetryTimes
  else if bool_decide (lock_type = str "SIM PUK") then answer (puk_remaining_times_ p1) kSimPukMaxRetryTimes
  else if bool_decide (lock_type = str "SIM PIN2") then answer (pin_remaining_times_ p2) kSimPinMaxRetryTimes
  else if bool_decide (lock_type = str "SIM PUK2") then answer (puk_remaining_times_ p2) kSimPukMaxRetryTimes
  else reply [kCmeErrorInCorrectParameters] w.

(** ** Reading the card *)
Definition kFileNotFoud : list bytes := [str "+CRSM: 106,130"; str "OK"].
Definition kStatusResponse : bytes :=
  str "+CRSM: 144,0,62338202782183023F00A50C80016187010183040007DBF08A01058B062F0601020002C60C90016083010183010A83010D8102FFFF".

Definition is_update (c : bytes) : bool := bool_decide (c = str "DC") || bool_decide (c = str "D6").
(** Whether the loop stops at this SIMIO element. *)
Definition simio_matches (d : Doc) (c p1 p2 p3 data : bytes) (final : Node) : bool :=
  let differs name value :=
    match AttributeValue d final name with Some v => bool_decide (v <> value) | None => false end in
  (is_update c || negb (differs (str "cmd") c || differs (str "data") data)) &&
  bool_decide (AttributeValue d final (str "p1") = Some p1) &&
  bool_decide (AttributeValue d final (str "p2") = Some p2) &&
  bool_decide (AttributeValue d final (str "p3") = Some p3).

(** The element [AT+CRSM] is about; the file id as the command has it, in hexadecimal. *)
Definition find_simio (d : Doc) (root : Node) (c id p1 p2 p3 data path : bytes) (fileid : Z) : option Node :=
  let path := match path with [] => GetUsimEFPath fileid | _ => path end in
  let '(id, path) := if (fileid =? EF_ADN) && bool_decide (path = GetUsimEFPath fileid)
                     then (str "4F3A", MF_SIM ++ DF_TELECOM ++ DF_PHONEBOOK) else (id, path) in
  parent ← find_path d root path;
  ef ← FindAttribute d (Some parent) (str "id") id;
  find (simio_matches d c p1 p2 p3 data) (ElementsNamed d ef (str "SIMIO")).

Definition HandleSIM_IO (command : bytes) : M World unit :=
  let cmd := SkipPrefix command in
  if bool_decide (cmd = str "242,0,0,0,0") then modify (reply [kStatusResponse; str "OK"])
  else
    let '(c, cmd) := GetNextStrDeciToHex cmd in
    let '(id, cmd) := GetNextStrDeciToHex cmd in
    let '(p1, cmd) := GetNextStrDeciToHex cmd in
    let '(p2, cmd) := GetNextStrDeciToHex cmd in
    let '(p3, cmd) := GetNextStrDeciToHex cmd in
    let '(data, cmd) := GetNextStr_flag comma cmd in
    let path := (GetNextStr cmd).1 in
    let! w := get in
    let d := doc (sim w) in
    match RootElement d with
    | None => modify (reply [kCmeErrorOperationNotAllowed])
    | Some root =>
        let! fileid := lift (NetworkService.stoi_hex id) in
        match find_simio d root c id p1 p2 p3 data path fileid with
        | None => modify (reply kFileNotFoud)
        | Some final =>
            if is_update c then
              modify (fun w => reply [str "+CRSM: 144,0"; str "OK"]
                (save_file (set_doc (SetText final (c_str (str "144,0," ++ data)) d) (file_path (sim w)) w)))
            else
              let! text := lift (text_of d final) in
              modify (reply [str "+CRSM: " ++ text; str "OK"])
        end
    end.

(** The answer of the commands that print one element. *)
Definition answer_text (prefix : bytes) (d : Doc) (final : option Node) : M World unit :=
  match final with
  | None => modify (reply [kCmeErrorNotFound])
  | Some final => let! text := lift (text_of d final) in modify (reply [prefix ++ text; str "OK"])
  end.
Definition with_root (f : Doc -> Node -> M World unit) : M World unit :=
  let! w := get in
  match RootElement (doc (sim w)) with
  | None => modify (reply [kCmeErrorOperationNotAllowed])
  | Some root => f (doc (sim w)) root
  end.

Definition HandleGetIMSI : M World unit :=
  with_root (fun d root => answer_text [] d
    (mf ← FindAttribute d (Some root) (str "path") MF_SIM; df ← FindAttribute d (Some mf) (str "path") DF_ADF;
     ef ← FindAttribute d (Some df) (str "id") (str "6F07"); FirstChildElement d ef (str "CIMI"))).
Definition HandleGetIccId : M World unit :=
  with_root (fun d root => answer_text [] d
    (mf ← FindAttribute d (Some root) (str "path") MF_SIM; ef ← FindAttribute d (Some mf) (str "id") (str "2FE2");
     FirstChildElement d ef (str "CCID"))).
Definition card_profile (name : bytes) (d : Doc) (root : Node) : option Node :=
  card_profile ← FirstChildElement d root (str "CardProfile"); FirstChildElement d card_profile name.
Definition HandleGetEid : M World unit :=
  with_root (fun d root => answer_text (str "+CEID: ") d (card_profile (str "EID") d root)).
Definition HandleGetAtr : M World unit :=
  with_root (fun d root => answer_text (str "+CATR: ") d (card_profile (str "ATR") d root)).

(** ** Logical channels *)

(** The channel the loop stops at becomes open for the application. *)
Fixpoint open_first (name : bytes) (l : list LogicalChannel) : option (Z * list LogicalChannel) :=
  match l with
  | [] => None
  | ch :: l => if negb (is_open ch) then Some (session_id ch, mkChannel name true (session_id ch) :: l)
               else '(id, l) ← open_first name l; Some (id, ch :: l)
  end.
Fixpoint close_first (id : Z) (l : list LogicalChannel) : option (list LogicalChannel) :=
  match l with
  | [] => None
  | ch :: l => if session_id ch =? id
               then if is_open ch then Some (mkChannel [] false (session_id ch) :: l) else None
               else cons ch <$> close_first id l
  end.

Definition HandleOpenLogicalChannel (command : bytes) : M World unit :=
  let cmd := SkipPrefix command in
  if bool_decide (cmd = []) then modify (reply [kCmeErrorInCorrectParameters])
  else with_root (fun d root =>
    match FindAttribute d (Some root) (str "aid") cmd with
    | None => modify (reply [kCmeErrorNotFound])
    | Some _ =>
        modify (fun w =>
          match open_first cmd (logical_channels_ (sim w)) with
          | Some (id, l) => reply [to_string id; str "OK"] (set_channels l (last_file_id_ (sim w)) w)
          | None => reply [kCmeErrorMemoryFull] w
          end)
    end).

Definition HandleCloseLogicalChannel (command : bytes) (w : World) : World :=
  let id := (GetNextInt (SkipPrefix command)).1 in
  match close_first id (logical_channels_ (sim w)) with
  | Some l => reply [str "+CCHC"; str "OK"] (set_channels l (last_file_id_ (sim w)) w)
  | None => reply [kCmeErrorNotFound] w
  end.

Definition HandleTransmitLogicalChannel (command : bytes) : M World unit :=
  let '(id, cmd) := GetNextInt (SkipPrefix command) in
  let '(length, cmd) := GetNextInt cmd in
  if negb (zlen cmd =? u64 length) then modify (reply [kCmeErrorInCorrectParameters])
  else
    let! w := get in
    match find (fun ch => (session_id ch =? id) && is_open ch) (logical_channels_ (sim w)) with
    | None => modify (reply [kCmeErrorInvalidIndex])
    | Some channel =>
        with_root (fun d root =>
          match FindAttribute d (Some root) (str "aid") (df_name channel) with
          | None => modify (reply [kCmeErrorNotFound])
          | Some df =>
              let! df :=
                if bool_decide (df_name channel <> str "CSIM") then
                  let! ins := lift (substr 2 2 cmd) in
                  let! _ := if bool_decide (ins = str "a4")
                            then let! file := lift (substr (u64 (zlen cmd - 4)) 4 cmd) in
                                 modify (fun w => set_channels (logical_channels_ (sim w)) file w)
                            else mret tt in
                  let! w := get in
                  mret (FindAttribute d (Some df) (str "id") (last_file_id_ (sim w)))
                else mret (Some df) in
              answer_text (str "+CGLA: ") d (df ← df; FindAttribute d (Some df) (str "cmd") cmd)
          end)
    end.

Definition HandleCSIM_IO (command : bytes) : M World unit :=
  let data := (GetNextStr (SkipComma (SkipPrefix command))).1 in
  with_root (fun d root =>
    match FindAttribute d (Some root) (str "aid") (str "CSIM") with
    | None => modify (reply [kCmeErrorNotFound])
    | Some df =>
        if zlen data >? 10 then modify (reply [str "+CSIM: 4,9000"; str "OK"])
        else match FindAttribute d (Some df) (str "cmd") data with
             | None => modify (reply [kCmeErrorNotFound])
             | Some final =>
                 let! id := lift (substr (u64 (zlen data - 2)) 2 data) in
                 let! w := get in
                 let! _ :=
                   match open_first (str "CSIM") (logical_channels_ (sim w)) with
                   | Some (free, l) =>
                       let! id := lift (stoi id) in
                       if free =? id then modify (set_channels l (last_file_id_ (sim w))) else mret tt
                   | None => mret tt
                   end in
                 answer_text (str "+CSIM: ") d (Some final)
             end
    end).

(** ** Other commands *)
Definition HandleCdmaSubscriptionSource (command : bytes) (w : World) : World :=
  if bool_decide (command = str "AT+CCSS?")
  then reply [str "+CCSS: " ++ to_string (cdma_subscription_source_ (sim w)); str "OK"] w
  else reply [str "OK"] (set_cdma (GetNextInt command).1 (cdma_roaming_preference_ (sim w)) w).

Definition HandleCdmaRoamingPreference (command : bytes) (w : World) : World :=
  if bool_decide (command = str "AT+WRMP?")
  then reply [str "+WRMP: " ++ to_string (cdma_roaming_preference_ (sim w)); str "OK"] w
  else reply [str "OK"] (set_cdma (cdma_subscription_source_ (sim w)) (GetNextInt command).1 w).

Definition HandleSimAuthentication (command : bytes) (w : World) : World :=
  let cmds := (GetNextStr (SkipPrefix command)).1 in
  let line :=
    if bool_decide (cmds = str "2713AB0BA8E8E7D8F1D74545BA03F563") then str "^MBAU: 0,8F2980FC3872FF89,E9620240"
    else if bool_decide (cmds = str "C3718EC16B3C2A66F8A7200A64069F04") then str "^MBAU: 0,CFDA6C980502DA48,F7E53577"
    else if bool_decide (cmds = str "11111111111111111111111111111111") then str "^MBAU: 0,0000000000000000,00000000"
    else if bool_decide (cmds = str "11111111111111111111111111111111,12351417161900001130131215141716")
    then str "^MBAU: 0,111013121514171619181B1A1D1C1F1E,1013121514171619181B1A1D1C1F1E11,13121514171619181B1A1D1C1F1E1110"
    else [] in
  reply [line; str "OK"] w.

Definition HandlePhoneNumberUpdate (command : bytes) : M World unit :=
  let! _ := SetPhoneNumber (GetNextStr_flag " "%char (SkipWhiteSpace command)).1 in mret tt.

(** ** Dispatch *)
Inductive Handler :=
  HSIMStatusReq | HChangeOrEnterPIN | HSIM_IO | HCSIM_IO | HGetIMSI | HGetIccId | HGetEid | HGetAtr | HFacilityLock
| HOpenLogicalChannel | HCloseLogicalChannel | HTransmitLogicalChannel | HChangePassword | HQueryRemainTimes
| HCdmaSubscriptionSource | HCdmaRoamingPreference | HSimAuthentication | HPhoneNumberUpdate.

Definition InitializeCommandHandlers : list (CommandHandler Handler) :=
  [ mkHandler (str "+CPIN?") FULL_MATCH HSIMStatusReq;
    mkHandler (str "+CPIN=") PARTIAL_MATCH HChangeOrEnterPIN;
    mkHandler (str "+CRSM=") PARTIAL_MATCH HSIM_IO;
    mkHandler (str "+CSIM=") PARTIAL_MATCH HCSIM_IO;
    mkHandler (str "+CIMI") FULL_MATCH HGetIMSI;
    mkHandler (str "+CICCID") FULL_MATCH HGetIccId;
    mkHandler (str "+CEID") FULL_MATCH HGetEid;
    mkHandler (str "+CATR") FULL_MATCH HGetAtr;
    mkHandler (str "+CLCK=") PARTIAL_MATCH HFacilityLock;
    mkHandler (str "+CCHO=") PARTIAL_MATCH HOpenLogicalChannel;
    mkHandler (str "+CCHC=") PARTIAL_MATCH HCloseLogicalChannel;
    mkHandler (str "+CGLA=") PARTIAL_MATCH HTransmitLogicalChannel;
    mkHandler (str "+CPWD=") PARTIAL_MATCH HChangePassword;
    mkHandler (str "+CPINR=") PARTIAL_MATCH HQueryRemainTimes;
    mkHandler (str "+CCSS") PARTIAL_MATCH HCdmaSubscriptionSource;
    mkHandler (str "+WRMP") PARTIAL_MATCH HCdmaRoamingPreference;
    mkHandler (str "^MBAU=") PARTIAL_MATCH HSimAuthentication;
    mkHandler (str "+REMOTEUPADATEPHONENUMBER") PARTIAL_MATCH HPhoneNumberUpdate ].

Definition run_handler (command : bytes) (h : Handler) : M World unit :=
  match h with
  | HSIMStatusReq => modify HandleSIMStatusReq
  | HChangeOrEnterPIN => modify (HandleChangeOrEnterPIN command)
  | HSIM_IO => HandleSIM_IO command
  | HCSIM_IO => HandleCSIM_IO command
  | HGetIMSI => HandleGetIMSI
  | HGetIccId => HandleGetIccId
  | HGetEid => HandleGetEid
  | HGetAtr => HandleGetAtr
  | HFacilityLock => modify (HandleFacilityLock command)
  | HOpenLogicalChannel => HandleOpenLogicalChannel command
  | HCloseLogicalChannel => modify (HandleCloseLogicalChannel command)
  | HTransmitLogicalChannel => HandleTransmitLogicalChannel command
  | HChangePassword => modify (HandleChangePassword command)
  | HQueryRemainTimes => modify (HandleQueryRemainTimes command)
  | HCdmaSubscriptionSource => modify (HandleCdmaSubscriptionSource command)
  | HCdmaRoamingPreference => modify (HandleCdmaRoamingPreference command)
  | HSimAuthentication => modify (HandleSimAuthentication command)
  | HPhoneNumberUpdate => HandlePhoneNumberUpdate command
  end.

Definition handle (command : bytes) : M World bool :=
  match HandleModemCommand InitializeCommandHandlers command with
  | Some h => let! _ := run_handler command h in mret true
  | None => mret false
  end.
End service.

(** ** The PIN as a state machine

    What a command can do to the status and the first PIN: nothing, check a PIN, or
    change the PIN, with a password that is part of the command. *)
Definition infix (p c : bytes) : Prop := exists a b, c = a ++ p ++ b.

Definition check_result (pw : bytes) (st : SimStatus) (p : PinStatus) : SimStatus * PinStatus :=
  let '(ok, p) := VerifyPIN pw p in
  (if ok then SIM_STATUS_READY else if pin_remaining_times_ p <=? 0 then SIM_STATUS_PUK else st, p).
Definition change_result (mode : ChangeMode) (pw new_pin : bytes) (st : SimStatus) (p : PinStatus)
  : SimStatus * PinStatus :=
  let '(ok, p) := ChangePIN mode pw new_pin p in
  (if ok then SIM_STATUS_READY
   else if bool_decide (st = SIM_STATUS_READY) && (pin_remaining_times_ p <=? 0) then SIM_STATUS_PIN
   else if bool_decide (st = SIM_STATUS_PIN) && (puk_remaining_times_ p <=? 0) then SIM_STATUS_ABSENT else st, p).

Inductive pin_step (command : bytes) : SimStatus * PinStatus -> SimStatus * PinStatus -> Prop :=
| step_other x : pin_step command x x
| step_check pw st p : infix pw command -> pin_step command (st, p) (check_result pw st p)
| step_change mode pw new_pin st p :
    infix pw command -> (mode = WITH_PUK -> st = SIM_STATUS_PUK) ->
    pin_step command (st, p) (change_result mode pw new_pin st p).

Lemma infix_refl c : infix c c.
Proof. exists [], []. by rewrite app_nil_r. Qed.
Lemma infix_trans a b c : infix a b -> infix b c -> infix a c.
Proof. intros (x & y & ->) (u & v & ->). exists (u ++ x), (y ++ v). by rewrite <- !app_assoc. Qed.
Lemma infix_ztake n c : infix (ztake n c) c.
Proof. exists [], (zdrop n c). by rewrite ztake_zdrop. Qed.
Lemma infix_zdrop n c : infix (zdrop n c) c.
Proof. exists (ztake n c), []. by rewrite app_nil_r, ztake_zdrop. Qed.
Lemma infix_nil c : infix [] c.
Proof. by exists [], c. Qed.
Lemma infix_skip x c : infix (skip_past x c) c.
Proof. unfold skip_past. case_match; [apply infix_zdrop|apply infix_refl]. Qed.
Lemma infix_next_str c : infix (GetNextStr c).1 c /\ infix (GetNextStr c).2 c.
Proof.
  unfold GetNextStr, SkipComma, zslice. repeat case_match; cbn [fst snd];
    eauto using infix_nil, infix_refl, infix_zdrop, infix_ztake, infix_trans, infix_skip.
Qed.
Lemma infix_next_flag x c : infix (GetNextStr_flag x c).1 c.
Proof. unfold GetNextStr_flag. case_match; [apply infix_ztake|apply infix_refl]. Qed.
Lemma infix_next_int c : infix (GetNextInt c).2 c.
Proof.
  unfold GetNextInt, next_int. destruct c as [|x c]; [apply infix_refl|].
  unfold GetNextStr_flag. destruct (find_first_of comma (x :: c)); cbn [fst snd]; [apply infix_zdrop|apply infix_nil].
Qed.

Section machine.
Context {X : Xml}.
Implicit Types (w : World) (env : Env).

(** The part of the state the PIN commands work on. *)
Definition lock_state w : SimStatus * PinStatus := (sim_status_ (sim w), pin1_status_ (sim w)).

Lemma lock_save env w : lock_state (save_file env w) = lock_state w.
Proof. unfold save_file. by case_match. Qed.
Lemma check_lock_state env pw w :
  lock_state (checkPin1AndAdjustSimStatus env pw w).2 = check_result pw (sim_status_ (sim w)) (pin1_status_ (sim w)).
Proof. unfold checkPin1AndAdjustSimStatus, check_result. by repeat case_match. Qed.
Lemma change_lock_state env mode pw new w :
  lock_state (ChangePin1AndAdjustSimStatus env mode pw new w).2 =
    change_result mode pw new (sim_status_ (sim w)) (pin1_status_ (sim w)).
Proof.
  unfold ChangePin1AndAdjustSimStatus, change_result. case_match. cbn [set_pin1 set_pins sim sim_status_].
  by repeat case_match.
Qed.
Lemma pin2_lock_state f w : lock_state (on_pin2 f w).2 = lock_state w.
Proof. unfold on_pin2. by case_match. Qed.

(** Operations that keep a property of the state, whatever their outcome. *)
Definition preserves {A} (P : World -> Prop) (m : M World A) : Prop := forall w, P w -> P (m w).2.
Section preserves.
Context (P : World -> Prop).
Lemma preserves_bind {A B} (m : M World A) (k : A -> M World B) :
  preserves P m -> (forall a, preserves P (k a)) -> preserves P (mbind m k).
Proof.
  intros Hm Hk w Hw. unfold mbind. specialize (Hm w Hw). destruct (m w) as [[a| | |] w1]; cbn [snd] in *; try done.
  by apply Hk.
Qed.
Lemma preserves_bind_at {A B} (m : M World A) (k : A -> M World B) w :
  P (m w).2 -> (forall a, preserves P (k a)) -> P (mbind m k w).2.
Proof. intros Hm Hk. unfold mbind. destruct (m w) as [[a| | |] w1]; cbn [snd] in *; try done. by apply Hk. Qed.
Lemma preserves_ret {A} (a : A) : preserves P (mret a). Proof. intros w Hw. exact Hw. Qed.
Lemma preserves_lift {A} (r : result A) : preserves P (lift r). Proof. intros w Hw. exact Hw. Qed.
Lemma preserves_get : preserves P get. Proof. intros w Hw. exact Hw. Qed.
Lemma preserves_modify f : (forall w, P w -> P (f w)) -> preserves P (modify f).
Proof. intros Hf w. apply Hf. Qed.
Hypothesis P_reply : forall ls w, P w -> P (reply ls w).
Lemma preserves_root (f : Doc -> Node -> M World unit) : (forall d n, preserves P (f d n)) -> preserves P (with_root f).
Proof. intros Hf w Hw. unfold with_root, mbind, get. case_match; [by apply Hf|by apply P_reply]. Qed.
Lemma preserves_answer p d n : preserves P (answer_text p d n).
Proof.
  unfold answer_text. case_match; [|apply preserves_modify; auto]. apply preserves_bind; [apply preserves_lift|].
  intros. apply preserves_modify. auto.
Qed.
End preserves.

Ltac preserves :=
  repeat (intros; first
    [ apply preserves_bind | apply preserves_ret | apply preserves_lift | apply preserves_get
    | apply preserves_root; [done|] | apply preserves_answer; done
    | apply preserves_modify; intros; solve [done | unfold save_file; by repeat case_match] | case_match ]).

Definition pin_handler (h : Handler) : bool :=
  match h with HChangeOrEnterPIN | HFacilityLock | HChangePassword => true | _ => false end.

Lemma other_handlers env command h x :
  pin_handler h = false -> preserves (fun w => lock_state w = x) (run_handler env command h).
Proof.
  intros Hh. destruct h; try discriminate Hh; cbn [run_handler];
    unfold HandleSIM_IO, HandleCSIM_IO, HandleGetIMSI, HandleGetIccId, HandleGetEid, HandleGetAtr,
      HandleOpenLogicalChannel, HandleTransmitLogicalChannel, HandlePhoneNumberUpdate, SetPhoneNumber.
  all: try (apply preserves_modify; intros w;
    unfold HandleSIMStatusReq, HandleCloseLogicalChannel, HandleQueryRemainTimes, HandleCdmaSubscriptionSource,
      HandleCdmaRoamingPreference, HandleSimAuthentication; repeat case_match; done).
  all: preserves.
Qed.

Lemma locked_state (r : bool * World) lock b :
  lock_state (if r.1 then (true, set_lock lock b r.2) else r).2 = lock_state r.2.
Proof. by destruct r as [[] w]. Qed.

(** Only the outcome of the password operation matters, not the reply. *)
Ltac ok_step :=
  cbv zeta beta;
  match goal with |- pin_step ?c ?x (lock_state (ok_or_incorrect ?r)) => change (pin_step c x (lock_state r.2)) end.

Lemma enter_pin_step env command w :
  pin_step command (lock_state w) (lock_state (HandleChangeOrEnterPIN env command w)).
Proof.
  unfold HandleChangeOrEnterPIN. pose proof (infix_skip "="%char command) as Hskip. fold (SkipPrefix command) in Hskip.
  pose proof (infix_next_flag comma (SkipPrefix command)) as Hflag.
  destruct (GetNextStr_flag comma (SkipPrefix command)) as [pin new_pin]. cbn [fst] in Hflag.
  pose proof (infix_trans _ _ _ Hflag Hskip).
  destruct (sim_status_ (sim w)) eqn:E; cbn [on_net reply]; try (apply step_other).
  - case_match.
    + ok_step. rewrite change_lock_state. by apply step_change.
    + ok_step. rewrite pin2_lock_state. apply step_other.
  - ok_step. rewrite check_lock_state. by apply step_check.
  - case_match; [|apply step_other].
    ok_step. rewrite change_lock_state. by apply step_change.
Qed.

Lemma facility_step env command w :
  pin_step command (lock_state w) (lock_state (HandleFacilityLock env command w)).
Proof.
  unfold HandleFacilityLock. pose proof (infix_next_str command) as [_ H1].
  destruct (GetNextStr command) as [lock cmd]. pose proof (infix_next_int cmd) as H2.
  destruct (GetNextInt cmd) as [mode cmd']. pose proof (infix_next_str cmd') as [H3 _]. cbn [fst snd] in *.
  destruct (lock_status lock (sim w)); [|apply step_other].
  destruct (mode =? 2); [apply step_other|]. destruct ((mode =? 1) || (mode =? 0)); [|apply step_other].
  case_bool_decide; [|case_bool_decide; [|apply step_other]].
  - ok_step. rewrite locked_state, check_lock_state. apply step_check. eauto using infix_trans.
  - ok_step. rewrite locked_state, pin2_lock_state. apply step_other.
Qed.

Lemma password_step env command w :
  pin_step command (lock_state w) (lock_state (HandleChangePassword env command w)).
Proof.
  unfold HandleChangePassword. pose proof (infix_skip "="%char command) as H0. fold (SkipPrefix command) in H0.
  pose proof (infix_next_str (SkipPrefix command)) as [_ H1].
  destruct (GetNextStr (SkipPrefix command)) as [lock cmd]. pose proof (infix_next_str cmd) as [H2 _].
  destruct (GetNextStr cmd) as [old_password cmd']. cbn [fst snd] in *.
  repeat (case_match; try apply step_other).
  - ok_step. rewrite change_lock_state. apply step_change; [eauto using infix_trans|done].
  - ok_step. rewrite pin2_lock_state. apply step_other.
Qed.

(** Every command is a step of the machine. *)
Lemma handle_pin_step env command w :
  pin_step command (lock_state w) (lock_state (handle env command w).2).
Proof.
  unfold handle. destruct (HandleModemCommand _ _) as [h|]; [|apply step_other].
  assert (E : lock_state ((let! _ := run_handler env command h in mret true) w).2 =
              lock_state (run_handler env command h w).2).
  { unfold mbind. by destruct (run_handler env command h w) as [[| | |] w1]. }
  rewrite E. clear E. destruct (pin_handler h) eqn:Hh.
  - destruct h; try discriminate Hh; cbn [run_handler modify snd]; eauto using enter_pin_step, facility_step, password_step.
  - rewrite (other_handlers env command h (lock_state w) Hh w eq_refl). apply step_other.
Qed.

(** ** Runs: commands in any environment, and anything the network service does *)
Inductive sim_run : World -> list bytes -> World -> Prop :=
| run_nil w : sim_run w [] w
| run_command env c b cs w w1 w' : handle env c w = (Ok b, w1) -> sim_run w1 cs w' -> sim_run w (c :: cs) w'
| run_network f cs w w' : sim_run (on_net f w) cs w' -> sim_run w cs w'.

(** What holds of the steps of all commands holds of the run. *)
Lemma run_steps (P : SimStatus * PinStatus -> Prop) (ok : bytes -> Prop) w cs w' :
  (forall c x y, ok c -> pin_step c x y -> P x -> P y) ->
  sim_run w cs w' -> Forall ok cs -> P (lock_state w) -> P (lock_state w').
Proof.
  intros Hstep. induction 1 as [|env c b cs w w1 w' Hw _ IH|f cs w w' _ IH]; intros Hok HP; [done| |by apply IH].
  apply Forall_cons in Hok as [Hc Hok]. apply IH; [done|]. eapply Hstep; [exact Hc| |exact HP].
  pose proof (handle_pin_step env c w) as Hs. by rewrite Hw in Hs.
Qed.

Lemma verify_pin_cases pw p :
  VerifyPIN pw p = (false, p) \/
  (0 < pin_remaining_times_ p /\ 4 <= zlen pw <= 8 /\
   ((pw = pin_ p /\ VerifyPIN pw p = (true, mkPin (pin_ p) (puk_ p) 3 (puk_remaining_times_ p))) \/
    (pw <> pin_ p /\
     VerifyPIN pw p = (false, mkPin (pin_ p) (puk_ p) (pin_remaining_times_ p - 1) (puk_remaining_times_ p))))).
Proof.
  unfold VerifyPIN. cbn [fst snd kSimPinSizeRange]. destruct (Z.ltb_spec (zlen pw) 4); [by left|].
  destruct (Z.gtb_spec (zlen pw) 8); [by left|]. cbn [orb]. case_match; [by left|].
  destruct (Z.leb_spec (pin_remaining_times_ p) 0); [by left|]. right. split; [lia|]. split; [lia|].
  case_bool_decide; [left|right]; done.
Qed.
Lemma verify_puk_cases pw p :
  VerifyPUK pw p = (false, p) \/
  (0 < puk_remaining_times_ p /\
   ((pw = puk_ p /\ VerifyPUK pw p = (true, mkPin (pin_ p) (puk_ p) 3 10)) \/
    (pw <> puk_ p /\
     VerifyPUK pw p = (false, mkPin (pin_ p) (puk_ p) (pin_remaining_times_ p) (puk_remaining_times_ p - 1))))).
Proof.
  unfold VerifyPUK. case_match; [by left|]. case_match; [by left|].
  destruct (Z.leb_spec (puk_remaining_times_ p) 0); [by left|]. right. split; [lia|].
  case_bool_decide; [left|right]; done.
Qed.
Lemma change_pin_cases mode pw new p :
  ChangePIN mode pw new p = (false, p) \/
  let '(ok, p') := match mode with WITH_PIN => VerifyPIN pw p | WITH_PUK => VerifyPUK pw p end in
  4 <= zlen new <= 8 /\
  (if ok && CheckPasswordValid new
   then ChangePIN mode pw new p = (true, mkPin new (puk_ p') (pin_remaining_times_ p') (puk_remaining_times_ p'))
   else ChangePIN mode pw new p = (false, p')).
Proof.
  unfold ChangePIN. cbn [fst snd kSimPinSizeRange]. destruct (Z.ltb_spec (zlen new) 4); [by left|].
  destruct (Z.gtb_spec (zlen new) 8); [by left|]. cbn [orb]. right. case_match. split; [lia|].
  destruct b; [|done]. by destruct (CheckPasswordValid new).
Qed.

(** Without the PIN and the PUK. *)
Lemma guess_step c st p st' p' :
  pin_step c (st, p) (st', p') -> ~ infix (pin_ p) c -> ~ infix (puk_ p) c -> st <> SIM_STATUS_READY ->
  st' <> SIM_STATUS_READY /\ pin_ p' = pin_ p /\ puk_ p' = puk_ p.
Proof.
  intros Hs Hpin Hpuk Hst. inversion Hs as [|pw ? ? Hi E1 E2|mode pw new ? ? Hi _ E1 E2]; subst; [done| |].
  - revert E2. unfold check_result.
    destruct (verify_pin_cases pw p) as [->|(_ & _ & [[-> _]|[_ ->]])]; [| by destruct Hpin|];
      repeat case_match; by intros [= <- <-].
  - revert E2. unfold change_result. destruct (change_pin_cases mode pw new p) as [->|Hc].
    { repeat case_match; by intros [= <- <-]. }
    destruct mode.
    + destruct (verify_pin_cases pw p) as [E|(_ & _ & [[-> _]|[_ E]])]; [| by destruct Hpin|];
        rewrite E in Hc; destruct Hc as [_ Hc]; cbn [andb] in Hc; rewrite Hc; repeat case_match; by intros [= <- <-].
    + destruct (verify_puk_cases pw p) as [E|(_ & [[-> _]|[_ E]])]; [| by destruct Hpuk|];
        rewrite E in Hc; destruct Hc as [_ Hc]; cbn [andb] in Hc; rewrite Hc; repeat case_match; by intros [= <- <-].
Qed.

(** C14. A locked card stays locked without the PIN and the PUK: whatever commands are
    sent, as long as neither occurs in them the status does not become READY, and the
    PIN and the PUK stay what they are. *)
Theorem locked_without_pin (w w' : World) (cs : list bytes) :
  sim_run w cs w' -> sim_status_ (sim w) <> SIM_STATUS_READY ->
  Forall (fun c => ~ infix (pin_ (pin1_status_ (sim w))) c /\ ~ infix (puk_ (pin1_status_ (sim w))) c) cs ->
  sim_status_ (sim w') <> SIM_STATUS_READY /\
  pin_ (pin1_status_ (sim w')) = pin_ (pin1_status_ (sim w)) /\
  puk_ (pin1_status_ (sim w')) = puk_ (pin1_status_ (sim w)).
Proof.
  intros Hrun Hst Hcs.
  apply (run_steps (fun x => x.1 <> SIM_STATUS_READY /\ pin_ x.2 = pin_ (pin1_status_ (sim w)) /\
                             puk_ x.2 = puk_ (pin1_status_ (sim w))) _ _ _ _) with (2 := Hrun) (3 := Hcs); [|done].
  intros c [st p] [st' p'] [H1 H2] Hs (H3 & H4 & H5). cbn [fst snd] in *. rewrite <- H4, <- H5 in *.
  by apply (guess_step c st p).
Qed.

(** A card that ran out of attempts is blocked for good: with no PIN and no PUK
    attempts left, no command at all makes it READY, and nothing about the PIN
    changes. *)
Theorem blocked_for_good (w w' : World) (cs : list bytes) :
  sim_run w cs w' -> sim_status_ (sim w) <> SIM_STATUS_READY ->
  pin_remaining_times_ (pin1_status_ (sim w)) <= 0 -> puk_remaining_times_ (pin1_status_ (sim w)) <= 0 ->
  sim_status_ (sim w') <> SIM_STATUS_READY /\ pin1_status_ (sim w') = pin1_status_ (sim w).
Proof.
  intros Hrun Hst Hpin Hpuk.
  apply (run_steps (fun x => x.1 <> SIM_STATUS_READY /\ x.2 = pin1_status_ (sim w)) (fun _ => True) w cs w');
    [|done|by apply Forall_forall|done].
  intros c [st p] [st' p'] _ Hs [H1 H2]. cbn [fst snd] in *. subst p.
  set (p := pin1_status_ (sim w)) in *.
  inversion Hs as [|pw ? ? Hi E1 E2|mode pw new ? ? Hi _ E1 E2]; subst; [done| |].
  - revert E2. unfold check_result. destruct (verify_pin_cases pw p) as [->|(? & _)]; [|lia].
    repeat case_match; by intros [= <- <-].
  - revert E2. unfold change_result.
    assert (ChangePIN mode pw new p = (false, p)) as ->.
    { destruct (change_pin_cases mode pw new p) as [|Hc]; [done|]. destruct mode.
      - destruct (verify_pin_cases pw p) as [E|(? & _)]; [|lia]. rewrite E in Hc. by destruct Hc.
      - destruct (verify_puk_cases pw p) as [E|(? & _)]; [|lia]. rewrite E in Hc. by destruct Hc. }
    repeat case_match; by intros [= <- <-].
Qed.

(** ** What every state of the card satisfies *)
Definition pin_ok (p : PinStatus) : Prop :=
  0 <= pin_remaining_times_ p <= kSimPinMaxRetryTimes /\ 0 <= puk_remaining_times_ p <= kSimPukMaxRetryTimes /\
  kSimPinSizeRange.1 <= zlen (pin_ p) <= kSimPinSizeRange.2 /\ CheckPasswordValid (pin_ p) = true.
Definition lock_ok (x : SimStatus * PinStatus) : Prop :=
  pin_ok x.2 /\ (x.1 = SIM_STATUS_READY -> 0 < pin_remaining_times_ x.2).
Definition channels_ok (l : list LogicalChannel) : Prop :=
  session_id <$> l = [1; 2; kMaxLogicalChannels] /\ Forall (fun ch => is_open ch = false -> df_name ch = []) l.
Definition rest_ok w : Prop :=
  pin_ok (pin2_status_ (sim w)) /\ (facility_lock_ (sim w)).*1 = kFacilities /\ channels_ok (logical_channels_ (sim w)).

Lemma verify_pin_ok pw p : pin_ok p -> pin_ok (VerifyPIN pw p).2.
Proof.
  unfold pin_ok. intros Hp. destruct (verify_pin_cases pw p) as [->|(? & _ & [[_ ->]|[_ ->]])]; [done| |];
    cbn [snd pin_ puk_ pin_remaining_times_ puk_remaining_times_] in *; unfold kSimPinMaxRetryTimes in *;
    repeat split; try lia; apply Hp.
Qed.
Lemma verify_puk_ok pw p : pin_ok p -> pin_ok (VerifyPUK pw p).2.
Proof.
  unfold pin_ok. intros Hp. destruct (verify_puk_cases pw p) as [->|(? & [[_ ->]|[_ ->]])]; [done| |];
    cbn [snd pin_ puk_ pin_remaining_times_ puk_remaining_times_] in *;
    unfold kSimPinMaxRetryTimes, kSimPukMaxRetryTimes in *; repeat split; try lia; apply Hp.
Qed.
Lemma change_pin_ok mode pw new p : pin_ok p -> pin_ok (ChangePIN mode pw new p).2.
Proof.
  intros Hp. destruct (change_pin_cases mode pw new p) as [->|Hc]; [done|].
  assert (Hv : pin_ok (match mode with WITH_PIN => VerifyPIN pw p | WITH_PUK => VerifyPUK pw p end).2)
    by (destruct mode; auto using verify_pin_ok, verify_puk_ok).
  destruct (match mode with WITH_PIN => VerifyPIN pw p | WITH_PUK => VerifyPUK pw p end) as [ok p'].
  destruct Hc as [Hn Hc]. cbn [snd] in Hv. destruct ok; cbn [andb] in Hc; [|by rewrite Hc].
  destruct (CheckPasswordValid new) eqn:E; rewrite Hc; [|done]. unfold pin_ok in *. cbn. by destruct Hv as (? & ? & _).
Qed.

Lemma change_pin_ready mode pw new p :
  (ChangePIN mode pw new p).1 = true -> 0 < pin_remaining_times_ (ChangePIN mode pw new p).2.
Proof.
  destruct (change_pin_cases mode pw new p) as [->|Hc]; [done|]. intros H.
  destruct mode; revert Hc; [destruct (verify_pin_cases pw p) as [->|(_ & _ & [[_ ->]|[_ ->]])]
    |destruct (verify_puk_cases pw p) as [->|(_ & [[_ ->]|[_ ->]])]]; cbn [andb]; intros [_ Hc];
    try (rewrite Hc in H; discriminate H); (destruct (CheckPasswordValid new); rewrite Hc in H |- *; [done|discriminate H]).
Qed.

Lemma lock_ok_step c x y : pin_step c x y -> lock_ok x -> lock_ok y.
Proof.
  intros Hs [Hp Hr]. inversion Hs as [|pw st p Hi|mode pw new st p Hi Hm]; subst; [done| |]; cbn [fst snd] in *.
  - unfold check_result. pose proof (verify_pin_ok pw p Hp) as Hv.
    destruct (verify_pin_cases pw p) as [E|(? & _ & [[_ E]|[_ E]])]; rewrite E in *; split; cbn [fst snd] in *; try done;
      case_match; try done; intros Hst; rewrite ?Z.leb_gt in *; cbn [pin_remaining_times_] in *; lia.
  - unfold change_result. pose proof (change_pin_ok mode pw new p Hp) as Hv.
    pose proof (change_pin_ready mode pw new p) as Hok.
    destruct (ChangePIN mode pw new p) as [ok p']. cbn [fst snd] in *. split; [done|]. cbn [fst snd].
    destruct ok; [auto|]. case_match eqn:E; [done|]. case_match; [done|]. intros ->. cbn in E.
    apply Z.leb_gt in E. lia.
Qed.

Lemma open_first_ok name l id l' :
  open_first name l = Some (id, l') ->
  session_id <$> l' = session_id <$> l /\
  (Forall (fun ch => is_open ch = false -> df_name ch = []) l ->
   Forall (fun ch => is_open ch = false -> df_name ch = []) l').
Proof.
  revert id l'. induction l as [|ch l IH]; intros id l' H; [done|]. cbn in H. case_match.
  - injection H as <- <-. split; [done|]. intros [_ Hl]%Forall_cons. by constructor.
  - apply bind_Some in H as ([i k] & Hk & H). injection H as <- <-. destruct (IH _ _ Hk) as [H1 H2].
    split; [cbn; by rewrite H1|]. intros [Hc Hl]%Forall_cons. constructor; auto.
Qed.
Lemma close_first_ok id l l' :
  close_first id l = Some l' ->
  session_id <$> l' = session_id <$> l /\
  (Forall (fun ch => is_open ch = false -> df_name ch = []) l ->
   Forall (fun ch => is_open ch = false -> df_name ch = []) l').
Proof.
  revert l'. induction l as [|ch l IH]; intros l' H; [done|]. cbn in H. repeat case_match; try done.
  - injection H as <-. split; [done|]. intros [_ Hl]%Forall_cons. by constructor.
  - apply fmap_Some in H as (k & Hk & ->). destruct (IH _ Hk) as [H1 H2].
    split; [cbn; by rewrite H1|]. intros [Hc Hl]%Forall_cons. constructor; auto.
Qed.

Lemma rest_channels l file w :
  rest_ok w -> channels_ok l -> rest_ok (set_channels l file w).
Proof. by intros (? & ? & _). Qed.
Lemma rest_open name id l file w :
  rest_ok w -> open_first name (logical_channels_ (sim w)) = Some (id, l) -> rest_ok (set_channels l file w).
Proof.
  intros Hw [H1 H2]%open_first_ok. apply rest_channels; [done|]. destruct Hw as (_ & _ & H3 & H4).
  split; [by rewrite H1|auto].
Qed.
Lemma rest_lock lock b w : rest_ok w -> rest_ok (set_lock lock b w).
Proof.
  intros (? & Hl & ?). split; [done|]. split; [|done]. rewrite <- Hl. cbn. rewrite <- list_fmap_compose.
  apply list_fmap_ext. intros i [n e] Hx. cbn. case_bool_decide; cbn; congruence.
Qed.
Lemma rest_pin2 f w : (forall p, pin_ok p -> pin_ok (f p).2) -> rest_ok w -> rest_ok (on_pin2 f w).2.
Proof.
  intros Hf (Hp & ? & ?). unfold on_pin2. specialize (Hf _ Hp). by destruct (f (pin2_status_ (sim w))) as [ok p].
Qed.
Lemma rest_check env pw w : rest_ok w -> rest_ok (checkPin1AndAdjustSimStatus env pw w).2.
Proof. intros. unfold checkPin1AndAdjustSimStatus. by repeat case_match. Qed.
Lemma rest_change env mode pw new w : rest_ok w -> rest_ok (ChangePin1AndAdjustSimStatus env mode pw new w).2.
Proof. intros. unfold ChangePin1AndAdjustSimStatus. by repeat case_match. Qed.
Lemma rest_reply r : rest_ok r.2 -> rest_ok (ok_or_incorrect r). Proof. done. Qed.

#[local] Hint Resolve rest_lock rest_check rest_change verify_pin_ok change_pin_ok : core.

Lemma rest_enter env command w : rest_ok w -> rest_ok (HandleChangeOrEnterPIN env command w).
Proof.
  intros Hw. unfold HandleChangeOrEnterPIN. cbv zeta. destruct (GetNextStr_flag comma (SkipPrefix command)) as [pin new].
  destruct (sim_status_ (sim w)); try done; [case_match| |case_match; [|done]]; apply rest_reply; auto.
  apply rest_pin2; auto.
Qed.
Lemma rest_facility env command w : rest_ok w -> rest_ok (HandleFacilityLock env command w).
Proof.
  intros Hw. unfold HandleFacilityLock. destruct (GetNextStr command) as [lock cmd].
  destruct (GetNextInt cmd) as [mode cmd']. destruct (lock_status lock (sim w)); [|done]. cbv zeta beta.
  repeat (case_match; try done); try apply rest_reply; cbn [snd]; auto using rest_pin2.
  by apply (rest_lock lock).
Qed.
Lemma rest_password env command w : rest_ok w -> rest_ok (HandleChangePassword env command w).
Proof.
  intros Hw. unfold HandleChangePassword. repeat (case_match; try done); apply rest_reply; auto.
  apply rest_pin2; auto.
Qed.
Lemma rest_close command w : rest_ok w -> rest_ok (HandleCloseLogicalChannel command w).
Proof.
  intros Hw. unfold HandleCloseLogicalChannel. case_match eqn:E; [|done].
  apply close_first_ok in E as [H1 H2]. destruct Hw as (Hp & Hl & H3 & H4).
  split_and!; [done|done|]. split; [by cbn; rewrite H1|]. cbn. auto.
Qed.
Lemma rest_csim command : preserves rest_ok (HandleCSIM_IO command).
Proof.
  apply preserves_root; [done|]. intros d root. case_match; [|by apply preserves_modify].
  case_match; [by apply preserves_modify|]. case_match; [|by apply preserves_modify].
  apply preserves_bind; [apply preserves_lift|]. intros id w Hw. unfold mbind at 1, get.
  apply preserves_bind_at; [|intros; by apply preserves_answer]. destruct (open_first _ _) as [[free l]|] eqn:E; [|done].
  unfold mbind, lift. destruct (stoi id); cbn [snd]; try done. case_match; [|done]. by apply (rest_open (str "CSIM") free).
Qed.
Lemma rest_open_channel command : preserves rest_ok (HandleOpenLogicalChannel command).
Proof.
  unfold HandleOpenLogicalChannel. case_match; [by apply preserves_modify|]. apply preserves_root; [done|].
  intros d root. case_match; apply preserves_modify; [|done]. intros w Hw.
  destruct (open_first _ _) as [[free l]|] eqn:E; [|done]. by apply (rest_open (SkipPrefix command) free).
Qed.

Lemma rest_handler env command h : preserves rest_ok (run_handler env command h).
Proof.
  destruct h; cbn [run_handler];
    try (match goal with |- preserves _ (modify _) => apply preserves_modify; intros w Hw end);
    auto using rest_enter, rest_facility, rest_password, rest_close, rest_csim, rest_open_channel.
  all: unfold HandleSIM_IO, HandleGetIMSI, HandleGetIccId, HandleGetEid, HandleGetAtr,
      HandleTransmitLogicalChannel, HandlePhoneNumberUpdate, SetPhoneNumber, HandleSIMStatusReq, HandleQueryRemainTimes,
      HandleCdmaSubscriptionSource, HandleCdmaRoamingPreference, HandleSimAuthentication;
    solve [repeat case_match; done | preserves].
Qed.

Definition sim_ok w : Prop := lock_ok (lock_state w) /\ rest_ok w.

(** C37. The card's state stays well formed under all commands: the counters of attempts
    are between zero and their maximum, the PINs have four to eight digits, a READY
    card has attempts left, and the tables of locks and of logical channels keep their
    entries, closed channels without an application. *)
Theorem sim_well_formed (w w' : World) (cs : list bytes) :
  sim_run w cs w' -> sim_ok w -> sim_ok w'.
Proof.
  induction 1 as [|env c b cs w w1 w' Hw _ IH|f cs w w' _ IH]; intros Hok; [done| |by apply IH].
  apply IH. destruct Hok as [Hl Hr]. split.
  - eapply lock_ok_step; [|exact Hl]. pose proof (handle_pin_step env c w) as Hs. by rewrite Hw in Hs.
  - unfold handle in Hw. destruct (HandleModemCommand _ _) as [h|]; [|by injection Hw as _ <-].
    pose proof (rest_handler env c h w Hr) as Hh. unfold mbind in Hw.
    destruct (run_handler env c h w) as [[| | |] w2]; by injection Hw as _ <-.
Qed.

(** ** Entering the PIN *)
Lemma dispatch_cpin r : HandleModemCommand InitializeCommandHandlers (str "AT+CPIN=" ++ r) = Some HChangeOrEnterPIN.
Proof.
  change (str "AT+CPIN=" ++ r) with ("A"%char :: "T"%char :: str "+CPIN=" ++ r).
  unfold HandleModemCommand, InitializeCommandHandlers. cbn [find]. rewrite !Compare_cons. cbn [match_mode command_prefix].
  rewrite bool_decide_false by (intros E; discriminate E). reflexivity.
Qed.
Lemma skip_cpin r : SkipPrefix (str "AT+CPIN=" ++ r) = r.
Proof. exact (skip_past_app "="%char (str "AT+CPIN") r ltac:(compute_done)). Qed.

Lemma verify_right_pin p :
  pin_ok p -> 0 < pin_remaining_times_ p ->
  VerifyPIN (pin_ p) p = (true, mkPin (pin_ p) (puk_ p) kSimPinMaxRetryTimes (puk_remaining_times_ p)).
Proof.
  intros (_ & _ & Hlen & Hv) Hr. unfold VerifyPIN. rewrite Hv, (proj2 (Z.ltb_ge _ _)), Z.gtb_ltb, (proj2 (Z.ltb_ge _ _)) by lia.
  cbn [orb negb]. rewrite (proj2 (Z.leb_gt _ _)) by lia. by rewrite bool_decide_true.
Qed.

(** Entering the PIN brings the phone into the network: with a locked card that has
    attempts left and the radio on, AT+CPIN= with the right PIN makes the card READY,
    restores the attempts, and one second later, whatever else was pending, voice and
    data are registered at home. *)
Theorem pin_entry_registers (env : Env) (env' : NetworkService.Env) (w : World) :
  sim_status_ (sim w) = SIM_STATUS_PIN -> pin_ok (pin1_status_ (sim w)) ->
  0 < pin_remaining_times_ (pin1_status_ (sim w)) ->
  NetworkService.reachable (network_service_ w) -> NetworkService.radio_on (network_service_ w) = true ->
  stopped_ (NetworkService.looper (network_service_ w)) = false ->
  NetworkService.now env' = NetworkService.now (net_env env) + 1000 ->
  exists w', handle env (str "AT+CPIN=" ++ pin_ (pin1_status_ (sim w))) w = (Ok true, w') /\
    sim_status_ (sim w') = SIM_STATUS_READY /\
    pin_remaining_times_ (pin1_status_ (sim w')) = kSimPinMaxRetryTimes /\
    exists n, NetworkService.registered_as NetworkService.NET_REGISTRATION_HOME
                (NetworkService.turns env' n (network_service_ w')).
Proof.
  intros Hst Hp Hr [_ Hs]%NetworkService.reachable_network Hradio Hstop Hnow.
  unfold handle. rewrite dispatch_cpin. cbn [run_handler]. unfold mbind, modify, mret.
  eexists. split; [reflexivity|]. unfold HandleChangeOrEnterPIN. rewrite skip_cpin, Hst.
  unfold checkPin1AndAdjustSimStatus. rewrite verify_right_pin by done. split; [done|]. split; [done|].
  set (s1 := network_service_ _).
  destruct (NetworkService.posted_registers (net_env env) env' NetworkService.NET_REGISTRATION_HOME
    (network_service_ w) s1 Hs Hstop) as (n & _ & Hreg & _); [|done|by exists n].
  unfold s1. cbn. unfold NetworkService.OnSimStatusChanged. by rewrite Hradio.
Qed.
End machine.

(** ** Logical channels *)
Lemma open_close_first name l id l' :
  open_first name l = Some (id, l') -> NoDup (session_id <$> l) ->
  Forall (fun ch => is_open ch = false -> df_name ch = []) l ->
  close_first id l' = Some l /\
  find (fun ch => (session_id ch =? id) && is_open ch) l' = Some (mkChannel name true id) /\
  find (fun ch => (session_id ch =? id) && is_open ch) l = None.
Proof.
  revert id l'. induction l as [|ch l IH]; intros id l' Ho Hnd Hcl; [done|]. cbn in Ho, Hnd.
  apply NoDup_cons in Hnd as [Hni Hnd]. apply Forall_cons in Hcl as [Hch Hcl].
  assert (Habsent : forall i, i ∉ session_id <$> l -> find (fun ch => (session_id ch =? i) && is_open ch) l = None).
  { intros i Hi. destruct (find _ l) as [x|] eqn:E; [|done]. apply find_some in E as [Hx [Hb _]%andb_true_iff].
    apply Z.eqb_eq in Hb. subst i. destruct Hi. apply list_elem_of_fmap_2, list_elem_of_In, Hx. }
  destruct (is_open ch) eqn:Eo; cbn [negb] in Ho.
  - apply bind_Some in Ho as ([i k] & Hk & Ho). injection Ho as <- <-.
    destruct (IH i k Hk Hnd Hcl) as (H1 & H2 & H3). destruct (open_first_ok _ _ _ _ Hk) as [Hids _].
    assert (Hne : (session_id ch =? i) = false).
    { apply Z.eqb_neq. intros Hi. apply Hni. apply find_some in H2 as [Hin _]. rewrite <- Hids, Hi.
      by apply (list_elem_of_fmap_2 session_id k (mkChannel name true i)), list_elem_of_In. }
    cbn. rewrite Hne. cbn [andb]. by rewrite H1.
  - injection Ho as <- <-. cbn. rewrite Z.eqb_refl, Eo. cbn [andb]. split; [|split; [done|by apply Habsent]].
    f_equal. f_equal. rewrite <- Eo, <- (Hch eq_refl). by destruct ch.
Qed.

Section channels.
Context {X : Xml}.

(** A logical channel is a session of its own: opening one for an application of
    the card answers with a session that was not in use and is then the application's,
    and closing that session restores the channels as they were. *)
Theorem channel_open_close (w : World) (aid : bytes) (root df : Node) :
  channels_ok (logical_channels_ (sim w)) -> aid <> [] -> "="%char ∉ aid ->
  RootElement (doc (sim w)) = Some root -> FindAttribute (doc (sim w)) (Some root) (str "aid") aid = Some df ->
  existsb (fun ch => negb (is_open ch)) (logical_channels_ (sim w)) = true ->
  exists id w1, HandleOpenLogicalChannel (str "AT+CCHO=" ++ aid) w = (Ok tt, w1) /\
    1 <= id <= kMaxLogicalChannels /\
    last (NetworkService.out (network_service_ w1)) = Some (Response [to_string id; str "OK"]) /\
    find (fun ch => (session_id ch =? id) && is_open ch) (logical_channels_ (sim w)) = None /\
    find (fun ch => (session_id ch =? id) && is_open ch) (logical_channels_ (sim w1)) = Some (mkChannel aid true id) /\
    logical_channels_ (sim (HandleCloseLogicalChannel (str "AT+CCHC=" ++ to_string id) w1)) = logical_channels_ (sim w).
Proof.
  intros [Hids Hcl] Hne Heq Hroot Hdf Hfree.
  assert (exists id l, open_first aid (logical_channels_ (sim w)) = Some (id, l)) as (id & l & Ho).
  { clear -Hfree. induction (logical_channels_ (sim w)) as [|ch l IH]; [done|]. cbn in *.
    destruct (is_open ch); cbn in *; [|eauto]. destruct (IH Hfree) as (id & k & ->). cbn. eauto. }
  destruct (open_close_first _ _ _ _ Ho) as (H1 & H2 & H3); [rewrite Hids; compute_done|done|].
  assert (Hid : id ∈ [1; 2; kMaxLogicalChannels]).
  { destruct (open_first_ok _ _ _ _ Ho) as [E _]. rewrite <- Hids, <- E. apply find_some in H2 as [Hin _].
    by apply (list_elem_of_fmap_2 session_id l (mkChannel aid true id)), list_elem_of_In. }
  assert (Hb : 1 <= id <= 3 /\ in_i32 id = true) by (clear -Hid; revert id Hid; apply Forall_forall; compute_done).
  exists id. eexists. split.
  { unfold HandleOpenLogicalChannel. change (SkipPrefix (str "AT+CCHO=" ++ aid)) with
      (skip_past "="%char (str "AT+CCHO" ++ "="%char :: aid)). rewrite skip_past_app by compute_done.
    rewrite bool_decide_false by done. unfold with_root, mbind, get. rewrite Hroot, Hdf. unfold modify. rewrite Ho. reflexivity. }
  split; [apply Hb|]. split; [apply last_snoc|]. split; [done|]. split; [done|].
  unfold HandleCloseLogicalChannel. change (SkipPrefix (str "AT+CCHC=" ++ to_string id)) with
    (skip_past "="%char (str "AT+CCHC" ++ "="%char :: to_string id)). rewrite skip_past_app by compute_done.
  rewrite GetNextInt_last by apply Hb. cbn [fst]. cbn -[close_first]. by rewrite H1.
Qed.

(** A field that starts with a letter is no number. *)
Lemma next_int_letter rest : (GetNextInt ("A"%char :: rest)).1 = -1.
Proof.
  assert (Hp : forall l, parse_int_ ("A"%char :: l) 10 = -1) by (intros [|x [|y l]]; reflexivity).
  unfold GetNextInt, next_int, GetNextStr_flag. destruct (find_first_of comma _) as [pos|] eqn:E; [|apply Hp].
  assert (0 < pos).
  { pose proof (find_char_from_spec 0 comma ("A"%char :: rest)) as Hs. unfold find_first_of in E.
    rewrite E in Hs. destruct Hs as ([|x a] & b & Ha & _ & ->); [discriminate Ha|]. pose proof (zlen_nonneg a). zlen_lia. }
  cbn [ztake fst]. rewrite (proj2 (Z.leb_gt _ _)) by done. apply Hp.
Qed.

(** Setting the CDMA subscription source does not store it: whatever the argument of
    AT+CCSS=, the source becomes -1. *)
Theorem cdma_source_lost (w : World) (arg : bytes) :
  cdma_subscription_source_ (sim (HandleCdmaSubscriptionSource (str "AT+CCSS=" ++ arg) w)) = -1.
Proof.
  unfold HandleCdmaSubscriptionSource. rewrite bool_decide_false by (intros E; discriminate E).
  exact (next_int_letter (str "T+CCSS=" ++ arg)).
Qed.
End channels.

(** ** Concrete cards *)
Definition leaf (name text : string) : Tree := TNode (str name) [] (Some (str text)) [].
Definition card (state pin_times puk_times : string) (rest : list Tree) : Tree :=
  TNode (str "IccProfile") [] None
    ([ TNode (str "MF") [(str "path", str "3F00")] None
         [ TNode (str "ADF") [(str "path", str "7FFF"); (str "aid", str "A0000000871002FF86FF0389FFFFFFFF")] None
             [ TNode (str "EF") [(str "id", str "6F40")] None
                 [ TNode (str "SIMIO") [(str "cmd", str "B2"); (str "p1", str "1"); (str "p2", str "4"); (str "p3", str "1C")]
                     (Some (str "144,0,000000000000000000000000000007915155214365F7FFFFFFFFFFFF")) [] ] ] ];
       TNode (str "ADF") [(str "aid", str "A1")] None [];
       TNode (str "PinProfile") [] None
         ([leaf "PINSTATE" state; leaf "PINCODE" "4321"; leaf "PINREMAINTIMES" pin_times; leaf "PUKREMAINTIMES" puk_times] ++
          rest) ]).
Definition test_env (t : Z) : Env :=
  mkEnv 0 0 (fun f => str "instance/" ++ f) (fun f => str "host/" ++ f) true (NetworkService.test_env t).
Definition uninit : Sim := mkSim SIM_STATUS_ABSENT XMLDocument_ [] (mkPin [] [] 0 0) (mkPin [] [] 0 0) [] [] [] 0 0.
Definition start (c : Tree) : World :=
  (InitializeServiceState (test_env 0)
     (mkWorld uninit {[ DefaultHostArtifactsPath (test_env 0) (etc_profile_name (test_env 0)) := Some c ]}
        NetworkService.fresh)).2.
Definition run (cs : list bytes) (w : World) : World :=
  fold_left (fun w c => (handle (test_env 0) (str "AT" ++ c) w).2) cs w.

(** Whether all handlers of a run return. *)
Fixpoint returns (cs : list bytes) (w : World) : bool :=
  match cs with
  | [] => true
  | c :: cs => is_ok (handle (test_env 0) (str "AT" ++ c) w).1 && returns cs (handle (test_env 0) (str "AT" ++ c) w).2
  end.
Lemma run_runs cs w : returns cs w = true -> sim_run w (app (str "AT") <$> cs) (run cs w).
Proof.
  revert w. induction cs as [|c cs IH]; intros w Hr; [apply run_nil|]. cbn [returns] in Hr.
  apply andb_true_iff in Hr as [Hok Hr]. specialize (IH _ Hr). cbn [fmap list_fmap].
  destruct (handle (test_env 0) (str "AT" ++ c) w) as [[b| | |] w1] eqn:E; try discriminate Hok.
  cbn [snd] in IH. eapply (run_command (test_env 0)); [exact E|]. unfold run. cbn [fold_left]. by rewrite E.
Qed.

Definition ready_card : World := start (card "PINSTATE_UNKNOWN" "3" "10" []).
Definition locked_card : World := start (card "PINSTATE_ENABLED_NOT_VERIFIED" "3" "10" []).
Definition blocked_card : World := start (card "PINSTATE_ENABLED_BLOCKED" "0" "0" []).

Lemma infix_contains p c : infix p c -> NetworkService.contains p c = true.
Proof.
  intros (a & b & ->). induction a as [|x a IH]; cbn [app].
  - destruct p as [|y p]; [by destruct b|]. cbn [NetworkService.contains app]. apply orb_true_iff. left.
    change (y :: p ++ b) with ((y :: p) ++ b). induction (y :: p) as [|z q IHq]; [done|]. cbn. by rewrite bool_decide_true.
  - cbn [NetworkService.contains]. rewrite IH. apply orb_true_r.
Qed.

Definition guesses : list bytes := [str "+CPIN=0000"; str "+CPIN=1111"; str "+CPWD=1,2"].
Lemma locked_without_pin_witness :
  sim_status_ (sim (run guesses locked_card)) <> SIM_STATUS_READY /\
  pin_ (pin1_status_ (sim (run guesses locked_card))) = pin_ (pin1_status_ (sim locked_card)).
Proof.
  destruct (locked_without_pin locked_card (run guesses locked_card) (app (str "AT") <$> guesses)) as (H1 & H2 & _).
  - apply run_runs. vm_compute. reflexivity.
  - vm_compute. discriminate.
  - repeat constructor; intros Hi%infix_contains; vm_compute in Hi; discriminate.
  - exact (conj H1 H2).
Defined.

Lemma blocked_for_good_witness :
  sim_status_ (sim (run [str "+CPIN=12345678,4321"] blocked_card)) <> SIM_STATUS_READY.
Proof.
  refine (proj1 (blocked_for_good blocked_card _ (app (str "AT") <$> [str "+CPIN=12345678,4321"]) _ _ _ _)).
  - apply run_runs. vm_compute. reflexivity.
  - vm_compute. discriminate.
  - vm_compute. discriminate.
  - vm_compute. discriminate.
Defined.

Lemma ready_card_ok : sim_ok ready_card.
Proof.
  unfold sim_ok, lock_ok, rest_ok, pin_ok, channels_ok. repeat split;
    try (vm_compute; first [reflexivity | discriminate | (intros; reflexivity)]).
  repeat constructor.
Qed.
Lemma sim_well_formed_witness : sim_ok (run [str "+CPIN=0000,1111"] ready_card).
Proof.
  apply (sim_well_formed ready_card _ (app (str "AT") <$> [str "+CPIN=0000,1111"])).
  - apply run_runs. vm_compute. reflexivity.
  - exact ready_card_ok.
Defined.

Definition radio_on_net : NetworkService.Service :=
  (NetworkService.handle (NetworkService.test_env 0) (str "AT+CFUN=1") NetworkService.fresh).2.
Lemma radio_on_reachable : NetworkService.reachable radio_on_net.
Proof.
  eapply (NetworkService.net_handle (NetworkService.test_env 0) (str "AT+CFUN=1") true NetworkService.fresh);
    [apply NetworkService.fresh_reachable|vm_compute; reflexivity].
Qed.
Lemma pin_entry_registers_witness :
  let w := mkWorld (sim locked_card) (files locked_card) radio_on_net in
  exists w', handle (test_env 0) (str "AT+CPIN=" ++ pin_ (pin1_status_ (sim w))) w = (Ok true, w') /\
    sim_status_ (sim w') = SIM_STATUS_READY.
Proof.
  intros w. destruct (pin_entry_registers (test_env 0) (NetworkService.test_env 1000) w) as (w' & H1 & H2 & _).
  - vm_compute. reflexivity.
  - unfold pin_ok. repeat split; vm_compute; first [reflexivity | discriminate].
  - vm_compute. reflexivity.
  - exact radio_on_reachable.
  - vm_compute. reflexivity.
  - vm_compute. reflexivity.
  - reflexivity.
  - exists w'. exact (conj H1 H2).
Defined.

Lemma channel_open_close_witness :
  exists id w1, HandleOpenLogicalChannel (str "AT+CCHO=" ++ str "A1") ready_card = (Ok tt, w1) /\ 1 <= id <= 3.
Proof.
  destruct (channel_open_close ready_card (str "A1") [] [1%nat]) as (id & w1 & H1 & H2 & _).
  - split; [vm_compute; reflexivity|]. repeat constructor.
  - discriminate.
  - compute_done.
  - vm_compute. reflexivity.
  - vm_compute. reflexivity.
  - vm_compute. reflexivity.
  - exists id, w1. exact (conj H1 H2).
Defined.

(** A card that runs out of PIN attempts through AT+CPWD waits for a PIN it can no
    longer check, and saving the state makes it READY again. *)
Theorem restart_unblocks :
  let wrong := str "+CPWD=" ++ NetworkService.quoted (str "SC") ++ str "," ++ NetworkService.quoted (str "0000") ++ str "," ++
               NetworkService.quoted (str "1111") in
  let w := run [wrong; wrong; wrong] ready_card in
  let w' := (SaveModemState (test_env 0) w).2 in
  sim_status_ (sim w) = SIM_STATUS_PIN /\ pin_remaining_times_ (pin1_status_ (sim w)) = 0 /\
  sim_status_ (sim w') = SIM_STATUS_READY /\ pin_remaining_times_ (pin1_status_ (sim w')) = 0.
Proof. vm_compute. repeat split. Qed.

(** Without a PIN2REMAINTIMES element the attempts left for the second PIN are not
    kept: after three wrong tries and a restart there are three again. *)
Theorem pin2_attempts_forgotten :
  let w := run [str "+CPIN=0000"; str "+CPIN=0000"; str "+CPIN=0000"] ready_card in
  let w' := (SaveModemState (test_env 0) w).2 in
  pin_remaining_times_ (pin2_status_ (sim w)) = 0 /\ pin_remaining_times_ (pin2_status_ (sim w')) = kSimPinMaxRetryTimes /\
  pin2_status_ (sim w') <> pin2_status_ (sim w).
Proof. vm_compute. split; [reflexivity|]. split; [reflexivity|discriminate]. Qed.
End SimService.
