(* ===== verification/SimStorage.v ===== *)
(** * Saving the SIM card

    What [SaveModemState] writes into the card's document is what the service loads at
    its next start, and the phone number the host sets is the one that is read: both
    over any document that follows the laws of [Xml]. *)
From S2P Require Import Prelude CppString ModemCommand ThreadLooper PduParser.
From S2P Require Import DataService NetworkService Xml SimService.

Module SimStorage.
Import CppString ModemCommand ThreadLooper PduParser Xml SimService.

(** ** Saving and loading again *)
Section storage.
Context {X : Xml} {XL : XmlLaws X}.
Implicit Types (w : World) (env : Env) (d : Doc).

Definition texts_plain d : Prop := forall n t, alive d n -> GetText d n = Some t -> plain t.

(** What writing the children with these names leaves alone. *)
Record frame (names : list bytes) (d d' : Doc) : Prop := mkFrame {
  frame_root : RootElement d' = RootElement d;
  frame_alive m : alive d m -> alive d' m;
  frame_plain : texts_plain d -> texts_plain d';
  frame_first m name : alive d m -> name ∉ names -> FirstChildElement d' m name = FirstChildElement d m name;
  frame_text m name : alive d m -> name ∉ names -> child_text d' m name = child_text d m name;
  frame_old m name c : alive d m -> FirstChildElement d m name = Some c -> FirstChildElement d' m name = Some c
}.

Lemma frame_refl names d : frame names d d.
Proof. by constructor. Qed.
Lemma frame_trans n1 n2 names d1 d2 d3 :
  frame n1 d1 d2 -> frame n2 d2 d3 -> n1 ⊆ names -> n2 ⊆ names -> frame names d1 d3.
Proof.
  intros F1 F2 H1 H2. constructor.
  - by rewrite (frame_root _ _ _ F2), (frame_root _ _ _ F1).
  - intros m Hm. by apply (frame_alive _ _ _ F2), (frame_alive _ _ _ F1).
  - intros Hp. by apply (frame_plain _ _ _ F2), (frame_plain _ _ _ F1).
  - intros m nm Hm Hn. rewrite (frame_first _ _ _ F2), (frame_first _ _ _ F1);
      [done|done|set_solver|by apply (frame_alive _ _ _ F1)|set_solver].
  - intros m nm Hm Hn. rewrite (frame_text _ _ _ F2), (frame_text _ _ _ F1);
      [done|done|set_solver|by apply (frame_alive _ _ _ F1)|set_solver].
  - intros m nm c Hm Hc. apply (frame_old _ _ _ F2); [by apply (frame_alive _ _ _ F1)|].
    by apply (frame_old _ _ _ F1).
Qed.

Lemma frame_SetText p name e t d :
  alive d p -> FirstChildElement d p name = Some e -> plain (c_str t) -> frame [name] d (SetText e (c_str t) d).
Proof.
  intros Hp He Ht. pose proof (first_child_alive _ _ _ _ Hp He) as Ha. pose proof (first_child_name _ _ _ _ He) as Hn.
  destruct (SetText_same d e t Ha) as (Hr & Hal & Hs). constructor.
  - done.
  - intros m. by rewrite Hal.
  - intros Hpl n x Hx%Hal Hg. destruct (Hs n Hx) as (_ & _ & _ & E). rewrite E in Hg.
    case_decide; [by injection Hg as <-|by apply (Hpl n)].
  - intros m nm Hm _. by apply first_SetText.
  - intros m nm Hm Hne. unfold child_text. rewrite first_SetText by done.
    destruct (FirstChildElement d m nm) as [c|] eqn:Ec; [|done]. cbn.
    destruct (Hs c) as (_ & _ & _ & ->); [by eapply first_child_alive|]. rewrite decide_False; [done|].
    intros ->. apply first_child_name in Ec. set_solver.
  - intros m nm c Hm Hc. by rewrite first_SetText.
Qed.
Lemma frame_Insert p name t d d' n :
  alive d p -> InsertNewElement p name t d = (d', n) -> (forall x, t = Some x -> plain x) -> frame [name] d d'.
Proof.
  intros Hp E Ht. destruct (InsertNewElement_same _ _ _ _ _ _ Hp E) as (Hr & Hal & Hs).
  destruct (InsertNewElement_new _ _ _ _ _ _ Hp E) as (_ & _ & _ & Hg & _).
  assert (Hfirst : forall m nm, alive d m -> nm ∉ [name] -> FirstChildElement d' m nm = FirstChildElement d m nm).
  { intros m nm Hm Hne. eapply first_Insert_other; [exact Hp|exact E|done|set_solver]. }
  constructor; [done| | |done| |].
  - intros m Hm. apply Hal. by left.
  - intros Hpl m x [Hm| ->]%Hal Hx; [|apply Ht; congruence].
    destruct (Hs m Hm) as (_ & _ & E' & _). rewrite E' in Hx. by apply (Hpl m).
  - intros m nm Hm Hne. unfold child_text. rewrite Hfirst by done.
    destruct (FirstChildElement d m nm) as [c|] eqn:Ec; [|done]. cbn.
    destruct (Hs c) as (_ & _ & -> & _); [by eapply first_child_alive|done].
  - intros m nm c Hm Hc. exact (first_Insert_old d p name t d' n m nm c Hp E Hm Hc).
Qed.

Lemma put_text_frame p name t d :
  alive d p -> plain (c_str t) -> frame [name] d (put_text p name name t d).
Proof.
  intros Hp Ht. unfold put_text, AppendNewElementWithText. destruct (FirstChildElement d p name) as [e|] eqn:E.
  - by eapply frame_SetText.
  - destruct (InsertNewElement p name (Some (c_str t)) d) as [d' n] eqn:Ei.
    apply (frame_Insert p name (Some (c_str t)) d d' n); [done|done|]. by intros x [= <-].
Qed.
Lemma put_text_get p name t d : alive d p -> child_text (put_text p name name t d) p name = Some (c_str t).
Proof.
  intros Hp. unfold put_text, AppendNewElementWithText, child_text.
  destruct (FirstChildElement d p name) as [e|] eqn:E.
  - pose proof (first_child_alive _ _ _ _ Hp E) as Ha. destruct (SetText_same d e t Ha) as (_ & _ & Hs).
    rewrite first_SetText, E by done. cbn. destruct (Hs e Ha) as (_ & _ & _ & ->). by rewrite decide_True.
  - destruct (InsertNewElement p name (Some (c_str t)) d) as [d' n] eqn:Ei. cbn [fst].
    rewrite (first_Insert_new _ _ _ _ _ _ Hp Ei E). cbn.
    by destruct (InsertNewElement_new _ _ _ _ _ _ Hp Ei) as (_ & _ & _ & -> & _).
Qed.

(** Writing several children, one after the other. *)
Fixpoint puts (p : Node) (l : list (bytes * bytes)) (d : Doc) : Doc :=
  match l with
  | [] => d
  | (name, t) :: l => puts p l (put_text p name name t d)
  end.
Lemma puts_frame p l : forall d, alive d p -> Forall (fun nt => plain (c_str nt.2)) l -> frame (l.*1) d (puts p l d).
Proof.
  induction l as [|[name t] l IH]; intros d Hp Hl; [apply frame_refl|]. apply Forall_cons in Hl as [Ht Hl].
  pose proof (put_text_frame p name t d Hp Ht) as F.
  apply (frame_trans [name] (l.*1) _ d (put_text p name name t d)); [done| |set_solver|set_solver].
  apply IH; [by apply (frame_alive _ _ _ F)|done].
Qed.
Lemma puts_get p l : forall d name t,
  alive d p -> Forall (fun nt => plain (c_str nt.2)) l -> NoDup (l.*1) -> (name, t) ∈ l ->
  child_text (puts p l d) p name = Some (c_str t).
Proof.
  induction l as [|[nm x] l IH]; intros d name t Hp Hl Hnd Hin; [by apply elem_of_nil in Hin|].
  apply Forall_cons in Hl as [Hx Hl]. cbn in Hnd. apply NoDup_cons in Hnd as [Hnm Hnd].
  pose proof (put_text_frame p nm x d Hp Hx) as F. pose proof (frame_alive _ _ _ F p Hp) as Hp'.
  cbn [puts]. apply elem_of_cons in Hin as [[= -> ->]|Hin]; [|by apply IH].
  rewrite (frame_text _ _ _ (puts_frame p l _ Hp' Hl) p nm Hp' Hnm). by apply put_text_get.
Qed.

Definition pin_names : list bytes :=
  [str "PINSTATE"; str "PINCODE"; str "PUKCODE"; str "PINREMAINTIMES"; str "PUKREMAINTIMES"; str "PIN2CODE";
   str "PUK2CODE"; str "PIN2REMAINTIMES"; str "PUK2REMAINTIMES"].
Definition pin_entries (s : Sim) : list (bytes * bytes) :=
  let p1 := pin1_status_ s in
  let p2 := pin2_status_ s in
  zip pin_names
    [pin_state_text s; pin_ p1; puk_ p1; to_string (pin_remaining_times_ p1); to_string (puk_remaining_times_ p1);
     pin_ p2; puk_ p2; to_string (pin_remaining_times_ p2); to_string (puk_remaining_times_ p2)].
Definition lock_text (enabled : bool) : bytes := if enabled then str "ENABLE" else str "DISABLE".
Definition lock_entries (l : list (bytes * bool)) : list (bytes * bytes) := (fun x => (x.1, lock_text x.2)) <$> l.

(** What a card needs for its state to be written and read as it is. *)
Definition storable (s : Sim) : Prop :=
  pin_ok (pin1_status_ s) /\ pin_ok (pin2_status_ s) /\ plain (puk_ (pin1_status_ s)) /\ plain (puk_ (pin2_status_ s)) /\
  (facility_lock_ s).*1 = kFacilities.

Lemma c_str_plain t : Forall printable t -> c_str t = t.
Proof.
  induction 1 as [|c t Hc _ IH]; [done|]. cbn. unfold printable in Hc. rewrite (proj2 (Z.eqb_neq _ _)) by lia.
  by rewrite IH.
Qed.
Lemma is_digit_range c : is_digit c = true -> 48 <= Z_of_byte c <= 57.
Proof.
  unfold is_digit, char_digit. destruct (_ && _) eqn:E; [|done]. by apply andb_true_iff in E as [?%Z.leb_le ?%Z.leb_le].
Qed.
Lemma digits_plain t : Forall (fun c => is_digit c = true) t -> t <> [] -> plain t.
Proof.
  intros Hd Hn. pose proof is_digit_range as Hr. split.
  - eapply Forall_impl; [exact Hd|]. intros c Hc%Hr. unfold printable. lia.
  - destruct t as [|c t]; [done|]. exists c. split; [left|]. apply Forall_cons in Hd as [Hc%Hr _]. lia.
Qed.
Lemma pin_plain p : pin_ok p -> plain (pin_ p).
Proof.
  intros (_ & _ & Hl & Hv). apply digits_plain; [|intros E; rewrite E, zlen_nil in Hl; unfold kSimPinSizeRange in Hl; cbn [fst snd] in Hl; lia].
  apply Forall_forall. intros c Hc. unfold CheckPasswordValid in Hv. rewrite forallb_forall in Hv.
  apply Hv. by apply list_elem_of_In.
Qed.

Ltac plain_const :=
  split; [repeat (apply Forall_cons; split; [unfold printable; vm_compute; split; discriminate|]); by apply Forall_nil
         |eexists; split; [left|vm_compute; discriminate]].

Lemma entries_plain s : storable s -> Forall (fun nt => plain nt.2 /\ c_str nt.2 = nt.2) (pin_entries s).
Proof.
  intros (H1 & H2 & H3 & H4 & _).
  assert (Hz : forall z, 0 <= z -> plain (to_string z)).
  { intros z Hz. destruct (to_string_nonneg z Hz) as (? & _ & ?). by apply digits_plain. }
  assert (Hst : plain (pin_state_text s)) by (unfold pin_state_text; repeat case_match; plain_const).
  unfold pin_entries, pin_names. cbn [zip zip_with].
  repeat (apply Forall_cons; split; [cbn [snd]; match goal with |- plain ?t /\ _ =>
    assert (Hp : plain t); [|split; [exact Hp|apply c_str_plain, Hp]] end |]);
    try done; try (apply Hz; unfold pin_ok in *; lia); by apply pin_plain.
Qed.

Lemma save_locks_puts fl l d : save_locks fl l d = puts fl (lock_entries l) d.
Proof. revert d. induction l as [|[n e] l IH]; intros d; [done|]. cbn. rewrite IH. by destruct e. Qed.

(** With a PIN2REMAINTIMES in the profile every entry is written under its name. *)
Lemma save_pins_puts s pp d :
  storable s -> alive d pp -> is_Some (FirstChildElement d pp (str "PIN2REMAINTIMES")) ->
  save_pins s pp d = puts pp (pin_entries s) d.
Proof.
  intros Hs Hp [e He].
  assert (F : frame pin_names d (puts pp (take 7 (pin_entries s)) d)).
  { apply (frame_trans pin_names ((take 7 (pin_entries s)).*1) _ d d); [apply frame_refl| |done|compute_done].
    apply puts_frame; [done|]. apply Forall_take. eapply Forall_impl; [by apply entries_plain|].
    intros [n t] [H1 H2]. cbn [snd] in *. by rewrite H2. }
  pose proof (frame_old _ _ _ F pp _ e Hp He) as Hold. unfold save_pins. cbv zeta.
  change (put_text pp (str "PINSTATE") (str "PINSTATE") (pin_state_text s) d)
    with (puts pp (take 1 (pin_entries s)) d).
  change (puts pp (pin_entries s) d) with
    (puts pp (drop 7 (pin_entries s)) (puts pp (take 7 (pin_entries s)) d)).
  set (d7 := puts pp (take 7 (pin_entries s)) d) in *.
  match goal with |- put_text _ _ _ _ (put_text _ _ _ _ ?x) = _ => change x with d7 end.
  unfold put_text at 2. rewrite Hold. cbn [drop pin_entries zip zip_with pin_names puts].
  unfold put_text at 3. by rewrite Hold.
Qed.

(** A document that holds the state of a card. *)
Definition stored (s : Sim) d : Prop :=
  exists root pp fl, RootElement d = Some root /\ FirstChildElement d root (str "PinProfile") = Some pp /\
    FirstChildElement d root (str "FacilityLock") = Some fl /\
    (forall n t, (n, t) ∈ pin_entries s -> child_text d pp n = Some t) /\
    (forall n t, (n, t) ∈ lock_entries (facility_lock_ s) -> child_text d fl n = Some t).

Lemma stored_copy s d d' r r' R :
  stored s d -> RootElement d = Some r -> RootElement d' = Some r' -> R r r' -> bisimulation R d d' -> stored s d'.
Proof.
  intros (root & pp & fl & Hr & Hp & Hf & Ht & Hl) Hr1 Hr' HR Hb. replace r with root in * by congruence.
  pose proof (first_bisimulation R d d' root r' (str "PinProfile") Hb HR) as H1. rewrite Hp in H1.
  pose proof (first_bisimulation R d d' root r' (str "FacilityLock") Hb HR) as H2. rewrite Hf in H2.
  destruct (FirstChildElement d' r' (str "PinProfile")) as [pp'|] eqn:E1; [|done].
  destruct (FirstChildElement d' r' (str "FacilityLock")) as [fl'|] eqn:E2; [|done].
  exists r', pp', fl'. split_and!; try done; intros n t Hin.
  - rewrite <- (child_text_bisimulation R d d' pp pp' n Hb H1). by apply Ht.
  - rewrite <- (child_text_bisimulation R d d' fl fl' n Hb H2). by apply Hl.
Qed.

Lemma load_code_text d p name code t : child_text d p name = Some t -> load_code d p name code = Ok t.
Proof.
  unfold child_text, load_code. destruct (FirstChildElement d p name); [|done]. cbn. unfold text_of. by intros ->.
Qed.
Lemma load_times_text d p name times z :
  child_text d p name = Some (to_string z) -> in_i32 z = true -> load_times d p name times = Ok z.
Proof.
  unfold child_text, load_times. destruct (FirstChildElement d p name); [|done]. cbn. unfold text_of. intros -> Hz.
  cbn. by apply stoi_to_string.
Qed.

(** The status of a card after it is saved and loaded. *)
Definition resumed (s : Sim) : SimStatus :=
  if bool_decide (sim_status_ s = SIM_STATUS_PUK) then SIM_STATUS_PUK
  else match lock_status (str "SC") s with Some true => SIM_STATUS_PIN | _ => SIM_STATUS_READY end.

Lemma pin_times_i32 p :
  pin_ok p -> in_i32 (pin_remaining_times_ p) = true /\ in_i32 (puk_remaining_times_ p) = true.
Proof.
  unfold pin_ok, in_i32, kSimPinMaxRetryTimes, kSimPukMaxRetryTimes. intros Hp.
  rewrite !andb_true_iff, !Z.leb_le, !Z.ltb_lt. lia.
Qed.

Lemma load_stored_pins s d pp :
  storable s -> (forall n t, (n, t) ∈ pin_entries s -> child_text d pp n = Some t) ->
  load_pin_profile d pp = Ok (resumed s, pin1_status_ s, pin2_status_ s).
Proof.
  intros (H1 & H2 & _) Ht.
  destruct (pin_times_i32 _ H1) as [I1 I2]. destruct (pin_times_i32 _ H2) as [I3 I4].
  assert (Hat : forall i n t, pin_entries s !! i = Some (n, t) -> child_text d pp n = Some t).
  { intros i n t Hi. apply Ht. by eapply list_elem_of_lookup_2. }
  unfold load_pin_profile.
  pose proof (Hat 0%nat _ _ eq_refl) as Hs. unfold child_text in Hs.
  destruct (FirstChildElement d pp (str "PINSTATE")) as [e|]; [|done]. change (GetText d e = Some (pin_state_text s)) in Hs.
  unfold text_of at 1. rewrite Hs. cbn [rbind].
  rewrite (load_code_text d pp (str "PINCODE") kDefaultPinCode _ (Hat 1%nat _ _ eq_refl)). cbn [rbind].
  rewrite (load_code_text d pp (str "PUKCODE") kDefaultPukCode _ (Hat 2%nat _ _ eq_refl)). cbn [rbind].
  rewrite (load_times_text d pp (str "PINREMAINTIMES") kSimPinMaxRetryTimes _ (Hat 3%nat _ _ eq_refl) I1). cbn [rbind].
  rewrite (load_times_text d pp (str "PUKREMAINTIMES") kSimPukMaxRetryTimes _ (Hat 4%nat _ _ eq_refl) I2). cbn [rbind].
  rewrite (load_code_text d pp (str "PIN2CODE") kDefaultPinCode _ (Hat 5%nat _ _ eq_refl)). cbn [rbind].
  rewrite (load_code_text d pp (str "PUK2CODE") kDefaultPukCode _ (Hat 6%nat _ _ eq_refl)). cbn [rbind].
  rewrite (load_times_text d pp (str "PIN2REMAINTIMES") kSimPinMaxRetryTimes _ (Hat 7%nat _ _ eq_refl) I3). cbn [rbind].
  rewrite (load_times_text d pp (str "PUK2REMAINTIMES") kSimPukMaxRetryTimes _ (Hat 8%nat _ _ eq_refl) I4). cbn [rbind].
  do 3 f_equal; [f_equal|by destruct (pin1_status_ s)|by destruct (pin2_status_ s)].
  unfold resumed, pin_state_text. destruct (bool_decide (sim_status_ s = SIM_STATUS_PUK)); [done|].
  by destruct (lock_status (str "SC") s) as [[]|].
Qed.

Lemma load_stored_locks d fl l :
  (forall n t, (n, t) ∈ lock_entries l -> child_text d fl n = Some t) ->
  load_locks d fl ((fun f => (f, false)) <$> l.*1) = Ok l.
Proof.
  induction l as [|[n e] l IH]; intros Ht; [done|]. cbn.
  pose proof (Ht n (lock_text e) ltac:(left)) as Hn. unfold child_text in Hn.
  destruct (FirstChildElement d fl n) as [c|]; [|done]. cbn in Hn. unfold text_of. rewrite Hn. cbn.
  rewrite IH by (intros; apply Ht; by right). cbn. by destruct e.
Qed.

(** Loading a saved document, at a restart or within [SaveFacilityLockToIccProfile]. *)
Lemma reload env s d w :
  storable s -> stored s d -> texts_plain d ->
  files w !! PerInstancePath env (icc_profile_name env) = Some (SaveFile d) ->
  exists w1, InitializeSimFileSystemAndSimState env w = (Ok tt, w1) /\
  exists w2, InitializeFacilityLock w1 = (Ok tt, w2) /\
    files w2 = files w /\ file_path (sim w2) = PerInstancePath env (icc_profile_name env) /\
    sim_status_ (sim w2) = resumed s /\ pin1_status_ (sim w2) = pin1_status_ s /\
    pin2_status_ (sim w2) = pin2_status_ s /\ facility_lock_ (sim w2) = facility_lock_ s.
Proof.
  intros Hs Hd Hpl Hfile. pose proof Hd as (root & pp0 & fl0 & Hroot & _).
  destruct (LoadFile_SaveFile d root Hroot Hpl) as (d' & r' & R & Hload & Hr' & HR & Hb).
  destruct (stored_copy s d d' root r' R Hd Hroot Hr' HR Hb) as (r & pp & fl & Hr & Hp & Hf & Ht & Hl).
  replace r with r' in * by congruence.
  set (path := PerInstancePath env (icc_profile_name env)) in *.
  exists (set_pins (pin1_status_ s) (pin2_status_ s) (set_status (resumed s)
           (set_pins default_pin default_pin (set_status SIM_STATUS_READY (set_doc d' path w))))).
  split.
  { unfold InitializeSimFileSystemAndSimState, readable, mbind, get. fold path.
    rewrite Hfile, (SaveFile_content d root Hroot), Hload. cbn [modify negb]. rewrite Hr'. cbn [modify].
    rewrite Hp. unfold lift. by rewrite (load_stored_pins s d' pp Hs Ht). }
  eexists. split.
  { unfold InitializeFacilityLock, mbind, modify, get. cbn [sim doc set_locks set_pins set_status set_doc facility_lock_].
    rewrite Hr', Hf. unfold lift. destruct Hs as (_ & _ & _ & _ & <-). by rewrite (load_stored_locks d' fl _ Hl). }
  done.
Qed.

(** What the two save operations write. *)
Lemma ensure_child_frame root name d d' e :
  alive d root -> ensure_child root name d = (d', e) ->
  frame [name] d d' /\ FirstChildElement d' root name = Some e.
Proof.
  intros Hr. unfold ensure_child. destruct (FirstChildElement d root name) as [e'|] eqn:E; [intros [= <- <-]|intros Ei].
  - split; [apply frame_refl|done].
  - split; [by eapply frame_Insert|by eapply first_Insert_new].
Qed.

Lemma lock_entries_plain l : Forall (fun nt => plain (c_str nt.2)) (lock_entries l).
Proof. apply Forall_fmap, Forall_forall. intros [n []] _; cbn; plain_const. Qed.
Lemma lock_entries_names l : (lock_entries l).*1 = l.*1.
Proof. unfold lock_entries. rewrite <- list_fmap_compose. by apply list_fmap_ext. Qed.

Lemma saved_is_stored s d root pp d2 fl :
  storable s -> RootElement d = Some root -> FirstChildElement d root (str "PinProfile") = Some pp ->
  is_Some (FirstChildElement d pp (str "PIN2REMAINTIMES")) -> texts_plain d ->
  ensure_child root (str "FacilityLock") (save_pins s pp d) = (d2, fl) ->
  let d3 := save_locks fl (facility_lock_ s) d2 in stored s d3 /\ texts_plain d3.
Proof.
  intros Hs Hroot Hpp H2 Hpl Hfl. pose proof (root_alive _ _ Hroot) as Hr. pose proof (first_child_alive _ _ _ _ Hr Hpp) as Hp.
  rewrite save_pins_puts in Hfl by done. rewrite save_locks_puts. cbv zeta.
  assert (He : Forall (fun nt => plain (c_str nt.2)) (pin_entries s)).
  { eapply Forall_impl; [by apply entries_plain|]. intros [n t] [? E]. cbn [snd] in *. by rewrite E. }
  pose proof (puts_frame pp (pin_entries s) d Hp He) as F1. set (d1 := puts pp (pin_entries s) d) in *.
  pose proof (frame_alive _ _ _ F1 _ Hr) as Hr1. pose proof (frame_alive _ _ _ F1 _ Hp) as Hp1.
  destruct (ensure_child_frame root _ d1 d2 fl Hr1 Hfl) as [F2 Hf2].
  pose proof (frame_alive _ _ _ F2 _ Hr1) as Hr2. pose proof (first_child_alive _ _ _ _ Hr2 Hf2) as Hfa.
  pose proof (frame_alive _ _ _ F2 _ Hp1) as Hp2.
  pose proof (puts_frame fl (lock_entries (facility_lock_ s)) d2 Hfa (lock_entries_plain _)) as F3.
  rewrite lock_entries_names in F3. pose proof Hs as (_ & _ & _ & _ & Hk). rewrite Hk in F3.
  split; [|by apply (frame_plain _ _ _ F3), (frame_plain _ _ _ F2), (frame_plain _ _ _ F1)].
  exists root, pp, fl. split_and!.
  - by rewrite (frame_root _ _ _ F3), (frame_root _ _ _ F2), (frame_root _ _ _ F1).
  - rewrite (frame_first _ _ _ F3), (frame_first _ _ _ F2), (frame_first _ _ _ F1); try done; compute_done.
  - rewrite (frame_first _ _ _ F3); try done; compute_done.
  - intros n t Hin. assert (Hn : n ∈ pin_names).
    { change pin_names with ((pin_entries s).*1). by apply (list_elem_of_fmap_2 fst) in Hin. }
    assert (Hdis : forall x, x ∈ pin_names -> (x ∉ kFacilities) /\ (x ∉ [str "FacilityLock"])).
    { apply Forall_forall. compute_done. }
    destruct (Hdis n Hn). rewrite (frame_text _ _ _ F3), (frame_text _ _ _ F2) by done.
    pose proof (puts_get pp (pin_entries s) d n t Hp He ltac:(compute_done) Hin) as Hg. fold d1 in Hg.
    rewrite Hg. f_equal.
    pose proof (entries_plain s Hs) as Hpe. rewrite Forall_forall in Hpe. by destruct (Hpe _ Hin).
  - intros n t Hin. rewrite (puts_get fl _ d2 n t Hfa (lock_entries_plain _)); [|rewrite lock_entries_names, Hk; compute_done|done].
    f_equal. apply list_elem_of_fmap in Hin as ([m []] & [= -> ->] & _); done.
Qed.


(** ** The phone number *)
Lemma FindAttribute_SetText d e t p a v :
  alive d e -> alive d p -> FindAttribute (SetText e (c_str t) d) (Some p) a v = FindAttribute d (Some p) a v.
Proof.
  intros He Hp. destruct (SetText_same d e t He) as (_ & _ & Hs). cbn.
  destruct (Hs p Hp) as (_ & -> & _). assert (Hl : forall c, c ∈ Elements d p -> alive d c) by (intros; by eapply elements_alive).
  induction (Elements d p) as [|c l IH]; [done|]. cbn.
  destruct (Hs c) as (_ & _ & -> & _); [apply Hl; left|]. rewrite IH by (intros; apply Hl; by right). done.
Qed.
Lemma FindAttribute_alive d p a v e : alive d p -> FindAttribute d (Some p) a v = Some e -> alive d e.
Proof. intros Hp [He _]%find_some. eapply elements_alive; [exact Hp|by apply list_elem_of_In]. Qed.

Lemma walk_SetText d e t subs : alive d e -> forall p, alive d p ->
  walk (SetText e (c_str t) d) p subs = walk d p subs /\ forall q, walk d p subs = Some q -> alive d q.
Proof.
  intros He. induction subs as [|sub subs IH]; intros p Hp; cbn [walk].
  - split; [done|]. by intros q [= <-].
  - rewrite FindAttribute_SetText by done.
    destruct (FindAttribute d (Some p) (str "path") sub) as [app|] eqn:E; [|done].
    apply IH. by eapply FindAttribute_alive.
Qed.

Lemma phone_element_SetText env w e t :
  GetPhoneNumberElement (sim w) = Some e ->
  alive (doc (sim w)) e /\
  GetPhoneNumberElement (sim (save_file env (set_doc (SetText e (c_str t) (doc (sim w))) (file_path (sim w)) w))) = Some e.
Proof.
  intros He. unfold GetPhoneNumberElement in *. set (d := doc (sim w)) in *.
  assert (Hdoc : doc (sim (save_file env (set_doc (SetText e (c_str t) d) (file_path (sim w)) w))) = SetText e (c_str t) d)
    by (unfold save_file; by case_match).
  rewrite Hdoc. clear Hdoc.
  apply bind_Some in He as (root & Hroot & (parent & Hp & (ef & Hef & He)%bind_Some)%bind_Some).
  pose proof (root_alive _ _ Hroot) as Hr. unfold find_path in *.
  pose proof (proj2 (walk_SetText d root [] (sub_paths (GetUsimEFPath EF_MSISDN)) Hr root Hr) _ Hp) as Hpa.
  pose proof (FindAttribute_alive _ _ _ _ _ Hpa Hef) as Hea. pose proof (FindAttribute_alive _ _ _ _ _ Hea He) as Ha.
  split; [done|]. destruct (SetText_same d e t Ha) as (-> & _). rewrite Hroot.
  change (find_path (SetText e (c_str t) d) root (GetUsimEFPath EF_MSISDN) ≫= (fun parent =>
    FindAttribute (SetText e (c_str t) d) (Some parent) (str "id") (str "6F40") ≫= (fun ef =>
    FindAttribute (SetText e (c_str t) d) (Some ef) (str "cmd") (str "B2"))) = Some e).
  unfold find_path. rewrite (proj1 (walk_SetText d e t _ Ha root Hr)), Hp.
  change (FindAttribute (SetText e (c_str t) d) (Some parent) (str "id") (str "6F40") ≫= (fun ef =>
    FindAttribute (SetText e (c_str t) d) (Some ef) (str "cmd") (str "B2")) = Some e).
  rewrite FindAttribute_SetText, Hef by done.
  change (FindAttribute (SetText e (c_str t) d) (Some ef) (str "cmd") (str "B2") = Some e).
  by rewrite FindAttribute_SetText.
Qed.

Lemma zlen_BCD s : zlen (StringToBCD s) = 2 * ((zlen s + 1) / 2).
Proof.
  induction s as [|a|a b l IH] using pair_ind; [done|done|]. cbn [StringToBCD]. rewrite !zlen_cons, IH.
  replace (1 + (1 + zlen l) + 1) with (zlen l + 1 + 1 * 2) by lia. rewrite Z.div_add by lia. lia.
Qed.

(** A record is what precedes its footer, four characters (length and type), and the
    field of the number. *)
Lemma record_split (record : bytes) : 28 <= zlen record ->
  exists (A : bytes) a b c e B, record = A ++ a :: b :: c :: e :: B /\ zlen A = zlen record - 28 /\ zlen B = 24.
Proof.
  intros Hr. pose proof (ztake_zdrop (zlen record - 28) record) as Hs.
  assert (Hl : zlen (zdrop (zlen record - 28) record) = 28) by (rewrite zlen_zdrop; lia).
  destruct (zdrop (zlen record - 28) record) as [|a [|b [|c [|e B]]]]; rewrite ?zlen_cons, ?zlen_nil in Hl; try lia.
  exists (ztake (zlen record - 28) record), a, b, c, e, B. split; [done|]. rewrite zlen_ztake. lia.
Qed.

Lemma as_i32_small z : 0 <= z < 2 ^ 31 -> as_i32 z = z.
Proof. intros. unfold as_i32. rewrite Z.mod_small; lia. Qed.

Lemma set_char_mid (A : bytes) x l c : set_char (zlen A) c (A ++ x :: l) = Ok (A ++ byte_of_Z c :: l).
Proof.
  pose proof (zlen_nonneg A). pose proof (zlen_nonneg l). unfold set_char.
  rewrite zlen_app, zlen_cons, (proj2 (Z.leb_le _ _)), (proj2 (Z.ltb_lt _ _)) by lia. cbn [andb].
  rewrite ztake_app_le, ztake_all, zdrop_app_ge by lia. replace (zlen A + 1 - zlen A) with 1 by lia.
  change (zdrop 1 (x :: l)) with (zdrop 0 l). by rewrite zdrop_0.
Qed.

Lemma put_number_record number (A : bytes) a b c e B :
  zlen B = 24 -> zlen A + 28 < 2 ^ 31 -> zlen number <= kMaxNumberSizeBytes ->
  put_number number (A ++ a :: b :: c :: e :: B) =
    Ok (A ++ byte_of_Z 48 :: byte_of_Z (48 + (zlen (StringToBCD number) / 2 + 1)) :: c :: e ::
        StringToBCD number ++ zdrop (zlen (StringToBCD number)) B).
Proof.
  unfold kMaxNumberSizeBytes. intros HB HA Hn. pose proof (zlen_BCD number) as HL. set (bcd := StringToBCD number) in *.
  pose proof (zlen_nonneg number). pose proof (zlen_nonneg A).
  pose proof (Z.mul_div_le (zlen number + 1) 2 ltac:(lia)). pose proof (Z.div_pos (zlen number + 1) 2 ltac:(lia) ltac:(lia)).
  assert (Hlen : 0 <= zlen bcd <= 12) by lia.
  unfold put_number. rewrite !zlen_app, !zlen_cons, HB. unfold kFooterSizeBytes.
  replace (zlen A + (1 + (1 + (1 + (1 + 24)))) - 14 * 2) with (zlen A) by lia. rewrite as_i32_small by lia.
  rewrite (proj2 (Z.eqb_neq _ 12)) by lia. cbn [andb]. rewrite (u64_id (zlen A + 4)) by (unfold is_u64; lia).
  fold bcd. unfold string_replace. rewrite (proj2 (Z.ltb_ge _ _)) by (rewrite !zlen_app, !zlen_cons; lia). cbn [rbind].
  replace (ztake (zlen A + 4) (A ++ a :: b :: c :: e :: B)) with (A ++ [a; b; c; e]).
  2: { rewrite ztake_app, ztake_all by lia. replace (zlen A + 4 - zlen A) with 4 by lia. cbn. by rewrite ztake_0. }
  replace (zdrop (zlen A + 4 + zlen bcd) (A ++ a :: b :: c :: e :: B)) with (zdrop (zlen bcd) B).
  2: { change (a :: b :: c :: e :: B) with ([a; b; c; e] ++ B). rewrite app_assoc, zdrop_app_ge
      by (rewrite zlen_app; change (zlen [a; b; c; e]) with 4; lia).
    f_equal. rewrite zlen_app. change (zlen [a; b; c; e]) with 4. lia. }
  replace ((zlen bcd + 2) / 2) with (zlen bcd / 2 + 1) by (replace (zlen bcd + 2) with (zlen bcd + 1 * 2) by lia;
    rewrite Z.div_add; lia).
  assert (Hd : 0 <= zlen bcd / 2 <= 6) by (pose proof (Z.mul_div_le (zlen bcd) 2 ltac:(lia)); pose proof (Z.div_pos (zlen bcd) 2 ltac:(lia) ltac:(lia)); lia).
  rewrite (Z.div_small _ 16), (Z.mod_small _ 16) by lia.
  rewrite <- app_assoc. cbn [app]. rewrite set_char_mid. cbn [rbind].
  pose proof (set_char_mid (A ++ [byte_of_Z 48]) b (c :: e :: bcd ++ zdrop (zlen bcd) B) (48 + (zlen bcd / 2 + 1))) as Hs.
  rewrite zlen_app, <- !app_assoc in Hs. exact Hs.
Qed.

Lemma char_at_mid (A : bytes) x l : 0 <= Z_of_byte x < 128 -> char_at (A ++ x :: l) (zlen A) = Ok (Z_of_byte x).
Proof.
  intros Hx. pose proof (zlen_nonneg A). pose proof (zlen_nonneg l). unfold char_at.
  rewrite zlen_app, zlen_cons, (proj2 (Z.eqb_neq _ _)) by lia.
  rewrite znth_lookup, lookup_app_r by (unfold zlen; lia).
  replace (Z.to_nat (zlen A) - length A)%nat with 0%nat by (unfold zlen; lia).
  change ((x :: l) !! 0%nat) with (Some x). cbv beta iota zeta. by rewrite (proj2 (Z.ltb_lt _ _)) by lia.
Qed.

Lemma record_number_put number (A : bytes) c e B :
  zlen B = 24 -> zlen A + 28 < 2 ^ 31 -> zlen number <= kMaxNumberSizeBytes -> last number <> Some "F"%char ->
  record_number (A ++ byte_of_Z 48 :: byte_of_Z (48 + (zlen (StringToBCD number) / 2 + 1)) :: c :: e ::
                 StringToBCD number ++ zdrop (zlen (StringToBCD number)) B) = Ok (Some number).
Proof.
  unfold kMaxNumberSizeBytes. intros HB HA Hn HF. pose proof (zlen_BCD number) as HL.
  assert (Hbcd : BCDToString (StringToBCD number) = number).
  { destruct number as [|x number]; [done|]. by apply BCD_roundtrip. }
  set (bcd := StringToBCD number) in *. set (k := zlen bcd / 2) in *. pose proof (zlen_nonneg number). pose proof (zlen_nonneg A).
  pose proof (Z.mul_div_le (zlen number + 1) 2 ltac:(lia)). pose proof (Z.div_pos (zlen number + 1) 2 ltac:(lia) ltac:(lia)).
  assert (Hk' : k = (zlen number + 1) / 2) by (unfold k; rewrite HL, (Z.mul_comm 2), Z.div_mul; lia).
  assert (Hk : zlen bcd = 2 * k) by (rewrite Hk'; exact HL).
  assert (Hkr : 0 <= k <= 6) by lia. set (R := bcd ++ zdrop (zlen bcd) B).
  assert (HR : zlen R = 24) by (unfold R; rewrite zlen_app, zlen_zdrop; lia).
  assert (Hbyte : forall z, 48 <= z <= 57 -> Z_of_byte (byte_of_Z z) = z).
  { intros z Hz. rewrite Z_of_byte_of_Z, Z.mod_small; lia. }
  unfold record_number. rewrite zlen_app, !zlen_cons, HR. unfold kFooterSizeBytes.
  replace (zlen A + (1 + (1 + (1 + (1 + 24)))) - 14 * 2) with (zlen A) by lia. rewrite as_i32_small by lia.
  rewrite char_at_mid by (rewrite Hbyte; lia). cbn [rbind].
  pose proof (char_at_mid (A ++ [byte_of_Z 48]) (byte_of_Z (48 + (k + 1))) (c :: e :: R)
    ltac:(rewrite Hbyte; lia)) as Hlo. rewrite zlen_app, <- app_assoc in Hlo. cbn [app] in Hlo.
  change (zlen [byte_of_Z 48]) with 1 in Hlo. rewrite Hlo. cbn [rbind]. rewrite !Hbyte by lia.
  replace ((48 - 48) * 16 + (48 + (k + 1)) - 48) with (k + 1) by lia.
  unfold kMaxNumberSizeBytes. rewrite Z.gtb_ltb, (proj2 (Z.ltb_ge _ _)), (proj2 (Z.eqb_neq _ _)) by lia.
  rewrite !u64_id by (unfold is_u64; lia). rewrite substr_ok by (rewrite zlen_app, !zlen_cons; lia). cbn [rbind].
  replace (zslice (zlen A + 4) ((k + 1) * 2 - 2)
    (A ++ byte_of_Z 48 :: byte_of_Z (48 + (k + 1)) :: c :: e :: R)) with bcd; [by rewrite Hbcd|].
  pose proof (zslice_mid (A ++ [byte_of_Z 48; byte_of_Z (48 + (k + 1)); c; e]) bcd (zdrop (zlen bcd) B)) as Hm.
  rewrite <- app_assoc, zlen_app in Hm. change (zlen [byte_of_Z 48; byte_of_Z (48 + (k + 1)); c; e]) with 4 in Hm.
  replace ((k + 1) * 2 - 2) with (zlen bcd) by lia. symmetry. exact Hm.
Qed.

Lemma Forall_BCD (P : ascii -> Prop) number : P "F"%char -> Forall P number -> Forall P (StringToBCD number).
Proof.
  intros HF. induction number as [|a|a b l IH] using pair_ind; intros Hl; cbn [StringToBCD]; [done| |].
  - apply Forall_cons in Hl as [? _]. by repeat constructor.
  - apply Forall_cons in Hl as [? [? ?]%Forall_cons]. constructor; [done|]. constructor; auto.
Qed.
Lemma put_number_printable number (A : bytes) a b c e B z :
  0 <= z <= 9 -> Forall printable number -> Forall printable (A ++ a :: b :: c :: e :: B) ->
  Forall printable (A ++ byte_of_Z 48 :: byte_of_Z (48 + z) :: c :: e :: StringToBCD number ++ zdrop (zlen (StringToBCD number)) B).
Proof.
  intros Hz Hn Hr. rewrite Forall_app, !Forall_cons in *. destruct Hr as (HA & _ & _ & Hc & He & HB).
  assert (Hb : forall x, 48 <= x <= 57 -> printable (byte_of_Z x)).
  { intros x Hx. unfold printable. rewrite Z_of_byte_of_Z, Z.mod_small; lia. }
  refine (conj HA (conj (Hb 48 _) (conj (Hb _ _) (conj Hc (conj He _))))); [lia|lia|].
  apply Forall_app. split; [by apply Forall_BCD|]. rewrite zdrop_drop by apply zlen_nonneg. by apply Forall_drop.
Qed.
Lemma BCD_half number : zlen number <= 11 -> 0 <= zlen (StringToBCD number) / 2 <= 6.
Proof.
  intros Hn. pose proof (zlen_nonneg number). rewrite zlen_BCD, (Z.mul_comm 2), Z.div_mul by lia.
  pose proof (Z.mul_div_le (zlen number + 1) 2 ltac:(lia)). pose proof (Z.div_pos (zlen number + 1) 2). lia.
Qed.

Lemma dispatch_phone r :
  HandleModemCommand InitializeCommandHandlers (str "AT+REMOTEUPADATEPHONENUMBER" ++ r) = Some HPhoneNumberUpdate.
Proof.
  change (str "AT+REMOTEUPADATEPHONENUMBER" ++ r) with ("A"%char :: "T"%char :: str "+REMOTEUPADATEPHONENUMBER" ++ r).
  unfold HandleModemCommand, InitializeCommandHandlers. cbn [find]. rewrite !Compare_cons. cbn [match_mode command_prefix].
  rewrite !bool_decide_false by (intros E; discriminate E). reflexivity.
Qed.

(** A record of the phone book: a footer of 28 characters after the name. *)
Definition number_record (record : bytes) : Prop := 28 <= zlen record < 2 ^ 31 /\ Forall printable record.

(** The phone number is kept: after the host's command that sets it to up to eleven
    digits, the number read from the card is that number, whatever the record held
    before. *)
Theorem phone_number_roundtrip (env : Env) (w : World) (number record : bytes) (elem : Node) :
  zlen number <= kMaxNumberSizeBytes -> Forall (fun c => is_digit c = true) number ->
  GetPhoneNumberElement (sim w) = Some elem -> GetText (doc (sim w)) elem = Some record ->
  number_record record ->
  exists w', handle env (str "AT+REMOTEUPADATEPHONENUMBER " ++ number) w = (Ok true, w') /\
    GetPhoneNumber (sim w') = Ok number.
Proof.
  intros Hn Hd He Ht [Hr Hp]. destruct (record_split record) as (A & a & b & c & e & B & -> & HA & HB); [lia|].
  assert (Hput : put_number number (A ++ a :: b :: c :: e :: B) = _) by (apply put_number_record; [done|lia|done]).
  assert (Hget := record_number_put number A c e B HB ltac:(lia) Hn).
  set (r := A ++ byte_of_Z 48 :: _) in Hput, Hget.
  rewrite Forall_forall in Hd.
  assert (Hd' : forall x, x ∈ number -> 48 <= Z_of_byte x <= 57) by (intros x Hx; by apply is_digit_range, Hd).
  assert (HF : last number <> Some "F"%char).
  { intros HF%last_Some_elem_of. by apply Hd in HF. }
  specialize (Hget HF).
  assert (Hc : c_str r = r).
  { apply c_str_plain. apply (put_number_printable number A a b c e B); [|apply Forall_forall|done].
    - pose proof (BCD_half number Hn). lia.
    - intros x Hx%Hd'. unfold printable. lia. }
  destruct (phone_element_SetText env w elem r He) as [Ha He'].
  unfold handle. change (str "AT+REMOTEUPADATEPHONENUMBER " ++ number) with
    (str "AT+REMOTEUPADATEPHONENUMBER" ++ " "%char :: number). rewrite dispatch_phone. cbn [run_handler].
  unfold HandlePhoneNumberUpdate, SkipWhiteSpace. rewrite skip_past_app by compute_done.
  rewrite GetNextStr_flag_all by (intros Hs%Hd'; vm_compute in Hs; destruct Hs; done). cbn [fst].
  unfold SetPhoneNumber. rewrite Z.gtb_ltb, (proj2 (Z.ltb_ge _ _)) by done.
  unfold mbind, get, lift, modify, mret. rewrite He. unfold text_of. rewrite Ht, Hput.
  eexists. split; [reflexivity|]. unfold GetPhoneNumber. rewrite He'.
  assert (Hdoc : doc (sim (save_file env (set_doc (SetText elem (c_str r) (doc (sim w))) (file_path (sim w)) w))) =
                 SetText elem (c_str r) (doc (sim w))) by (unfold save_file; by case_match).
  unfold text_of. rewrite Hdoc. destruct (SetText_same (doc (sim w)) elem r Ha) as (_ & _ & Hs).
  destruct (Hs elem Ha) as (_ & _ & _ & ->). rewrite decide_True, Hc by done. cbn [rbind]. by rewrite Hget.
Qed.
End storage.

(** ** A concrete card *)
Definition plain_b (s : bytes) : bool :=
  forallb (fun c => (32 <=? Z_of_byte c) && (Z_of_byte c <=? 126)) s && existsb (fun c => negb (Z_of_byte c =? 32)) s.
Lemma plain_b_spec s : plain_b s = true -> plain s.
Proof.
  unfold plain_b. intros [Hp He]%andb_true_iff. rewrite forallb_forall in Hp. apply existsb_exists in He as (c & Hc & Hn).
  split.
  - apply Forall_forall. intros x Hx%list_elem_of_In%Hp. apply andb_true_iff in Hx as [?%Z.leb_le ?%Z.leb_le]. done.
  - exists c. split; [by apply list_elem_of_In|]. by apply negb_true_iff, Z.eqb_neq in Hn.
Qed.

Fixpoint tree_plain (t : Tree) : bool :=
  match tree_text t with Some s => plain_b s | None => true end &&
  (fix go (l : list Tree) : bool := match l with [] => true | c :: l => tree_plain c && go l end) (children t).
Lemma tree_plain_at p : forall t u, tree_plain t = true -> at_path p t = Some u -> tree_plain u = true.
Proof.
  induction p as [|i p IH]; intros t u Ht Hu; [by injection Hu as <-|]. cbn in Hu. destruct t as [n a x l]. cbn in Ht, Hu.
  apply andb_true_iff in Ht as [_ Ht]. destruct (l !! i) as [c|] eqn:E; [|done]. cbn in Hu.
  apply (IH c u); [|done]. clear Hu IH. revert i E. induction l as [|y l IHl]; intros i E; [done|].
  apply andb_true_iff in Ht as [Hy Ht]. destruct i as [|i]; [by injection E as <-|]. by apply (IHl Ht i).
Qed.
Lemma tree_texts_plain t : tree_plain t = true -> texts_plain (XL := tree_laws) (Some t).
Proof.
  intros Ht p x [u Hu] Hx. cbn in Hu, Hx. unfold tree_at in Hx. cbn in Hx. rewrite Hu in Hx. cbn in Hx.
  pose proof (tree_plain_at p t u Ht Hu) as Hp. destruct u as [n a y l]. cbn in Hx, Hp. subst y.
  apply andb_true_iff in Hp as [Hp _]. by apply plain_b_spec.
Qed.

Definition full_tree : Tree :=
  card "PINSTATE_UNKNOWN" "2" "10" [leaf "PIN2CODE" "9999"; leaf "PIN2REMAINTIMES" "1"].
Definition full_card : World :=
  let w := start full_tree in
  run [str "+CLCK=" ++ NetworkService.quoted (str "SC") ++ str ",1," ++ NetworkService.quoted (str "4321")] w.


Lemma phone_number_roundtrip_witness :
  exists w', handle (test_env 0) (str "AT+REMOTEUPADATEPHONENUMBER " ++ str "5550123") full_card = (Ok true, w') /\
    GetPhoneNumber (sim w') = Ok (str "5550123").
Proof.
  eapply (phone_number_roundtrip (test_env 0) full_card (str "5550123")).
  - vm_compute. discriminate.
  - compute_done.
  - vm_compute. reflexivity.
  - vm_compute. reflexivity.
  - split; [split; [vm_compute; discriminate|vm_compute; reflexivity]|].
    refine (proj1 (plain_b_spec _ _)). vm_compute. reflexivity.
Defined.
End SimStorage.
