(* ===== verification/StkService.v ===== *)
(** * The SIM toolkit (modem_simulator/stk_service.{h,cpp})

    The menus of the card are SELECTITEM elements below SETUPMENU in its document; the
    service remembers the path of the menu that is shown.  The document is read
    through [SimService.GetIccProfile] and does not change here. *)
From S2P Require Import Prelude CppString ModemCommand.
From S2P Require Import DataService NetworkService Xml SimService.

Module StkService.
Import CppString ModemCommand Xml.

Record Service := mkService { current_select_item_menu_ids_ : list bytes; out : list Output }.

(** The SIM service when it was set up, and whether there is a channel monitor. *)
Record Env {X : Xml} := mkEnv { sim_service_ : option SimService.Sim; channel_monitor_ : bool }.
Arguments mkEnv {X}.

Section service.
Context {X : Xml} (env : Env).

Definition set_ids (ids : list bytes) (s : Service) : Service := mkService ids (out s).
Definition emit (o : Output) (s : Service) : Service := mkService (current_select_item_menu_ids_ s) (out s ++ [o]).
Definition reply (lines : list bytes) : M Service unit := modify (emit (Response lines)).
Definition SendUnsolicitedCommand (line : bytes) : M Service unit :=
  if channel_monitor_ env then modify (emit (Unsolicited line)) else mret tt.

(** The document and its root, unless there is no service or no root. *)
Definition icc_profile : option (Doc * Node) :=
  sim ← sim_service_ env; root ← SimService.GetIccProfile sim; Some (SimService.doc sim, root).

Definition attr_text (d : Doc) (e : Node) : bytes := default [] (AttributeValue d e (str "text")).
Definition menu_id_is (d : Doc) (id : bytes) (e : Node) : bool := bool_decide (AttributeValue d e (str "menuId") = Some id).
(** [data.substr(data.size() - 2)]. *)
Definition last_two (data : bytes) : result bytes := substr_from (u64 (zlen data - 2)) data.

Definition HandleReportStkServiceIsRunning : M Service unit :=
  let! _ := reply [str "+CUSATD: 0,1"; str "OK"] in
  match icc_profile with
  | None => mret tt
  | Some (d, root) =>
      match FirstChildElement d root (str "SETUPMENU") with
      | None => lift (Fatal "setup_menu is null")
      | Some setup_menu => SendUnsolicitedCommand (str "+CUSATP:" ++ attr_text d setup_menu)
      end
  end.

(** Remember the menu when the item leads to another one (SELECT_ITEM). *)
Definition enter_menu (d : Doc) (item : Node) (menu_id : bytes) : M Service unit :=
  if bool_decide (AttributeValue d item (str "cmd") = Some (str "24"))
  then modify (fun s => set_ids (current_select_item_menu_ids_ s ++ [menu_id]) s) else mret tt.

Definition HandleSendEnvelope (command : bytes) : M Service unit :=
  let! _ := reply [str "+CUSATE: 0"; str "OK"] in
  match sim_service_ env with
  | None => mret tt
  | Some _ =>
      let data := (GetNextStr (SkipPrefix command)).1 in
      let! menu_id := lift (last_two data) in
      match icc_profile with
      | None => mret tt
      | Some (d, root) =>
          match FirstChildElement d root (str "SETUPMENU") with
          | None => mret tt
          | Some setup_menu =>
              match find (menu_id_is d menu_id) (ElementsNamed d setup_menu (str "SELECTITEM")) with
              | None => mret tt
              | Some select_item =>
                  let! _ := enter_menu d select_item menu_id in
                  SendUnsolicitedCommand (str "+CUSATP:" ++ attr_text d select_item)
              end
          end
      end
  end.

(** The loop over the remembered path, from the item found so far. *)
Fixpoint descend (d : Doc) (menu : Node) (select_item : option Node) (ids : list bytes) : option Node :=
  match ids with
  | [] => select_item
  | id :: ids =>
      match find (menu_id_is d id) (ElementsNamed d menu (str "SELECTITEM")) with
      | None => None
      | Some item => descend d item (Some item) ids
      end
  end.

Definition GetCurrentSelectItem : M Service (option (Doc * Node)) :=
  match sim_service_ env with
  | None => mret None
  | Some _ =>
      match icc_profile with
      | None => let! _ := modify (set_ids []) in mret None
      | Some (d, root) =>
          match FirstChildElement d root (str "SETUPMENU") with
          | None => let! _ := modify (set_ids []) in mret None
          | Some menu =>
              let! s := get in
              mret ((fun item => (d, item)) <$> descend d menu None (current_select_item_menu_ids_ s))
          end
      end
  end.

(** Close the menus. *)
Definition end_session : M Service unit :=
  let! _ := modify (set_ids []) in SendUnsolicitedCommand (str "+CUSATEND").
Definition send_text (d : Doc) (item : Node) : M Service unit :=
  match AttributeValue d item (str "text") with
  | Some text => SendUnsolicitedCommand (str "+CUSATP: " ++ text)
  | None => mret tt
  end.

Definition OnUnsolicitedCommandForTR (command : bytes) : M Service unit :=
  let data := (GetNextStr (SkipPrefix command)).1 in
  let! menu_id := lift (last_two data) in
  if bool_decide (menu_id = str "10") || bool_decide (menu_id = str "12") then end_session
  else
    let! select_item := GetCurrentSelectItem in
    match select_item with
    | None => end_session
    | Some (d, select_item) =>
        if bool_decide (menu_id = str "11") then
          let! _ := modify (fun s => set_ids (removelast (current_select_item_menu_ids_ s)) s) in
          let! s := get in
          match current_select_item_menu_ids_ s with
          | _ :: _ =>
              let! select_item := GetCurrentSelectItem in
              match select_item with
              | None => lift (Fatal "select_item is null")
              | Some (d, select_item) => send_text d select_item
              end
          | [] => SendUnsolicitedCommand (str "+CUSATEND")
          end
        else if bool_decide (menu_id = str "00") then send_text d select_item
        else match find (menu_id_is d menu_id) (Elements d select_item) with
             | None => end_session
             | Some final =>
                 let! _ := enter_menu d final menu_id in
                 SendUnsolicitedCommand (str "+CUSATP:" ++ attr_text d final)
             end
    end.

Definition HandleSendTerminalResponseToSim (command : bytes) : M Service unit :=
  let! _ := reply [str "+CUSATT: 0"; str "OK"] in OnUnsolicitedCommandForTR command.

(** ** Dispatch *)
Inductive Handler := HReportStkServiceIsRunning | HSendEnvelope | HSendTerminalResponseToSim.
Definition InitializeCommandHandlers : list (CommandHandler Handler) :=
  [ mkHandler (str "+CUSATD?") FULL_MATCH HReportStkServiceIsRunning;
    mkHandler (str "+CUSATE=") PARTIAL_MATCH HSendEnvelope;
    mkHandler (str "+CUSATT=") PARTIAL_MATCH HSendTerminalResponseToSim ].
Definition run_handler (command : bytes) (h : Handler) : M Service unit :=
  match h with
  | HReportStkServiceIsRunning => HandleReportStkServiceIsRunning
  | HSendEnvelope => HandleSendEnvelope command
  | HSendTerminalResponseToSim => HandleSendTerminalResponseToSim command
  end.
Definition handle (command : bytes) : M Service bool :=
  match HandleModemCommand InitializeCommandHandlers command with
  | Some h => let! _ := run_handler command h in mret true
  | None => mret false
  end.

(** ** Commands return *)
Definition returns {A} (m : M Service A) : Prop := forall s, exists a s', m s = (Ok a, s').
Lemma returns_ret {A} (a : A) : returns (mret a).
Proof. intros s. by exists a, s. Qed.
Lemma returns_modify f : returns (modify f).
Proof. intros s. by exists tt, (f s). Qed.
Lemma returns_bind {A B} (m : M Service A) (k : A -> M Service B) :
  returns m -> (forall a, returns (k a)) -> returns (mbind m k).
Proof. intros Hm Hk s. destruct (Hm s) as (a & s1 & E). unfold mbind. rewrite E. apply Hk. Qed.
Lemma returns_unsolicited l : returns (SendUnsolicitedCommand l).
Proof. unfold SendUnsolicitedCommand. case_match; [apply returns_modify|apply returns_ret]. Qed.
Lemma returns_reply ls : returns (reply ls).
Proof. apply returns_modify. Qed.
Lemma returns_end : returns end_session.
Proof. apply returns_bind; [apply returns_modify|]. intros. apply returns_unsolicited. Qed.
Lemma returns_enter d e id : returns (enter_menu d e id).
Proof. unfold enter_menu. case_match; [apply returns_modify|apply returns_ret]. Qed.
Lemma returns_text d e : returns (send_text d e).
Proof. unfold send_text. case_match; [apply returns_unsolicited|apply returns_ret]. Qed.
#[local] Hint Resolve returns_ret returns_modify returns_bind returns_unsolicited returns_reply returns_end returns_enter
  returns_text : core.

Lemma last_two_ok data : 2 <= zlen data < 2 ^ 64 -> last_two data = Ok (zdrop (zlen data - 2) data).
Proof.
  intros H. unfold last_two, substr_from. rewrite u64_id by (unfold is_u64; lia). rewrite substr_ok by lia. f_equal.
  unfold zslice. apply ztake_all. rewrite zlen_zdrop. lia.
Qed.

Definition payload (command : bytes) : bytes := (GetNextStr (SkipPrefix command)).1.

(** ** The remembered path *)
Lemma descend_acc d menu acc ids : ids <> [] -> descend d menu acc ids = descend d menu (Some menu) ids.
Proof. by destruct ids. Qed.
Lemma descend_snoc d ids x : forall menu acc,
  descend d menu acc (ids ++ [x]) =
    descend d menu (Some menu) ids ≫= (fun m => find (menu_id_is d x) (ElementsNamed d m (str "SELECTITEM"))).
Proof.
  induction ids as [|id ids IH]; intros menu acc; cbn [app descend].
  - cbn. by destruct (find _ _).
  - destruct (find _ _) as [item|]; [|done]. apply IH.
Qed.

(** Where the path leads now, [None] when a session is not open. *)
Definition current (s : Service) : option (Doc * Node) :=
  '(d, root) ← icc_profile; menu ← FirstChildElement d root (str "SETUPMENU");
  item ← descend d menu None (current_select_item_menu_ids_ s); Some (d, item).

Lemma GetCurrentSelectItem_some s x : current s = Some x -> GetCurrentSelectItem s = (Ok (Some x), s).
Proof.
  unfold current, GetCurrentSelectItem, icc_profile. destruct (sim_service_ env) as [sm|]; [|done]. cbn.
  destruct (SimService.GetIccProfile sm) as [root|]; [|done]. cbn.
  destruct (FirstChildElement _ root _) as [menu|]; [|done]. cbn. unfold mbind, get, mret.
  destruct (descend _ menu None _) as [item|]; [|done]. cbn. by intros [= <-].
Qed.
Lemma GetCurrentSelectItem_none s : current s = None -> exists s', GetCurrentSelectItem s = (Ok None, s').
Proof.
  unfold current, GetCurrentSelectItem, icc_profile. destruct (sim_service_ env) as [sm|]; [|eauto]. cbn.
  destruct (SimService.GetIccProfile sm) as [root|]; [|cbn; eauto]. cbn.
  destruct (FirstChildElement _ root _) as [menu|]; [|cbn; eauto]. cbn. unfold mbind, get, mret.
  destruct (descend _ menu None _) as [item|]; [done|]. cbn. eauto.
Qed.

(** One level up there is a menu again, unless it was the first level. *)
Lemma current_up s x ids id :
  current s = Some x -> current_select_item_menu_ids_ s = ids ++ [id] -> ids <> [] ->
  exists y, current (set_ids ids s) = Some y.
Proof.
  unfold current. destruct icc_profile as [[d root]|]; [|done]. cbn.
  destruct (FirstChildElement d root _) as [menu|]; [|done]. cbn. intros Hx E Hne. rewrite E, descend_snoc in Hx.
  rewrite descend_acc by done. destruct (descend d menu (Some menu) ids) as [m|]; [|done]. cbn. eauto.
Qed.

Lemma returns_response command : 2 <= zlen (payload command) < 2 ^ 64 -> returns (OnUnsolicitedCommandForTR command).
Proof.
  intros Hp s. unfold OnUnsolicitedCommandForTR. fold (payload command). rewrite last_two_ok by done.
  unfold mbind at 1, lift. destruct (_ || _); [apply returns_end|]. destruct (current s) as [[d item]|] eqn:Ec.
  2: { unfold mbind at 1. destruct (GetCurrentSelectItem_none s Ec) as [s' ->]. apply returns_end. }
  unfold mbind at 1. rewrite (GetCurrentSelectItem_some s _ Ec). case_bool_decide.
  - unfold mbind at 1, modify. unfold mbind at 1, get. cbn [set_ids current_select_item_menu_ids_].
    destruct (current_select_item_menu_ids_ s) as [|id ids _] eqn:Ei using rev_ind; [apply returns_unsolicited|].
    rewrite removelast_last. destruct ids as [|y ids]; [apply returns_unsolicited|].
    destruct (current_up s _ (y :: ids) id Ec Ei ltac:(done)) as ([d' item'] & Hy).
    unfold mbind at 1. rewrite (GetCurrentSelectItem_some _ _ Hy). apply returns_text.
  - case_bool_decide; [apply returns_text|]. case_match; [|apply returns_end].
    apply returns_bind; [apply returns_enter|]. intros. apply returns_unsolicited.
Qed.

(** The toolkit never follows a null pointer on a card with a menu: every command
    whose data has at least the two characters of a menu id returns, whatever menu is
    shown. *)
Theorem stk_returns (command : bytes) :
  (forall d root, icc_profile = Some (d, root) -> FirstChildElement d root (str "SETUPMENU") <> None) ->
  2 <= zlen (payload command) < 2 ^ 64 -> returns (handle command).
Proof.
  intros Hmenu Hp. unfold handle. destruct (HandleModemCommand _ _) as [h|]; [|apply returns_ret].
  apply returns_bind; [|intros; apply returns_ret]. destruct h; cbn [run_handler].
  - apply returns_bind; [apply returns_reply|]. intros _. destruct icc_profile as [[d root]|]; [|apply returns_ret].
    specialize (Hmenu d root eq_refl). destruct (FirstChildElement d root _); [apply returns_unsolicited|done].
  - apply returns_bind; [apply returns_reply|]. intros _. destruct (sim_service_ env); [|apply returns_ret].
    cbv zeta. fold (payload command). rewrite last_two_ok by done. intros s1. unfold mbind at 1, lift.
    repeat (case_match; try apply returns_ret). apply returns_bind; [apply returns_enter|]. intros. apply returns_unsolicited.
  - apply returns_bind; [apply returns_reply|]. intros _. by apply returns_response.
Qed.

(** Data that is too short for a menu id ends the modem simulator: the envelope is
    cut with a position before its start, which throws. *)
Theorem short_envelope_throws (command : bytes) (s : Service) :
  sim_service_ env <> None -> zlen (payload command) < 2 ->
  exists s', HandleSendEnvelope command s = (Fatal "std::out_of_range", s').
Proof.
  intros Hs Hp. pose proof (zlen_nonneg (payload command)). unfold HandleSendEnvelope. unfold mbind at 1, reply, modify.
  destruct (sim_service_ env); [|done]. fold (payload command). unfold mbind, lift, last_two, substr_from, substr.
  assert (u64 (zlen (payload command) - 2) = 2 ^ 64 + zlen (payload command) - 2) as ->.
  { unfold u64. rewrite <- (Z.mod_add _ 1) by done. rewrite Z.mod_small; lia. }
  rewrite (proj2 (Z.ltb_lt _ _)) by lia. eauto.
Qed.

(** ** Forward and back *)
Definition reply_command (data : bytes) : bytes := str "AT+CUSATT=" ++ NetworkService.quoted data.
Lemma payload_reply data : dquote ∉ data -> payload (reply_command data) = data.
Proof.
  intros Hq. unfold payload, reply_command. change (SkipPrefix (str "AT+CUSATT=" ++ NetworkService.quoted data)) with
    (skip_past "="%char (str "AT+CUSATT" ++ "="%char :: NetworkService.quoted data)). rewrite skip_past_app by compute_done.
  exact (f_equal fst (GetNextStr_after [] data [] ltac:(compute_done) Hq)).
Qed.
Lemma last_two_app p a b : zlen p + 2 < 2 ^ 64 -> last_two (p ++ [a; b]) = Ok [a; b].
Proof.
  intros Hp. pose proof (zlen_nonneg p). assert (El : zlen (p ++ [a; b]) = zlen p + 2) by (rewrite zlen_app; zlen_lia).
  rewrite last_two_ok by lia. rewrite El, zdrop_app_ge by lia.
  replace (zlen p + 2 - 2 - zlen p) with 0 by lia. by rewrite zdrop_0.
Qed.

(** The item a terminal response goes to is also where the remembered path leads. *)
Lemma find_selectitem d x l c :
  find (menu_id_is d x) l = Some c -> Name d c = str "SELECTITEM" ->
  find (menu_id_is d x) (filter (fun e => Name d e = str "SELECTITEM") l) = Some c.
Proof.
  induction l as [|e l IH]; [done|]. cbn [find]. rewrite filter_cons. destruct (menu_id_is d x e) eqn:E.
  - intros [= ->] Hn. rewrite decide_True by done. cbn [find]. by rewrite E.
  - intros Hf Hn. case_decide; [cbn [find]; rewrite E|]; auto.
Qed.

Lemma current_ids s s' : current_select_item_menu_ids_ s' = current_select_item_menu_ids_ s -> current s' = current s.
Proof. intros E. unfold current. by rewrite E. Qed.
Lemma path_open s x : current s = Some x -> current_select_item_menu_ids_ s <> [].
Proof.
  unfold current. destruct icc_profile as [[d r]|]; [|done]. cbn. destruct (FirstChildElement d r _); [|done]. cbn.
  intros Hc E. by rewrite E in Hc.
Qed.
Lemma current_down s s' d item c x :
  current s = Some (d, item) -> find (menu_id_is d x) (Elements d item) = Some c -> Name d c = str "SELECTITEM" ->
  current_select_item_menu_ids_ s' = current_select_item_menu_ids_ s ++ [x] -> current s' = Some (d, c).
Proof.
  intros Hc Hf Hn E. pose proof (path_open s _ Hc) as Hids. unfold current in *. rewrite E.
  destruct icc_profile as [[d' r']|]; [|done]. cbn in Hc |- *.
  destruct (FirstChildElement d' r' _) as [menu|]; [|done]. cbn in Hc |- *.
  rewrite descend_snoc. rewrite descend_acc in Hc by done.
  destruct (descend d' menu (Some menu) _) as [m|]; [|done]. cbn in Hc |- *. injection Hc as -> ->.
  change (find (menu_id_is d x) (ElementsNamed d item (str "SELECTITEM")) ≫= (fun it => Some (d, it)) = Some (d, c)).
  unfold ElementsNamed. by rewrite (find_selectitem d x (Elements d item) c).
Qed.

Definition tr_ok : Output := Response [str "+CUSATT: 0"; str "OK"].
Lemma choose_submenu s d item c p a b :
  current s = Some (d, item) -> channel_monitor_ env = true ->
  find (menu_id_is d [a; b]) (Elements d item) = Some c -> AttributeValue d c (str "cmd") = Some (str "24") ->
  [a; b] ∉ [str "10"; str "11"; str "12"; str "00"] -> dquote ∉ p ++ [a; b] -> zlen p + 2 < 2 ^ 64 ->
  HandleSendTerminalResponseToSim (reply_command (p ++ [a; b])) s =
    (Ok tt, mkService (current_select_item_menu_ids_ s ++ [[a; b]])
              ((out s ++ [tr_ok]) ++ [Unsolicited (str "+CUSATP:" ++ attr_text d c)])).
Proof.
  intros Hc Hm Hf Hcmd Hab Hd Hp. unfold HandleSendTerminalResponseToSim, OnUnsolicitedCommandForTR.
  unfold mbind at 1, reply, modify. fold (payload (reply_command (p ++ [a; b]))).
  rewrite payload_reply, last_two_app by done. unfold mbind at 1, lift.
  rewrite !not_elem_of_cons in Hab. destruct Hab as (? & ? & ? & ? & _).
  rewrite !bool_decide_false by done. cbn [orb]. unfold mbind at 1.
  rewrite (GetCurrentSelectItem_some _ (d, item)) by by rewrite <- Hc; apply current_ids. rewrite Hf.
  unfold mbind, enter_menu. rewrite bool_decide_true by done. unfold modify, SendUnsolicitedCommand. by rewrite Hm.
Qed.
Lemma move_back s s0 d item c q text :
  current s0 = Some (d, c) -> current s = Some (d, item) -> channel_monitor_ env = true ->
  removelast (current_select_item_menu_ids_ s0) = current_select_item_menu_ids_ s ->
  AttributeValue d item (str "text") = Some text -> dquote ∉ q -> zlen q + 2 < 2 ^ 64 ->
  HandleSendTerminalResponseToSim (reply_command (q ++ str "11")) s0 =
    (Ok tt, mkService (current_select_item_menu_ids_ s)
              ((out s0 ++ [tr_ok]) ++ [Unsolicited (str "+CUSATP: " ++ text)])).
Proof.
  intros H0 Hc Hm Hr Ht Hd Hq. pose proof (path_open s _ Hc) as Hids.
  unfold HandleSendTerminalResponseToSim, OnUnsolicitedCommandForTR. unfold mbind at 1, reply, modify.
  fold (payload (reply_command (q ++ str "11"))). rewrite payload_reply.
  2: { rewrite not_elem_of_app. split; [done|compute_done]. }
  change (str "11") with ["1"%char; "1"%char]. rewrite last_two_app by done. unfold mbind at 1, lift.
  rewrite !bool_decide_false by done. cbn [orb]. unfold mbind at 1.
  rewrite (GetCurrentSelectItem_some _ (d, c)) by by rewrite <- H0; apply current_ids. rewrite bool_decide_true by done.
  unfold mbind at 1, modify. unfold mbind at 1, get. cbn [set_ids current_select_item_menu_ids_ emit out].
  rewrite Hr. destruct (current_select_item_menu_ids_ s) as [|i l] eqn:Ei; [done|]. unfold mbind at 1.
  rewrite (GetCurrentSelectItem_some _ (d, item)) by by rewrite <- Hc; apply current_ids; rewrite Ei.
  unfold send_text. rewrite Ht. unfold SendUnsolicitedCommand. by rewrite Hm.
Qed.

(** Going into a submenu and back shows the menu as it was: after a terminal
    response that chooses a submenu of the current menu and one that moves backward,
    the remembered path is the one before, and the last notice is the current menu's
    text again. *)
Theorem stk_forward_back (s : Service) (d : Doc) (item c : Node) (p q : bytes) (a b : ascii) (text : bytes) :
  current s = Some (d, item) -> channel_monitor_ env = true ->
  find (menu_id_is d [a; b]) (Elements d item) = Some c ->
  Name d c = str "SELECTITEM" -> AttributeValue d c (str "cmd") = Some (str "24") ->
  AttributeValue d item (str "text") = Some text ->
  [a; b] ∉ [str "10"; str "11"; str "12"; str "00"] -> dquote ∉ p ++ [a; b] -> dquote ∉ q ->
  zlen p + 2 < 2 ^ 64 -> zlen q + 2 < 2 ^ 64 ->
  exists s1 s2, HandleSendTerminalResponseToSim (reply_command (p ++ [a; b])) s = (Ok tt, s1) /\
    current s1 = Some (d, c) /\
    HandleSendTerminalResponseToSim (reply_command (q ++ str "11")) s1 = (Ok tt, s2) /\
    current_select_item_menu_ids_ s2 = current_select_item_menu_ids_ s /\
    last (out s2) = Some (Unsolicited (str "+CUSATP: " ++ text)).
Proof.
  intros Hc Hm Hf Hn Hcmd Ht Hab Hd1 Hd2 Hp Hq. eexists. eexists.
  pose proof (choose_submenu s d item c p a b Hc Hm Hf Hcmd Hab Hd1 Hp) as H1. split; [exact H1|].
  set (s1 := mkService _ _). assert (Hc1 : current s1 = Some (d, c)) by by eapply current_down.
  split; [exact Hc1|]. split; [|split].
  - by apply (move_back s s1 d item c q text); [..|apply removelast_last| | |].
  - done.
  - apply last_snoc.
Qed.
End service.

(** ** A card with two levels of menus *)
Definition menu_item (id text : string) (l : list Tree) : Tree :=
  TNode (str "SELECTITEM") [(str "menuId", str id); (str "cmd", str "24"); (str "text", str text)] None l.
Definition menu_card : Tree :=
  let '(TNode name attributes text children) := SimService.card "PINSTATE_UNKNOWN" "3" "10" [] in
  TNode name attributes text
    (children ++ [TNode (str "SETUPMENU") [(str "text", str "D081")] None [menu_item "21" "D0A1" [menu_item "31" "D0B1" []]]]).
Definition menu_env : Env := mkEnv (Some (SimService.sim (SimService.start menu_card))) true.
(** The first level is shown. *)
Definition shown : Service := mkService [str "21"] [].

Lemma stk_returns_witness :
  exists b s', handle menu_env (reply_command (str "810301240082028281830100900131")) shown = (Ok b, s').
Proof.
  pose proof (stk_returns menu_env (reply_command (str "810301240082028281830100900131"))) as H.
  exact (H ltac:(by vm_compute; intros ? ? [= <- <-]) ltac:(by vm_compute) shown).
Defined.

Lemma short_envelope_throws_witness :
  exists s', HandleSendEnvelope menu_env (str "AT+CUSATE=1") shown = (Fatal "std::out_of_range", s').
Proof. apply (short_envelope_throws menu_env (str "AT+CUSATE=1") shown); [by vm_compute|by vm_compute]. Defined.

Lemma stk_forward_back_witness :
  exists s1 s2, HandleSendTerminalResponseToSim menu_env (reply_command (str "90" ++ str "31")) shown = (Ok tt, s1) /\
    HandleSendTerminalResponseToSim menu_env (reply_command (str "83" ++ str "11")) s1 = (Ok tt, s2) /\
    current_select_item_menu_ids_ s2 = [str "21"] /\
    last (out s2) = Some (Unsolicited (str "+CUSATP: D0A1")).
Proof.
  destruct (stk_forward_back menu_env shown (Some menu_card) [3%nat; 0%nat] [3%nat; 0%nat; 0%nat] (str "90") (str "83")
    "3"%char "1"%char (str "D0A1")) as (s1 & s2 & H1 & _ & H2 & H3 & H4).
  all: try (vm_compute; reflexivity).
  all: try compute_done.
  exists s1, s2. exact (conj H1 (conj H2 (conj H3 H4))).
Defined.
End StkService.
