(* ===== verification/ModemSimulator.v ===== *)
(** * The modem (modem_simulator/modem_simulator.{h,cpp})

    The services put together: how a command finds its service, what the services
    read of each other, and the state the channel monitor sees through the interface
    [ChannelMonitor.Modem].  The services of [SimService.World] are those that change
    each other: the SIM, the network, and with it data and time.  Each service keeps
    its own timers of the looper they share. *)
From S2P Require Import Prelude CppString ModemCommand ThreadLooper PduParser.
From S2P Require Import CallService SmsService SupService DataService MiscService NetworkService.
From S2P Require Import ChannelMonitor Xml SimService StkService.

Module ModemSimulator.
Import CppString ModemCommand Xml.

(** The keys of [modem_services_]. *)
Inductive ModemServiceType :=
  kSimService | kNetworkService | kDataService | kCallService | kSmsService | kSupService | kStkService | kMiscService.
#[global] Instance ModemServiceType_eq_dec : EqDecision ModemServiceType.
Proof. solve_decision. Defined.
(** A std::map iterates in the order of its keys. *)
Definition modem_services_ : list ModemServiceType :=
  [kSimService; kNetworkService; kDataService; kCallService; kSmsService; kSupService; kStkService; kMiscService].

Record ModemSimulator {X : Xml} := mkModem {
  world : SimService.World;
  call_service_ : CallService.Service;
  sms_service_ : SmsService.Service;
  sup_service_ : SupService.Service;
  stk_service_ : StkService.Service
}.
Arguments mkModem {X}.

Record Env := mkEnv {
  sim_env : SimService.Env;
  clock : PduParser.Clock;
  ConnectToRemoteCvd : bytes -> bool;
  host_id : Z;
  now_s : Z;                       (* steady clock, seconds *)
  uninit : bool                    (* what uninitialised memory holds *)
}.

Section modem.
Context `{Absl} {X : Xml} (env : Env).
Abbreviation Modem := (@ModemSimulator X).

Definition sim_of (m : Modem) : SimService.Sim := SimService.sim (world m).
Definition network_of (m : Modem) : NetworkService.Service := SimService.network_service_ (world m).

(** ** What the services read of each other *)
Definition network_env (m : Modem) : NetworkService.Env :=
  let e := SimService.net_env (sim_env env) in
  NetworkService.mkEnv (Some (SimService.GetSimStatus (sim_of m))) (NetworkService.now e) (NetworkService.time_0 e)
    (NetworkService.channel_monitor_ e) (NetworkService.data_env e) (NetworkService.misc_env e).
Definition monitor_ : bool := NetworkService.channel_monitor_ (SimService.net_env (sim_env env)).

(** The enumeration of the registration states; the values between are not used. *)
Definition registration (state : Z) : CallService.RegistrationState :=
  if state =? NetworkService.NET_REGISTRATION_UNREGISTERED then CallService.NET_REGISTRATION_UNREGISTERED
  else if state =? NetworkService.NET_REGISTRATION_HOME then CallService.NET_REGISTRATION_HOME
  else if state =? NetworkService.NET_REGISTRATION_SEARCHING then CallService.NET_REGISTRATION_SEARCHING
  else if state =? NetworkService.NET_REGISTRATION_DENIED then CallService.NET_REGISTRATION_DENIED
  else if state =? NetworkService.NET_REGISTRATION_ROAMING then CallService.NET_REGISTRATION_ROAMING
  else if state =? NetworkService.NET_REGISTRATION_EMERGENCY then CallService.NET_REGISTRATION_EMERGENCY
  else CallService.NET_REGISTRATION_UNKNOWN.
Definition voice_state (m : Modem) : Z :=
  NetworkService.registration_state (NetworkService.voice_registration_status_ (network_of m)).

Definition call_env (m : Modem) : CallService.Env :=
  CallService.mkEnv (Some (registration (voice_state m))) (negb (NetworkService.radio_on (network_of m)))
    (SimService.IsFDNEnabled (sim_of m)) (fun n => SimService.IsFixedDialNumber n (sim_of m))
    (ConnectToRemoteCvd env) (host_id env) monitor_ (now_s env) (uninit env).
Definition sms_env (m : Modem) : SmsService.Env :=
  SmsService.mkEnv (Some (SimService.GetPhoneNumber (sim_of m))) (ConnectToRemoteCvd env) (host_id env) monitor_ (now_s env).
Definition stk_env (m : Modem) : StkService.Env := StkService.mkEnv (Some (sim_of m)) monitor_.

(** ** Changing the state of one service

    A service runs with an empty list of outputs; what it sent is returned. *)
Definition set_world (w : SimService.World) (m : Modem) : Modem :=
  mkModem w (call_service_ m) (sms_service_ m) (sup_service_ m) (stk_service_ m).
Definition set_network (s : NetworkService.Service) (m : Modem) : Modem :=
  set_world (SimService.mkWorld (sim_of m) (SimService.files (world m)) s) m.
Definition net_out (os : list Output) (s : NetworkService.Service) : NetworkService.Service :=
  NetworkService.set_io (NetworkService.data_service_ s) (NetworkService.looper s) os s.
Definition clear_world (w : SimService.World) : SimService.World := SimService.on_net (net_out []) w.
Definition world_out (w : SimService.World) : list Output := NetworkService.out (SimService.network_service_ w).

Definition on_world {A} (f : M SimService.World A) : M Modem (A * list Output) := fun m =>
  match f (clear_world (world m)) with
  | (Ok a, w) => (Ok (a, world_out w), set_world (clear_world w) m)
  | (r, w) => (fail_as r, set_world w m)
  end.
Definition on_network {A} (f : M NetworkService.Service A) : M Modem (A * list Output) := fun m =>
  match f (net_out [] (network_of m)) with
  | (Ok a, s) => (Ok (a, NetworkService.out s), set_network (net_out [] s) m)
  | (r, s) => (fail_as r, set_network s m)
  end.

Definition call_out (os : list Output) (s : CallService.Service) : CallService.Service :=
  CallService.mkService (CallService.active_calls_ s) (CallService.in_emergency_mode_ s) (CallService.mute_on_ s)
    (CallService.looper s) (CallService.next_client_id s) os.
Definition set_call (s : CallService.Service) (m : Modem) : Modem :=
  mkModem (world m) s (sms_service_ m) (sup_service_ m) (stk_service_ m).
Definition on_call {A} (f : M CallService.Service A) : M Modem (A * list Output) := fun m =>
  match f (call_out [] (call_service_ m)) with
  | (Ok a, s) => (Ok (a, CallService.out s), set_call (call_out [] s) m)
  | (r, s) => (fail_as r, set_call s m)
  end.

Definition sms_out (os : list Output) (s : SmsService.Service) : SmsService.Service :=
  SmsService.mkService (SmsService.is_waiting_sms_pdu_ s) (SmsService.is_waiting_sms_to_sim_ s) (SmsService.message_id_ s)
    (SmsService.message_reference_ s) (SmsService.sms_status_on_sim_ s) (SmsService.broadcast_config_ s)
    (SmsService.sms_service_center_address_ s) (SmsService.messages_on_sim_card_ s) (SmsService.looper s) os.
Definition set_sms (s : SmsService.Service) (m : Modem) : Modem :=
  mkModem (world m) (call_service_ m) s (sup_service_ m) (stk_service_ m).
Definition on_sms {A} (f : M SmsService.Service A) : M Modem (A * list Output) := fun m =>
  match f (sms_out [] (sms_service_ m)) with
  | (Ok a, s) => (Ok (a, SmsService.out s), set_sms (sms_out [] s) m)
  | (r, s) => (fail_as r, set_sms s m)
  end.

Definition sup_out (os : list Output) (s : SupService.Service) : SupService.Service :=
  SupService.mkService (SupService.clir_type s) (SupService.clir_status s) (SupService.call_forward_infos_ s)
    (SupService.call_waiting_info_ s) os.
Definition set_sup (s : SupService.Service) (m : Modem) : Modem :=
  mkModem (world m) (call_service_ m) (sms_service_ m) s (stk_service_ m).
Definition on_sup {A} (f : M SupService.Service A) : M Modem (A * list Output) := fun m =>
  match f (sup_out [] (sup_service_ m)) with
  | (Ok a, s) => (Ok (a, SupService.out s), set_sup (sup_out [] s) m)
  | (r, s) => (fail_as r, set_sup s m)
  end.

Definition set_stk (s : StkService.Service) (m : Modem) : Modem :=
  mkModem (world m) (call_service_ m) (sms_service_ m) (sup_service_ m) s.
Definition on_stk {A} (f : M StkService.Service A) : M Modem (A * list Output) := fun m =>
  match f (StkService.mkService (StkService.current_select_item_menu_ids_ (stk_service_ m)) []) with
  | (Ok a, s) =>
      (Ok (a, StkService.out s), set_stk (StkService.mkService (StkService.current_select_item_menu_ids_ s) []) m)
  | (r, s) => (fail_as r, set_stk s m)
  end.

(** The data and time services are part of the network's state. *)
Definition on_data {A} (f : DataService.Service -> A * DataService.Service) : M NetworkService.Service A := fun s =>
  let d := NetworkService.data_service_ s in
  let '(a, d) := f (DataService.mkService (DataService.pdp_context_ d) (DataService.looper d) (NetworkService.out s)) in
  (Ok a, NetworkService.set_io (DataService.mkService (DataService.pdp_context_ d) (DataService.looper d) [])
           (NetworkService.looper s) (DataService.out d) s).
Definition set_timezone (tz : bytes) (s : NetworkService.Service) : NetworkService.Service :=
  NetworkService.mkService (NetworkService.radio_on s) (NetworkService.operator_list_ s)
    (NetworkService.current_operator_numeric_ s) (NetworkService.oper_selection_mode_ s)
    (NetworkService.signal_strength_percent_ s) (NetworkService.voice_registration_status_ s)
    (NetworkService.data_registration_status_ s) (NetworkService.current_network_mode_ s)
    (NetworkService.preferred_network_mode_ s) (NetworkService.first_signal_strength_request_ s)
    (NetworkService.android_last_signal_time_ s) (NetworkService.nvram s) (NetworkService.data_service_ s) tz
    (NetworkService.looper s) (NetworkService.out s).
Definition on_misc {A} (f : MiscService.Service -> A * MiscService.Service) : M NetworkService.Service A := fun s =>
  let '(a, t) := f (MiscService.mkService (NetworkService.timezone_ s) (NetworkService.out s)) in
  (Ok a, net_out (MiscService.out t) (set_timezone (MiscService.timezone_ t) s)).

(** ** Dispatch *)
Definition HandleModemCommand (k : ModemServiceType) (client : Z) (command : bytes) : M Modem (bool * list Output) := fun m =>
  match k with
  | kSimService => on_world (SimService.handle (sim_env env) command) m
  | kNetworkService => on_network (NetworkService.handle (network_env m) command) m
  | kDataService => on_network (on_data (DataService.handle (NetworkService.data_env (network_env m)) command)) m
  | kCallService => on_call (CallService.handle (call_env m) client command) m
  | kSmsService => on_sms (SmsService.handle (clock env) (sms_env m) command) m
  | kSupService => on_sup (SupService.handle command) m
  | kStkService => on_stk (StkService.handle (stk_env m) command) m
  | kMiscService => on_network (on_misc (MiscService.handle (NetworkService.misc_env (network_env m)) command)) m
  end.

(** The loop over the services, to the first that takes the command. *)
Fixpoint first_service (ks : list ModemServiceType) (client : Z) (command : bytes) : M Modem (bool * list Output) :=
  match ks with
  | [] => mret (false, [])
  | k :: ks =>
      let! (success, os) := HandleModemCommand k client command in
      if success : bool then mret (true, os) else first_service ks client command
  end.

Definition DispatchCommand (client : Z) (from_remote : bool) (command : bytes) : M Modem (list Output) := fun m =>
  if SmsService.is_waiting_sms_pdu_ (sms_service_ m)
  then (let! (_, os) := on_sms (SmsService.HandleSendSMSPDU (sms_env m) command) in mret os) m
  else if SmsService.is_waiting_sms_to_sim_ (sms_service_ m)
  then (let! (_, os) := on_sms (SmsService.HandleWriteSMSPduToSim command) in mret os) m
  else
    (let! (success, os) := first_service modem_services_ client command in
     mret (if negb success && negb from_remote then [Response [kCmeErrorOperationNotSupported]] else os)) m.

Definition OnFirstClientConnected (m : Modem) : list Output * Modem :=
  let s := NetworkService.OnDataRegisterStateChanged (network_env m)
             (NetworkService.OnVoiceRegisterStateChanged (network_env m) (net_out [] (network_of m))) in
  (NetworkService.out s, set_network (net_out [] s) m).

Definition SaveModemState : M Modem unit :=
  let! _ := on_world (SimService.SaveModemState (sim_env env)) in mret tt.
Definition IsRadioOn (m : Modem) : bool := NetworkService.radio_on (network_of m).
Definition IsWaitingSmsPdu (m : Modem) : bool :=
  SmsService.is_waiting_sms_pdu_ (sms_service_ m) || SmsService.is_waiting_sms_to_sim_ (sms_service_ m).
Definition SetTimeZone (timezone : bytes) : M Modem unit :=
  let! _ := on_network (on_misc (fun s => (tt, MiscService.SetTimeZone timezone s))) in mret tt.
Definition SetPhoneNumber (number : bytes) : M Modem bool :=
  let! (ok, _) := on_world (SimService.SetPhoneNumber (sim_env env) number) in mret ok.

(** The services after their constructors and [SetupDependency]; what is sent before
    a client connects is lost.  [sim0] and the last arguments are the memory before. *)
Definition RegisterModemService (n : NetworkService.Nvram) (emergency_mode : bool) (timezone : bytes)
    (files : gmap bytes File) (operators_file : option (bytes -> option bytes)) (sim0 : SimService.Sim)
    (next_id u1 u2 u3 u4 : Z) : result Modem :=
  let network := NetworkService.InitializeServiceState (SimService.net_env (sim_env env)) n DataService.DataService_ timezone in
  match SimService.InitializeServiceState (sim_env env) (SimService.mkWorld sim0 files network) with
  | (Ok _, w) =>
      let* sim_operator := SimService.GetSimOperator (SimService.sim w) in
      Ok (mkModem (clear_world (SimService.on_net (NetworkService.InitializeSimOperator (Some sim_operator) operators_file) w))
            (CallService.CallService_ emergency_mode next_id) (SmsService.SmsService_ u1 u2) (SupService.SupService_ u3 u4)
            (StkService.mkService [] []))
  | (r, _) => fail_as r
  end.

(** The channel monitor's interface. *)
#[global] Instance modem_simulator : ChannelMonitor.Modem Modem := {
  ChannelMonitor.IsWaitingSmsPdu := IsWaitingSmsPdu;
  ChannelMonitor.DispatchCommand := DispatchCommand;
  ChannelMonitor.OnFirstClientConnected := OnFirstClientConnected
}.

(** A turn of the looper's thread that runs an event of the network service. *)
Definition network_turn (m : Modem) : Modem :=
  set_network (NetworkService.loop_turn (network_env m) (network_of m)) m.
End modem.

(** ** Which service takes a command *)
Definition key {Hd} (h : CommandHandler Hd) : bytes * MatchMode := (command_prefix h, match_mode h).
Definition matches (command : bytes) (p : bytes * MatchMode) : bool := Compare (mkHandler p.1 p.2 tt) command.
Definition commands_of (k : ModemServiceType) : list (bytes * MatchMode) :=
  match k with
  | kSimService => key <$> SimService.InitializeCommandHandlers
  | kNetworkService => key <$> NetworkService.InitializeCommandHandlers
  | kDataService => key <$> DataService.InitializeCommandHandlers
  | kCallService => key <$> CallService.InitializeCommandHandlers
  | kSmsService => key <$> SmsService.InitializeCommandHandlers
  | kSupService => key <$> SupService.InitializeCommandHandlers
  | kStkService => key <$> StkService.InitializeCommandHandlers
  | kMiscService => key <$> MiscService.InitializeCommandHandlers
  end.
Definition takes (k : ModemServiceType) (command : bytes) : bool := existsb (matches command) (commands_of k).

Lemma takes_table {Hd} (t : list (CommandHandler Hd)) command :
  existsb (matches command) (key <$> t) = match ModemCommand.HandleModemCommand t command with Some _ => true | None => false end.
Proof.
  unfold ModemCommand.HandleModemCommand. induction t as [|h t IH]; [done|]. cbn [fmap list_fmap existsb find].
  change (matches command (key h)) with (Compare h command). destruct (Compare h command); [done|exact IH].
Qed.

(** Nothing is left to send. *)
Definition quiet {X : Xml} (m : ModemSimulator) : Prop :=
  NetworkService.out (network_of m) = [] /\ DataService.out (NetworkService.data_service_ (network_of m)) = [] /\
  CallService.out (call_service_ m) = [] /\ SmsService.out (sms_service_ m) = [] /\ SupService.out (sup_service_ m) = [] /\
  StkService.out (stk_service_ m) = [].

(** Two entries of the tables that one command matches: the more specific one. *)
Definition common (p q : bytes * MatchMode) : option (bytes * MatchMode) :=
  match p, q with
  | (a, PARTIAL_MATCH), (b, PARTIAL_MATCH) =>
      if bool_decide (a `prefix_of` b) then Some q else if bool_decide (b `prefix_of` a) then Some p else None
  | (a, PARTIAL_MATCH), (b, FULL_MATCH) => if bool_decide (a `prefix_of` b) then Some q else None
  | (a, FULL_MATCH), (b, PARTIAL_MATCH) => if bool_decide (b `prefix_of` a) then Some p else None
  | (a, FULL_MATCH), (b, FULL_MATCH) => if bool_decide (a = b) then Some p else None
  end.

#[global] Instance MatchMode_eq_dec : EqDecision MatchMode.
Proof. solve_decision. Defined.

Lemma matches_line command a mode :
  matches command (a, mode) = true <->
  2 <= zlen command /\ match mode with PARTIAL_MATCH => a `prefix_of` zdrop 2 command | FULL_MATCH => zdrop 2 command = a end.
Proof.
  unfold matches, Compare. cbn [match_mode command_prefix fst snd]. destruct (Z.ltb_spec (zlen command) 2).
  { split; [done|]. intros [? _]. lia. }
  destruct mode; rewrite bool_decide_eq_true.
  - rewrite ztake_all by (rewrite zlen_zdrop; lia). split; [done|by intros [_ ?]].
  - split; [intros E|intros [_ [k Hk]]].
    + split; [done|]. exists (zdrop (zlen a) (zdrop 2 command)). rewrite <- E at 1. symmetry. apply ztake_zdrop.
    + rewrite Hk, ztake_app_le, ztake_all; [done|lia|lia].
Qed.

Lemma matches_common command p q :
  matches command p = true -> matches command q = true -> exists r, common p q = Some r /\ matches command r = true.
Proof.
  destruct p as [a ma], q as [b mb]. rewrite !matches_line. intros [H2 Ha] [_ Hb].
  assert (Hm : forall c mc, match mc with PARTIAL_MATCH => c `prefix_of` zdrop 2 command | FULL_MATCH => zdrop 2 command = c end ->
    matches command (c, mc) = true) by (intros; by apply matches_line).
  destruct ma, mb; cbn [common]; subst.
  - rewrite bool_decide_true by done. eauto.
  - rewrite bool_decide_true by done. eauto.
  - rewrite bool_decide_true by done. eauto.
  - case_bool_decide; [by eauto|]. rewrite bool_decide_true; [by eauto|].
    destruct (prefix_weak_total _ _ _ Ha Hb); [done|done].
Qed.

(** The commands two services have a handler for. *)
Definition kContested : list (bytes * MatchMode) :=
  [(str "D*99***1#", FULL_MATCH); (str "+CUSD=", PARTIAL_MATCH); (str "+CSSN=0,1", FULL_MATCH)].

Definition disjoint_but (k1 k2 : ModemServiceType) : bool :=
  forallb (fun p => forallb (fun q => match common p q with
                                      | Some r => bool_decide (r ∈ kContested) | None => true end) (commands_of k2)) (commands_of k1).
Lemma services_disjoint k1 k2 : k1 <> k2 -> disjoint_but k1 k2 = true.
Proof. destruct k1, k2; intros Hne; try done; vm_compute; reflexivity. Qed.

Lemma takes_unique k1 k2 command :
  existsb (matches command) kContested = false -> takes k1 command = true -> takes k2 command = true -> k1 = k2.
Proof.
  intros Hc (p & Hp & Hmp)%existsb_exists (q & Hq & Hmq)%existsb_exists. destruct (decide (k1 = k2)) as [|Hne]; [done|].
  pose proof (services_disjoint k1 k2 Hne) as Hd. unfold disjoint_but in Hd. rewrite forallb_forall in Hd.
  specialize (Hd p Hp). rewrite forallb_forall in Hd. specialize (Hd q Hq).
  destruct (matches_common command p q Hmp Hmq) as (r & Hr & Hmr). rewrite Hr in Hd. apply bool_decide_eq_true in Hd.
  assert (existsb (matches command) kContested = true); [|congruence].
  apply existsb_exists. exists r. split; [by apply list_elem_of_In|done].
Qed.

Section dispatch.
Context `{Absl} {X : Xml} (env : Env).

Lemma not_taken k client command m :
  quiet m -> takes k command = false -> HandleModemCommand env k client command m = (Ok (false, []), m).
Proof.
  destruct m as [[sim fs []] [] [] [] []]. unfold quiet. cbn. destruct data_service_ as [pdp l o]. cbn.
  intros (-> & -> & -> & -> & -> & ->). unfold takes, commands_of. destruct k; rewrite takes_table; cbn [HandleModemCommand].
  - unfold on_world, SimService.handle. by destruct (ModemCommand.HandleModemCommand _ _).
  - unfold on_network, NetworkService.handle. by destruct (ModemCommand.HandleModemCommand _ _).
  - unfold on_network, on_data, DataService.handle. by destruct (ModemCommand.HandleModemCommand _ _).
  - unfold on_call, CallService.handle. by destruct (ModemCommand.HandleModemCommand _ _).
  - unfold on_sms, SmsService.handle. by destruct (ModemCommand.HandleModemCommand _ _).
  - unfold on_sup, SupService.handle. by destruct (ModemCommand.HandleModemCommand _ _).
  - unfold on_stk, StkService.handle. by destruct (ModemCommand.HandleModemCommand _ _).
  - unfold on_network, on_misc, MiscService.handle. by destruct (ModemCommand.HandleModemCommand _ _).
Qed.

Lemma done_true {S A} (f : M S A) s b s' : (let! _ := f in mret true) s = (Ok b, s') -> b = true.
Proof. unfold mbind, mret. destruct (f s) as [[] ?]; cbn; congruence. Qed.

Lemma taken k client command m b os m' :
  takes k command = true -> HandleModemCommand env k client command m = (Ok (b, os), m') -> b = true.
Proof.
  unfold takes, commands_of. destruct k; rewrite takes_table; cbn [HandleModemCommand];
    unfold on_world, on_network, on_call, on_sms, on_sup, on_stk, on_data, on_misc,
      SimService.handle, NetworkService.handle, DataService.handle, CallService.handle, SmsService.handle,
      SupService.handle, StkService.handle, MiscService.handle;
    (destruct (ModemCommand.HandleModemCommand _ _) as [h|]; [|done]); intros _;
    first [ by intros [= <- <- <-] |
      match goal with |- context [match ?f ?s with _ => _ end] =>
        destruct (f s) as [[]] eqn:E; intros [= <- <- <-]; by apply done_true in E end ].
Qed.

Lemma first_service_none ks client command m :
  quiet m -> (forall k, k ∈ ks -> takes k command = false) -> first_service env ks client command m = (Ok (false, []), m).
Proof.
  intros Hq. induction ks as [|k ks IH]; intros Hn; [done|]. cbn [first_service]. unfold mbind.
  rewrite not_taken by (auto; apply Hn; left). apply IH. intros k' Hk'. apply Hn. by right.
Qed.

Lemma first_service_takes ks k client command m :
  quiet m -> k ∈ ks -> takes k command = true -> (forall k', k' ∈ ks -> takes k' command = true -> k' = k) ->
  first_service env ks client command m = HandleModemCommand env k client command m.
Proof.
  intros Hq. induction ks as [|k' ks IH]; intros Hk Ht Hu; [by apply elem_of_nil in Hk|]. cbn [first_service]. unfold mbind.
  destruct (takes k' command) eqn:E.
  - rewrite (Hu k') by (auto; left). destruct (HandleModemCommand env k client command m) as [[[b os]| | |] m'] eqn:Eh; try done.
    by rewrite (taken _ _ _ _ _ _ _ Ht Eh).
  - rewrite not_taken by done. apply elem_of_cons in Hk as [->|Hk]; [congruence|]. apply IH; [done|done|].
    intros k'' Hk''. apply Hu. by right.
Qed.

(** C16. The order in which the services are asked does not matter: for every command but
    the three that two services have a handler for (ATD*99***1#, AT+CUSD=... and
    AT+CSSN=0,1), asking the services in any order gives the same answers and the same
    state as the order of the map. *)
Theorem dispatch_order_irrelevant (ks : list ModemServiceType) (client : Z) (command : bytes) (m : ModemSimulator) :
  quiet m -> existsb (matches command) kContested = false -> ks ≡ₚ modem_services_ ->
  first_service env ks client command m = first_service env modem_services_ client command m.
Proof.
  intros Hq Hc Hp. destruct (existsb (fun k => takes k command) modem_services_) eqn:E.
  - apply existsb_exists in E as (k & Hk & Ht). apply list_elem_of_In in Hk.
    assert (Hu : forall k', takes k' command = true -> k' = k) by (intros; by eapply takes_unique).
    rewrite !(first_service_takes _ k) by (auto; by rewrite ?Hp). done.
  - assert (Hn : forall k, k ∈ modem_services_ -> takes k command = false).
    { intros k Hk. destruct (takes k command) eqn:Et; [|done]. rewrite <- E. symmetry. apply existsb_exists.
      exists k. split; [by apply list_elem_of_In|done]. }
    rewrite !first_service_none; [done|done|done|done|]. intros k. rewrite Hp. apply Hn.
Qed.

(** *** One command *)
Definition idle (m : ModemSimulator) : Prop := quiet m /\ IsWaitingSmsPdu m = false.

(** A command of one service only. *)
Lemma dispatch_to k client from_remote command m :
  idle m -> existsb (matches command) kContested = false -> takes k command = true ->
  DispatchCommand env client from_remote command m =
    match HandleModemCommand env k client command m with
    | (Ok (_, os), m') => (Ok os, m')
    | (r, m') => (fail_as r, m')
    end.
Proof.
  intros [Hq [Hw1 Hw2]%orb_false_iff] Hc Ht. unfold DispatchCommand. rewrite Hw1, Hw2. unfold mbind.
  rewrite (first_service_takes _ k); [|done|by destruct k; repeat (left || right)|done|].
  2: { intros k' _ Hk'. by eapply takes_unique. }
  destruct (HandleModemCommand env k client command m) as [[[b os]| | |] m'] eqn:Eh; try done.
  by rewrite (taken _ _ _ _ _ _ _ Ht Eh).
Qed.

(** A command no service has a handler for is refused with +CME ERROR: 4, unless it
    comes from another modem, and changes nothing. *)
Theorem unsupported_command (client : Z) (from_remote : bool) (command : bytes) (m : ModemSimulator) :
  idle m -> (forall k, takes k command = false) ->
  DispatchCommand env client from_remote command m =
    (Ok (if from_remote then [] else [Response [kCmeErrorOperationNotSupported]]), m).
Proof.
  intros [Hq [Hw1 Hw2]%orb_false_iff] Hn. unfold DispatchCommand. rewrite Hw1, Hw2. unfold mbind.
  rewrite first_service_none by auto. by destruct from_remote.
Qed.

(** *** Calls depend on the card and the network *)
Lemma takes_call n : takes kCallService (CallService.call_command n) = true.
Proof. unfold takes, commands_of. rewrite takes_table. unfold CallService.call_command. by rewrite CallService.dispatch_dial. Qed.
Lemma call_uncontested n :
  forallb is_digit n = true -> existsb (matches (CallService.call_command n)) kContested = false.
Proof.
  intros Hd. unfold CallService.call_command.
  change (str "ATD" ++ n ++ str ";") with ("A"%char :: "T"%char :: "D"%char :: (n ++ [";"%char])).
  unfold kContested, matches. cbn [existsb]. rewrite !Compare_cons. cbn [match_mode command_prefix fst snd].
  rewrite bool_decide_false; [reflexivity|]. destruct n as [|c n]; [intros E; discriminate E|].
  intros E. injection E as -> _. discriminate Hd.
Qed.

(** The call service sees the registration of the network service. *)
Lemma dispatch_call client from_remote n m s os :
  idle m -> CallService.plain_number n ->
  CallService.handle (call_env env m) client (CallService.call_command n) (call_out [] (call_service_ m)) = (Ok true, s) ->
  CallService.out s = os ->
  DispatchCommand env client from_remote (CallService.call_command n) m = (Ok os, set_call (call_out [] s) m).
Proof.
  intros Hi [Hd _] Hh <-. rewrite (dispatch_to kCallService); [|done|by apply call_uncontested|apply takes_call].
  cbn [HandleModemCommand]. unfold on_call. by rewrite Hh.
Qed.

Lemma call_allowed client from_remote n m :
  idle m -> CallService.plain_number n -> voice_state m = NetworkService.NET_REGISTRATION_HOME ->
  SimService.IsFDNEnabled (sim_of m) = false ->
  exists i c m', DispatchCommand env client from_remote (CallService.call_command n) m = (Ok [Response [str "OK"]], m') /\
    CallService.number c = n /\ CallService.call_state c = CallService.CALL_STATE_DIALING /\
    CallService.active_calls_ (call_service_ m') = map_set i c (CallService.active_calls_ (call_service_ m)) /\
    map_find i (CallService.active_calls_ (call_service_ m)) = None.
Proof.
  intros Hi Hn Hv Hf.
  destruct (CallService.call_placed (call_env env m) client n (call_out [] (call_service_ m))) as (i & s & Hh & Hfree & Ha & Ho);
    [cbn; by rewrite Hv|done|done|].
  exists i. eexists. eexists. split; [by eapply dispatch_call|]. cbn. rewrite Ha. split_and!; [..|reflexivity|exact Hfree]; done.
Qed.

(** *** The commands that change the registration *)
Lemma dispatch_network client from_remote command m s' os :
  idle m -> existsb (matches command) kContested = false -> takes kNetworkService command = true ->
  NetworkService.handle (network_env env m) command (net_out [] (network_of m)) = (Ok true, s') ->
  NetworkService.out s' = os -> DataService.out (NetworkService.data_service_ s') = [] ->
  DispatchCommand env client from_remote command m = (Ok os, set_network (net_out [] s') m) /\
  idle (set_network (net_out [] s') m).
Proof.
  intros Hi Hc Ht Hh Ho Hd. split.
  - rewrite (dispatch_to kNetworkService) by done. cbn [HandleModemCommand]. unfold on_network. rewrite Hh. by rewrite Ho.
  - destruct Hi as [(_ & _ & ? & ? & ? & ?) Hw]. split; [|exact Hw]. by split_and!.
Qed.

Lemma radio_on_voice e s st :
  NetworkService.sim_service_ e = Some st ->
  exists s', NetworkService.handle e (str "AT+CFUN=1") s = (Ok true, s') /\
    NetworkService.registration_state (NetworkService.voice_registration_status_ s') =
      (if bool_decide (st = NetworkService.SIM_STATUS_READY) then NetworkService.NET_REGISTRATION_HOME
       else NetworkService.NET_REGISTRATION_EMERGENCY) /\
    NetworkService.data_service_ s' = NetworkService.data_service_ s.
Proof.
  intros Hs. eexists. split.
  - unfold NetworkService.handle.
    change (ModemCommand.HandleModemCommand NetworkService.InitializeCommandHandlers (str "AT+CFUN=1"))
      with (Some NetworkService.HRadioPower). cbn [NetworkService.run_handler]. reflexivity.
  - unfold NetworkService.HandleRadioPower. change (GetNextInt (SkipPrefix (str "AT+CFUN=1"))).1 with 1. cbn [Z.eqb Pos.eqb].
    rewrite Hs. unfold NetworkService.OnSimStatusChanged. cbn [NetworkService.radio_on NetworkService.set_radio negb].
    case_bool_decide; by split.
Qed.

(** A phone whose card is not ready can make emergency calls only: after the radio is
    switched on, an ordinary number is refused with +CME ERROR: 32 and no call is
    recorded. *)
Theorem locked_card_emergency_only (client : Z) (from_remote : bool) (n : bytes) (m : ModemSimulator) :
  idle m -> SimService.sim_status_ (sim_of m) <> NetworkService.SIM_STATUS_READY -> CallService.plain_number n ->
  exists os m1 m2, DispatchCommand env client from_remote (str "AT+CFUN=1") m = (Ok os, m1) /\
    DispatchCommand env client from_remote (CallService.call_command n) m1 =
      (Ok [Response [kCmeErrorNetworkNotAllowedEmergencyCallsOnly]], m2) /\
    CallService.active_calls_ (call_service_ m2) = CallService.active_calls_ (call_service_ m).
Proof.
  intros Hi Hst Hn.
  destruct (radio_on_voice (network_env env m) (net_out [] (network_of m)) (SimService.sim_status_ (sim_of m)) eq_refl)
    as (s & Hh & Hv & Hd). rewrite bool_decide_false in Hv by done.
  destruct (dispatch_network client from_remote (str "AT+CFUN=1") m s _ Hi eq_refl eq_refl Hh eq_refl) as [H1 Hi1];
    [rewrite Hd; by destruct Hi as [(_ & ? & _) _]|].
  eexists _, _, _. split; [exact H1|]. split.
  - eapply dispatch_call; [done|done| |].
    + apply CallService.call_refused; [|done]. cbn. unfold voice_state, network_of. cbn. by rewrite Hv.
    + reflexivity.
  - done.
Qed.

Lemma cpin_uncontested r : existsb (matches (str "AT+CPIN=" ++ r)) kContested = false.
Proof.
  change (str "AT+CPIN=" ++ r) with ("A"%char :: "T"%char :: str "+CPIN=" ++ r).
  unfold kContested, matches. cbn [existsb]. rewrite !Compare_cons. cbn [match_mode command_prefix fst snd].
  rewrite !bool_decide_false; [done|intros E; discriminate E..].
Qed.

Lemma right_pin_voice e w :
  SimService.sim_status_ (SimService.sim w) = NetworkService.SIM_STATUS_PIN ->
  SimService.pin_ok (SimService.pin1_status_ (SimService.sim w)) ->
  0 < SimService.pin_remaining_times_ (SimService.pin1_status_ (SimService.sim w)) ->
  NetworkService.radio_on (SimService.network_service_ w) = true ->
  exists w', SimService.handle e (str "AT+CPIN=" ++ SimService.pin_ (SimService.pin1_status_ (SimService.sim w))) w =
      (Ok true, w') /\
    SimService.sim_status_ (SimService.sim w') = NetworkService.SIM_STATUS_READY /\
    NetworkService.registration_state (NetworkService.voice_registration_status_ (SimService.network_service_ w')) =
      NetworkService.NET_REGISTRATION_HOME /\
    SimService.facility_lock_ (SimService.sim w') = SimService.facility_lock_ (SimService.sim w) /\
    NetworkService.data_service_ (SimService.network_service_ w') = NetworkService.data_service_ (SimService.network_service_ w).
Proof.
  intros Hst Hp Hr Hradio. unfold SimService.handle. rewrite SimService.dispatch_cpin. cbn [SimService.run_handler].
  unfold mbind, modify, mret. eexists. split; [reflexivity|]. unfold SimService.HandleChangeOrEnterPIN.
  rewrite SimService.skip_cpin, Hst. unfold SimService.checkPin1AndAdjustSimStatus.
  rewrite SimService.verify_right_pin by done. cbn. unfold NetworkService.OnSimStatusChanged. by rewrite Hradio.
Qed.

(** C15. Entering the PIN gives the phone back its calls: with the radio on, after AT+CPIN=
    with the right PIN, the next ATD with an ordinary number is answered with OK and
    recorded as a dialling call, unless only fixed numbers may be dialled. *)
Theorem unlock_then_call (client : Z) (from_remote : bool) (n : bytes) (m : ModemSimulator) :
  idle m -> SimService.sim_status_ (sim_of m) = NetworkService.SIM_STATUS_PIN ->
  SimService.pin_ok (SimService.pin1_status_ (sim_of m)) ->
  0 < SimService.pin_remaining_times_ (SimService.pin1_status_ (sim_of m)) ->
  NetworkService.radio_on (network_of m) = true -> SimService.IsFDNEnabled (sim_of m) = false ->
  CallService.plain_number n ->
  exists os m1, DispatchCommand env client from_remote
      (str "AT+CPIN=" ++ SimService.pin_ (SimService.pin1_status_ (sim_of m))) m = (Ok os, m1) /\
    SimService.sim_status_ (sim_of m1) = NetworkService.SIM_STATUS_READY /\
  exists i c m2, DispatchCommand env client from_remote (CallService.call_command n) m1 = (Ok [Response [str "OK"]], m2) /\
    CallService.number c = n /\ CallService.call_state c = CallService.CALL_STATE_DIALING /\
    CallService.active_calls_ (call_service_ m2) = map_set i c (CallService.active_calls_ (call_service_ m)) /\
    map_find i (CallService.active_calls_ (call_service_ m)) = None.
Proof.
  intros Hi Hst Hp Hr Hradio Hf Hn.
  destruct (right_pin_voice (sim_env env) (clear_world (world m)) Hst Hp Hr Hradio) as (w & Hh & Hs & Hv & Hl & Hd).
  exists (world_out w), (set_world (clear_world w) m). split; [|split; [done|]].
  - rewrite (dispatch_to kSimService); [|done|apply cpin_uncontested|].
    + cbn [HandleModemCommand]. unfold on_world. change (sim_of m) with (SimService.sim (clear_world (world m))). by rewrite Hh.
    + unfold takes, commands_of. by rewrite takes_table, SimService.dispatch_cpin.
  - apply (call_allowed client from_remote n (set_world (clear_world w) m)); [|done|done|].
    + destruct Hi as [(? & ? & ? & ? & ? & ?) Hw]. split; [|exact Hw]. split_and!; try done.
      change (DataService.out (NetworkService.data_service_ (SimService.network_service_ w)) = []). by rewrite Hd.
    + unfold SimService.IsFDNEnabled, SimService.lock_status in *.
      change (SimService.facility_lock_ (sim_of (set_world (clear_world w) m))) with (SimService.facility_lock_ (SimService.sim w)).
      by rewrite Hl.
Qed.

(** Selecting the operator automatically registers the phone whatever the card says:
    after AT+COPS=0, with a locked, blocked or missing card and even with the radio off,
    an ordinary call is accepted. *)
Theorem operator_selection_ignores_card (client : Z) (from_remote : bool) (n : bytes) (m : ModemSimulator) :
  idle m -> SimService.sim_status_ (sim_of m) <> NetworkService.SIM_STATUS_READY ->
  NetworkService.radio_on (network_of m) = false ->
  NetworkService.operator_list_ (network_of m) <> [] -> SimService.IsFDNEnabled (sim_of m) = false ->
  CallService.plain_number n ->
  exists os m1, DispatchCommand env client from_remote (str "AT+COPS=0") m = (Ok os, m1) /\
    SimService.sim_status_ (sim_of m1) <> NetworkService.SIM_STATUS_READY /\
    NetworkService.radio_on (network_of m1) = false /\
  exists i c m2, DispatchCommand env client from_remote (CallService.call_command n) m1 = (Ok [Response [str "OK"]], m2) /\
    CallService.number c = n /\ CallService.call_state c = CallService.CALL_STATE_DIALING /\
    CallService.active_calls_ (call_service_ m2) = map_set i c (CallService.active_calls_ (call_service_ m)) /\
    map_find i (CallService.active_calls_ (call_service_ m)) = None.
Proof.
  intros Hi Hst Hradio Hl Hf Hn. destruct (NetworkService.operator_list_ (network_of m)) as [|o l] eqn:El; [done|].
  eexists _, _. edestruct (dispatch_network client from_remote (str "AT+COPS=0") m) as [H1 Hi1];
    [done|reflexivity|reflexivity| |reflexivity| |split; [exact H1|]].
  - unfold NetworkService.handle.
    change (ModemCommand.HandleModemCommand NetworkService.InitializeCommandHandlers (str "AT+COPS=0"))
      with (Some NetworkService.HSetNetworkSelectionMode). cbn [NetworkService.run_handler].
    unfold NetworkService.HandleSetNetworkSelectionMode.
    change (GetNextInt (SkipPrefix (str "AT+COPS=0"))) with (0, @nil ascii). cbv beta iota.
    rewrite bool_decide_true by compute_done. unfold NetworkService.select_mode, mbind, get, modify, mret.
    cbn [Z.eqb NetworkService.OPER_SELECTION_AUTOMATIC].
    change (NetworkService.operator_list_ (net_out [] (network_of m))) with (NetworkService.operator_list_ (network_of m)).
    rewrite El. reflexivity.
  - destruct Hi as [(_ & ? & _) _]. done.
  - split; [done|]. split; [done|].
    match goal with |- context [DispatchCommand _ _ _ _ ?m1 = _] => by apply (call_allowed client from_remote n m1) end.
Qed.
End dispatch.

(** ** A modem with a locked card *)
Definition test_env : Env := mkEnv (SimService.test_env 0) SmsService.noon (fun _ => true) 6520 0 false.
Definition locked_modem : ModemSimulator :=
  default (mkModem SimService.locked_card (CallService.CallService_ false 0) (SmsService.SmsService_ 0 0)
             (SupService.SupService_ 0 0) (StkService.mkService [] []))
    (match RegisterModemService test_env NetworkService.InitDefaultNvramConfig false []
             (SimService.files SimService.locked_card) None SimService.uninit 0 0 0 0 0 with
     | Ok m => Some m | _ => None end).
Lemma locked_idle : idle locked_modem.
Proof. vm_compute. by repeat split. Qed.
Definition radio_modem : ModemSimulator := (DispatchCommand test_env 0 false (str "AT+CFUN=1") locked_modem).2.
Lemma radio_idle : idle radio_modem.
Proof. vm_compute. by repeat split. Qed.
Lemma plain_5551234 : CallService.plain_number (str "5551234").
Proof. by vm_compute. Qed.

Lemma dispatch_order_irrelevant_witness :
  first_service test_env (rev modem_services_) 0 (str "AT+CGSN") locked_modem =
  first_service test_env modem_services_ 0 (str "AT+CGSN") locked_modem.
Proof.
  apply (dispatch_order_irrelevant test_env); [exact (proj1 locked_idle)|reflexivity|].
  symmetry. apply Permutation_rev.
Defined.

Lemma unsupported_command_witness :
  DispatchCommand test_env 0 false (str "AT+NOSUCH") locked_modem =
    (Ok [Response [str "+CME ERROR: 4"]], locked_modem).
Proof. apply (unsupported_command test_env 0 false); [exact locked_idle|]. intros k. by destruct k. Defined.

Lemma locked_card_emergency_only_witness :
  exists os m1 m2, DispatchCommand test_env 0 false (str "AT+CFUN=1") locked_modem = (Ok os, m1) /\
    DispatchCommand test_env 0 false (str "ATD5551234;") m1 =
      (Ok [Response [kCmeErrorNetworkNotAllowedEmergencyCallsOnly]], m2).
Proof.
  destruct (locked_card_emergency_only test_env 0 false (str "5551234") locked_modem) as (os & m1 & m2 & H1 & H2 & _).
  - exact locked_idle.
  - vm_compute. discriminate.
  - exact plain_5551234.
  - exists os, m1, m2. exact (conj H1 H2).
Defined.

Lemma unlock_then_call_witness :
  exists os m1, DispatchCommand test_env 0 false (str "AT+CPIN=4321") radio_modem = (Ok os, m1) /\
    exists m2, DispatchCommand test_env 0 false (str "ATD5551234;") m1 = (Ok [Response [str "OK"]], m2).
Proof.
  destruct (unlock_then_call test_env 0 false (str "5551234") radio_modem) as (os & m1 & H1 & _ & i & c & m2 & H2 & _).
  - exact radio_idle.
  - vm_compute. reflexivity.
  - unfold SimService.pin_ok. repeat split; vm_compute; first [reflexivity | discriminate].
  - vm_compute. reflexivity.
  - vm_compute. reflexivity.
  - vm_compute. reflexivity.
  - exact plain_5551234.
  - exists os, m1. refine (conj _ (ex_intro _ m2 H2)). exact H1.
Defined.

Lemma operator_selection_ignores_card_witness :
  exists os m1, DispatchCommand test_env 0 false (str "AT+COPS=0") locked_modem = (Ok os, m1) /\
    exists m2, DispatchCommand test_env 0 false (str "ATD5551234;") m1 = (Ok [Response [str "OK"]], m2).
Proof.
  destruct (operator_selection_ignores_card test_env 0 false (str "5551234") locked_modem)
    as (os & m1 & H1 & _ & _ & i & c & m2 & H2 & _).
  - exact locked_idle.
  - vm_compute. discriminate.
  - vm_compute. reflexivity.
  - vm_compute. discriminate.
  - vm_compute. reflexivity.
  - exact plain_5551234.
  - exists os, m1. exact (conj H1 (ex_intro _ m2 H2)).
Defined.
End ModemSimulator.
