(* ===== verification/Chroot.v ===== *)
(** * Filesystems below a directory (io/filesystem.h, io/chroot.cc)

    A filesystem that passes every call to another one, with the path resolved
    below a prefix.  The other one is known by the interface [ReadWriteFilesystem];
    [InMemory] is one. *)
From S2P Require Import Prelude CppString IO InMemory.

Module Chroot.
Import CppString InMemory.

Class ReadWriteFilesystem (F H : Type) := {
  OpenReadOnly : bytes -> M F H;
  FileAttributes : bytes -> M F Z;
  CreateFile : bytes -> M F H;
  DeleteFile : bytes -> M F unit;
  OpenReadWrite : bytes -> M F H
}.

(** The calls, as data. *)
Inductive Call := COpenReadOnly | CFileAttributes | CCreateFile | CDeleteFile | COpenReadWrite.
Definition call `{ReadWriteFilesystem F H} (c : Call) (path : bytes) (fs : F) : F :=
  match c with
  | COpenReadOnly => (OpenReadOnly path fs).2
  | CFileAttributes => (FileAttributes path fs).2
  | CCreateFile => (CreateFile path fs).2
  | CDeleteFile => (DeleteFile path fs).2
  | COpenReadWrite => (OpenReadWrite path fs).2
  end.

(** What a filesystem promises: a call concerns the file it names. *)
Class FilesystemLaws (F H : Type) `{ReadWriteFilesystem F H} := {
  fs_ok : F -> Prop;
  content : F -> bytes -> option bytes;
  call_ok c path fs : fs_ok fs -> fs_ok (call c path fs);
  call_frame c path fs other : fs_ok fs -> other <> path -> content (call c path fs) other = content fs other
}.

#[global] Instance in_memory : ReadWriteFilesystem Fs Handle := {
  OpenReadOnly := InMemory.OpenReadOnly;
  FileAttributes := InMemory.FileAttributes;
  CreateFile := InMemory.CreateFile;
  DeleteFile := InMemory.DeleteFile;
  OpenReadWrite := InMemory.OpenReadWrite
}.
#[global] Instance in_memory_laws : FilesystemLaws Fs Handle.
Proof.
  refine {| fs_ok := fs_wf; content := fun fs p => l ← files_ fs !! p; heap fs !! l |}.
  - intros [] path fs Hf; cbn [call].
    + unfold OpenReadOnly, in_memory, InMemory.OpenReadOnly, InMemory.OpenReadWrite. by destruct (files_ fs !! path).
    + done.
    + by apply CreateFile_wf.
    + by apply DeleteFile_wf.
    + unfold OpenReadWrite, in_memory, InMemory.OpenReadWrite. by destruct (files_ fs !! path).
  - intros [] path fs other (Hl & Hn & Hi) Hne; cbn [call].
    + unfold OpenReadOnly, in_memory, InMemory.OpenReadOnly, InMemory.OpenReadWrite. by destruct (files_ fs !! path).
    + done.
    + unfold CreateFile, in_memory, InMemory.CreateFile. destruct (files_ fs !! path); [done|]. cbn.
      rewrite lookup_insert_ne by done. destruct (files_ fs !! other) as [l|] eqn:E; [|done]. cbn.
      apply lookup_insert_ne. intros <-. specialize (Hn _ (Hl _ _ E)). lia.
    + unfold DeleteFile, in_memory, InMemory.DeleteFile. destruct (files_ fs !! path) as [l|] eqn:E; [|done]. cbn.
      rewrite lookup_delete_ne by done. destruct (files_ fs !! other) as [k|] eqn:E2; [|done]. cbn.
      apply lookup_delete_ne. intros <-. by apply Hne, (Hi other path l).
    + unfold OpenReadWrite, in_memory, InMemory.OpenReadWrite. by destruct (files_ fs !! path).
Defined.

(** ** Resolving a path *)
Section chroot.
Context `{Absl}.

(** The loop over the members: [before] are those the iterator has passed, the last
    one first. *)
Fixpoint resolve (before members : list bytes) : list bytes :=
  match members with
  | [] => rev before
  | x :: members =>
      if bool_decide (x = str ".") then resolve before members
      else if bool_decide (x = str "..") then resolve (tail before) members
      else resolve (x :: before) members
  end.

(** [absl::StrSplit(path, '/', absl::SkipEmpty())]. *)
Definition members_of (path : bytes) : list bytes := base.filter (fun p => p <> []) (StrSplit path "/"%char).

Definition ChrootToRealPath (path_prefix_ path : bytes) : result bytes :=
  let* _ := expect (StartsWith path (str "/")) "not absolute" in
  Ok (path_prefix_ ++ str "/" ++ StrJoin (resolve [] (members_of path)) (str "/")).

(** ** The filesystem below a prefix *)
Definition ChrootReadWriteFilesystem {F Hd} `{ReadWriteFilesystem F Hd} (path_prefix_ : bytes) : ReadWriteFilesystem F Hd := {|
  OpenReadOnly path := let! real_path := lift (ChrootToRealPath path_prefix_ path) in OpenReadOnly real_path;
  FileAttributes path := let! real_path := lift (ChrootToRealPath path_prefix_ path) in FileAttributes real_path;
  CreateFile path := let! real_path := lift (ChrootToRealPath path_prefix_ path) in CreateFile real_path;
  DeleteFile path := let! real_path := lift (ChrootToRealPath path_prefix_ path) in DeleteFile real_path;
  OpenReadWrite path := let! real_path := lift (ChrootToRealPath path_prefix_ path) in OpenReadWrite real_path
|}.

(** ** Resolved paths *)
Definition proper_name (p : bytes) : Prop := p <> [] /\ ("/"%char ∉ p) /\ p <> str "." /\ p <> str "..".

Lemma resolve_proper before members :
  Forall proper_name before -> Forall (fun p => p <> [] /\ ("/"%char ∉ p)) members -> Forall proper_name (resolve before members).
Proof.
  intros Hb Hm. revert before Hb. induction Hm as [|x members [Hx1 Hx2] Hm IH]; intros before Hb; cbn [resolve].
  - by apply Forall_rev.
  - case_bool_decide; [auto|]. case_bool_decide; [apply IH; by destruct Hb|]. apply IH. by constructor.
Qed.
Lemma members_names path : Forall (fun p => p <> [] /\ ("/"%char ∉ p)) (members_of path).
Proof.
  apply Forall_forall. intros p [Hne Hp]%list_elem_of_filter. split; [done|].
  pose proof (StrSplit_pieces "/"%char path) as Hf. rewrite Forall_forall in Hf. auto.
Qed.

(** Names are resolved to themselves. *)
Lemma resolve_names before members :
  Forall proper_name members -> resolve before members = rev before ++ members.
Proof.
  intros Hm. revert before. induction Hm as [|x members (H1 & H2 & H3 & H4) Hm IH]; intros before; cbn [resolve].
  - by rewrite app_nil_r.
  - rewrite !bool_decide_false by done. rewrite IH. cbn [rev]. by rewrite <- app_assoc.
Qed.
Lemma resolve_app before a b : resolve before (a ++ b) = resolve (rev (resolve before a)) b.
Proof.
  revert before. induction a as [|x a IH]; intros before; cbn [app resolve]; [by rewrite rev_involutive|].
  repeat case_bool_decide; apply IH.
Qed.

Lemma split_on_cons_app c a b : split_on c (a ++ c :: b) = split_on c a ++ split_on c b.
Proof.
  induction a as [|x a IH]; cbn [app split_on]; [by rewrite bool_decide_true|]. rewrite IH.
  case_bool_decide; [done|]. pose proof (split_on_nonempty c a). by destruct (split_on c a).
Qed.
Lemma members_app a b : members_of (a ++ str "/" ++ b) = members_of a ++ members_of b.
Proof.
  unfold members_of. rewrite !StrSplit_unique. change (str "/" ++ b) with ("/"%char :: b). by rewrite split_on_cons_app, filter_app.
Qed.
Lemma members_slash b : members_of (str "/" ++ b) = members_of b.
Proof.
  change (str "/" ++ b) with ([] ++ str "/" ++ b). rewrite members_app. unfold members_of at 1. by rewrite StrSplit_unique.
Qed.
Lemma members_join ms : Forall proper_name ms -> members_of (StrJoin ms (str "/")) = ms.
Proof.
  intros Hm. unfold members_of. rewrite StrSplit_unique, StrJoin_spec. destruct ms as [|m ms]; [done|].
  change (str "/") with ["/"%char]. rewrite split_on_join; [|done|].
  - generalize dependent (m :: ms). clear. intros l Hl. induction Hl as [|x l (Hx & _) Hl IH]; [done|].
    rewrite filter_cons_True by done. by rewrite IH.
  - eapply Forall_impl; [exact Hm|]. by intros x (_ & ? & _).
Qed.

Lemma real_path_names prefix path r :
  ChrootToRealPath prefix path = Ok r ->
  r = prefix ++ str "/" ++ StrJoin (resolve [] (members_of path)) (str "/") /\ Forall proper_name (resolve [] (members_of path)).
Proof.
  unfold ChrootToRealPath. destruct (StartsWith path _); [|done]. intros [= <-]. split; [done|].
  apply resolve_proper; [constructor|apply members_names].
Qed.

(** The paths below a prefix, with names only. *)
Definition inside (prefix path : bytes) : Prop :=
  exists names, Forall proper_name names /\ path = prefix ++ str "/" ++ StrJoin names (str "/").

(** Calls through the chroot, in order. *)
Definition run_calls `{ReadWriteFilesystem F Hd} (prefix : bytes) (cs : list (Call * bytes)) (fs : F) : F :=
  foldl (fun fs '(c, path) => @call F Hd (ChrootReadWriteFilesystem prefix) c path fs) fs cs.

Lemma chroot_call `{ReadWriteFilesystem F Hd} prefix c path (fs : F) :
  @call F Hd (ChrootReadWriteFilesystem prefix) c path fs =
    match ChrootToRealPath prefix path with Ok r => call c r fs | _ => fs end.
Proof. destruct c; cbn; unfold mbind, lift; by destruct (ChrootToRealPath prefix path). Qed.

Lemma run_calls_cons `{ReadWriteFilesystem F Hd} prefix c path cs (fs : F) :
  run_calls prefix ((c, path) :: cs) fs =
  run_calls prefix cs (match ChrootToRealPath prefix path with Ok r => call c r fs | _ => fs end).
Proof. rewrite <- chroot_call. reflexivity. Qed.


Lemma StrJoin_app a b : a <> [] -> b <> [] -> StrJoin (a ++ b) (str "/") = StrJoin a (str "/") ++ str "/" ++ StrJoin b (str "/").
Proof.
  intros Ha Hb. rewrite !StrJoin_spec. induction a as [|x a IH]; [done|]. cbn [app]. destruct a as [|y a].
  - by rewrite join_cons.
  - rewrite !join_cons, IH by (done || by destruct b). by rewrite <- !app_assoc.
Qed.
Lemma StartsWith_app a b : StartsWith a (str "/") = true -> StartsWith (a ++ b) (str "/") = true.
Proof. rewrite !StartsWith_spec. by destruct a. Qed.

(** A chroot of a chroot is the chroot of the directory that the inner prefix names in
    the outer one: for paths that do not name the root, resolving twice is resolving
    once. *)
Theorem chroot_nested (outer inner path : bytes) :
  resolve [] (members_of inner) <> [] -> resolve [] (members_of path) <> [] -> StartsWith inner (str "/") = true ->
  rbind (ChrootToRealPath inner path) (ChrootToRealPath outer) =
  rbind (ChrootToRealPath outer inner) (fun prefix => ChrootToRealPath prefix path).
Proof.
  intros Hi Hp Hs. unfold ChrootToRealPath. rewrite Hs. cbn [expect rbind]. destruct (StartsWith path (str "/")); [|done].
  cbn [expect rbind]. rewrite StartsWith_app by done. cbn [expect rbind].
  assert (Hn : Forall proper_name (resolve [] (members_of path))) by (apply resolve_proper; [constructor|apply members_names]).
  rewrite members_app, members_join, resolve_app by done. rewrite resolve_names by done. rewrite rev_involutive.
  rewrite StrJoin_app by done. by rewrite <- !app_assoc.
Qed.

(** A resolved path is its own canonical form: resolving the names it consists of gives
    the same file, and a path that is not absolute is refused. *)
Theorem chroot_canonical (prefix path : bytes) :
  match ChrootToRealPath prefix path with
  | Ok r => exists names, Forall proper_name names /\ r = prefix ++ str "/" ++ StrJoin names (str "/") /\
              ChrootToRealPath prefix (str "/" ++ StrJoin names (str "/")) = Ok r
  | _ => StartsWith path (str "/") = false
  end.
Proof.
  destruct (ChrootToRealPath prefix path) as [r| | |] eqn:E.
  - destruct (real_path_names _ _ _ E) as [-> Hn]. eexists. split; [exact Hn|]. split; [done|].
    unfold ChrootToRealPath. rewrite (StartsWith_app (str "/")) by by rewrite StartsWith_spec. cbn [expect rbind].
    rewrite members_slash, members_join by done. by rewrite resolve_names.
  - unfold ChrootToRealPath in E. by destruct (StartsWith path (str "/")).
  - unfold ChrootToRealPath in E. by destruct (StartsWith path (str "/")).
  - unfold ChrootToRealPath in E. by destruct (StartsWith path (str "/")).
Qed.
End chroot.

(** ** Examples *)
Definition victim : Fs := (InMemory.CreateFile (str "/etc/passwd") InMemoryFilesystem).2.
Definition attack : list (Call * bytes) :=
  [(CDeleteFile, str "/../etc/passwd"); (CDeleteFile, str "/a/../../../etc/passwd"); (CCreateFile, str "//.././x")].
Lemma not_inside : ~ inside (str "/jail") (str "/etc/passwd").
Proof. intros (names & _ & E). discriminate E. Qed.


Lemma chroot_nested_witness :
  ChrootToRealPath (str "/jail") (str "/home/user/b/c") =
  ChrootToRealPath (str "/jail/home/user") (str "/a/../b/c").
Proof.
  refine (chroot_nested (str "/jail") (str "/home/./user") (str "/a/../b/c") _ _ _);
    [vm_compute; discriminate|vm_compute; discriminate|vm_compute; reflexivity].
Defined.
End Chroot.
