(* ===== verification/SharedBuf.v ===== *)
(** * Whole buffers over descriptors (common/libs/fs/shared_buf.{h,cc})

    The loops that read or write until a buffer is full, over any reader or writer;
    their result is a count, -1 for an error.  [Pipe] is a pipe whose reads may return
    less than asked. *)
From S2P Require Import Prelude IO.

Module SharedBuf.
Import IO.

Section read.
Context {R : Type} `{Reader R}.

(** The count and what is in the buffer. *)
Definition ReadExact (size : Z) : M R (Z * bytes) := fun r =>
  while_ (fun '(r, total_read, buf) =>
    match Read (u64 (size - total_read)) r with
    | (Ok bs, r) =>
        if zlen bs =? 0 then inr (Ok (total_read, buf), r)
        else let total_read := u64 (total_read + zlen bs) in
             if total_read <? size then inl (r, total_read, buf ++ bs)
             else inr (Ok (total_read, buf ++ bs), r)
    | (Err _, r) => inr (Ok (-1, buf), r)
    | (fl, r) => inr (fail_as fl, r)
    end) (Fuel, r) (r, 0, []).
End read.

Section write.
Context {W : Type} `{Writer W}.

Definition WriteAll (buf : bytes) : M W Z := fun w =>
  while_ (fun '(w, total_written) =>
    match Write (zdrop total_written buf) w with
    | (Ok n, w) =>
        if n =? 0 then inr (Ok total_written, w)
        else let total_written := u64 (total_written + n) in
             if total_written <? zlen buf then inl (w, total_written) else inr (Ok total_written, w)
    | (Err _, w) => inr (Ok (-1), w)
    | (fl, w) => inr (fail_as fl, w)
    end) (Fuel, w) (w, 0).
End write.

(** ** Against the laws *)
Lemma ReadExact_count_spec {R} `{ReadLaws R} r size :
  read_ok r -> is_u64 size ->
  exists r', ReadExact size r = (Ok (zlen (ztake size (remaining r)), ztake size (remaining r)), r') /\ read_ok r' /\
    remaining r' = zdrop size (remaining r).
Proof.
  intros Hok Hsize. pose proof (remaining_size r Hok) as Hlen. unfold ReadExact.
  apply while_rule with
    (I := fun '(r1, n, buf) => read_ok r1 /\ remaining r = buf ++ remaining r1 /\ n = zlen buf /\ 0 <= n <= size)
    (m := fun '(r1, n, buf) => size - n)
    (Q := fun t => exists r', t = (Ok (zlen (ztake size (remaining r)), ztake size (remaining r)), r') /\ read_ok r' /\
       remaining r' = zdrop size (remaining r)).
  - unfold is_u64 in *. split_and!; [done..|lia|lia].
  - unfold is_u64 in *. lia.
  - intros [[r1 n] buf] (Hr1 & Hrem & Hn & Hsz) _. unfold is_u64 in *. pose proof (zlen_nonneg (remaining r1)).
    rewrite u64_id by (unfold is_u64; lia).
    destruct (read_spec r1 (size - n)) as (bs & r2 & -> & Hr2 & Hrem2 & Hlenb & Hne); [done|unfold is_u64; lia|].
    pose proof (zlen_nonneg bs). assert (Hlr : zlen (remaining r) = zlen buf + zlen bs + zlen (remaining r2)).
    { rewrite Hrem, Hrem2, !zlen_app. lia. } pose proof (zlen_nonneg (remaining r2)).
    destruct (Z.eqb_spec (zlen bs) 0) as [E|E].
    + apply zlen_0_nil in E as ->. exists r2. cbn in Hrem2.
      assert (Hd : n = size \/ remaining r1 = []).
      { destruct (decide (n = size)); [by left|right]. destruct (remaining r1); [done|]. exfalso. apply Hne; [lia|done|done]. }
      destruct Hd as [->|Hnil].
      * rewrite Hrem, ztake_app_le, ztake_all, zdrop_app_ge by lia. replace (size - zlen buf) with 0 by lia. rewrite zdrop_0 by lia.
        split_and!; [by rewrite <- Hn|done|by symmetry].
      * rewrite Hrem, Hnil, app_nil_r, ztake_all, zdrop_all by lia. split_and!; [by rewrite Hn|done|by rewrite <- Hrem2].
    + rewrite u64_id by (unfold is_u64; lia). destruct (Z.ltb_spec (n + zlen bs) size).
      * split; [|lia]. rewrite zlen_app. split_and!; [done|by rewrite Hrem, Hrem2, app_assoc|lia|lia|lia].
      * exists r2. assert (Hs : size = zlen (buf ++ bs)) by (rewrite zlen_app; lia).
        rewrite Hrem, Hrem2, app_assoc, Hs. rewrite ztake_app_le, ztake_all, zdrop_app_ge, Z.sub_diag, zdrop_0 by lia.
        split_and!; [by rewrite Hn, zlen_app|done|done].
Qed.

Lemma WriteAll_spec {W} `{WriteLaws W} w room buf :
  write_ok w room -> zlen buf <= room -> zlen buf < 2 ^ 64 ->
  exists w', WriteAll buf w = (Ok (zlen buf), w') /\ write_ok w' (room - zlen buf) /\ written w' = written w ++ buf.
Proof.
  intros Hok Hroom Hlen. unfold WriteAll. pose proof (zlen_nonneg buf).
  apply while_rule with
    (I := fun '(w1, n) => 0 <= n <= zlen buf /\ write_ok w1 (room - n) /\ written w1 = written w ++ ztake n buf)
    (m := fun '(w1, n) => zlen buf - n)
    (Q := fun t => exists w', t = (Ok (zlen buf), w') /\ write_ok w' (room - zlen buf) /\ written w' = written w ++ buf).
  - rewrite Z.sub_0_r, ztake_0, app_nil_r by lia. split_and!; [lia|lia|done|done].
  - lia.
  - intros [w1 n] (Hn & Hw1 & Hwr) _.
    destruct (write_spec w1 (room - n) (zdrop n buf)) as (k & w2 & -> & Hk & Hw2 & Hwr2 & Hpos);
      [done|rewrite zlen_zdrop; lia|]. rewrite zlen_zdrop in Hk.
    assert (Hj : ztake n buf ++ ztake k (zdrop n buf) = ztake (n + k) buf).
    { rewrite <- (ztake_zdrop n buf) at 3. rewrite ztake_app, zlen_ztake.
      rewrite (ztake_all (n + k)) by (rewrite zlen_ztake; lia). f_equal. f_equal. lia. }
    destruct (Z.eqb_spec k 0) as [->|Hk0].
    + destruct (decide (n = zlen buf)) as [->|]; [|exfalso].
      * exists w2. rewrite Z.sub_0_r in Hw2. split_and!; [done|done|]. rewrite Hwr2, ztake_0, app_nil_r, Hwr, ztake_all by lia. done.
      * assert (0 < 0); [apply Hpos|lia]. intros E. assert (Ez : zlen (zdrop n buf) = 0) by (by rewrite E). rewrite zlen_zdrop in Ez. lia.
    + rewrite u64_id by (unfold is_u64; lia). replace (room - n - k) with (room - (n + k)) in Hw2 by lia.
      rewrite Hwr, <- app_assoc, Hj in Hwr2. destruct (Z.ltb_spec (n + k) (zlen buf)); [split; [split_and!; [lia|lia|done|done]|lia]|].
      assert (E : n + k = zlen buf) by lia. rewrite E in *. exists w2. split_and!; [done|done|]. by rewrite Hwr2, ztake_all by lia.
Qed.

(** ** Pipes

    A pipe whose other end is closed when its data is read; a call transfers at most
    [chunk + 1] bytes. *)
Record Pipe := mkPipe { chunk : nat; pipe_data : bytes }.
Definition piece (p : Pipe) : Z := Z.of_nat (chunk p) + 1.
#[global] Instance pipe_reader : Reader Pipe := fun count p =>
  let n := Z.min count (piece p) in (Ok (ztake n (pipe_data p)), mkPipe (chunk p) (zdrop n (pipe_data p))).
#[global] Instance pipe_writer : Writer Pipe := fun buf p =>
  let n := Z.min (zlen buf) (piece p) in (Ok n, mkPipe (chunk p) (pipe_data p ++ ztake n buf)).

#[global, refine] Instance pipe_read_laws : ReadLaws Pipe := {
  remaining := pipe_data; read_ok := fun p => zlen (pipe_data p) < 2 ^ 64
}.
Proof.
  - done.
  - intros p count Hp Hc. unfold is_u64 in Hc. unfold Read, pipe_reader. set (n := Z.min count (piece p)).
    assert (Hn : 0 <= n <= count) by (unfold n, piece; lia). eexists _, _. split; [reflexivity|]. cbn.
    split_and!; [rewrite zlen_zdrop; lia|by rewrite ztake_zdrop|rewrite zlen_ztake; lia|].
    intros Hpos Hne E. apply Hne, zlen_0_nil. assert (Ez : zlen (ztake n (pipe_data p)) = 0) by (by rewrite E).
    rewrite zlen_ztake in Ez. pose proof (zlen_nonneg (pipe_data p)). assert (0 < n) by (unfold n, piece; lia). lia.
Defined.
#[global, refine] Instance pipe_write_laws : WriteLaws Pipe := {
  written := pipe_data; write_ok := fun _ room => 0 <= room
}.
Proof.
  intros p room buf Hr Hb. unfold Write, pipe_writer. set (n := Z.min (zlen buf) (piece p)).
  pose proof (zlen_nonneg buf). assert (Hn : 0 <= n <= zlen buf) by (unfold n, piece; lia).
  eexists _, _. split; [reflexivity|]. split_and!; [lia|lia|lia|done|].
  intros Hne. assert (zlen buf <> 0) by (intros E; by apply Hne, zlen_0_nil). unfold n, piece. lia.
Defined.
End SharedBuf.
