(* ===== verification/Lz4.v ===== *)
(** * LZ4 legacy frames (io/lz4_legacy.{h,cc})

    A reader and a writer over any other reader and writer.  The codec is a library,
    known by the class [Lz4] with what its manual promises; [stored] is an instance that
    does not compress. *)
From S2P Require Import Prelude IO SharedBuf.

Module Lz4.
Import IO.

Definition kLz4LegacyFrameMagic : Z := 407642370. (* 0x184C2102 *)
Definition kLz4LegacyFrameBlockSize : Z := Z.shiftl 8 20.

(** [LZ4_decompress_safe] returns a size, negative for an error, and leaves a buffer of
    the given capacity; [LZ4_compress_default] returns what it wrote, nothing for an
    error. *)
Class Lz4 := {
  LZ4_compressBound : Z -> Z;
  LZ4_compress_default : bytes -> Z -> bytes;
  LZ4_decompress_safe : bytes -> Z -> Z -> Z * bytes;
  compress_size data cap : zlen (LZ4_compress_default data cap) <= Z.max 0 cap;
  compressBound_size n : 0 < n <= kLz4LegacyFrameBlockSize -> LZ4_compressBound n < 2 ^ 31;
  compress_ok data : 0 < zlen data <= kLz4LegacyFrameBlockSize ->
    LZ4_compress_default data (LZ4_compressBound (zlen data)) <> [];
  decompress_compress data cap : 0 < zlen data <= cap -> zlen data <= kLz4LegacyFrameBlockSize ->
    let c := LZ4_compress_default data (LZ4_compressBound (zlen data)) in
    exists rest, LZ4_decompress_safe c (zlen c) cap = (zlen data, data ++ rest)
}.

Section lz4.
Context `{Lz4}.

(** ** Reading *)
Record Lz4LegacyReaderImpl (R : Type) := mkReader { source_ : R; decompressed_ : bytes }.
Arguments mkReader {R}. Arguments source_ {R}. Arguments decompressed_ {R}.

Definition take_decompressed {R} (count : Z) (s : Lz4LegacyReaderImpl R) : result bytes * Lz4LegacyReaderImpl R :=
  let len := Z.min count (zlen (decompressed_ s)) in
  (Ok (ztake len (decompressed_ s)), mkReader (source_ s) (zdrop len (decompressed_ s))).

(** The part under [if (decompressed_.empty())]; [true] when there is more to give. *)
Definition next_block {R} `{Reader R} : M (Lz4LegacyReaderImpl R) bool := fun s =>
  match (let! first := Read 1 in
         if zlen first =? 0 then mret None else
         let! others := ReadExact 3 in
         let length := le_value (first ++ others) in
         if length =? 0 then mret None else
         let! compressed_ := ReadExact length in
         mret (Some compressed_)) (source_ s) with
  | (Ok None, source) => (Ok false, mkReader source (decompressed_ s))
  | (Ok (Some compressed_), source) =>
      let '(lz4_length, out) :=
        LZ4_decompress_safe compressed_ (as_i32 (zlen compressed_)) kLz4LegacyFrameBlockSize in
      if lz4_length <? 0 then (Err "lz4_length", mkReader source out)
      else if lz4_length =? 0 then (Ok false, mkReader source out)
      else (Ok true, mkReader source (ztake lz4_length out))
  | (fl, source) => (fail_as fl, mkReader source (decompressed_ s))
  end.

#[global] Instance lz4_reader {R} `{Reader R} : Reader (Lz4LegacyReaderImpl R) := fun count =>
  let! s := get in
  let! more := if bool_decide (decompressed_ s = []) then next_block else mret true in
  if more : bool then take_decompressed count else mret [].

Definition Lz4LegacyReader {R} `{Reader R} (source : R) : result (Lz4LegacyReaderImpl R) :=
  match ReadExact 4 source with
  | (Ok magic, source) =>
      if le_value magic =? kLz4LegacyFrameMagic then Ok (mkReader source []) else Err "magic"
  | (fl, _) => fail_as fl
  end.

(** ** Writing *)
Record Lz4LegacyWriterImpl (W : Type) := mkWriter { sink_ : W; footer_written_ : bool }.
Arguments mkWriter {W}. Arguments sink_ {W}. Arguments footer_written_ {W}.

Definition write_block {W} `{Writer W} (data : bytes) : M W unit :=
  let compressed_ := LZ4_compress_default data (LZ4_compressBound (zlen data)) in
  if 0 <? zlen compressed_ then
    let! _ := WriteExact (le_bytes 4 (zlen compressed_)) in
    WriteExact compressed_
  else lift (Err "LZ4 compression failed").

#[global] Instance lz4_writer {W} `{Writer W} : Writer (Lz4LegacyWriterImpl W) := fun buf s =>
  if footer_written_ s then (Err "Write called after LZ4 frame was closed", s) else
  let to_write := Z.min (zlen buf) kLz4LegacyFrameBlockSize in
  match (if 0 <? to_write then write_block (ztake to_write buf) else mret tt) (sink_ s) with
  | (Ok _, sink) =>
      if zlen buf <=? kLz4LegacyFrameBlockSize then
        match WriteExact (le_bytes 4 0) sink with
        | (Ok _, sink) => (Ok to_write, mkWriter sink true)
        | (fl, sink) => (fail_as fl, mkWriter sink false)
        end
      else (Ok to_write, mkWriter sink false)
  | (fl, sink) => (fail_as fl, mkWriter sink false)
  end.

Definition Lz4LegacyWriter {W} `{Writer W} (sink : W) : result (Lz4LegacyWriterImpl W) * W :=
  match WriteExact (le_bytes 4 kLz4LegacyFrameMagic) sink with
  | (Ok _, sink) => (Ok (mkWriter sink false), sink)
  | (fl, sink) => (fail_as fl, sink)
  end.

(** ** The format *)
Definition block (data : bytes) : bytes := LZ4_compress_default data (LZ4_compressBound (zlen data)).
Definition encode_block (data : bytes) : bytes := le_bytes 4 (zlen (block data)) ++ block data.
Definition encode_blocks (blocks : list bytes) : bytes := flat_map encode_block blocks.
Definition fits (data : bytes) : Prop := 0 < zlen data <= kLz4LegacyFrameBlockSize.
Definition footer (closed : bool) : bytes := if closed then le_bytes 4 0 else [].

Lemma block_size data : fits data -> 0 < zlen (block data) < 2 ^ 31.
Proof.
  intros Hf. unfold block. pose proof (compress_size data (LZ4_compressBound (zlen data))).
  pose proof (compressBound_size (zlen data) Hf). pose proof (compress_ok data Hf) as Hne.
  pose proof (zlen_nonneg (LZ4_compress_default data (LZ4_compressBound (zlen data)))).
  assert (zlen (LZ4_compress_default data (LZ4_compressBound (zlen data))) <> 0) by (intros E; by apply Hne, zlen_0_nil). lia.
Qed.

(** What the blocks hold, read off the bytes. *)
Fixpoint decode (fuel : nat) (l : bytes) : bytes :=
  match fuel with
  | O => []
  | S fuel =>
      if bool_decide (l = []) then [] else
      let length := le_value (ztake 4 l) in
      if length =? 0 then [] else
      let '(k, out) := LZ4_decompress_safe (ztake length (zdrop 4 l)) length kLz4LegacyFrameBlockSize in
      ztake k out ++ decode fuel (zdrop length (zdrop 4 l))
  end.

Lemma decode_block data : fits data ->
  exists rest, LZ4_decompress_safe (block data) (zlen (block data)) kLz4LegacyFrameBlockSize = (zlen data, data ++ rest).
Proof. intros [H0 H1]. apply decompress_compress; lia. Qed.

Lemma decode_step n data l : fits data -> decode (S n) (encode_block data ++ l) = data ++ decode n l.
Proof.
  intros Hf. pose proof (block_size data Hf) as Hb. destruct (decode_block data Hf) as [rest Hd].
  cbn [decode]. unfold encode_block. rewrite bool_decide_eq_false_2 by (by destruct (le_bytes 4 (zlen (block data))) eqn:E).
  rewrite <- app_assoc, ztake_exact, zdrop_exact by apply zlen_le_bytes. rewrite le_value_bytes by (cbn; lia).
  destruct (Z.eqb_spec (zlen (block data)) 0); [lia|]. rewrite ztake_exact, zdrop_exact by done. rewrite Hd.
  by rewrite ztake_exact.
Qed.

Lemma decode_footer n closed : decode n (footer closed) = [].
Proof. destruct n; [done|]. by destruct closed. Qed.

Lemma decode_blocks n blocks closed : Forall fits blocks -> (length blocks <= n)%nat ->
  decode n (encode_blocks blocks ++ footer closed) = concat blocks.
Proof.
  intros Hf. revert n. induction Hf as [|d blocks Hd Hf IH]; intros n Hn; [apply decode_footer|].
  destruct n as [|n]; [cbn in Hn; lia|]. cbn [encode_blocks flat_map concat]. rewrite <- app_assoc, decode_step by done.
  f_equal. apply IH. cbn in Hn. lia.
Qed.

Lemma blocks_fuel blocks closed : (length blocks <= length (encode_blocks blocks ++ footer closed))%nat.
Proof.
  unfold encode_blocks. induction blocks as [|d blocks IH]; cbn [length flat_map]; [lia|]. rewrite length_app in IH.
  unfold encode_block at 1. rewrite !length_app, length_le_bytes. lia.
Qed.

(** ** Reading against the laws *)
Section reading.
Context {R : Type} `{ReadLaws R}.

Lemma read_length r h l :
  read_ok r -> remaining r = h ++ l -> zlen h = 4 ->
  exists b o r1 r2, Read 1 r = (Ok b, r1) /\ zlen b = 1 /\ ReadExact 3 r1 = (Ok o, r2) /\ b ++ o = h /\
    read_ok r2 /\ remaining r2 = l.
Proof.
  intros Hok Hrem Hh. destruct (read_spec r 1) as (b & r1 & Hr & Hok1 & Hrem1 & Hle & Hne); [done|unfold is_u64; lia|].
  assert (Hb : zlen b = 1).
  { pose proof (zlen_nonneg b). destruct (decide (zlen b = 0)) as [E|]; [|lia]. exfalso. apply Hne; [lia| |by apply zlen_0_nil].
    rewrite Hrem. by destruct h. }
  destruct (ReadExact_spec r1 3) as (r2 & Hok2 & Hx); [done|unfold is_u64; lia|].
  assert (E1 : remaining r1 = zdrop 1 h ++ l).
  { rewrite Hrem1 in Hrem. apply (f_equal (zdrop 1)) in Hrem. by rewrite zdrop_exact, zdrop_app_le in Hrem by lia. }
  assert (Hl : zlen (zdrop 1 h) = 3) by (rewrite zlen_zdrop; lia). rewrite E1, zlen_app, Hl in Hx. pose proof (zlen_nonneg l).
  destruct (Z.leb_spec 3 (3 + zlen l)); [|lia]. destruct Hx as [Hx Hrem2].
  rewrite ztake_exact in Hx by done. rewrite zdrop_exact in Hrem2 by done.
  exists b, (zdrop 1 h), r1, r2. split_and!; try done.
  rewrite <- (ztake_zdrop 1 h) at 2. f_equal. rewrite Hrem1 in Hrem. apply (f_equal (ztake 1)) in Hrem.
  by rewrite ztake_exact, ztake_app_le in Hrem by lia.
Qed.

(** A framed source: blocks, and the footer unless it has been read or is missing. *)
Definition framed (l : bytes) (blocks : list bytes) : Prop :=
  Forall fits blocks /\ exists closed, l = encode_blocks blocks ++ footer closed.

Lemma next_block_spec (s : Lz4LegacyReaderImpl R) blocks :
  read_ok (source_ s) -> framed (remaining (source_ s)) blocks -> decompressed_ s = [] ->
  exists source', read_ok source' /\
    match blocks with
    | [] => next_block s = (Ok false, mkReader source' []) /\ remaining source' = []
    | d :: blocks' => next_block s = (Ok true, mkReader source' d) /\ framed (remaining source') blocks'
    end.
Proof.
  intros Hok (Hf & closed & Hrem) Hd. unfold next_block. rewrite Hd. destruct blocks as [|d blocks]; cbn [encode_blocks flat_map app] in Hrem.
  - destruct closed; cbn [footer] in Hrem.
    + destruct (read_length (source_ s) (le_bytes 4 0) []) as (b & o & r1 & r2 & Hr & Hb & Hx & Hbo & Hok2 & Hrem2); [done|done|done|].
      exists r2. split; [done|]. split; [|done]. rewrite (mbind_run _ _ _ _ _ Hr), Hb. cbn [Z.eqb].
      rewrite (mbind_run _ _ _ _ _ Hx), Hbo. done.
    + destruct (read_spec (source_ s) 1) as (b & r1 & Hr & Hok1 & Hrem1 & _ & _); [done|unfold is_u64; lia|].
      rewrite Hrem in Hrem1. symmetry in Hrem1. apply app_eq_nil in Hrem1 as [-> Hnil].
      exists r1. split; [done|]. split; [|done]. by rewrite (mbind_run _ _ _ _ _ Hr).
  - apply Forall_cons in Hf as [Hfd Hf]. pose proof (block_size d Hfd) as Hs. destruct (decode_block d Hfd) as [rest Hdec].
    unfold encode_block in Hrem. rewrite <- !app_assoc in Hrem.
    destruct (read_length (source_ s) (le_bytes 4 (zlen (block d))) (block d ++ encode_blocks blocks ++ footer closed))
      as (b & o & r1 & r2 & Hr & Hb & Hx & Hbo & Hok2 & Hrem2); [done|exact Hrem|apply zlen_le_bytes|].
    destruct (ReadExact_spec r2 (zlen (block d))) as (r3 & Hok3 & Hy); [done|unfold is_u64; lia|].
    rewrite Hrem2, zlen_app in Hy. pose proof (zlen_nonneg (encode_blocks blocks ++ footer closed)).
    destruct (Z.leb_spec (zlen (block d)) (zlen (block d) + zlen (encode_blocks blocks ++ footer closed))); [|lia].
    destruct Hy as [Hy Hrem3]. rewrite ztake_exact in Hy by done. rewrite zdrop_exact in Hrem3 by done.
    exists r3. split; [done|]. split; [|split; [done|by exists closed]].
    rewrite (mbind_run _ _ _ _ _ Hr), Hb. cbn [Z.eqb]. rewrite (mbind_run _ _ _ _ _ Hx), Hbo, le_value_bytes by (cbn; lia).
    destruct (Z.eqb_spec (zlen (block d)) 0); [lia|]. rewrite (mbind_run _ _ _ _ _ Hy). cbn [mret].
    replace (as_i32 (zlen (block d))) with (zlen (block d)) by (unfold as_i32; rewrite Z.mod_small; lia).
    rewrite Hdec. unfold fits in Hfd. destruct (Z.ltb_spec (zlen d) 0); [lia|]. destruct (Z.eqb_spec (zlen d) 0); [lia|].
    by rewrite ztake_exact.
Qed.

Definition held (s : Lz4LegacyReaderImpl R) : bytes :=
  decompressed_ s ++ decode (length (remaining (source_ s))) (remaining (source_ s)).

Lemma held_framed s blocks : framed (remaining (source_ s)) blocks -> held s = decompressed_ s ++ concat blocks.
Proof.
  intros (Hf & closed & E). unfold held. rewrite E, decode_blocks; [done|done|apply blocks_fuel].
Qed.

#[global, refine] Instance lz4_read_laws : ReadLaws (Lz4LegacyReaderImpl R) := {
  remaining := held;
  read_ok := fun s => read_ok (source_ s) /\ (exists blocks, framed (remaining (source_ s)) blocks) /\ zlen (held s) < 2 ^ 64
}.
Proof.
  - by intros s (_ & _ & Hlen).
  - intros s count (Hok & [blocks Hfr] & Hlen) Hc. unfold is_u64 in Hc.
    assert (Htake : forall s1, read_ok (source_ s1) -> held s1 = held s ->
      (exists bl, framed (remaining (source_ s1)) bl) -> (decompressed_ s1 = [] -> held s = []) ->
      exists bs r', take_decompressed count s1 = (Ok bs, r') /\
        (read_ok (source_ r') /\ (exists bl, framed (remaining (source_ r')) bl) /\ zlen (held r') < 2 ^ 64) /\
        held s = bs ++ held r' /\ zlen bs <= count /\ (0 < count -> held s <> [] -> bs <> [])).
    { intros s1 Hok1 Hh Hfr1 Hemp. unfold take_decompressed. set (len := Z.min count (zlen (decompressed_ s1))).
      pose proof (zlen_nonneg (decompressed_ s1)). assert (Hl : 0 <= len <= count) by (unfold len; lia).
      eexists _, _. split; [reflexivity|]. assert (E : held s = ztake len (decompressed_ s1) ++ held (mkReader (source_ s1) (zdrop len (decompressed_ s1)))).
      { rewrite <- Hh. unfold held. cbn. by rewrite app_assoc, ztake_zdrop. }
      split_and!; [done|done| |exact E|rewrite zlen_ztake; lia|].
      - rewrite E, zlen_app in Hlen. pose proof (zlen_nonneg (ztake len (decompressed_ s1))). lia.
      - intros Hpos Hne Hz. assert (Hz0 : zlen (ztake len (decompressed_ s1)) = 0) by (by rewrite Hz). rewrite zlen_ztake in Hz0.
        apply Hne, Hemp, zlen_0_nil. unfold len in Hz0. lia. }
    unfold Read, lz4_reader, mbind at 1, get. destruct (bool_decide_reflect (decompressed_ s = [])) as [Hd|Hd].
    + destruct (next_block_spec s blocks Hok Hfr Hd) as (src & Hoks & Hb). unfold mbind.
      destruct blocks as [|d blocks].
      * destruct Hb as [-> Hnil]. assert (Hz : held s = []) by (by rewrite (held_framed s [] Hfr), Hd).
        exists [], (mkReader src []). split_and!; [done|done|exists []; cbn [source_]; rewrite Hnil; by split; [|exists false]| |  |change (zlen (@nil ascii)) with 0; lia|by rewrite Hz].
        -- unfold held. cbn. by rewrite Hnil.
        -- unfold held at 2. cbn. by rewrite Hnil.
      * destruct Hb as [-> Hfr']. apply Htake; [done| |by exists blocks|].
        -- rewrite (held_framed (mkReader src d) blocks Hfr'), (held_framed s _ Hfr), Hd. done.
        -- cbn. intros ->. destruct Hfr as [Hff _]. apply Forall_cons in Hff as [[Hbad _] _]. done.
    + unfold mbind, mret at 1. apply Htake; eauto. done.
Defined.

(** A frame that begins with the magic number. *)
Lemma Lz4LegacyReader_spec r blocks closed :
  read_ok r -> Forall fits blocks -> zlen (concat blocks) < 2 ^ 64 ->
  remaining r = le_bytes 4 kLz4LegacyFrameMagic ++ encode_blocks blocks ++ footer closed ->
  exists rd, Lz4LegacyReader r = Ok rd /\ read_ok rd /\ remaining rd = concat blocks.
Proof.
  intros Hok Hf Hlen Hrem. unfold Lz4LegacyReader. destruct (ReadExact_spec r 4) as (r1 & Hok1 & Hx); [done|unfold is_u64; lia|].
  rewrite Hrem, zlen_app, zlen_le_bytes in Hx. pose proof (zlen_nonneg (encode_blocks blocks ++ footer closed)).
  destruct (Z.leb_spec 4 (Z.of_nat 4 + zlen (encode_blocks blocks ++ footer closed))); [|lia]. destruct Hx as [-> Hrem1].
  rewrite ztake_exact by apply zlen_le_bytes. rewrite zdrop_exact in Hrem1 by apply zlen_le_bytes.
  rewrite le_value_bytes, Z.eqb_refl by (by vm_compute). eexists. split; [reflexivity|].
  assert (Hfr : framed (remaining (source_ (mkReader r1 []))) blocks) by (split; [done|by exists closed]).
  assert (E : held (mkReader r1 []) = concat blocks) by (by rewrite (held_framed _ blocks Hfr)).
  split; [|done]. split_and!; [done|by exists blocks|by rewrite E].
Qed.
End reading.

(** ** Writing against the laws *)
Lemma block_size_pos : 0 < kLz4LegacyFrameBlockSize.
Proof. by vm_compute. Qed.

Fixpoint chunks (fuel : nat) (l : bytes) : list bytes :=
  match fuel with
  | O => []
  | S fuel =>
      if bool_decide (l = []) then []
      else ztake kLz4LegacyFrameBlockSize l :: chunks fuel (zdrop kLz4LegacyFrameBlockSize l)
  end.
Definition body (l : bytes) : bytes := encode_blocks (chunks (length l) l) ++ footer (negb (bool_decide (l = []))).
Definition frame (data : bytes) : bytes := le_bytes 4 kLz4LegacyFrameMagic ++ body data.

Lemma length_zdrop_block (l : bytes) : l <> [] -> (length (zdrop kLz4LegacyFrameBlockSize l) < length l)%nat.
Proof.
  intros Hl. pose proof block_size_pos as Hp. pose proof (zlen_zdrop kLz4LegacyFrameBlockSize l) as Hz. unfold zlen in Hz.
  destruct l; [done|]. cbn [length] in *. lia.
Qed.

Lemma chunks_fuel n l : (length l <= n)%nat -> chunks n l = chunks (length l) l.
Proof.
  revert l. induction n as [n IH] using lt_wf_ind. intros l Hn. destruct l as [|c l]; [by destruct n|]. destruct n as [|n]; [cbn in Hn; lia|].
  cbn [length chunks]. rewrite !bool_decide_eq_false_2 by done. f_equal.
  pose proof (length_zdrop_block (c :: l) ltac:(done)) as Hd. cbn [length] in Hd, Hn.
  rewrite (IH n), (IH (length l)); [done|lia|lia|lia|lia].
Qed.

Lemma chunks_fits n l : Forall fits (chunks n l).
Proof.
  revert l. induction n as [|n IH]; intros l; cbn; [constructor|]. case_bool_decide as Hl; [constructor|].
  constructor; [|done]. pose proof block_size_pos. unfold fits. rewrite zlen_ztake.
  assert (zlen l <> 0) by (intros E; by apply Hl, zlen_0_nil). pose proof (zlen_nonneg l). lia.
Qed.

Lemma chunks_concat l : concat (chunks (length l) l) = l.
Proof.
  remember (length l) as n eqn:E. assert (Hn : (length l <= n)%nat) by lia. clear E. revert l Hn.
  induction n as [|n IH]; intros l Hn; cbn; [by destruct l; [|cbn in Hn; lia]|].
  case_bool_decide as Hl; [by subst|]. cbn. pose proof (length_zdrop_block l Hl). rewrite IH by lia. apply ztake_zdrop.
Qed.

(** A piece, and the rest: the footer if nothing is left. *)
Lemma body_step l : l <> [] ->
  body l = encode_block (ztake kLz4LegacyFrameBlockSize l) ++
    (if zlen l <=? kLz4LegacyFrameBlockSize then le_bytes 4 0 else body (zdrop kLz4LegacyFrameBlockSize l)).
Proof.
  intros Hl. unfold body at 1. rewrite bool_decide_eq_false_2 by done. cbn [negb footer].
  destruct l as [|c l]; [done|]. cbn [length chunks]. rewrite bool_decide_eq_false_2 by done. cbn [encode_blocks flat_map]. rewrite <- app_assoc. f_equal.
  pose proof (length_zdrop_block (c :: l) Hl) as Hd. cbn [length] in Hd. rewrite chunks_fuel by lia.
  destruct (Z.leb_spec (zlen (c :: l)) kLz4LegacyFrameBlockSize).
  - by rewrite zdrop_all by lia.
  - unfold body. rewrite bool_decide_eq_false_2; [done|]. intros E.
    assert (Ez : zlen (zdrop kLz4LegacyFrameBlockSize (c :: l)) = 0) by (by rewrite E). rewrite zlen_zdrop in Ez.
    pose proof block_size_pos. lia.
Qed.

Section writing.
Context {W : Type} `{WriteLaws W}.

Lemma write_block_spec w room data :
  fits data -> write_ok w room -> zlen (encode_block data) <= room ->
  exists w', write_block data w = (Ok tt, w') /\ write_ok w' (room - zlen (encode_block data)) /\
    written w' = written w ++ encode_block data.
Proof.
  intros Hf Hw Hr. pose proof (block_size data Hf) as Hb. unfold write_block. fold (block data).
  unfold encode_block in *. rewrite zlen_app, zlen_le_bytes in *.
  destruct (Z.ltb_spec 0 (zlen (block data))); [|lia].
  destruct (WriteExact_spec w room (le_bytes 4 (zlen (block data)))) as (w1 & Hx1 & Hw1 & Hwr1); [done|rewrite zlen_le_bytes; lia..|].
  rewrite zlen_le_bytes in Hw1.
  destruct (WriteExact_spec w1 (room - Z.of_nat 4) (block data)) as (w2 & Hx2 & Hw2 & Hwr2); [done|lia|lia|].
  exists w2. rewrite (mbind_run _ _ _ _ _ Hx1). split; [done|]. rewrite Hwr2, Hwr1, app_assoc.
  split; [|done]. by replace (room - (Z.of_nat 4 + zlen (block data))) with (room - Z.of_nat 4 - zlen (block data)) by lia.
Qed.

Lemma lz4_write_spec (s : Lz4LegacyWriterImpl W) room buf :
  buf <> [] -> footer_written_ s = false -> write_ok (sink_ s) room -> zlen (body buf) <= room ->
  exists sink', Write buf s = (Ok (Z.min (zlen buf) kLz4LegacyFrameBlockSize), mkWriter sink' (zlen buf <=? kLz4LegacyFrameBlockSize)) /\
    written sink' ++ (if zlen buf <=? kLz4LegacyFrameBlockSize then [] else body (zdrop kLz4LegacyFrameBlockSize buf)) =
      written (sink_ s) ++ body buf /\
    exists room', write_ok sink' room' /\
      zlen (if zlen buf <=? kLz4LegacyFrameBlockSize then [] else body (zdrop kLz4LegacyFrameBlockSize buf)) <= room'.
Proof.
  intros Hne Hf Hw Hr. pose proof block_size_pos as Hp. pose proof (zlen_nonneg buf).
  assert (zlen buf <> 0) by (intros E; by apply Hne, zlen_0_nil).
  rewrite (body_step buf Hne), zlen_app in Hr. rewrite (body_step buf Hne). set (rest := if zlen buf <=? _ then le_bytes 4 0 else _) in *.
  assert (Hpiece : ztake (Z.min (zlen buf) kLz4LegacyFrameBlockSize) buf = ztake kLz4LegacyFrameBlockSize buf).
  { destruct (Z.le_gt_cases (zlen buf) kLz4LegacyFrameBlockSize); [rewrite !ztake_all by lia|rewrite Z.min_r by lia]; done. }
  assert (Hfit : fits (ztake kLz4LegacyFrameBlockSize buf)) by (unfold fits; rewrite zlen_ztake; lia).
  pose proof (zlen_nonneg rest).
  destruct (write_block_spec (sink_ s) room _ Hfit Hw) as (w1 & Hx1 & Hw1 & Hwr1); [lia|].
  unfold Write, lz4_writer. rewrite Hf. destruct (Z.ltb_spec 0 (Z.min (zlen buf) kLz4LegacyFrameBlockSize)); [|lia].
  rewrite Hpiece, Hx1. destruct (Z.leb_spec (zlen buf) kLz4LegacyFrameBlockSize); subst rest.
  - rewrite zlen_le_bytes in Hr.
    destruct (WriteExact_spec w1 (room - zlen (encode_block (ztake kLz4LegacyFrameBlockSize buf))) (le_bytes 4 0))
      as (w2 & Hx2' & Hw2 & Hwr2); [done|rewrite zlen_le_bytes; lia..|]. rewrite Hx2'. rewrite zlen_le_bytes in Hw2.
    exists w2. split_and!; [done|by rewrite Hwr2, Hwr1, app_nil_r, <- app_assoc|]. eexists. split; [exact Hw2|]. rewrite zlen_nil. lia.
  - exists w1. split_and!; [done|by rewrite Hwr1, <- app_assoc|]. eexists. split; [exact Hw1|]. lia.
Qed.

Lemma lz4_WriteExact (s : Lz4LegacyWriterImpl W) room data :
  footer_written_ s = false -> write_ok (sink_ s) room -> zlen (body data) <= room -> zlen data < 2 ^ 64 ->
  exists s', WriteExact data s = (Ok tt, s') /\ written (sink_ s') = written (sink_ s) ++ body data.
Proof.
  intros Hf Hw Hr Hlen. unfold WriteExact. pose proof block_size_pos as Hp.
  apply while_rule with
    (I := fun '(s1, b) => (b <> [] -> footer_written_ s1 = false) /\
       written (sink_ s1) ++ body b = written (sink_ s) ++ body data /\
       exists rm, write_ok (sink_ s1) rm /\ zlen (body b) <= rm)
    (m := fun '(s1, b) => zlen b)
    (Q := fun t => exists s', t = (Ok tt, s') /\ written (sink_ s') = written (sink_ s) ++ body data).
  - split_and!; [done|done|by exists room].
  - pose proof (zlen_nonneg data). lia.
  - intros [s1 b] (Hf1 & Hb & rm & Hw1 & Hrm) _. pose proof (zlen_nonneg b). destruct (zlen b >? 0) eqn:E.
    + assert (Hne : b <> []) by (intros ->; done).
      destruct (lz4_write_spec s1 rm b) as (w2 & -> & Hwr & rm2 & Hw2 & Hrm2); [done|by apply Hf1|done|done|].
      destruct (Z.min (zlen b) kLz4LegacyFrameBlockSize >? 0) eqn:E2; [|lia].
      assert (Hz : zdrop (Z.min (zlen b) kLz4LegacyFrameBlockSize) b = zdrop kLz4LegacyFrameBlockSize b).
      { destruct (Z.le_gt_cases (zlen b) kLz4LegacyFrameBlockSize); [rewrite !zdrop_all by lia|rewrite Z.min_r by lia]; done. }
      rewrite Hz. cbn [sink_ footer_written_]. rewrite zlen_zdrop. split; [|lia].
      destruct (Z.leb_spec (zlen b) kLz4LegacyFrameBlockSize).
      * rewrite zdrop_all by lia. split_and!; [done|by rewrite <- Hb, <- Hwr|by exists rm2].
      * split_and!; [done|by rewrite Hwr|by exists rm2].
    + assert (b = []) as -> by (apply zlen_0_nil; lia). exists s1. split; [done|]. by rewrite <- Hb, app_nil_r.
Qed.
End writing.

(** C35. What is written in one call of WriteExact to a compressing writer is read back by
    the decompressing reader, for data of any size: the writer cuts it into blocks and
    closes the frame after the last one, the reader gives the same bytes and then the
    end of the data, whatever pieces the sink and the source transfer. *)
Theorem lz4_roundtrip {W R} `{WriteLaws W} `{ReadLaws R} (w : W) room data :
  written w = [] -> write_ok w room -> zlen (frame data) <= room -> zlen data < 2 ^ 64 ->
  exists s w1 s', Lz4LegacyWriter w = (Ok s, w1) /\ WriteExact data s = (Ok tt, s') /\
    forall r : R, read_ok r -> remaining r = written (sink_ s') ->
      exists rd rd', Lz4LegacyReader r = Ok rd /\ ReadToString rd = (Ok data, rd') /\ remaining rd' = [].
Proof.
  intros He Hw Hr Hlen. unfold frame in Hr. rewrite zlen_app, zlen_le_bytes in Hr. pose proof (zlen_nonneg (body data)).
  unfold Lz4LegacyWriter.
  destruct (WriteExact_spec w room (le_bytes 4 kLz4LegacyFrameMagic)) as (w1 & Hx1 & Hw1 & Hwr1); [done|rewrite zlen_le_bytes; lia..|].
  rewrite zlen_le_bytes in Hw1. rewrite He in Hwr1. cbn [app] in Hwr1.
  destruct (lz4_WriteExact (mkWriter w1 false) (room - Z.of_nat 4) data) as (s' & Hx & Hwr); [done|done|lia|done|].
  exists (mkWriter w1 false), w1, s'. rewrite Hx1. split_and!; [done|done|].
  intros r Hok Hrem. rewrite Hwr in Hrem. cbn [sink_] in Hrem. rewrite Hwr1 in Hrem.
  destruct (Lz4LegacyReader_spec r (chunks (length data) data) (negb (bool_decide (data = [])))) as (rd & Hrd & Hokd & Hremd).
  - done.
  - apply chunks_fits.
  - by rewrite chunks_concat.
  - done.
  - rewrite chunks_concat in Hremd. destruct (ReadToString_spec rd Hokd) as (rd' & Hs & _ & Hnil).
    exists rd, rd'. by rewrite Hs, Hremd.
Qed.

(** After a block that cannot be decompressed has been reported, the next read returns
    what the decompressor left in its buffer. *)
Lemma failed_block_returned {R} `{Reader R} (s s1 : Lz4LegacyReaderImpl R) count m :
  next_block s = (Err m, s1) -> decompressed_ s1 <> [] ->
  fst (Read count s1) = Ok (ztake (Z.min count (zlen (decompressed_ s1))) (decompressed_ s1)).
Proof. intros _ Hd. unfold Read, lz4_reader, mbind, get. by rewrite bool_decide_eq_false_2. Qed.
End lz4.
Arguments mkReader {R}. Arguments source_ {R}. Arguments decompressed_ {R}.
Arguments mkWriter {W}. Arguments sink_ {W}. Arguments footer_written_ {W}.

(** ** A codec *)
#[global, refine] Instance stored : Lz4 := {
  LZ4_compressBound n := n;
  LZ4_compress_default data cap := if zlen data <=? cap then data else [];
  LZ4_decompress_safe src size cap := if size <=? cap then (size, src) else (-1, src)
}.
Proof.
  - intros data cap. destruct (Z.leb_spec (zlen data) cap); [lia|rewrite zlen_nil; lia].
  - intros n Hn. assert (kLz4LegacyFrameBlockSize < 2 ^ 31) by (by vm_compute). lia.
  - intros data Hd E. destruct (Z.leb_spec (zlen data) (zlen data)); [|lia]. subst. by destruct Hd.
  - intros data cap Hd Hc. exists []. cbn zeta. destruct (Z.leb_spec (zlen data) (zlen data)); [|lia].
    destruct (Z.leb_spec (zlen data) cap); [|lia]. by rewrite app_nil_r.
Defined.

Lemma lz4_roundtrip_witness :
  exists s w1 s', Lz4LegacyWriter (SharedBuf.mkPipe 2 []) = (Ok s, w1) /\ WriteExact (str "vendor boot") s = (Ok tt, s') /\
    exists rd rd', Lz4LegacyReader (SharedBuf.mkPipe 4 (SharedBuf.pipe_data (sink_ s'))) = Ok rd /\
      ReadToString rd = (Ok (str "vendor boot"), rd') /\ remaining rd' = [].
Proof.
  destruct (lz4_roundtrip (R := SharedBuf.Pipe) (SharedBuf.mkPipe 2 []) 100 (str "vendor boot")) as (s & w1 & s' & Hs & Hw & Hr).
  - reflexivity.
  - vm_compute. congruence.
  - vm_compute. congruence.
  - vm_compute. reflexivity.
  - exists s, w1, s'. split_and!; [exact Hs|exact Hw|]. apply Hr; [|reflexivity].
    assert (E : s' = snd (WriteExact (str "vendor boot") (match fst (Lz4LegacyWriter (SharedBuf.mkPipe 2 [])) with Ok s => s | _ => s end)))
      by (rewrite Hs; cbn [fst]; by rewrite Hw).
    rewrite E. by vm_compute.
Defined.
End Lz4.
