(* ===== verification/Transport.v ===== *)
(** * Messages over a descriptor (common/libs/transport/channel.{h,cpp}, channel_sharedfd.{h,cpp})

    A [RawMessage] is a header of eight bytes and a payload; the channel writes it with
    [WriteAll] and reads it back with [ReadExact].  What malloc(3) answers is a
    parameter. *)
From S2P Require Import Prelude IO SharedBuf.

Module Transport.
Import IO.

(** [payload] is the memory behind the header. *)
Record RawMessage := mkRawMessage { command : Z; is_response : bool; payload_size : Z; payload : bytes }.
#[global] Instance RawMessage_eq_dec : EqDecision RawMessage.
Proof. solve_decision. Defined.

Definition sizeof_RawMessage : Z := 8.

(** The 31 bits of [command] and the bit of [is_response] share a word. *)
Definition raw_header (m : RawMessage) : bytes :=
  le_bytes 4 (command m + (if is_response m then 2 ^ 31 else 0)) ++ le_bytes 4 (payload_size m).
Definition read_header (bs : bytes) : RawMessage :=
  let word := le_value (ztake 4 bs) in
  mkRawMessage (word mod 2 ^ 31) (2 ^ 31 <=? word) (le_value (zdrop 4 bs)) [].

Section channel.
Context (malloc : Z -> option bytes).

(** Writing the fields truncates to their widths. *)
Definition CreateMessage (command : Z) (is_response : bool) (size : Z) : result RawMessage :=
  match malloc (u64 (sizeof_RawMessage + size)) with
  | Some memory =>
      Ok (mkRawMessage (command mod 2 ^ 31) is_response (u32 size) (zdrop sizeof_RawMessage memory))
  | None => Err "Cannot allocate"
  end.

Section send.
Context {W : Type} `{Writer W}.

Definition SendMessage (message : RawMessage) (response : bool) : M W unit :=
  let message := mkRawMessage (command message) response (payload_size message) (payload message) in
  let write_size := u64 (sizeof_RawMessage + payload_size message) in
  let! written := SharedBuf.WriteAll (ztake write_size (raw_header message ++ payload message)) in
  if u64 written =? write_size then mret tt else lift (Err "Could not write message").
Definition SendRequest (message : RawMessage) : M W unit := SendMessage message false.
Definition SendResponse (message : RawMessage) : M W unit := SendMessage message true.
End send.

Section receive.
Context {R : Type} `{Reader R}.

Definition ReceiveMessage : M R RawMessage :=
  let! (read, bs) := SharedBuf.ReadExact sizeof_RawMessage in
  if read =? sizeof_RawMessage then
    let header := read_header bs in
    let! message := lift (CreateMessage (command header) (is_response header) (payload_size header)) in
    let! (read, bs) := SharedBuf.ReadExact (payload_size message) in
    if read =? payload_size message then
      mret (mkRawMessage (command message) (is_response message) (payload_size message) bs)
    else lift (Err "Could not read message")
  else lift (Err "Could not read message header").
End receive.

(** ** Theorems *)
Definition well_formed (m : RawMessage) : Prop :=
  0 <= command m < 2 ^ 31 /\ 0 <= payload_size m < 2 ^ 32 /\ zlen (payload m) = payload_size m.

Definition encode (m : RawMessage) : bytes := raw_header m ++ payload m.

Lemma zlen_header m : zlen (raw_header m) = sizeof_RawMessage.
Proof. unfold raw_header. by rewrite zlen_app, !zlen_le_bytes. Qed.

Lemma read_raw_header m : well_formed m ->
  read_header (raw_header m) = mkRawMessage (command m) (is_response m) (payload_size m) [].
Proof.
  intros (Hc & Hs & _). unfold read_header, raw_header. set (word := command m + _).
  assert (Hw : 0 <= word < 256 ^ 4) by (unfold word; destruct (is_response m); lia).
  rewrite ztake_exact, zdrop_exact by apply zlen_le_bytes. rewrite !le_value_bytes by (cbn; lia). f_equal.
  - unfold word. destruct (is_response m).
    + rewrite <- (Z.mul_1_l (2 ^ 31)) at 1. rewrite Z.mod_add, Z.mod_small; lia.
    + rewrite Z.add_0_r, Z.mod_small; lia.
  - unfold word. destruct (is_response m); [apply Z.leb_le|apply Z.leb_gt]; lia.
Qed.

Lemma SendMessage_spec {W} `{WriteLaws W} w room m response :
  well_formed m -> write_ok w room -> sizeof_RawMessage + payload_size m <= room ->
  exists w', SendMessage m response w = (Ok tt, w') /\ write_ok w' (room - (sizeof_RawMessage + payload_size m)) /\
    written w' = written w ++ encode (mkRawMessage (command m) response (payload_size m) (payload m)).
Proof.
  intros (Hc & Hs & Hp) Hw Hroom. unfold SendMessage. cbn [command payload_size payload is_response].
  set (m' := mkRawMessage _ _ _ _). assert (Hz : zlen (encode m') = sizeof_RawMessage + payload_size m).
  { unfold encode. rewrite zlen_app, zlen_header. cbn. lia. }
  unfold sizeof_RawMessage in *. rewrite u64_id by (unfold is_u64; lia). change (raw_header m' ++ payload m) with (encode m').
  rewrite ztake_all by lia. destruct (SharedBuf.WriteAll_spec w room (encode m')) as (w' & Hrun & Hok & Hwr); [done|lia|lia|].
  exists w'. unfold mbind. rewrite Hrun, Hz, u64_id, Z.eqb_refl by (unfold is_u64; lia).
  rewrite Hz in Hok. by split_and!.
Qed.

Lemma ReceiveMessage_spec {R} `{ReadLaws R} r m rest :
  well_formed m -> read_ok r -> remaining r = encode m ++ rest -> is_Some (malloc (sizeof_RawMessage + payload_size m)) ->
  exists r', ReceiveMessage r = (Ok m, r') /\ read_ok r' /\ remaining r' = rest.
Proof.
  intros Hwf Hok Hrem [mem Hmem]. pose proof Hwf as (Hc & Hs & Hp). unfold ReceiveMessage, mbind.
  destruct (SharedBuf.ReadExact_count_spec r sizeof_RawMessage) as (r1 & -> & Hok1 & Hrem1); [done|by vm_compute|].
  rewrite Hrem in *. unfold encode in *. rewrite <- app_assoc in *.
  rewrite ztake_exact in * by apply zlen_header. rewrite zdrop_exact in Hrem1 by apply zlen_header.
  rewrite zlen_header, Z.eqb_refl, read_raw_header by done. cbn [command is_response payload_size].
  unfold lift, CreateMessage, sizeof_RawMessage in *. rewrite u64_id by (unfold is_u64; lia). rewrite Hmem. cbn [payload_size command is_response].
  rewrite u32_id by (unfold is_u32; lia).
  destruct (SharedBuf.ReadExact_count_spec r1 (payload_size m)) as (r2 & -> & Hok2 & Hrem2); [done|unfold is_u64; lia|].
  rewrite Hrem1 in *. rewrite ztake_exact in * by done. rewrite zdrop_exact in Hrem2 by done.
  rewrite Hp, Z.eqb_refl, Z.mod_small by lia. exists r2. split_and!; [|done|done]. unfold mret. by destruct m.
Qed.

(** A queue of messages: what is sent is received, in order, however the descriptors
    split the transfers. *)
Fixpoint SendAll {W} `{Writer W} (ms : list (RawMessage * bool)) : M W unit :=
  match ms with
  | [] => mret tt
  | (m, response) :: ms => let! _ := SendMessage m response in SendAll ms
  end.
Fixpoint ReceiveAll {R} `{Reader R} (n : nat) : M R (list RawMessage) :=
  match n with
  | O => mret []
  | S n => let! m := ReceiveMessage in let! ms := ReceiveAll n in mret (m :: ms)
  end.

Definition as_received (p : RawMessage * bool) : RawMessage :=
  mkRawMessage (command (fst p)) (snd p) (payload_size (fst p)) (payload (fst p)).
Definition size_all (ms : list (RawMessage * bool)) : Z := zlen (flat_map (fun p => encode (as_received p)) ms).

Lemma size_all_cons p ms : well_formed (fst p) ->
  size_all (p :: ms) = sizeof_RawMessage + payload_size (fst p) + size_all ms.
Proof.
  intros (_ & _ & Hp). unfold size_all, encode. cbn [flat_map]. rewrite !zlen_app, zlen_header.
  cbn [as_received payload]. lia.
Qed.

Lemma SendAll_spec {W} `{WriteLaws W} ms w room :
  Forall (fun p => well_formed (fst p)) ms -> write_ok w room -> size_all ms <= room ->
  exists w', SendAll ms w = (Ok tt, w') /\ written w' = written w ++ flat_map (fun p => encode (as_received p)) ms.
Proof.
  intros Hms. revert w room. induction Hms as [|[m b] ms Hm Hms IH]; intros w room Hw Hr.
  { exists w. cbn. by rewrite app_nil_r. }
  rewrite size_all_cons in Hr by done. pose proof (zlen_nonneg (flat_map (fun p => encode (as_received p)) ms)) as Hn.
  fold (size_all ms) in Hn. cbn [fst] in *.
  destruct (SendMessage_spec w room m b) as (w1 & Hrun & Hok & Hwr); [done|done|lia|].
  destruct (IH w1 _ Hok) as (w2 & Hrun2 & Hwr2); [lia|].
  exists w2. cbn [SendAll]. rewrite (mbind_run _ _ _ _ _ Hrun), Hrun2. split; [done|].
  by rewrite Hwr2, Hwr, <- app_assoc.
Qed.

Lemma as_received_wf p : well_formed (fst p) -> well_formed (as_received p).
Proof. done. Qed.

Lemma ReceiveAll_spec {R} `{ReadLaws R} ms r rest :
  Forall well_formed ms -> read_ok r -> remaining r = flat_map encode ms ++ rest ->
  Forall (fun m => is_Some (malloc (sizeof_RawMessage + payload_size m))) ms ->
  exists r', ReceiveAll (length ms) r = (Ok ms, r') /\ read_ok r' /\ remaining r' = rest.
Proof.
  intros Hms. revert r. induction Hms as [|m ms Hm Hms IH]; intros r Hok Hrem Hmem.
  { exists r. by split_and!. }
  apply Forall_cons in Hmem as [Hm1 Hmem]. cbn in Hrem. rewrite <- app_assoc in Hrem.
  destruct (ReceiveMessage_spec r m _ Hm Hok Hrem Hm1) as (r1 & Hrun & Hok1 & Hrem1).
  destruct (IH r1 Hok1 Hrem1 Hmem) as (r2 & Hrun2 & Hok2 & Hrem2).
  exists r2. cbn [length ReceiveAll]. rewrite (mbind_run _ _ _ _ _ Hrun), (mbind_run _ _ _ _ _ Hrun2). by split_and!.
Qed.

(** The channel delivers what was sent: a sequence of requests and responses whose
    sizes fit their fields, written to a descriptor that takes it in pieces, is read at
    the other end, again in pieces, as the same messages in the same order, each marked
    as the request or response it was sent as, and nothing is left over. *)
Theorem messages_in_order {W R} `{WriteLaws W} `{ReadLaws R} ms (w : W) room :
  Forall (fun p => well_formed (fst p)) ms -> write_ok w room -> size_all ms <= room -> written w = [] ->
  Forall (fun p => is_Some (malloc (sizeof_RawMessage + payload_size (fst p)))) ms ->
  exists w', SendAll ms w = (Ok tt, w') /\
    forall r : R, read_ok r -> remaining r = written w' ->
      exists r', ReceiveAll (length ms) r = (Ok (as_received <$> ms), r') /\ remaining r' = [].
Proof.
  intros Hms Hw Hr He Hmem. destruct (SendAll_spec ms w room) as (w' & Hs & Hwr); [done..|]. exists w'. split; [done|].
  intros r Hok Hrem. rewrite He in Hwr. cbn in Hwr.
  destruct (ReceiveAll_spec (as_received <$> ms) r []) as (r' & Hrun & _ & Hr').
  - apply Forall_fmap. eapply Forall_impl; [exact Hms|]. intros p. apply as_received_wf.
  - done.
  - rewrite app_nil_r, Hrem, Hwr. clear. induction ms as [|p ms IH]; [done|]. cbn. by rewrite IH.
  - apply Forall_fmap. eapply Forall_impl; [exact Hmem|done].
  - exists r'. rewrite length_fmap in Hrun. done.
Qed.
End channel.

Lemma messages_in_order_witness :
  let ms := [(mkRawMessage 3 true 0 [], false); (mkRawMessage 0 false 2 (str "ok"), true)] in
  let w := snd (SendAll ms (SharedBuf.mkPipe 2 [])) in
  exists r', ReceiveAll (fun n => Some (replicate (Z.to_nat n) "000"%char)) 2 (SharedBuf.mkPipe 4 (SharedBuf.pipe_data w)) =
    (Ok [mkRawMessage 3 false 0 []; mkRawMessage 0 true 2 (str "ok")], r') /\ SharedBuf.pipe_data r' = [].
Proof.
  intros ms w.
  destruct (messages_in_order (fun n => Some (replicate (Z.to_nat n) "000"%char)) ms (SharedBuf.mkPipe 2 []) 100
    (R := SharedBuf.Pipe)) as (w' & Hs & Hr).
  - repeat constructor; vm_compute; congruence.
  - vm_compute. congruence.
  - vm_compute. congruence.
  - reflexivity.
  - repeat constructor; eauto.
  - subst w. rewrite Hs. cbn [snd]. apply Hr; [|reflexivity].
    assert (E : w' = snd (SendAll ms (SharedBuf.mkPipe 2 []))) by (by rewrite Hs).
    rewrite E. by vm_compute.
Defined.
End Transport.
