(* ===== verification/ProcessMonitor.v ===== *)
(** * The process monitor of run_cvd (host/libs/process_monitor, process/subprocess.{h,cc})

    run_cvd forks a monitor that starts the device's processes and watches them with
    two threads: one waits for exits, one listens to the parent.  The system calls are
    an interface, [Os], with the laws of their manual pages in [OsLaws]; [Table] is an
    instance.  The threads are interleaved by the relation [step]. *)
From S2P Require Import Prelude CppString IO SharedBuf Transport.

Module ProcessMonitor.
Import CppString IO.

(** [ParentToChildMessageType] and [ChildToParentResponseType]. *)
Definition kStop : Z := 1.
Definition kHostResume : Z := 2.
Definition kHostSuspend : Z := 3.
Definition kResponseSuccess : Z := 0.

Definition SIGKILL : Z := 9.
Definition SIGCONT : Z := 18.
Definition SIGTSTP : Z := 20.

(** What the macros of wait(2) and the fields of siginfo_t tell. *)
Inductive Wstatus := WExited (code : Z) | WSignaled (sig : Z) | WOther.
Inductive ChildCode := CLD_EXITED | CLD_KILLED | CLD_DUMPED.
Record Siginfo := mkSiginfo { si_code : ChildCode; si_status : Z }.
#[global] Instance ChildCode_eq_dec : EqDecision ChildCode.
Proof. solve_decision. Defined.

Definition WIFEXITED (w : Wstatus) : bool := match w with WExited _ => true | _ => false end.
Definition WIFSIGNALED (w : Wstatus) : bool := match w with WSignaled _ => true | _ => false end.
Definition WEXITSTATUS (w : Wstatus) : Z := match w with WExited code => code | _ => 0 end.

Inductive StopperResult := kFailure | kCrash | kSuccess.
#[global] Instance StopperResult_eq_dec : EqDecision StopperResult.
Proof. solve_decision. Defined.
Inductive ProcessCategory := kNonCriticalSupport | kCriticalSupport | kVmm.
#[global] Instance ProcessCategory_eq_dec : EqDecision ProcessCategory.
Proof. solve_decision. Defined.

(** The system: [launch] is the part of Command::Start from the checks to fork (no pid
    when a check fails before the fork), [fork_exit] a child that exits at once,
    [launcher_action] the exchange with secure_env, [socket_write] the socket to the
    parent; [wait_any] is wait(2), without an answer while it blocks. *)
Class Os (O : Type) := {
  launch : bytes -> list bytes -> O -> option Z * O;
  fork_exit : O -> O;
  getpgid : Z -> O -> Z;
  kill : Z -> Z -> O -> bool * O;
  killpg : Z -> Z -> O -> bool * O;
  wait_any : O -> option (option (Z * Wstatus) * O);
  waitid : Z -> O -> option Siginfo * O;
  launcher_action : bool -> O -> bool * O;
  socket_write : bytes -> M O Z
}.
#[global] Instance child_sock {O} `{Os O} : Writer O := socket_write.

(** What the manual pages promise.  [child] are the launched processes that have not
    been waited for: only launching adds one, only waiting takes one away; a child,
    running or not, can be sent SIGKILL, and waiting for a process that is not one
    fails (pids are not reused). *)
Definition collected (r : option (Z * Wstatus)) (q : Z) : bool :=
  match r with Some (pid, WExited _) | Some (pid, WSignaled _) => q =? pid | _ => false end.
Class OsLaws (O : Type) `{Os O} := {
  child : O -> Z -> bool;
  child_pos o q : child o q = true -> 0 < q;
  launch_child exe args o : match launch exe args o with
    | (Some pid, o') => pid <> 0 /\ child o pid = false /\ forall q, child o' q = child o q || ((0 <? q) && (q =? pid))
    | (None, o') => forall q, child o' q = child o q
    end;
  fork_exit_child o q : child (fork_exit o) q = child o q;
  kill_child pid sig o q : child (snd (kill pid sig o)) q = child o q;
  killpg_child pid sig o q : child (snd (killpg pid sig o)) q = child o q;
  action_child b o q : child (snd (launcher_action b o)) q = child o q;
  socket_child bs o q : child (snd (socket_write bs o)) q = child o q;
  kill_ok o pid : child o pid = true -> fst (kill pid SIGKILL o) = true;
  killpg_ok o pid : child o pid = true -> getpgid pid o = pid -> fst (killpg pid SIGKILL o) = true;
  wait_child o r o' : wait_any o = Some (r, o') -> forall q, child o' q = child o q && negb (collected r q);
  waitid_ok o pid : match fst (waitid pid o) with Some _ => true | None => false end = child o pid;
  waitid_child o pid q : child (snd (waitid pid o)) q = child o q && negb (q =? pid)
}.

(** ** libbase: Basename *)
Definition slash : ascii := "/".
Fixpoint strip_slashes (rev_path : bytes) : bytes :=
  match rev_path with
  | c :: ((_ :: _) as l) => if decide (c = slash) then strip_slashes l else rev_path
  | _ => rev_path
  end.
Fixpoint take_base (rev_path : bytes) : bytes :=
  match rev_path with
  | [] => []
  | c :: l => if decide (c = slash) then [] else c :: take_base l
  end.
Definition PATH_MAX : Z := 4096.
Definition Basename (path : bytes) : bytes :=
  let base := match strip_slashes (rev path) with
              | [] => str "."
              | [c] => [c]
              | l => rev (take_base l)
              end in
  if PATH_MAX - 1 <? zlen base then [] else base.

Section monitor.
Context {O : Type} `{Os O}.

(** ** Subprocesses *)
Definition Stopper : Type := Z -> O -> StopperResult * O.
Record Command := mkCommand { command_ : list bytes; executable_ : option bytes; subprocess_stopper_ : Stopper }.
Record Subprocess := mkSubprocess { pid_ : Z; started_ : bool; stopper_ : option Stopper }.

Definition GetShortName (c : Command) : bytes := default [] (head (command_ c)).
Definition Executable (c : Command) : bytes := default (GetShortName c) (executable_ c).

Definition strace_args (file : bytes) : list bytes :=
  [str "/usr/bin/strace"; str "--daemonize"; str "--output-separately"; str "--follow-forks"; str "-o"; file].
Definition argv (c : Command) (strace : bytes) : list bytes :=
  (if decide (strace = []) then [] else strace_args strace) ++ command_ c.
Definition exec_path (c : Command) (strace : bytes) : bytes :=
  default (default [] (head (argv c strace))) (executable_ c).

Definition Start (c : Command) (strace : bytes) (o : O) : Subprocess * O :=
  match launch (exec_path c strace) (argv c strace) o with
  | (None, o) => (mkSubprocess (-1) false None, o)
  | (Some pid, o) => (mkSubprocess pid (0 <? pid) (Some (subprocess_stopper_ c)), o)
  end.

(** [Wait(WEXITED)]. *)
Definition Wait (p : Subprocess) (o : O) : (option Siginfo * Subprocess) * O :=
  if pid_ p <? 0 then ((None, p), o) else
  match waitid (pid_ p) o with
  | (None, o) => ((None, p), o)
  | (Some infop, o) =>
      let exited := bool_decide (si_code infop = CLD_EXITED) || bool_decide (si_code infop = CLD_DUMPED) in
      ((Some infop, if exited then mkSubprocess (-1) (started_ p) (stopper_ p) else p), o)
  end.

Definition SendSignalImpl (signal pid : Z) (to_group started : bool) : M O unit := fun o =>
  if pid =? -1 then (Err "No such process", o) else
  if negb started then (Err "The Subprocess object lost the ownership", o) else
  let (ok, o) := if to_group then killpg (getpgid pid o) signal o else kill pid signal o in
  (expect ok "kill/killpg", o).
Definition SendSignal (signal : Z) (p : Subprocess) : M O unit := SendSignalImpl signal (pid_ p) false (started_ p).
Definition SendSignalToGroup (signal : Z) (p : Subprocess) : M O unit := SendSignalImpl signal (pid_ p) true (started_ p).

Definition KillSubprocess : Stopper := fun pid o =>
  if 0 <? pid then
    let pgid := getpgid pid o in
    let is_group_head := pid =? pgid in
    let (ok, o) := (if is_group_head then killpg else kill) pid SIGKILL o in
    (if ok : bool then kSuccess else kFailure, o)
  else (kSuccess, o).
Definition KillSubprocessFallback (nice_stopper : Stopper) : Stopper := fun pid o =>
  match nice_stopper pid o with
  | (kFailure, o) =>
      match KillSubprocess pid o with
      | (kSuccess, o) => (kCrash, o)
      | harsh_result => harsh_result
      end
  | nice_result => nice_result
  end.

(** ** Entries and properties *)
Record MonitorEntry := mkMonitorEntry {
  cmd : Command; proc : option Subprocess; is_critical : bool; category : ProcessCategory
}.
Definition new_entry (c : Command) (category : ProcessCategory) : MonitorEntry :=
  mkMonitorEntry c None (negb (bool_decide (category = kNonCriticalSupport))) category.
Definition set_proc (p : Subprocess) (e : MonitorEntry) : MonitorEntry :=
  mkMonitorEntry (cmd e) (Some p) (is_critical e) (category e).

Record Properties := mkProperties {
  restart_subprocesses_ : bool; entries_ : list MonitorEntry; strace_commands_ : list bytes; strace_log_dir_ : bytes
}.
Definition RestartSubprocesses (r : bool) (p : Properties) : Properties :=
  mkProperties r (entries_ p) (strace_commands_ p) (strace_log_dir_ p).
Definition AddCommand (c : Command) (category : ProcessCategory) (p : Properties) : Properties :=
  mkProperties (restart_subprocesses_ p) (entries_ p ++ [new_entry c category]) (strace_commands_ p) (strace_log_dir_ p).
Definition StraceCommands (strace : list bytes) (p : Properties) : Properties :=
  mkProperties (restart_subprocesses_ p) (entries_ p) strace (strace_log_dir_ p).
Definition StraceLogDir (dir : bytes) (p : Properties) : Properties :=
  mkProperties (restart_subprocesses_ p) (entries_ p) (strace_commands_ p) dir.

(** The name behind the last slash. *)
Definition strip_directory (short_name : bytes) : bytes := rev (take_base (rev short_name)).
Definition strace_file (p : Properties) (c : Command) : bytes :=
  let short_name := strip_directory (GetShortName c) in
  if decide (short_name ∈ strace_commands_ p) then strace_log_dir_ p ++ str "/strace-" ++ short_name else [].

(** The entries with the processes started so far, and the result. *)
Fixpoint start_entries (p : Properties) (es : list MonitorEntry) (o : O) : (result unit * list MonitorEntry) * O :=
  match es with
  | [] => ((Ok tt, []), o)
  | e :: es =>
      let (sub, o) := Start (cmd e) (strace_file p (cmd e)) o in
      if started_ sub then
        let '((r, es), o) := start_entries p es o in ((r, set_proc sub e :: es), o)
      else ((Err "Failed to start subprocess", set_proc sub e :: es), o)
  end.
Definition StartSubprocesses (p : Properties) : O -> (result unit * list MonitorEntry) * O :=
  start_entries p (entries_ p).

(** ** Stopping *)
Definition stop_entry (e : MonitorEntry) : M O (bool * MonitorEntry) := fun o =>
  match proc e with
  | None => (Ok (true, e), o)
  | Some p =>
      match stopper_ p with
      | None => (Fatal "bad_function_call", o)
      | Some stopper =>
          match stopper (pid_ p) o with
          | (kFailure, o) => (Ok (false, e), o)
          | (_, o) =>
              let '((infop, p), o) := Wait p o in
              (Ok (match infop with Some _ => true | None => false end, set_proc p e), o)
          end
      end
  end.

(** [std::count_if] over the reversed entries. *)
Fixpoint stop_entries (es : list MonitorEntry) : M O nat :=
  match es with
  | [] => mret 0%nat
  | e :: es =>
      let! r := stop_entry e in
      let! n := stop_entries es in
      mret (if fst r : bool then S n else n)
  end.
Definition StopSubprocesses (es : list MonitorEntry) : M O unit :=
  let! stopped := stop_entries (rev es) in
  lift (expect (bool_decide (stopped = length es)) "Didn't stop all subprocesses").

(** ** The thread that waits for exits *)
Definition pid_of (e : MonitorEntry) : option Z := pid_ <$> proc e.

(** [std::find_if]; a null process is dereferenced. *)
Fixpoint find_pid (pid : Z) (es : list MonitorEntry) : result (option nat) :=
  match es with
  | [] => Ok None
  | e :: es =>
      match pid_of e with
      | None => Fatal "null proc"
      | Some q => if q =? pid then Ok (Some 0%nat) else let* i := find_pid pid es in Ok (S <$> i)
      end
  end.

(** Where the thread is: at the top of its loop, in wait(2), with what it returned, done. *)
Inductive MonitorPc := MCheck | MWait | MGot (pid : Z) (wstatus : Wstatus) | MDone (r : result unit).

Definition critical_exit (e : MonitorEntry) (wstatus : Wstatus) : result unit :=
  if bool_decide (category e = kVmm) && WIFEXITED wstatus && (WEXITSTATUS wstatus =? 0) then Ok tt
  else if WIFSIGNALED wstatus then Err "Critical process was killed by signal"
  else if negb (WEXITSTATUS wstatus =? 0) then Err "Critical process exited with non-zero exit code"
  else Err "Critical process exited unexpectedly with exit code 0".

(** The part of the loop's body under the lock: the next place, [running] and the
    entries. *)
Definition handle_exit (restart running : bool) (pid : Z) (wstatus : Wstatus) (es : list MonitorEntry) (o : O)
    : (MonitorPc * bool * list MonitorEntry) * O :=
  match find_pid pid es with
  | Ok None => ((MCheck, running, es), o)
  | Ok (Some i) =>
      match es !! i with
      | None => ((MDone (Fatal "iterator"), running, es), o)
      | Some e =>
          if restart then
            let (sub, o) := Start (cmd e) [] o in
            ((MCheck, running, <[i := set_proc sub e]> es), o)
          else
            let es := delete i es in
            if running && is_critical e then ((MDone (critical_exit e wstatus), false, es), o)
            else ((MCheck, running, es), o)
      end
  | fl => ((MDone (fail_as fl), running, es), o)
  end.

(** ** Suspending and resuming *)
Context (malloc : Z -> option bytes) (restarter : bytes) (secure_env_open : bool).

Definition SendEmptyResponse (type : Z) : M O unit :=
  let! message := lift (Transport.CreateMessage malloc type true 0) in
  Transport.SendResponse message.

Definition is_secure_env (e : MonitorEntry) : bool := bool_decide (Basename (Executable (cmd e)) = str "secure_env").
Definition exempt (prog_name : bytes) : bool :=
  bool_decide (prog_name = str "log_tee") || bool_decide (prog_name = str "wmediumd") ||
  bool_decide (prog_name = str "secure_env") || starts_with (str "cf_vhost_user_") prog_name.

Definition signal_entry (is_suspend : bool) (e : MonitorEntry) : M O unit :=
  match proc e with
  | None => mret tt
  | Some p =>
      let prog_name := Basename (Executable (cmd e)) in
      let signal := if is_suspend then SIGTSTP else SIGCONT in
      if exempt prog_name then mret tt
      else if bool_decide (Basename restarter = prog_name) then SendSignal signal p
      else SendSignalToGroup signal p
  end.
Fixpoint signal_entries (is_suspend : bool) (es : list MonitorEntry) : M O unit :=
  match es with
  | [] => mret tt
  | e :: es => let! _ := signal_entry is_suspend e in signal_entries is_suspend es
  end.

Definition SuspendResumeImpl (is_suspend : bool) (es : list MonitorEntry) : M O unit :=
  let! _ := if existsb is_secure_env es then
              let! _ := lift (expect secure_env_open "channel to secure_env is not open.") in
              fun o => let (ok, o) := launcher_action is_suspend o in (expect ok "RunLauncherAction", o)
            else mret tt in
  let! _ := signal_entries is_suspend es in
  SendEmptyResponse kResponseSuccess.

(** ** The thread that listens to the parent *)
Inductive CommsPc := CCheck | CReceive | CGot (message : Transport.RawMessage) | CDone (r : result unit).

(** The message received: the next place, [running], and the system. *)
Definition handle_message (message : Transport.RawMessage) (running : bool) (es : list MonitorEntry) (o : O)
    : (CommsPc * bool) * O :=
  let after (m : M O unit) :=
    match m o with (Ok _, o) => ((CCheck, running), o) | (fl, o) => ((CDone fl, running), o) end in
  if Transport.command message =? kStop then ((CCheck, false), fork_exit o)
  else if Transport.command message =? kHostSuspend then after (SuspendResumeImpl true es)
  else if Transport.command message =? kHostResume then after (SuspendResumeImpl false es)
  else ((CCheck, running), o).

(** ** The two threads *)
Record Sys := mkSys { running : bool; entries : list MonitorEntry; os : O; monitor_pc : MonitorPc; comms_pc : CommsPc }.

(** A step of the first thread; none while it is blocked or done. *)
Definition monitor_turn (restart : bool) (s : Sys) : option Sys :=
  let go o pc := mkSys (running s) (entries s) o pc (comms_pc s) in
  match monitor_pc s with
  | MCheck => Some (go (os s) (if running s then MWait else MDone (Ok tt)))
  | MWait =>
      match wait_any (os s) with
      | None => None
      | Some (None, o) => Some (go o (MDone (Err "Wait failed")))
      | Some (Some (pid, wstatus), o) =>
          Some (go o (if negb (WIFSIGNALED wstatus) && negb (WIFEXITED wstatus) then MCheck
                      else if running s then MGot pid wstatus else MDone (Ok tt)))
      end
  | MGot pid wstatus =>
      let '((pc, run, es), o) := handle_exit restart (running s) pid wstatus (entries s) (os s) in
      Some (mkSys run es o pc (comms_pc s))
  | MDone _ => None
  end.

(** A step of the second one; [received] is what ReceiveMessage returns, if it does. *)
Definition comms_turn (received : result Transport.RawMessage) (s : Sys) : option Sys :=
  let go pc := mkSys (running s) (entries s) (os s) (monitor_pc s) pc in
  match comms_pc s with
  | CCheck => Some (go (if running s then CReceive else CDone (Ok tt)))
  | CReceive =>
      match received with
      | Ok message => Some (go (CGot message))
      | fl => Some (go (CDone (if running s then fail_as fl else Ok tt)))
      end
  | CGot message =>
      let '((pc, run), o) := handle_message message (running s) (entries s) (os s) in
      Some (mkSys run (entries s) o (monitor_pc s) pc)
  | CDone _ => None
  end.

(** When the first thread is done it clears [running], and the second one's socket is
    shut down. *)
Definition stop_running (s : Sys) : Sys := mkSys false (entries s) (os s) (monitor_pc s) (comms_pc s).

(** The end of MonitorRoutine, after both threads. *)
Definition finish (s : Sys) : M O unit := fun o =>
  let (stop_result, o) := StopSubprocesses (entries s) o in
  match stop_result, monitor_pc s with
  | Fatal w, _ => (Fatal w, o)
  | _, MDone (Ok _) => (stop_result, o)
  | _, MDone fl => (fl, o)
  | _, _ => (Fuel, o)
  end.
Definition exit_code (r : result unit) : Z := if is_ok r then 0 else 1.

(** ** The threads interleaved *)
Context `{!OsLaws O} (restart : bool).
Definition same_children (o o' : O) : Prop := forall q, child o' q = child o q.

(** Besides the threads the world moves: processes run, exit or stop. *)
Inductive step : Sys -> Sys -> Prop :=
| step_monitor s s' : monitor_turn restart s = Some s' -> step s s'
| step_comms received s s' : comms_turn received s = Some s' -> step s s'
| step_shutdown s r : monitor_pc s = MDone r -> step s (stop_running s)
| step_world s o : same_children (os s) o -> step s (mkSys (running s) (entries s) o (monitor_pc s) (comms_pc s)).

(** A stopper that leaves waiting to the monitor, and does not fail on a child. *)
Definition tame (st : Stopper) : Prop := forall pid o,
  same_children o (snd (st pid o)) /\ (child o pid = true -> fst (st pid o) <> kFailure).

Lemma tame_kill : tame KillSubprocess.
Proof.
  intros pid o. unfold KillSubprocess. destruct (Z.ltb_spec 0 pid); [|done].
  destruct (Z.eqb_spec pid (getpgid pid o)) as [E|_].
  - pose proof (killpg_child pid SIGKILL o) as Hs. pose proof (killpg_ok o pid) as Hk. destruct (killpg pid SIGKILL o) as [ok o1].
    cbn in *. split; [done|]. intros Hc. by rewrite Hk.
  - pose proof (kill_child pid SIGKILL o) as Hs. pose proof (kill_ok o pid) as Hk. destruct (kill pid SIGKILL o) as [ok o1].
    cbn in *. split; [done|]. intros Hc. by rewrite Hk.
Qed.

(** Any stopper that leaves waiting to the monitor is tame with the fallback. *)
Lemma tame_fallback nice : (forall pid o, same_children o (snd (nice pid o))) -> tame (KillSubprocessFallback nice).
Proof.
  intros Hn pid o. unfold KillSubprocessFallback. pose proof (Hn pid o) as Hs. destruct (nice pid o) as [[] o1]; cbn in Hs; [|done..].
  destruct (tame_kill pid o1) as [Hk Hf]. destruct (KillSubprocess pid o1) as [[] o2]; cbn in *; (split; [intros q; by rewrite Hk|]); [|done..].
  intros Hc. apply Hf. by rewrite Hs.
Qed.

(** ** The invariant *)
Definition epid (e : MonitorEntry) : Z := match proc e with Some p => pid_ p | None => 0 end.
Definition launched (e : MonitorEntry) : Prop := exists p st, proc e = Some p /\ stopper_ p = Some st.
Definition entry_ok (e : MonitorEntry) : Prop :=
  tame (subprocess_stopper_ (cmd e)) /\
  exists p, proc e = Some p /\ pid_ p <> 0 /\
    (stopper_ p = Some (subprocess_stopper_ (cmd e)) \/ (restart = true /\ pid_ p < 0 /\ stopper_ p = None)).
Definition distinct (es : list MonitorEntry) : Prop := NoDup (base.filter (fun z => 0 < z) (epid <$> es)).

(** Every child is monitored; what is monitored is a child, up to the process the first
    thread has just collected. *)
Definition uncollected (pc : MonitorPc) (o : O) (q : Z) : Prop :=
  match pc with
  | MCheck | MWait => q < 0 \/ child o q = true
  | MGot pid _ => q < 0 \/ child o q = true \/ q = pid
  | MDone _ => True
  end.
Record Inv (s : Sys) : Prop := mkInv {
  inv_entries : Forall entry_ok (entries s);
  inv_distinct : distinct (entries s);
  inv_covered : forall q, child (os s) q = true -> q ∈ epid <$> entries s;
  inv_live : Forall (fun e => uncollected (monitor_pc s) (os s) (epid e)) (entries s);
  inv_got : match monitor_pc s with MGot pid _ => child (os s) pid = false | MDone r => is_ok r = true \/ exists m, r = Err m | _ => True end
}.

Lemma find_pid_spec pid es : Forall entry_ok es ->
  match find_pid pid es with
  | Ok None => pid ∉ epid <$> es
  | Ok (Some i) => exists l1 e l2, es = l1 ++ e :: l2 /\ i = length l1 /\ epid e = pid
  | _ => False
  end.
Proof.
  induction 1 as [|e es (_ & p & Hp & _) Hes IH]; [by apply not_elem_of_nil|]. cbn [find_pid].
  unfold pid_of. rewrite Hp. cbn. assert (He : epid e = pid_ p) by (unfold epid; by rewrite Hp).
  destruct (Z.eqb_spec (pid_ p) pid) as [Eq|Ne]; [by exists [], e, es; rewrite He|].
  destruct (find_pid pid es) as [[i|]| | |]; cbn; [|set_solver|done..].
  destruct IH as (l1 & x & l2 & -> & -> & Hx). by exists (e :: l1), x, l2.
Qed.

Lemma Start_spec c strace o : match Start c strace o with
  | (sub, o') =>
      pid_ sub <> 0 /\ child o (pid_ sub) = false /\
      (stopper_ sub = Some (subprocess_stopper_ c) \/ (pid_ sub < 0 /\ stopper_ sub = None)) /\
      started_ sub = (0 <? pid_ sub) /\
      forall q, child o' q = child o q || ((0 <? q) && (q =? pid_ sub))
  end.
Proof.
  unfold Start. pose proof (launch_child (exec_path c strace) (argv c strace) o) as Hl.
  destruct (launch _ _ _) as [[pid|] o']; cbn.
  - destruct Hl as (H0 & Hf & Hq). split_and!; auto.
  - split_and!; [done| |right; split; [lia|done]|done|].
    + destruct (child o (-1)) eqn:E; [|done]. apply child_pos in E. lia.
    + intros q. rewrite Hl. destruct (Z.eqb_spec q (-1)) as [->|]; by rewrite ?andb_false_r, ?orb_false_r.
Qed.

Lemma distinct_cons e es : distinct (e :: es) <-> (0 < epid e -> epid e ∉ epid <$> es) /\ distinct es.
Proof.
  unfold distinct. rewrite fmap_cons, filter_cons. destruct (decide (0 < epid e)) as [Hp|Hp].
  - rewrite NoDup_cons, list_elem_of_filter. naive_solver.
  - naive_solver.
Qed.
#[local] Instance distinct_perm : Proper (Permutation ==> iff) distinct.
Proof. intros l k E. unfold distinct. by rewrite E. Qed.

(** ** Starting *)
Lemma start_entries_spec p es o es' o' :
  Forall (fun e => tame (subprocess_stopper_ (cmd e))) es -> start_entries p es o = ((Ok tt, es'), o') ->
  Forall entry_ok es' /\ distinct es' /\ (forall q, child o' q = true <-> child o q = true \/ q ∈ epid <$> es') /\
  Forall (fun e => 0 < epid e /\ child o (epid e) = false) es'.
Proof.
  intros Ht. revert o es'. induction Ht as [|e es He Ht IH]; intros o es' Hrun.
  { cbn in Hrun. simplify_eq. split_and!; [done|constructor|set_solver|done]. }
  cbn in Hrun. pose proof (Start_spec (cmd e) (strace_file p (cmd e)) o) as Hs.
  destruct (Start _ _ o) as [sub o1]. destruct Hs as (H0 & Hf & Hst & Hstarted & Hq). rewrite Hstarted in Hrun.
  destruct (Z.ltb_spec 0 (pid_ sub)) as [Hpos|]; [|simplify_eq].
  destruct (start_entries p es o1) as [[r es1] o2] eqn:E. simplify_eq.
  destruct (IH o1 es1 E) as (Hok & Hd & Hc & Hfresh).
  assert (Hsub : child o1 (pid_ sub) = true) by (rewrite Hq, Z.eqb_refl; destruct (Z.ltb_spec 0 (pid_ sub)); [by rewrite orb_true_r|lia]).
  assert (Hmono : forall q, child o q = true -> child o1 q = true) by (intros q Hcq; by rewrite Hq, Hcq).
  split_and!.
  - constructor; [|done]. split; [done|]. exists sub. split_and!; [done|done|]. destruct Hst as [->|[? _]]; [by left|lia].
  - apply distinct_cons. split; [|done]. intros _ (f & Ef & Hin)%list_elem_of_fmap.
    rewrite Forall_forall in Hfresh. destruct (Hfresh f Hin) as [_ Hn]. cbn in Ef. rewrite <- Ef in Hn. congruence.
  - intros q. rewrite Hc. cbn. rewrite elem_of_cons. split; [|naive_solver].
    intros [Hcq|]; [|by auto]. rewrite Hq in Hcq. apply orb_true_iff in Hcq as [|(_ & ->%Z.eqb_eq)%andb_true_iff]; auto.
  - constructor; [done|]. eapply Forall_impl; [exact Hfresh|]. intros f [Hpf Hcf]. split; [done|].
    destruct (child o (epid f)) eqn:Ef; [|done]. apply Hmono in Ef. congruence.
Qed.

Definition started (es : list MonitorEntry) (o : O) : Sys := mkSys true es o MCheck CCheck.

Lemma Inv_started p o es o' :
  (forall q, child o q = false) -> Forall (fun e => tame (subprocess_stopper_ (cmd e))) (entries_ p) ->
  StartSubprocesses p o = ((Ok tt, es), o') -> Inv (started es o').
Proof.
  intros Hn Ht Hrun. destruct (start_entries_spec p (entries_ p) o es o' Ht Hrun) as (Hok & Hd & Hc & Hf).
  split; cbn; [done|done| | |done].
  - intros q Hq. apply Hc in Hq as [Hq|]; [|done]. by rewrite Hn in Hq.
  - apply Forall_forall. intros e He. right. apply Hc. right. apply list_elem_of_fmap. eauto.
Qed.

(** ** Running *)
Lemma SendSignalImpl_child sig pid grp st o : same_children o (snd (SendSignalImpl sig pid grp st o)).
Proof.
  unfold SendSignalImpl. destruct (pid =? -1); [done|]. destruct (negb st); [done|]. destruct grp.
  - pose proof (killpg_child (getpgid pid o) sig o) as Hk. by destruct (killpg _ _ _).
  - pose proof (kill_child pid sig o) as Hk. by destruct (kill _ _ _).
Qed.

(** Computations that leave the children alone compose. *)
Definition keeps {A} (m : M O A) : Prop := forall o, same_children o (snd (m o)).
Lemma keeps_ret {A} (a : A) : keeps (mret a).
Proof. done. Qed.
Lemma keeps_lift {A} (r : result A) : keeps (lift r).
Proof. done. Qed.
Lemma keeps_bind {A B} (m : M O A) (k : A -> M O B) : keeps m -> (forall a, keeps (k a)) -> keeps (mbind m k).
Proof.
  intros Hm Hk o. unfold mbind. pose proof (Hm o) as H1. destruct (m o) as [[a| | |] o1]; cbn in *; [|done..].
  intros q. by rewrite (Hk a o1), H1.
Qed.
#[local] Hint Resolve keeps_ret keeps_lift keeps_bind : core.

Lemma keeps_WriteAll buf : keeps (SharedBuf.WriteAll (W := O) buf).
Proof.
  intros o. unfold SharedBuf.WriteAll.
  apply while_inv with (I := fun '(o1, _) => same_children o o1) (Q := fun t => same_children o (snd t)); [done|done|].
  intros [o1 n] Ho. pose proof (socket_child (zdrop n buf) o1) as Hs. unfold Write, child_sock.
  destruct (socket_write _ o1) as [[k| | |] o2]; cbn in *; [|intros q; by rewrite Hs, Ho..].
  destruct (k =? 0); [intros q; by rewrite Hs, Ho|]. destruct (_ <? _); intros q; by rewrite Hs, Ho.
Qed.

Lemma keeps_response type : keeps (SendEmptyResponse type).
Proof.
  unfold SendEmptyResponse. apply keeps_bind; [done|]. intros m. unfold Transport.SendResponse, Transport.SendMessage.
  apply keeps_bind; [apply keeps_WriteAll|]. intros n. by destruct (_ =? _).
Qed.

Lemma keeps_signal b es : keeps (signal_entries b es).
Proof.
  induction es as [|e es IH]; [done|]. cbn. apply keeps_bind; [|done]. unfold signal_entry.
  destruct (proc e); [|done]. destruct (exempt _); [done|]. destruct (bool_decide _); intros o; apply SendSignalImpl_child.
Qed.

Lemma keeps_suspend b es : keeps (SuspendResumeImpl b es).
Proof.
  unfold SuspendResumeImpl. apply keeps_bind; [|intros _; apply keeps_bind; [apply keeps_signal|intros _; apply keeps_response]].
  destruct (existsb _ _); [|done]. apply keeps_bind; [done|]. intros _ o. pose proof (action_child b o) as Ha.
  by destruct (launcher_action b o).
Qed.

Lemma handle_message_child m run es o : same_children o (snd (handle_message m run es o)).
Proof.
  unfold handle_message. pose proof (keeps_suspend true es o) as H1. pose proof (keeps_suspend false es o) as H2.
  destruct (_ =? kStop); [intros q; apply fork_exit_child|].
  destruct (_ =? kHostSuspend); [by destruct (SuspendResumeImpl true es o) as [[] ?]|].
  destruct (_ =? kHostResume); [by destruct (SuspendResumeImpl false es o) as [[] ?]|done].
Qed.

(** Only the children matter to the invariant. *)
Lemma Inv_same s run o c : Inv s -> same_children (os s) o -> Inv (mkSys run (entries s) o (monitor_pc s) c).
Proof.
  intros [Hok Hd Hc Hl Hg] Hs. split; cbn; [done|done| | |].
  - intros q. rewrite Hs. apply Hc.
  - eapply Forall_impl; [exact Hl|]. intros e. unfold uncollected. destruct (monitor_pc s); rewrite ?Hs; done.
  - destruct (monitor_pc s); rewrite ?Hs; done.
Qed.

Lemma Inv_perm run es es' o pc c : es ≡ₚ es' -> Inv (mkSys run es o pc c) -> Inv (mkSys run es' o pc c).
Proof. intros E [Hok Hd Hc Hl Hg]. cbn in *. split; cbn; [by rewrite <- E|by rewrite <- E| |by rewrite <- E|done]. intros q. rewrite <- E. apply Hc. Qed.

(** The entry of the collected process is the only one with its pid. *)
Lemma Inv_got_rest run e rest o pid w c :
  Inv (mkSys run (e :: rest) o (MGot pid w) c) -> epid e = pid ->
  Forall entry_ok rest /\ distinct rest /\ (forall q, child o q = true -> q ∈ epid <$> rest) /\
  Forall (fun f => epid f < 0 \/ child o (epid f) = true) rest.
Proof.
  intros [Hok Hd Hc Hl Hg] <-. cbn in *. apply Forall_cons in Hok as [(_ & p & Hp & H0 & _) Hok].
  apply distinct_cons in Hd as [Hn Hd]. apply Forall_cons in Hl as [_ Hl]. split_and!; [done|done| |].
  - intros q Hq. pose proof (Hc q Hq) as [->|]%elem_of_cons; [congruence|done].
  - rewrite !Forall_forall in *. intros f Hf. destruct (Hl f Hf) as [|[|E]]; [by auto..|].
    assert (Hne : epid f <> 0). { destruct (Hok f Hf) as (_ & pf & Hpf & ? & _). unfold epid. by rewrite Hpf. }
    destruct (Z.lt_ge_cases 0 (epid e)); [|lia]. destruct Hn; [done|]. rewrite <- E. apply list_elem_of_fmap. eauto.
Qed.

Lemma Inv_restart run e rest o pid w c sub o1 :
  restart = true -> Inv (mkSys run (e :: rest) o (MGot pid w) c) -> epid e = pid -> Start (cmd e) [] o = (sub, o1) ->
  Inv (mkSys run (set_proc sub e :: rest) o1 MCheck c).
Proof.
  intros Hre HI Hpid Hst. destruct (Inv_got_rest _ _ _ _ _ _ _ HI Hpid) as (Hok & Hd & Hc & Hl).
  pose proof (inv_entries _ HI) as [(Ht & _) _]%Forall_cons. pose proof (Start_spec (cmd e) [] o) as Hs. rewrite Hst in Hs.
  destruct Hs as (H0 & Hf & Hstop & _ & Hq). split; cbn.
  - constructor; [|done]. split; [done|]. exists sub. split_and!; [done|done|]. destruct Hstop as [|[]]; auto.
  - apply distinct_cons. split; [|done]. cbn. intros Hpos (f & Ef & Hin)%list_elem_of_fmap.
    rewrite Forall_forall in Hl. destruct (Hl f Hin); [lia|congruence].
  - intros q Hcq. rewrite Hq in Hcq. rewrite elem_of_cons. apply orb_true_iff in Hcq as [|(_ & ->%Z.eqb_eq)%andb_true_iff]; auto.
  - constructor; cbn.
    + rewrite Hq, Z.eqb_refl, andb_true_r. destruct (Z.ltb_spec 0 (pid_ sub)); [right; apply orb_true_r|left; lia].
    + eapply Forall_impl; [exact Hl|]. intros f [|Hcf]; [by left|right]. by rewrite Hq, Hcf.
  - done.
Qed.

Lemma Inv_erase run e rest o pid w c pc :
  Inv (mkSys run (e :: rest) o (MGot pid w) c) -> epid e = pid -> pc = MCheck \/ (exists r, pc = MDone r /\ (is_ok r = true \/ exists m, r = Err m)) ->
  forall run', Inv (mkSys run' rest o pc c).
Proof.
  intros HI Hpid Hpc run'. destruct (Inv_got_rest _ _ _ _ _ _ _ HI Hpid) as (Hok & Hd & Hc & Hl).
  split; cbn; [done|done|done| |]; destruct Hpc as [->|(r & -> & Hr)]; [done| |done|done]. by apply Forall_forall.
Qed.

Lemma critical_exit_outcome e w : is_ok (critical_exit e w) = true \/ exists m, critical_exit e w = Err m.
Proof. unfold critical_exit. destruct (_ && _); [by left|]. destruct (WIFSIGNALED w); [by eauto|]. destruct (negb _); eauto. Qed.

Lemma Inv_handle run es o pid w c pc run' es' o' :
  Inv (mkSys run es o (MGot pid w) c) -> handle_exit restart run pid w es o = ((pc, run', es'), o') ->
  Inv (mkSys run' es' o' pc c).
Proof.
  intros HI. unfold handle_exit. pose proof (find_pid_spec pid es (inv_entries _ HI)) as Hf.
  destruct (find_pid pid es) as [[i|]| | |]; [|intros [= <- <- <- <-]|done..].
  - destruct Hf as (l1 & e & l2 & -> & -> & He). rewrite list_lookup_middle by done.
    assert (HI' : Inv (mkSys run (e :: l1 ++ l2) o (MGot pid w) c)).
    { eapply Inv_perm; [|exact HI]. by rewrite Permutation_middle. }
    destruct restart eqn:Hre.
    + destruct (Start (cmd e) [] o) as [sub o1] eqn:Hst. intros [= <- <- <- <-].
      rewrite insert_app_r_alt, Nat.sub_diag by lia. cbn [insert list_insert].
      eapply Inv_perm; [apply Permutation_middle|]. by eapply Inv_restart.
    + rewrite delete_middle. destruct (run && is_critical e); intros [= <- <- <- <-]; (eapply Inv_erase; [done|done|]).
      * right. eexists. split; [done|]. apply critical_exit_outcome.
      * by left.
  - destruct HI as [Hok Hd Hc Hl _]. cbn in *. split; cbn; [done|done|done| |done].
    rewrite Forall_forall in *. intros e He. destruct (Hl e He) as [|[|E]]; [by auto..|].
    destruct Hf. rewrite <- E. apply list_elem_of_fmap. eauto.
Qed.

Lemma Inv_wait run es o r o1 c : Inv (mkSys run es o MWait c) -> wait_any o = Some (r, o1) ->
  forall pc, match r with
    | None => pc = MDone (Err "Wait failed")
    | Some (pid, w) => pc = MGot pid w /\ w <> WOther \/ pc = MDone (Ok tt) \/ pc = MCheck /\ w = WOther
    end -> Inv (mkSys run es o1 pc c).
Proof.
  intros [Hok Hd Hc Hl _] Hw pc Hpc. cbn in *. pose proof (wait_child o r o1 Hw) as Hq. split; cbn; [done|done| | |].
  - intros q. rewrite Hq. intros [? _]%andb_true_iff. by apply Hc.
  - eapply Forall_impl; [exact Hl|]. intros e He. cbn in He. destruct r as [[pid w]|]; [|by rewrite Hpc].
    destruct Hpc as [[-> Hne]|[->|[-> ->]]]; cbn; [|done|].
    + destruct He as [|He]; [by left|right]. rewrite Hq, He. cbn.
      destruct w; cbn; [destruct (Z.eqb_spec (epid e) pid); auto..|done].
    + destruct He as [|He]; [by left|right]. by rewrite Hq, He.
  - destruct r as [[pid w]|]; [|rewrite Hpc; eauto]. destruct Hpc as [[-> Hne]|[->|[-> ->]]]; [|by left|done].
    rewrite Hq. destruct w; cbn; [rewrite Z.eqb_refl; apply andb_false_r..|done].
Qed.

Lemma Inv_monitor s s' : Inv s -> monitor_turn restart s = Some s' -> Inv s'.
Proof.
  intros HI. destruct s as [run es o pc c]. unfold monitor_turn. cbn. destruct pc as [| |pid w|r]; [| | |done].
  - intros [= <-]. destruct HI as [Hok Hd Hc Hl _]. cbn in *. destruct run; split; cbn; auto. by apply Forall_forall.
  - destruct (wait_any o) as [[[[pid w]|] o1]|] eqn:Hw; [| |done]; intros [= <-]; (eapply Inv_wait; [done|done|]).
    + cbn. destruct w; cbn; destruct run; auto.
      all: left; split; [done|discriminate].
    + done.
  - destruct (handle_exit restart run pid w es o) as [[[pc run'] es'] o'] eqn:E. intros [= <-]. by eapply Inv_handle.
Qed.

Lemma Inv_step s s' : Inv s -> step s s' -> Inv s'.
Proof.
  intros HI Hst. revert HI. destruct Hst as [s1 s2 Ht|m s1 s2 Ht|s1 r Hr|s1 o Ho]; intros HI.
  - by eapply Inv_monitor.
  - revert Ht. unfold comms_turn. assert (Hgo : forall pc, Inv (mkSys (running s1) (entries s1) (os s1) (monitor_pc s1) pc)).
    { intros pc. by apply Inv_same. }
    destruct (comms_pc s1) as [| |msg|]; [intros [= <-]; apply Hgo|destruct m; intros [= <-]; apply Hgo| |done].
    pose proof (handle_message_child msg (running s1) (entries s1) (os s1)) as Hh.
    destruct (handle_message _ _ _ _) as [[pc run] o]. intros [= <-]. by apply Inv_same.
  - by apply Inv_same.
  - by apply Inv_same.
Qed.

Lemma Inv_steps s s' : Inv s -> rtc step s s' -> Inv s'.
Proof. intros HI Hs. induction Hs; [done|]. eauto using Inv_step. Qed.

(** ** Stopping *)
Lemma stop_entry_spec e o : entry_ok e -> launched e ->
  exists e' o', stop_entry e o = (Ok (child o (epid e), e'), o') /\ forall q, child o' q = child o q && negb (q =? epid e).
Proof.
  intros (Ht & p & Hp & H0 & Hst) (p' & st & Hp' & Hst'). rewrite Hp in Hp'. simplify_eq.
  destruct Hst as [E|(_ & _ & E)]; [|congruence]. rewrite Hst' in E. simplify_eq.
  unfold stop_entry, epid. rewrite Hp, Hst'. destruct (Ht (pid_ p') o) as [Hs Hf].
  assert (Hgone : child o (pid_ p') = false -> forall q, child o q = child o q && negb (q =? pid_ p')).
  { intros Hc q. destruct (Z.eqb_spec q (pid_ p')) as [->|]; cbn; [by rewrite Hc|by rewrite andb_true_r]. }
  assert (Hwait : forall o1, same_children o o1 -> exists e' o',
    (let '((infop, p), o) := Wait p' o1 in (Ok (match infop with Some _ => true | None => false end, set_proc p e), o)) =
      (Ok (child o (pid_ p'), e'), o') /\ forall q, child o' q = child o q && negb (q =? pid_ p')).
  { intros o1 Ho. unfold Wait. destruct (Z.ltb_spec (pid_ p') 0).
    - assert (Hc : child o (pid_ p') = false). { destruct (child o _) eqn:E; [|done]. apply child_pos in E. lia. }
      rewrite Hc. exists (set_proc p' e), o1. split; [done|]. intros q. rewrite Ho. by apply Hgone.
    - rewrite <- (Ho (pid_ p')), <- waitid_ok. pose proof (waitid_child o1 (pid_ p')) as Hw.
      destruct (waitid (pid_ p') o1) as [[i|] o2]; cbn in *; (eexists _, o2; split; [reflexivity|intros q; by rewrite Hw, Ho]). }
  destruct (subprocess_stopper_ (cmd e) (pid_ p') o) as [[] o1]; cbn in Hs, Hf; [|by apply Hwait..].
  assert (Hc : child o (pid_ p') = false) by (destruct (child o (pid_ p')); [by destruct Hf|done]).
  rewrite Hc. exists e, o1. split; [done|]. intros q. rewrite Hs. by apply Hgone.
Qed.

Lemma stop_entries_spec es o : Forall entry_ok es -> Forall launched es -> distinct es ->
  exists n o', stop_entries es o = (Ok n, o') /\ (n <= length es)%nat /\
    (n = length es <-> Forall (fun e => child o (epid e) = true) es) /\
    forall q, child o' q = true <-> child o q = true /\ q ∉ epid <$> es.
Proof.
  intros Hok. revert o. induction Hok as [|e es He Hok IH]; intros o Hl Hd.
  { exists 0%nat, o. split_and!; [done|done|done|]. set_solver. }
  apply Forall_cons in Hl as [Hl1 Hl]. apply distinct_cons in Hd as [Hn Hd].
  destruct (stop_entry_spec e o He Hl1) as (e' & o1 & Hrun & Hc1). destruct (IH o1 Hl Hd) as (n & o2 & Hrun2 & Hle & Hiff & Hc2).
  cbn [stop_entries]. rewrite (mbind_run _ _ _ _ _ Hrun), (mbind_run _ _ _ _ _ Hrun2). cbn [fst].
  eexists _, o2. split; [reflexivity|].
  assert (Hsame : Forall (fun f => child o1 (epid f) = true) es <-> Forall (fun f => child o (epid f) = true) es).
  { rewrite !Forall_forall. apply forall_proper. intros f. split; intros Hf Hin; specialize (Hf Hin); rewrite Hc1 in *.
    - by apply andb_true_iff in Hf as [? _].
    - rewrite Hf. cbn. destruct (Z.eqb_spec (epid f) (epid e)) as [E|]; [|done]. exfalso. apply Hn.
      + rewrite <- E. by eapply child_pos.
      + rewrite <- E. apply list_elem_of_fmap. eauto. }
  split_and!.
  - destruct (child o (epid e)); cbn; lia.
  - rewrite Forall_cons, <- Hsame, <- Hiff. destruct (child o (epid e)); cbn; split; try lia; intuition (try lia; try discriminate).
  - intros q. rewrite Hc2, Hc1, andb_true_iff, negb_true_iff, Z.eqb_neq. rewrite fmap_cons, not_elem_of_cons. tauto.
Qed.

Lemma StopSubprocesses_spec es o : Forall entry_ok es -> Forall launched es -> distinct es ->
  exists r o', StopSubprocesses es o = (r, o') /\ (r = Ok tt \/ exists m, r = Err m) /\
    (r = Ok tt <-> Forall (fun e => child o (epid e) = true) es) /\
    forall q, child o' q = true <-> child o q = true /\ q ∉ epid <$> es.
Proof.
  intros Hok Hl Hd. destruct (stop_entries_spec (rev es) o) as (n & o' & Hrun & _ & Hiff & Hc).
  1-3: by rewrite <- Permutation_rev. rewrite <- Permutation_rev in Hiff.
  unfold StopSubprocesses. rewrite (mbind_run _ _ _ _ _ Hrun). unfold lift. eexists _, o'. split; [reflexivity|].
  rewrite <- Hiff. split_and!.
  - destruct (bool_decide _); cbn; eauto.
  - destruct (decide (n = length es)) as [E|E]; [by rewrite bool_decide_true|]. by rewrite bool_decide_false.
  - intros q. rewrite Hc. by rewrite <- Permutation_rev.
Qed.

Lemma entry_ok_launched es : restart = false -> Forall entry_ok es -> Forall launched es.
Proof.
  intros Hr Hok. eapply Forall_impl; [exact Hok|]. intros e (_ & p & Hp & _ & [Hst|[? _]]); [|congruence].
  exists p. eauto.
Qed.

Lemma finish_spec s r : Inv s -> monitor_pc s = MDone r -> Forall launched (entries s) ->
  exists res o', finish s (os s) = (res, o') /\ (forall q, child o' q = false) /\
    (res = Ok tt <-> r = Ok tt /\ Forall (fun e => child (os s) (epid e) = true) (entries s)).
Proof.
  intros [Hok Hd Hc Hl Hg] Hr Hla. rewrite Hr in Hg. unfold finish. rewrite Hr.
  destruct (StopSubprocesses_spec (entries s) (os s)) as (sr & o' & -> & Hsr & Hiff & Hch); [done..|].
  assert (Hnone : forall q, child o' q = false).
  { intros q. destruct (child o' q) eqn:E; [|done]. apply Hch in E as [E Hn]. by apply Hc in E. }
  setoid_rewrite <- Hiff. destruct r as [[]|m| |]; [| |by destruct Hg as [|[]]..].
  - destruct Hsr as [->|[m ->]]; eexists _, o'; (split_and!; [reflexivity|done|naive_solver]).
  - destruct Hsr as [->|[m' ->]]; eexists _, o'; (split_and!; [reflexivity|done|naive_solver]).
Qed.

(** C17. No process is left behind: whatever the order in which the two threads run, which
    messages arrive and which processes exit meanwhile, when both threads have ended the
    routine leaves no started process that has not ended and been waited for; and it
    reports success exactly when the watching thread ended well and no process still on
    its list had been collected before.  (With restarting on, every restart got as far
    as its fork.) *)
Theorem no_process_left p o es o1 s r c :
  (forall q, child o q = false) -> Forall (fun e => tame (subprocess_stopper_ (cmd e))) (entries_ p) ->
  StartSubprocesses p o = ((Ok tt, es), o1) -> rtc step (started es o1) s ->
  monitor_pc s = MDone r -> comms_pc s = CDone c -> (restart = true -> Forall launched (entries s)) ->
  exists res o2, finish s (os s) = (res, o2) /\ (forall q, child o2 q = false) /\
    (res = Ok tt <-> r = Ok tt /\ Forall (fun e => child (os s) (epid e) = true) (entries s)).
Proof.
  intros Hn Ht Hst Hsteps Hr _ Hla. assert (HI : Inv s).
  { eapply Inv_steps; [by eapply Inv_started|exact Hsteps]. }
  apply finish_spec; [done|done|]. destruct restart eqn:E; [by apply Hla|].
  eapply entry_ok_launched; [done|]. apply HI.
Qed.

(** ** What an exit leads to *)
Lemma find_pid_split pid l1 e l2 :
  Forall (fun f => exists q, pid_of f = Some q /\ q <> pid) l1 -> pid_of e = Some pid ->
  find_pid pid (l1 ++ e :: l2) = Ok (Some (length l1)).
Proof.
  intros Hl He. induction Hl as [|f l1 (q & Hq & Hne) Hl IH]; cbn; [by rewrite He, Z.eqb_refl|].
  rewrite Hq. destruct (Z.eqb_spec q pid); [done|]. by rewrite IH.
Qed.

Lemma handle_exit_found restart' run pid w l1 e l2 o :
  Forall (fun f => exists q, pid_of f = Some q /\ q <> pid) l1 -> pid_of e = Some pid ->
  handle_exit restart' run pid w (l1 ++ e :: l2) o =
    if restart' then ((MCheck, run, l1 ++ set_proc (fst (Start (cmd e) [] o)) e :: l2), snd (Start (cmd e) [] o))
    else if run && is_critical e then ((MDone (critical_exit e w), false, l1 ++ l2), o)
    else ((MCheck, run, l1 ++ l2), o).
Proof.
  intros Hl He. unfold handle_exit. rewrite find_pid_split, list_lookup_middle, delete_middle by done.
  destruct restart'; [|by destruct (run && is_critical e)].
  destruct (Start (cmd e) [] o). by rewrite insert_app_r_alt, Nat.sub_diag by lia.
Qed.

Lemma done_stays s s' r : rtc step s s' -> monitor_pc s = MDone r -> monitor_pc s' = MDone r.
Proof.
  induction 1 as [|s1 s2 s3 Hst _ IH]; [done|]. intros Hr. apply IH. destruct Hst as [s1 s2 Ht|m s1 s2 Ht| |]; [|revert Ht|done|done].
  - unfold monitor_turn in Ht. by rewrite Hr in Ht.
  - unfold comms_turn. destruct (comms_pc s1) as [| |msg|]; [by intros [= <-]|by destruct m; intros [= <-]| |done].
    destruct (handle_message _ _ _ _) as [[pc run] o]. by intros [= <-].
Qed.

(** ** Signals *)
Definition targets (es : list MonitorEntry) : list (bool * Subprocess) :=
  omap (fun e => match proc e with
    | None => None
    | Some p =>
        let prog_name := Basename (Executable (cmd e)) in
        if exempt prog_name then None else Some (negb (bool_decide (Basename restarter = prog_name)), p)
    end) es.
Fixpoint send_each (signal : Z) (ts : list (bool * Subprocess)) : M O unit :=
  match ts with
  | [] => mret tt
  | (to_group, p) :: ts =>
      let! _ := SendSignalImpl signal (pid_ p) to_group (started_ p) in send_each signal ts
  end.

Lemma signal_entries_targets b es o :
  signal_entries b es o = send_each (if b then SIGTSTP else SIGCONT) (targets es) o.
Proof.
  revert o. induction es as [|e es IH]; intros o; [done|]. cbn [signal_entries targets omap list_omap].
  unfold signal_entry. destruct (proc e) as [p|]; [|by rewrite <- IH].
  destruct (exempt _); [by rewrite <- IH|]. cbn [send_each]. unfold SendSignal, SendSignalToGroup.
  destruct (bool_decide _); cbn [negb]; unfold mbind; destruct (SendSignalImpl _ _ _ _ o) as [[] o1]; try done; apply IH.
Qed.
End monitor.
Arguments Command : clear implicits.
Arguments MonitorEntry : clear implicits.
Arguments Properties : clear implicits.
Arguments Sys : clear implicits.

(** ** The parent

    Answers of the system are arguments: waitpid(2) with and without WNOHANG, whether the
    request was sent, what was received. *)
Record Parent := mkParent { monitor_ : Z; parent_channel_ : bool }.

Definition StartAndMonitorProcesses (pipe_ok : bool) (fork_result : Z) : M Parent unit := fun p =>
  if negb (monitor_ p =? -1) then (Err "The monitor process was already started", p) else
  if parent_channel_ p then (Err "Parent monitor socket was already opened", p) else
  if negb pipe_ok then (Err "Pipe", p) else (Ok tt, mkParent fork_result true).

Definition StopMonitoredProcesses (no_hang : Z * Wstatus) (blocking : Z * Wstatus) : M Parent unit := fun p =>
  if monitor_ p =? -1 then (Ok tt, p) else
  let last_monitor := monitor_ p in
  let '(wait_res, wstatus) := if fst no_hang =? 0 then blocking else no_hang in
  let p := mkParent (-1) false in
  ((let* _ := expect (wait_res =? last_monitor) "Failed to wait for monitor process" in
    let* _ := expect (negb (WIFSIGNALED wstatus)) "Monitor process exited due to a signal" in
    let* _ := expect (WIFEXITED wstatus) "Monitor process exited for unknown reasons" in
    expect (WEXITSTATUS wstatus =? 0) "Monitor process exited with code"), p).

(** Suspending and resuming differ in the request only. *)
Definition RequestMonitor (sent : bool) (response : result Transport.RawMessage) : M Parent unit := fun p =>
  ((let* _ := expect (negb (monitor_ p =? -1)) "The monitor process has already exited." in
    let* _ := expect (parent_channel_ p) "parent_channel_" in
    let* _ := expect sent "SendEmptyRequest" in
    let* response := response in
    expect (Transport.command response =? kResponseSuccess) "the child run_cvd returned kFailure."), p).

(** A fork that fails is reported as a success, and stopping then is too. *)
Lemma failed_fork_unreported no_hang blocking :
  StartAndMonitorProcesses true (-1) (mkParent (-1) false) = (Ok tt, mkParent (-1) true) /\
  StopMonitoredProcesses no_hang blocking (mkParent (-1) true) = (Ok tt, mkParent (-1) true).
Proof. done. Qed.


(** With an executable of its own a traced command does not run strace: the executable
    gets strace's arguments. *)
Lemma strace_not_executed {O} args exe (st : Stopper (O := O)) file :
  file <> [] ->
  exec_path (mkCommand args (Some exe) st) file = exe /\
  head (argv (mkCommand args (Some exe) st) file) = Some (str "/usr/bin/strace").
Proof. intros Hf. unfold argv. cbn. by destruct (decide (file = [])). Qed.

(** The pid of a process that a signal ended stays in place after the wait. *)
Lemma killed_pid_kept {O} `{Os O} (p : Subprocess (O := O)) o o' status :
  0 <= pid_ p -> waitid (pid_ p) o = (Some (mkSiginfo CLD_KILLED status), o') ->
  Wait p o = ((Some (mkSiginfo CLD_KILLED status), p), o').
Proof. intros Hp Hw. unfold Wait. rewrite Hw. by destruct (Z.ltb_spec (pid_ p) 0); [lia|]. Qed.

(** ** A system *)
Record Table := mkTable {
  used : nat;                          (* pids handed out *)
  rows : list (Z * option Wstatus);    (* launched processes, with their status once they ended *)
  helpers : nat;                       (* other children, which have exited *)
  sent_bytes : bytes
}.
Definition listed (t : Table) (q : Z) : bool :=
  (0 <? q) && (q <=? Z.of_nat (used t)) && existsb (fun r => fst r =? q) (rows t).
Definition drop_row (q : Z) (t : Table) : Table :=
  mkTable (used t) (List.filter (fun r => negb (fst r =? q)) (rows t)) (helpers t) (sent_bytes t).
Definition end_row (w : Wstatus) (q : Z) (r : Z * option Wstatus) : Z * option Wstatus :=
  if fst r =? q then (fst r, Some (default w (snd r))) else r.
Definition end_process (w : Wstatus) (q : Z) (t : Table) : Table :=
  mkTable (used t) (map (end_row w q) (rows t)) (helpers t) (sent_bytes t).
Fixpoint ended (rs : list (Z * option Wstatus)) : option (Z * Wstatus) :=
  match rs with
  | [] => None
  | (q, Some w) :: _ => Some (q, w)
  | _ :: rs => ended rs
  end.
Definition signal_process (pid sig : Z) (t : Table) : bool * Table :=
  (listed t pid, if sig =? SIGKILL then end_process (WSignaled SIGKILL) pid t else t).

#[global] Instance table_os : Os Table := {
  launch _ _ t := let pid := Z.of_nat (used t) + 1 in
    (Some pid, mkTable (S (used t)) (rows t ++ [(pid, None)]) (helpers t) (sent_bytes t));
  fork_exit t := mkTable (used t) (rows t) (S (helpers t)) (sent_bytes t);
  getpgid pid _ := pid;
  kill := signal_process;
  killpg := signal_process;
  wait_any t :=
    match ended (rows t), helpers t with
    | Some (q, WOther), _ => Some (Some (q, WOther), t)
    | Some (q, w), _ => Some (Some (q, w), drop_row q t)
    | None, S n => Some (Some (0, WExited 0), mkTable (used t) (rows t) n (sent_bytes t))
    | None, O => match rows t with [] => Some (None, t) | _ => None end
    end;
  waitid pid t := (if listed t pid then Some (mkSiginfo CLD_KILLED SIGKILL) else None, drop_row pid t);
  launcher_action _ t := (true, t);
  socket_write bs t := (Ok (zlen bs), mkTable (used t) (rows t) (helpers t) (sent_bytes t ++ bs))
}.

Lemma existsb_end_row w q x rs : existsb (fun r => fst r =? x) (map (end_row w q) rs) = existsb (fun r => fst r =? x) rs.
Proof. induction rs as [|[k v] rs IH]; [done|]. cbn. rewrite IH. unfold end_row. cbn. by destruct (k =? q). Qed.
Lemma listed_drop q x t : listed (drop_row q t) x = listed t x && negb (x =? q).
Proof.
  unfold listed, drop_row. cbn. rewrite <- !andb_assoc. f_equal. f_equal. induction (rows t) as [|[k v] rs IH]; [done|]. cbn.
  destruct (Z.eqb_spec k q) as [->|Hk]; cbn; rewrite IH; destruct (Z.eqb_spec x q) as [->|Hx]; cbn.
  - by rewrite !andb_false_r.
  - rewrite !andb_true_r. by destruct (Z.eqb_spec q x) as [->|].
  - destruct (Z.eqb_spec k q); [done|]. by rewrite !andb_false_r.
  - by rewrite !andb_true_r.
Qed.
Lemma listed_signal pid sig t x : listed (snd (signal_process pid sig t)) x = listed t x.
Proof. unfold signal_process. cbn. destruct (sig =? SIGKILL); [|done]. unfold listed, end_process. cbn. by rewrite existsb_end_row. Qed.

#[global, refine] Instance table_laws : OsLaws Table := { child := listed }.
Proof.
  - intros t q. unfold listed. destruct (Z.ltb_spec 0 q); done.
  - intros exe args t. cbn. split_and!; [lia| |].
    + unfold listed. destruct (Z.leb_spec (Z.of_nat (used t) + 1) (Z.of_nat (used t))); [lia|]. by rewrite andb_false_r.
    + intros q. unfold listed. cbn [used rows]. rewrite existsb_app. cbn [existsb fst]. rewrite orb_false_r.
      destruct (Z.eqb_spec q (Z.of_nat (used t) + 1)) as [->|Hq].
      * rewrite Z.eqb_refl, !andb_true_r, orb_true_r, andb_true_r.
        destruct (Z.ltb_spec 0 (Z.of_nat (used t) + 1)); [|lia]. destruct (Z.leb_spec (Z.of_nat (used t) + 1) (Z.of_nat (S (used t)))); [|lia].
        by rewrite orb_true_r.
      * destruct (Z.eqb_spec (Z.of_nat (used t) + 1) q); [lia|]. rewrite andb_false_r, !orb_false_r. f_equal. f_equal.
        apply eq_true_iff_eq. rewrite !Z.leb_le. lia.
  - done.
  - intros. apply listed_signal.
  - intros. apply listed_signal.
  - done.
  - done.
  - done.
  - done.
  - intros t r t'. cbn. destruct (ended (rows t)) as [[q [code|sig|]]|]; [intros [= <- <-] x; cbn..|].
    + apply listed_drop.
    + apply listed_drop.
    + by rewrite andb_true_r.
    + destruct (helpers t); [destruct (rows t); [|done]|]; intros [= <- <-] x; cbn; [by rewrite andb_true_r|].
      unfold listed. cbn. destruct (Z.eqb_spec x 0) as [->|]; [done|]. by rewrite andb_true_r.
  - intros t pid. cbn. by destruct (listed t pid).
  - intros t pid q. cbn. apply listed_drop.
Defined.

(** ** Schedules: a run of the threads on the table *)
Inductive Move := EMonitor | EComms (received : result Transport.RawMessage) | EShutdown | EEnd (q : Z) (w : Wstatus).
Section schedule.
Context (malloc : Z -> option bytes) (restarter : bytes) (secure_env_open restart : bool).

Definition do_event (ev : Move) (s : Sys Table) : option (Sys Table) :=
  match ev with
  | EMonitor => monitor_turn restart s
  | EComms received => comms_turn malloc restarter secure_env_open received s
  | EShutdown => match monitor_pc s with MDone _ => Some (stop_running s) | _ => None end
  | EEnd q w => Some (mkSys (running s) (entries s) (end_process w q (os s)) (monitor_pc s) (comms_pc s))
  end.
Fixpoint do_events (evs : list Move) (s : Sys Table) : option (Sys Table) :=
  match evs with
  | [] => Some s
  | ev :: evs => match do_event ev s with Some s => do_events evs s | None => None end
  end.

Lemma do_events_steps evs s s' :
  do_events evs s = Some s' -> rtc (step malloc restarter secure_env_open restart) s s'.
Proof.
  revert s. induction evs as [|ev evs IH]; intros s Hrun; [by simplify_eq/=|]. cbn in Hrun.
  destruct (do_event ev s) as [s1|] eqn:E; [|done]. eapply rtc_l; [|by apply IH]. destruct ev; cbn in E.
  - by apply step_monitor.
  - by eapply step_comms.
  - destruct (monitor_pc s) eqn:Hpc; simplify_eq. by eapply step_shutdown.
  - simplify_eq. apply step_world. intros x. cbn. unfold listed, end_process. cbn. by rewrite existsb_end_row.
Qed.
End schedule.

Definition some_memory : Z -> option bytes := fun n => Some (replicate (Z.to_nat n) "000"%char).
Definition two_processes : Properties Table :=
  AddCommand (mkCommand [str "log_tee"] None (KillSubprocessFallback (fun _ o => (kFailure, o)))) kNonCriticalSupport
    (AddCommand (mkCommand [str "bin/crosvm"] None KillSubprocess) kVmm (mkProperties false [] [] [])).
Definition no_processes : Table := mkTable 0 [] 0 [].
Definition run_two (evs : list Move) : option (Sys Table) :=
  let '((_, es), t) := StartSubprocesses two_processes no_processes in
  do_events some_memory (str "process_restarter") false false evs (started es t).
Definition stop_request : Transport.RawMessage := Transport.mkRawMessage kStop false 0 [].

(** The virtual machine exits with code 0; the log process is stopped. *)
Definition graceful : list Move := [EMonitor; EEnd 1 (WExited 0); EMonitor; EMonitor; EShutdown; EComms (Ok stop_request)].

Lemma no_process_left_witness :
  exists s res o2, run_two graceful = Some s /\ finish s (os s) = (res, o2) /\ (forall q, child o2 q = false) /\ res = Ok tt.
Proof.
  destruct (run_two graceful) as [s|] eqn:E; [|by vm_compute in E]. exists s.
  destruct (StartSubprocesses two_processes no_processes) as [[r es] t] eqn:Hst.
  assert (Hr : r = Ok tt) by (assert (Hf : fst (fst (StartSubprocesses two_processes no_processes)) = Ok tt) by reflexivity; by rewrite Hst in Hf).
  subst r. unfold run_two in E. rewrite Hst in E.
  assert (Hend : (exists r, monitor_pc s = MDone r) /\ exists c, comms_pc s = CDone c).
  { clear -E Hst. vm_compute in Hst. simplify_eq. vm_compute in E. simplify_eq. cbn. eauto. }
  destruct Hend as [[r Hr] [c Hc]].
  destruct (no_process_left some_memory (str "process_restarter") false false two_processes no_processes es t s r c)
    as (res & o2 & Hf & Hnone & Hiff).
  - intros q. unfold child. cbn. unfold listed. cbn. by rewrite andb_false_r.
  - apply Forall_cons. split; [apply tame_kill|]. apply Forall_cons. split; [by apply tame_fallback|]. by apply Forall_nil.
  - done.
  - by eapply do_events_steps.
  - done.
  - done.
  - done.
  - exists res, o2. split_and!; [done|done|done|]. apply Hiff. clear -E Hst Hr. vm_compute in Hst. simplify_eq. vm_compute in E. simplify_eq.
    cbn in Hr. simplify_eq. split; [done|]. repeat constructor.
Defined.


(** A request to stop can be reported as failed although every process ended as asked:
    when a process exits between the request and the wait that the request wakes, the
    watching thread collects it but leaves its entry, and stopping that entry again
    fails. *)
Theorem stop_race_reports_failure :
  exists s o2, run_two [EMonitor; EComms (Ok stop_request); EComms (Ok stop_request); EEnd 2 (WExited 0);
      EComms (Ok stop_request); EMonitor; EShutdown; EComms (Ok stop_request)] = Some s /\
    monitor_pc s = MDone (Ok tt) /\ comms_pc s = CDone (Ok tt) /\
    finish s (os s) = (Err "Didn't stop all subprocesses", o2) /\ rows o2 = [].
Proof. eexists _, _. split; [vm_compute; reflexivity|]. split_and!; by vm_compute. Qed.
End ProcessMonitor.
