(* ===== verification/Restarter.v ===== *)
(** * The process restarter (host/commands/process_restarter, process/execute.cc)

    A program that runs another one again as long as it ends in one of the selected ways.
    It stands in front of crosvm and other processes of the monitor.  [Execute] is over
    the system of [ProcessMonitor]; the loop is over any way to execute a command. *)
From S2P Require Import Prelude CppString Flags GflagsCompat SharedBuf Transport ProcessMonitor.

Module Restarter.
Import CppString Flags GflagsCompat ProcessMonitor.

Record Parser := mkParser {
  ignore_sigtstp : bool; when_dumped : bool; when_killed : bool; when_exited_with_failure : bool;
  when_exited_with_code : Z; first_time_argument : bytes
}.
Definition Parser_ : Parser := mkParser false false false false (-1) [].

Definition ignore_sigtstp_ref : ref Parser bool := mkRef ignore_sigtstp (fun v p =>
  mkParser v (when_dumped p) (when_killed p) (when_exited_with_failure p) (when_exited_with_code p) (first_time_argument p)).
Definition when_dumped_ref : ref Parser bool := mkRef when_dumped (fun v p =>
  mkParser (ignore_sigtstp p) v (when_killed p) (when_exited_with_failure p) (when_exited_with_code p) (first_time_argument p)).
Definition when_killed_ref : ref Parser bool := mkRef when_killed (fun v p =>
  mkParser (ignore_sigtstp p) (when_dumped p) v (when_exited_with_failure p) (when_exited_with_code p) (first_time_argument p)).
Definition when_exited_with_failure_ref : ref Parser bool := mkRef when_exited_with_failure (fun v p =>
  mkParser (ignore_sigtstp p) (when_dumped p) (when_killed p) v (when_exited_with_code p) (first_time_argument p)).
Definition when_exited_with_code_ref : ref Parser Z := mkRef when_exited_with_code (fun v p =>
  mkParser (ignore_sigtstp p) (when_dumped p) (when_killed p) (when_exited_with_failure p) v (first_time_argument p)).
Definition first_time_argument_ref : ref Parser bytes := mkRef first_time_argument (fun v p =>
  mkParser (ignore_sigtstp p) (when_dumped p) (when_killed p) (when_exited_with_failure p) (when_exited_with_code p) v).

(** ** Parsing *)
Section parse.
Context `{Absl}.

(** The parser, the log, the output, and the variable of --helpxml. *)
Definition PStore : Type := Parser * list bytes * bytes * bool.
Definition parser_ref {T} (r : ref Parser T) : ref PStore T :=
  mkRef (fun '(p, l, o, x) => deref r p) (fun v '(p, l, o, x) => (store r v p, l, o, x)).
Definition log_ref : ref PStore (list bytes) := mkRef (fun '(p, l, o, x) => l) (fun v '(p, l, o, x) => (p, v, o, x)).
Definition out_ref : ref PStore bytes := mkRef (fun '(p, l, o, x) => o) (fun v '(p, l, o, x) => (p, l, v, x)).
Definition matched_help_xml_ref : ref PStore bool := mkRef (fun '(p, l, o, x) => x) (fun v '(p, l, o, x) => (p, l, o, v)).

Definition restarter_flags (kHelp : bytes) : result (list (Flag PStore)) :=
  let* f1 := GflagsCompatFlag_bool (str "ignore_sigtstp") (parser_ref ignore_sigtstp_ref) in
  let* f2 := GflagsCompatFlag_bool (str "when_dumped") (parser_ref when_dumped_ref) in
  let* f3 := GflagsCompatFlag_bool (str "when_killed") (parser_ref when_killed_ref) in
  let* f4 := GflagsCompatFlag_bool (str "when_exited_with_failure") (parser_ref when_exited_with_failure_ref) in
  let* f5 := GflagsCompatFlag_int int32_t (str "when_exited_with_code") (parser_ref when_exited_with_code_ref) in
  let* f6 := GflagsCompatFlag_string (str "first_time_argument") (parser_ref first_time_argument_ref) in
  let flags := [f1; f2; f3; f4; f5; f6] in
  let* help := HelpFlag flags log_ref kHelp in
  let* xml := HelpXmlFlag flags out_ref matched_help_xml_ref [] in
  Ok (flags ++ [help; xml]).

(** The parser and the arguments left. *)
Definition ConsumeAndParse (moved_from : bytes -> bytes) (kHelp : bytes) (args : list bytes) : result Parser * list bytes :=
  match restarter_flags kHelp with
  | Ok flags =>
      match ConsumeFlags moved_from flags (mkOpts true true) ((Parser_, [], [], false), args) with
      | (Ok _, ((p, _, _, _), args)) => (Ok p, args)
      | (fl, (_, args)) => (fail_as fl, args)
      end
  | fl => (fail_as fl, args)
  end.
End parse.

(** ** Running *)
Definition ShouldRestartProcess (info : Siginfo) (parsed : Parser) : bool :=
  (bool_decide (si_code info = CLD_DUMPED) && when_dumped parsed) ||
  (bool_decide (si_code info = CLD_KILLED) && when_killed parsed) ||
  (bool_decide (si_code info = CLD_EXITED) && when_exited_with_failure parsed && negb (si_status info =? 0)) ||
  (bool_decide (si_code info = CLD_EXITED) && (si_status info =? when_exited_with_code parsed)).

(** The strace file for an executable, from the configuration. *)
Definition OptionsForExecutable (straced : list bytes) (log_path : bytes -> bytes) (name : bytes) : bytes :=
  let short_name := strip_directory name in
  if decide (short_name ∈ straced) then log_path (str "/strace-" ++ short_name) else [].

Definition Execute {O} `{Os O} (command : list bytes) (strace : bytes) : M O Siginfo := fun o =>
  let (p, o) := Start (mkCommand command None KillSubprocess) strace o in
  if started_ p then
    match Wait p o with
    | ((Some info, _), o) => (Ok info, o)
    | ((None, _), o) => (Err "Lost track of process", o)
    end
  else (Err "Subprocess failed to start.", o).

Section run.
Context {E : Type} (execute : list bytes -> bytes -> M E Siginfo) (options : bytes -> result bytes).

Definition exit_value (info : Siginfo) : Z := if bool_decide (si_code info = CLD_EXITED) then si_status info else 1.

(** The loop, for at most [fuel] runs. *)
Fixpoint restart_loop (fuel : nat) (parsed : Parser) (needs_pop : bool) (exec_args : list bytes) : M E Z :=
  match fuel with
  | O => lift Fuel
  | S fuel =>
      match exec_args with
      | [] => lift (Err "!exec_args.empty()")
      | front :: _ =>
          let! strace := lift (options front) in
          let! info := execute exec_args strace in
          let exec_args := if needs_pop then removelast exec_args else exec_args in
          if ShouldRestartProcess info parsed then restart_loop fuel parsed false exec_args
          else mret (exit_value info)
      end
  end.

Definition RunProcessRestarter `{Absl} (fuel : nat) (moved_from : bytes -> bytes) (kHelp : bytes) (args : list bytes) : M E Z :=
  match ConsumeAndParse moved_from kHelp args with
  | (Ok parsed, exec_args) =>
      let first := first_time_argument parsed in
      if bool_decide (first = []) then restart_loop fuel parsed false exec_args
      else restart_loop fuel parsed true (exec_args ++ [first])
  | (fl, _) => lift (fail_as fl)
  end.

(** ** What it runs *)
Inductive performs : E -> list (list bytes * Siginfo) -> E -> Prop :=
| performs_nil e : performs e [] e
| performs_cons e e1 e2 cmd front strace info l :
    head cmd = Some front -> options front = Ok strace -> execute cmd strace e = (Ok info, e1) -> performs e1 l e2 ->
    performs e ((cmd, info) :: l) e2.

Lemma restart_loop_again fuel parsed args infos last e e' :
  args <> [] -> Forall (fun i => ShouldRestartProcess i parsed = true) infos -> ShouldRestartProcess last parsed = false ->
  performs e ((fun i => (args, i)) <$> (infos ++ [last])) e' -> (length infos < fuel)%nat ->
  restart_loop fuel parsed false args e = (Ok (exit_value last), e').
Proof.
  intros Hne Hall Hlast. revert fuel e. induction Hall as [|i infos Hi Hall IH]; intros fuel e Hp Hf; (destruct fuel as [|fuel]; [cbn in Hf; lia|]).
  - cbn in Hp. inversion Hp as [|? e1 ? ? front strace ? ? Hh Ho He Hnil]; subst. inversion Hnil; subst.
    destruct args as [|a args]; [done|]. cbn in Hh. simplify_eq. cbn [restart_loop]. unfold mbind, lift. rewrite Ho, He, Hlast. done.
  - rewrite fmap_app in Hp. cbn in Hp. inversion Hp as [|? e1 ? ? front strace ? ? Hh Ho He Hrest]; subst.
    destruct args as [|a args]; [done|]. cbn in Hh. simplify_eq. cbn [restart_loop]. unfold mbind, lift. rewrite Ho, He, Hi.
    apply IH; [by rewrite fmap_app|cbn in Hf; lia].
Qed.
End run.

(** The restarter runs exactly the command after the separator: first with the extra
    argument of --first_time_argument, if there is one, then without it, again and again
    while the process ends in a selected way; at the first other end it returns the exit
    code, or 1 if the process did not exit by itself. *)
Theorem restarter_runs {E} `{Absl} (execute : list bytes -> bytes -> M E Siginfo) options moved_from kHelp args parsed exec_args
    first_info infos last e e' fuel :
  ConsumeAndParse moved_from kHelp args = (Ok parsed, exec_args) -> exec_args <> [] ->
  let first := first_time_argument parsed in
  let first_args := exec_args ++ (if bool_decide (first = []) then [] else [first]) in
  ShouldRestartProcess first_info parsed = true -> Forall (fun i => ShouldRestartProcess i parsed = true) infos ->
  ShouldRestartProcess last parsed = false ->
  performs execute options e ((first_args, first_info) :: ((fun i => (exec_args, i)) <$> (infos ++ [last]))) e' ->
  (S (length infos) < fuel)%nat ->
  RunProcessRestarter execute options fuel moved_from kHelp args e = (Ok (exit_value last), e').
Proof.
  intros Hparse Hne first first_args Hfirst Hall Hlast Hp Hf. unfold RunProcessRestarter. rewrite Hparse. fold first.
  destruct fuel as [|fuel]; [lia|]. inversion Hp as [|? e1 ? ? front strace ? ? Hh Ho He Hrest]; subst. subst first_args.
  destruct (bool_decide (first = [])).
  - rewrite app_nil_r in *. destruct exec_args as [|a l]; [done|]. cbn in Hh. simplify_eq. cbn [restart_loop].
    unfold mbind, lift. rewrite Ho, He, Hfirst. eapply restart_loop_again; eauto. lia.
  - destruct exec_args as [|a l]; [done|]. cbn [app head] in Hh, He. assert (Ef : a = front) by congruence. subst front. cbn [app restart_loop].
    unfold mbind, lift. rewrite Ho, He, Hfirst. cbn [app] in *. change (a :: l ++ [first]) with ((a :: l) ++ [first]). rewrite removelast_last.
    eapply restart_loop_again; eauto. lia.
Qed.

(** A script of how the runs end. *)
Definition scripted : list bytes -> bytes -> M (list (list bytes) * list Siginfo) Siginfo :=
  fun cmd _ '(done_, script) =>
    match script with
    | [] => (Err "Lost track of process", (done_, []))
    | i :: script => (Ok i, (done_ ++ [cmd], script))
    end.

Lemma restarter_runs_witness :
  let killed := mkSiginfo CLD_KILLED 9 in
  RunProcessRestarter scripted (fun _ => Ok []) 5 (fun x => x) [] 
    [str "-when_killed"; str "--first_time_argument=--restore"; str "--"; str "crosvm"; str "run"] ([], [killed; killed; mkSiginfo CLD_EXITED 3]) =
    (Ok 3, ([[str "crosvm"; str "run"; str "--restore"]; [str "crosvm"; str "run"]; [str "crosvm"; str "run"]], [])).
Proof.
  intros killed.
  apply (restarter_runs scripted (fun _ => Ok []) (fun x => x) []
    [str "-when_killed"; str "--first_time_argument=--restore"; str "--"; str "crosvm"; str "run"]
    (mkParser false false true false (-1) (str "--restore")) [str "crosvm"; str "run"] killed [killed] (mkSiginfo CLD_EXITED 3)).
  - vm_compute. reflexivity.
  - discriminate.
  - reflexivity.
  - repeat constructor.
  - reflexivity.
  - repeat (eapply performs_cons; [reflexivity|reflexivity|reflexivity|]). apply performs_nil.
  - cbn. lia.
Defined.
End Restarter.
