(* ===== verification/KernelLog.v ===== *)
(** * Kernel log events (host/commands/kernel_log_monitor)

    kernel_log_server.cc watches the guest's kernel log for messages of the boot,
    main.cc passes them to pipes, and utils.cc writes and reads them there.  JSON is a
    library: the class [Json] has what is used of it. *)
From S2P Require Import Prelude CppString IO InMemory DataViewer SharedBuf.

Module KernelLog.
Import CppString IO SharedBuf.

(** ** Events *)
Definition BootStarted : Z := 0.
Definition BootCompleted : Z := 1.
Definition BootFailed : Z := 2.
Definition WifiNetworkConnected : Z := 3.
Definition MobileNetworkConnected : Z := 4.
Definition AdbdStarted : Z := 5.
Definition ScreenChanged : Z := 6.
Definition EthernetNetworkConnected : Z := 7.
Definition KernelLoaded : Z := 8.
Definition BootloaderLoaded : Z := 9.
Definition DisplayPowerModeChanged : Z := 10.
Definition FastbootStarted : Z := 11.
Definition BootPending : Z := 12.
Definition HibernationExited : Z := 13.

(** The message about an event, a JSON object with two members. *)
Record Message := mkMessage { event : Z; metadata : gmap bytes bytes }.
#[global] Instance Message_eq_dec : EqDecision Message.
Proof. solve_decision. Defined.
#[global] Instance Message_countable : Countable Message.
Proof. apply (inj_countable' (fun m => (event m, metadata m)) (fun '(e, d) => mkMessage e d)). by intros []. Defined.

Inductive EventFormat := kBare | kKeyValuePair | kPrefix.

Definition kStageTable : list (bytes * Z * EventFormat) :=
  [ (str "VIRTUAL_DEVICE_BOOT_STARTED", BootStarted, kBare);
    (str "VIRTUAL_DEVICE_BOOT_PENDING", BootPending, kPrefix);
    (str "VIRTUAL_DEVICE_BOOT_COMPLETED", BootCompleted, kBare);
    (str "VIRTUAL_DEVICE_BOOT_FAILED", BootFailed, kPrefix);
    (str "VIRTUAL_DEVICE_NETWORK_MOBILE_CONNECTED", MobileNetworkConnected, kBare);
    (str "VIRTUAL_DEVICE_NETWORK_WIFI_CONNECTED", WifiNetworkConnected, kBare);
    (str "VIRTUAL_DEVICE_NETWORK_ETHERNET_CONNECTED", EthernetNetworkConnected, kBare);
    (str "init: starting service 'adbd'...", AdbdStarted, kBare);
    (str "init: starting service 'fastbootd'...", FastbootStarted, kBare);
    (str "Listening for fastboot command on tcp", FastbootStarted, kBare);
    (str "Started Fastboot over TCP", FastbootStarted, kBare);
    (str "VIRTUAL_DEVICE_SCREEN_CHANGED", ScreenChanged, kKeyValuePair);
    (str "U-Boot 20", BootloaderLoaded, kBare);
    (str "] Linux version", KernelLoaded, kBare);
    (str "VIRTUAL_DEVICE_DISPLAY_POWER_MODE_CHANGED", DisplayPowerModeChanged, kKeyValuePair);
    (str "PM: hibernation: hibernation exit", HibernationExited, kBare);
    (str "PM: hibernation: hibernation exit", AdbdStarted, kBare) ].

(** [StripAsciiWhitespace] of absl, and the two functions of jsoncpp. *)
Definition ascii_space (c : ascii) : bool := let z := Z_of_byte c in (z =? 32) || ((9 <=? z) && (z <=? 13)).
Class Strip := {
  StripAsciiWhitespace : bytes -> bytes;
  Strip_part s : exists a b, s = a ++ StripAsciiWhitespace s ++ b /\ forallb ascii_space a = true /\ forallb ascii_space b = true;
  Strip_ends s : forallb (fun c => negb (ascii_space c))
    (option_list (head (StripAsciiWhitespace s)) ++ option_list (last (StripAsciiWhitespace s))) = true
}.
Class Json := {
  writeString : Message -> bytes;
  ParseJson : bytes -> result Message;
  Parse_write m : ParseJson (writeString m) = Ok m;
  write_nonempty m : writeString m <> []
}.

(** ** Messages of a line *)
Fixpoint find_sub (p s : bytes) : option Z :=
  if starts_with p s then Some 0 else match s with [] => None | _ :: s => (fun i => i + 1) <$> find_sub p s end.

Section server.
Context `{Absl} `{Strip}.

Definition add_field (m : gmap bytes bytes) (field : bytes) : gmap bytes bytes :=
  let field := StripAsciiWhitespace field in
  if bool_decide (field = []) then m
  else match StrSplit field "="%char with
       | [k; v] => <[k := v]> m
       | _ => m
       end.
Definition key_values (rest : bytes) : gmap bytes bytes := foldl add_field ∅ (StrSplit rest " "%char).

Definition stage_message (line_ : bytes) (entry : bytes * Z * EventFormat) : list Message :=
  let '(stage, ev, format) := entry in
  match find_sub stage line_ with
  | None => []
  | Some pos =>
      [mkMessage ev match format with kKeyValuePair => key_values (zdrop (pos + zlen stage) line_) | _ => ∅ end]
  end.

(** ** Subscribers *)
Inductive SubscriptionAction := ContinueSubscription | CancelSubscription.
Context {Sub St : Type} (callback : Sub -> Message -> St -> SubscriptionAction * St).

(** [active - idx] subscribers have not been called. *)
Fixpoint process_from (message : Message) (n : nat) (idx : nat) (subscribers : list Sub) (st : St) : list Sub * St :=
  match n with
  | O => (take idx subscribers, st)
  | S n =>
      match subscribers !! idx with
      | None => (subscribers, st)
      | Some s =>
          match callback s message st with
          | (ContinueSubscription, st) => process_from message n (S idx) subscribers st
          | (CancelSubscription, st) =>
              match subscribers !! (idx + n)%nat with
              | Some last => process_from message n idx (<[idx := last]> (<[(idx + n)%nat := s]> subscribers)) st
              | None => (subscribers, st)
              end
          end
      end
  end.
Definition ProcessSubscriptions (message : Message) (subscribers : list Sub) (st : St) : list Sub * St :=
  process_from message (length subscribers) 0 subscribers st.

(** ** The server *)
Record Server := mkServer { line_ : bytes; subscribers_ : list Sub; log_ : bytes; st_ : St }.

Definition newline : ascii := byte_of_Z 10.
Definition send_message (s : Server) (m : Message) : Server :=
  let '(subs, st) := ProcessSubscriptions m (subscribers_ s) (st_ s) in mkServer (line_ s) subs (log_ s) st.
(** The line is complete: the messages of its stages, in the order of the table. *)
Definition on_newline (s : Server) : Server :=
  let s' := foldl (fun s e => foldl send_message s (stage_message (line_ s) e)) s kStageTable in
  mkServer [] (subscribers_ s') (log_ s') (st_ s').
Definition on_char (s : Server) (c : ascii) : Server :=
  let s := if bool_decide (c = newline) then on_newline s else s in
  mkServer (line_ s ++ [c]) (subscribers_ s) (log_ s) (st_ s).

(** [ret]: what the read returns, [logged]: how much the log file takes, [None] for
    an error. *)
Definition HandleIncomingMessage (ret : option bytes) (logged : option Z) (s : Server) : bool * Server :=
  match ret with
  | None | Some [] => (false, s)
  | Some buf =>
      match logged with
      | None => (false, s)
      | Some n => (true, foldl on_char (mkServer (line_ s) (subscribers_ s) (log_ s ++ ztake n buf) (st_ s)) buf)
      end
  end.
Definition SubscribeToEvents (c : Sub) (s : Server) : Server :=
  mkServer (line_ s) (subscribers_ s ++ [c]) (log_ s) (st_ s).
End server.

(** ** Messages on a pipe *)
Section codec.
Context `{Json}.

Definition WriteEvent {W} `{Writer W} (event_message : Message) : M W bool :=
  let message_string := writeString event_message in
  let! retval := WriteAll (le_bytes 8 (zlen message_string)) in
  if retval <=? 0 then mret false
  else
    let! retval := WriteAll message_string in
    mret (negb (retval <=? 0)).

(** [uninit]: the bytes of [length] before the read. *)
Definition ReadEvent {R} `{Reader R} (uninit : bytes) : M R (option Message) :=
  let! (bytes_read, buf) := ReadExact 8 in
  if bytes_read <? 0 then lift (Err "Failed reading length")
  else if bytes_read =? 0 then mret None
  else
    let length := le_value (ztake 8 (buf ++ zdrop bytes_read uninit)) in
    if InMemory.kMaxVector <? length then lift (Fatal "std::length_error")
    else
      let! (bytes_read, buf) := ReadExact length in
      if bytes_read <? 0 then lift (Err "Failed reading event")
      else if bytes_read =? 0 then mret None
      else
        let! message := lift (ParseJson (buf ++ repeat " "%char (Z.to_nat (length - bytes_read)))) in
        mret (Some message).

(** main.cc: the callback of a descriptor, which is closed when it fails. *)
Definition notify_fd {W} `{Writer W} (fd : Z) (message : Message) (fds : gmap Z W) : SubscriptionAction * gmap Z W :=
  match fds !! fd with
  | Some w =>
      match WriteEvent message w with
      | (Ok true, w) => (ContinueSubscription, <[fd := w]> fds)
      | _ => (CancelSubscription, delete fd fds)
      end
  | None => (CancelSubscription, fds)
  end.
End codec.

(** ** Every subscriber is called once *)
Section subscribers.
Context {Sub St : Type} (callback : Sub -> Message -> St -> SubscriptionAction * St).

(** Calling subscribers in an order: those that continue, and the state. *)
Fixpoint calls (message : Message) (order : list Sub) (st : St) : list Sub * St :=
  match order with
  | [] => ([], st)
  | s :: order =>
      let '(action, st) := callback s message st in
      let '(kept, st) := calls message order st in
      (match action with ContinueSubscription => s :: kept | CancelSubscription => kept end, st)
  end.

Lemma insert_middle (pre rest : list Sub) x y : <[length pre := y]> (pre ++ x :: rest) = pre ++ y :: rest.
Proof. rewrite insert_app_r_alt by done. by rewrite Nat.sub_diag. Qed.
Lemma swap_last (pre rest : list Sub) s n :
  (n <= length rest)%nat ->
  exists last mid tl, (pre ++ s :: rest) !! (length pre + n)%nat = Some last /\
    <[length pre := last]> (<[(length pre + n)%nat := s]> (pre ++ s :: rest)) = pre ++ mid ++ tl /\ length mid = n /\
    s :: mid ≡ₚ take (S n) (s :: rest).
Proof.
  intros Hn. destruct n as [|n].
  - exists s, [], (s :: rest). rewrite Nat.add_0_r, list_lookup_middle by done. split_and!; [done| |done|done].
    assert (E : <[length pre := s]> (pre ++ s :: rest) = pre ++ s :: rest) by (apply list_insert_id, list_lookup_middle; done).
    by rewrite !E.
  - destruct (lookup_lt_is_Some_2 rest n) as [x Hx]; [lia|].
    exists x, (x :: take n rest), (s :: drop (S n) rest).
    assert (Hr : rest = take n rest ++ x :: drop (S n) rest) by (by rewrite take_drop_middle).
    assert (Hl : length (take n rest) = n) by (rewrite length_take; lia). split_and!.
    + rewrite lookup_app_r by lia. replace (length pre + S n - length pre)%nat with (S n) by lia. done.
    + rewrite insert_app_r. change (<[S n := s]> (s :: rest)) with (s :: <[n := s]> rest).
      rewrite insert_middle. f_equal. cbn. f_equal. rewrite Hr at 1. rewrite <- Hl at 1. apply insert_middle.
    + cbn. by rewrite Hl.
    + cbn [take]. rewrite (take_S_r _ _ x) by done. apply perm_skip. by rewrite <- Permutation_cons_append.
Qed.

Lemma process_from_calls message n : forall pre rest st,
  (n <= length rest)%nat ->
  exists order kept, order ≡ₚ take n rest /\ (calls message order st).1 = kept /\
    (process_from callback message n (length pre) (pre ++ rest) st).1 ≡ₚ pre ++ kept /\
    (process_from callback message n (length pre) (pre ++ rest) st).2 = (calls message order st).2.
Proof.
  induction n as [|n IH]; intros pre rest st Hn.
  - exists [], []. cbn. rewrite take_app_length, app_nil_r. done.
  - destruct rest as [|s rest]; [cbn in Hn; lia|]. cbn [process_from length] in *. rewrite list_lookup_middle by done.
    destruct (callback s message st) as [[] st1] eqn:Ec.
    + destruct (IH (pre ++ [s]) rest st1) as (order & kept & Ho & Hk & Hp1 & Hp2); [lia|].
      rewrite length_app, <- app_assoc in Hp1, Hp2. cbn [length app] in Hp1, Hp2. rewrite Nat.add_1_r in Hp1, Hp2.
      exists (s :: order), (s :: kept). cbn [take calls]. rewrite Ec.
      destruct (calls message order st1) as [k st2] eqn:Ek. cbn in Hk, Hp2 |- *. subst k.
      split_and!; [by rewrite Ho|done| |done]. rewrite Hp1. by rewrite <- app_assoc.
    + destruct (swap_last pre rest s n) as (x & mid & tl & Hx & Hs & Hm & Hp); [lia|]. rewrite Hx, Hs.
      destruct (IH pre (mid ++ tl) st1) as (order & kept & Ho & Hk & Hp1 & Hp2); [rewrite length_app; lia|].
      assert (Et : take n (mid ++ tl) = mid) by (rewrite <- Hm; apply take_app_length). rewrite Et in Ho.
      exists (s :: order), kept. cbn [calls]. rewrite Ec. destruct (calls message order st1) as [k st2] eqn:Ek.
      cbn in Hk, Hp2 |- *. subst k. split_and!; [by rewrite Ho|done|done|done].
Qed.

(** A message reaches every subscriber exactly once, whichever cancel while it is
    delivered: there is an order of all subscribers such that calling them in it gives
    the final state, and the ones kept are those that continue. *)
Theorem subscribers_called_once (message : Message) (subscribers : list Sub) (st : St) :
  exists order, order ≡ₚ subscribers /\
    (ProcessSubscriptions callback message subscribers st).1 ≡ₚ (calls message order st).1 /\
    (ProcessSubscriptions callback message subscribers st).2 = (calls message order st).2.
Proof.
  destruct (process_from_calls message (length subscribers) [] subscribers st) as (order & kept & Ho & <- & H1 & H2); [done|].
  exists order. split_and!; [by rewrite firstn_all in Ho|exact H1|exact H2].
Qed.
End subscribers.

(** ** The log as a whole *)
Section text.
Context `{Absl} `{Strip}.

(** What a log says: the messages of its complete lines. *)
Definition line_messages (line : bytes) : list Message := flat_map (stage_message line) kStageTable.
Definition log_messages (text : bytes) : list Message := flat_map line_messages (removelast (split_on newline text)).

Lemma find_sub_pos p s i : find_sub p s = Some i -> 0 <= i.
Proof.
  revert i. induction s as [|c s IH]; intros i; cbn [find_sub].
  - destruct (starts_with p []); [intros [= <-]; lia|done].
  - destruct (starts_with p (c :: s)); [intros [= <-]; lia|].
    destruct (find_sub p s) as [j|]; [|done]. cbn. intros [= <-]. specialize (IH j eq_refl). lia.
Qed.
(** The newline that starts every line but the first does not matter. *)
Lemma stage_newline line e : e ∈ kStageTable -> stage_message (newline :: line) e = stage_message line e.
Proof.
  intros He. assert (Hs : head e.1.1 <> None /\ head e.1.1 <> Some newline).
  { revert e He. apply Forall_forall. by repeat constructor. }
  destruct e as [[stage ev] format]. cbn in Hs. unfold stage_message. cbn [find_sub].
  destruct stage as [|c stage]; [by destruct Hs|]. cbn [starts_with head] in *.
  rewrite bool_decide_false by (destruct Hs; congruence). cbn [andb]. destruct (find_sub (c :: stage) line) as [pos|] eqn:E; [|done].
  cbn. apply find_sub_pos in E. f_equal. f_equal. destruct format; try done. f_equal. cbn [zdrop].
  pose proof (zlen_nonneg (c :: stage)). rewrite (proj2 (Z.leb_gt _ _)) by lia. f_equal. lia.
Qed.
Lemma line_newline line : line_messages (newline :: line) = line_messages line.
Proof.
  unfold line_messages. assert (Hall : forall e, e ∈ kStageTable -> stage_message (newline :: line) e = stage_message line e)
    by (intros; by apply stage_newline). revert Hall. induction kStageTable as [|e t IH]; intros Hall; [done|]. cbn [flat_map].
  rewrite Hall by left. f_equal. apply IH. intros. apply Hall. by right.
Qed.

Context {Sub St : Type} (callback : Sub -> Message -> St -> SubscriptionAction * St).
Abbreviation Srv := (@Server Sub St).

Definition deliver (ms : list Message) (x : list Sub * St) : list Sub * St :=
  foldl (fun '(subs, st) m => ProcessSubscriptions callback m subs st) x ms.
Definition set_subscribers (x : list Sub * St) (s : Srv) : Srv := mkServer (line_ s) x.1 (log_ s) x.2.

Lemma send_deliver ms (s : Srv) :
  foldl (send_message callback) s ms = set_subscribers (deliver ms (subscribers_ s, st_ s)) s.
Proof.
  revert s. induction ms as [|m ms IH]; intros s; [by destruct s|]. cbn [foldl deliver]. rewrite IH. unfold send_message.
  by destruct (ProcessSubscriptions callback m (subscribers_ s) (st_ s)).
Qed.
Lemma deliver_app a b x : deliver (a ++ b) x = deliver b (deliver a x).
Proof. apply foldl_app. Qed.
Lemma newline_delivers (s : Srv) :
  on_newline callback s = mkServer [] (deliver (line_messages (line_ s)) (subscribers_ s, st_ s)).1 (log_ s)
                            (deliver (line_messages (line_ s)) (subscribers_ s, st_ s)).2.
Proof.
  unfold on_newline, line_messages. set (f := fun (s : Srv) e => foldl (send_message callback) s (stage_message (line_ s) e)).
  assert (Hf : forall t s, foldl f s t = set_subscribers (deliver (flat_map (stage_message (line_ s)) t) (subscribers_ s, st_ s)) s).
  { induction t as [|e t IH]; intros s'; [by destruct s'|]. cbn [foldl flat_map]. rewrite IH. unfold f. rewrite send_deliver.
    rewrite deliver_app. unfold set_subscribers. cbn. by destruct (deliver (stage_message _ _) _). }
  by rewrite Hf.
Qed.

(** The visible part of the current line. *)
Definition visible (line : bytes) : bytes :=
  match line with c :: l => if bool_decide (c = newline) then l else line | [] => [] end.
Lemma line_visible line : line_messages line = line_messages (visible line).
Proof.
  destruct line as [|c l]; [done|]. cbn [visible]. case_bool_decide; [|done]. subst. apply line_newline.
Qed.

Lemma chars_deliver text : forall s : Srv,
  newline ∉ visible (line_ s) ->
  let ms := flat_map line_messages (removelast (split_on newline (visible (line_ s) ++ text))) in
  let s' := foldl (on_char callback) s text in
  subscribers_ s' = (deliver ms (subscribers_ s, st_ s)).1 /\ st_ s' = (deliver ms (subscribers_ s, st_ s)).2 /\
  log_ s' = log_ s /\ (newline ∉ visible (line_ s')) /\
  split_on newline (visible (line_ s) ++ text) =
    removelast (split_on newline (visible (line_ s) ++ text)) ++ [visible (line_ s')].
Proof.
  induction text as [|c text IH]; intros s Hv.
  - cbn. rewrite app_nil_r, split_on_plain by done. done.
  - intros ms s'. unfold ms, s'. cbn [foldl]. clear ms s'. set (s1 := on_char callback s c).
    destruct (decide (c = newline)) as [Ec|Ec].
    + subst c. set (x := deliver (line_messages (line_ s)) (subscribers_ s, st_ s)).
      assert (Es : s1 = mkServer [newline] x.1 (log_ s) x.2).
      { unfold s1, on_char. rewrite bool_decide_true by done. by rewrite newline_delivers. } rewrite Es. clear s1 Es.
      destruct (IH (mkServer [newline] x.1 (log_ s) x.2)) as (H1 & H2 & H3 & H4 & H5); [apply not_elem_of_nil|].
      cbn [line_ subscribers_ log_ st_ visible] in *. rewrite bool_decide_true in * by done. cbn [app] in *.
      rewrite split_on_app by done. set (ps := split_on newline text) in *.
      assert (Hr : removelast (visible (line_ s) :: ps) = visible (line_ s) :: removelast ps).
      { pose proof (split_on_nonempty newline text) as Hne. fold ps in Hne. by destruct ps. }
      rewrite Hr. cbn [flat_map]. rewrite deliver_app, <- line_visible. fold x.
      destruct x as [subs st]. split_and!; [done..|]. cbn [app fst snd] in *. by rewrite <- H5.
    + assert (Hvis : visible (line_ s ++ [c]) = visible (line_ s) ++ [c]).
      { destruct (line_ s) as [|d l]; cbn; [by rewrite bool_decide_false|]. by case_bool_decide. }
      assert (Es : s1 = mkServer (line_ s ++ [c]) (subscribers_ s) (log_ s) (st_ s)).
      { unfold s1, on_char. by rewrite bool_decide_false. } rewrite Es. clear s1 Es.
      destruct (IH (mkServer (line_ s ++ [c]) (subscribers_ s) (log_ s) (st_ s))) as (H1 & H2 & H3 & H4 & H5).
      { cbn [line_]. rewrite Hvis, not_elem_of_app, list_elem_of_singleton. split; [done|congruence]. }
      cbn [line_ subscribers_ log_ st_] in *. rewrite Hvis, <- app_assoc in H1, H2, H5. done.
Qed.

Definition set_log (l : bytes) (s : Srv) : Srv := mkServer (line_ s) (subscribers_ s) l (st_ s).
Lemma on_char_log l s c : on_char callback (set_log l s) c = set_log l (on_char callback s c).
Proof. unfold on_char. case_bool_decide; [|done]. by rewrite !newline_delivers. Qed.
Lemma on_chars_log l text s : foldl (on_char callback) (set_log l s) text = set_log l (foldl (on_char callback) s text).
Proof. revert s. induction text as [|c text IH]; intros s; [done|]. cbn [foldl]. by rewrite on_char_log, IH. Qed.

(** Reads that succeed, with a log file that takes what it is given. *)
Definition reads (bufs : list bytes) (s : Srv) : Srv :=
  foldl (fun s buf => (HandleIncomingMessage callback (Some buf) (Some (zlen buf)) s).2) s bufs.
Lemma reads_chars bufs s :
  reads bufs s = set_log (log_ s ++ concat bufs) (foldl (on_char callback) s (concat bufs)).
Proof.
  revert s. induction bufs as [|buf bufs IH]; intros s.
  - cbn. rewrite app_nil_r. by destruct s.
  - change (reads (buf :: bufs) s) with (reads bufs (HandleIncomingMessage callback (Some buf) (Some (zlen buf)) s).2).
    cbn [concat]. rewrite IH, foldl_app. destruct buf as [|c buf]; [done|].
    cbn [HandleIncomingMessage snd]. rewrite ztake_all by done.
    change (mkServer (line_ s) (subscribers_ s) (log_ s ++ c :: buf) (st_ s)) with (set_log (log_ s ++ c :: buf) s).
    rewrite !on_chars_log. set (s1 := foldl _ _ (concat bufs)). cbn. by rewrite <- app_assoc.
Qed.

(** C33. The log is understood line by line however the reads cut it: the subscribers get,
    in order, exactly the messages of the complete lines of the text, and the log file
    holds the text. *)
Theorem log_read_by_lines (bufs : list bytes) (s : Srv) :
  line_ s = [] ->
  (subscribers_ (reads bufs s), st_ (reads bufs s)) = deliver (log_messages (concat bufs)) (subscribers_ s, st_ s) /\
  log_ (reads bufs s) = log_ s ++ concat bufs.
Proof.
  intros Hl. rewrite reads_chars. split; [|done]. cbn.
  destruct (chars_deliver (concat bufs) s) as (H1 & H2 & _); [rewrite Hl; apply not_elem_of_nil|].
  rewrite Hl in H1, H2. cbn [visible app] in H1, H2. fold (log_messages (concat bufs)) in H1, H2.
  rewrite H1, H2. by destruct (deliver _ _).
Qed.
End text.

(** ** The pipe between the monitor and its subscribers *)
Section pipe.
Context `{Absl} `{Strip} `{Json}.

Definition frame (m : Message) : bytes := le_bytes 8 (zlen (writeString m)) ++ writeString m.
Definition small (m : Message) : Prop := zlen (writeString m) < 2 ^ 63.

Lemma frame_size m : zlen (frame m) = 8 + zlen (writeString m).
Proof. unfold frame. by rewrite zlen_app, zlen_le_bytes. Qed.
Lemma message_size m : 0 < zlen (writeString m).
Proof.
  pose proof (zlen_nonneg (writeString m)). assert (zlen (writeString m) <> 0); [|lia].
  intros E%zlen_0_nil. by apply write_nonempty in E.
Qed.

Lemma WriteEvent_spec {W} `{WriteLaws W} m (w : W) room :
  small m -> write_ok w room -> zlen (frame m) <= room ->
  exists w', WriteEvent m w = (Ok true, w') /\ write_ok w' (room - zlen (frame m)) /\ written w' = written w ++ frame m.
Proof.
  intros Hs Hok Hr. rewrite frame_size in Hr. pose proof (message_size m). unfold small in Hs. unfold WriteEvent. unfold mbind at 1.
  destruct (WriteAll_spec w room (le_bytes 8 (zlen (writeString m)))) as (w1 & -> & Hok1 & Hw1); rewrite ?zlen_le_bytes; [done|lia|lia|].
  rewrite zlen_le_bytes in *. change (Z.of_nat 8 <=? 0) with false. cbv iota. unfold mbind.
  destruct (WriteAll_spec w1 (room - Z.of_nat 8) (writeString m)) as (w2 & -> & Hok2 & Hw2); [done|lia|lia|].
  rewrite (proj2 (Z.leb_gt _ _)) by lia. exists w2. rewrite frame_size. split_and!; [done| |].
  - by replace (room - (8 + zlen (writeString m))) with (room - Z.of_nat 8 - zlen (writeString m)) by lia.
  - rewrite Hw2, Hw1. unfold frame. by rewrite <- app_assoc.
Qed.

Lemma ReadEvent_spec {R} `{ReadLaws R} m rest (r : R) uninit :
  small m -> read_ok r -> remaining r = frame m ++ rest ->
  exists r', ReadEvent uninit r = (Ok (Some m), r') /\ read_ok r' /\ remaining r' = rest.
Proof.
  intros Hs Hok Hrem. pose proof (message_size m). unfold small in Hs. unfold ReadEvent. unfold mbind at 1.
  destruct (SharedBuf.ReadExact_count_spec r 8) as (r1 & -> & Hok1 & Hrem1); [done|unfold is_u64; lia|].
  assert (L8 : zlen (le_bytes 8 (zlen (writeString m))) = 8) by (by rewrite zlen_le_bytes).
  rewrite Hrem in *. unfold frame in *. rewrite <- app_assoc in *. set (b := le_bytes 8 (zlen (writeString m))) in *.
  rewrite ztake_app_le, ztake_all by lia. rewrite zdrop_app_ge, zdrop_0 in Hrem1 by lia. rewrite L8.
  change (8 <? 0) with false. change (8 =? 0) with false. cbv iota zeta.
  rewrite ztake_app_le, ztake_all by lia. 
  assert (Eb : le_value b = zlen (writeString m)) by (unfold b; apply le_value_bytes; cbn; lia). rewrite Eb.
  rewrite (proj2 (Z.ltb_ge _ _)) by (unfold InMemory.kMaxVector; lia). unfold mbind at 1.
  destruct (SharedBuf.ReadExact_count_spec r1 (zlen (writeString m))) as (r2 & -> & Hok2 & Hrem2); [done|unfold is_u64; lia|].
  rewrite Hrem1 in *. rewrite zdrop_app_ge, Z.sub_diag, zdrop_0 in Hrem2 by lia. rewrite ztake_app_le, ztake_all by lia.
  rewrite (proj2 (Z.ltb_ge _ _)), (proj2 (Z.eqb_neq _ _)), Z.sub_diag by lia. cbn [Z.to_nat repeat]. rewrite app_nil_r.
  unfold mbind, lift. rewrite Parse_write. by exists r2.
Qed.

(** Reading as many events as were written. *)
Fixpoint ReadEvents {R} `{Reader R} (uninit : bytes) (n : nat) : M R (list (option Message)) :=
  match n with
  | O => mret []
  | S n => let! m := ReadEvent uninit in let! ms := ReadEvents uninit n in mret (m :: ms)
  end.
Lemma ReadEvents_spec {R} `{ReadLaws R} ms rest (r : R) uninit :
  Forall small ms -> read_ok r -> remaining r = concat (frame <$> ms) ++ rest ->
  exists r', ReadEvents uninit (length ms) r = (Ok (Some <$> ms), r') /\ read_ok r' /\ remaining r' = rest.
Proof.
  intros Hs. revert r. induction Hs as [|m ms Hm Hms IH]; intros r Hok Hrem; [by exists r|].
  cbn [ReadEvents length fmap list_fmap concat] in *. rewrite <- app_assoc in Hrem. unfold mbind at 1.
  destruct (ReadEvent_spec m _ r uninit Hm Hok Hrem) as (r1 & -> & Hok1 & Hrem1). unfold mbind at 1.
  destruct (IH r1 Hok1 Hrem1) as (r2 & -> & Hok2 & Hrem2). by exists r2.
Qed.

Lemma deliver_fd {W} `{WriteLaws W} fd ms (w : W) room (fds : gmap Z W) :
  Forall small ms -> write_ok w room -> zlen (concat (frame <$> ms)) <= room -> fds !! fd = Some w ->
  exists w' fds', deliver notify_fd ms ([fd], fds) = ([fd], fds') /\ fds' !! fd = Some w' /\
    written w' = written w ++ concat (frame <$> ms).
Proof.
  intros Hs. revert w room fds. induction Hs as [|m ms Hm Hms IH]; intros w room fds Hok Hr Hfd.
  - exists w, fds. cbn. by rewrite app_nil_r.
  - cbn [fmap list_fmap concat] in *. rewrite zlen_app in Hr. pose proof (zlen_nonneg (concat (frame <$> ms))).
    destruct (WriteEvent_spec m w room Hm Hok) as (w1 & Hw & Hok1 & Hw1); [lia|].
    destruct (IH w1 (room - zlen (frame m)) (<[fd := w1]> fds)) as (w2 & fds' & Hd & Hl & Hw2);
      [done|lia|by rewrite lookup_insert_eq|].
    exists w2, fds'. split_and!; [|done|by rewrite Hw2, Hw1, <- app_assoc].
    change (deliver notify_fd (m :: ms) ([fd], fds)) with (deliver notify_fd ms (ProcessSubscriptions notify_fd m [fd] fds)).
    rewrite <- Hd. f_equal. unfold ProcessSubscriptions. cbn. unfold notify_fd at 1. by rewrite Hfd, Hw.
Qed.

(** From the guest's log to a subscriber: for a log read in any pieces, whatever the
    pipe transfers at a time, the reader of the pipe gets exactly the messages of the
    complete lines, in order. *)
Theorem events_reach_subscriber {W R} `{WriteLaws W} `{ReadLaws R} (fd : Z) (w : W) (room : Z) (bufs : list bytes)
    (r : R) (uninit : bytes) :
  let ms := log_messages (concat bufs) in
  let s := reads notify_fd bufs (mkServer [] [fd] [] {[fd := w]}) in
  write_ok w room -> zlen (concat (frame <$> ms)) <= room -> Forall small ms ->
  (forall w', st_ s !! fd = Some w' -> written w' = written w ++ remaining r) -> read_ok r ->
  subscribers_ s = [fd] /\ exists r', ReadEvents uninit (length ms) r = (Ok (Some <$> ms), r') /\ remaining r' = [].
Proof.
  intros ms s Hok Hroom Hsm Hpipe Hr.
  destruct (log_read_by_lines notify_fd bufs (mkServer [] [fd] [] {[fd := w]}) eq_refl) as [Hd _]. fold s ms in Hd.
  destruct (deliver_fd fd ms w room {[fd := w]}) as (w' & fds' & Hd' & Hl & Hw); [done|done|done|by rewrite lookup_singleton_eq|].
  cbn [subscribers_ st_] in Hd. rewrite Hd' in Hd. injection Hd as Hsub Hst. split; [done|].
  specialize (Hpipe w'). rewrite Hst, Hl in Hpipe. specialize (Hpipe eq_refl). rewrite Hw in Hpipe. apply app_inv_head in Hpipe.
  destruct (ReadEvents_spec ms [] r uninit Hsm Hr) as (r' & He1 & _ & He2); [by rewrite app_nil_r, Hpipe|]. eauto.
Qed.
End pipe.

(** ** Instances, and a boot *)
Fixpoint drop_space (s : bytes) : bytes :=
  match s with c :: l => if ascii_space c then drop_space l else s | [] => [] end.
Lemma drop_space_part s : exists a, s = a ++ drop_space s /\ forallb ascii_space a = true.
Proof.
  induction s as [|c s (a & Ha & Hs)]; [by exists []|]. cbn. destruct (ascii_space c) eqn:E; [|by exists []].
  exists (c :: a). cbn. rewrite E. by rewrite Ha at 1.
Qed.
Lemma drop_space_head s : match head (drop_space s) with Some c => ascii_space c = false | None => True end.
Proof. induction s as [|c s IH]; [done|]. cbn. destruct (ascii_space c) eqn:E; [done|]. by cbn. Qed.

#[global, refine] Instance strip_reference : Strip := {
  StripAsciiWhitespace := fun s => rev (drop_space (rev (drop_space s)))
}.
Proof.
  - intros s. destruct (drop_space_part s) as (a & Ha & Hsa). destruct (drop_space_part (rev (drop_space s))) as (b & Hb & Hsb).
    exists a, (rev b). split_and!; [|done|].
    + rewrite Ha at 1. f_equal. apply (f_equal (@rev ascii)) in Hb. rewrite rev_involutive, rev_app_distr in Hb. exact Hb.
    + rewrite forallb_forall in *. intros c Hc. apply Hsb. by apply in_rev.
  - intros s. set (t := drop_space s). pose proof (drop_space_head (rev t)) as Hl. pose proof (drop_space_head s) as Hh. fold t in Hh.
    rewrite forallb_app. apply andb_true_iff. split.
    + destruct (drop_space_part (rev t)) as (b & Hb & _). apply (f_equal (@rev ascii)) in Hb. rewrite rev_involutive, rev_app_distr in Hb.
      destruct (rev (drop_space (rev t))) as [|c u] eqn:E; [done|]. cbn. rewrite Hb in Hh. cbn in Hh. by rewrite Hh.
    + destruct (drop_space (rev t)) as [|c u]; [done|]. cbn in Hl |- *. rewrite last_snoc. cbn. by rewrite Hl.
Defined.

#[global, refine] Instance json_reference : Json := {
  writeString := fun m => DataViewer.bits_of_pos (encode m);
  ParseJson := fun b => match DataViewer.pos_of_bits b ≫= decode with Some m => Ok m | None => Err "not JSON" end
}.
Proof.
  - intros m. rewrite DataViewer.pos_of_bits_of_pos. cbn. by rewrite decode_encode.
  - intros m. by destruct (encode m).
Defined.

Definition boot_log : list bytes :=
  [str "[ 0.0] Linux version 6"; str ".1" ++ [newline] ++ str "init: VIRTUAL_DEV"; str "ICE_BOOT_COMPLETED" ++ [newline]].
Lemma events_reach_subscriber_witness :
  exists r', ReadEvents [] 2 (mkPipe 2 (concat (frame <$> [mkMessage KernelLoaded ∅; mkMessage BootCompleted ∅]))) =
    (Ok [Some (mkMessage KernelLoaded ∅); Some (mkMessage BootCompleted ∅)], r').
Proof.
  destruct (events_reach_subscriber 5 (mkPipe 0 []) 100000 boot_log
    (mkPipe 2 (concat (frame <$> [mkMessage KernelLoaded ∅; mkMessage BootCompleted ∅]))) []) as (_ & r' & H1 & _).
  - vm_compute. discriminate.
  - vm_compute. discriminate.
  - repeat constructor; vm_compute; reflexivity.
  - intros w' Hw. vm_compute in Hw. injection Hw as <-. vm_compute. reflexivity.
  - vm_compute. reflexivity.
  - exists r'. exact H1.
Defined.
Lemma log_read_by_lines_witness :
  let s := reads (notify_fd (W := Pipe)) boot_log (mkServer [] [5] [] {[5 := mkPipe 0 []]}) in
  (subscribers_ s, st_ s) = deliver notify_fd (log_messages (concat boot_log)) ([5], {[5 := mkPipe 0 []]}).
Proof. exact (proj1 (log_read_by_lines notify_fd boot_log (mkServer [] [5] [] {[5 := mkPipe 0 []]}) eq_refl)). Defined.
End KernelLog.
