(* ===== verification/BootStateMachine.v ===== *)
(** * Waiting for the device to boot (host/commands/run_cvd/boot_state_machine.cc)

    The launcher's thread that reads the kernel log events and tells the foreground
    launcher, and whoever asked for a notice after a reboot, how the boot ended; a
    second thread gives up after a time.  What poll(2) reports, and the answers of the
    launcher monitor, are arguments. *)
From S2P Require Import Prelude CppString IO SharedBuf KernelLog.

Module BootStateMachine.
Import CppString IO SharedBuf KernelLog.

(** Of [RunnerExitCodes]. *)
Definition kSuccess : Z := 0.
Definition kPipeIOError : Z := 10.
Definition kVirtualDeviceBootFailed : Z := 11.

Definition kBootStarted : Z := 0.
Definition kGuestBootCompleted : Z := 1.
Definition kGuestBootFailed : Z := 2.

(** The two descriptors a result goes to. *)
Inductive Client := RebootNotification | FgLauncherPipe.
#[global] Instance Client_eq_dec : EqDecision Client.
Proof. solve_decision. Defined.

Record Machine (R : Type) := mkMachine {
  state_ : Z;
  timeout_done_ : bool;
  is_open : Client -> bool;
  boot_events_pipe : R;
  sent : list (Client * Z);          (* exit codes written *)
  actions : Z                        (* launcher actions kFail *)
}.
Arguments mkMachine {R}. Arguments state_ {R}. Arguments timeout_done_ {R}. Arguments is_open {R}.
Arguments boot_events_pipe {R}. Arguments sent {R}. Arguments actions {R}.

(** What a call of poll reports: which descriptors are ready, and whether reading the
    restore pipe works. *)
Record Poll := mkPoll {
  failed : bool; interrupt_in : bool; boot_in : bool; boot_hup : bool; restore_in : bool; restore_hup : bool;
  fg_err : bool; restore_read_ok : bool
}.

(** The instance's flag, and the answers of the launcher monitor. *)
Record Env := mkEnv { fail_fast : bool; monitor_ok : bool; action_ok : bool }.

(** How a turn of the loop ends. *)
Inductive Outcome := Again | Break | Return | Exit (code : Z).
#[global] Instance Outcome_eq_dec : EqDecision Outcome.
Proof. solve_decision. Defined.

Section machine.
Context {R : Type} `{Reader R} `{Json} (env : Env) (uninit : bytes).
Abbreviation Mach := (Machine R).

Definition set_state (f : Z -> Z) (m : Mach) : Mach :=
  mkMachine (f (state_ m)) (timeout_done_ m) (is_open m) (boot_events_pipe m) (sent m) (actions m).
Definition set_pipe (r : R) (m : Mach) : Mach :=
  mkMachine (state_ m) (timeout_done_ m) (is_open m) r (sent m) (actions m).
Definition add_flag (flag : Z) : Mach -> Mach := set_state (fun s => Z.lor s flag).

Definition BootCompleted (m : Mach) : bool := negb (Z.land (state_ m) kGuestBootCompleted =? 0).
Definition BootFailed (m : Mach) : bool := negb (Z.land (state_ m) kGuestBootFailed =? 0).

Definition CancelTimeout (m : Mach) : Mach :=
  mkMachine (state_ m) true (is_open m) (boot_events_pipe m) (sent m) (actions m).
Definition SendExitCode (exit_code : Z) (fd : Client) (m : Mach) : Mach :=
  mkMachine (state_ m) (timeout_done_ m) (fun c => if decide (c = fd) then false else is_open m c) (boot_events_pipe m)
    (sent m ++ [(fd, exit_code)]) (actions m).

Definition notify (m : Mach) (fd : Client) : Mach :=
  if is_open m fd then
    if BootCompleted m then SendExitCode kSuccess fd m
    else if BootFailed m then SendExitCode kVirtualDeviceBootFailed fd m else m
  else m.
Definition MaybeWriteNotification (m : Mach) : bool * Mach :=
  let final_state := BootCompleted m || BootFailed m in
  let m := if final_state then CancelTimeout m else m in
  (final_state, foldl notify m [RebootNotification; FgLauncherPipe]).

(** The first step that fails ends the boot. *)
Definition boot_failure (m : Mach) : bool * Mach := MaybeWriteNotification (add_flag kGuestBootFailed m).

Definition OnBootEvtReceived : M Mach bool := fun m =>
  match ReadEvent uninit (boot_events_pipe m) with
  | (Err _, r) | (Ok None, r) => let '(b, m) := boot_failure (set_pipe r m) in (Ok b, m)
  | (Ok (Some message), r) =>
      let m := set_pipe r m in
      let m := if event message =? KernelLog.BootCompleted then add_flag kGuestBootCompleted m
               else if event message =? KernelLog.BootFailed then add_flag kGuestBootFailed m else m in
      let '(b, m) := MaybeWriteNotification m in (Ok b, m)
  | (fl, r) => (fail_as fl, set_pipe r m)
  end.

(** [RunLauncherAction] with [kFail], through the launcher monitor. *)
Definition fail_launcher : M Mach unit := fun m =>
  if monitor_ok env && action_ok env
  then (Ok tt, mkMachine (state_ m) (timeout_done_ m) (is_open m) (boot_events_pipe m) (sent m) (actions m + 1))
  else (Fatal "could not stop the device", m).

(** Run a step that may end the loop. *)
Definition or_break (step : Mach -> bool * Mach) (k : M Mach Outcome) : M Mach Outcome := fun m =>
  let '(b, m) := step m in if b : bool then (Ok Break, m) else k m.

(** One turn of the loop.  The launcher's pipe is polled only while it is open. *)
Definition turn (p : Poll) : M Mach Outcome := fun m =>
  let polled := is_open m FgLauncherPipe in
  if interrupt_in p then (Ok Return, m)
  else if failed p then (Fatal "Failed to call Select", m)
  else
    (or_break (if boot_hup p then boot_failure else fun m => (false, m))
      (if polled && fg_err p then mret (Exit kPipeIOError)
       else
         let! evt := if boot_in p then OnBootEvtReceived else mret false in
         let! m := get in
         if evt : bool then
           if BootCompleted m then mret Break
           else if negb (fail_fast env) then mret Break
           else let! _ := fail_launcher in mret Break
         else
           or_break (if restore_in p && negb (restore_read_ok p) then boot_failure else fun m => (false, m))
             (or_break (if restore_in p then fun m => MaybeWriteNotification (add_flag kGuestBootCompleted m)
                        else fun m => (false, m))
                (or_break (if restore_hup p then boot_failure else fun m => (false, m)) (mret Again))))) m.

(** Draining the events after a boot; [true] when it goes on. *)
Definition drain_turn (p : Poll) : M Mach bool := fun m =>
  if interrupt_in p then (Ok false, m)
  else if failed p then (Fatal "Failed to call Select", m)
  else if boot_hup p then (Ok false, m)
  else if boot_in p then
    match ReadEvent uninit (boot_events_pipe m) with
    | (Ok (Some _), r) => (Ok true, set_pipe r m)
    | (Ok None, r) => (Fatal "read_result is empty", set_pipe r m)
    | (Err _, r) => (Ok false, set_pipe r m)
    | (fl, r) => (fail_as fl, set_pipe r m)
    end
  else (Ok true, m).

(** Where the thread is. *)
Inductive Phase := Waiting | Draining | Finished | Exited (code : Z).
(** A turn of [ThreadLoop] and of the draining loop after it. *)
Definition thread_step (p : Poll) (ph : Phase) : M Mach Phase :=
  match ph with
  | Waiting =>
      let! o := turn p in
      match o with
      | Again => mret Waiting
      | Return => mret Finished
      | Exit c => mret (Exited c)
      | Break =>
          let! _ := modify (set_state (fun s => Z.land s kGuestBootCompleted)) in
          let! m := get in
          mret (if negb (state_ m =? 0) then Draining else Finished)
      end
  | Draining => let! again := drain_turn p in mret (if again : bool then Draining else Finished)
  | ph => mret ph
  end.
Fixpoint ThreadLoop (ps : list Poll) (ph : Phase) : M Mach Phase :=
  match ps with
  | [] => mret ph
  | p :: ps => let! ph := thread_step p ph in ThreadLoop ps ph
  end.

(** The other thread: the wait is over, either because the time has passed or because
    it was cancelled. *)
Definition ShouldDisableTimeout (boot_timeout_secs : Z) (is_flag_default is_qemu is_gem5 : bool) : bool :=
  (boot_timeout_secs <=? 0) || (is_flag_default && (is_qemu || is_gem5)).
Definition TimeoutThreadLoop (disabled : bool) : M Mach unit := fun m =>
  if disabled then (Ok tt, m) else if timeout_done_ m then (Ok tt, m) else fail_launcher m.
End machine.

(** ** The result is reported once *)
Section report.
Context {R : Type} `{Reader R} `{Json} (env : Env) (uninit : bytes) (opened : Client -> bool).
Abbreviation Mach := (Machine R).

(** Both threads, interleaved. *)
Inductive sys_step : Phase * Mach -> Phase * Mach -> Prop :=
| step_poll p ph m ph' m' : thread_step env uninit p ph m = (Ok ph', m') -> sys_step (ph, m) (ph', m')
| step_timeout disabled ph m m' : TimeoutThreadLoop env disabled m = (Ok tt, m') -> sys_step (ph, m) (ph, m').

Definition report (code : Z) : list (Client * Z) :=
  (fun c => (c, code)) <$> List.filter opened [RebootNotification; FgLauncherPipe].
Definition undecided (m : Mach) : Prop :=
  state_ m = kBootStarted /\ sent m = [] /\ is_open m = opened /\ timeout_done_ m = false.
Definition decided (state code : Z) (m : Mach) : Prop :=
  state_ m = state /\ sent m = report code /\ timeout_done_ m = true.

Lemma notify_all code (m : Mach) :
  is_open m = opened -> sent m = [] ->
  (if BootCompleted m then kSuccess else kVirtualDeviceBootFailed) = code -> BootCompleted m || BootFailed m = true ->
  sent (foldl notify m [RebootNotification; FgLauncherPipe]) = report code /\
  state_ (foldl notify m [RebootNotification; FgLauncherPipe]) = state_ m /\
  timeout_done_ (foldl notify m [RebootNotification; FgLauncherPipe]) = timeout_done_ m.
Proof.
  destruct m as [st t o p se a]. cbn [is_open sent]. intros -> -> Hc Hf. unfold report. cbn [foldl List.filter]. unfold notify at 2 4 6.
  unfold BootCompleted, BootFailed in *. cbn [state_ is_open] in *.
  destruct (negb (Z.land st kGuestBootCompleted =? 0)) eqn:E1; [subst code|cbn [orb] in Hf; rewrite Hf; subst code];
    destruct (opened RebootNotification) eqn:E2; unfold notify, BootCompleted, BootFailed; cbn; rewrite ?E1, ?Hf;
    destruct (opened FgLauncherPipe); cbn; rewrite ?E1, ?Hf; done.
Qed.

Lemma verdict_given flag code (m : Mach) :
  undecided m -> (flag = kGuestBootCompleted /\ code = kSuccess) \/ (flag = kGuestBootFailed /\ code = kVirtualDeviceBootFailed) ->
  exists m', MaybeWriteNotification (add_flag flag m) = (true, m') /\ decided flag code m'.
Proof.
  intros (Hs & Hse & Ho & Ht) Hf. unfold MaybeWriteNotification.
  assert (Hst : state_ (add_flag flag m) = flag) by (cbn; rewrite Hs; by destruct Hf as [[-> _]|[-> _]]).
  assert (Hb : BootCompleted (add_flag flag m) || BootFailed (add_flag flag m) = true).
  { unfold BootCompleted, BootFailed. rewrite Hst. by destruct Hf as [[-> _]|[-> _]]. }
  rewrite Hb. eexists. split; [reflexivity|]. set (m1 := CancelTimeout (add_flag flag m)).
  destruct (notify_all code m1) as (H1 & H2 & H3).
  - exact Ho.
  - exact Hse.
  - unfold BootCompleted. change (state_ m1) with (state_ (add_flag flag m)). rewrite Hst. by destruct Hf as [[-> ->]|[-> ->]].
  - exact Hb.
  - unfold decided. rewrite H1, H2, H3. split_and!; [exact Hst|done|done].
Qed.
Lemma boot_failure_decides (m : Mach) :
  undecided m -> exists m', boot_failure m = (true, m') /\ decided kGuestBootFailed kVirtualDeviceBootFailed m'.
Proof. intros Hu. apply verdict_given; auto. Qed.
Lemma undecided_quiet (m : Mach) : undecided m -> MaybeWriteNotification m = (false, m).
Proof.
  intros (Hs & Hse & Ho & Ht). unfold MaybeWriteNotification. destruct m as [st t o p se a]. cbn in *. subst.
  change (BootCompleted _) with false. change (BootFailed _) with false. cbn [orb foldl]. f_equal.
  assert (Hn : forall c, notify (mkMachine kBootStarted false opened p [] a) c = mkMachine kBootStarted false opened p [] a).
  { intros c. unfold notify. cbn [is_open]. by destruct (opened c). }
  by rewrite !Hn.
Qed.

(** A verdict, or none yet. *)
Definition verdict (m : Mach) : Prop :=
  decided kGuestBootCompleted kSuccess m \/ decided kGuestBootFailed kVirtualDeviceBootFailed m.

Lemma evt_cases (m m' : Mach) b :
  undecided m -> OnBootEvtReceived uninit m = (Ok b, m') -> if b then verdict m' else undecided m'.
Proof.
  intros Hu. unfold OnBootEvtReceived.
  assert (Hp : forall r, undecided (set_pipe r m)) by (intros r; exact Hu).
  destruct (ReadEvent uninit (boot_events_pipe m)) as [[[message|]|e|w|] r]; try done.
  - destruct (event message =? KernelLog.BootCompleted); [|destruct (event message =? KernelLog.BootFailed)].
    + destruct (verdict_given kGuestBootCompleted kSuccess (set_pipe r m)) as (m1 & -> & Hd); [done|by left|]. intros [= <- <-]. by left.
    + destruct (verdict_given kGuestBootFailed kVirtualDeviceBootFailed (set_pipe r m)) as (m1 & -> & Hd); [done|by right|].
      intros [= <- <-]. by right.
    + rewrite undecided_quiet by done. intros [= <- <-]. done.
  - destruct (boot_failure_decides (set_pipe r m)) as (m1 & -> & Hd); [done|]. intros [= <- <-]. by right.
  - destruct (boot_failure_decides (set_pipe r m)) as (m1 & -> & Hd); [done|]. intros [= <- <-]. by right.
Qed.

Lemma or_break_cases step k (m m' : Mach) o :
  undecided m ->
  (forall m1, step m = (false, m1) -> undecided m1) -> (forall m1, step m = (true, m1) -> verdict m1) ->
  (forall m1, undecided m1 -> k m1 = (Ok o, m') -> if decide (o = Break) then verdict m' else undecided m') ->
  or_break step k m = (Ok o, m') -> if decide (o = Break) then verdict m' else undecided m'.
Proof.
  intros Hu Hf Ht Hk. unfold or_break. destruct (step m) as [[] m1].
  - intros [= <- <-]. destruct (decide (Break = Break)); [by apply Ht|done].
  - apply Hk. by apply Hf.
Qed.
Lemma boot_failure_if (b : bool) (m : Mach) :
  undecided m ->
  (forall m1, (if b then boot_failure else fun m => (false, m)) m = (false, m1) -> undecided m1) /\
  (forall m1, (if b then boot_failure else fun m => (false, m)) m = (true, m1) -> verdict m1).
Proof.
  intros Hu. destruct b; [|split; [by intros m1 [= <-]|done]].
  destruct (boot_failure_decides m Hu) as (m2 & -> & Hd). split; [done|]. intros m1 [= <-]. by right.
Qed.

Lemma verdict_action (m m' : Mach) : verdict m -> fail_launcher env m = (Ok tt, m') -> verdict m'.
Proof. unfold fail_launcher. destruct (_ && _); [|done]. intros Hv [= <-]. exact Hv. Qed.

Lemma turn_cases p (m m' : Mach) o :
  undecided m -> turn env uninit p m = (Ok o, m') -> if decide (o = Break) then verdict m' else undecided m'.
Proof.
  intros Hu. unfold turn. destruct (interrupt_in p); [by intros [= <- <-]|]. destruct (failed p); [done|].
  apply or_break_cases; [done|apply (boot_failure_if (boot_hup p)); done|apply (boot_failure_if (boot_hup p)); done|]. intros m1 Hu1.
  destruct (_ && _); [by intros [= <- <-]|]. unfold mbind at 1.
  assert (He : forall b m2, (if boot_in p then OnBootEvtReceived uninit else mret false) m1 = (Ok b, m2) ->
    if b then verdict m2 else undecided m2).
  { intros b m2. destruct (boot_in p); [by apply evt_cases|by intros [= <- <-]]. }
  destruct ((if boot_in p then OnBootEvtReceived uninit else mret false) m1) as [[evt|e|w|] m2]; try done.
  specialize (He evt m2 eq_refl). unfold mbind at 1, get. destruct evt.
  - destruct (BootCompleted m2); [by intros [= <- <-]|]. destruct (negb (fail_fast env)); [by intros [= <- <-]|].
    unfold mbind. destruct (fail_launcher env m2) as [[[]|e|w|] m3] eqn:E; try done. intros [= <- <-].
    by apply (verdict_action m2).
  - apply or_break_cases; [done|by apply boot_failure_if|by apply boot_failure_if|]. intros m3 Hu3.
    apply or_break_cases; [done| | |].
    + intros m4. destruct (restore_in p); [|by intros [= <-]].
      destruct (verdict_given kGuestBootCompleted kSuccess m3) as (m5 & -> & _); [done|by left|done].
    + intros m4. destruct (restore_in p); [|done].
      destruct (verdict_given kGuestBootCompleted kSuccess m3) as (m5 & -> & Hd); [done|by left|]. intros [= <-]. by left.
    + intros m4 Hu4. apply or_break_cases; [done|by apply boot_failure_if|by apply boot_failure_if|]. by intros m5 Hu5 [= <- <-].
Qed.

(** Nothing has been reported, or the same result to everyone who was listening. *)
Definition boot_inv (x : Phase * Mach) : Prop :=
  let '(ph, m) := x in
  match ph with
  | Waiting | Exited _ => undecided m
  | Draining => decided kGuestBootCompleted kSuccess m
  | Finished => undecided m \/ decided kGuestBootCompleted kSuccess m \/ decided kBootStarted kVirtualDeviceBootFailed m
  end.
Lemma inv_poll p ph m ph' m' :
  boot_inv (ph, m) -> thread_step env uninit p ph m = (Ok ph', m') -> boot_inv (ph', m').
Proof.
  destruct ph; cbn [boot_inv thread_step]; intros Hi.
  - unfold mbind at 1. destruct (turn env uninit p m) as [[o|e|w|] m1] eqn:E; try done.
    apply turn_cases in E; [|done]. destruct o; [| | |]; cbn in E; try (intros [= <- <-]; (exact E || by left)).
    unfold mbind, modify, get, mret. destruct E as [(Hs & Hse & Ht)|(Hs & Hse & Ht)]; cbn; rewrite Hs; intros [= <- <-].
    + cbn. split_and!; [|done|done]. cbn. by rewrite Hs.
    + right. right. split_and!; [|done|done]. cbn. by rewrite Hs.
  - unfold mbind. unfold drain_turn. destruct (interrupt_in p); [intros [= <- <-]; by right; left|].
    destruct (failed p); [done|]. destruct (boot_hup p); [intros [= <- <-]; by right; left|].
    destruct (boot_in p); [|by intros [= <- <-]].
    destruct (ReadEvent uninit (boot_events_pipe m)) as [[[]|e|w|] r]; try done; intros [= <- <-]; [exact Hi|right; left; exact Hi].
  - by intros [= <- <-].
  - by intros [= <- <-].
Qed.
Lemma inv_timeout disabled ph m m' :
  boot_inv (ph, m) -> TimeoutThreadLoop env disabled m = (Ok tt, m') -> boot_inv (ph, m').
Proof.
  unfold TimeoutThreadLoop, fail_launcher. destruct disabled; [by intros ? [= <-]|].
  destruct m as [st [] o r se a]; cbn [timeout_done_]; [by intros ? [= <-]|].
  destruct (_ && _); [|done]. intros Hi [= <-]. destruct ph; exact Hi.
Qed.


(** ** From the log to the result *)
Definition event_poll : Poll := mkPoll false false true false false false false true.
Definition is_verdict (m : Message) : bool := (event m =? KernelLog.BootCompleted) || (event m =? KernelLog.BootFailed).
Definition result_code (m : Message) : Z := if event m =? KernelLog.BootCompleted then kSuccess else kVirtualDeviceBootFailed.

Lemma turn_ignores (m : Mach) message r :
  undecided m -> ReadEvent uninit (boot_events_pipe m) = (Ok (Some message), r) -> is_verdict message = false ->
  turn env uninit event_poll m = (Ok Again, set_pipe r m).
Proof.
  intros Hu Hr [H1 H2]%orb_false_iff. unfold turn, or_break. cbn. rewrite andb_false_r. unfold mbind, OnBootEvtReceived.
  rewrite Hr, H1, H2. by rewrite undecided_quiet.
Qed.
Lemma turn_decides (m : Mach) message r :
  undecided m -> ReadEvent uninit (boot_events_pipe m) = (Ok (Some message), r) -> is_verdict message = true ->
  monitor_ok env && action_ok env = true ->
  exists m', turn env uninit event_poll m = (Ok Break, m') /\
    decided (if event message =? KernelLog.BootCompleted then kGuestBootCompleted else kGuestBootFailed) (result_code message) m'.
Proof.
  intros Hu Hr Hv Hok. unfold turn, or_break. cbn. rewrite andb_false_r. unfold mbind at 1, OnBootEvtReceived. rewrite Hr.
  unfold is_verdict in Hv. unfold result_code. destruct (event message =? KernelLog.BootCompleted); cbn [orb] in Hv.
  - destruct (verdict_given kGuestBootCompleted kSuccess (set_pipe r m)) as (m1 & -> & Hd); [done|by left|].
    unfold mbind, get. unfold BootCompleted. rewrite (proj1 Hd). cbn. eauto.
  - rewrite Hv. destruct (verdict_given kGuestBootFailed kVirtualDeviceBootFailed (set_pipe r m)) as (m1 & -> & Hd); [done|by right|].
    unfold mbind, get. unfold BootCompleted. rewrite (proj1 Hd). cbn. destruct (fail_fast env); cbn; [|eauto].
    unfold fail_launcher. rewrite Hok. eauto.
Qed.
End report.

(** C19. The log decides: when the pipe carries the messages of the kernel log, the first
    line that says the boot completed or failed is what the launcher reports, to every
    client that listens, after exactly as many turns as there are messages up to it. *)
Theorem log_decides_boot {R} `{Absl} `{Strip} `{Json} `{ReadLaws R} (env : Env) (uninit : bytes) (opened : Client -> bool)
    (m0 : Machine R) (text : bytes) (before : list Message) (v : Message) (after : list Message) :
  undecided opened m0 -> read_ok (boot_events_pipe m0) ->
  remaining (boot_events_pipe m0) = concat (frame <$> log_messages text) -> Forall small (log_messages text) ->
  log_messages text = before ++ v :: after ->
  Forall (fun m => is_verdict m = false) before -> is_verdict v = true -> monitor_ok env && action_ok env = true ->
  exists m', ThreadLoop env uninit (replicate (S (length before)) event_poll) Waiting m0 =
      (Ok (if event v =? KernelLog.BootCompleted then Draining else Finished), m') /\
    sent m' = report opened (result_code v).
Proof.
  intros Hu Hr Hrem Hsm Ht Hb Hv Hok. rewrite Ht in *. clear Ht. revert m0 Hu Hr Hrem Hsm.
  induction Hb as [|m before Hm Hb IH]; intros m0 Hu Hr Hrem Hsm; apply Forall_cons in Hsm as [Hs1 Hsm];
    cbn [app fmap list_fmap concat] in Hrem;
    destruct (ReadEvent_spec _ _ _ uninit Hs1 Hr Hrem) as (r1 & He & Hr1 & Hrem1).
  - destruct (turn_decides env uninit opened m0 v r1 Hu He Hv Hok) as (m1 & Htu & Hd). cbn [length replicate ThreadLoop thread_step].
    unfold mbind, modify, get, mret. rewrite Htu. destruct Hd as (Hs & Hse & _). cbn [set_state state_]. rewrite Hs.
    exists (set_state (fun s => Z.land s kGuestBootCompleted) m1). split; [|exact Hse]. unfold set_state. rewrite Hs.
    by destruct (event v =? KernelLog.BootCompleted).
  - destruct (IH (set_pipe r1 m0)) as (m1 & HT & Hse); [exact Hu|exact Hr1|exact Hrem1|exact Hsm|]. exists m1. split; [|exact Hse].
    rewrite <- HT. cbn [length replicate]. cbn [ThreadLoop thread_step]. unfold mbind at 1. unfold mbind at 1.
    by rewrite (turn_ignores env uninit opened m0 m r1).
Qed.

(** ** Examples *)
Definition boot_env : Env := mkEnv true true true.
Definition ready_machine : Machine Pipe :=
  mkMachine kBootStarted false (fun _ => true) (mkPipe 3 (concat (frame <$> log_messages (concat boot_log)))) [] 0.

Lemma log_decides_boot_witness :
  exists m', ThreadLoop boot_env [] [event_poll; event_poll] Waiting ready_machine = (Ok Draining, m') /\
    sent m' = [(RebootNotification, kSuccess); (FgLauncherPipe, kSuccess)].
Proof.
  refine (log_decides_boot boot_env [] (fun _ => true) ready_machine (concat boot_log)
    [mkMessage KernelLoaded ∅] (mkMessage KernelLog.BootCompleted ∅) [] _ _ _ _ _ _ _ _).
  - by split_and!.
  - vm_compute. reflexivity.
  - reflexivity.
  - change (log_messages (concat boot_log)) with [mkMessage KernelLoaded ∅; mkMessage KernelLog.BootCompleted ∅].
    repeat constructor; vm_compute; reflexivity.
  - vm_compute. reflexivity.
  - repeat constructor.
  - reflexivity.
  - reflexivity.
Defined.

Definition restore_poll : Poll := mkPoll false false false false true false false true.
Definition idle_machine : Machine Pipe := mkMachine kBootStarted false (fun _ => true) (mkPipe 0 []) [] 0.
Definition restored : Machine Pipe := (thread_step boot_env [] restore_poll Waiting idle_machine).2.
End BootStateMachine.
