(* ===== verification/Features.v ===== *)
(** * Setup features (host/libs/feature/feature.{h,cpp})

    assemble_cvd and run_cvd are made of features, objects that name the features they
    depend on.  [TopologicalVisit] calls a function on each after its dependencies,
    [RunSetup] sets up the enabled ones, [ProcessFlags] lets each take its flags.
    Features are pointers, a countable type; a null pointer is [None]. *)
From S2P Require Import Prelude CppString.

Module Features.

Inductive Status := UNVISITED | VISITING | VISITED.
#[global] Instance Status_eq_dec : EqDecision Status.
Proof. solve_decision. Defined.

(** The order in which a std::unordered_set of pointers is walked, which the standard
    leaves open but for walking every element once. *)
Class HashOrder (F : Type) `{Countable F} := hash_order : gset F -> list F.
Class HashOrderLaws (F : Type) `{HashOrder F} := hash_order_elements X : hash_order X ≡ₚ elements X.
Definition elements_order {F} `{Countable F} : HashOrder F := elements.
Lemma elements_order_laws {F} `{Countable F} : @HashOrderLaws F _ _ elements_order.
Proof. intros X. reflexivity. Qed.

Section features.
Context {F : Type} `{HashOrder F}.
(** Feature::Dependencies(), as a walk over the set it returns. *)
Context (Dependencies : F -> list (option F)).

(** ** Feature::TopologicalVisit *)
Section visit.
Context {W : Type} (callback : F -> M W unit).
Definition Visit : Type := gmap F Status * W.

Definition set_status (f : F) (x : Status) : M Visit unit := modify (fun '(st, w) => (<[f := x]> st, w)).
Definition on_world (m : M W unit) : M Visit unit := fun '(st, w) =>
  let (r, w) := m w in (r, (st, w)).

Fixpoint visit (fuel : nat) (feature : F) : M Visit unit :=
  match fuel with
  | O => lift Fuel
  | S fuel => fun '(st, w) =>
    match st !! feature with
    | None => (Err "Dependency edge to a feature that is not part of the feature graph", (st, w))
    | Some VISITED => (Ok tt, (st, w))
    | Some VISITING => (Err "Cycle detected", (st, w))
    | Some UNVISITED =>
        (let! _ := set_status feature VISITING in
         let! _ := for_each (fun dependency =>
                     match dependency with
                     | None => lift (Err "null dependency")
                     | Some d => visit fuel d
                     end) (Dependencies feature) in
         let! _ := set_status feature VISITED in
         on_world (callback feature)) (st, w)
    end
  end.

Definition TopologicalVisit (features : gset F) : M W unit := fun w =>
  let walk := hash_order features in
  let features_status := foldl (fun st f => <[f := UNVISITED]> st) ∅ walk in
  let '(r, (_, w)) := for_each (visit (S (size features))) walk (features_status, w) in
  (r, w).
End visit.

(** ** SetupFeature::RunSetup and FlagFeature::ProcessFlags *)
Definition add_feature (feature : F) : M (list F) unit := modify (fun l => l ++ [feature]).

Section setup.
Context {W : Type} (Enabled : F -> bool) (ResultSetup : F -> M W unit).

Fixpoint collect_enabled (features : list (option F)) (enabled : gset F) : result (gset F) :=
  match features with
  | [] => Ok enabled
  | None :: _ => Err "Received null feature"
  | Some feature :: features =>
      collect_enabled features (if Enabled feature then {[feature]} ∪ enabled else enabled)
  end.

Definition RunSetup (features : list (option F)) : M W unit :=
  let! enabled := lift (collect_enabled features ∅) in
  match TopologicalVisit add_feature enabled [] with
  | (Ok _, ordered_features) => for_each ResultSetup ordered_features
  | (e, _) => lift e
  end.
End setup.

Definition ProcessFlags (Process : F -> M (list bytes) unit) (features : list (option F)) : M (list bytes) unit :=
  let! _ := lift (expect (negb (bool_decide (None ∈ features))) "Received null feature") in
  TopologicalVisit Process (list_to_set (omap id features)).

(** ** ReturningSetupFeature: the values that the features compute *)
Section returning.
Context {T : Type}.
(** operator* and operator->, which a feature that depends on [f] calls. *)
Definition deref (f : F) : M (gmap F T) T := fun calculated_ =>
  match calculated_ !! f with
  | None => (Fatal "precondition violation", calculated_)
  | Some v => (Ok v, calculated_)
  end.
Definition ReturningSetup (Calculate : F -> M (gmap F T) T) (f : F) : M (gmap F T) unit :=
  let! calculated_ := get in
  let! _ := lift (expect (negb (bool_decide (is_Some (calculated_ !! f)))) "precondition violation") in
  let! v := Calculate f in
  modify <[f := v]>.
End returning.

(** ** What a visit does, whatever the callback *)
Implicit Types (st : gmap F Status) (f g d : F) (k l : list F).

Definition Visitor : Type := forall W, (F -> M W unit) -> M (@Visit W) unit.
(** [m] from [st] runs the callback on [k] in order and, unless that fails, ends with [r]
    and [st']. *)
Definition traced (m : Visitor) st (r : result unit) st' k : Prop := forall W (cb : F -> M W unit) w,
  match for_each cb k w with
  | (Ok _, w') => m W cb (st, w) = (r, (st', w'))
  | (e, w') => exists st'', m W cb (st, w) = (e, (st'', w'))
  end.

Lemma traced_pure (m : Visitor) st r st' :
  (forall W cb w, m W cb (st, w) = (r, (st', w))) -> traced m st r st' [].
Proof. intros Hm W cb w. apply Hm. Qed.

Lemma traced_bind (m1 m2 : Visitor) st r1 st1 k1 r st2 k2 :
  traced m1 st r1 st1 k1 ->
  match r1 with Ok _ => traced m2 st1 r st2 k2 | _ => r = r1 /\ st2 = st1 /\ k2 = [] end ->
  traced (fun W cb => let! _ := m1 W cb in m2 W cb) st r st2 (k1 ++ k2).
Proof.
  intros H1 H2 W cb w. specialize (H1 W cb w). rewrite for_each_app. unfold mbind.
  destruct (for_each cb k1 w) as [r0 w1] eqn:E1.
  destruct r0 as [[]|e|e|]; [|destruct H1 as [st'' ->]; eauto..].
  rewrite H1. destruct r1 as [[]|e|e|]; [exact (H2 W cb w1)|destruct H2 as (-> & -> & ->); done..].
Qed.

(** ** The order of the visit *)
(** Every dependency comes before the feature that has it. *)
Definition in_order l : Prop := forall l1 f l2, l = l1 ++ f :: l2 ->
  forall o, o ∈ Dependencies f -> exists d, o = Some d /\ d ∈ l1.
Definition ok_state st l : Prop := (forall f, st !! f = Some VISITED <-> f ∈ l) /\ NoDup l /\ in_order l.
Definition unvisited st : nat := size (base.filter (fun p => p.2 = UNVISITED) st).
(** [rank] decreases along the dependencies, all of which are in [X]. *)
Definition ranked (rank : F -> nat) (X : gset F) : Prop := forall f, f ∈ X ->
  forall o, o ∈ Dependencies f -> exists d, o = Some d /\ d ∈ X /\ (rank d < rank f)%nat.

(** How the statuses and the features called change in a step with outcome [r]. *)
Record grown st l (r : result unit) st' k : Prop := mkGrown {
  grown_dom : dom st' = dom st;
  grown_ok : ok_state st' (l ++ k);
  grown_unvisited g : st' !! g = Some UNVISITED -> st !! g = Some UNVISITED;
  grown_visiting g : r = Ok tt -> st' !! g = Some VISITING <-> st !! g = Some VISITING
}.

Lemma grown_refl st l r : ok_state st l -> grown st l r st [].
Proof. intros Hs. split; [done|by rewrite app_nil_r|done|done]. Qed.

Lemma grown_trans st l r0 st1 k1 r st2 k2 :
  grown st l r0 st1 k1 -> grown st1 (l ++ k1) r st2 k2 -> (r = Ok tt -> r0 = Ok tt) -> grown st l r st2 (k1 ++ k2).
Proof.
  intros [D1 O1 U1 V1] [D2 O2 U2 V2] Hr. split.
  - congruence.
  - by rewrite app_assoc.
  - auto.
  - intros g E. rewrite V2 by done. by apply V1, Hr.
Qed.

Lemma unvisited_mono st st' :
  (forall g, st' !! g = Some UNVISITED -> st !! g = Some UNVISITED) -> (unvisited st' <= unvisited st)%nat.
Proof.
  intros Hm. apply map_subseteq_size, map_subseteq_spec. intros g x [Hx E]%map_lookup_filter_Some.
  cbn in E. subst x. apply map_lookup_filter_Some. auto.
Qed.

Lemma unvisited_visiting st f :
  st !! f = Some UNVISITED -> (unvisited (<[f := VISITING]> st) < unvisited st)%nat.
Proof.
  intros Hf. unfold unvisited. rewrite map_filter_insert_False by done.
  rewrite map_filter_delete. rewrite map_size_delete_Some; [|eexists; apply map_lookup_filter_Some; eauto].
  assert (size (base.filter (fun p => p.2 = UNVISITED) st) <> 0%nat); [|lia].
  intros E%map_size_empty_inv. assert (base.filter (fun p => p.2 = UNVISITED) st !! f = Some UNVISITED) as Hl
    by (by apply map_lookup_filter_Some). by rewrite E, lookup_empty in Hl.
Qed.

Lemma in_order_snoc l f :
  in_order l -> (forall o, o ∈ Dependencies f -> exists d, o = Some d /\ d ∈ l) -> in_order (l ++ [f]).
Proof.
  intros Ho Hf l1 g l2 E. destruct (decide (l2 = [])) as [->|Hl2].
  - apply app_inj_tail in E as [-> ->]. exact Hf.
  - destruct (exists_last Hl2) as (l2' & x & ->). rewrite app_comm_cons, app_assoc in E.
    apply app_inj_tail in E as [E _]. by eapply Ho.
Qed.

Definition visit_deps {W} (cb : F -> M W unit) (n : nat) : list (option F) -> M (@Visit W) unit :=
  for_each (fun o => match o with None => lift (Err "null dependency") | Some d => visit cb n d end).

Definition clean (r : result unit) : Prop := match r with Fatal _ | Fuel => False | _ => True end.

(** What one call of the visitor does. *)
Definition visit_spec (n : nat) : Prop := forall f st l, ok_state st l -> exists r st' k,
  traced (fun W cb => visit cb n f) st r st' k /\ grown st l r st' k /\
  (r = Ok tt -> f ∈ l ++ k) /\
  ((unvisited st < n)%nat -> clean r) /\
  (forall rank, ranked rank (dom st) -> f ∈ dom st ->
     (forall g, st !! g = Some VISITING -> (rank f < rank g)%nat) -> r = Ok tt \/ r = Fuel).

Lemma deps_traced n : visit_spec n -> forall ds st l, ok_state st l -> exists r st' k,
  traced (fun W cb => visit_deps cb n ds) st r st' k /\ grown st l r st' k /\
  (r = Ok tt -> forall o, o ∈ ds -> exists d, o = Some d /\ d ∈ l ++ k) /\
  ((unvisited st < n)%nat -> clean r) /\
  (forall rank, ranked rank (dom st) -> (forall o, o ∈ ds -> exists d, o = Some d /\ d ∈ dom st /\
     forall g, st !! g = Some VISITING -> (rank d < rank g)%nat) -> r = Ok tt \/ r = Fuel).
Proof.
  intros Hv. induction ds as [|o ds IH]; intros st l Hs.
  { exists (Ok tt), st, []. split_and!; [by apply traced_pure|by apply grown_refl| |done|by left].
    intros _ o Ho. by apply elem_of_nil in Ho. }
  destruct o as [d|].
  2:{ exists (Err "null dependency"), st, []. split_and!; [by apply traced_pure|by apply grown_refl|done|done|].
      intros rank _ Hds. destruct (Hds None) as (d & [=] & _). left. }
  destruct (Hv d st l Hs) as (r1 & st1 & k1 & T1 & G1 & O1 & F1 & R1).
  assert (r1 = Ok tt \/ r1 <> Ok tt) as [->|Hne] by (destruct r1 as [[]| | |]; auto).
  - destruct (IH st1 (l ++ k1) (grown_ok _ _ _ _ _ G1)) as (r & st2 & k2 & T2 & G2 & O2 & F2 & R2).
    exists r, st2, (k1 ++ k2). split_and!.
    + by eapply (traced_bind (fun W cb => visit cb n d) (fun W cb => visit_deps cb n ds)).
    + by eapply grown_trans.
    + intros Hr o [->|Ho]%elem_of_cons.
      * exists d. split; [done|]. rewrite app_assoc. apply elem_of_app. left. by apply O1.
      * rewrite app_assoc. by apply O2.
    + intros Hn. apply F2. pose proof (unvisited_mono _ _ (grown_unvisited _ _ _ _ _ G1)). lia.
    + intros rank Hrk Hds. apply (R2 rank); [by rewrite (grown_dom _ _ _ _ _ G1)|]. intros o Ho.
      destruct (Hds o) as (d' & -> & Hd' & Hg); [by right|]. exists d'. split; [done|].
      rewrite (grown_dom _ _ _ _ _ G1). split; [done|]. intros g Hg'. apply Hg.
      by apply (grown_visiting _ _ _ _ _ G1).
  - exists r1, st1, k1. split_and!; [| |done|done|].
    + rewrite <-(app_nil_r k1). eapply (traced_bind (fun W cb => visit cb n d) (fun W cb => visit_deps cb n ds)); [done|].
      by destruct r1 as [[]| | |].
    + destruct G1 as [D1 O2 U1 V1]. split; try done.
    + intros rank Hrk Hds. destruct (Hds (Some d)) as (d' & [= <-] & Hd & Hg); [left|]. by apply (R1 rank).
Qed.

Lemma ok_state_visiting st l f : st !! f = Some UNVISITED -> ok_state st l -> ok_state (<[f := VISITING]> st) l.
Proof.
  intros Hf (Hv & Hnd & Ho). split_and!; [|done..]. intros g. rewrite <-Hv.
  destruct (decide (g = f)) as [->|]; [|by rewrite lookup_insert_ne]. rewrite lookup_insert_eq, Hf. naive_solver.
Qed.

Lemma ok_state_visited st l f :
  st !! f = Some VISITING -> (forall o, o ∈ Dependencies f -> exists d, o = Some d /\ d ∈ l) ->
  ok_state st l -> ok_state (<[f := VISITED]> st) (l ++ [f]).
Proof.
  intros Hf Hd (Hv & Hnd & Ho). split_and!.
  - intros g. rewrite elem_of_app, list_elem_of_singleton, <-Hv.
    destruct (decide (g = f)) as [->|]; [rewrite lookup_insert_eq|rewrite lookup_insert_ne by done]; naive_solver.
  - apply NoDup_app. split_and!; [done| |apply NoDup_singleton]. intros g Hg ->%list_elem_of_singleton.
    apply Hv in Hg. congruence.
  - by apply in_order_snoc.
Qed.

(** A feature that was not visited: [r1], [st1] and [k1] are those of its dependencies. *)
Lemma visit_unvisited n f st r1 st1 k1 :
  st !! f = Some UNVISITED ->
  traced (fun W cb => visit_deps cb n (Dependencies f)) (<[f := VISITING]> st) r1 st1 k1 ->
  match r1 with
  | Ok _ => traced (fun W cb => visit cb (S n) f) st (Ok tt) (<[f := VISITED]> st1) (k1 ++ [f])
  | _ => traced (fun W cb => visit cb (S n) f) st r1 st1 k1
  end.
Proof.
  intros Ef T1.
  set (rest := (fun W cb => let! _ := set_status f VISITED in on_world (cb f)) : Visitor).
  assert (Hb : forall r st2 k2,
    match r1 with Ok _ => traced rest st1 r st2 k2 | _ => r = r1 /\ st2 = st1 /\ k2 = [] end ->
    traced (fun W cb => visit cb (S n) f) st r st2 (k1 ++ k2)).
  { intros r st2 k2 T2 W cb w. pose proof (traced_bind _ rest _ _ _ _ _ _ _ T1 T2 W cb w) as Hb.
    cbn [visit]. rewrite Ef. exact Hb. }
  destruct r1 as [[]| | |]; [|rewrite <-(app_nil_r k1); by apply Hb..].
  apply Hb. intros W cb w. cbn. unfold rest, mbind. cbn. destruct (cb f w) as [[[]| | |] w']; cbn; eauto.
Qed.

Lemma grown_visit_ok f st l st1 k1 :
  st !! f = Some UNVISITED -> (forall o, o ∈ Dependencies f -> exists d, o = Some d /\ d ∈ l ++ k1) ->
  grown (<[f := VISITING]> st) l (Ok tt) st1 k1 -> grown st l (Ok tt) (<[f := VISITED]> st1) (k1 ++ [f]).
Proof.
  intros Ef O1 [D1 S1 U1 V1].
  assert (Hf1 : st1 !! f = Some VISITING) by (apply V1; [done|apply lookup_insert_eq]). split.
  - rewrite dom_insert_lookup_L, D1 by eauto. by rewrite dom_insert_lookup_L by eauto.
  - rewrite app_assoc. apply ok_state_visited; auto.
  - intros g. destruct (decide (g = f)) as [->|]; [by rewrite lookup_insert_eq|].
    rewrite lookup_insert_ne by done. intros E%U1. by rewrite lookup_insert_ne in E.
  - intros g _. destruct (decide (g = f)) as [->|]; [rewrite lookup_insert_eq; naive_solver|].
    rewrite lookup_insert_ne, V1 by done. by rewrite lookup_insert_ne.
Qed.

Lemma grown_visit_fail f st l r st1 k1 :
  st !! f = Some UNVISITED -> r <> Ok tt -> grown (<[f := VISITING]> st) l r st1 k1 -> grown st l r st1 k1.
Proof.
  intros Ef Hne [D1 S1 U1 V1]. split; [|done| |done].
  - rewrite D1. by rewrite dom_insert_lookup_L by eauto.
  - intros g E%U1. destruct (decide (g = f)) as [->|]; [by rewrite lookup_insert_eq in E|].
    by rewrite lookup_insert_ne in E.
Qed.

Lemma visit_traced n : visit_spec n.
Proof.
  induction n as [|n IH]; intros f st l Hs.
  { exists Fuel, st, []. split_and!; [by apply traced_pure|by apply grown_refl|done|lia|by right]. }
  destruct (st !! f) as [[| |]|] eqn:Ef.
  2:{ exists (Err "Cycle detected"), st, []. split_and!; [|by apply grown_refl|done|done|].
      - apply traced_pure. intros W cb w. cbn. by rewrite Ef.
      - intros rank _ _ Hg. specialize (Hg f Ef). lia. }
  2:{ exists (Ok tt), st, []. split_and!; [|by apply grown_refl| |done|by left].
      - apply traced_pure. intros W cb w. cbn. by rewrite Ef.
      - intros _. rewrite app_nil_r. by apply Hs. }
  2:{ eexists (Err _), st, []. split_and!; [|by apply grown_refl|done|done|].
      - apply traced_pure. intros W cb w. cbn. by rewrite Ef.
      - intros rank _ Hd. by apply not_elem_of_dom in Ef. }
  destruct (deps_traced n IH (Dependencies f) (<[f := VISITING]> st) l (ok_state_visiting st l f Ef Hs))
    as (r1 & st1 & k1 & T1 & G1 & O1 & F1 & R1).
  pose proof (visit_unvisited n f st r1 st1 k1 Ef T1) as T.
  assert (r1 = Ok tt \/ r1 <> Ok tt) as [->|Hne] by (destruct r1 as [[]| | |]; auto).
  - exists (Ok tt), (<[f := VISITED]> st1), (k1 ++ [f]). split_and!; [done| | |done|by left].
    + apply grown_visit_ok; auto.
    + intros _. rewrite app_assoc. apply elem_of_app. right. left.
  - exists r1, st1, k1. split_and!; [by destruct r1 as [[]| | |]|by apply grown_visit_fail with f|done| |].
    + intros Hn. apply F1. pose proof (unvisited_visiting st f Ef). lia.
    + intros rank Hrk Hf Hg. apply (R1 rank).
      * intros g Hg' o Ho. rewrite dom_insert_lookup_L in * by eauto. by apply (Hrk g).
      * intros o Ho. destruct (Hrk f Hf o Ho) as (d & -> & Hd & Hlt). exists d.
        rewrite dom_insert_lookup_L by eauto. split_and!; [done|done|]. intros g.
        destruct (decide (g = f)) as [->|]; [done|]. rewrite lookup_insert_ne by done. intros ?%Hg. lia.
Qed.

(** ** The whole visit *)
Definition initial_status (walk : list F) : gmap F Status := foldl (fun st f => <[f := UNVISITED]> st) ∅ walk.

Lemma initial_status_lookup walk st f :
  foldl (fun st f => <[f := UNVISITED]> st) st walk !! f = if decide (f ∈ walk) then Some UNVISITED else st !! f.
Proof.
  revert st. induction walk as [|g walk IH]; intros st; cbn; [done|]. rewrite IH.
  destruct (decide (f ∈ walk)) as [Hf|Hf]; [by rewrite decide_True by (by right)|].
  destruct (decide (f = g)) as [->|Hne]; [by rewrite lookup_insert_eq, decide_True by left|].
  rewrite lookup_insert_ne by done. rewrite decide_False; [done|]. by intros [|]%elem_of_cons.
Qed.

Context {Hlaws : HashOrderLaws F}.

Lemma hash_order_elem (X : gset F) f : f ∈ hash_order X <-> f ∈ X.
Proof. by rewrite (hash_order_elements X), elem_of_elements. Qed.

Lemma initial_status_dom (X : gset F) : dom (initial_status (hash_order X)) = X.
Proof.
  apply set_eq. intros f. rewrite elem_of_dom. unfold initial_status. rewrite initial_status_lookup.
  case_decide as Hf; rewrite hash_order_elem in Hf; [by split|]. rewrite lookup_empty, is_Some_alt. done.
Qed.

Lemma initial_status_unvisited (X : gset F) f :
  initial_status (hash_order X) !! f = if decide (f ∈ X) then Some UNVISITED else None.
Proof.
  unfold initial_status. rewrite initial_status_lookup, lookup_empty.
  apply decide_ext, hash_order_elem.
Qed.

Lemma initial_ok_state (X : gset F) : ok_state (initial_status (hash_order X)) [].
Proof.
  split_and!; [|constructor|by intros [] ? ? [=]].
  intros f. rewrite initial_status_unvisited, elem_of_nil. case_decide; naive_solver.
Qed.

Lemma unvisited_initial (X : gset F) : (unvisited (initial_status (hash_order X)) <= size X)%nat.
Proof.
  unfold unvisited. rewrite <-(initial_status_dom X) at 2. rewrite size_dom.
  apply map_subseteq_size, map_filter_subseteq.
Qed.

(** One walk: the order it found, if it did. *)
Lemma walk_traced (X : gset F) : exists r st' k,
  traced (fun W cb => for_each (visit cb (S (size X))) (hash_order X)) (initial_status (hash_order X)) r st' k /\
  ok_state st' k /\ dom st' = X /\ clean r /\
  (r = Ok tt -> forall f, f ∈ X -> f ∈ k) /\
  (forall rank, ranked rank X -> r = Ok tt).
Proof.
  destruct (deps_traced _ (visit_traced (S (size X))) (Some <$> hash_order X) _ [] (initial_ok_state X))
    as (r & st' & k & T & G & O & Fu & R).
  pose proof (Fu ltac:(pose proof (unvisited_initial X); lia)) as Hfuel.
  exists r, st', k. split_and!.
  - intros W cb w. specialize (T W cb w). unfold visit_deps in T.
    assert (E : forall l, for_each (fun o : option F => match o with
              | Some d => visit cb (S (size X)) d | None => lift (Err "null dependency") end) (Some <$> l)
            = for_each (visit cb (S (size X))) l).
    { intros l. induction l as [|x l IHl]; [done|]. rewrite fmap_cons. cbn [for_each]. by rewrite IHl. }
    by rewrite E in T.
  - apply (grown_ok _ _ _ _ _ G).
  - rewrite (grown_dom _ _ _ _ _ G). apply initial_status_dom.
  - done.
  - intros Hr f Hf. destruct (O Hr (Some f)) as (d & [= <-] & Hd); [|done].
    apply list_elem_of_fmap. exists f. by rewrite hash_order_elem.
  - intros rank Hrk. destruct (R rank) as [|Er]; [by rewrite initial_status_dom| |done|by rewrite Er in Hfuel].
    intros o (f & -> & Hf)%list_elem_of_fmap. exists f. rewrite initial_status_dom. apply hash_order_elem in Hf.
    split_and!; [done|done|]. intros g. rewrite initial_status_unvisited. case_decide; naive_solver.
Qed.

Lemma topological_traced (X : gset F) : exists r k,
  (NoDup k /\ in_order k /\ (forall f, f ∈ k -> f ∈ X)) /\ clean r /\
  (r = Ok tt -> k ≡ₚ elements X) /\ (forall rank, ranked rank X -> r = Ok tt) /\
  forall W (cb : F -> M W unit) w,
    TopologicalVisit cb X w = match for_each cb k w with (Ok _, w') => (r, w') | e => e end.
Proof.
  destruct (walk_traced X) as (r & st' & k & T & (Hv & Hnd & Ho) & Hd & Hf & Hall & Hr).
  assert (Hsub : forall f, f ∈ k -> f ∈ X).
  { intros f Hk%Hv. rewrite <-Hd. apply elem_of_dom. eauto. }
  exists r, k. split_and!; [done..| |done|].
  - intros Hok. apply NoDup_Permutation; [done|apply NoDup_elements|]. intros f.
    rewrite elem_of_elements. naive_solver.
  - intros W cb w. specialize (T W cb w). unfold TopologicalVisit. fold (initial_status (hash_order X)).
    destruct (for_each cb k w) as [[[]| | |] w']; [by rewrite T|destruct T as [st'' ->]; done..].
Qed.

Lemma for_each_add k l : for_each add_feature k l = (Ok tt, l ++ k).
Proof.
  revert l. induction k as [|f k IH]; intros l; [by rewrite app_nil_r|]. cbn. unfold mbind, add_feature, modify.
  rewrite IH. by rewrite <-app_assoc.
Qed.

(** The order that RunSetup computes. *)
Lemma topological_add (X : gset F) : exists r k, TopologicalVisit add_feature X [] = (r, k) /\
  (NoDup k /\ in_order k /\ (forall f, f ∈ k -> f ∈ X)) /\ clean r /\
  (r = Ok tt -> k ≡ₚ elements X) /\ (forall rank, ranked rank X -> r = Ok tt) /\
  forall W (cb : F -> M W unit) w,
    TopologicalVisit cb X w = match for_each cb k w with (Ok _, w') => (r, w') | e => e end.
Proof.
  destruct (topological_traced X) as (r & k & H1 & H2 & H3 & H4 & H5).
  exists r, k. split; [|done]. by rewrite H5, for_each_add.
Qed.

Lemma in_order_ranked l : NoDup l -> in_order l -> exists rank, ranked rank (list_to_set l : gset F).
Proof.
  intros Hnd Ho. exists (fun f => default 0%nat (fst <$> list_find (fun g => g = f) l)).
  intros f Hf o Hoo. apply elem_of_list_to_set in Hf as (l1 & l2 & ->)%list_elem_of_split.
  destruct (Ho l1 f l2 eq_refl o Hoo) as (d & -> & Hd). exists d.
  split_and!; [done|apply elem_of_list_to_set, elem_of_app; by left|].
  apply list_elem_of_split in Hd as (l3 & l4 & ->). rewrite <-app_assoc in *. cbn [app] in *.
  assert (E : forall a x b, NoDup (a ++ x :: b) -> list_find (fun g : F => g = x) (a ++ x :: b) = Some (length a, x)).
  { intros a x b Hn. apply list_find_Some. split_and!; [by rewrite lookup_app_r, Nat.sub_diag|done|].
    intros j y Hj Hlt ->. rewrite lookup_app_l in Hj by done. apply NoDup_app in Hn as (_ & Hn & _).
    eapply Hn; [by eapply list_elem_of_lookup_2|left]. }
  rewrite (E l3 d) by done. replace (l3 ++ d :: l4 ++ f :: l2) with ((l3 ++ d :: l4) ++ f :: l2) in *
    by (by rewrite <-app_assoc). rewrite E by done. cbn. rewrite length_app. cbn. lia.
Qed.

(** The features of [X] can be set up in some order. *)
Definition orderable (X : gset F) : Prop := exists l, l ≡ₚ elements X /\ in_order l.

Lemma orderable_ranked X : orderable X -> exists rank, ranked rank X.
Proof.
  intros (l & Hl & Ho). destruct (in_order_ranked l) as [rank Hr]; [rewrite Hl; apply NoDup_elements|done|].
  exists rank. assert (list_to_set l = X) as <-; [|done]. apply set_eq. intros f.
  by rewrite elem_of_list_to_set, Hl, elem_of_elements.
Qed.

(** The visit finds an order exactly when there is one, and otherwise reports an error. *)
Lemma topological_cases X :
  (exists l, TopologicalVisit add_feature X [] = (Ok tt, l) /\ l ≡ₚ elements X /\ in_order l /\
     forall W (cb : F -> M W unit) w, TopologicalVisit cb X w = for_each cb l w) \/
  (~ orderable X /\ exists e l, TopologicalVisit add_feature X [] = (Err e, l)).
Proof.
  destruct (topological_add X) as (r & k & E & (Hnd & Ho & Hsub) & Hc & Hp & Hr & Hcb).
  destruct r as [[]|e| |]; [|right|done..].
  - left. exists k. split_and!; [done|auto|done|]. intros W cb w. rewrite Hcb.
    by destruct (for_each cb k w) as [[[]| | |] w'].
  - split; [|eauto]. intros [rank Hrk]%orderable_ranked. by specialize (Hr rank Hrk).
Qed.

Lemma collect_enabled_spec Enabled features Y :
  None ∉ features ->
  collect_enabled Enabled features Y = Ok (list_to_set (base.filter (fun f => Enabled f = true) (omap id features)) ∪ Y).
Proof.
  revert Y. induction features as [|[f|] features IH]; intros Y Hn.
  - cbn. f_equal. set_solver.
  - cbn [collect_enabled omap list_omap id]. rewrite IH by (intros ?; apply Hn; by right).
    change (omap id (Some f :: features)) with (f :: omap id features).
    destruct (Enabled f) eqn:Ef; [rewrite filter_cons_True by done|rewrite filter_cons_False by (by rewrite Ef)];
      cbn; f_equal; set_solver.
  - destruct Hn. left.
Qed.

(** C24. Visiting a set of features always ends: either every feature is visited exactly once,
    each after the features it depends on, or an error is returned, and then no such order
    exists (a cycle, or a dependency outside the set). The order in which the hash set is
    walked does not matter. *)
Theorem topological_visit_total (X : gset F) :
  match TopologicalVisit add_feature X [] with
  | (Ok _, l) => l ≡ₚ elements X /\ in_order l
  | (Err _, _) => ~ orderable X
  | _ => False
  end.
Proof.
  destruct (topological_cases X) as [(l & -> & Hl & Ho & _)|(Hn & e & l & ->)]; done.
Qed.

(** The features that RunSetup sets up. *)
Definition enabled_set (Enabled : F -> bool) (features : list (option F)) : gset F :=
  list_to_set (base.filter (fun f => Enabled f = true) (omap id features)).

Lemma run_setup_cases {W} Enabled (ResultSetup : F -> M W unit) features w :
  None ∉ features ->
  let X := enabled_set Enabled features in
  (exists l, l ≡ₚ elements X /\ in_order l /\ RunSetup Enabled ResultSetup features w = for_each ResultSetup l w) \/
  (~ orderable X /\ exists e, RunSetup Enabled ResultSetup features w = (Err e, w)).
Proof.
  intros Hn X. unfold RunSetup. cbn. unfold mbind, lift. rewrite collect_enabled_spec by done.
  rewrite union_empty_r_L. fold (enabled_set Enabled features). fold X.
  destruct (topological_cases X) as [(l & E & Hl & Ho & _)|(Hno & e & l & E)]; rewrite E; eauto.
Qed.

(** When the features can be ordered, [ProcessFlags] calls [Process] on each distinct
    feature once, dependencies first, and stops at the first error, like a loop over that
    list. *)
Theorem process_flags_in_order (Process : F -> M (list bytes) unit) (features : list (option F)) flags :
  None ∉ features ->
  orderable (list_to_set (omap id features)) ->
  exists l, l ≡ₚ remove_dups (omap id features) /\ in_order l /\
    ProcessFlags Process features flags = for_each Process l flags.
Proof.
  intros Hn Ho. destruct (topological_cases (list_to_set (omap id features)))
    as [(l & _ & Hl & Hord & Hcb)|(Hno & _)]; [|done]. exists l. split_and!; [|done|].
  - apply NoDup_Permutation; [rewrite Hl; apply NoDup_elements|apply NoDup_remove_dups|]. intros f.
    by rewrite Hl, elem_of_elements, elem_of_list_to_set, elem_of_remove_dups.
  - unfold ProcessFlags, mbind, lift, expect. rewrite bool_decide_eq_false_2 by done. apply Hcb.
Qed.

Section returning_theorems.
Context {T : Type} (Calculate : F -> M (gmap F T) T).
(** A feature that only looks at the features it depends on. *)
Definition reads_deps : Prop := forall f c,
  (forall d, Some d ∈ Dependencies f -> is_Some (c !! d)) ->
  match Calculate f c with (Ok _, c') | (Err _, c') => c' = c | _ => False end.

Lemma returning_walk l done c :
  reads_deps -> NoDup (done ++ l) -> in_order (done ++ l) -> dom c = list_to_set done ->
  match for_each (ReturningSetup Calculate) l c with
  | (Ok _, c') => dom c' = list_to_set (done ++ l)
  | (Err _, c') => dom c' ⊆ list_to_set (done ++ l) /\
      exists f e, f ∈ l /\ (f ∉ dom c') /\ fst (Calculate f c') = Err e
  | _ => False
  end.
Proof.
  intros Hr. revert done c. induction l as [|f l IH]; intros done c Hnd Ho Hd.
  { cbn. by rewrite app_nil_r. }
  assert (Hf : f ∉ dom c).
  { rewrite Hd, elem_of_list_to_set. apply NoDup_app in Hnd as (_ & Hnd & _). intros Hin. by apply (Hnd f Hin), list_elem_of_here. }
  assert (Hdeps : forall d, Some d ∈ Dependencies f -> is_Some (c !! d)).
  { intros d Hin. destruct (Ho done f l eq_refl _ Hin) as (d' & [= <-] & Hd'). apply elem_of_dom.
    by rewrite Hd, elem_of_list_to_set. }
  specialize (Hr f c Hdeps). cbn [for_each]. unfold mbind at 1, ReturningSetup at 1. unfold mbind, lift, get, modify.
  rewrite bool_decide_eq_false_2 by (by rewrite <-elem_of_dom). cbn.
  destruct (Calculate f c) as [[v|e| |] c'] eqn:Ec; [subst c'|subst c'|done..].
  - specialize (IH (done ++ [f]) (<[f := v]> c)). rewrite <-app_assoc in IH. cbn in IH.
    specialize (IH Hnd Ho). rewrite dom_insert_L, Hd, list_to_set_app_L in IH.
    specialize (IH ltac:(set_solver)).
    destruct (for_each (ReturningSetup Calculate) l (<[f := v]> c)) as [[[]|e| |] c']; [done| |done..].
    destruct IH as (Hsub & g & e' & Hg & He). split; [done|]. exists g, e'. split; [by right|done].
  - split; [rewrite Hd, list_to_set_app_L; set_solver|]. exists f, e. rewrite Ec. split_and!; [left|done|done].
Qed.

(** The values of the features that return one: [RunSetup] gives every enabled feature its
    value, or fails because the features cannot be ordered, before any value is computed,
    or because the calculation of a feature failed that then has no value. No feature is
    ever asked for a value that it has not yet, so the accessor's CHECK cannot fail. *)
Theorem run_setup_values (Enabled : F -> bool) (features : list (option F)) :
  reads_deps -> None ∉ features ->
  let X := enabled_set Enabled features in
  match RunSetup Enabled (ReturningSetup Calculate) features ∅ with
  | (Ok _, calculated_) => dom calculated_ = X
  | (Err _, calculated_) => dom calculated_ ⊆ X /\
      (~ orderable X /\ calculated_ = ∅ \/
       exists f e, f ∈ X /\ (f ∉ dom calculated_) /\ fst (Calculate f calculated_) = Err e)
  | _ => False
  end.
Proof.
  intros Hr Hn X. destruct (run_setup_cases Enabled (ReturningSetup Calculate) features ∅ Hn)
    as [(l & Hl & Ho & ->)|(Hno & e & ->)]; [|split; [set_solver|by left]].
  assert (Hset : (list_to_set l : gset F) = X).
  { apply set_eq. intros f. by rewrite elem_of_list_to_set, Hl, elem_of_elements. }
  assert (Hin : forall f, f ∈ l -> f ∈ X) by (intros f Hf; rewrite <-Hset; by apply elem_of_list_to_set).
  pose proof (returning_walk l [] ∅ Hr) as Hw. cbn [app] in Hw. rewrite Hset in Hw.
  specialize (Hw ltac:(rewrite Hl; apply NoDup_elements) Ho ltac:(by rewrite dom_empty_L)).
  destruct (for_each (ReturningSetup Calculate) l ∅) as [[[]|e| |] c]; [done| |done..].
  destruct Hw as (Hsub & f & e' & Hf & Hnot & He). split; [done|]. right. exists f, e'. auto.
Qed.
End returning_theorems.
End features.

(** ** Examples: 3 depends on 2 and 1, 2 on 1; 4 and 5 on each other *)
Definition example_deps (f : positive) : list (option positive) :=
  match f with
  | 3 => [Some 2; Some 1]
  | 2 => [Some 1]
  | 4 => [Some 5]
  | 5 => [Some 4]
  | 6 => [None]
  | _ => []
  end%positive.
#[local] Existing Instance elements_order.
#[local] Existing Instance elements_order_laws.

Example example_order : TopologicalVisit example_deps add_feature {[1; 2; 3]}%positive [] = (Ok tt, [1; 2; 3]%positive).
Proof. vm_compute. reflexivity. Qed.
Example example_cycle : fst (TopologicalVisit example_deps add_feature {[1; 4; 5]}%positive []) = Err "Cycle detected".
Proof. vm_compute. reflexivity. Qed.
Example example_null : fst (TopologicalVisit example_deps add_feature {[6]}%positive []) = Err "null dependency".
Proof. vm_compute. reflexivity. Qed.

Lemma topological_visit_total_witness :
  match TopologicalVisit example_deps add_feature {[1; 4; 5]}%positive [] with
  | (Ok _, l) => l ≡ₚ elements ({[1; 4; 5]}%positive : gset positive) /\ in_order example_deps l
  | (Err _, _) => ~ orderable example_deps {[1; 4; 5]}%positive
  | _ => False
  end.
Proof. exact (topological_visit_total example_deps {[1; 4; 5]}%positive). Defined.

Definition log_process (f : positive) : M (list bytes) unit :=
  let! flags := get in
  if decide (f = 2%positive) then lift (expect (bool_decide (str "--flag" ∈ flags)) "no flag") else mret tt.

Lemma process_flags_in_order_witness : exists l,
  l ≡ₚ remove_dups [2; 1; 2]%positive /\ in_order example_deps l /\
  ProcessFlags example_deps log_process [Some 2; Some 1; Some 2]%positive [str "--flag"] =
    for_each log_process l [str "--flag"].
Proof.
  apply (process_flags_in_order example_deps log_process [Some 2; Some 1; Some 2]%positive).
  - refine (bool_decide_unpack _ _). vm_compute. exact I.
  - exists [1; 2]%positive. split.
    + vm_compute. apply perm_swap.
    + apply (in_order_snoc example_deps [1%positive]).
      * apply (in_order_snoc example_deps []); [by intros [] ? ? [=]|]. intros o Ho. by apply elem_of_nil in Ho.
      * intros o ->%list_elem_of_singleton. exists 1%positive. split; [done|left].
Defined.

Definition example_calculate (f : positive) : M (gmap positive Z) Z :=
  match f with
  | 2%positive => let! a := deref 1%positive in mret (a + 1)
  | 3%positive => let! a := deref 2%positive in let! b := deref 1%positive in mret (a + b)
  | _ => mret 1
  end.

Lemma example_reads_deps : reads_deps example_deps example_calculate.
Proof.
  intros f c Hc. unfold example_calculate, mbind, mret, deref.
  destruct f as [[]|[]|]; try done.
  - destruct (Hc 2%positive) as [a ->]; [left|]. destruct (Hc 1%positive) as [b ->]; [right; left|]. done.
  - destruct (Hc 1%positive) as [a ->]; [left|]. done.
Qed.

Lemma run_setup_values_witness :
  match RunSetup example_deps (fun f => negb (f =? 7)%positive) (ReturningSetup example_calculate)
      [Some 3; Some 7; Some 2; Some 1]%positive ∅ with
  | (Ok _, calculated_) => dom calculated_ = {[1; 2; 3]}%positive
  | _ => False
  end.
Proof.
  pose proof (run_setup_values example_deps example_calculate (fun f => negb (f =? 7)%positive)
    [Some 3; Some 7; Some 2; Some 1]%positive example_reads_deps
    ltac:(refine (bool_decide_unpack _ _); vm_compute; exact I)) as Hw.
  vm_compute in Hw. vm_compute. exact Hw.
Defined.
End Features.
