(* ===== verification/Commands.v ===== *)
(** * Commands (process/command.{h,cc}, process/subprocess_options.h,
    process/envp_to_map.cc, and ConstructCommand of host/commands/cvd/cli/utils.cpp)

    A [Command] collects the arguments, the environment, the descriptors and the working
    directory of a program to start.  [Table] is a process's descriptor table with the
    calls of the kernel on it; [child] is what runs between fork and exec. *)
From S2P Require Import Prelude CppString ModemCommand.

Module Commands.
Import CppString ModemCommand.

(** ** The kernel's side: descriptor tables *)
Record Entry := mkEntry { file : Z; cloexec : bool }.
Abbreviation Table := (gmap Z Entry).

Fixpoint lowest_free (fuel : nat) (from : Z) (t : Table) : Z :=
  match fuel with
  | O => from
  | S fuel => match t !! from with Some _ => lowest_free fuel (from + 1) t | None => from end
  end.

Section kernel.
(** RLIMIT_NOFILE. *)
Context (nofile : Z).

(** [fcntl(fd, F_DUPFD_CLOEXEC, 3)]. *)
Definition dupfd_cloexec (fd : Z) (t : Table) : Z * Table :=
  match t !! fd with
  | None => (-1, t)
  | Some e =>
      let n := lowest_free (size t) 3 t in
      if n <? nofile then (n, <[n := mkEntry (file e) true]> t) else (-1, t)
  end.
(** [dup2(fd, new_fd)] *)
Definition dup2 (fd new_fd : Z) (t : Table) : Table :=
  match t !! fd with
  | None => t
  | Some e => if fd =? new_fd then t else <[new_fd := mkEntry (file e) false]> t
  end.
(** [fcntl(fd, F_SETFD, 0)] *)
Definition setfd_0 (fd : Z) (t : Table) : bool * Table :=
  match t !! fd with
  | None => (false, t)
  | Some e => (true, <[fd := mkEntry (file e) false]> t)
  end.
(** execve(2) closes what is marked close-on-exec. *)
Definition exec_table (t : Table) : Table := base.filter (fun p => cloexec p.2 = false) t.

(** ** Command *)
(** A shared descriptor: its identity (the address of the [Fd]) and its number. *)
Record SharedFD := mkSharedFD { identity : Z; fd_ : Z }.
Definition IsOpen (s : SharedFD) : bool := negb (fd_ s =? -1).

Inductive StdIoChannel := kStdIn | kStdOut | kStdErr.
Definition channel_fd (c : StdIoChannel) : Z := match c with kStdIn => 0 | kStdOut => 1 | kStdErr => 2 end.

Context {W : Type}.
(** [inherited_fds_] and [redirects_] are std::maps from identities and channels. *)
Record Command := mkCommand {
  executable_ : option bytes;
  command_ : list bytes;
  prerequisites_ : list (M W unit);
  inherited_fds_ : list (Z * Z);
  redirects_ : list (Z * Z);
  env_ : list bytes;
  working_directory_ : SharedFD
}.
Definition set_executable_ x (c : Command) := mkCommand x (command_ c) (prerequisites_ c) (inherited_fds_ c) (redirects_ c) (env_ c) (working_directory_ c).
Definition set_command_ x (c : Command) := mkCommand (executable_ c) x (prerequisites_ c) (inherited_fds_ c) (redirects_ c) (env_ c) (working_directory_ c).
Definition set_prerequisites_ x (c : Command) := mkCommand (executable_ c) (command_ c) x (inherited_fds_ c) (redirects_ c) (env_ c) (working_directory_ c).
Definition set_inherited_fds_ x (c : Command) := mkCommand (executable_ c) (command_ c) (prerequisites_ c) x (redirects_ c) (env_ c) (working_directory_ c).
Definition set_redirects_ x (c : Command) := mkCommand (executable_ c) (command_ c) (prerequisites_ c) (inherited_fds_ c) x (env_ c) (working_directory_ c).
Definition set_env_ x (c : Command) := mkCommand (executable_ c) (command_ c) (prerequisites_ c) (inherited_fds_ c) (redirects_ c) x (working_directory_ c).
Definition set_working_directory_ x (c : Command) := mkCommand (executable_ c) (command_ c) (prerequisites_ c) (inherited_fds_ c) (redirects_ c) (env_ c) x.

Definition no_fd (id : Z) : SharedFD := mkSharedFD id (-1).
(** The constructor; [environ] is the environment of the process. *)
Definition new_command (environ : list bytes) (executable : bytes) : Command :=
  mkCommand None [executable] [] [] [] environ (no_fd 0).

Definition SetExecutable (executable : bytes) := set_executable_ (Some executable).
Definition SetName (name : bytes) (c : Command) : Command := set_command_ (<[0%nat := name]> (command_ c)) c.
Definition SetExecutableAndName (name : bytes) (c : Command) : Command := SetName name (SetExecutable name c).
Definition SetEnvironment (env : list bytes) := set_env_ env.
Definition AddPrerequisite (p : M W unit) (c : Command) : Command := set_prerequisites_ (prerequisites_ c ++ [p]) c.

(** *** Environment *)
Definition eq_sign : ascii := "=".
Definition AddEnvironmentVariable (env_var value : bytes) (c : Command) : Command :=
  set_env_ (env_ c ++ [env_var ++ eq_sign :: value]) c.
Definition UnsetFromEnvironment `{Absl} (env_var : bytes) (c : Command) : Command :=
  let test_value := env_var ++ [eq_sign] in
  set_env_ (base.filter (fun e => StartsWith e test_value = false) (env_ c)) c.

(** *** Parameters: [BuildParameter] on its overloads, [AddParameter] *)
Inductive Arg := ArgText (s : bytes) | ArgInt (z : Z) | ArgBool (b : bool) | ArgFd (s : SharedFD).
Abbreviation State := (Command * Table)%type.

Definition BuildParameter_SharedFD (s : SharedFD) : M State bytes := fun '(c, t) =>
  match map_find (identity s) (inherited_fds_ c) with
  | Some fd => (Ok (to_string fd), (c, t))
  | None =>
      let (fd, t) := dupfd_cloexec (fd_ s) t in
      if fd >=? 0 then (Ok (to_string fd), (set_inherited_fds_ (map_set (identity s) fd (inherited_fds_ c)) c, t))
      else (Fatal "Could not acquire a new file descriptor", (c, t))
  end.
Definition BuildParameter (a : Arg) : M State bytes :=
  match a with
  | ArgText s => mret s
  | ArgInt z => mret (to_string z)
  | ArgBool b => mret (if b then str "true" else str "false")
  | ArgFd s => BuildParameter_SharedFD s
  end.
Fixpoint BuildParameters (args : list Arg) : M State bytes :=
  match args with
  | [] => mret []
  | a :: args => let! x := BuildParameter a in let! y := BuildParameters args in mret (x ++ y)
  end.
Definition AddParameter (args : list Arg) : M State unit :=
  let! s := BuildParameters args in
  modify (fun '(c, t) => (set_command_ (command_ c ++ [s]) c, t)).
Definition AppendToLastParameter (args : list Arg) : M State unit :=
  let! (c, _) := get in
  let! _ := lift (check (negb (bool_decide (command_ c = []))) "There is no parameter to append to") in
  let! s := BuildParameters args in
  modify (fun '(c, t) => (set_command_ (alter (fun x => x ++ s) (length (command_ c) - 1)%nat (command_ c)) c, t)).

(** *** Redirections *)
Definition RedirectStdIO (channel : StdIoChannel) (s : SharedFD) : M State unit := fun '(c, t) =>
  if negb (IsOpen s) then (Fatal "shared_fd->IsOpen()", (c, t)) else
  match map_find (channel_fd channel) (redirects_ c) with
  | Some _ => (Fatal "Attempted multiple redirections", (c, t))
  | None =>
      let (dup_fd, t) := dupfd_cloexec (fd_ s) t in
      if dup_fd >=? 0 then (Ok tt, (set_redirects_ (map_set (channel_fd channel) dup_fd (redirects_ c)) c, t))
      else (Fatal "Could not acquire a new file descriptor", (c, t))
  end.
(** Redirecting to a channel of the parent: [SharedFD::Dup] makes a duplicate that is
    closed when the call returns. *)
Definition RedirectStdIO_parent (channel parent_channel : StdIoChannel) : M State unit := fun '(c, t) =>
  let (fd, t) := dupfd_cloexec (channel_fd parent_channel) t in
  let '(r, (c, t)) := RedirectStdIO channel (mkSharedFD 0 (if fd >=? 0 then fd else -1)) (c, t) in
  (r, (c, if fd >=? 0 then delete fd t else t)).

Definition SetWorkingDirectory (dirfd : SharedFD) : M State unit := fun '(c, t) =>
  if IsOpen dirfd then (Ok tt, (set_working_directory_ dirfd c, t)) else (Fatal "Dir fd invalid", (c, t)).

(** The destructor. *)
Definition close_all (entries : list (Z * Z)) (t : Table) : Table := foldl (fun t p => delete p.2 t) t entries.
Definition destroy (c : Command) (t : Table) : Table := close_all (redirects_ c) (close_all (inherited_fds_ c) t).

(** ** Command::Start *)
Record SubprocessOptions := mkOptions {
  verbose_ : bool; exit_with_parent_ : bool; in_group_ : bool; strace_ : bytes
}.
Definition new_options : SubprocessOptions := mkOptions true true false [].

Definition validate_redirects (redirects inherited_fds : list (Z * Z)) : bool :=
  let int_redirects := redirects.*1 in
  forallb (fun entry => negb (bool_decide (entry.2 ∈ int_redirects))) inherited_fds.
Definition do_redirects (redirects : list (Z * Z)) (t : Table) : Table :=
  foldl (fun t '(std_channel, fd) => dup2 fd std_channel t) t redirects.

(** The state of a process between fork and exec, and its end. *)
Record Process := mkProcess {
  table : Table; cwd : option Z; group_leader : bool; parent_death_signal : option Z
}.
Definition SIGHUP : Z := 1.
Inductive ChildEnd :=
| ChildExit (code : Z)
| ChildExec (path : bytes) (argv envp : list bytes) (p : Process).
(** The errors of setpgid(2), fchdir(2) and execvpe(3), if they fail. *)
Record Failures := mkFailures { setpgid_error : option Z; fchdir_error : option Z; exec_fails : bool }.
Definition EBADF : Z := 9.

Definition strace_args (output : bytes) : list bytes :=
  [str "/usr/bin/strace"; str "--daemonize"; str "--output-separately"; str "--follow-forks"; str "-o"; output].
Definition full_command (c : Command) (o : SubprocessOptions) : list bytes :=
  (if bool_decide (strace_ o = []) then [] else strace_args (strace_ o)) ++ command_ c.

Fixpoint clear_cloexec (inherited_fds : list (Z * Z)) (t : Table) : option Table :=
  match inherited_fds with
  | [] => Some t
  | (_, fd) :: l => match setfd_0 fd t with (true, t) => clear_cloexec l t | (false, _) => None end
  end.

Definition child (k : Failures) (c : Command) (o : SubprocessOptions) (p : Process) : ChildEnd :=
  let pdeathsig := if exit_with_parent_ o then Some SIGHUP else parent_death_signal p in
  let t := do_redirects (redirects_ c) (table p) in
  match (if in_group_ o then setpgid_error k else None) with
  | Some errno => ChildExit (- errno)
  | None =>
    match clear_cloexec (inherited_fds_ c) t with
    | None => ChildExit (- EBADF)
    | Some t =>
      let exec cwd :=
        let cmd := full_command c o in
        let executable := default (default [] (head cmd)) (executable_ c) in
        if exec_fails k then ChildExit (-1)
        else ChildExec executable cmd (env_ c) (mkProcess (exec_table t) cwd (group_leader p || in_group_ o) pdeathsig) in
      if IsOpen (working_directory_ c) then
        match fchdir_error k, t !! fd_ (working_directory_ c) with
        | None, Some e => exec (Some (file e))
        | Some errno, _ => ChildExit (- errno)
        | None, None => ChildExit (- EBADF)
        end
      else exec (cwd p)
    end
  end.

(** [fork] answers with the child's pid or -1; the child starts with the parent's
    table.  The result is the pid of the subprocess and the child, if there is one. *)
Definition Start (k : Failures) (c : Command) (o : SubprocessOptions) (parent : Process) (fork : Z) :
    M W (Z * option ChildEnd) := fun w =>
  if negb (validate_redirects (redirects_ c) (inherited_fds_ c)) then (Ok (-1, None), w) else
  match attempt (for_each id (prerequisites_ c)) w with
  | (Ok None, w) => (Ok (-1, None), w)
  | (Ok (Some _), w) =>
      (Ok (fork, if fork >? 0 then Some (child k c o (mkProcess (table parent) (cwd parent) false None)) else None), w)
  | (e, w) => (fail_as e, w)
  end.

(** ** Printing *)
(** absl::StrSplit with MaxSplits(c, 1): at most one split, at the first [c]. *)
Class AbslSplitOnce := {
  StrSplitOnce : bytes -> ascii -> list bytes;
  StrSplitOnce_spec s c : StrSplitOnce s c =
    match find_first_of c s with Some i => [ztake i s; zdrop (i + 1) s] | None => [s] end
}.
Definition to_show : list bytes :=
  [str "HOME"; str "ANDROID_HOST_OUT"; str "ANDROID_SOONG_HOST_OUT"; str "ANDROID_PRODUCT_OUT";
   str "CUTTLEFISH_CONFIG_FILE"; str "CUTTLEFISH_INSTANCE"].
(** operator<< *)
Definition print `{Absl, AbslSplitOnce} (c : Command) : bytes :=
  flat_map (fun env_var =>
    match StrSplitOnce env_var eq_sign with
    | name :: _ => if bool_decide (name ∈ to_show) then env_var ++ str " " else []
    | [] => []
    end) (env_ c) ++ StrJoin (command_ c) (str " ").
Definition ToString `{Absl} (c : Command) : bytes := StrJoin (env_ c ++ command_ c) (str " ").
Definition newline : ascii := "010".
(** [AbsolutePath] asks for the working directory of the process. *)
Definition AsBashScript `{Absl} (AbsolutePath : bytes -> bytes) (redirected_stdio_path : bytes) (c : Command) : result bytes :=
  let* _ := check (bool_decide (inherited_fds_ c = [])) "Bash wrapper will not have inherited file descriptors" in
  let* _ := check (bool_decide (redirects_ c = [])) "Bash wrapper will not have redirected stdio" in
  let contents := str "#!/usr/bin/env bash" ++ [newline; newline] ++ StrJoin (command_ c) (str " \" ++ [newline]) in
  Ok (contents ++ if bool_decide (redirected_stdio_path = []) then [] else str " &> " ++ AbsolutePath redirected_stdio_path).

(** ** EnvpToMap, and the environment that a command of cvd gets *)
Definition EnvpToMap `{AbslSplitOnce} (envp : list bytes) : bytes_map bytes :=
  foldl (fun env_map e =>
    match StrSplitOnce e eq_sign with
    | [key; value] => match env_map !! key with None => <[key := value]> env_map | Some _ => env_map end
    | _ => env_map
    end) ∅ envp.

Definition FixGroupsIfNecessary (environ : list bytes) (has_net has_kvm : bool) (executable_directory command_name bin_path : bytes) : Command :=
  if has_net && has_kvm then SetExecutable bin_path (new_command environ command_name) else
  let c := SetExecutable (executable_directory ++ str "/cvd_refresh_groups") (new_command environ (str "cvd_refresh_groups")) in
  set_command_ (command_ c ++ [bin_path; command_name]) c.

Definition kCuttlefishConfigEnvVarName : bytes := str "CUTTLEFISH_CONFIG_FILE".
(** ConstructCommand, from the command that FixGroupsIfNecessary returns; [envs] is the
    map in the order of its iteration, [config_path] the answer of
    GetCuttlefishConfigPath and [directory] that of Fd::Open. *)
Definition ConstructCommand `{Absl} (args : list bytes) (envs : list (bytes * bytes)) (config_path : option bytes)
    (working_dir : bytes) (directory : result SharedFD) (c : Command) : result Command :=
  let c := set_command_ (command_ c ++ args) c in
  let c := if bool_decide (kCuttlefishConfigEnvVarName ∈ envs.*1) then c
           else match config_path with
                | Some p => AddEnvironmentVariable kCuttlefishConfigEnvVarName p c
                | None => c
                end in
  let c := foldl (fun c it => AddEnvironmentVariable it.1 it.2 (UnsetFromEnvironment it.1 c)) c envs in
  if bool_decide (working_dir = []) then Ok c
  else let* fd := directory in
       if IsOpen fd then Ok (set_working_directory_ fd c) else Fatal "Dir fd invalid".

(** ** Sequences of operations *)
Inductive Op `{Absl} :=
| OpParameter (args : list Arg) | OpAppend (args : list Arg)
| OpRedirect (channel : StdIoChannel) (s : SharedFD) | OpRedirectParent (channel parent : StdIoChannel)
| OpDirectory (s : SharedFD)
| OpAddEnv (env_var value : bytes) | OpUnset (env_var : bytes) | OpEnvironment (env : list bytes)
| OpExecutable (e : bytes) | OpName (e : bytes) | OpPrerequisite (p : M W unit).
Definition on_command (f : Command -> Command) : M State unit := modify (fun '(c, t) => (f c, t)).
Definition run_op `{Absl} (o : Op) : M State unit :=
  match o with
  | OpParameter args => AddParameter args
  | OpAppend args => AppendToLastParameter args
  | OpRedirect channel s => RedirectStdIO channel s
  | OpRedirectParent channel parent => RedirectStdIO_parent channel parent
  | OpDirectory s => SetWorkingDirectory s
  | OpAddEnv env_var value => on_command (AddEnvironmentVariable env_var value)
  | OpUnset env_var => on_command (UnsetFromEnvironment env_var)
  | OpEnvironment env => on_command (SetEnvironment env)
  | OpExecutable e => on_command (SetExecutable e)
  | OpName e => on_command (SetName e)
  | OpPrerequisite p => on_command (AddPrerequisite p)
  end.

(** ** Free descriptors *)
Definition above (from : Z) (t : Table) : nat := size (base.filter (fun p => from <= p.1) t).

Lemma above_step from (t : Table) e : t !! from = Some e -> (above (from + 1) t < above from t)%nat.
Proof.
  intros Hf. unfold above. assert (Hsub : base.filter (fun p : Z * Entry => from + 1 <= p.1) t ⊂ base.filter (fun p => from <= p.1) t).
  { split.
    - apply map_subseteq_spec. intros n x [Hn Hle]%map_lookup_filter_Some. apply map_lookup_filter_Some.
      cbn in *. split; [done|lia].
    - intros Hs. rewrite map_subseteq_spec in Hs. specialize (Hs from e).
      rewrite !map_lookup_filter_Some in Hs. cbn in Hs. destruct Hs as [_ Hle]; [split; [done|lia]|lia]. }
  by apply map_subset_size.
Qed.

Lemma lowest_free_spec fuel from (t : Table) :
  (above from t <= fuel)%nat -> from <= lowest_free fuel from t /\ t !! lowest_free fuel from t = None.
Proof.
  revert from. induction fuel as [|fuel IH]; intros from Ha; cbn.
  - split; [lia|]. destruct (t !! from) as [e|] eqn:E; [|done]. pose proof (above_step from t e E). lia.
  - destruct (t !! from) as [e|] eqn:E; [|split; [lia|done]].
    destruct (IH (from + 1)) as [H1 H2]; [pose proof (above_step from t e E); lia|]. split; [lia|done].
Qed.

Lemma lowest_free_3 (t : Table) : 3 <= lowest_free (size t) 3 t /\ t !! lowest_free (size t) 3 t = None.
Proof. apply lowest_free_spec, map_subseteq_size, map_filter_subseteq. Qed.

Lemma dupfd_spec fd t n t' : dupfd_cloexec fd t = (n, t') ->
  (n = -1 /\ t' = t) \/
  (3 <= n /\ t !! n = None /\ exists e, t !! fd = Some e /\ t' = <[n := mkEntry (file e) true]> t).
Proof.
  unfold dupfd_cloexec. destruct (t !! fd) as [e|] eqn:E; [|intros [= <- <-]; by left].
  pose proof (lowest_free_3 t) as [H1 H2]. case_match; intros [= <- <-]; [right|by left]. eauto.
Qed.

(** ** The invariant of a command and the table it was built on *)
Definition dups (c : Command) : list Z := (inherited_fds_ c).*2 ++ (redirects_ c).*2.
Record wf (base : Table) (st : State) : Prop := mkWf {
  wf_inherited : map_sorted (inherited_fds_ st.1);
  wf_redirects : map_sorted (redirects_ st.1);
  wf_channels : forall ch n, (ch, n) ∈ redirects_ st.1 -> 0 <= ch <= 2;
  wf_nodup : NoDup (dups st.1);
  wf_dups n : n ∈ dups st.1 -> 3 <= n /\ base !! n = None /\ exists f, st.2 !! n = Some (mkEntry f true);
  wf_base n : n ∉ dups st.1 -> st.2 !! n = base !! n
}.
(** Later operations keep what the earlier ones have set up. *)
Definition extends (st st' : State) : Prop :=
  (forall id n, map_find id (inherited_fds_ st.1) = Some n -> map_find id (inherited_fds_ st'.1) = Some n) /\
  (forall ch n, map_find ch (redirects_ st.1) = Some n -> map_find ch (redirects_ st'.1) = Some n) /\
  (forall n, n ∈ dups st.1 -> n ∈ dups st'.1 /\ st'.2 !! n = st.2 !! n).
#[global] Instance extends_preorder : PreOrder extends.
Proof.
  split; [by intros st|]. intros st1 st2 st3 (A1 & B1 & C1) (A2 & B2 & C2). split_and!; [auto..|].
  intros n Hn. destruct (C1 n Hn) as [Hn2 E1]. destruct (C2 n Hn2) as [Hn3 E2]. split; congruence.
Qed.
(** What every operation guarantees. *)
Definition keeps {A} (m : M State A) : Prop := forall base st,
  wf base st -> wf base (snd (m st)) /\ extends st (snd (m st)).

Lemma map_set_perm {T} k (x : T) m : map_find k m = None -> map_set k x m ≡ₚ (k, x) :: m.
Proof.
  induction m as [|[i y] m IH]; cbn; [done|]. destruct (Z.eqb_spec i k) as [->|Hne]; [done|]. intros Hk.
  destruct (k <? i); [done|]. rewrite (proj2 (Z.eqb_neq k i)) by done. rewrite IH by done. apply perm_swap.
Qed.

(** A new duplicate, recorded under a new key of one of the two maps. *)
Lemma wf_add base c t c' n f :
  wf base (c, t) -> 3 <= n -> t !! n = None ->
  map_sorted (inherited_fds_ c') -> map_sorted (redirects_ c') ->
  (forall ch n, (ch, n) ∈ redirects_ c' -> 0 <= ch <= 2) ->
  dups c' ≡ₚ n :: dups c ->
  wf base (c', <[n := mkEntry f true]> t) /\ (forall m, m ∈ dups c -> m ∈ dups c' /\ <[n := mkEntry f true]> t !! m = t !! m).
Proof.
  intros [Hi Hr Hc Hnd Hd Hb] Hn Ht Hi' Hr' Hc' Hp. cbn in *.
  assert (Hnot : n ∉ dups c). { intros (_ & _ & e & He)%Hd. congruence. }
  split.
  - split; cbn; [done..| | |].
    + rewrite Hp. by constructor.
    + intros m. rewrite Hp, elem_of_cons. intros [->|Hm].
      * split_and!; [done|by rewrite <-Hb|]. rewrite lookup_insert_eq. eauto.
      * rewrite lookup_insert_ne by congruence. by apply Hd.
    + intros m. rewrite Hp, not_elem_of_cons. intros [Hne Hm]. rewrite lookup_insert_ne by done. auto.
  - intros m Hm. rewrite Hp, lookup_insert_ne by congruence. split; [by right|done].
Qed.

Lemma keeps_SharedFD s : keeps (BuildParameter_SharedFD s).
Proof.
  intros base [c t] Hwf. unfold BuildParameter_SharedFD.
  destruct (map_find (identity s) (inherited_fds_ c)) as [fd|] eqn:Ef; [by split|].
  destruct (dupfd_cloexec (fd_ s) t) as [n t'] eqn:Ed.
  apply dupfd_spec in Ed as [[-> ->]|(Hn & Ht & e & He & ->)]; [by split|].
  rewrite (proj2 (Z.geb_le n 0)) by lia. cbn.
  edestruct (wf_add base c t (set_inherited_fds_ (map_set (identity s) n (inherited_fds_ c)) c) n (file e)) as [W1 E1]; try done.
  - apply map_sorted_set, Hwf.
  - apply Hwf.
  - apply Hwf.
  - unfold dups. cbn. by rewrite map_set_perm.
  - split; [done|]. split_and!; cbn; [|done|done]. intros id m Hm. rewrite map_find_set.
    destruct (Z.eqb_spec (identity s) id); congruence.
Qed.

Lemma keeps_redirect channel s : keeps (RedirectStdIO channel s).
Proof.
  intros base [c t] Hwf. unfold RedirectStdIO. destruct (IsOpen s); [|by split]. cbn [negb].
  destruct (map_find (channel_fd channel) (redirects_ c)) as [fd|] eqn:Ef; [by split|].
  destruct (dupfd_cloexec (fd_ s) t) as [n t'] eqn:Ed.
  apply dupfd_spec in Ed as [[-> ->]|(Hn & Ht & e & He & ->)]; [by split|].
  rewrite (proj2 (Z.geb_le n 0)) by lia. cbn.
  edestruct (wf_add base c t (set_redirects_ (map_set (channel_fd channel) n (redirects_ c)) c) n (file e)) as [W1 E1]; try done.
  - apply Hwf.
  - apply map_sorted_set, Hwf.
  - cbn. intros ch m [[= -> ->]|Hm]%elem_of_map_set; [by destruct channel; cbn|]. by eapply (wf_channels _ _ Hwf).
  - unfold dups. cbn. rewrite map_set_perm by done. cbn. by rewrite Permutation_middle.
  - split; [done|]. split_and!; cbn; [done| |done]. intros id m Hm. rewrite map_find_set.
    destruct (Z.eqb_spec (channel_fd channel) id); congruence.
Qed.

Lemma keeps_table_bind {A B} (m : M State A) (k : A -> M State B) : keeps m -> (forall a, keeps (k a)) -> keeps (mbind m k).
Proof.
  intros Hm Hk base st Hst. destruct (Hm base st Hst) as [W1 E1]. unfold mbind.
  destruct (m st) as [[a| | |] st1]; [|done..]. cbn in *. destruct (Hk a base st1 W1) as [W2 E2].
  split; [done|]. by etrans.
Qed.

Lemma keeps_id {A} (m : M State A) : (forall st, snd (m st) = st) -> keeps m.
Proof. intros Hm base st Hst. rewrite Hm. by split. Qed.

Lemma keeps_command f :
  (forall c, inherited_fds_ (f c) = inherited_fds_ c) -> (forall c, redirects_ (f c) = redirects_ c) -> keeps (on_command f).
Proof.
  intros Hi Hr base [c t] [H1 H2 H3 H4 H5 H6]. unfold on_command, modify.
  assert (Hd : dups (f c) = dups c) by (unfold dups; by rewrite Hi, Hr). split.
  - split; cbn in *; by rewrite ?Hi, ?Hr, ?Hd.
  - split_and!; cbn; rewrite ?Hi, ?Hr, ?Hd; done.
Qed.

Lemma keeps_parameters args : keeps (BuildParameters args).
Proof.
  induction args as [|a args IH]; [by apply keeps_id|]. apply keeps_table_bind.
  - destruct a; try (by apply keeps_id). apply keeps_SharedFD.
  - intros x. apply keeps_table_bind; [done|]. intros y. by apply keeps_id.
Qed.

(** A descriptor that is opened beside the command and closed again. *)
Lemma wf_open base c t n e : wf base (c, t) -> t !! n = None -> wf (<[n := e]> base) (c, <[n := e]> t).
Proof.
  intros [H1 H2 H3 H4 H5 H6] Hn. split; cbn in *; [done..| |].
  - intros m Hm. destruct (H5 m Hm) as (? & ? & f & Hf). rewrite !lookup_insert_ne by congruence. eauto.
  - intros m Hm. destruct (decide (m = n)) as [->|]; [by rewrite !lookup_insert_eq|].
    rewrite !lookup_insert_ne by done. auto.
Qed.

Lemma wf_close base c t n e : base !! n = None -> wf (<[n := e]> base) (c, t) -> wf base (c, delete n t) /\ n ∉ dups c.
Proof.
  intros Hn [H1 H2 H3 H4 H5 H6]. cbn in *.
  assert (Hnot : n ∉ dups c). { intros (_ & E & _)%H5. by rewrite lookup_insert_eq in E. }
  split; [|done]. split; cbn; [done..| |].
  - intros m Hm. destruct (H5 m Hm) as (? & E & f & Hf). assert (m <> n) by congruence.
    rewrite lookup_insert_ne in E by done. rewrite lookup_delete_ne by done. eauto.
  - intros m Hm. destruct (decide (m = n)) as [->|]; [by rewrite lookup_delete_eq|].
    rewrite lookup_delete_ne, H6, lookup_insert_ne by done. done.
Qed.

Lemma keeps_redirect_parent channel parent : keeps (RedirectStdIO_parent channel parent).
Proof.
  intros base [c t] Hwf. unfold RedirectStdIO_parent.
  destruct (dupfd_cloexec (channel_fd parent) t) as [n t1] eqn:Ed.
  apply dupfd_spec in Ed as [[-> ->]|(Hn & Ht & e & He & ->)]; [by cbn|].
  rewrite (proj2 (Z.geb_le n 0)) by lia.
  assert (Hb : base !! n = None).
  { rewrite <-(wf_base _ _ Hwf); [done|]. intros (_ & _ & f & Hf)%(wf_dups _ _ Hwf). cbn in Hf. congruence. }
  pose proof (wf_open base c t n (mkEntry (file e) true) Hwf Ht) as Hopen.
  destruct (keeps_redirect channel (mkSharedFD 0 n) _ _ Hopen) as [W2 (A & B & C)].
  destruct (RedirectStdIO channel (mkSharedFD 0 n) (c, <[n := mkEntry (file e) true]> t)) as [r [c2 t2]].
  cbn in *. destruct (wf_close _ _ _ _ _ Hb W2) as [W3 Hnot]. split; [done|]. split_and!; cbn; [done..|].
  intros m Hm. destruct (C m Hm) as [Hm2 Em]. split; [done|]. assert (m <> n) by congruence.
  by rewrite lookup_delete_ne, Em, lookup_insert_ne.
Qed.

Lemma keeps_run_op `{Absl} o : keeps (run_op o).
Proof.
  destruct o; cbn [run_op]; try (by apply keeps_command).
  - apply keeps_table_bind; [apply keeps_parameters|]. intros s. by apply (keeps_command (fun c => set_command_ (command_ c ++ [s]) c)).
  - apply keeps_table_bind; [by apply keeps_id|]. intros [c t]. apply keeps_table_bind; [by apply keeps_id|]. intros _.
    apply keeps_table_bind; [apply keeps_parameters|]. intros s.
    by apply (keeps_command (fun c => set_command_ (alter (fun x => x ++ s) (length (command_ c) - 1)%nat (command_ c)) c)).
  - apply keeps_redirect.
  - apply keeps_redirect_parent.
  - intros base [c t] Hwf. unfold SetWorkingDirectory. destruct (IsOpen s); [|by split].
    by refine (keeps_command (set_working_directory_ s) _ _ base (c, t) Hwf).
Qed.

Lemma keeps_ops `{Absl} ops : keeps (for_each run_op ops).
Proof.
  induction ops as [|o ops IH]; [by apply keeps_id|]. apply keeps_table_bind; [apply keeps_run_op|done].
Qed.

Lemma wf_new t environ exe : wf t (new_command environ exe, t).
Proof.
  split; cbn; try (by constructor); try (by intros ? []%elem_of_nil).
  by intros ? ? []%elem_of_nil.
Qed.

(** ** Closing *)
Lemma close_all_lookup l t n : close_all l t !! n = if decide (n ∈ l.*2) then None else t !! n.
Proof.
  unfold close_all. revert t. induction l as [|[k m] l IH]; intros t; cbn; [done|]. rewrite IH.
  destruct (decide (n ∈ l.*2)) as [Hn|Hn]; [by rewrite decide_True by (by right)|].
  destruct (decide (n = m)) as [->|Hne]; [by rewrite lookup_delete_eq, decide_True by left|].
  rewrite lookup_delete_ne by done. rewrite decide_False; [done|]. by intros [|]%elem_of_cons.
Qed.

Lemma destroy_lookup c t n : destroy c t !! n = if decide (n ∈ dups c) then None else t !! n.
Proof.
  unfold destroy, dups. rewrite !close_all_lookup.
  destruct (decide (n ∈ (redirects_ c).*2)), (decide (n ∈ (inherited_fds_ c).*2)); case_decide as Hd; try done;
    rewrite elem_of_app in Hd; naive_solver.
Qed.

(** Whatever is done to a command, and whether or not it fails, destroying it afterwards
    gives the process back the descriptor table that it had before the command was made. *)
Theorem command_closes_what_it_opened `{Absl} (ops : list Op) (environ : list bytes) (exe : bytes) (t : Table) :
  let '(_, (c, t')) := for_each run_op ops (new_command environ exe, t) in
  destroy c t' = t.
Proof.
  destruct (keeps_ops ops t _ (wf_new t environ exe)) as [[_ _ _ _ Hd Hb] _].
  destruct (for_each run_op ops (new_command environ exe, t)) as [r [c t']]. cbn in *.
  apply map_eq. intros n. rewrite destroy_lookup. case_decide as Hn; [|auto].
  by destruct (Hd n Hn) as (_ & -> & _).
Qed.

(** ** What the program gets *)
(** The entry that the program sees for a descriptor that the command duplicated. *)
Definition kept (t : Table) (n : Z) : option Entry := (fun e => mkEntry (file e) false) <$> t !! n.

Lemma do_redirects_lookup rs t fd :
  map_sorted rs -> (forall ch n, (ch, n) ∈ rs -> ch <= 2 /\ 3 <= n /\ is_Some (t !! n)) ->
  do_redirects rs t !! fd = match map_find fd rs with Some n => kept t n | None => t !! fd end.
Proof.
  unfold map_sorted, do_redirects. revert t. induction rs as [|[ch n] rs IH]; intros t Hs Hr; [done|].
  cbn in Hs. apply StronglySorted_inv in Hs as [Hs Hlt].
  destruct (Hr ch n) as (Hch & Hn & [e He]); [left|].
  assert (E : dup2 n ch t = <[ch := mkEntry (file e) false]> t).
  { unfold dup2. rewrite He. by rewrite (proj2 (Z.eqb_neq n ch)) by lia. }
  cbn [foldl map_find]. rewrite E. rewrite IH; [|done|].
  - destruct (Z.eqb_spec ch fd) as [->|Hne].
    + assert (map_find fd rs = None) as ->.
      { destruct (map_find fd rs) as [m|] eqn:Em; [|done]. apply map_find_elem, (list_elem_of_fmap_2 fst) in Em.
        rewrite Forall_forall in Hlt. apply Hlt in Em. cbn in Em. lia. }
      unfold kept. by rewrite lookup_insert_eq, He.
    + destruct (map_find fd rs) as [m|] eqn:Em.
      * apply map_find_elem in Em. destruct (Hr fd m) as (_ & Hm & _); [by right|]. unfold kept.
        by rewrite lookup_insert_ne by lia.
      * by rewrite lookup_insert_ne.
  - intros ch' n' Hin. destruct (Hr ch' n') as (H1 & H2 & H3); [by right|]. by rewrite lookup_insert_ne by lia.
Qed.

Lemma clear_cloexec_lookup l t :
  (forall n, n ∈ l.*2 -> is_Some (t !! n)) -> exists t', clear_cloexec l t = Some t' /\
  forall fd, t' !! fd = if decide (fd ∈ l.*2) then kept t fd else t !! fd.
Proof.
  revert t. induction l as [|[id n] l IH]; intros t Hl; cbn; [by exists t|].
  destruct (Hl n) as [e He]; [left|]. unfold setfd_0. rewrite He.
  destruct (IH (<[n := mkEntry (file e) false]> t)) as (t' & -> & Ht').
  { intros m Hm. destruct (decide (m = n)) as [->|]; [rewrite lookup_insert_eq; eauto|].
    rewrite lookup_insert_ne by done. apply Hl. by right. }
  exists t'. split; [done|]. intros fd. rewrite Ht'. unfold kept.
  destruct (decide (fd = n)) as [->|Hne].
  - rewrite lookup_insert_eq, He. rewrite (decide_True (P := n ∈ n :: _)) by left. by case_decide.
  - rewrite !lookup_insert_ne by done. destruct (decide (fd ∈ l.*2)); case_decide as Hd; try done;
      rewrite elem_of_cons in Hd; naive_solver.
Qed.

(** The table after exec, on the command's table [t]. *)
Definition program_fd (c : Command) (t : Table) (fd : Z) : option Entry :=
  match map_find fd (redirects_ c) with
  | Some n => kept t n
  | None => if decide (fd ∈ (inherited_fds_ c).*2) then kept t fd
            else match t !! fd with Some e => if cloexec e then None else Some e | None => None end
  end.

Lemma child_table base c t : wf base (c, t) -> exists t',
  clear_cloexec (inherited_fds_ c) (do_redirects (redirects_ c) t) = Some t' /\
  (forall fd, exec_table t' !! fd = program_fd c t fd) /\
  (forall fd, 3 <= fd -> is_Some (t' !! fd) <-> is_Some (t !! fd)).
Proof.
  intros [Hi Hr Hc Hnd Hd Hb]. cbn in *.
  assert (Hred : forall fd, do_redirects (redirects_ c) t !! fd =
    match map_find fd (redirects_ c) with Some n => kept t n | None => t !! fd end).
  { intros fd. apply do_redirects_lookup; [done|]. intros ch n Hin. split; [by apply Hc in Hin; lia|].
    destruct (Hd n) as (H1 & _ & f & Hf); [|eauto]. apply elem_of_app. right.
    by apply (list_elem_of_fmap_2 snd) in Hin. }
  assert (Hlow : forall fd, 3 <= fd -> map_find fd (redirects_ c) = None).
  { intros fd Hfd. destruct (map_find fd (redirects_ c)) as [n|] eqn:E; [|done].
    apply map_find_elem, Hc in E. lia. }
  assert (Hinh : forall n, n ∈ (inherited_fds_ c).*2 -> 3 <= n /\ is_Some (t !! n)).
  { intros n Hn. destruct (Hd n) as (H1 & _ & f & Hf); [apply elem_of_app; by left|eauto]. }
  destruct (clear_cloexec_lookup (inherited_fds_ c) (do_redirects (redirects_ c) t)) as (t' & E & Ht').
  { intros n Hn. destruct (Hinh n Hn). rewrite Hred, Hlow by done. done. }
  exists t'. split_and!; [done| |].
  - intros fd. unfold exec_table. rewrite map_lookup_filter. rewrite Ht'. unfold program_fd, kept.
    rewrite Hred. case_decide as Hn.
    + destruct (Hinh fd Hn) as [H3 [e He]]. rewrite Hlow by done. rewrite He. cbn. by case_guard.
    + destruct (map_find fd (redirects_ c)) as [n|] eqn:Em.
      * unfold kept. destruct (t !! n) as [e|]; [|done]. cbn. by case_guard.
      * destruct (t !! fd) as [e|]; [|done]. cbn. destruct (cloexec e) eqn:Ece; case_guard; done.
  - intros fd Hfd. rewrite Ht'. unfold kept. rewrite Hred, Hlow by done. case_decide; [|done].
    by rewrite fmap_is_Some.
Qed.

Definition calm : Failures := mkFailures None None false.

(** A command that was built with success starts; its program gets [program_fd]. *)
Lemma start_execs base c t o dir pid w w' :
  wf base (c, t) -> IsOpen (working_directory_ c) = false ->
  for_each id (prerequisites_ c) w = (Ok tt, w') -> 0 < pid ->
  exists path p, Start calm c o (mkProcess t dir false None) pid w =
    (Ok (pid, Some (ChildExec path (full_command c o) (env_ c) p)), w') /\
  forall fd, table p !! fd = program_fd c t fd.
Proof.
  intros Hwf Hdir Hpre Hpid. destruct (child_table base c t Hwf) as (t' & E & Ht' & _).
  assert (Hval : validate_redirects (redirects_ c) (inherited_fds_ c) = true).
  { apply forallb_forall. intros [id n] Hin%list_elem_of_In. apply negb_true_iff, bool_decide_eq_false.
    cbn. intros ([ch m] & -> & Hch)%list_elem_of_fmap. pose proof (wf_channels _ _ Hwf ch m Hch). cbn in *.
    destruct (wf_dups _ _ Hwf ch) as [H3 _]; [|lia]. apply elem_of_app. left.
    by apply (list_elem_of_fmap_2 snd) in Hin. }
  unfold Start. rewrite Hval. cbn [negb]. unfold attempt. rewrite Hpre. rewrite (proj2 (Z.gtb_lt pid 0)) by done.
  unfold child. cbn [table calm setpgid_error exec_fails]. rewrite Hdir.
  replace (if in_group_ o then None else None : option Z) with (None : option Z) by (by destruct (in_group_ o)).
  rewrite E. eexists _, _. split; [done|]. apply Ht'.
Qed.


Lemma find_inherited (c : Command) id n : map_find id (inherited_fds_ c) = Some n -> n ∈ (inherited_fds_ c).*2.
Proof. intros Hf%map_find_elem. by apply (list_elem_of_fmap_2 snd) in Hf. Qed.

(** A descriptor that is part of a parameter: the number printed in the argument is, in
    the program, a descriptor of the file that was passed, whatever is added to the
    command afterwards. *)
Theorem parameter_descriptor `{Absl} ops1 ops2 environ exe t c1 t1 text s e c2 t2 o dir pid w w' :
  for_each run_op ops1 (new_command environ exe, t) = (Ok tt, (c1, t1)) ->
  map_find (identity s) (inherited_fds_ c1) = None -> t1 !! fd_ s = Some e ->
  for_each run_op (OpParameter [ArgText text; ArgFd s] :: ops2) (c1, t1) = (Ok tt, (c2, t2)) ->
  IsOpen (working_directory_ c2) = false ->
  for_each id (prerequisites_ c2) w = (Ok tt, w') -> 0 < pid ->
  exists n t1' path argv envp p,
    AddParameter [ArgText text; ArgFd s] (c1, t1) =
      (Ok tt, (set_command_ (command_ c1 ++ [text ++ to_string n])
                 (set_inherited_fds_ (map_set (identity s) n (inherited_fds_ c1)) c1), t1')) /\
    Start calm c2 o (mkProcess t2 dir false None) pid w = (Ok (pid, Some (ChildExec path argv envp p)), w') /\
    table p !! n = Some (mkEntry (file e) false).
Proof.
  intros Hops Hnew He Hops2 Hdir Hpre Hpid.
  destruct (keeps_ops ops1 t _ (wf_new t environ exe)) as [Hwf1 _]. rewrite Hops in Hwf1. cbn in Hwf1.
  destruct (keeps_ops (OpParameter [ArgText text; ArgFd s] :: ops2) t _ Hwf1) as [Hwf2 _].
  rewrite Hops2 in Hwf2. cbn in Hwf2.
  destruct (dupfd_cloexec (fd_ s) t1) as [n t1'] eqn:Ed.
  assert (Hadd : AddParameter [ArgText text; ArgFd s] (c1, t1) =
    if n >=? 0 then (Ok tt, (set_command_ (command_ c1 ++ [text ++ to_string n])
                 (set_inherited_fds_ (map_set (identity s) n (inherited_fds_ c1)) c1), t1'))
    else (Fatal "Could not acquire a new file descriptor", (c1, t1'))).
  { unfold AddParameter. cbn. unfold mbind, mret. cbn. rewrite Hnew, Ed. destruct (n >=? 0); [|done]. cbn.
    by rewrite app_nil_r. }
  apply dupfd_spec in Ed as [[-> ->]|(Hn & Ht1 & e' & He' & ->)].
  { cbn [for_each run_op] in Hops2. unfold mbind in Hops2. rewrite Hadd in Hops2. done. }
  rewrite (proj2 (Z.geb_le n 0)) in Hadd by lia. simplify_eq.
  cbn [for_each run_op] in Hops2. unfold mbind in Hops2. rewrite Hadd in Hops2.
  destruct (start_execs t c2 t2 o dir pid w w' Hwf2 Hdir Hpre Hpid) as (path & p & E & Ht).
  eexists n, _, path, _, _, p. split_and!; [exact Hadd|exact E|]. rewrite Ht.
  destruct (keeps_run_op (OpParameter [ArgText text; ArgFd s]) t _ Hwf1) as [Hwfm _]. cbn [run_op] in Hwfm.
  rewrite Hadd in Hwfm. cbn [snd] in Hwfm.
  destruct (keeps_ops ops2 t _ Hwfm) as [_ (A & _ & C)]. rewrite Hops2 in A, C. cbn in A, C.
  assert (Hf : map_find (identity s) (map_set (identity s) n (inherited_fds_ c1)) = Some n)
    by (by rewrite map_find_set, Z.eqb_refl).
  unfold program_fd. assert (map_find n (redirects_ c2) = None) as ->.
  { destruct (map_find n (redirects_ c2)) as [m|] eqn:Em; [|done].
    apply map_find_elem, (wf_channels _ _ Hwf2) in Em. lia. }
  rewrite decide_True by (apply (find_inherited _ (identity s)); auto). unfold kept.
  destruct (C n) as [_ ->]; [|by rewrite lookup_insert_eq]. unfold dups. cbn. apply elem_of_app. left.
  apply map_find_elem in Hf. by apply (list_elem_of_fmap_2 snd) in Hf.
Qed.

(** ** The environment of the program *)
(** getenv(3): the first entry of the form key=value. *)
Fixpoint getenv (key : bytes) (envp : list bytes) : option bytes :=
  match envp with
  | [] => None
  | e :: envp => if starts_with (key ++ [eq_sign]) e then Some (zdrop (zlen key + 1) e) else getenv key envp
  end.

Lemma getenv_app key l k : getenv key (l ++ k) = match getenv key l with Some v => Some v | None => getenv key k end.
Proof. induction l as [|e l IH]; [done|]. cbn. by destruct (starts_with (key ++ [eq_sign]) e). Qed.

Lemma starts_with_key key k v :
  eq_sign ∉ key -> eq_sign ∉ k -> starts_with (key ++ [eq_sign]) (k ++ eq_sign :: v) = bool_decide (key = k).
Proof.
  intros Hkey Hk. destruct (decide (key = k)) as [->|Hne].
  - rewrite bool_decide_eq_true_2 by done. apply starts_with_spec. exists v. by rewrite <-app_assoc.
  - rewrite bool_decide_eq_false_2 by done. apply not_true_is_false. intros [r Hr]%starts_with_spec.
    rewrite <-app_assoc in Hr. cbn in Hr. apply Hne.
    pose proof (find_first_of_app eq_sign k v Hk) as E1. rewrite Hr in E1.
    rewrite (find_first_of_app eq_sign key r Hkey) in E1. injection E1 as E1.
    apply (f_equal (ztake (zlen key))) in Hr. rewrite (ztake_exact (zlen key) key) in Hr by done.
    rewrite ztake_exact in Hr by done. done.
Qed.

Lemma getenv_single key k v :
  eq_sign ∉ key -> eq_sign ∉ k -> getenv key [k ++ eq_sign :: v] = if bool_decide (key = k) then Some v else None.
Proof.
  intros Hkey Hk. cbn [getenv]. rewrite starts_with_key by done. case_bool_decide as Hd; [|done]. subst k.
  f_equal. replace (key ++ eq_sign :: v) with ((key ++ [eq_sign]) ++ v) by (by rewrite <-app_assoc).
  by apply zdrop_exact; zlen_lia.
Qed.

Lemma getenv_unset `{Absl} key k c :
  eq_sign ∉ key -> eq_sign ∉ k ->
  getenv key (env_ (UnsetFromEnvironment k c)) = if bool_decide (key = k) then None else getenv key (env_ c).
Proof.
  intros Hkey Hk. cbn. induction (env_ c) as [|e l IH]; [by case_bool_decide|].
  destruct (StartsWith e (k ++ [eq_sign])) eqn:E.
  - rewrite filter_cons_False by congruence. rewrite IH. case_bool_decide as Hd; [done|]. cbn.
    rewrite StartsWith_spec, starts_with_spec in E. destruct E as [v ->]. rewrite <-app_assoc. cbn [app].
    rewrite starts_with_key by done. by rewrite bool_decide_eq_false_2.
  - rewrite filter_cons_True by done. cbn [getenv]. rewrite IH. rewrite StartsWith_spec in E.
    case_bool_decide as Hd; [subst key; by rewrite E|done].
Qed.

Lemma getenv_add key k v c :
  eq_sign ∉ key -> eq_sign ∉ k -> getenv key (env_ (AddEnvironmentVariable k v c)) =
  match getenv key (env_ c) with Some x => Some x | None => if bool_decide (key = k) then Some v else None end.
Proof. intros Hkey Hk. cbn. rewrite getenv_app, getenv_single by done. done. Qed.

Lemma construct_envs `{Absl} envs c key :
  eq_sign ∉ key -> Forall (fun k => eq_sign ∉ k) envs.*1 -> NoDup envs.*1 ->
  getenv key (env_ (foldl (fun c it => AddEnvironmentVariable it.1 it.2 (UnsetFromEnvironment it.1 c)) c envs)) =
  match (list_to_map envs : bytes_map bytes) !! key with Some v => Some v | None => getenv key (env_ c) end.
Proof.
  intros Hkey. revert c. induction envs as [|[k v] envs IH]; intros c Hk Hnd; [done|].
  cbn in Hk, Hnd. apply Forall_cons in Hk as [Hk Hks]. apply NoDup_cons in Hnd as [Hnot Hnd].
  cbn [foldl fst snd list_to_map]. rewrite IH by done. cbn [list_to_map foldr].
  rewrite getenv_add, getenv_unset by done.
  destruct (decide (key = k)) as [->|Hne].
  - rewrite (not_elem_of_list_to_map_1 envs) by done. rewrite !bool_decide_eq_true_2 by done.
    cbn. by rewrite lookup_insert_eq.
  - rewrite !bool_decide_eq_false_2 by done. cbn. rewrite lookup_insert_ne by done.
    destruct (list_to_map envs !! key); [done|]. by destruct (getenv key (env_ c)).
Qed.

Lemma envp_entry `{AbslSplitOnce} e key :
  eq_sign ∉ key ->
  (exists k v, StrSplitOnce e eq_sign = [k; v] /\ e = k ++ eq_sign :: v /\ (eq_sign ∉ k) /\
     getenv key [e] = if bool_decide (key = k) then Some v else None) \/
  ((exists x, StrSplitOnce e eq_sign = [x]) /\ getenv key [e] = None).
Proof.
  intros Hkey. rewrite StrSplitOnce_spec. pose proof (find_first_of_spec eq_sign e) as Hf.
  destruct (find_first_of eq_sign e) as [i|].
  - destruct Hf as (a & b & -> & Ha & ->). left. exists a, b. split_and!; [|done|done|by apply getenv_single].
    rewrite ztake_exact by done. f_equal. replace (a ++ eq_sign :: b) with ((a ++ [eq_sign]) ++ b) by (by rewrite <-app_assoc).
    f_equal. apply zdrop_exact. zlen_lia.
  - right. split; [eauto|]. cbn. case_match eqn:E; [|done]. exfalso. apply Hf.
    apply starts_with_spec in E as [v ->]. rewrite <-app_assoc. apply elem_of_app. right. left.
Qed.

Lemma EnvpToMap_acc `{AbslSplitOnce} envp (m : bytes_map bytes) key :
  eq_sign ∉ key ->
  foldl (fun env_map e =>
    match StrSplitOnce e eq_sign with
    | [key; value] => match env_map !! key with None => <[key := value]> env_map | Some _ => env_map end
    | _ => env_map
    end) m envp !! key = match m !! key with Some v => Some v | None => getenv key envp end.
Proof.
  intros Hkey. revert m. induction envp as [|e envp IH]; intros m; [cbn; by destruct (m !! key)|].
  cbn [foldl]. rewrite IH. change (e :: envp) with ([e] ++ envp). rewrite getenv_app.
  destruct (envp_entry e key Hkey) as [(k & v & -> & -> & Hk & ->)|[[x ->] ->]]; [|done].
  destruct (m !! k) as [w|] eqn:Em.
  - destruct (m !! key) eqn:Ek; [done|]. rewrite bool_decide_eq_false_2 by congruence. done.
  - case_bool_decide as Hd; [subst k; by rewrite lookup_insert_eq, Em|]. rewrite lookup_insert_ne by done.
    done.
Qed.

Lemma EnvpToMap_getenv `{AbslSplitOnce} envp key : eq_sign ∉ key -> EnvpToMap envp !! key = getenv key envp.
Proof. intros Hkey. unfold EnvpToMap. rewrite EnvpToMap_acc by done. done. Qed.

(** The environment of the commands that cvd runs: a variable of the request has the value
    of the request, another the value it has in cvd's own environment, and the path of the
    configuration is set exactly when neither gives one. *)
Theorem constructed_environment `{Absl, AbslSplitOnce} args envs config_path working_dir directory c c' key :
  ConstructCommand args envs config_path working_dir directory c = Ok c' ->
  eq_sign ∉ key -> Forall (fun k => eq_sign ∉ k) envs.*1 -> NoDup envs.*1 ->
  EnvpToMap (env_ c') !! key =
    match (list_to_map envs : bytes_map bytes) !! key, getenv key (env_ c) with
    | Some v, _ => Some v
    | None, Some v => Some v
    | None, None => if bool_decide (key = kCuttlefishConfigEnvVarName) then config_path else None
    end.
Proof.
  intros Hc Hkey Hks Hnd. rewrite EnvpToMap_getenv by done.
  set (c0 := set_command_ (command_ c ++ args) c).
  set (c1 := if bool_decide (kCuttlefishConfigEnvVarName ∈ envs.*1) then c0
    else match config_path with Some p => AddEnvironmentVariable kCuttlefishConfigEnvVarName p c0 | None => c0 end).
  assert (E : env_ c' = env_ (foldl (fun c it => AddEnvironmentVariable it.1 it.2 (UnsetFromEnvironment it.1 c)) c1 envs)).
  { unfold ConstructCommand in Hc. fold c0 in Hc. fold c1 in Hc.
    case_bool_decide; [by simplify_eq|]. apply rbind_ok in Hc as (fd & _ & Hc). by destruct (IsOpen fd); simplify_eq. }
  rewrite E, construct_envs by done.
  destruct (list_to_map envs !! key) as [v|] eqn:El; [done|].
  assert (Hcfg : eq_sign ∉ kCuttlefishConfigEnvVarName) by (refine (bool_decide_unpack _ _); vm_compute; exact I).
  unfold c1. case_bool_decide as Hin; [|destruct config_path as [p|]].
  - cbn. case_bool_decide as Hd; [|by destruct (getenv key (env_ c))]. subst key.
    apply not_elem_of_list_to_map in El. by destruct El.
  - rewrite getenv_add by done. by case_bool_decide.
  - cbn. destruct (getenv key (env_ c)); [done|]. by case_bool_decide.
Qed.
End kernel.

(** ** Examples *)
#[local] Instance ref_split_once : AbslSplitOnce := {
  StrSplitOnce s c := match find_first_of c s with Some i => [ztake i s; zdrop (i + 1) s] | None => [s] end;
  StrSplitOnce_spec s c := eq_refl
}.
(** Standard channels, and two files, one of which is closed by exec. *)
Definition example_table : Table :=
  list_to_map [(0, mkEntry 100 false); (1, mkEntry 101 false); (2, mkEntry 102 false);
               (3, mkEntry 103 true); (4, mkEntry 104 false)].
Definition example_command : @Command unit := new_command [str "HOME=/root"] (str "crosvm").
Definition example_ops : list (@Op unit _) :=
  [OpParameter [ArgText (str "--log="); ArgFd (mkSharedFD 7 3)];
   OpRedirect kStdOut (mkSharedFD 8 4); OpRedirectParent kStdErr kStdOut;
   OpParameter [ArgText (str "--again="); ArgFd (mkSharedFD 7 3); ArgBool true]].
Definition built : @Command unit * Table := snd (for_each (run_op 1024) example_ops (example_command, example_table)).

Example example_built :
  command_ built.1 = [str "crosvm"; str "--log=5"; str "--again=5true"] /\
  inherited_fds_ built.1 = [(7, 5)] /\ redirects_ built.1 = [(1, 6); (2, 8)].
Proof. vm_compute. done. Qed.


Lemma parameter_descriptor_witness : exists n t1' path argv envp p,
  AddParameter 1024 [ArgText (str "--log="); ArgFd (mkSharedFD 7 3)] (example_command, example_table) =
    (Ok tt, (set_command_ (command_ example_command ++ [str "--log=" ++ to_string n])
               (set_inherited_fds_ (map_set 7 n []) example_command), t1')) /\
  Start calm built.1 new_options (mkProcess built.2 None false None) 42 tt =
    (Ok (42, Some (ChildExec path argv envp p)), tt) /\
  table p !! n = Some (mkEntry 103 false).
Proof.
  refine (parameter_descriptor 1024 [] (tail example_ops) [str "HOME=/root"] (str "crosvm") example_table
    example_command example_table (str "--log=") (mkSharedFD 7 3) (mkEntry 103 true) built.1 built.2
    new_options None 42 tt tt _ _ _ _ _ _ _); [vm_compute; reflexivity..|lia].
Defined.

Lemma constructed_environment_witness :
  exists c', ConstructCommand [str "-v"] [(str "HOME", str "/tmp/cf")] (Some (str "/cfg")) [] (Err "not open") example_command = Ok c' /\
  EnvpToMap (env_ c') !! str "HOME" = Some (str "/tmp/cf").
Proof.
  eexists. split; [reflexivity|].
  rewrite (constructed_environment [str "-v"] [(str "HOME", str "/tmp/cf")] (Some (str "/cfg")) [] (Err "not open") example_command);
    [vm_compute; reflexivity|reflexivity|..].
  - refine (bool_decide_unpack _ _). vm_compute. exact I.
  - refine (bool_decide_unpack _ _). vm_compute. exact I.
  - refine (bool_decide_unpack _ _). vm_compute. exact I.
Defined.
End Commands.
