(* ===== verification/Substitute.v ===== *)
(** * Host substitutions of a fetch (host/commands/cvd/fetch/substitute.cc, with
    EnsureDirectoryExists and WalkDirectory of common/libs/utils/files.cpp)

    Files of a downloaded host package are replaced by links to those installed on the
    host.  [Fs] maps paths to nodes: paths are written in one way and no directory on the
    way is a link, so that different strings are different entries.  Every change is
    recorded in [history], to speak about what other processes can see. *)
From S2P Require Import Prelude CppString.

Module Substitute.
Import CppString.

Inductive Node := File (contents : bytes) | Dir | Link (target : bytes).
#[global] Instance Node_eq_dec : EqDecision Node.
Proof. solve_decision. Defined.
Abbreviation Fs := (bytes_map Node).
Record World := mkWorld { fs : Fs; history : list Fs }.
Definition set_fs (f : Fs) : M World unit := modify (fun w => mkWorld f (history w ++ [f])).

Definition slash : ascii := "/".
(** libbase's Dirname, which is dirname(3). *)
Fixpoint drop_slashes (rev_path : bytes) : bytes :=
  match rev_path with
  | c :: l => if decide (c = slash) then drop_slashes l else rev_path
  | [] => []
  end.
Fixpoint drop_name (rev_path : bytes) : bytes :=
  match rev_path with
  | c :: l => if decide (c = slash) then rev_path else drop_name l
  | [] => []
  end.
Definition Dirname (path : bytes) : bytes :=
  match drop_slashes (rev path) with
  | [] => if decide (path = []) then str "." else str "/"
  | name => match drop_name name with
            | [] => str "."
            | parent => match drop_slashes parent with [] => str "/" | l => rev l end
            end
  end.

(** ** System calls *)
Inductive Call := CMkdir (path : bytes) | CChmod (path : bytes) | CSymlink (path : bytes) | CRename (path : bytes) | CUnlink (path : bytes).
Inductive Errno := EEXIST | EOTHER.

Section substitute.
(** Which calls fail for reasons that the paths do not tell. *)
Context (fails : Call -> bool).

(** stat(2) follows links, up to the number of links the kernel does. *)
Fixpoint resolve (links : nat) (f : Fs) (path : bytes) : option Node :=
  match f !! path with
  | Some (Link t) =>
      match links with
      | O => None
      | S links => resolve links f (if starts_with [slash] t then t else Dirname path ++ slash :: t)
      end
  | n => n
  end.
Definition MAXSYMLINKS : nat := 40.
Definition stat (f : Fs) (path : bytes) : option Node := resolve MAXSYMLINKS f path.

Definition FileExists (f : Fs) (path : bytes) : bool := bool_decide (is_Some (stat f path)).
Definition FileExists_nofollow (f : Fs) (path : bytes) : bool := bool_decide (is_Some (f !! path)).
Definition DirectoryExists (f : Fs) (path : bytes) : bool := bool_decide (stat f path = Some Dir).
Definition ReadLink (f : Fs) (path : bytes) : option bytes := match f !! path with Some (Link t) => Some t | _ => None end.

(** A new entry, unless the path exists or its directory does not. *)
Definition create (call : Call) (path : bytes) (n : Node) : M World (option Errno) := fun w =>
  if fails call then (Ok (Some EOTHER), w)
  else if FileExists_nofollow (fs w) path then (Ok (Some EEXIST), w)
  else if negb (DirectoryExists (fs w) (Dirname path)) then (Ok (Some EOTHER), w)
  else let (_, w) := set_fs (<[path := n]> (fs w)) w in (Ok None, w).
Definition mkdir (path : bytes) : M World (option Errno) := create (CMkdir path) path Dir.
Definition symlink (target path : bytes) : M World (option Errno) := create (CSymlink path) path (Link target).
Definition unlink (path : bytes) : M World bool := fun w =>
  match fs w !! path with
  | Some (File _) | Some (Link _) =>
      if fails (CUnlink path) then (Ok false, w) else let (_, w) := set_fs (delete path (fs w)) w in (Ok true, w)
  | _ => (Ok false, w)
  end.
(** rename(2) of a link: it replaces what is there, but not a directory. *)
Definition rename (from to : bytes) : M World bool := fun w =>
  match fs w !! from with
  | Some n =>
      if fails (CRename to) || bool_decide (fs w !! to = Some Dir) then (Ok false, w)
      else let (_, w) := set_fs (<[to := n]> (delete from (fs w))) w in (Ok true, w)
  | None => (Ok false, w)
  end.

(** ** EnsureDirectoryExists, without a group *)
Context (InSandbox : bool).
Fixpoint EnsureDirectoryExists (fuel : nat) (path : bytes) : M World unit :=
  match fuel with
  | O => lift Fuel
  | S fuel =>
    let! w := get in
    if DirectoryExists (fs w) path then mret tt else
    let! _ := (if FileExists_nofollow (fs w) path && negb (FileExists (fs w) path) then
                 let! ok := unlink path in lift (expect ok "Can't remove broken link")
               else mret tt) in
    let parent_dir := Dirname path in
    let! _ := (if zlen parent_dir >? 1 then EnsureDirectoryExists fuel parent_dir else mret tt) in
    let! e := mkdir path in
    match e with
    | Some EOTHER => lift (Err "Failed to create directory")
    | _ => if InSandbox then mret tt else lift (expect (negb (fails (CChmod path))) "Failed to set permission")
    end
  end.

(** ** Substitute *)
(** [rd] are the values of the random device. *)
Context (pid : Z) (rd : nat -> Z).
Definition tmp_name (full_link_name : bytes) (attempt : nat) : bytes :=
  full_link_name ++ str ".tmp_" ++ to_string pid ++ str "_" ++ to_string (rd attempt).
Definition kMaxRetries : nat := 10.

(** The loop over [attempt]; [attempts] are those left. *)
Fixpoint make_tmp (target full_link_name : bytes) (attempts : nat) : M World bytes :=
  match attempts with
  | O => lift (Fatal "unreachable")
  | S attempts =>
      let tmp_link_name := tmp_name full_link_name (kMaxRetries - S attempts)%nat in
      let! symlink_res := symlink target tmp_link_name in
      match symlink_res with
      | None => mret tmp_link_name
      | Some EEXIST => match attempts with O => lift (Err "symlink failed") | _ => make_tmp target full_link_name attempts end
      | Some EOTHER => lift (Err "symlink failed")
      end
  end.

Definition Substitute (target full_link_name : bytes) : M World unit :=
  let! w := get in
  if negb (FileExists (fs w) target) then mret tt else
  if bool_decide (ReadLink (fs w) full_link_name = Some target) then mret tt else
  let! _ := EnsureDirectoryExists (S (length full_link_name)) (Dirname full_link_name) in
  let! tmp_link_name := make_tmp target full_link_name kMaxRetries in
  let! ok := rename tmp_link_name full_link_name in
  if ok : bool then mret tt
  else let! _ := unlink tmp_link_name in lift (Err "Failed to rename symlink").

(** ** The three ways to choose what is substituted *)
Context (executable_path : bytes).
Definition ends_with (s suffix : bytes) : bool := starts_with (rev suffix) (rev s).
Definition GetCuttlefishCommonDir : result bytes :=
  if ends_with executable_path (str "cuttlefish-common/bin/cvd") then
    Ok (ztake (zlen executable_path - zlen (str "/bin/cvd")) executable_path)
  else Err "Can't perform substitutions when cvd is not under cuttlefish-common/bin".

(** readdir(3): the names below a directory. *)
Context (DirectoryContents : Fs -> bytes -> result (list bytes)).
Fixpoint WalkDirectory (depth : nat) (callback : bytes -> M World unit) (dir : bytes) : M World unit :=
  match depth with
  | O => lift Fuel
  | S depth =>
      let! w := get in
      let! names := lift (DirectoryContents (fs w) dir) in
      for_each (fun filename =>
        let file_path := dir ++ slash :: filename in
        let! _ := callback file_path in
        let! w := get in
        if DirectoryExists (fs w) file_path then WalkDirectory depth callback file_path else mret tt) names
  end.

Definition make_substitution (bin_dir_parent target_dir path : bytes) : M World unit :=
  let! w := get in
  if DirectoryExists (fs w) path then mret tt else
  if starts_with bin_dir_parent path then Substitute path (target_dir ++ zdrop (zlen bin_dir_parent) path)
  else lift (Err "Unexpected prefix").
(** The report of what was not substituted; its failure is only logged. *)
Definition detect_not_substituted (path : bytes) : M World unit :=
  let! w := get in lift (expect (FileExists_nofollow (fs w) path) "lstat").

Definition SubstituteWithFlag (depth : nat) (target_dir : bytes) (host_substitutions : list bytes) : M World unit :=
  if bool_decide (host_substitutions = []) then mret tt else
  let! bin_dir_parent := lift GetCuttlefishCommonDir in
  if bool_decide (host_substitutions = [str "all"]) then
    let! _ := WalkDirectory depth (make_substitution bin_dir_parent target_dir) bin_dir_parent in
    let! _ := attempt (WalkDirectory depth detect_not_substituted target_dir) in mret tt
  else for_each (fun substitution =>
         Substitute (bin_dir_parent ++ slash :: substitution) (target_dir ++ slash :: substitution)) host_substitutions.

(** The messages of host_pkg_migration.proto. *)
Record Symlink := mkSymlink { target : bytes; link_name : bytes }.
Fixpoint contains (keyword s : bytes) : bool :=
  starts_with keyword s || match s with [] => false | _ :: s => contains keyword s end.
Definition kRunCvdKeyword : bytes := str "bin/run_cvd".
Definition kSensorsSimulatorKeyword : bytes := str "bin/sensors_simulator".
Definition SubstituteCheckTargetExists (config : list Symlink) (target_keyword : bytes) : bool :=
  existsb (fun s => contains target_keyword (target s)) config.

(** TextFormat::ParseFromString, and what reading a file gives. *)
Context (ParseFromString : bytes -> option (list Symlink)).
Definition ReadFileContents (f : Fs) (path : bytes) : result bytes :=
  match stat f path with Some (File c) => Ok c | _ => Err "failed to read" end.
Definition substitute_link (common_dir target_dir : bytes) (s : Symlink) : M World unit :=
  Substitute (common_dir ++ slash :: link_name s) (target_dir ++ slash :: link_name s).
Definition SubstituteWithMarker (target_dir marker_file : bytes) : M World unit :=
  let! w := get in
  let! content := lift (ReadFileContents (fs w) marker_file) in
  match ParseFromString content with
  | None => lift (Err "failed parsing debian_substitution_marker file")
  | Some config =>
      let run_cvd_substituted := SubstituteCheckTargetExists config kRunCvdKeyword in
      let! common_dir := lift GetCuttlefishCommonDir in
      for_each (fun s =>
        if negb run_cvd_substituted && contains kSensorsSimulatorKeyword (target s) then mret tt
        else substitute_link common_dir target_dir s) config
  end.

(** [local_marker_file] is the environment's LOCAL_DEBIAN_SUBSTITUTION_MARKER_FILE. *)
Definition HostPackageSubstitution (depth : nat) (target_dir : bytes) (host_substitutions : list bytes)
    (local_marker_file : option bytes) : M World unit :=
  let! common_dir := lift GetCuttlefishCommonDir in
  let! _ := Substitute (common_dir ++ str "/bin/cvdalloc") (target_dir ++ str "/bin/cvdalloc") in
  if negb (bool_decide (host_substitutions = [])) then SubstituteWithFlag depth target_dir host_substitutions else
  let! w := get in
  match local_marker_file with
  | Some marker_file =>
      let! _ := lift (expect (FileExists (fs w) marker_file) "local debian substitution marker file does not exist") in
      SubstituteWithMarker target_dir marker_file
  | None =>
      if FileExists (fs w) (target_dir ++ str "/etc/debian_substitution_marker")
      then SubstituteWithFlag depth target_dir [str "all"]
      else mret tt
  end.

(** ** Paths *)
Lemma drop_slashes_length l : (length (drop_slashes l) <= length l)%nat.
Proof. induction l as [|c l IH]; cbn; [done|]. case_decide; cbn; lia. Qed.
Lemma drop_name_length l : (length (drop_name l) <= length l)%nat.
Proof. induction l as [|c l IH]; cbn; [done|]. case_decide; cbn; lia. Qed.
Lemma drop_name_strict c l : c <> slash -> (length (drop_name (c :: l)) <= length l)%nat.
Proof. intros Hc. cbn. rewrite decide_False by done. apply drop_name_length. Qed.
Lemma drop_slashes_head l c k : drop_slashes l = c :: k -> c <> slash.
Proof. induction l as [|x l IH]; cbn; [done|]. case_decide; [done|]. by intros [= <- _]. Qed.

(** The parent of a path is shorter, unless it is "." or "/". *)
Lemma Dirname_length path : Dirname path = str "." \/ Dirname path = str "/" \/ (length (Dirname path) < length path)%nat.
Proof.
  unfold Dirname. pose proof (drop_slashes_length (rev path)) as H1. rewrite length_rev in H1.
  destruct (drop_slashes (rev path)) as [|c k] eqn:E; [case_decide; auto|].
  pose proof (drop_name_strict c k (drop_slashes_head _ _ _ E)) as H2.
  destruct (drop_name (c :: k)) as [|c' k'] eqn:E2; [by left|].
  pose proof (drop_slashes_length (c' :: k')) as H3. destruct (drop_slashes (c' :: k')) as [|c'' k'']; [by right; left|].
  right. right. rewrite length_rev. cbn in *. lia.
Qed.

(** The paths that EnsureDirectoryExists looks at. *)
Fixpoint ancestors (fuel : nat) (path : bytes) : list bytes :=
  match fuel with O => [] | S fuel => path :: ancestors fuel (Dirname path) end.

Lemma ancestors_length fuel path q : q ∈ ancestors fuel path -> (length q <= Nat.max 1 (length path))%nat.
Proof.
  revert path. induction fuel as [|fuel IH]; intros path; cbn; [by intros ?%elem_of_nil|].
  intros [->|Hq]%elem_of_cons; [lia|]. apply IH in Hq.
  destruct (Dirname_length path) as [E|[E|E]]; [rewrite E in Hq; cbn in Hq; lia..|lia].
Qed.

(** ** What each step can change *)
(** Every state that [m] passes through satisfies [P], if the first one does. *)
Definition always (P : Fs -> Prop) {A} (m : M World A) : Prop := forall w, P (fs w) ->
  exists l, history (snd (m w)) = history w ++ l /\ Forall P l /\ P (fs (snd (m w))).

Lemma always_refl P {A} (m : M World A) : (forall w, snd (m w) = w) -> always P m.
Proof. intros Hm w HP. exists []. rewrite Hm, app_nil_r. auto. Qed.

Lemma always_bind P {A B} (m : M World A) (k : A -> M World B) :
  always P m -> (forall a, always P (k a)) -> always P (mbind m k).
Proof.
  intros Hm Hk w HP. destruct (Hm w HP) as (l & Hh & Hl & HP1). unfold mbind.
  destruct (m w) as [[a| | |] w1]; cbn in *; [|by exists l..].
  destruct (Hk a w1 HP1) as (l2 & Hh2 & Hl2 & HP2). exists (l ++ l2). rewrite Hh2, Hh, app_assoc.
  split_and!; [done| |done]. by apply Forall_app.
Qed.

Lemma always_change P {A} (m : M World A) :
  (forall w, P (fs w) -> snd (m w) = w \/ exists f, snd (m w) = mkWorld f (history w ++ [f]) /\ P f) -> always P m.
Proof.
  intros Hm w HP. destruct (Hm w HP) as [->|(f & -> & Hf)].
  - exists []. rewrite app_nil_r. auto.
  - exists [f]. cbn. auto.
Qed.

Lemma always_create P call path n : (forall f, P f -> f !! path = None -> P (<[path := n]> f)) -> always P (create call path n).
Proof.
  intros HPi. apply always_change. intros w HP. unfold create, FileExists_nofollow.
  destruct (fails call); [by left|]. case_bool_decide as He; [by left|].
  destruct (negb _); [by left|]. right. eexists. split; [done|]. apply HPi; [done|].
  by apply eq_None_not_Some.
Qed.

Lemma always_unlink P path : (forall f, P f -> P (delete path f)) -> always P (unlink path).
Proof.
  intros HPd. apply always_change. intros w HP. unfold unlink.
  destruct (fs w !! path) as [[]|]; try (by left); destruct (fails (CUnlink path)); try (by left);
    right; eexists; (split; [done|auto]).
Qed.

Lemma always_ensure P fuel path :
  (forall q f, q ∈ ancestors fuel path -> P f -> P (<[q := Dir]> f)) ->
  (forall q f, q ∈ ancestors fuel path -> P f -> P (delete q f)) ->
  always P (EnsureDirectoryExists fuel path).
Proof.
  revert path. induction fuel as [|fuel IH]; intros path Hi Hd; [by apply always_refl|].
  cbn [EnsureDirectoryExists]. apply always_bind; [by apply always_refl|]. intros w.
  destruct (DirectoryExists (fs w) path); [by apply always_refl|].
  apply always_bind.
  { destruct (_ && _); [|by apply always_refl]. apply always_bind; [|intros; by apply always_refl].
    apply always_unlink. intros f. apply Hd. left. }
  intros _. apply always_bind.
  { destruct (_ >? 1); [|by apply always_refl]. apply IH; intros q f Hq; [apply Hi|apply Hd]; by right. }
  intros _. apply always_bind; [apply always_create; intros f HP _; apply Hi; [left|done]|].
  intros [[]|]; [|by apply always_refl|]; destruct InSandbox; by apply always_refl.
Qed.

(** [m] leaves the path [q] alone. *)
Definition frames {A} (m : M World A) (q : bytes) : Prop := forall w, fs (snd (m w)) !! q = fs w !! q.

Lemma always_frames {A} (m : M World A) q : (forall x, always (fun f => f !! q = x) m) -> frames m q.
Proof. intros Hm w. destruct (Hm (fs w !! q) w eq_refl) as (l & _ & _ & E). done. Qed.

Lemma frames_ensure fuel path q : q ∉ ancestors fuel path -> frames (EnsureDirectoryExists fuel path) q.
Proof.
  intros Hq. apply always_frames. intros x. apply always_ensure; intros p f Hp <-.
  - apply lookup_insert_ne. congruence.
  - apply lookup_delete_ne. congruence.
Qed.

Definition clean {A} (r : result A) : Prop := match r with Fatal _ | Fuel => False | _ => True end.

Lemma clean_bind {A B} (m : M World A) (k : A -> M World B) w :
  clean (fst (m w)) -> (forall a w, clean (fst (k a w))) -> clean (fst (mbind m k w)).
Proof. intros Hm Hk. unfold mbind. destruct (m w) as [[] ?]; done. Qed.

Lemma expect_clean b msg (w : World) : clean (fst (lift (expect b msg) w)).
Proof. by destruct b. Qed.

Lemma ensure_clean fuel path w : (length path < fuel)%nat -> clean (fst (EnsureDirectoryExists fuel path w)).
Proof.
  revert path w. induction fuel as [|fuel IH]; intros path w Hf; [lia|]. cbn [EnsureDirectoryExists].
  apply clean_bind; [done|]. intros w0 w1. destruct (DirectoryExists (fs w0) path); [done|].
  apply clean_bind.
  { destruct (_ && _); [|done]. apply clean_bind; [unfold unlink; repeat case_match; simplify_eq; done|].
    intros; apply expect_clean. }
  intros _ w2. apply clean_bind.
  { destruct (zlen (Dirname path) >? 1) eqn:Ez; [|done]. apply IH. unfold zlen in Ez.
    destruct (Dirname_length path) as [E|[E|E]]; [rewrite E in Ez; vm_compute in Ez; done..|lia]. }
  intros _ w3. apply clean_bind; [unfold mkdir, create; repeat case_match; simplify_eq; done|].
  intros [[]|] w4; try done; destruct InSandbox; try done; apply expect_clean.
Qed.

Lemma make_tmp_spec target full attempts w : attempts <> 0%nat ->
  match make_tmp target full attempts w with
  | (Ok tmp, w') => exists k, tmp = tmp_name full k /\ fs w !! tmp = None /\
      w' = mkWorld (<[tmp := Link target]> (fs w)) (history w ++ [<[tmp := Link target]> (fs w)])
  | (Err _, w') => w' = w
  | _ => False
  end.
Proof.
  induction attempts as [|n IH]; [done|]. intros _. cbn [make_tmp]. unfold mbind, symlink, create.
  destruct (fails _); [done|]. unfold FileExists_nofollow. case_bool_decide as He.
  - destruct n; [done|]. by apply IH.
  - destruct (negb _); [done|]. cbn. eexists. split_and!; [done| |done]. by apply eq_None_not_Some.
Qed.

Lemma tmp_name_longer full k : (length full < length (tmp_name full k))%nat.
Proof. unfold tmp_name. rewrite !length_app. cbn. lia. Qed.

(** The end of Substitute, once the directory is there. *)
Definition place (target full : bytes) : M World unit :=
  let! tmp_link_name := make_tmp target full kMaxRetries in
  let! ok := rename tmp_link_name full in
  if ok : bool then mret tt
  else let! _ := unlink tmp_link_name in lift (Err "Failed to rename symlink").

Lemma place_spec target full w :
  match place target full w with
  | (Ok _, w') => fs w' = <[full := Link target]> (fs w)
  | (Err _, w') => fs w' = fs w \/ exists k, fs w !! tmp_name full k = None /\ fs w' = <[tmp_name full k := Link target]> (fs w)
  | _ => False
  end.
Proof.
  unfold place, mbind at 1. pose proof (make_tmp_spec target full kMaxRetries w) as Hm.
  destruct (make_tmp target full kMaxRetries w) as [[tmp| | |] w1]; specialize (Hm ltac:(done)); [|subst; by left|done..].
  destruct Hm as (k & -> & Hk & ->). unfold mbind, rename. cbn [fs]. rewrite lookup_insert_eq.
  destruct (_ || _).
  - cbn. unfold unlink. cbn [fs]. rewrite lookup_insert_eq. destruct (fails _); cbn.
    + right. eauto.
    + left. by apply delete_insert_id.
  - cbn. by rewrite delete_insert_id.
Qed.

Lemma always_place P target full :
  (forall k f, P f -> P (<[tmp_name full k := Link target]> f)) ->
  (forall k f, P f -> P (delete (tmp_name full k) f)) ->
  (forall f, P f -> P (<[full := Link target]> f)) -> always P (place target full).
Proof.
  intros Hi Hd Hl w HP. unfold place, mbind. pose proof (make_tmp_spec target full kMaxRetries w) as Hm.
  destruct (make_tmp target full kMaxRetries w) as [[tmp| | |] w1]; specialize (Hm ltac:(done));
    [|subst; exists []; rewrite app_nil_r; auto|done..].
  destruct Hm as (k & -> & Hk & ->). set (f1 := <[tmp_name full k := Link target]> (fs w)).
  assert (H1 : P f1) by (by apply Hi).
  assert (Hf : f1 !! tmp_name full k = Some (Link target)) by apply lookup_insert_eq.
  unfold rename. cbn [fs]. rewrite !Hf. destruct (_ || _).
  - cbn. unfold unlink. cbn [fs]. rewrite !Hf. destruct (fails _); cbn.
    + exists [f1]. split_and!; [done|by apply Forall_singleton|exact H1].
    + exists [f1; delete (tmp_name full k) f1]. rewrite <-app_assoc. split_and!; [done| |by apply Hd].
      apply Forall_cons; split; [done|]. by apply Forall_singleton, Hd.
  - cbn. exists [f1; <[full := Link target]> (delete (tmp_name full k) f1)]. rewrite <-app_assoc.
    split_and!; [done| |by apply Hl, Hd]. apply Forall_cons; split; [done|]. by apply Forall_singleton, Hl, Hd.
Qed.

Lemma Substitute_eq target full w :
  Substitute target full w =
  if negb (FileExists (fs w) target) || bool_decide (ReadLink (fs w) full = Some target) then (Ok tt, w)
  else (let! _ := EnsureDirectoryExists (S (length full)) (Dirname full) in place target full) w.
Proof.
  unfold Substitute. unfold mbind at 1, get. destruct (FileExists (fs w) target); [|done]. cbn [negb orb].
  by case_bool_decide.
Qed.

(** A link is not among the directories above it. *)
Lemma link_no_ancestor full fuel : (2 <= length full)%nat -> full ∉ ancestors fuel (Dirname full).
Proof.
  intros Hl Hin%ancestors_length. destruct (Dirname_length full) as [E|[E|E]]; [rewrite E in Hin; cbn in Hin; lia..|lia].
Qed.

(** C26. Substituting a file is atomic: in every state of the file system on the way the path
    holds what it held before or the new link, never nothing. On success it is the link
    and nothing else changed but directories on the way; on an error the path is as
    before, and what may be left over is a link under one of the temporary names. *)
Theorem substitute_atomic (target full : bytes) (w : World) :
  (2 <= length full)%nat ->
  let dirs := ancestors (S (length full)) (Dirname full) in
  let (r, w') := Substitute target full w in
  (exists l, history w' = history w ++ l /\
     Forall (fun f => f !! full = fs w !! full \/ f !! full = Some (Link target)) l) /\
  match r with
  | Ok _ =>
      (if FileExists (fs w) target then fs w' !! full = Some (Link target) else w' = w) /\
      forall q, q <> full -> q ∉ dirs -> fs w' !! q = fs w !! q
  | Err _ =>
      fs w' !! full = fs w !! full /\
      forall q, q ∉ dirs -> fs w' !! q = fs w !! q \/ exists k, q = tmp_name full k /\ fs w' !! q = Some (Link target)
  | _ => False
  end.
Proof.
  intros Hl dirs. pose proof (link_no_ancestor full (S (length full)) Hl) as Hno. fold dirs in Hno.
  assert (Htmp : forall k, tmp_name full k <> full).
  { intros k E. pose proof (tmp_name_longer full k). rewrite E in H. lia. }
  set (P f := f !! full = fs w !! full \/ f !! full = Some (Link target)).
  assert (Hens : always P (EnsureDirectoryExists (S (length full)) (Dirname full))).
  { apply always_ensure; intros q f Hq HP; assert (q <> full) by (intros ->; done); unfold P in *;
      by rewrite ?lookup_insert_ne, ?lookup_delete_ne. }
  assert (Hpl : always P (place target full)).
  { apply always_place; unfold P; intros; rewrite ?lookup_insert_ne, ?lookup_delete_ne by done; auto.
    right. apply lookup_insert_eq. }
  rewrite Substitute_eq. destruct (negb _ || _) eqn:Eskip.
  { split; [exists []; by rewrite app_nil_r|]. split; [|done].
    destruct (FileExists (fs w) target); [|done]. cbn in Eskip. apply bool_decide_eq_true in Eskip.
    unfold ReadLink in Eskip. destruct (fs w !! full) as [[| |t]|]; [done|done| |done].
    by injection Eskip as ->. }
  apply orb_false_iff in Eskip as [Hex%negb_false_iff _]. rewrite Hex.
  destruct (always_bind P _ (fun _ => place target full) Hens (fun _ => Hpl) w) as (l & Hh & Hall & _); [by left|].
  pose proof (ensure_clean (S (length full)) (Dirname full) w) as Hc.
  pose proof (fun q (Hq : q ∉ dirs) => frames_ensure _ _ q Hq w) as Hfr.
  revert Hh. unfold mbind. destruct (EnsureDirectoryExists _ _ w) as [[[]|e|e|] w1]; cbn in Hfr; intros Hh.
  - pose proof (place_spec target full w1) as Hp. destruct (place target full w1) as [[[]|e|e|] w2]; [| |done..];
      (split; [exists l; split; [done|exact Hall]|]).
    + rewrite Hp. split; [apply lookup_insert_eq|]. intros q Hq Hd. rewrite lookup_insert_ne by done. auto.
    + destruct Hp as [->|(k & Hk & ->)]; [split; auto|]. split; [rewrite lookup_insert_ne by done; auto|].
      intros q Hq. destruct (decide (q = tmp_name full k)) as [->|Hne].
      * right. exists k. by rewrite lookup_insert_eq.
      * left. rewrite lookup_insert_ne by done. auto.
  - split; [exists l; split; [done|exact Hall]|]. split; [auto|]. intros q Hq. left. auto.
  - destruct Hc. destruct (Dirname_length full) as [E|[E|E]]; [rewrite E; cbn; lia..|lia].
  - destruct Hc. destruct (Dirname_length full) as [E|[E|E]]; [rewrite E; cbn; lia..|lia].
Qed.

(** A substitution that succeeded, done again, changes nothing. *)
Theorem substitute_idempotent (target full : bytes) (w w' : World) :
  Substitute target full w = (Ok tt, w') -> Substitute target full w' = (Ok tt, w').
Proof.
  rewrite !Substitute_eq. destruct (negb _ || _) eqn:Eskip; [intros [= <-]; by rewrite Eskip|].
  unfold mbind at 1. destruct (EnsureDirectoryExists _ _ w) as [[[]|e|e|] w1]; [|done..].
  pose proof (place_spec target full w1) as Hp. destruct (place target full w1) as [[[]|e|e|] w2]; [|done..].
  intros [= <-]. assert (ReadLink (fs w2) full = Some target) as E.
  { unfold ReadLink. by rewrite Hp, lookup_insert_eq. }
  by rewrite E, (bool_decide_eq_true_2 (Some target = Some target)), orb_true_r.
Qed.

Lemma for_each_skip {A} (skip : A -> bool) (f : A -> M World unit) l w :
  for_each (fun x => if skip x then mret tt else f x) l w = for_each f (base.filter (fun x => skip x = false) l) w.
Proof.
  revert w. induction l as [|x l IH]; intros w; [done|]. cbn [for_each]. unfold mbind at 1.
  destruct (skip x) eqn:E.
  - rewrite filter_cons_False by congruence. cbn. apply IH.
  - rewrite filter_cons_True by done. cbn [for_each]. unfold mbind.
    destruct (f x w) as [[[]| | |] w']; [apply IH|done..].
Qed.

(** The entries of a marker file that are left out. *)
Definition left_out (config : list Symlink) (s : Symlink) : bool :=
  negb (SubstituteCheckTargetExists config kRunCvdKeyword) && contains kSensorsSimulatorKeyword (target s).

(** With a marker file, exactly the links of its entries are made, in order, without those
    of the sensors simulator when run_cvd is not among the targets. *)
Theorem marker_links (target_dir marker_file common_dir content : bytes) (config : list Symlink) (w : World) :
  ReadFileContents (fs w) marker_file = Ok content -> ParseFromString content = Some config ->
  GetCuttlefishCommonDir = Ok common_dir ->
  SubstituteWithMarker target_dir marker_file w =
    for_each (substitute_link common_dir target_dir) (base.filter (fun s => left_out config s = false) config) w.
Proof.
  intros Hr Hp Hc. unfold SubstituteWithMarker. unfold mbind at 1 2, get, lift. rewrite Hr, Hp.
  unfold mbind. rewrite Hc. apply (for_each_skip (left_out config)).
Qed.

(** The check looks at [target], which host_pkg_migration.proto calls deprecated: when
    the entries only have a [link_name], the simulator is not left out. *)
Lemma marker_without_targets (config : list Symlink) :
  Forall (fun s => target s = []) config -> base.filter (fun s => left_out config s = false) config = config.
Proof.
  intros Ht. apply filter_every. intros s Hs. rewrite Forall_forall in Ht. unfold left_out.
  rewrite (Ht s Hs). cbn. apply andb_false_r.
Qed.

(** EnsureDirectoryExists succeeds where a file is in the place of the directory. *)
Lemma ensure_directory_over_file fuel path contents w :
  fs w !! path = Some (File contents) -> DirectoryExists (fs w) (Dirname path) = true ->
  InSandbox = true -> fails (CMkdir path) = false -> (1 < fuel)%nat ->
  EnsureDirectoryExists fuel path w = (Ok tt, w).
Proof.
  intros Hf Hd Hs Hm Hfuel. destruct fuel as [|[|fuel]]; [lia..|]. cbn [EnsureDirectoryExists].
  assert (Est : stat (fs w) path = Some (File contents)) by (unfold stat, MAXSYMLINKS; cbn; by rewrite Hf).
  unfold mbind at 1, get, DirectoryExists at 1. rewrite Est. rewrite bool_decide_eq_false_2 by done.
  unfold FileExists_nofollow at 1, FileExists at 1. rewrite Hf, Est. rewrite !bool_decide_eq_true_2 by eauto.
  cbn [negb andb]. unfold mbind, get, mret, lift.
  destruct (zlen (Dirname path) >? 1); cbv beta; rewrite ?Hd; unfold mkdir, create; rewrite Hm; unfold FileExists_nofollow;
    rewrite Hf, bool_decide_eq_true_2 by eauto; by rewrite Hs.
Qed.
End substitute.

(** ** Examples *)
Definition host_dir : bytes := str "/usr/lib/cuttlefish-common".
Definition example_fs : Fs := list_to_map [
  (str "/", Dir); (str "/usr", Dir); (str "/usr/lib", Dir); (host_dir, Dir);
  (host_dir ++ str "/bin", Dir); (host_dir ++ str "/bin/cvdalloc", File (str "new"));
  (host_dir ++ str "/bin/run_cvd", File (str "new")); (host_dir ++ str "/bin/sensors_simulator", File (str "new"));
  (str "/pkg", Dir); (str "/pkg/bin", Dir); (str "/pkg/bin/run_cvd", File (str "old"));
  (str "/pkg/bin/run_cvd.tmp_7_0", Link (str "stale"));
  (str "/marker", File (str "m"))].
Definition example_world : World := mkWorld example_fs [].
Definition no_failure (_ : Call) : bool := false.
Definition counter (attempt : nat) : Z := Z.of_nat attempt.
Definition run_link : M World unit := Substitute no_failure false 7 counter (host_dir ++ str "/bin/run_cvd") (str "/pkg/bin/run_cvd").

(** The first temporary name is taken: the second is used, and nothing is left of it. *)
Example example_substitute :
  fst (run_link example_world) = Ok tt /\ length (history (snd (run_link example_world))) = 2%nat /\
  fs (snd (run_link example_world)) = <[str "/pkg/bin/run_cvd" := Link (host_dir ++ str "/bin/run_cvd")]> example_fs.
Proof. split_and!; vm_compute; reflexivity. Qed.

Lemma substitute_atomic_witness :
  let (r, w') := run_link example_world in
  Forall (fun f => is_Some (f !! str "/pkg/bin/run_cvd")) (history w') /\ is_ok r = true.
Proof.
  pose proof (substitute_atomic no_failure false 7 counter (host_dir ++ str "/bin/run_cvd") (str "/pkg/bin/run_cvd")
    example_world ltac:(cbn; lia)) as Hw. fold run_link in Hw. cbv zeta in Hw.
  destruct (run_link example_world) as [r w'] eqn:E. destruct Hw as [(l & Hh & Hl) _]. split.
  - rewrite Hh. cbn [history example_world app]. eapply Forall_impl; [exact Hl|]. cbn beta.
    intros f [-> | ->]; [vm_compute|]; by eexists.
  - apply (f_equal fst) in E. cbn in E. rewrite <-E. vm_compute. reflexivity.
Defined.

Lemma substitute_idempotent_witness : run_link (snd (run_link example_world)) = (Ok tt, snd (run_link example_world)).
Proof.
  apply (substitute_idempotent no_failure false 7 counter (host_dir ++ str "/bin/run_cvd") (str "/pkg/bin/run_cvd")
    example_world). vm_compute. reflexivity.
Defined.

Definition example_config : list Symlink :=
  [mkSymlink (host_dir ++ str "/bin/sensors_simulator") (str "bin/sensors_simulator");
   mkSymlink (host_dir ++ str "/bin/cvdalloc") (str "bin/cvdalloc")].
Lemma marker_links_witness :
  SubstituteWithMarker no_failure false 7 counter (host_dir ++ str "/bin/cvd") (fun _ => Some example_config)
    (str "/pkg") (str "/marker") example_world =
  for_each (substitute_link no_failure false 7 counter host_dir (str "/pkg"))
    [mkSymlink (host_dir ++ str "/bin/cvdalloc") (str "bin/cvdalloc")] example_world.
Proof.
  rewrite (marker_links no_failure false 7 counter (host_dir ++ str "/bin/cvd") (fun _ => Some example_config)
    (str "/pkg") (str "/marker") host_dir (str "m") example_config example_world); [|vm_compute; reflexivity..].
  f_equal.
Defined.
End Substitute.
