(* ===== verification/SuperImage.v ===== *)
(** * Mixing a super image (host/commands/assemble_cvd/super_image_mixer.cc, misc_info.cc,
    android_build/misc_info_metadata.cc and common/libs/key_equals_value)

    A device can run the system partitions of one build on the vendor partitions of
    another: their target files and the key=value files that describe them are merged. *)
From stdpp Require Import sorting.
From S2P Require Import Prelude CppString ModemCommand Commands Substitute.

Module SuperImage.
Import CppString.

(** ** Text *)
(** absl's ascii.h, str_split.h with SkipEmpty, match.h and strip.h. *)
Fixpoint drop_space (s : bytes) : bytes :=
  match s with c :: s' => if ModemCommand.is_space c then drop_space s' else s | [] => [] end.
Definition strip (s : bytes) : bytes := rev (drop_space (rev (drop_space s))).
Class AbslText := {
  StripAsciiWhitespace : bytes -> bytes;
  StrSplitSkipEmpty : bytes -> ascii -> list bytes;
  EndsWith : bytes -> bytes -> bool;
  ConsumeSuffix : bytes -> bytes -> bytes * bool;
  StrContains : bytes -> bytes -> bool;
  StripAsciiWhitespace_spec s : StripAsciiWhitespace s = strip s;
  StrSplitSkipEmpty_spec s c : StrSplitSkipEmpty s c = base.filter (fun p => p <> []) (split_on c s);
  EndsWith_spec s x : EndsWith s x = true <-> exists p, s = p ++ x;
  ConsumeSuffix_spec s x :
    ConsumeSuffix s x = if EndsWith s x then (ztake (zlen s - zlen x) s, true) else (s, false);
  StrContains_spec s x : StrContains s x = true <-> exists p q, s = p ++ x ++ q
}.

(** The order of std::string, and that of a std::map or std::set of strings. *)
Fixpoint string_leb (a b : bytes) : bool :=
  match a, b with
  | [], _ => true
  | _ :: _, [] => false
  | x :: a, y :: b => if Z_of_byte x <? Z_of_byte y then true
                      else if Z_of_byte y <? Z_of_byte x then false else string_leb a b
  end.
Definition string_le (a b : bytes) : Prop := string_leb a b = true.
Definition entry_le (a b : bytes * bytes) : Prop := string_le a.1 b.1.
#[global] Instance string_le_dec : RelDecision string_le.
Proof. intros a b. unfold string_le. apply _. Defined.
#[global] Instance entry_le_dec : RelDecision entry_le.
Proof. intros a b. unfold entry_le. apply _. Defined.
Definition sort_strings (l : list bytes) : list bytes := merge_sort string_le l.
Abbreviation MiscInfo := (bytes_map bytes).
Definition map_entries (m : MiscInfo) : list (bytes * bytes) :=
  merge_sort entry_le (map_to_list m).

Section mixer.
Context `{Absl, Commands.AbslSplitOnce, AbslText}.
Definition newline : ascii := "010".
Definition eq_sign : ascii := "=".
Definition space : ascii := " ".

(** ** key_equals_value.cc *)
Definition SerializeKeyEqualsValue (m : MiscInfo) : bytes :=
  flat_map (fun '(key, value) => key ++ eq_sign :: value ++ [newline]) (map_entries m).

(** A split into a pair: what is missing is empty. *)
Definition split_pair (line : bytes) : bytes * bytes :=
  match Commands.StrSplitOnce line eq_sign with
  | [key; value] => (key, value)
  | [key] => (key, [])
  | _ => ([], [])
  end.
Definition parse_line (line : bytes) (m : MiscInfo) : result MiscInfo :=
  let (first, second) := split_pair line in
  let key := StripAsciiWhitespace first in
  if bool_decide (key = []) then Ok m else
  let value := StripAsciiWhitespace second in
  match m !! key with
  | None => Ok (<[key := value]> m)
  | Some previous => if bool_decide (previous = value) then Ok m else Err "Duplicate key with different value"
  end.
Fixpoint parse_lines (lines : list bytes) (m : MiscInfo) : result MiscInfo :=
  match lines with
  | [] => Ok m
  | line :: lines => let* m := parse_line line m in parse_lines lines m
  end.
Definition ParseKeyEqualsValue (contents : bytes) : result MiscInfo :=
  parse_lines (StrSplit contents newline) ∅.

(** ** misc_info.cc *)
Definition kAvbVbmetaAlgorithm : bytes := str "avb_vbmeta_algorithm".
Definition kAvbVbmetaArgs : bytes := str "avb_vbmeta_args".
Definition kAvbVbmetaKeyPath : bytes := str "avb_vbmeta_key_path".
Definition kDynamicPartitions : bytes := str "dynamic_partition_list".
Definition kRollbackIndexSuffix : bytes := str "_rollback_index_location".
Definition kSuperBlockDevices : bytes := str "super_block_devices".
Definition kSuperPartitionGroups : bytes := str "super_partition_groups".
Definition kUseDynamicPartitions : bytes := str "use_dynamic_partitions".
Definition kRsa2048Algorithm : bytes := str "SHA256_RSA2048".
Definition kRsa4096Algorithm : bytes := str "SHA256_RSA4096".
Definition kNonPartitionKeysToMerge : list bytes := [str "ab_update"; str "default_system_dev_certificate"].
Definition kVbmetaPartitions : list bytes :=
  [str "boot"; str "init_boot"; str "odm"; str "odm_dlkm"; str "vbmeta_system"; str "vbmeta_system_dlkm";
   str "vbmeta_vendor_dlkm"; str "vendor"; str "vendor_boot"].

Definition GetExpected (misc_info : MiscInfo) (key : bytes) : result bytes :=
  match misc_info !! key with Some v => Ok v | None => Err "Unable to retrieve expected value from key" end.
Definition value_or_empty (r : result bytes) : bytes := match r with Ok v => v | _ => [] end.

Definition MergePartitionLists (vendor system : bytes) (extracted_images : bytes_set) : bytes :=
  let full_set := remove_dups (StrSplitSkipEmpty (vendor ++ space :: system) space) in
  StrJoin (sort_strings (base.filter (fun p => p ∈ extracted_images) full_set)) [space].
Definition GetPartitionList (vendor_info system_info : MiscInfo) (key : bytes) (extracted_images : bytes_set) : bytes :=
  MergePartitionLists (value_or_empty (GetExpected vendor_info key)) (value_or_empty (GetExpected system_info key))
    extracted_images.

Definition GeneratePartitionKeys (name : bytes) : list bytes :=
  let avb := str "avb_" ++ name in
  [avb; avb ++ str "_algorithm"; avb ++ str "_key_path"; avb ++ kRollbackIndexSuffix; avb ++ str "_hashtree_enable";
   avb ++ str "_add_hashtree_footer_args"; name ++ str "_disable_sparse"; str "building_" ++ name ++ str "_image";
   if bool_decide (name = str "system") then str "fs_type" else name ++ str "_fs_type"].

(** [while (Contains(used_indices, index)) ++index;] *)
Fixpoint next_free (fuel : nat) (index : Z) (used : gset Z) : result Z :=
  if bool_decide (index ∈ used) then
    match fuel with
    | O => Fuel
    | S fuel => if in_i32 (index + 1) then next_free fuel (index + 1) used else Fatal "signed overflow"
    end
  else Ok index.
Definition ResolveRollbackIndexConflicts (index_string : bytes) (used_indices : gset Z) : result Z :=
  let (ok, index) := SimpleAtoi (- 2 ^ 31) (2 ^ 31 - 1) index_string in
  let* _ := expect ok "Unable to parse value" in
  next_free (size used_indices) index used_indices.

(** The loops over the keys of a list of names that must be there, and of one that may. *)
Fixpoint copy_expected (keys : list bytes) (from m : MiscInfo) : result MiscInfo :=
  match keys with
  | [] => Ok m
  | key :: keys => let* v := GetExpected from key in copy_expected keys from (<[key := v]> m)
  end.
Definition copy_present (keys : list bytes) (from m : MiscInfo) : MiscInfo :=
  foldl (fun m key => match from !! key with Some v => <[key := v]> m | None => m end) m keys.

Definition block_device_keys (devices : bytes) : list bytes :=
  (fun d => str "super_" ++ d ++ str "_device_size") <$> StrSplitSkipEmpty devices space.
Definition group_size_key (group : bytes) : bytes := str "super_" ++ group ++ str "_group_size".
Definition partition_list_key (group : bytes) : bytes := str "super_" ++ group ++ str "_partition_list".
Fixpoint merge_groups (groups : list bytes) (vendor_info system_info : MiscInfo) (extracted : bytes_set) (m : MiscInfo) : result MiscInfo :=
  match groups with
  | [] => Ok m
  | group :: groups =>
      let* size := GetExpected vendor_info (group_size_key group) in
      let m := <[group_size_key group := size]> m in
      let m := <[partition_list_key group := GetPartitionList vendor_info system_info (partition_list_key group) extracted]> m in
      merge_groups groups vendor_info system_info extracted m
  end.
Definition super_keys : list bytes :=
  [str "virtual_ab"; str "virtual_ab_retrofit"; str "lpmake"; str "super_metadata_device";
   str "super_partition_error_limit"; str "super_partition_size"].

Definition GetCombinedDynamicPartitions (vendor_info system_info : MiscInfo) (extracted_images : bytes_set) : result MiscInfo :=
  let* vendor_use_dp := GetExpected vendor_info kUseDynamicPartitions in
  let* _ := expect (bool_decide (vendor_use_dp = str "true")) "Vendor build must have use_dynamic_partitions=true" in
  let* system_use_dp := GetExpected system_info kUseDynamicPartitions in
  let* _ := expect (bool_decide (system_use_dp = str "true")) "System build must have use_dynamic_partitions=true" in
  let result := base.filter (fun kv => system_info !! kv.1 = Some kv.2) vendor_info in
  let result := <[kDynamicPartitions := GetPartitionList vendor_info system_info kDynamicPartitions extracted_images]> result in
  let* result := match vendor_info !! kSuperBlockDevices with
                 | Some devices => copy_expected (block_device_keys devices) vendor_info (<[kSuperBlockDevices := devices]> result)
                 | None => Ok result
                 end in
  let* groups := GetExpected vendor_info kSuperPartitionGroups in
  let* result := merge_groups (StrSplitSkipEmpty groups space) vendor_info system_info extracted_images
                   (<[kSuperPartitionGroups := groups]> result) in
  Ok (copy_present super_keys vendor_info result).

(** The body of the loop over the keys of a partition. *)
Definition merge_key (system_info : MiscInfo) (key : bytes) (acc : MiscInfo * gset Z) : result (MiscInfo * gset Z) :=
  let (m, used_indices) := acc in
  match system_info !! key with
  | None => Ok (m, used_indices)
  | Some system_value =>
      if EndsWith key kRollbackIndexSuffix then
        let* index := ResolveRollbackIndexConflicts system_value used_indices in
        Ok (<[key := to_string index]> m, {[index]} ∪ used_indices)
      else Ok (<[key := system_value]> m, used_indices)
  end.
Fixpoint merge_keys (system_info : MiscInfo) (keys : list bytes) (acc : MiscInfo * gset Z) : result (MiscInfo * gset Z) :=
  match keys with
  | [] => Ok acc
  | key :: keys => let* acc := merge_key system_info key acc in merge_keys system_info keys acc
  end.
Definition MergeMiscInfos (vendor_info system_info combined_dp_info : MiscInfo) (system_partitions : list bytes) : result MiscInfo :=
  let* (m, _) := merge_keys system_info (flat_map GeneratePartitionKeys system_partitions) (vendor_info, ∅) in
  let m := copy_present kNonPartitionKeysToMerge system_info m in
  Ok (combined_dp_info ∪ m).

(** *** GetVbmetaArgs; the key paths are files of the host package *)
Record ChainPartition := mkChain { chain_name : bytes; rollback_index : bytes; chain_key_path : bytes }.
Record VbmetaArgs := mkVbmetaArgs {
  algorithm : bytes; key_path : bytes; chained_partitions : list ChainPartition;
  included_partitions : list bytes; extra_arguments : list bytes
}.
Record Keys := mkKeys { TestKeyRsa4096 : bytes; TestKeyRsa2048 : bytes; TestPubKeyRsa4096 : bytes; TestPubKeyRsa2048 : bytes }.
Context (keys : Keys).
Definition GetKeyPath (algorithm : bytes) : result bytes :=
  if bool_decide (algorithm = kRsa4096Algorithm) then Ok (TestKeyRsa4096 keys)
  else if bool_decide (algorithm = kRsa2048Algorithm) then Ok (TestKeyRsa2048 keys)
  else Err "Unexpected algorithm.  No key available.".
Definition GetPubKeyPath (algorithm : bytes) : result bytes :=
  if bool_decide (algorithm = kRsa4096Algorithm) then Ok (TestPubKeyRsa4096 keys)
  else if bool_decide (algorithm = kRsa2048Algorithm) then Ok (TestPubKeyRsa2048 keys)
  else Err "Unexpected algorithm.  No key available.".

Fixpoint vbmeta_partitions (partitions : list bytes) (misc_info : MiscInfo) (image_path : bytes) (args : VbmetaArgs) : result VbmetaArgs :=
  match partitions with
  | [] => Ok args
  | partition :: partitions =>
      let avb suffix := str "avb_" ++ partition ++ suffix in
      match misc_info !! avb (str "_key_path") with
      | Some _ =>
          let* partition_algorithm := GetExpected misc_info (avb (str "_algorithm")) in
          let* index := GetExpected misc_info (avb kRollbackIndexSuffix) in
          let* path := GetPubKeyPath partition_algorithm in
          vbmeta_partitions partitions misc_info image_path
            (mkVbmetaArgs (algorithm args) (key_path args) (chained_partitions args ++ [mkChain partition index path])
               (included_partitions args) (extra_arguments args))
      | None =>
          vbmeta_partitions partitions misc_info image_path
            (mkVbmetaArgs (algorithm args) (key_path args) (chained_partitions args)
               (included_partitions args ++ [image_path ++ str "/IMAGES/" ++ partition ++ str ".img"]) (extra_arguments args))
      end
  end.
Definition GetVbmetaArgs (misc_info : MiscInfo) (image_path : bytes) : result VbmetaArgs :=
  let* _ := expect (bool_decide (is_Some (misc_info !! kAvbVbmetaKeyPath))) "no avb_vbmeta_key_path" in
  let* algorithm := GetExpected misc_info kAvbVbmetaAlgorithm in
  let* path := GetKeyPath algorithm in
  let extra := match misc_info !! kAvbVbmetaArgs with Some a => StrSplitSkipEmpty a space | None => [] end in
  vbmeta_partitions kVbmetaPartitions misc_info image_path (mkVbmetaArgs algorithm path [] [] extra).

(** ** super_image_mixer.cc *)
Definition kMiscInfoPath : bytes := str "META/misc_info.txt".
Definition kDynamicPartitionsPath : bytes := str "META/dynamic_partitions_info.txt".
Definition kVendorTargetImages : list bytes :=
  (fun n => str "IMAGES/" ++ n ++ str ".img") <$>
  [str "boot"; str "dtbo"; str "init_boot"; str "odm"; str "odm_dlkm"; str "pvmfw"; str "recovery"; str "system_dlkm";
   str "userdata"; str "vbmeta"; str "vbmeta_system_dlkm"; str "vbmeta_vendor"; str "vbmeta_vendor_dlkm"; str "vendor";
   str "vendor_boot"; str "vendor_dlkm"; str "vendor_kernel_boot"].
Definition kVendorTargetBuildProps : list bytes :=
  [str "ODM/build.prop"; str "ODM/etc/build.prop"; str "VENDOR/build.prop"; str "VENDOR/etc/build.prop"].

(** An archive: the names of its members and what they hold. *)
Record Archive := mkArchive { contents : list bytes; member : bytes -> bytes }.
Definition IsTargetFilesImage (filename : bytes) : bool := StartsWith filename (str "IMAGES/") && EndsWith filename (str ".img").
Definition IsTargetFilesBuildProp (filename : bytes) : bool := EndsWith filename (str "build.prop").
Definition GetPartitionNameFromPath (path : bytes) : result bytes :=
  let (result, ok) := ConsumePrefix path (str "IMAGES/") in
  let* _ := expect ok "expected to be in the IMAGES directory" in
  let (result, ok) := ConsumeSuffix result (str ".img") in
  let* _ := expect ok "expected to be a .img file" in
  Ok result.

Definition GetTargetFiles (vendor system : Archive) : result (Archive * Archive) :=
  let* _ := expect (negb (bool_decide (contents vendor = []))) "Could not open" in
  let* _ := expect (negb (bool_decide (contents system = []))) "Could not open" in
  Ok (vendor, system).

(** The state of ExtractTargetFiles: what was written (member, from the vendor archive?),
    the images and the system partitions. *)
Record Extracted := mkExtracted { written : list (bytes * bool); images : bytes_set; system_partitions : list bytes }.
(** Whether ExtractImage succeeds on a member of the archive. *)
Context (ExtractImage : bool -> bytes -> bool).
Fixpoint extract (from_vendor : bool) (names : list bytes) (image : bool) (e : Extracted) : result Extracted :=
  match names with
  | [] => Ok e
  | name :: names =>
      let* _ := expect (ExtractImage from_vendor name) "Failed to extract" in
      let w := written e ++ [(name, from_vendor)] in
      if image then
        let* partition := GetPartitionNameFromPath name in
        extract from_vendor names image
          (mkExtracted w ({[partition]} ∪ images e)
             (if from_vendor then system_partitions e else system_partitions e ++ [partition]))
      else extract from_vendor names image (mkExtracted w (images e) (system_partitions e))
  end.
Definition ExtractTargetFiles (vendor system : Archive) : result Extracted :=
  let* e := extract true (base.filter (fun n => IsTargetFilesImage n = true /\ n ∈ kVendorTargetImages) (contents vendor)) true
              (mkExtracted [] ∅ []) in
  let* e := extract true (base.filter (fun n => IsTargetFilesBuildProp n = true /\ n ∈ kVendorTargetBuildProps) (contents vendor)) false e in
  let* e := extract false (base.filter (fun n => IsTargetFilesImage n = true /\ n ∉ kVendorTargetImages) (contents system)) true e in
  extract false (base.filter (fun n => IsTargetFilesBuildProp n = true /\ n ∉ kVendorTargetBuildProps) (contents system)) false e.

Definition CombineDynamicPartitionsInfo (vendor system : Archive) (extracted_images : bytes_set) : result MiscInfo :=
  let* _ := expect (bool_decide (kDynamicPartitionsPath ∈ contents vendor)) "Vendor target files zip does not contain it" in
  let* _ := expect (bool_decide (kDynamicPartitionsPath ∈ contents system)) "System target files zip does not contain it" in
  let* vendor_dp_info := ParseKeyEqualsValue (member vendor kDynamicPartitionsPath) in
  let* system_dp_info := ParseKeyEqualsValue (member system kDynamicPartitionsPath) in
  GetCombinedDynamicPartitions vendor_dp_info system_dp_info extracted_images.
(** The merged information and the bytes of the file that is written. *)
Definition CombineMiscInfo (vendor system : Archive) (extracted_images : bytes_set) (system_partitions : list bytes) : result (MiscInfo * bytes) :=
  let* _ := expect (bool_decide (kMiscInfoPath ∈ contents vendor)) "Vendor target files zip does not contain it" in
  let* _ := expect (bool_decide (kMiscInfoPath ∈ contents system)) "System target files zip does not contain it" in
  let* vendor_misc := ParseKeyEqualsValue (member vendor kMiscInfoPath) in
  let* system_misc := ParseKeyEqualsValue (member system kMiscInfoPath) in
  let* combined_dp_info := CombineDynamicPartitionsInfo vendor system extracted_images in
  let* output_misc := MergeMiscInfos vendor_misc system_misc combined_dp_info system_partitions in
  Ok (output_misc, SerializeKeyEqualsValue output_misc).
(** CombineTargetZipFiles: the files written and the arguments of the new vbmeta image;
    the directories exist and avbtool is a program of its own. *)
Definition CombineTargetZipFiles (vendor system : Archive) (combined_target_zip : bytes) : result (Extracted * bytes * VbmetaArgs) :=
  let* (vendor, system) := GetTargetFiles vendor system in
  let* extracted := ExtractTargetFiles vendor system in
  let* (combined_info, misc_file) := CombineMiscInfo vendor system (images extracted) (system_partitions extracted) in
  let* args := GetVbmetaArgs combined_info combined_target_zip in
  Ok (extracted, misc_file, args).

(** [has_default_build], [has_system_build]: the fetcher's files have those sources. *)
Definition SuperImageNeedsRebuilding (has_default_build has_system_build : bool) (default_target_zip system_target_zip : bytes) : result bool :=
  let given z := negb (bool_decide (z = [])) && negb (bool_decide (z = str "unset")) in
  let* _ := expect (eqb (given default_target_zip) (given system_target_zip)) "flags must be specified together" in
  Ok (if given default_target_zip then true else has_default_build && has_system_build).

(** ** misc_info_metadata.cc *)
Definition PartitionsMatchingGroup (misc_info : MiscInfo) (pattern : bytes) : result (list bytes) :=
  let* groups := GetExpected misc_info kSuperPartitionGroups in
  let matching_group := foldl (fun found group => if StrContains group pattern then group else found) []
                          (StrSplitSkipEmpty groups space) in
  let* _ := expect (negb (bool_decide (matching_group = []))) "No group" in
  let* l := GetExpected misc_info (partition_list_key matching_group) in
  Ok (sort_strings (remove_dups (StrSplitSkipEmpty l space))).
Definition SystemPartitions (misc_info : MiscInfo) : result (list bytes) := PartitionsMatchingGroup misc_info (str "system").
Definition VendorPartitions (misc_info : MiscInfo) : result (list bytes) := PartitionsMatchingGroup misc_info (str "vendor").
Definition LogicalPartitions (misc_info : MiscInfo) : result (list bytes) :=
  let* s := SystemPartitions misc_info in
  let* v := VendorPartitions misc_info in
  Ok (sort_strings (remove_dups (s ++ v))).

(** ** Round trip of the key=value files *)
Lemma drop_space_suffix s : exists p, s = p ++ drop_space s.
Proof.
  induction s as [|c s [p IH]]; [by exists []|]. cbn. destruct (ModemCommand.is_space c); [|by exists []].
  exists (c :: p). cbn. by rewrite <-IH.
Qed.
Lemma strip_space_head s c k : drop_space s = c :: k -> ModemCommand.is_space c = false.
Proof. induction s as [|x s IH]; cbn; [done|]. destruct (ModemCommand.is_space x) eqn:E; [done|]. by intros [= <- _]. Qed.
Lemma drop_space_fixed s : (forall c k, s = c :: k -> ModemCommand.is_space c = false) -> drop_space s = s.
Proof. destruct s as [|c k]; [done|]. intros Hs. cbn. by rewrite (Hs c k). Qed.

Lemma elem_rev (c : ascii) l : c ∈ rev l <-> c ∈ l.
Proof. rewrite !list_elem_of_In. symmetry. apply in_rev. Qed.

Lemma strip_elem s c : c ∈ strip s -> c ∈ s.
Proof.
  unfold strip. intros Hc. rewrite elem_rev in Hc. destruct (drop_space_suffix (rev (drop_space s))) as [p Hp].
  assert (Hc2 : c ∈ rev (drop_space s)) by (rewrite Hp; apply elem_of_app; by right).
  rewrite elem_rev in Hc2. destruct (drop_space_suffix s) as [q Hq]. rewrite Hq. apply elem_of_app. by right.
Qed.

Lemma strip_idempotent s : strip (strip s) = strip s.
Proof.
  unfold strip. set (t := drop_space s). destruct (drop_space_suffix (rev t)) as [p Hp].
  set (u := drop_space (rev t)) in *.
  assert (Ht : t = rev u ++ rev p) by (by rewrite <-rev_app_distr, <-Hp, rev_involutive).
  rewrite (drop_space_fixed (rev u)).
  - rewrite rev_involutive. f_equal. apply drop_space_fixed. intros c k E. by eapply strip_space_head.
  - intros c k E. eapply (strip_space_head s). fold t. by rewrite Ht, E.
Qed.

Definition entry_ok (k v : bytes) : Prop :=
  k <> [] /\ strip k = k /\ strip v = v /\ (eq_sign ∉ k) /\ (newline ∉ k) /\ (newline ∉ v).

Lemma split_pair_ok line : newline ∉ line ->
  (eq_sign ∉ (split_pair line).1) /\ (newline ∉ (split_pair line).1) /\ (newline ∉ (split_pair line).2).
Proof.
  intros Hn. unfold split_pair. rewrite Commands.StrSplitOnce_spec. pose proof (find_first_of_spec eq_sign line) as Hf.
  destruct (find_first_of eq_sign line) as [i|].
  - destruct Hf as (a & b & -> & Ha & ->). rewrite ztake_exact by done.
    replace (a ++ eq_sign :: b) with ((a ++ [eq_sign]) ++ b) in * by (by rewrite <-app_assoc).
    rewrite zdrop_exact by zlen_lia. cbn. rewrite !elem_of_app in Hn. naive_solver.
  - cbn. split_and!; [done|done|apply not_elem_of_nil].
Qed.

Lemma parse_lines_ok lines m m' :
  Forall (fun l => newline ∉ l) lines -> map_Forall entry_ok m -> parse_lines lines m = Ok m' -> map_Forall entry_ok m'.
Proof.
  intros Hl. revert m. induction Hl as [|line lines Hline Hl IH]; intros m Hm; cbn [parse_lines]; [by intros [= <-]|].
  intros (m1 & E1 & E2)%rbind_ok. apply (IH m1); [|done]. revert E1. unfold parse_line.
  destruct (split_pair_ok line Hline) as (Hk1 & Hk2 & Hv). destruct (split_pair line) as [k v]. cbn in *.
  rewrite !StripAsciiWhitespace_spec. case_bool_decide as Hne; [by intros [= <-]|].
  destruct (m !! strip k); [case_bool_decide; by intros [= <-]|]. intros [= <-].
  apply map_Forall_insert_2; [|done]. unfold entry_ok. rewrite !strip_idempotent.
  split_and!; try done; intros Hin%strip_elem; done.
Qed.

Lemma split_lines ls : Forall (fun l => newline ∉ l) ls ->
  split_on newline (flat_map (fun l => l ++ [newline]) ls) = ls ++ [[]].
Proof.
  induction 1 as [|l ls Hl _ IH]; [done|]. cbn [flat_map]. rewrite <-app_assoc. cbn [app].
  rewrite split_on_app by done. by rewrite IH.
Qed.

Definition entry_line (e : bytes * bytes) : bytes := e.1 ++ eq_sign :: e.2.

Lemma parse_entry k v m : entry_ok k v -> m !! k = None -> parse_line (entry_line (k, v)) m = Ok (<[k := v]> m).
Proof.
  intros (Hne & Hk & Hv & Heq & _ & _) Hm. unfold parse_line, split_pair, entry_line. cbn [fst snd].
  rewrite Commands.StrSplitOnce_spec, find_first_of_app by done. rewrite ztake_exact by done.
  replace (k ++ eq_sign :: v) with ((k ++ [eq_sign]) ++ v) by (by rewrite <-app_assoc).
  rewrite zdrop_exact by zlen_lia. rewrite !StripAsciiWhitespace_spec, Hk, Hv.
  rewrite bool_decide_eq_false_2 by done. by rewrite Hm.
Qed.

Lemma parse_entries es m :
  Forall (fun e => entry_ok e.1 e.2) es -> NoDup es.*1 -> Forall (fun e => m !! e.1 = None) es ->
  parse_lines ((entry_line <$> es) ++ [[]]) m = Ok (list_to_map es ∪ m).
Proof.
  intros Hok. revert m. induction Hok as [|[k v] es He Hok IH]; intros m Hnd Hm.
  - cbn. unfold parse_line, split_pair. rewrite Commands.StrSplitOnce_spec. cbn.
    rewrite StripAsciiWhitespace_spec. cbn. by rewrite map_empty_union.
  - cbn in Hnd. apply NoDup_cons in Hnd as [Hk Hnd]. apply Forall_cons in Hm as [Hmk Hm].
    cbn [fmap list_fmap app parse_lines]. rewrite parse_entry by done. cbn [rbind]. rewrite IH; [|done|].
    + cbn [list_to_map foldr]. f_equal. cbn. rewrite <-insert_union_r; [by rewrite insert_union_l|]. by apply not_elem_of_list_to_map_1.
    + rewrite Forall_forall in *. intros e' He'. rewrite lookup_insert_ne; [by apply Hm|].
      intros ->. apply Hk. by apply (list_elem_of_fmap_2 fst).
Qed.

Lemma serialize_lines es :
  flat_map (fun '(key, value) => key ++ eq_sign :: value ++ [newline]) es =
  flat_map (fun l => l ++ [newline]) (entry_line <$> es).
Proof.
  induction es as [|[k v] es IH]; [done|]. rewrite fmap_cons. cbn [flat_map]. rewrite IH.
  unfold entry_line. cbn [fst snd]. rewrite <-!app_assoc. cbn [app]. by rewrite <-!app_assoc.
Qed.

(** A file of key=value lines that can be read is read back as the same map after writing
    it: keys and values are trimmed and a value may itself contain equals signs. *)
Theorem key_equals_value_roundtrip (contents : bytes) (m : MiscInfo) :
  ParseKeyEqualsValue contents = Ok m -> ParseKeyEqualsValue (SerializeKeyEqualsValue m) = Ok m.
Proof.
  intros Hp. assert (Hok : map_Forall entry_ok m).
  { unfold ParseKeyEqualsValue in Hp. rewrite StrSplit_unique in Hp.
    eapply parse_lines_ok; [apply split_on_pieces|apply map_Forall_empty|exact Hp]. }
  assert (Hperm : map_entries m ≡ₚ map_to_list m) by apply merge_sort_Permutation.
  assert (Hes : Forall (fun e => entry_ok e.1 e.2) (map_entries m)).
  { rewrite Hperm. apply Forall_forall. intros [k v] Hin%elem_of_map_to_list. by apply Hok. }
  assert (Hnd : NoDup (map_entries m).*1) by (rewrite Hperm; apply NoDup_fst_map_to_list).
  unfold ParseKeyEqualsValue. rewrite StrSplit_unique.
  assert (Es : SerializeKeyEqualsValue m = flat_map (fun l => l ++ [newline]) (entry_line <$> map_entries m)).
  { apply serialize_lines. }
  rewrite Es, split_lines.
  - rewrite parse_entries; [|done|done|]; [|apply Forall_forall; intros; apply lookup_empty].
    rewrite map_union_empty. f_equal. rewrite <-(list_to_map_to_list m) at 2. by apply list_to_map_proper.
  - apply Forall_fmap. eapply Forall_impl; [exact Hes|]. intros [k v] (_ & _ & _ & _ & Hk & Hv). cbn in *.
    unfold entry_line. cbn. rewrite elem_of_app, elem_of_cons. intros [?|[E|?]]; [done| |done].
    by vm_compute in E.
Qed.

(** ** Rollback indices *)
Definition used_above (index : Z) (used : gset Z) : nat := size (base.filter (fun i => index <= i) used).

Lemma next_free_spec fuel index used :
  (used_above index used <= fuel)%nat ->
  match next_free fuel index used with
  | Ok i => i ∉ used
  | Fatal _ => exists i, i ∈ used /\ in_i32 (i + 1) = false
  | _ => False
  end.
Proof.
  revert index. induction fuel as [|fuel IH]; intros index Hf; cbn [next_free]; case_bool_decide as Hin; try done.
  - unfold used_above in Hf. assert (size (base.filter (fun i => index <= i) used) = 0%nat) as E by lia.
    apply size_empty_inv in E. assert (index ∈ base.filter (fun i => index <= i) used) as Hx by (apply elem_of_filter; split; [lia|done]).
    rewrite E in Hx. by apply elem_of_empty in Hx.
  - destruct (in_i32 (index + 1)) eqn:Ei; [|eauto]. apply IH.
    assert (Hlt : base.filter (fun i => index + 1 <= i) used ⊂ base.filter (fun i => index <= i) used).
    { split; [intros i; rewrite !elem_of_filter; intros [? ?]; split; [lia|done]|].
      intros Hs. specialize (Hs index). rewrite !elem_of_filter in Hs. destruct Hs; [split; [lia|done]|lia]. }
    apply subset_size in Hlt. unfold used_above in *. lia.
Qed.

Lemma resolve_spec s used i : ResolveRollbackIndexConflicts s used = Ok i -> i ∉ used.
Proof.
  unfold ResolveRollbackIndexConflicts. destruct (SimpleAtoi _ _ s) as [ok z]. rewrite rbind_expect_ok.
  intros [_ E]. pose proof (next_free_spec (size used) z used) as Hs. rewrite E in Hs. apply Hs.
  apply subseteq_size. intros x. rewrite elem_of_filter. naive_solver.
Qed.

(** The rollback keys written so far, with their indices. *)
Definition indices_ok (keys : list bytes) (system_info : MiscInfo) (acc : MiscInfo * gset Z) : Prop :=
  exists index : bytes -> Z,
    (forall k, k ∈ keys -> is_Some (system_info !! k) -> EndsWith k kRollbackIndexSuffix = true ->
       acc.1 !! k = Some (to_string (index k)) /\ index k ∈ acc.2) /\
    (forall k1 k2, k1 ∈ keys -> k2 ∈ keys -> is_Some (system_info !! k1) -> is_Some (system_info !! k2) ->
       EndsWith k1 kRollbackIndexSuffix = true -> EndsWith k2 kRollbackIndexSuffix = true ->
       index k1 = index k2 -> k1 = k2).

Lemma merge_key_ok ks system_info key acc acc' :
  indices_ok ks system_info acc -> merge_key system_info key acc = Ok acc' ->
  indices_ok (ks ++ [key]) system_info acc'.
Proof.
  intros (index & Hi & Hinj). destruct acc as [m used]. cbn [fst snd] in *. unfold merge_key.
  destruct (system_info !! key) as [v|] eqn:Es; [destruct (EndsWith key kRollbackIndexSuffix) eqn:Ee|].
  - intros (i & Hr%resolve_spec & [= <-])%rbind_ok.
    exists (fun k => if decide (k = key) then i else index k). split.
    + intros k [Hk| ->%list_elem_of_singleton]%elem_of_app Hk2 Hk3; cbn.
      * destruct (decide (k = key)) as [->|Hne]; [rewrite lookup_insert_eq; set_solver|].
        rewrite lookup_insert_ne by done. destruct (Hi k Hk Hk2 Hk3). set_solver.
      * rewrite decide_True, lookup_insert_eq by done. set_solver.
    + assert (Hfresh : forall k, k ∈ ks -> is_Some (system_info !! k) -> EndsWith k kRollbackIndexSuffix = true -> index k <> i).
      { intros k Hk1 Hk2 Hk3 E. destruct (Hi k Hk1 Hk2 Hk3) as [_ Hu]. by rewrite E in Hu. }
      intros k1 k2 Hk1 Hk2 S1 S2 E1 E2. rewrite elem_of_app, list_elem_of_singleton in Hk1, Hk2.
      destruct (decide (k1 = key)) as [->|], (decide (k2 = key)) as [->|]; try done; intros E.
      * destruct Hk2; [|done]. by destruct (Hfresh k2).
      * destruct Hk1; [|done]. by destruct (Hfresh k1).
      * destruct Hk1, Hk2; try done. by apply Hinj.
  - intros [= <-]. exists index. split.
    + intros k [Hk| ->%list_elem_of_singleton]%elem_of_app Hk2 Hk3; [|congruence]. cbn.
      rewrite lookup_insert_ne by congruence. auto.
    + intros k1 k2 [| ->%list_elem_of_singleton]%elem_of_app [| ->%list_elem_of_singleton]%elem_of_app; try congruence. auto.
  - intros [= <-]. exists index. split.
    + intros k [Hk| ->%list_elem_of_singleton]%elem_of_app Hk2 Hk3; [auto|]. rewrite Es in Hk2. by destruct Hk2.
    + intros k1 k2 [| ->%list_elem_of_singleton]%elem_of_app [| ->%list_elem_of_singleton]%elem_of_app; auto;
        rewrite Es; intros; by repeat match goal with H : is_Some None |- _ => destruct H end.
Qed.

Lemma merge_keys_ok ks2 ks1 system_info acc acc' :
  indices_ok ks1 system_info acc -> merge_keys system_info ks2 acc = Ok acc' ->
  indices_ok (ks1 ++ ks2) system_info acc'.
Proof.
  revert ks1 acc. induction ks2 as [|key ks2 IH]; intros ks1 acc Hok; cbn [merge_keys].
  - intros [= <-]. by rewrite app_nil_r.
  - intros (acc1 & E1 & E2)%rbind_ok. apply (merge_key_ok _ _ key _ acc1) in Hok; [|done].
    apply (IH (ks1 ++ [key])) in E2; [|done]. by rewrite <-app_assoc in E2.
Qed.

Lemma copy_present_other ks (from m : MiscInfo) k : k ∉ ks -> copy_present ks from m !! k = m !! k.
Proof.
  unfold copy_present. revert m. induction ks as [|key ks IH]; intros m Hk; [done|].
  apply not_elem_of_cons in Hk as [Hne Hk]. cbn [foldl]. rewrite IH by done.
  destruct (from !! key); [|done]. by rewrite lookup_insert_ne.
Qed.

(** The keys that MergeMiscInfos takes from the system build and that hold a location. *)
Definition rollback_key (system_info combined_dp_info : MiscInfo) (system_partitions : list bytes) (k : bytes) : Prop :=
  k ∈ flat_map GeneratePartitionKeys system_partitions /\ is_Some (system_info !! k) /\
  EndsWith k kRollbackIndexSuffix = true /\ combined_dp_info !! k = None.

Lemma non_partition_no_rollback k : EndsWith k kRollbackIndexSuffix = true -> k ∉ kNonPartitionKeysToMerge.
Proof.
  intros [p ->]%EndsWith_spec Hin. apply list_elem_of_In in Hin.
  destruct Hin as [E|[E|[]]]; apply (f_equal (fun l => head (rev l))) in E; rewrite rev_app_distr in E;
    vm_compute in E; done.
Qed.

(** C29. In the merged description, the rollback indices of the partitions that come from the
    system build are pairwise different: a location that is taken is replaced by one that
    is free. *)
Theorem merged_rollback_distinct (vendor_info system_info combined_dp_info m : MiscInfo) (system_partitions : list bytes) k1 k2 :
  MergeMiscInfos vendor_info system_info combined_dp_info system_partitions = Ok m ->
  rollback_key system_info combined_dp_info system_partitions k1 ->
  rollback_key system_info combined_dp_info system_partitions k2 -> k1 <> k2 ->
  exists i1 i2, m !! k1 = Some (to_string i1) /\ m !! k2 = Some (to_string i2) /\ i1 <> i2.
Proof.
  intros ([m1 used] & E1 & E2)%rbind_ok (Hk1 & S1 & R1 & C1) (Hk2 & S2 & R2 & C2) Hne. injection E2 as <-.
  apply (merge_keys_ok _ []) in E1 as (index & Hi & Hinj).
  2:{ exists (fun _ => 0). split; [by intros k []%elem_of_nil|by intros x y []%elem_of_nil]. }
  cbn [app fst snd] in *. exists (index k1), (index k2).
  assert (Hl : forall k, EndsWith k kRollbackIndexSuffix = true -> combined_dp_info !! k = None ->
    (combined_dp_info ∪ copy_present kNonPartitionKeysToMerge system_info m1) !! k = m1 !! k).
  { intros k Hr Hc. rewrite lookup_union_r by done. apply copy_present_other. by apply non_partition_no_rollback. }
  rewrite !Hl by done. destruct (Hi k1 Hk1 S1 R1) as [-> _]. destruct (Hi k2 Hk2 S2 R2) as [-> _].
  split_and!; [done|done|]. intros E. by apply Hne, Hinj.
Qed.

(** ** Lists of partitions *)
Lemma join_skip_empty c ps :
  Forall (fun p => p <> [] /\ (c ∉ p)) ps -> StrSplitSkipEmpty (join [c] ps) c = ps.
Proof.
  intros Hps. rewrite StrSplitSkipEmpty_spec. destruct (decide (ps = [])) as [->|Hne]; [done|].
  rewrite split_on_join; [|done|eapply Forall_impl; [exact Hps|]; by intros p []].
  apply filter_every. intros p Hp. rewrite Forall_forall in Hps. by apply Hps.
Qed.

Lemma skip_empty_pieces s c p : p ∈ StrSplitSkipEmpty s c -> p <> [] /\ (c ∉ p).
Proof.
  rewrite StrSplitSkipEmpty_spec. intros [Hne Hp]%list_elem_of_filter. split; [done|].
  pose proof (split_on_pieces c s) as Hall. rewrite Forall_forall in Hall. by apply Hall.
Qed.

Lemma split_on_cat c a b : split_on c (a ++ c :: b) = split_on c a ++ split_on c b.
Proof.
  induction a as [|d a IH]; cbn; [by rewrite bool_decide_eq_true_2|]. case_bool_decide; [by rewrite IH|].
  rewrite IH. destruct (split_on c a) as [|p ps] eqn:E; [by apply split_on_nonempty in E|done].
Qed.

Lemma merge_partition_lists vendor system extracted p :
  p ∈ StrSplitSkipEmpty (MergePartitionLists vendor system extracted) space <->
  p ∈ extracted /\ (p ∈ StrSplitSkipEmpty vendor space \/ p ∈ StrSplitSkipEmpty system space).
Proof.
  unfold MergePartitionLists. set (full := remove_dups (StrSplitSkipEmpty (vendor ++ space :: system) space)).
  set (l := sort_strings (base.filter (fun p => p ∈ extracted) full)).
  assert (Hl : l ≡ₚ base.filter (fun p => p ∈ extracted) full) by apply merge_sort_Permutation.
  rewrite StrJoin_spec, join_skip_empty.
  - rewrite Hl, list_elem_of_filter. unfold full. rewrite elem_of_remove_dups.
    by rewrite !StrSplitSkipEmpty_spec, split_on_cat, filter_app, elem_of_app.
  - rewrite Hl. apply Forall_forall. intros q [_ Hq]%list_elem_of_filter. unfold full in Hq.
    rewrite elem_of_remove_dups in Hq. by eapply skip_empty_pieces.
Qed.

Lemma copy_expected_other ks (from m m' : MiscInfo) k :
  copy_expected ks from m = Ok m' -> k ∉ ks -> m' !! k = m !! k.
Proof.
  revert m. induction ks as [|key ks IH]; intros m; cbn [copy_expected]; [by intros [= <-]|].
  intros (v & _ & E)%rbind_ok [Hne Hk]%not_elem_of_cons. rewrite (IH _ E Hk). by rewrite lookup_insert_ne.
Qed.

(** Two strings with different last two characters. *)
Lemma last_two (a b x y : bytes) : length x = 2%nat -> length y = 2%nat -> x <> y -> a ++ x <> b ++ y.
Proof. intros Hx Hy Hne E. apply Hne. apply app_inj_2 in E as [_ E]; [done|]. by rewrite Hx, Hy. Qed.

Lemma list_key_suffix g : exists a, partition_list_key g = a ++ str "st".
Proof. exists (str "super_" ++ g ++ str "_partition_li"). unfold partition_list_key. by rewrite <-!app_assoc. Qed.
Lemma size_key_suffix g : exists a, group_size_key g = a ++ str "ze".
Proof. exists (str "super_" ++ g ++ str "_group_si"). unfold group_size_key. by rewrite <-!app_assoc. Qed.
Lemma list_key_not_size g g' : partition_list_key g <> group_size_key g'.
Proof.
  destruct (list_key_suffix g) as [a ->], (size_key_suffix g') as [b ->]. by apply last_two.
Qed.
Lemma list_key_not_super g : partition_list_key g ∉ super_keys.
Proof.
  destruct (list_key_suffix g) as [a ->]. intros Hin%list_elem_of_In.
  repeat (destruct Hin as [E|Hin]; [apply (f_equal (fun l => take 2 (rev l))) in E; rewrite rev_app_distr in E; vm_compute in E; done|]).
  destruct Hin.
Qed.

Lemma partition_list_key_inj g g' : partition_list_key g = partition_list_key g' -> g = g'.
Proof. unfold partition_list_key. intros E%app_inv_head%app_inv_tail. done. Qed.

Lemma merge_groups_list groups vendor_info system_info extracted m m' g :
  merge_groups groups vendor_info system_info extracted m = Ok m' ->
  m' !! partition_list_key g =
    if decide (g ∈ groups) then Some (GetPartitionList vendor_info system_info (partition_list_key g) extracted)
    else m !! partition_list_key g.
Proof.
  revert m. induction groups as [|g' groups IH]; intros m; cbn [merge_groups]; [by intros [= <-]|].
  intros (size & _ & E)%rbind_ok. rewrite (IH _ E).
  destruct (decide (g ∈ groups)); [by rewrite decide_True by (by right)|].
  destruct (decide (g = g')) as [->|Hne].
  - by rewrite lookup_insert_eq, decide_True by left.
  - rewrite decide_False by (by intros [|]%elem_of_cons).
    rewrite lookup_insert_ne by (intros ?%partition_list_key_inj; congruence).
    rewrite lookup_insert_ne; [done|]. intros E'. by apply (list_key_not_size g g').
Qed.

(** The list of a dynamic partition group in the merged description has exactly the
    partitions that were extracted and that the vendor's or the system's list of the group
    names. *)
Theorem combined_partition_list (vendor_info system_info m : MiscInfo) (extracted : bytes_set) (groups g p : bytes) :
  GetCombinedDynamicPartitions vendor_info system_info extracted = Ok m ->
  vendor_info !! kSuperPartitionGroups = Some groups -> g ∈ StrSplitSkipEmpty groups space ->
  exists l, m !! partition_list_key g = Some l /\
  (p ∈ StrSplitSkipEmpty l space <->
   p ∈ extracted /\
   (p ∈ StrSplitSkipEmpty (value_or_empty (GetExpected vendor_info (partition_list_key g))) space \/
    p ∈ StrSplitSkipEmpty (value_or_empty (GetExpected system_info (partition_list_key g))) space)).
Proof.
  intros Hc Hg Hin. unfold GetCombinedDynamicPartitions in Hc.
  apply rbind_ok in Hc as (v & _ & Hc). apply rbind_ok in Hc as ([] & _ & Hc).
  apply rbind_ok in Hc as (v2 & _ & Hc). apply rbind_ok in Hc as ([] & _ & Hc).
  apply rbind_ok in Hc as (m1 & _ & Hc). unfold GetExpected at 1 in Hc. rewrite Hg in Hc. cbn [rbind] in Hc.
  apply rbind_ok in Hc as (m2 & Hm2 & Em). assert (E : m = copy_present super_keys vendor_info m2) by congruence.
  eexists. rewrite E, copy_present_other by apply list_key_not_super.
  rewrite (merge_groups_list _ _ _ _ _ _ g Hm2), decide_True by done. split; [done|]. apply merge_partition_lists.
Qed.

(** ** Which build an image comes from *)
Definition image_path_of (p : bytes) : bytes := str "IMAGES/" ++ p ++ str ".img".

Lemma ends_app p x : EndsWith (p ++ x) x = true.
Proof. apply EndsWith_spec. eauto. Qed.

Lemma partition_name_ok n q : GetPartitionNameFromPath n = Ok q <-> n = image_path_of q.
Proof.
  unfold GetPartitionNameFromPath, image_path_of. rewrite ConsumePrefix_spec.
  destruct (starts_with (str "IMAGES/") n) eqn:E.
  - apply starts_with_spec in E as [k ->]. rewrite zdrop_exact by done. rewrite ConsumeSuffix_spec. cbn [expect rbind].
    destruct (EndsWith k (str ".img")) eqn:E2; cbn [expect rbind].
    + apply EndsWith_spec in E2 as [p ->]. rewrite zlen_app. rewrite ztake_exact by lia. split; [by intros [= ->]|].
      intros Hp%app_inv_head%app_inv_tail. by subst.
    + split; [done|]. intros Hk%app_inv_head. by rewrite Hk, ends_app in E2.
  - cbn [expect rbind]. split; [done|]. intros ->.
    assert (starts_with (str "IMAGES/") (str "IMAGES/" ++ q ++ str ".img") = true) by (apply starts_with_spec; eauto).
    congruence.
Qed.

Lemma image_path_inj p q : image_path_of p = image_path_of q -> p = q.
Proof. unfold image_path_of. by intros E%app_inv_head%app_inv_tail. Qed.

Lemma extract_images from_vendor names image e e' p :
  extract from_vendor names image e = Ok e' ->
  (p ∈ images e' <-> p ∈ images e \/ (image = true /\ image_path_of p ∈ names)) /\
  (p ∈ system_partitions e' <-> p ∈ system_partitions e \/ (image = true /\ from_vendor = false /\ image_path_of p ∈ names)).
Proof.
  revert e. induction names as [|name names IH]; intros e; cbn [extract].
  { intros [= <-]. rewrite !elem_of_nil. naive_solver. }
  intros ([] & _ & Hx)%rbind_ok. destruct image.
  - apply rbind_ok in Hx as (q & Hq%partition_name_ok & Hx). subst name. apply IH in Hx as [I1 I2]. cbn [images system_partitions] in *.
    assert (Hpq : image_path_of p = image_path_of q <-> p = q) by (split; [apply image_path_inj|congruence]).
    rewrite I1, I2, elem_of_union, elem_of_singleton, elem_of_cons, Hpq. split; [naive_solver|].
    destruct from_vendor; [naive_solver|]. rewrite elem_of_app, list_elem_of_singleton. naive_solver.
  - apply IH in Hx as [I1 I2]. cbn [images system_partitions] in *. rewrite I1, I2. naive_solver.
Qed.

(** An image of the merged target files is there exactly when the archive it is to come
    from, the vendor's for the images on the vendor list and the system's for the others,
    contains it; the system partitions are the latter. *)
Theorem extracted_sources (vendor system : Archive) (e : Extracted) (p : bytes) :
  ExtractTargetFiles vendor system = Ok e ->
  let from_vendor := bool_decide (image_path_of p ∈ kVendorTargetImages) in
  (p ∈ images e <-> image_path_of p ∈ contents (if from_vendor then vendor else system)) /\
  (p ∈ system_partitions e <-> from_vendor = false /\ image_path_of p ∈ contents system).
Proof.
  intros Hx from_vendor. unfold ExtractTargetFiles in Hx.
  apply rbind_ok in Hx as (e1 & X1 & Hx). apply rbind_ok in Hx as (e2 & X2 & Hx). apply rbind_ok in Hx as (e3 & X3 & X4).
  apply (extract_images _ _ _ _ _ p) in X1 as [I1 P1]. apply (extract_images _ _ _ _ _ p) in X2 as [I2 P2].
  apply (extract_images _ _ _ _ _ p) in X3 as [I3 P3]. apply (extract_images _ _ _ _ _ p) in X4 as [I4 P4].
  assert (Himg : IsTargetFilesImage (image_path_of p) = true).
  { unfold IsTargetFilesImage, image_path_of. rewrite StartsWith_spec, andb_true_iff. split.
    - apply starts_with_spec. eauto.
    - rewrite app_assoc. apply ends_app. }
  cbn [images system_partitions] in I1, P1. rewrite list_elem_of_filter in I1, P1, I3, P3.
  rewrite I4, I3, I2, I1, P4, P3, P2, P1, elem_of_empty, elem_of_nil.
  unfold from_vendor. case_bool_decide; naive_solver.
Qed.
End mixer.

(** ** Examples *)
Lemma contains_spec x s : Substitute.contains x s = true <-> exists p q, s = p ++ x ++ q.
Proof.
  induction s as [|c s IH]; cbn [Substitute.contains]; rewrite orb_true_iff, starts_with_spec.
  - split; [intros [[k Hk]|]; [by exists [], k|done]|]. intros (p & q & E). left. exists q.
    symmetry in E. apply app_nil in E as [_ E]. done.
  - rewrite IH. split.
    + intros [[k Hk]|(p & q & ->)]; [by exists [], k|by exists (c :: p), q].
    + intros ([|d p] & q & E); [left; by exists q|]. injection E as -> ->. right. eauto.
Qed.

#[local, refine] Instance text_reference : AbslText := {
  StripAsciiWhitespace := strip;
  StrSplitSkipEmpty s c := base.filter (fun p => p <> []) (split_on c s);
  EndsWith s x := starts_with (rev x) (rev s);
  ConsumeSuffix s x := if starts_with (rev x) (rev s) then (ztake (zlen s - zlen x) s, true) else (s, false);
  StrContains s x := Substitute.contains x s
}.
Proof.
  - done.
  - done.
  - intros s x. rewrite starts_with_spec. split.
    + intros [k Hk]. exists (rev k). by rewrite <-(rev_involutive s), Hk, rev_app_distr, rev_involutive.
    + intros [p ->]. exists (rev p). apply rev_app_distr.
  - done.
  - intros s x. apply contains_spec.
Defined.
#[local] Existing Instance Commands.ref_split_once.

Definition example_file : bytes := str " a = 1 " ++ [newline] ++ str "b=x=y" ++ [newline; newline] ++ str "a=1".
Example example_parse : ParseKeyEqualsValue example_file = Ok (list_to_map [(str "a", str "1"); (str "b", str "x=y")]).
Proof. vm_compute. reflexivity. Qed.
Lemma key_equals_value_roundtrip_witness : exists m,
  ParseKeyEqualsValue example_file = Ok m /\ ParseKeyEqualsValue (SerializeKeyEqualsValue m) = Ok m.
Proof.
  exists (list_to_map [(str "a", str "1"); (str "b", str "x=y")]). split; [vm_compute; reflexivity|].
  apply (key_equals_value_roundtrip example_file). vm_compute. reflexivity.
Defined.

Definition rollback_of (p : bytes) : bytes := str "avb_" ++ p ++ kRollbackIndexSuffix.
Definition example_system : MiscInfo :=
  list_to_map [(rollback_of (str "system"), str "1"); (rollback_of (str "product"), str "1")].
Definition example_vendor : MiscInfo := list_to_map [(rollback_of (str "vendor"), str "1"); (str "lpmake", str "x")].
Definition example_merged : MiscInfo :=
  default ∅ (match MergeMiscInfos example_vendor example_system ∅ [str "system"; str "product"] with Ok m => Some m | _ => None end).

Lemma merged_rollback_distinct_witness : exists i1 i2,
  example_merged !! rollback_of (str "system") = Some (to_string i1) /\
  example_merged !! rollback_of (str "product") = Some (to_string i2) /\ i1 <> i2.
Proof.
  apply (merged_rollback_distinct example_vendor example_system ∅ example_merged [str "system"; str "product"]).
  - vm_compute. reflexivity.
  - split_and!; [|eexists; vm_compute; reflexivity|vm_compute; reflexivity|done].
    refine (bool_decide_unpack _ _). vm_compute. exact I.
  - split_and!; [|eexists; vm_compute; reflexivity|vm_compute; reflexivity|done].
    refine (bool_decide_unpack _ _). vm_compute. exact I.
  - done.
Defined.

(** The indices of the vendor build are not looked at: the two builds conflict. *)
Lemma vendor_rollback_conflict :
  example_merged !! rollback_of (str "vendor") = Some (str "1") /\
  example_merged !! rollback_of (str "system") = Some (str "1").
Proof. split; vm_compute; reflexivity. Qed.

Definition example_dp (partitions : bytes) : MiscInfo := list_to_map [
  (kUseDynamicPartitions, str "true"); (kSuperPartitionGroups, str "g"); (group_size_key (str "g"), str "100");
  (partition_list_key (str "g"), partitions)].
Lemma combined_partition_list_witness : exists m l,
  GetCombinedDynamicPartitions (example_dp (str "vendor odm")) (example_dp (str "system odm")) {[str "system"; str "vendor"]} = Ok m /\
  m !! partition_list_key (str "g") = Some l /\ str "system" ∈ StrSplitSkipEmpty l space /\ str "odm" ∉ StrSplitSkipEmpty l space.
Proof.
  set (r := GetCombinedDynamicPartitions (example_dp (str "vendor odm")) (example_dp (str "system odm")) {[str "system"; str "vendor"]}).
  set (m := default ∅ (match r with Ok m => Some m | _ => None end)).
  assert (Hr : r = Ok m) by (vm_compute; reflexivity).
  assert (Hg : str "g" ∈ StrSplitSkipEmpty (str "g") space) by left.
  destruct (combined_partition_list _ _ m _ (str "g") (str "g") (str "system") Hr ltac:(vm_compute; reflexivity) Hg) as (l & Hl & H1).
  destruct (combined_partition_list _ _ m _ (str "g") (str "g") (str "odm") Hr ltac:(vm_compute; reflexivity) Hg) as (l' & Hl' & H2).
  assert (l' = l) by congruence. subst l'. exists m, l. split_and!; [done|done| |].
  - apply H1. split; [set_solver|]. right. left.
  - rewrite H2. intros [Hx _]. revert Hx. refine (bool_decide_unpack _ _). vm_compute. exact I.
Defined.

Definition example_archive (names : list bytes) : Archive := mkArchive names (fun _ => []).
Lemma extracted_sources_witness : exists e,
  ExtractTargetFiles (fun _ _ => true) (example_archive [image_path_of (str "vendor"); image_path_of (str "system")])
    (example_archive [image_path_of (str "vendor"); image_path_of (str "system")]) = Ok e /\
  str "system" ∈ system_partitions e /\ str "vendor" ∉ system_partitions e.
Proof.
  set (a := example_archive [image_path_of (str "vendor"); image_path_of (str "system")]).
  set (e := mkExtracted [(image_path_of (str "vendor"), true); (image_path_of (str "system"), false)]
              {[str "system"; str "vendor"]} [str "system"]).
  assert (Hx : ExtractTargetFiles (fun _ _ => true) a a = Ok e) by (vm_compute; reflexivity).
  exists e. split_and!; [done| |].
  - apply (extracted_sources (fun _ _ => true) a a e (str "system") Hx). split; [vm_compute; reflexivity|]. right. left.
  - intros Hv. apply (extracted_sources (fun _ _ => true) a a e (str "vendor") Hx) in Hv as [Hv _]. vm_compute in Hv. done.
Defined.
End SuperImage.
