(* ===== verification/SecureEnv.v ===== *)
(** * Storage, OEM lock and failure records of secure_env (host/commands/secure_env:
    storage/, oemlock/, tpm_gatekeeper.cpp)

    [Storage] is the interface of storage/storage.h; the OEM lock and the gatekeeper's
    failure records are written against it, [InsecureJsonStorage] and [TpmStorage]
    implement it. *)
From S2P Require Import Prelude CppString IO SharedBuf Transport.

Module SecureEnv.
Import CppString.

(** ** storage/storage.h *)
Class Storage (S : Type) := {
  HasKey : bytes -> S -> result bool;
  Read : bytes -> S -> result bytes;
  Write : bytes -> bytes -> M S unit;
  Exists : S -> bool
}.
(** What the clients count on, for the states of the storage that satisfy [sound]. *)
Class StorageLaws (S : Type) `{Storage S} := {
  sound : S -> Prop;
  write_sound k v s s' : sound s -> Write k v s = (Ok tt, s') -> sound s';
  read_written k v s s' : sound s -> Write k v s = (Ok tt, s') -> Read k s' = Ok v;
  read_other k v s s' k' v' : sound s -> Write k v s = (Ok tt, s') -> k' <> k -> Read k' s' = Ok v' <-> Read k' s = Ok v';
  has_written k v s s' : sound s -> Write k v s = (Ok tt, s') -> HasKey k s' = Ok true;
  has_read k v s : sound s -> Read k s = Ok v -> HasKey k s = Ok true
}.

Section clients.
Context {S : Type} `{Storage S}.

Definition read (k : bytes) : M S bytes := fun s => (Read k s, s).
Definition asUint8 (data : bytes) : result Z :=
  match data with [c] => Ok (Z_of_byte c) | _ => Err "Size of payload is not matched with uint8 size" end.

(** ** oemlock/oemlock.cpp *)
Definition kStateKey : bytes := str "oemlock_state".
Definition kAllowedByCarrierBit : Z := 0.
Definition kAllowedByDeviceBit : Z := 1.
Definition kOemLockedBit : Z := 2.
Definition kDefaultState : Z :=
  Z.lor (Z.lor 0 (Z.shiftl 1 kAllowedByCarrierBit)) (Z.shiftl 1 kAllowedByDeviceBit).

Definition InitializeDefaultState : M S unit := fun s =>
  if Exists s then (Ok tt, s) else Write kStateKey [byte_of_Z kDefaultState] s.
(** The constructor. *)
Definition new_OemLock : M S unit := fun s =>
  match InitializeDefaultState s with
  | (Err _, s) => (Fatal "Failed to initialize default state for OemLock TEE storage", s)
  | r => r
  end.
Definition bit_of (state bit : Z) : bool := Z.land (Z.shiftr state bit) 1 =? 1.
Definition ReadFlag (bit : Z) : M S bool :=
  let! data := read kStateKey in
  let! state := lift (asUint8 data) in
  mret (bit_of state bit).
Definition set_bit (state bit : Z) (value : bool) : Z :=
  (if value then Z.lor state (Z.shiftl 1 bit) else Z.land state (Z.lnot (Z.shiftl 1 bit))) mod 256.
Definition WriteFlag (bit : Z) (value : bool) : M S unit :=
  let! data := read kStateKey in
  let! state := lift (asUint8 data) in
  Write kStateKey [byte_of_Z (set_bit state bit value)].
Definition IsOemUnlockAllowedByCarrier : M S bool := ReadFlag kAllowedByCarrierBit.
Definition IsOemUnlockAllowedByDevice : M S bool := ReadFlag kAllowedByDeviceBit.
Definition IsOemUnlockAllowed : M S bool :=
  let! data := read kStateKey in
  let! state := lift (asUint8 data) in
  mret (bit_of state kAllowedByDeviceBit && bit_of state kAllowedByCarrierBit).
Definition IsOemLocked : M S bool := ReadFlag kOemLockedBit.
Definition SetOemUnlockAllowedByCarrier (allowed : bool) : M S unit := WriteFlag kAllowedByCarrierBit allowed.
Definition SetOemUnlockAllowedByDevice (allowed : bool) : M S unit := WriteFlag kAllowedByDeviceBit allowed.
Definition SetOemLocked (locked : bool) : M S unit := WriteFlag kOemLockedBit locked.

(** ** oemlock/oemlock_responder.cpp *)
Inductive OemLockField := ALLOWED_BY_CARRIER | ALLOWED_BY_DEVICE | ALLOWED | LOCKED.
Definition field_of (command : Z) : option OemLockField :=
  if command =? 0 then Some ALLOWED_BY_CARRIER else if command =? 1 then Some ALLOWED_BY_DEVICE
  else if command =? 2 then Some ALLOWED else if command =? 3 then Some LOCKED else None.
(** [*reinterpret_cast<bool*>(payload)]: only 0 and 1 are values of type bool. *)
Definition payload_bool (payload : bytes) : result bool :=
  match payload with
  | c :: _ => if Z_of_byte c =? 0 then Ok false else if Z_of_byte c =? 1 then Ok true else Fatal "not a bool"
  | [] => Fatal "read past the end"
  end.
(** A case of the switch: [getter] without a payload, [setter] with one of one byte. *)
Definition get_or_set (request : Transport.RawMessage) (getter : M S bool) (setter : option (bool -> M S unit)) : M S bool :=
  if Transport.payload_size request =? 0 then getter else
  match setter with
  | Some set =>
      if Transport.payload_size request =? 1 then
        let! result := lift (payload_bool (Transport.payload request)) in
        let! _ := set result in mret result
      else mret false
  | None => mret false
  end.
Definition answer (request : Transport.RawMessage) : M S bool :=
  match field_of (Transport.command request) with
  | Some ALLOWED_BY_CARRIER => get_or_set request IsOemUnlockAllowedByCarrier (Some SetOemUnlockAllowedByCarrier)
  | Some ALLOWED_BY_DEVICE => get_or_set request IsOemUnlockAllowedByDevice (Some SetOemUnlockAllowedByDevice)
  | Some ALLOWED => get_or_set request IsOemUnlockAllowed None
  | Some LOCKED => get_or_set request IsOemLocked (Some SetOemLocked)
  | None => lift (Err "Unrecognized message id")
  end.
Definition bool_byte (b : bool) : ascii := byte_of_Z (if b then 1 else 0).

Section responder.
Context (malloc : Z -> option bytes) {R : Type} `{IO.Reader R} {W : Type} `{IO.Writer W}.
(** The channel is read from [R] and written to [W]. *)
Definition ProcessMessage : M (R * W * S) unit := fun '(r, w, s) =>
  match Transport.ReceiveMessage malloc r with
  | (Ok request, r) =>
      match answer request s with
      | (Ok result, s) =>
          match Transport.CreateMessage malloc (Transport.command request) false 1 with
          | Ok message =>
              let message := Transport.mkRawMessage (Transport.command message) (Transport.is_response message)
                (Transport.payload_size message) (bool_byte result :: zdrop 1 (Transport.payload message)) in
              let (e, w) := Transport.SendResponse message w in (e, (r, w, s))
          | e => (fail_as e, (r, w, s))
          end
      | (e, s) => (fail_as e, (r, w, s))
      end
  | (e, r) => (fail_as e, (r, w, s))
  end.
End responder.

(** ** tpm_gatekeeper.cpp: failure records *)
Record failure_record_t := mkRecord { secure_user_id : Z; last_checked_timestamp : Z; failure_counter : Z }.
Definition DefaultRecord (secure_user_id : Z) : failure_record_t := mkRecord secure_user_id 0 0.

(** The struct is declared by the gatekeeper library: the bytes of a record, and the
    record that memcpy makes of as many bytes. *)
Context (sizeof_record : Z) (record_bytes : failure_record_t -> bytes) (memcpy_record : bytes -> failure_record_t).
Definition RecordToStorageData (r : failure_record_t) : bytes := record_bytes r.
Definition StorageDataToRecord (data : bytes) : result failure_record_t :=
  if zlen data =? sizeof_record then Ok (memcpy_record data) else Err "StorageData buffer had an incorrect size.".

Definition GetFailureRecordImpl (uid suid : Z) : M S failure_record_t :=
  let key := to_string uid in
  let! s := get in
  let! has := lift (HasKey key s) in
  let! _ := (if has : bool then mret tt else Write key (RecordToStorageData (DefaultRecord suid))) in
  let! record_read := read key in
  let! record_decoded := lift (StorageDataToRecord record_read) in
  if secure_user_id record_decoded =? suid then mret record_decoded
  else let! _ := Write key (RecordToStorageData (DefaultRecord suid)) in mret (DefaultRecord suid).
Definition WriteFailureRecordImpl (uid : Z) (r : failure_record_t) : M S unit :=
  Write (to_string uid) (RecordToStorageData r).
Definition ClearFailureRecordImpl (uid suid : Z) : M S unit := WriteFailureRecordImpl uid (DefaultRecord suid).
End clients.

(** The methods choose between two storages and turn a failure into [false]. *)
Section gatekeeper.
Context {A B : Type} `{Storage A} `{Storage B}.
Context (sizeof_record : Z) (record_bytes : failure_record_t -> bytes) (memcpy_record : bytes -> failure_record_t).
Record TpmGatekeeper := mkGatekeeper { secure_storage_ : A; insecure_storage_ : B }.
Definition on_storage {T} (secure : bool) (on_secure : M A T) (on_insecure : M B T) : M TpmGatekeeper (option T) := fun g =>
  if secure then
    let (r, a) := attempt on_secure (secure_storage_ g) in (r, mkGatekeeper a (insecure_storage_ g))
  else
    let (r, b) := attempt on_insecure (insecure_storage_ g) in (r, mkGatekeeper (secure_storage_ g) b).
Definition GetFailureRecord (uid suid : Z) (secure : bool) : M TpmGatekeeper (option failure_record_t) :=
  on_storage secure (GetFailureRecordImpl sizeof_record record_bytes memcpy_record uid suid)
    (GetFailureRecordImpl sizeof_record record_bytes memcpy_record uid suid).
Definition ClearFailureRecord (uid suid : Z) (secure : bool) : M TpmGatekeeper (option unit) :=
  on_storage secure (ClearFailureRecordImpl record_bytes uid suid) (ClearFailureRecordImpl record_bytes uid suid).
Definition WriteFailureRecord (uid : Z) (r : failure_record_t) (secure : bool) : M TpmGatekeeper (option unit) :=
  on_storage secure (WriteFailureRecordImpl record_bytes uid r) (WriteFailureRecordImpl record_bytes uid r).
End gatekeeper.

(** ** storage/insecure_json_storage.cpp *)
(** The file holds a JSON object from keys to strings; [None] is a missing or empty file. *)
Class Base64 := {
  EncodeBase64 : bytes -> bytes;
  DecodeBase64 : bytes -> option bytes;
  decode_encode bs : DecodeBase64 (EncodeBase64 bs) = Some bs
}.
Record JsonFile := mkJsonFile { root : option (bytes_map bytes); writable : bool }.
#[global] Instance InsecureJsonStorage `{Base64} : Storage JsonFile := {
  Exists s := bool_decide (is_Some (root s));
  HasKey k s := match root s with None => Ok false | Some m => Ok (bool_decide (is_Some (m !! k))) end;
  Read k s := match root s with
              | None => Err "cannot read"
              | Some m => match m !! k with
                          | None => Err "Key not found"
                          | Some v => match DecodeBase64 v with Some bs => Ok bs | None => Err "Failed to decode base64" end
                          end
              end;
  Write k v s := if writable s
                 then (Ok tt, mkJsonFile (Some (<[k := EncodeBase64 v]> (default ∅ (root s)))) (writable s))
                 else (Err "cannot write", s)
}.

(** ** storage/tpm_storage.cpp *)
(** The non-volatile memory of a TPM: [define] fails on an index that is in use. *)
Inductive TpmRc := RC_SUCCESS | RC_NV_DEFINED | RC_OTHER.
Class Tpm (T : Type) := {
  NV_DefineSpace : Z -> Z -> T -> TpmRc * T;
  NV_Read : Z -> T -> option bytes;
  NV_Write : Z -> bytes -> T -> bool * T;
  RandomHandle : T -> Z * T
}.
(** [nv]: the indices in use, with their size and what was written. *)
Class TpmLaws (T : Type) `{Tpm T} := {
  nv : T -> gmap Z (Z * option bytes);
  define_used h size t : is_Some (nv t !! h) -> fst (NV_DefineSpace h size t) <> RC_SUCCESS;
  define_spec h size t : match NV_DefineSpace h size t with
    | (RC_SUCCESS, t') => nv t' = <[h := (size, None)]> (nv t)
    | (_, t') => nv t' = nv t
    end;
  read_spec h v t : NV_Read h t = Some v <-> exists size, nv t !! h = Some (size, Some v);
  write_spec h v t : match NV_Write h v t with
    | (true, t') => exists size old, nv t !! h = Some (size, old) /\ nv t' = <[h := (size, Some v)]> (nv t)
    | (false, t') => nv t' = nv t
    end;
  write_fits h v size old t : nv t !! h = Some (size, old) -> zlen v = size -> fst (NV_Write h v t) = true;
  random_nv t : nv (snd (RandomHandle t)) = nv t
}.

Section tpm_storage.
Context {T : Type} `{Tpm T}.
(** [save_ok]: whether the index file can be written; [saved]: whether it is there. *)
Record TpmStorage := mkTpmStorage { index_ : list (bytes * Z); tpm : T; saved : bool; save_ok : bool }.

Fixpoint GetHandle (key : bytes) (index : list (bytes * Z)) : option Z :=
  match index with
  | [] => None
  | (k, h) :: index => if bool_decide (k = key) then Some h else GetHandle key index
  end.

Definition MAX_HANDLE_ATTEMPTS : nat := 1.
(** The loop of Allocate: the last handle that was tried, whatever came of it. *)
Fixpoint define_loop (attempts : nat) (size handle : Z) (t : T) : Z * T :=
  match attempts with
  | O => (handle, t)
  | S attempts =>
      let (handle, t) := RandomHandle t in
      match NV_DefineSpace handle size t with
      | (RC_SUCCESS, t) => (handle, t)
      | (_, t) => define_loop attempts size handle t
      end
  end.
Definition Allocate (key : bytes) (size : Z) : M TpmStorage unit := fun s =>
  match GetHandle key (index_ s) with
  | Some _ => (Err "Key is already defined", s)
  | None =>
      let (handle, t) := define_loop MAX_HANDLE_ATTEMPTS size 0 (tpm s) in
      let index := index_ s ++ [(key, handle)] in
      if save_ok s then (Ok tt, mkTpmStorage index t true (save_ok s))
      else (Err "Failed to save changes", mkTpmStorage index t (saved s) (save_ok s))
  end.
Definition TpmStorage_Read (key : bytes) (s : TpmStorage) : result bytes :=
  match GetHandle key (index_ s) with
  | None => Fatal "bad_optional_access"
  | Some handle => match NV_Read handle (tpm s) with Some v => Ok v | None => Err "Esys_NV_Read failed" end
  end.
Definition TpmStorage_Write (key data : bytes) : M TpmStorage unit :=
  let! s := get in
  let! _ := (match GetHandle key (index_ s) with None => Allocate key (u16 (zlen data)) | Some _ => mret tt end) in
  let! s := get in
  match GetHandle key (index_ s) with
  | None => lift (Fatal "bad_optional_access")
  | Some handle => fun s =>
      let (ok, t) := NV_Write handle data (tpm s) in
      (expect ok "Esys_NV_Write failed", mkTpmStorage (index_ s) t (saved s) (save_ok s))
  end.
#[global] Instance tpm_storage : Storage TpmStorage := {
  HasKey k s := Ok (match GetHandle k (index_ s) with Some _ => true | None => false end);
  Read := TpmStorage_Read;
  Write := TpmStorage_Write;
  Exists s := saved s
}.
End tpm_storage.

(** ** Bits of the lock's state *)
Lemma bit_of_testbit z b : 0 <= b -> bit_of z b = Z.testbit z b.
Proof.
  intros Hb. unfold bit_of. change 1 with (Z.ones 1) at 1. rewrite Z.land_ones by lia.
  rewrite <-Z.bit0_mod, Z.shiftr_spec by lia. rewrite Z.add_0_l. by destruct (Z.testbit z b).
Qed.

Lemma bit_set_bit z b b' v : 0 <= b < 8 -> 0 <= b' < 8 -> bit_of (set_bit z b v) b' = if b =? b' then v else bit_of z b'.
Proof.
  intros Hb Hb'. rewrite !bit_of_testbit by lia. unfold set_bit. change 256 with (2 ^ 8).
  rewrite Z.mod_pow2_bits_low by lia. destruct v.
  - rewrite Z.lor_spec, Z.shiftl_1_l, Z.pow2_bits_eqb by lia.
    destruct (b =? b'); [apply orb_true_r|apply orb_false_r].
  - rewrite Z.land_spec, Z.lnot_spec, Z.shiftl_1_l, Z.pow2_bits_eqb by lia.
    destruct (b =? b'); [apply andb_false_r|apply andb_true_r].
Qed.

Lemma set_bit_range z b v : 0 <= set_bit z b v < 256.
Proof. apply Z.mod_pos_bound. lia. Qed.

Lemma asUint8_byte z : 0 <= z < 256 -> asUint8 [byte_of_Z z] = Ok z.
Proof. intros Hz. cbn. by rewrite Z_of_byte_of_Z, Z.mod_small. Qed.

(** ** The lock as three flags *)
Record Lock := mkLock { by_carrier : bool; by_device : bool; locked : bool }.
Inductive Req := Get | Set_ (b : bool) | Odd.
(** What the lock promises to its clients. *)
Definition lock_spec (f : OemLockField) (q : Req) (l : Lock) : bool * Lock :=
  match f, q with
  | _, Odd => (false, l)
  | ALLOWED_BY_CARRIER, Get => (by_carrier l, l)
  | ALLOWED_BY_CARRIER, Set_ b => (b, mkLock b (by_device l) (locked l))
  | ALLOWED_BY_DEVICE, Get => (by_device l, l)
  | ALLOWED_BY_DEVICE, Set_ b => (b, mkLock (by_carrier l) b (locked l))
  | ALLOWED, Get => (by_device l && by_carrier l, l)
  | ALLOWED, Set_ _ => (false, l)
  | LOCKED, Get => (locked l, l)
  | LOCKED, Set_ b => (b, mkLock (by_carrier l) (by_device l) b)
  end.
Definition req_of (m : Transport.RawMessage) : Req :=
  if Transport.payload_size m =? 0 then Get
  else if Transport.payload_size m =? 1 then
    match Transport.payload m with c :: _ => Set_ (Z_of_byte c =? 1) | [] => Odd end
  else Odd.
(** A payload of one byte is 0 or 1. *)
Definition req_ok (m : Transport.RawMessage) : Prop :=
  Transport.payload_size m = 1 -> exists b, Transport.payload m = [bool_byte b].

Section lock.
Context {S : Type} `{StorageLaws S}.
Definition reliable (s : S) : Prop := forall k v, is_ok (fst (Write k v s)) = true.
Definition holds (s : S) (l : Lock) : Prop := sound s /\ exists z, 0 <= z < 256 /\
  Read kStateKey s = Ok [byte_of_Z z] /\
  bit_of z kAllowedByCarrierBit = by_carrier l /\ bit_of z kAllowedByDeviceBit = by_device l /\
  bit_of z kOemLockedBit = locked l.

Lemma ReadFlag_spec bit s z :
  0 <= z < 256 -> Read kStateKey s = Ok [byte_of_Z z] -> ReadFlag bit s = (Ok (bit_of z bit), s).
Proof. intros Hz Hr. unfold ReadFlag, mbind, read, lift. by rewrite Hr, asUint8_byte. Qed.

Lemma WriteFlag_spec bit v s z :
  reliable s -> sound s -> 0 <= z < 256 -> Read kStateKey s = Ok [byte_of_Z z] ->
  exists s', WriteFlag bit v s = (Ok tt, s') /\ sound s' /\ Read kStateKey s' = Ok [byte_of_Z (set_bit z bit v)].
Proof.
  intros Hrel Hs Hz Hr. unfold WriteFlag, mbind, read, lift. rewrite Hr, asUint8_byte by done.
  specialize (Hrel kStateKey [byte_of_Z (set_bit z bit v)]).
  destruct (Write kStateKey [byte_of_Z (set_bit z bit v)] s) as [[[]| | |] s'] eqn:E; try done.
  exists s'. split_and!; [done|by eapply write_sound|by eapply read_written].
Qed.

Lemma payload_bool_byte b : payload_bool [bool_byte b] = Ok b.
Proof. by destruct b. Qed.

Lemma set_flag_spec request f bit l l' s b :
  reliable s -> holds s l -> Transport.payload_size request = 1 -> Transport.payload request = [bool_byte b] ->
  (bit = kAllowedByCarrierBit \/ bit = kAllowedByDeviceBit \/ bit = kOemLockedBit) ->
  l' = mkLock (if bit =? kAllowedByCarrierBit then b else by_carrier l)
         (if bit =? kAllowedByDeviceBit then b else by_device l) (if bit =? kOemLockedBit then b else locked l) ->
  exists s', get_or_set request f (Some (WriteFlag bit)) s = (Ok b, s') /\ holds s' l'.
Proof.
  intros Hrel (Hs & z & Hz & Hr & B0 & B1 & B2) Hsz Hp Hbit ->. unfold get_or_set. rewrite Hsz, Hp.
  destruct (WriteFlag_spec bit b s z Hrel Hs Hz Hr) as (s' & Ew & Hs' & Hr').
  exists s'. change (1 =? 1) with true. change (1 =? 0) with false. cbv iota. unfold mbind, lift.
  rewrite payload_bool_byte, Ew. split; [done|]. split; [done|].
  exists (set_bit z bit b). split_and!; [apply set_bit_range..|done| | |]; cbn [by_carrier by_device locked];
    rewrite bit_set_bit by (destruct Hbit as [->|[->| ->]]; cbv; split; congruence);
    (destruct (_ =? _); done).
Qed.

Lemma answer_refines request f l s :
  reliable s -> holds s l -> req_ok request -> field_of (Transport.command request) = Some f ->
  exists s', answer request s = (Ok (lock_spec f (req_of request) l).1, s') /\
    holds s' (lock_spec f (req_of request) l).2.
Proof.
  intros Hrel Hh Hq Hf. pose proof Hh as (Hs & z & Hz & Hr & B0 & B1 & B2). unfold answer. rewrite Hf.
  unfold req_of. destruct (Z.eqb_spec (Transport.payload_size request) 0) as [E0|E0].
  { exists s. unfold get_or_set. rewrite E0. cbn [Z.eqb].
    destruct f; cbn [lock_spec fst snd]; (split; [|exact Hh]);
      unfold IsOemUnlockAllowedByCarrier, IsOemUnlockAllowedByDevice, IsOemLocked; rewrite ?(ReadFlag_spec _ _ z) by done; try congruence.
    unfold IsOemUnlockAllowed, mbind, read, lift. rewrite Hr, asUint8_byte by done. unfold mret. by rewrite B0, B1. }
  destruct (Z.eqb_spec (Transport.payload_size request) 1) as [E1|E1].
  - destruct (Hq E1) as [b Hb]. rewrite Hb. assert (Ebb : (Z_of_byte (bool_byte b) =? 1) = b) by (by destruct b).
    rewrite Ebb. destruct f; cbn [lock_spec fst snd];
      [by eapply set_flag_spec; eauto|by eapply set_flag_spec; eauto| |by eapply set_flag_spec; eauto].
    exists s. unfold get_or_set. rewrite (proj2 (Z.eqb_neq _ _) E0). done.
  - exists s. unfold get_or_set. rewrite (proj2 (Z.eqb_neq _ _) E0), (proj2 (Z.eqb_neq _ _) E1).
    by destruct f; cbn [lock_spec fst snd].
Qed.

Section channel.
Context (malloc : Z -> option bytes) {R : Type} `{IO.ReadLaws R} {W : Type} `{IO.WriteLaws W}.
(** Memory is there, and as large as asked for. *)
Definition malloc_ok : Prop := forall n, 0 <= n -> exists mem, malloc n = Some mem /\ zlen mem = n.

End channel.

(** A request for an unknown field is an error and changes nothing. *)
Theorem unknown_field_refused request s :
  field_of (Transport.command request) = None -> answer request s = (Err "Unrecognized message id", s).
Proof. intros Hf. unfold answer. by rewrite Hf. Qed.

Lemma new_lock_default s s' :
  sound s -> Exists s = false -> new_OemLock s = (Ok tt, s') -> holds s' (mkLock true true false).
Proof.
  intros Hs He. unfold new_OemLock, InitializeDefaultState. rewrite He.
  destruct (Write kStateKey [byte_of_Z kDefaultState] s) as [[[]| | |] s1] eqn:E; [|done..]. intros [= <-].
  split; [by eapply write_sound|]. exists kDefaultState. split_and!; [by cbv|by cbv|by eapply read_written|done..].
Qed.
End lock.

(** ** Failure records *)
Section records.
Context {S : Type} `{StorageLaws S}.
Context (sizeof_record : Z) (record_bytes : failure_record_t -> bytes) (memcpy_record : bytes -> failure_record_t).
Hypothesis record_size : forall r, zlen (record_bytes r) = sizeof_record.
Definition in_fields (r : failure_record_t) : Prop :=
  is_u64 (secure_user_id r) /\ is_u64 (last_checked_timestamp r) /\ is_u32 (failure_counter r).
Hypothesis record_copy : forall r, in_fields r -> memcpy_record (record_bytes r) = r.
Abbreviation get_record := (GetFailureRecordImpl sizeof_record record_bytes memcpy_record).

Lemma decode_record r : in_fields r -> StorageDataToRecord sizeof_record memcpy_record (record_bytes r) = Ok r.
Proof. intros Hr. unfold StorageDataToRecord. by rewrite record_size, Z.eqb_refl, record_copy. Qed.
Lemma default_in_fields suid : is_u64 suid -> in_fields (DefaultRecord suid).
Proof. intros Hs. split; [done|]. by vm_compute. Qed.

Lemma get_stored uid r s :
  sound s -> in_fields r -> Read (to_string uid) s = Ok (record_bytes r) -> get_record uid (secure_user_id r) s = (Ok r, s).
Proof.
  intros Hs Hin Hr. unfold GetFailureRecordImpl, mbind, get, lift, read, mret. rewrite (has_read _ _ _ Hs Hr).
  cbv beta iota. rewrite Hr. cbv beta iota. by rewrite decode_record, Z.eqb_refl by done.
Qed.

(** A failure record that was written is read back, and the records of other users are as
    before. *)
Theorem failure_record_kept uid r s s' :
  sound s -> in_fields r -> WriteFailureRecordImpl record_bytes uid r s = (Ok tt, s') ->
  get_record uid (secure_user_id r) s' = (Ok r, s') /\
  forall uid' r', uid' <> uid -> in_fields r' -> Read (to_string uid') s = Ok (record_bytes r') ->
    get_record uid' (secure_user_id r') s' = (Ok r', s').
Proof.
  unfold WriteFailureRecordImpl, RecordToStorageData. intros Hs Hin Hw.
  assert (Hs' : sound s') by (by eapply write_sound). split.
  - apply get_stored; [done|done|]. exact (read_written _ _ _ _ Hs Hw).
  - intros uid' r' Hne Hin' Hr. apply get_stored; [done|done|]. apply (read_other _ _ _ _ _ _ Hs Hw); [|done].
    intros E. apply Hne. pose proof (parse_to_string uid) as P1. pose proof (parse_to_string uid') as P2. congruence.
Qed.

Lemma get_after_write uid suid s s' :
  sound s -> is_u64 suid -> Write (to_string uid) (record_bytes (DefaultRecord suid)) s = (Ok tt, s') ->
  get_record uid suid s' = (Ok (DefaultRecord suid), s').
Proof.
  intros Hs Hu Hw. apply (get_stored uid (DefaultRecord suid)); [exact (write_sound _ _ _ _ Hs Hw)|by apply default_in_fields|exact (read_written _ _ _ _ Hs Hw)].
Qed.

(** The record that reading returns is one of the secure user asked for, and reading again
    returns the same and changes nothing. *)
Theorem failure_record_stable uid suid r s s' :
  sound s -> is_u64 suid -> get_record uid suid s = (Ok r, s') ->
  secure_user_id r = suid /\ get_record uid suid s' = (Ok r, s').
Proof.
  intros Hs Hu Hg. pose proof Hg as Hg0. unfold GetFailureRecordImpl, get, RecordToStorageData in Hg.
  unfold mbind at 1 2, lift in Hg. destruct (HasKey (to_string uid) s) as [[]| | |] eqn:Ek; [| |done..].
  - unfold mbind, mret, read in Hg. destruct (Read (to_string uid) s) as [data| | |] eqn:Er; [|done..].
    destruct (StorageDataToRecord sizeof_record memcpy_record data) as [d| | |] eqn:Ed; [|done..].
    destruct (Z.eqb_spec (secure_user_id d) suid) as [Es|Es].
    + injection Hg as <- <-. done.
    + destruct (Write _ _ s) as [[[]| | |] s1] eqn:Ew; [|done..]. injection Hg as <- <-.
      split; [done|]. by eapply get_after_write.
  - unfold mbind at 1 in Hg. destruct (Write _ _ s) as [[[]| | |] s1] eqn:Ew; [|done..].
    unfold mbind, read in Hg. rewrite (read_written _ _ _ _ Hs Ew), decode_record in Hg by (by apply default_in_fields). cbn [secure_user_id DefaultRecord] in Hg.
    rewrite Z.eqb_refl in Hg. injection Hg as <- <-. split; [done|]. by eapply get_after_write.
Qed.
End records.

(** ** The storages implement the interface *)
#[global, refine] Instance json_storage_laws `{Base64} : StorageLaws JsonFile := { sound _ := True }.
Proof.
  - done.
  - intros k v s s' _. cbn. destruct (writable s); [|done]. intros [= <-]. cbn.
    by rewrite lookup_insert_eq, decode_encode.
  - intros k v s s' k' v' _. cbn. destruct (writable s); [|done]. intros [= <-] Hne. cbn.
    rewrite lookup_insert_ne by done. by destruct (root s) as [m|].
  - intros k v s s' _. cbn. destruct (writable s); [|done]. intros [= <-]. cbn.
    rewrite bool_decide_eq_true_2; [done|]. rewrite lookup_insert_eq. eauto.
  - intros k v s _. cbn. destruct (root s) as [m|]; [|done]. destruct (m !! k); [|done].
    intros _. by rewrite bool_decide_eq_true_2 by eauto.
Defined.

Section tpm_laws.
Context {T : Type} `{TpmLaws T}.

(** Distinct keys have distinct handles, all of them defined. *)
Definition index_ok (s : @TpmStorage T) : Prop :=
  NoDup (index_ s).*1 /\ NoDup (index_ s).*2 /\ forall h, h ∈ (index_ s).*2 -> is_Some (nv (tpm s) !! h).

Lemma GetHandle_elem k index h : GetHandle k index = Some h -> (k, h) ∈ index.
Proof.
  induction index as [|[k' h'] index IH]; cbn; [done|]. case_bool_decide as E; [subst; intros [= ->]; left|].
  intros Hg. right. auto.
Qed.
Lemma GetHandle_none k index : GetHandle k index = None -> k ∉ index.*1.
Proof.
  induction index as [|[k' h'] index IH]; cbn; [by intros _ ?%elem_of_nil|]. case_bool_decide as E; [done|].
  intros Hg [->|Hin]%elem_of_cons; [done|]. by apply IH.
Qed.
Lemma GetHandle_app k index k' h : GetHandle k (index ++ [(k', h)]) =
  match GetHandle k index with Some x => Some x | None => if bool_decide (k' = k) then Some h else None end.
Proof. induction index as [|[k1 h1] index IH]; cbn; [done|]. by destruct (bool_decide (k1 = k)). Qed.

Lemma handles_distinct (s : @TpmStorage T) k1 k2 h :
  index_ok s -> GetHandle k1 (index_ s) = Some h -> GetHandle k2 (index_ s) = Some h -> k1 = k2.
Proof.
  intros (_ & Hnd & _) H1%GetHandle_elem H2%GetHandle_elem.
  apply list_elem_of_lookup in H1 as [i1 H1], H2 as [i2 H2].
  assert (E : i1 = i2).
  { apply (NoDup_lookup _ i1 i2 h Hnd); by rewrite list_lookup_fmap, ?H1, ?H2. }
  subst i2. rewrite H1 in H2. by injection H2.
Qed.

(** Random handles are not in use yet, and defining them works. *)
Definition fresh_handles : Prop := forall t size,
  nv t !! fst (RandomHandle t) = None /\ fst (NV_DefineSpace (fst (RandomHandle t)) size (snd (RandomHandle t))) = RC_SUCCESS.

Lemma Allocate_spec key size (s s' : @TpmStorage T) :
  fresh_handles -> index_ok s -> Allocate key size s = (Ok tt, s') ->
  index_ok s' /\ exists h, GetHandle key (index_ s') = Some h /\ nv (tpm s) !! h = None /\
  (forall k, k <> key -> GetHandle k (index_ s') = GetHandle k (index_ s)) /\ nv (tpm s') = <[h := (size, None)]> (nv (tpm s)).
Proof.
  intros Hfresh (Hk & Hh & Hdef). unfold Allocate. destruct (GetHandle key (index_ s)) eqn:Eg; [done|].
  destruct (Hfresh (tpm s) size) as [Hnew Hdefok]. pose proof (random_nv (tpm s)) as Hrnv.
  cbn [define_loop MAX_HANDLE_ATTEMPTS]. destruct (RandomHandle (tpm s)) as [h t1]. cbn [fst snd] in *.
  pose proof (define_spec h size t1) as Hd. destruct (NV_DefineSpace h size t1) as [rc t2]. cbn in Hdefok. subst rc.
  destruct (save_ok s); [|done]. intros [= <-]. rewrite Hrnv in Hd.
  assert (Hnot : h ∉ (index_ s).*2) by (intros [x Hx]%Hdef; congruence).
  split.
  - split_and!; cbn [index_ tpm]; rewrite ?fmap_app; cbn.
    + apply NoDup_app. split_and!; [done| |apply NoDup_singleton]. intros k Hin ->%list_elem_of_singleton.
      by apply (GetHandle_none _ _ Eg).
    + apply NoDup_app. split_and!; [done| |apply NoDup_singleton]. by intros x Hin ->%list_elem_of_singleton.
    + intros x. rewrite Hd, elem_of_app, list_elem_of_singleton. intros [Hx| ->]; [|rewrite lookup_insert_eq; eauto].
      rewrite lookup_insert_ne by (intros ->; done). auto.
  - exists h. cbn [index_ tpm]. rewrite GetHandle_app, Eg, bool_decide_eq_true_2 by done.
    split_and!; [done|done| |done]. intros k Hne. rewrite GetHandle_app, (bool_decide_eq_false_2 (key = k)) by congruence.
    by destruct (GetHandle k (index_ s)).
Qed.

Lemma tpm_write_spec k v (s s' : @TpmStorage T) :
  fresh_handles -> index_ok s -> Write k v s = (Ok tt, s') ->
  index_ok s' /\ exists h size, GetHandle k (index_ s') = Some h /\ nv (tpm s') !! h = Some (size, Some v) /\
  forall k', k' <> k -> GetHandle k' (index_ s') = GetHandle k' (index_ s) /\
    forall h', GetHandle k' (index_ s) = Some h' -> nv (tpm s') !! h' = nv (tpm s) !! h'.
Proof.
  intros Hfresh Hok. cbn. unfold TpmStorage_Write, mbind at 1, get.
  assert (Hpre : forall s1, (match GetHandle k (index_ s) with None => Allocate k (u16 (zlen v)) | Some _ => mret tt end) s = (Ok tt, s1) ->
    index_ok s1 /\ exists h, GetHandle k (index_ s1) = Some h /\
    forall k', k' <> k -> GetHandle k' (index_ s1) = GetHandle k' (index_ s) /\
      forall h', GetHandle k' (index_ s) = Some h' -> nv (tpm s1) !! h' = nv (tpm s) !! h').
  { intros s1. destruct (GetHandle k (index_ s)) as [h|] eqn:Eg; [intros [= <-]; eauto 10|].
    intros (Hok1 & h & Hh & Hnone & Hk & Hnv)%Allocate_spec; [|done..]. split; [done|]. exists h. split; [done|].
    intros k' Hne. split; [auto|]. intros h' Hh'. rewrite Hnv. apply lookup_insert_ne. intros ->.
    apply GetHandle_elem, (list_elem_of_fmap_2 snd) in Hh'. destruct Hok as (_ & _ & Hd). apply Hd in Hh' as [x Hx].
    cbn in Hx. congruence. }
  unfold mbind at 1. 
  destruct ((match GetHandle k (index_ s) with None => Allocate k (u16 (zlen v)) | Some _ => mret tt end) s) as [[[]| | |] s1]; [|done..].
  destruct (Hpre s1 eq_refl) as (Hok1 & h & Hh & Hother). unfold mbind. rewrite Hh.
  pose proof (write_spec h v (tpm s1)) as Hw. destruct (NV_Write h v (tpm s1)) as [[] t]; [|done].
  destruct Hw as (size & old & Hold & Hnv). intros [= <-]. cbn [index_ tpm]. split.
  - destruct Hok1 as (K1 & K2 & K3). split_and!; [done..|]. cbn [index_ tpm]. intros h' Hh'. rewrite Hnv.
    destruct (decide (h' = h)) as [->|]; [rewrite lookup_insert_eq; eauto|rewrite lookup_insert_ne by done; auto].
  - exists h, size. rewrite Hnv, lookup_insert_eq. split_and!; [done|done|]. intros k' Hne.
    destruct (Hother k' Hne) as [Eg Hv]. split; [done|]. intros h' Hh'. rewrite <-Hv by done.
    apply lookup_insert_ne. intros ->. apply Hne. apply (handles_distinct s1 k' k h' Hok1); congruence.
Qed.

Lemma tpm_read_spec k v (s : @TpmStorage T) :
  Read k s = Ok v <-> exists h size, GetHandle k (index_ s) = Some h /\ nv (tpm s) !! h = Some (size, Some v).
Proof.
  cbn. unfold TpmStorage_Read. destruct (GetHandle k (index_ s)) as [h|]; [|naive_solver].
  pose proof (read_spec h v (tpm s)) as Hr. destruct (NV_Read h (tpm s)) as [v'|].
  - split; [intros [= ->]; destruct (proj1 Hr eq_refl) as [size E]; eauto|]. intros (h' & size & [= <-] & Hn).
    assert (Some v' = Some v) as [= ->] by (apply Hr; eauto). done.
  - split; [done|]. intros (h' & size & [= <-] & Hn). assert (None = Some v) by (apply Hr; eauto). done.
Qed.

Definition tpm_storage_laws (Hfresh : fresh_handles) : StorageLaws (@TpmStorage T).
Proof.
  refine {| sound := index_ok |}.
  - intros k v s s' Hs Hw. by apply (tpm_write_spec k v s s' Hfresh).
  - intros k v s s' Hs Hw. apply (tpm_write_spec k v s s' Hfresh) in Hw as (_ & h & size & Hh & Hn & _); [|done].
    apply tpm_read_spec. eauto.
  - intros k v s s' k' v' Hs Hw Hne. apply (tpm_write_spec k v s s' Hfresh) in Hw as (_ & h & size & _ & _ & Ho); [|done].
    destruct (Ho k' Hne) as [Eg Hv]. rewrite !tpm_read_spec, Eg.
    split; intros (h' & size' & Hh' & Hn); exists h', size'; (split; [done|]); [rewrite <-Hv|rewrite Hv]; done.
  - intros k v s s' Hs Hw. apply (tpm_write_spec k v s s' Hfresh) in Hw as (_ & h & size & Hh & _); [|done].
    cbn. by rewrite Hh.
  - intros k v s Hs (h & size & Hh & _)%tpm_read_spec. cbn. by rewrite Hh.
Defined.

(** C31. Two keys may share their storage: when the random handle drawn for a new key is the
    one of another key, defining the space fails, but the handle is entered into the index
    all the same; the write succeeds, and reading the other key then returns the new key's
    value. *)
Theorem tpm_handle_collision k1 k2 h v1 v2 (s : @TpmStorage T) :
  GetHandle k1 (index_ s) = Some h -> GetHandle k2 (index_ s) = None -> save_ok s = true ->
  fst (RandomHandle (tpm s)) = h -> nv (tpm s) !! h = Some (zlen v2, Some v1) ->
  exists s', Write k2 v2 s = (Ok tt, s') /\ Read k1 s' = Ok v2.
Proof.
  intros H1 H2 Hsave Hrand Hnv. pose proof (random_nv (tpm s)) as Hrnv.
  cbn [Write tpm_storage]. unfold TpmStorage_Write, mbind at 1, get. rewrite H2. unfold mbind at 1, Allocate. rewrite H2.
  cbn [define_loop MAX_HANDLE_ATTEMPTS]. destruct (RandomHandle (tpm s)) as [h' t1]. cbn in Hrand, Hrnv. subst h'.
  pose proof (define_used h (u16 (zlen v2)) t1) as Hused. pose proof (define_spec h (u16 (zlen v2)) t1) as Hd.
  destruct (NV_DefineSpace h (u16 (zlen v2)) t1) as [rc t2]. cbn in Hused.
  assert (Hd2 : nv t2 = nv (tpm s) /\ match rc with RC_SUCCESS => (h, t2) | _ => (h, t2) end = (h, t2)).
  { destruct rc; [|split; congruence..]. destruct Hused; [rewrite Hrnv; eauto|done]. }
  replace (match rc with RC_SUCCESS => (h, t2) | _ => (h, t2) end) with (h, t2) by (by destruct rc).
  rewrite Hsave. unfold mbind. cbn [index_ tpm saved save_ok]. rewrite GetHandle_app, H2, bool_decide_eq_true_2 by done.
  destruct Hd2 as [Hd2 _]. pose proof (write_spec h v2 t2) as Hw.
  pose proof (write_fits h v2 (zlen v2) (Some v1) t2 ltac:(by rewrite Hd2) eq_refl) as Hfit.
  cbn [index_ tpm saved save_ok]. destruct (NV_Write h v2 t2) as [ok t3]. cbn in Hfit. subst ok. destruct Hw as (size & old & _ & Hw).
  eexists. split; [done|]. apply tpm_read_spec. cbn [index_ tpm]. exists h, size.
  rewrite GetHandle_app, H1, Hw, lookup_insert_eq. done.
Qed.

(** Reading a key that is not there ends in an exception, not in an error. *)
Lemma tpm_read_missing k (s : @TpmStorage T) :
  GetHandle k (index_ s) = None -> Read k s = Fatal "bad_optional_access".
Proof. intros Hk. cbn. unfold TpmStorage_Read. by rewrite Hk. Qed.
End tpm_laws.

(** ** Examples *)
#[local] Instance plain_base64 : Base64 := { EncodeBase64 bs := bs; DecodeBase64 bs := Some bs; decode_encode bs := eq_refl }.
Definition json0 : JsonFile := mkJsonFile None true.
(** A file in which the device allows unlocking and the carrier does not. *)
Definition json1 : JsonFile := mkJsonFile (Some {[kStateKey := [byte_of_Z 2]]}) true.
Definition zeros (n : Z) : option bytes := Some (replicate (Z.to_nat n) "000"%char).

Lemma json1_holds : holds json1 (mkLock false true false).
Proof. split; [done|]. exists 2. split_and!; try done; vm_compute; reflexivity. Qed.
Lemma zeros_ok : malloc_ok zeros.
Proof. intros n Hn. eexists. split; [reflexivity|]. rewrite zlen_replicate. lia. Qed.

(** The carrier allows it over the channel. *)
Definition allow : Transport.RawMessage := Transport.mkRawMessage 0 false 1 [bool_byte true].

Lemma unknown_field_refused_witness :
  answer (Transport.mkRawMessage 7 false 0 []) json1 = (Err "Unrecognized message id", json1).
Proof. apply (unknown_field_refused (Transport.mkRawMessage 7 false 0 []) json1). reflexivity. Defined.

Definition plain_record (r : failure_record_t) : bytes :=
  le_bytes 8 (secure_user_id r) ++ le_bytes 8 (last_checked_timestamp r) ++ le_bytes 4 (failure_counter r).
Definition copy_record (bs : bytes) : failure_record_t :=
  mkRecord (le_value (ztake 8 bs)) (le_value (zslice 8 8 bs)) (le_value (zdrop 16 bs)).

Lemma plain_record_size r : zlen (plain_record r) = 20.
Proof. unfold plain_record. by rewrite !zlen_app, !zlen_le_bytes. Qed.
Lemma copy_plain_record r : in_fields r -> copy_record (plain_record r) = r.
Proof.
  intros (H1 & H2 & H3). unfold is_u64, is_u32, copy_record, plain_record in *.
  rewrite ztake_exact by apply zlen_le_bytes.
  replace (zdrop 16 _) with (le_bytes 4 (failure_counter r)).
  2:{ rewrite app_assoc. symmetry. apply zdrop_exact. by rewrite zlen_app, !zlen_le_bytes. }
  unfold zslice. rewrite zdrop_exact, ztake_exact by apply zlen_le_bytes.
  rewrite !le_value_bytes by (cbn; lia). by destruct r.
Qed.

Definition failed_once : failure_record_t := mkRecord 5 1000 1.
Definition json2 : JsonFile := snd (WriteFailureRecordImpl plain_record 10 failed_once json0).
Lemma failure_record_kept_witness :
  GetFailureRecordImpl 20 plain_record copy_record 10 5 json2 = (Ok failed_once, json2).
Proof.
  apply (failure_record_kept 20 plain_record copy_record plain_record_size copy_plain_record 10 failed_once json0 json2).
  - exact I.
  - by vm_compute.
  - vm_compute. reflexivity.
Defined.
Lemma failure_record_stable_witness :
  GetFailureRecordImpl 20 plain_record copy_record 10 6 (snd (GetFailureRecordImpl 20 plain_record copy_record 10 6 json2)) =
    (Ok (DefaultRecord 6), snd (GetFailureRecordImpl 20 plain_record copy_record 10 6 json2)).
Proof.
  apply (failure_record_stable 20 plain_record copy_record plain_record_size copy_plain_record 10 6 (DefaultRecord 6) json2).
  - exact I.
  - by vm_compute.
  - vm_compute. reflexivity.
Defined.

(** A TPM as a map and the handles that it will draw. *)
Record NvRam := mkNvRam { cells : gmap Z (Z * option bytes); draws : list Z }.
#[local] Instance nvram : Tpm NvRam := {
  NV_DefineSpace h size t := match cells t !! h with
                             | Some _ => (RC_NV_DEFINED, t)
                             | None => (RC_SUCCESS, mkNvRam (<[h := (size, None)]> (cells t)) (draws t))
                             end;
  NV_Read h t := match cells t !! h with Some (_, Some v) => Some v | _ => None end;
  NV_Write h v t := match cells t !! h with
                    | Some (size, _) => if zlen v =? size then (true, mkNvRam (<[h := (size, Some v)]> (cells t)) (draws t)) else (false, t)
                    | None => (false, t)
                    end;
  RandomHandle t := match draws t with h :: l => (h, mkNvRam (cells t) l) | [] => (0, t) end
}.
#[local, refine] Instance nvram_laws : TpmLaws NvRam := { nv := cells }.
Proof.
  - intros h size t [x Hx]. cbn. by rewrite Hx.
  - intros h size t. cbn. by destruct (cells t !! h).
  - intros h v t. cbn. destruct (cells t !! h) as [[size [v'|]]|]; naive_solver.
  - intros h v t. cbn. destruct (cells t !! h) as [[size old]|]; [|done]. destruct (zlen v =? size); cbn; eauto.
  - intros h v size old t Hh <-. cbn. by rewrite Hh, Z.eqb_refl.
  - intros t. cbn. by destruct (draws t).
Defined.

(** The same handle is drawn for two users. *)
Definition two_users : @TpmStorage NvRam :=
  snd (Write (str "10") (str "one failure") (mkTpmStorage [] (mkNvRam ∅ [5; 5]) false true)).
Lemma tpm_handle_collision_witness : exists s',
  Write (str "11") (str "no failures") two_users = (Ok tt, s') /\ Read (str "10") s' = Ok (str "no failures").
Proof.
  apply (tpm_handle_collision (str "10") (str "11") 5 (str "one failure") (str "no failures") two_users);
    vm_compute; reflexivity.
Defined.
End SecureEnv.
