(* ===== verification/InstanceNums.v ===== *)
(** * The ids of the devices to launch (host/libs/config)

    instance_nums.cpp: [InstanceNumsCalculator] works out the ids from the
    flags of the launcher, and config_utils.cpp from the environment.  The same
    flags are read by cvd itself (cvd/cli/selector/num_instances_parser.cpp,
    file Selector): [calculator_agrees] relates the two. *)
From S2P Require Import Prelude CppString Flags GflagsCompat ModemCommand Selector.

Module InstanceNums.
Import CppString Flags GflagsCompat.

(** [a + b] on [int]. *)
Definition add_i32 (a b : Z) : result Z :=
  if in_i32 (a + b) then Ok (a + b) else Fatal "signed overflow".

(** ** config_utils.cpp *)
Definition kCuttlefishInstanceEnvVarName : bytes := str "CUTTLEFISH_INSTANCE".
Definition kVsocUserPrefix : bytes := str "vsoc-".
Definition kCvdNamePrefix : bytes := str "cvd-".
Definition kDefaultInstance : Z := 1.

Section environment.
Context `{Absl}.

Definition InstanceFromString (instance_str : bytes) : result Z :=
  let instance_str :=
    if StartsWith instance_str kVsocUserPrefix then zdrop (zlen kVsocUserPrefix) instance_str
    else if StartsWith instance_str kCvdNamePrefix then zdrop (zlen kCvdNamePrefix) instance_str
    else instance_str in
  let* instance := ModemCommand.stoi instance_str in
  Ok (if instance <=? 0 then kDefaultInstance else instance).

(** [getenv] is that of the process. *)
Definition StringFromEnv (getenv : bytes -> option bytes) (varname defval : bytes) : bytes :=
  default defval (getenv varname).

Definition InstanceFromEnvironment (getenv : bytes -> option bytes) : result Z :=
  let instance_str := StringFromEnv getenv kCuttlefishInstanceEnvVarName [] in
  if bool_decide (instance_str = []) then
    let instance_str := StringFromEnv getenv (str "USER") [] in
    if bool_decide (instance_str = []) then Ok kDefaultInstance
    else if negb (StartsWith instance_str kVsocUserPrefix) then Ok kDefaultInstance
    else InstanceFromString instance_str
  else InstanceFromString instance_str.

(** [static int instance_id] keeps the answer of the first call; what it is
    computed from is the environment of that call. *)
Definition GetInstance (getenv : bytes -> option bytes) : result Z := InstanceFromEnvironment getenv.
Definition GetDefaultVsockCid (getenv : bytes -> option bytes) : result Z :=
  let* instance := GetInstance getenv in
  let* n := add_i32 3 instance in add_i32 n (-1).
Definition GetVsockServerPort (base vsock_guest_cid : Z) : result Z :=
  let* d := add_i32 vsock_guest_cid (-3) in add_i32 base d.
(** [std::setfill('0') << std::setw(2)]. *)
Definition pad2 (n : bytes) : bytes := if zlen n <? 2 then replicate (Z.to_nat (2 - zlen n)) "0"%char ++ n else n.
Definition ForCurrentInstance (getenv : bytes -> option bytes) (prefix : bytes) : result bytes :=
  let* instance := GetInstance getenv in Ok (prefix ++ pad2 (to_string instance)).
End environment.

(** ** instance_nums.cpp *)
Record InstanceNumsCalculator := mkCalculator {
  setter_result_ : result unit;
  base_instance_num_ : option Z;
  num_instances_ : option Z;
  instance_nums_ : list Z
}.
Definition new_calculator : InstanceNumsCalculator := mkCalculator (Ok tt) None None [].
Definition set_base (v : option Z) (c : InstanceNumsCalculator) : InstanceNumsCalculator :=
  mkCalculator (setter_result_ c) v (num_instances_ c) (instance_nums_ c).
Definition set_num (v : option Z) (c : InstanceNumsCalculator) : InstanceNumsCalculator :=
  mkCalculator (setter_result_ c) (base_instance_num_ c) v (instance_nums_ c).
Definition set_nums (v : list Z) (c : InstanceNumsCalculator) : InstanceNumsCalculator :=
  mkCalculator (setter_result_ c) (base_instance_num_ c) (num_instances_ c) v.

(** [setter_result_.error() = ...] refers to the error of [setter_result_],
    which is only there when [setter_result_] holds one: tl::expected leaves
    [error()] of a value undefined. *)
Definition TrySet {T} (set : T -> InstanceNumsCalculator -> InstanceNumsCalculator) (r : result T)
    (c : InstanceNumsCalculator) : result InstanceNumsCalculator :=
  match r with
  | Ok v => Ok (set v c)
  | Err m =>
      match setter_result_ c with
      | Err _ => Ok (mkCalculator (Err m) (base_instance_num_ c) (num_instances_ c) (instance_nums_ c))
      | _ => Fatal "tl::expected::error() of a value"
      end
  | fl => fail_as fl
  end.

Section parsing.
Context `{Absl} (moved_from : bytes -> bytes).

(** [ConsumeFlags({flag}, flags)] on a flag for the local variable [value]. *)
Definition consume_one {T} (flag : result (Flag T)) (value : T) (flags : list bytes)
    : result T * list bytes :=
  match flag with
  | Ok flag =>
      match ConsumeFlags moved_from [flag] (mkOpts false false) (value, flags) with
      | (Ok _, (value, flags)) => (Ok value, flags)
      | (fl, (_, flags)) => (fail_as fl, flags)
      end
  | fl => (fail_as fl, flags)
  end.
Definition variable (T : Type) : ref T T := mkRef (fun v => v) (fun v _ => v).
Definition positive (r : result Z) : result (option Z) :=
  let* value := r in Ok (if 0 <? value then Some value else None).

Definition ParseBaseInstanceFlag (flags : list bytes) : result (option Z) * list bytes :=
  let '(r, flags) := consume_one (GflagsCompatFlag_int int32_t (str "base_instance_num") (variable Z)) (-1) flags in
  (positive r, flags).
Definition ParseNumInstancesFlag (flags : list bytes) : result (option Z) * list bytes :=
  let '(r, flags) := consume_one (GflagsCompatFlag_int int32_t (str "num_instances") (variable Z)) (-1) flags in
  (positive r, flags).

(** The loop of [ParseInstanceNums]; [seen] is [duplication_check_set]. *)
Fixpoint parse_nums (seen : gset Z) (split_str : list bytes) : result (list Z) :=
  match split_str with
  | [] => Ok []
  | instance_num_str :: split_str =>
      let '(ok, instance_num) := SimpleAtoi (int_min int32_t) (int_max int32_t) instance_num_str in
      let* _ := expect ok "Unable to parse" in
      let* _ := expect (negb (bool_decide (instance_num ∈ seen))) "is duplicated in -instance_nums flag." in
      let* rest := parse_nums ({[instance_num]} ∪ seen) split_str in
      Ok (instance_num :: rest)
  end.
Definition ParseInstanceNums (instance_nums_str : bytes) : result (list Z) :=
  if bool_decide (instance_nums_str = []) then Ok []
  else parse_nums ∅ (StrSplit instance_nums_str ","%char).

Definition ParseInstanceNumsFlag (flags : list bytes) : result (list Z) * list bytes :=
  let '(r, flags) := consume_one (GflagsCompatFlag_string (str "instance_nums") (variable bytes)) [] flags in
  (let* value := r in if bool_decide (value = []) then Ok [] else ParseInstanceNums value, flags).

Definition FromFlags (flags : list bytes) (c : InstanceNumsCalculator) : result InstanceNumsCalculator :=
  let '(base, flags_copy) := ParseBaseInstanceFlag flags in
  let* c := TrySet set_base base c in
  let '(num, flags_copy) := ParseNumInstancesFlag flags_copy in
  let* c := TrySet set_num num c in
  let '(nums, _) := ParseInstanceNumsFlag flags_copy in
  TrySet set_nums nums c.

(** What gflags knows of a flag: its type, its value as text, and whether it
    was left at its default. *)
Record CommandLineFlagInfo := mkInfo { type : bytes; current_value : bytes; is_default : bool }.

(** [std::atoi]: 0 where there is no number, undefined where it does not fit. *)
Definition atoi (s : bytes) : result Z :=
  match ModemCommand.strtol 10 s with
  | None => Ok 0
  | Some (v, erange) => if erange || negb (in_i32 v) then Fatal "std::atoi out of range" else Ok v
  end.

Definition gflags_int (info : option CommandLineFlagInfo) : result (option Z) :=
  match info with
  | None => Ok None
  | Some info =>
      if is_default info then Ok None
      else let* _ := expect (bool_decide (type info = str "int32")) "info.type" in
           let* v := atoi (current_value info) in Ok (Some v)
  end.
Definition GflagsBaseInstanceFlag (info_of : bytes -> option CommandLineFlagInfo) : result (option Z) :=
  gflags_int (info_of (str "base_instance_num")).
Definition GflagsNumInstancesFlag (info_of : bytes -> option CommandLineFlagInfo) : result (option Z) :=
  gflags_int (info_of (str "num_instances")).
Definition GflagsInstanceNumsFlag (info_of : bytes -> option CommandLineFlagInfo) : result (list Z) :=
  match info_of (str "instance_nums") with
  | None => Ok []
  | Some info =>
      if is_default info then Ok []
      else let* _ := expect (bool_decide (type info = str "string")) "info.type" in
           ParseInstanceNums (current_value info)
  end.

Definition FromGlobalGflags (info_of : bytes -> option CommandLineFlagInfo) (c : InstanceNumsCalculator)
    : result InstanceNumsCalculator :=
  let* c := TrySet set_base (GflagsBaseInstanceFlag info_of) c in
  let* c := TrySet set_num (GflagsNumInstancesFlag info_of) c in
  TrySet set_nums (GflagsInstanceNumsFlag info_of) c.

Definition BaseInstanceNum (num : Z) (c : InstanceNumsCalculator) : InstanceNumsCalculator := set_base (Some num) c.
Definition NumInstances (num : Z) (c : InstanceNumsCalculator) : InstanceNumsCalculator := set_num (Some num) c.
Definition InstanceNums_string (nums : bytes) (c : InstanceNumsCalculator) : result InstanceNumsCalculator :=
  TrySet set_nums (ParseInstanceNums nums) c.
Definition InstanceNums_vector (nums : list Z) (c : InstanceNumsCalculator) : InstanceNumsCalculator := set_nums nums c.
End parsing.

(** [for (int i = 0; i < n; i++) instance_nums.push_back(i + base);] *)
Fixpoint push_ids (offsets : list Z) (base : Z) : result (list Z) :=
  match offsets with
  | [] => Ok []
  | i :: offsets => let* n := add_i32 i base in let* ns := push_ids offsets base in Ok (n :: ns)
  end.
Definition consecutive (n base : Z) : result (list Z) := push_ids (seqZ 0 n) base.

Definition CalculateFromFlags (c : InstanceNumsCalculator) : result (list Z) :=
  let* _ := setter_result_ c in
  let instance_nums_opt := if bool_decide (instance_nums_ c = []) then None else Some (instance_nums_ c) in
  let* _ := expect (negb (bool_decide (is_Some instance_nums_opt) && bool_decide (is_Some (base_instance_num_ c))))
              "InstanceNums and BaseInstanceNum are mutually exclusive" in
  let* _ := expect (bool_decide (is_Some instance_nums_opt) || bool_decide (is_Some (base_instance_num_ c)))
              "At least one of --instance_nums or --base_instance_num should be given" in
  match instance_nums_opt, base_instance_num_ c with
  | Some _, _ =>
      let* _ := match num_instances_ c with
                | Some n => expect (zlen (instance_nums_ c) =? u64 n) "instance_nums_.size() == *num_instances_"
                | None => Ok tt
                end in
      let* _ := expect (negb (bool_decide (instance_nums_ c = []))) "no instance nums" in
      Ok (instance_nums_ c)
  | None, Some base => consecutive (default 1 (num_instances_ c)) base
  | None, None => Fatal "bad_optional_access"
  end.

(** [GetInstance()] is called once per id, and not at all without any. *)
Definition Calculate (instance : result Z) (c : InstanceNumsCalculator) : result (list Z) :=
  let* _ := setter_result_ c in
  if negb (bool_decide (instance_nums_ c = [])) || bool_decide (is_Some (base_instance_num_ c))
  then CalculateFromFlags c
  else
    let n := default 1 (num_instances_ c) in
    let* instance_nums := (if n <=? 0 then Ok [] else let* i := instance in consecutive n i) in
    let* _ := expect (negb (bool_decide (instance_nums = []))) "no instance nums" in
    Ok instance_nums.

(** ** Consecutive ids *)
Lemma push_ids_ok l base ns : push_ids l base = Ok ns -> ns = (fun i => i + base) <$> l.
Proof.
  revert ns. induction l as [|i l IH]; intros ns; cbn [push_ids]; [intros [= <-]; done|].
  rewrite rbind_ok. intros (n & Hn & (ns' & Hns & [= <-])%rbind_ok).
  unfold add_i32 in Hn. case_match; [|done]. simplify_eq. by rewrite (IH ns' Hns).
Qed.
Lemma push_ids_fits l base :
  Forall (fun i => in_i32 (i + base) = true) l -> push_ids l base = Ok ((fun i => i + base) <$> l).
Proof.
  induction 1 as [|i l Hi _ IH]; [done|]. cbn [push_ids]. unfold add_i32. rewrite Hi. cbn [rbind]. by rewrite IH.
Qed.
Lemma shift_seqZ n base : (fun i => i + base) <$> seqZ 0 n = seqZ base n.
Proof.
  trans (Z.add base <$> seqZ 0 n); [apply list_fmap_ext; intros; lia|]. by rewrite fmap_add_seqZ, Z.add_0_r.
Qed.
Lemma consecutive_ok n base l : consecutive n base = Ok l -> l = seqZ base n.
Proof. intros H%push_ids_ok. by rewrite shift_seqZ in H. Qed.
Lemma consecutive_fits n base :
  - 2 ^ 31 <= base -> base + n <= 2 ^ 31 -> consecutive n base = Ok (seqZ base n).
Proof.
  intros H1 H2. unfold consecutive. rewrite push_ids_fits, shift_seqZ; [done|].
  apply Forall_forall. intros i [Hi ?]%elem_of_seqZ. unfold in_i32. lia.
Qed.

(** ** Lists of ids as text *)
Section text.
Context `{Absl}.
Definition id_ok (z : Z) : Prop := int_min int32_t <= z <= int_max int32_t.

Lemma parse_nums_sound seen pieces l :
  parse_nums seen pieces = Ok l -> NoDup l /\ Forall (fun z => id_ok z /\ (z ∉ seen)) l.
Proof.
  revert seen l. induction pieces as [|p pieces IH]; intros seen l; cbn [parse_nums].
  { intros [= <-]. split; constructor. }
  destruct (SimpleAtoi _ _ p) as [ok z] eqn:Ea. rewrite rbind_expect_ok. intros [-> Hr].
  rewrite rbind_expect_ok in Hr. destruct Hr as [Hz%negb_true_iff%bool_decide_eq_false Hr].
  rewrite rbind_ok in Hr. destruct Hr as (rest & Hrest & [= <-]). apply IH in Hrest as [Hnd Hall].
  rewrite Forall_forall in Hall. split.
  - constructor; [|done]. intros [_ Hs]%Hall. set_solver.
  - constructor; [split; [by apply SimpleAtoi_range in Ea|done]|]. apply Forall_forall.
    intros y [Hy Hs]%Hall. split; [done|]. set_solver.
Qed.
Lemma parse_nums_print seen l :
  NoDup l -> Forall (fun z => id_ok z /\ (z ∉ seen)) l -> parse_nums seen (to_string <$> l) = Ok l.
Proof.
  revert seen. induction l as [|z l IH]; intros seen Hnd Hall; [done|].
  apply NoDup_cons in Hnd as [Hz Hnd]. apply Forall_cons in Hall as [[Hok Hs] Hall].
  rewrite fmap_cons. cbn [parse_nums]. rewrite SimpleAtoi_print by done. cbn [expect rbind].
  rewrite bool_decide_eq_false_2 by done. cbn [negb expect rbind]. rewrite IH; [done..|].
  rewrite Forall_forall in Hall |- *. intros y Hy. destruct (Hall y Hy) as [Hy1 Hy2]. split; [done|]. set_solver.
Qed.

Definition print_ids (l : list Z) : bytes := join (str ",") (to_string <$> l).
Lemma to_string_ne z : to_string z <> [].
Proof. intros Hn. pose proof (parse_to_string z) as Hx. by rewrite Hn in Hx. Qed.
Lemma print_ids_ne z l : print_ids (z :: l) <> [].
Proof.
  unfold print_ids. rewrite fmap_cons. destruct l as [|y l]; [apply to_string_ne|].
  rewrite fmap_cons, join_cons by done. intros [Hn _]%app_eq_nil. by apply to_string_ne in Hn.
Qed.
Lemma split_print_ids l : l <> [] -> Forall id_ok l -> StrSplit (print_ids l) ","%char = to_string <$> l.
Proof.
  intros Hne Hok. rewrite StrSplit_unique. unfold print_ids. change (str ",") with [","%char].
  apply split_on_join; [by destruct l|]. apply Forall_fmap. eapply Forall_impl; [exact Hok|].
  intros z Hz. destruct (to_string_element int32_t z Hz) as (_ & Hc & _). cbn in Hc. by rewrite fmt_int_spec in Hc.
Qed.
Lemma ParseInstanceNums_print l : NoDup l -> Forall id_ok l -> ParseInstanceNums (print_ids l) = Ok l.
Proof.
  intros Hnd Hok. unfold ParseInstanceNums. destruct l as [|z l]; [done|].
  rewrite bool_decide_eq_false_2 by apply print_ids_ne. rewrite split_print_ids by done.
  apply parse_nums_print; [done|]. eapply Forall_impl; [exact Hok|]. intros y Hy. split; [done|]. set_solver.
Qed.
Lemma ParseInstanceNums_sound s l : ParseInstanceNums s = Ok l -> NoDup l /\ Forall id_ok l.
Proof.
  unfold ParseInstanceNums. case_bool_decide; [intros [= <-]; split; constructor|].
  intros [Hnd Hall]%parse_nums_sound. split; [done|]. eapply Forall_impl; [exact Hall|]. naive_solver.
Qed.
End text.

(** ** Sequences of setters *)
Inductive SetterOp :=
| Setter_flags (flags : list bytes)
| Setter_gflags (info_of : bytes -> option CommandLineFlagInfo)
| Setter_base (num : Z)
| Setter_num (num : Z)
| Setter_string (nums : bytes)
| Setter_vector (nums : list Z).

Section setters.
Context `{Absl} (moved_from : bytes -> bytes).

Definition run_setter (o : SetterOp) (c : InstanceNumsCalculator) : result InstanceNumsCalculator :=
  match o with
  | Setter_flags flags => FromFlags moved_from flags c
  | Setter_gflags info_of => FromGlobalGflags info_of c
  | Setter_base num => Ok (BaseInstanceNum num c)
  | Setter_num num => Ok (NumInstances num c)
  | Setter_string nums => InstanceNums_string nums c
  | Setter_vector nums => Ok (InstanceNums_vector nums c)
  end.
Fixpoint run_setters (ops : list SetterOp) (c : InstanceNumsCalculator) : result InstanceNumsCalculator :=
  match ops with
  | [] => Ok c
  | o :: ops => let* c := run_setter o c in run_setters ops c
  end.

Definition calculator_ok (c : InstanceNumsCalculator) : Prop :=
  setter_result_ c = Ok tt /\ NoDup (instance_nums_ c).
(** A value, never an error: what fails is undefined. *)
Definition settled (r : result InstanceNumsCalculator) : Prop :=
  match r with Ok c => calculator_ok c | Err _ => False | _ => True end.
Lemma settled_bind r k :
  settled r -> (forall c, calculator_ok c -> settled (k c)) -> settled (let* c := r in k c).
Proof. destruct r; cbn; auto. Qed.

Lemma TrySet_settled {T} (set : T -> InstanceNumsCalculator -> InstanceNumsCalculator) r c :
  (forall v, r = Ok v -> calculator_ok (set v c)) -> calculator_ok c -> settled (TrySet set r c).
Proof. intros Hset [Hs Hn]. unfold TrySet. destruct r; cbn; [auto|by rewrite Hs|done..]. Qed.
Lemma TrySet_fails {T} (set : T -> InstanceNumsCalculator -> InstanceNumsCalculator) m c :
  calculator_ok c -> TrySet set (Err m) c = Fatal "tl::expected::error() of a value".
Proof. intros [Hs _]. unfold TrySet. by rewrite Hs. Qed.

Lemma set_base_ok v c : calculator_ok c -> calculator_ok (set_base v c).
Proof. done. Qed.
Lemma set_num_ok v c : calculator_ok c -> calculator_ok (set_num v c).
Proof. done. Qed.
Lemma set_nums_ok v c : NoDup v -> calculator_ok c -> calculator_ok (set_nums v c).
Proof. by intros Hv [Hs _]. Qed.
#[local] Hint Resolve set_base_ok set_num_ok set_nums_ok TrySet_settled : core.

Lemma parse_flag_distinct flags v flags' : ParseInstanceNumsFlag moved_from flags = (Ok v, flags') -> NoDup v.
Proof.
  unfold ParseInstanceNumsFlag. destruct (consume_one _ _ _ _) as [[value| | |] ?]; cbn [rbind]; try done.
  case_bool_decide; [intros [= <- _]; constructor|]. intros [= Hp _]. by apply ParseInstanceNums_sound in Hp as [Hp _].
Qed.
Lemma gflags_distinct info_of v : GflagsInstanceNumsFlag info_of = Ok v -> NoDup v.
Proof.
  unfold GflagsInstanceNumsFlag. destruct (info_of _) as [info|]; [|intros [= <-]; constructor].
  destruct (is_default info); [intros [= <-]; constructor|].
  rewrite rbind_expect_ok. intros [_ Hp]. by apply ParseInstanceNums_sound in Hp as [Hp _].
Qed.

Definition is_vector (o : SetterOp) : bool := match o with Setter_vector _ => true | _ => false end.
Lemma run_setter_settled o c : is_vector o = false -> calculator_ok c -> settled (run_setter o c).
Proof.
  intros Ho Hc. destruct o; try done; cbn [run_setter].
  - unfold FromFlags. destruct (ParseBaseInstanceFlag _ _) as [base f1]. apply settled_bind; [apply TrySet_settled; by auto|].
    intros c1 Hc1. destruct (ParseNumInstancesFlag _ _) as [num f2]. apply settled_bind; [apply TrySet_settled; by auto|].
    intros c2 Hc2. destruct (ParseInstanceNumsFlag _ _) as [nums f3] eqn:E. apply TrySet_settled; [|done].
    intros v ->. apply set_nums_ok; [|done]. by eapply parse_flag_distinct.
  - unfold FromGlobalGflags. apply settled_bind; [apply TrySet_settled; by auto|]. intros c1 Hc1. apply settled_bind; [apply TrySet_settled; by auto|].
    intros c2 Hc2. apply TrySet_settled; [|done]. intros v Hv. apply set_nums_ok; [|done]. by eapply gflags_distinct.
  - apply TrySet_settled; [|done]. intros v [Hv _]%ParseInstanceNums_sound. by apply set_nums_ok.
Qed.
End setters.

(** However the setters of the calculator are called, the result they are to keep for
    later is a success: no error that a setter meets is ever reported by [Calculate]. The
    ids read from text are distinct. *)
Theorem setters_never_report `{Absl} (moved_from : bytes -> bytes) (ops : list SetterOp) :
  Forall (fun o => is_vector o = false) ops ->
  match run_setters moved_from ops new_calculator with
  | Ok c => setter_result_ c = Ok tt /\ NoDup (instance_nums_ c)
  | Err _ => False
  | _ => True
  end.
Proof.
  intros Hops. change (settled (run_setters moved_from ops new_calculator)).
  assert (Hc : calculator_ok new_calculator) by (split; [done|constructor]).
  generalize dependent new_calculator. induction Hops as [|o ops Ho _ IH]; intros c Hc; cbn [run_setters]; [done|].
  apply settled_bind; [by apply run_setter_settled|auto].
Qed.

(** A list of ids that cannot be parsed makes the setter refer to the error of a result
    that holds a value, which is undefined behaviour, instead of keeping the error. *)
Theorem malformed_ids_undefined `{Absl} (nums : bytes) m c :
  ParseInstanceNums nums = Err m -> setter_result_ c = Ok tt ->
  InstanceNums_string nums c = Fatal "tl::expected::error() of a value".
Proof. intros Hp Hs. unfold InstanceNums_string, TrySet. by rewrite Hp, Hs. Qed.

(** The ids of the devices to launch are distinct and are either the list that was given,
    or consecutive numbers from the base that was given or, without one, from the instance
    of the environment; in the last case there is at least one. *)
Theorem calculated_ids (instance : result Z) (c : InstanceNumsCalculator) l :
  NoDup (instance_nums_ c) -> Calculate instance c = Ok l ->
  NoDup l /\
  ((instance_nums_ c <> [] /\ base_instance_num_ c = None /\ l = instance_nums_ c) \/
   (exists base, instance_nums_ c = [] /\ l = seqZ base (default 1 (num_instances_ c)) /\
      (base_instance_num_ c = Some base \/ (base_instance_num_ c = None /\ instance = Ok base /\ l <> [])))).
Proof.
  intros Hnd. unfold Calculate, CalculateFromFlags. rewrite rbind_ok. intros (u & -> & Hl).
  destruct (instance_nums_ c) as [|z zs] eqn:En.
  - rewrite (bool_decide_eq_true_2 ([] = [])) in Hl by done. cbn [negb orb] in Hl.
    destruct (base_instance_num_ c) as [base|].
    + cbn in Hl. apply consecutive_ok in Hl. subst l. split; [apply NoDup_seqZ|]. right. exists base. auto.
    + rewrite bool_decide_eq_false_2 in Hl by (by intros [? ?]).
      rewrite rbind_ok in Hl. destruct Hl as (ns & Hns & Hl). rewrite rbind_expect_ok in Hl.
      destruct Hl as [Hne%negb_true_iff%bool_decide_eq_false [= <-]].
      case_match; [by simplify_eq|]. rewrite rbind_ok in Hns. destruct Hns as (i & Hi & Hns%consecutive_ok). subst ns.
      split; [apply NoDup_seqZ|]. right. exists i. auto 6.
  - rewrite (bool_decide_eq_false_2 (z :: zs = [])) in Hl by done. cbn [negb orb is_Some] in Hl.
    destruct (base_instance_num_ c) as [base|]; [done|]. cbn in Hl.
    rewrite rbind_ok in Hl. destruct Hl as (v & _ & [= <-]). split; [done|]. left. done.
Qed.

(** What cvd's own parser of the same flags holds, as a calculator. *)
Definition calculator_of (p : Selector.NumInstancesParser) : InstanceNumsCalculator :=
  mkCalculator (Ok tt) (Selector.base_instance_num_ p) (Selector.num_instances_ p)
    (default [] (Selector.instance_nums_ p)).

Lemma check_distinct_ok l : Selector.check_distinct [] l = Ok tt.
Proof. induction l as [|n l IH]; [done|]. cbn [Selector.check_distinct]. by rewrite bool_decide_false by apply not_elem_of_nil. Qed.


(** ** The command line *)
Section command_line.
Context `{Absl} (moved_from : bytes -> bytes).

(** An argument that is not a flag at all. *)
Definition plain (arg : bytes) : Prop := starts_with [dash] arg = false.
Lemma plain_match {S} (flag : Flag S) arg rest s : style_ flag = Style_String -> plain arg -> Match flag arg rest s = (Ok 0, s).
Proof.
  intros Hst Ha. unfold Match, MatchStringStyleFlag. rewrite Hst. unfold ConsumeDashes.
  by rewrite ConsumePrefix_spec, Ha.
Qed.

Lemma normalize_cons c v : normalize (c :: v) = (if bool_decide (c = dash) then underscore else c) :: normalize v.
Proof. done. Qed.
(** A flag whose name starts with another letter is another flag. *)
Lemma other_match {S} (flag : Flag S) d name c text rest s :
  style_ flag = Style_String -> aliases_ flag = [d :: name] ->
  c <> dash -> d <> dash -> c <> d ->
  Match flag (str "--" ++ c :: text) rest s = (Ok 0, s).
Proof.
  intros Hst Hal Hc Hd Hcd. unfold Match, MatchStringStyleFlag. rewrite Hst, Hal.
  rewrite ConsumeDashes_spec; [|by right|cbn; by rewrite bool_decide_eq_false_2]. cbn [negb match_assignment match_following].
  unfold matches_assignment.
  assert (Hz : ztake (zlen (d :: name) + 1) (c :: text) = c :: ztake (zlen (d :: name)) text).
  { cbn [ztake]. rewrite (proj2 (Z.leb_gt _ _)) by (pose proof (zlen_nonneg (d :: name)); lia). f_equal. f_equal. lia. }
  rewrite Hz, !MatchNormalized_spec, !(bool_decide_eq_false_2 (normalize _ = normalize _)); [done|..];
    cbn [app]; rewrite !normalize_cons, !(bool_decide_eq_false_2 (_ = dash)) by done; congruence.
Qed.

(** One string flag among arguments of which it takes one. *)
Section one_flag.
Context {T : Type} (flag : Flag T) (name : bytes).
Hypothesis (Hst : style_ flag = Style_String) (Hal : aliases_ flag = [name]).
Definition skips (arg : bytes) : Prop := forall rest s, Match flag arg rest s = (Ok 0, s).

Lemma consume_list_skips args s : Forall skips args -> consume_list [flag] (mkOpts false false) args s = (Ok tt, s, args, []).
Proof.
  induction 1 as [|arg args Ha _ IH]; [done|]. cbn [consume_list match_flags]. unfold mbind. rewrite Ha. cbn.
  by rewrite IH.
Qed.
Lemma consume_list_hit pre hit post s s' :
  Forall skips pre -> Forall skips post -> (forall rest, Match flag hit rest s = (Ok 1, s')) ->
  consume_list [flag] (mkOpts false false) (pre ++ hit :: post) s = (Ok tt, s', pre ++ post, []).
Proof.
  intros Hpre Hpost Hhit. induction Hpre as [|arg pre Ha _ IH]; cbn [app consume_list match_flags]; unfold mbind.
  - rewrite Hhit. cbn. by apply consume_list_skips.
  - rewrite Ha. cbn. by rewrite IH.
Qed.

Lemma consume_one_list args s s' kept :
  zlen args < 2 ^ 64 -> consume_list [flag] (mkOpts false false) args s = (Ok tt, s', kept, []) ->
  consume_one moved_from (Ok flag) s args = (Ok s', kept).
Proof.
  intros Hlen Hr. unfold consume_one. rewrite ConsumeFlags_loop by done. unfold consume_spec.
  replace ([flag] ≫= aliases_) with [name] by (cbn; by rewrite Hal).
  cbn [check_aliases]. rewrite bool_decide_eq_false_2 by apply not_elem_of_nil. cbn [negb expect rbind].
  change (before_dashes (mkOpts false false) args) with args. change (after_dashes (mkOpts false false) args) with (@nil bytes).
  rewrite Hr. cbn [tail]. by rewrite app_nil_r.
Qed.
Lemma consume_one_skips args s :
  zlen args < 2 ^ 64 -> Forall skips args -> consume_one moved_from (Ok flag) s args = (Ok s, args).
Proof. intros Hlen Ha. apply consume_one_list; [done|]. by apply consume_list_skips. Qed.
Lemma consume_one_hit pre hit post s s' :
  zlen (pre ++ hit :: post) < 2 ^ 64 ->
  Forall skips pre -> Forall skips post -> (forall rest, Match flag hit rest s = (Ok 1, s')) ->
  consume_one moved_from (Ok flag) s (pre ++ hit :: post) = (Ok s', pre ++ post).
Proof. intros Hlen H1 H2 H3. apply consume_one_list; [done|]. by apply consume_list_hit. Qed.
End one_flag.

Lemma int_flag t name : starts_with [dash] name = false ->
  exists f, GflagsCompatFlag_int t name (variable Z) = Ok f /\ style_ f = Style_String /\ aliases_ f = [name].
Proof.
  intros Hn. unfold GflagsCompatFlag_int, StringFlag, Flag_, ValidateAlias. rewrite Hn. cbn [negb check rbind].
  rewrite bool_decide_eq_false_2 by apply not_elem_of_nil. eexists. by split_and!.
Qed.
Lemma string_flag name : starts_with [dash] name = false -> name <> [] ->
  exists f, GflagsCompatFlag_string name (variable bytes) = Ok f /\ style_ f = Style_String /\ aliases_ f = [name] /\
    forall value rest s, Match f (str "--" ++ name ++ str "=" ++ value) rest s = (Ok 1, value).
Proof.
  intros Hn Hne. unfold GflagsCompatFlag_string, StringFlag, Flag_, ValidateAlias. rewrite Hn. cbn [negb check rbind].
  rewrite bool_decide_eq_false_2 by apply not_elem_of_nil. eexists. split_and!; [done..|].
  intros value rest s.
  match goal with |- Match ?f _ _ _ = _ =>
    destruct (string_flag_spellings f name name (str "--") value rest s) as [E _]; [done|done|by right|done..|]
  end. by rewrite E.
Qed.

(** A list of distinct ids printed into --instance_nums, anywhere among arguments that are
    no flags, is what the launcher calculates. *)
Theorem ids_on_command_line (pre post : list bytes) (l : list Z) (instance : result Z) :
  Forall plain pre -> Forall plain post -> zlen (pre ++ post) < 2 ^ 63 ->
  l <> [] -> NoDup l -> Forall id_ok l ->
  (let* c := FromFlags moved_from (pre ++ (str "--instance_nums=" ++ print_ids l) :: post) new_calculator in
   Calculate instance c) = Ok l.
Proof.
  intros Hpre Hpost Hlen Hne Hnd Hok.
  assert (Hl1 : zlen (pre ++ (str "--instance_nums=" ++ print_ids l) :: post) < 2 ^ 64) by (rewrite zlen_app, zlen_cons in *; lia).
  assert (Hplain : forall T (f : Flag T) args, style_ f = Style_String -> Forall plain args -> Forall (skips f) args).
  { intros T f args Hst Ha. eapply Forall_impl; [exact Ha|]. intros a Hx rest s. by apply plain_match. }
  assert (Hother : forall T (f : Flag T) d name, style_ f = Style_String -> aliases_ f = [d :: name] ->
    d <> dash -> "i"%char <> d -> skips f (str "--instance_nums=" ++ print_ids l)).
  { intros T f d name Hst Hal Hd Hi rest s. by apply (other_match f d name "i"%char (str "nstance_nums=" ++ print_ids l)). }
  assert (Hall : forall T (f : Flag T) d name, style_ f = Style_String -> aliases_ f = [d :: name] ->
    d <> dash -> "i"%char <> d -> Forall (skips f) (pre ++ (str "--instance_nums=" ++ print_ids l) :: post)).
  { intros T f d name Hst Hal Hd Hi. apply Forall_app. split; [by apply Hplain|]. constructor; [by eapply Hother|by apply Hplain]. }
  unfold FromFlags, ParseBaseInstanceFlag.
  destruct (int_flag int32_t (str "base_instance_num") eq_refl) as (f1 & -> & Hst1 & Hal1).
  rewrite (consume_one_skips f1 _ Hal1) by (done || by eapply Hall). cbn [positive rbind Z.ltb Z.compare TrySet].
  unfold ParseNumInstancesFlag.
  destruct (int_flag int32_t (str "num_instances") eq_refl) as (f2 & -> & Hst2 & Hal2).
  rewrite (consume_one_skips f2 _ Hal2) by (done || by eapply Hall). cbn [positive rbind Z.ltb Z.compare TrySet].
  unfold ParseInstanceNumsFlag.
  destruct (string_flag (str "instance_nums") eq_refl ltac:(done)) as (f3 & -> & Hst3 & Hal3 & Hmatch3).
  rewrite (consume_one_hit f3 _ Hal3 _ _ _ _ (print_ids l)); [|done|by apply Hplain..|].
  2:{ intros rest. by apply Hmatch3. }
  cbn [rbind]. destruct l as [|z l]; [done|]. rewrite bool_decide_eq_false_2 by apply print_ids_ne.
  rewrite ParseInstanceNums_print by done. cbn [TrySet rbind].
  unfold Calculate, CalculateFromFlags. cbn [setter_result_ instance_nums_ base_instance_num_ num_instances_ set_nums set_num set_base new_calculator rbind].
  by rewrite bool_decide_eq_false_2.
Qed.
End command_line.

(** ** The environment *)
(** The instance of a user or device name vsoc-N or cvd-N, or of a plain number, is N. *)
Theorem instance_from_name `{Absl} (prefix : bytes) (z : Z) :
  prefix = [] \/ prefix = kVsocUserPrefix \/ prefix = kCvdNamePrefix -> 0 < z < 2 ^ 31 ->
  InstanceFromString (prefix ++ to_string z) = Ok z.
Proof.
  intros Hp Hz. unfold InstanceFromString. rewrite !StartsWith_spec.
  assert (Hstoi : ModemCommand.stoi (to_string z) = Ok z) by (apply ModemCommand.stoi_to_string; unfold in_i32; lia).
  assert (Hgo : forall p, starts_with p (p ++ to_string z) = true) by (intros p; apply starts_with_spec; eauto).
  assert (Hdig : forall c p, is_digit c = false -> starts_with (c :: p) (to_string z) = false).
  { intros c p Hc. pose proof (proj1 (to_string_nonneg z ltac:(lia))) as Hd. destruct (to_string z) as [|x t]; [done|].
    apply Forall_cons in Hd as [Hx _]. cbn [starts_with]. rewrite bool_decide_eq_false_2 by congruence. done. }
  destruct Hp as [->|[->| ->]].
  - cbn [app]. change kVsocUserPrefix with ("v"%char :: str "soc-"). change kCvdNamePrefix with ("c"%char :: str "vd-").
    rewrite !Hdig by done. rewrite Hstoi. cbn [rbind]. by rewrite (proj2 (Z.leb_gt _ _)) by lia.
  - rewrite Hgo, zdrop_exact by done. rewrite Hstoi. cbn [rbind]. by rewrite (proj2 (Z.leb_gt _ _)) by lia.
  - change (starts_with kVsocUserPrefix (kCvdNamePrefix ++ to_string z)) with false. cbv iota.
    rewrite Hgo, zdrop_exact by done. rewrite Hstoi. cbn [rbind]. by rewrite (proj2 (Z.leb_gt _ _)) by lia.
Qed.

(** ** Examples *)
Lemma setters_never_report_witness :
  match run_setters (fun s => s) [Setter_flags [str "--num_instances=2"]; Setter_string (str "4,6")] new_calculator with
  | Ok c => setter_result_ c = Ok tt /\ NoDup (instance_nums_ c)
  | Err _ => False
  | _ => True
  end.
Proof. apply (setters_never_report (fun s => s)). repeat constructor. Defined.
Lemma malformed_ids_undefined_witness :
  InstanceNums_string (str "1,2,1") new_calculator = Fatal "tl::expected::error() of a value".
Proof.
  apply (malformed_ids_undefined (str "1,2,1") "is duplicated in -instance_nums flag." new_calculator).
  - vm_compute. reflexivity.
  - reflexivity.
Defined.
Lemma calculated_ids_witness : NoDup [3; 4].
Proof.
  apply (calculated_ids (Ok 7) (mkCalculator (Ok tt) (Some 3) (Some 2) []) [3; 4]).
  - constructor.
  - vm_compute. reflexivity.
Defined.
Lemma ids_on_command_line_witness :
  (let* c := FromFlags (fun s => s) [str "start"; str "--instance_nums=2,9"] new_calculator in Calculate (Ok 1) c) = Ok [2; 9].
Proof.
  apply (ids_on_command_line (fun s => s) [str "start"] [] [2; 9] (Ok 1)).
  - repeat constructor.
  - constructor.
  - vm_compute. reflexivity.
  - discriminate.
  - apply (bool_decide_unpack _). vm_compute. exact I.
  - repeat constructor; vm_compute; congruence.
Defined.
Lemma instance_from_name_witness : InstanceFromString (str "vsoc-07") = Ok 7 /\ InstanceFromString (str "cvd-12") = Ok 12.
Proof. split; [vm_compute; reflexivity|]. apply (instance_from_name kCvdNamePrefix 12); [by right; right|lia]. Defined.
(** Zero instances from a base number are no error, although zero without one is. *)
Lemma no_instances :
  Calculate (Ok 1) (mkCalculator (Ok tt) (Some 1) (Some 0) []) = Ok [] /\
  Calculate (Ok 1) (mkCalculator (Ok tt) None (Some 0) []) = Err "no instance nums".
Proof. split; vm_compute; reflexivity. Qed.
(** The setter that takes a list stores it as it is. *)
Lemma vector_not_deduplicated :
  Calculate (Ok 1) (InstanceNums_vector [1; 2; 3; 2] new_calculator) = Ok [1; 2; 3; 2].
Proof. vm_compute. reflexivity. Qed.
End InstanceNums.
