(* ===== verification/ServerLoop.v ===== *)
(** * Control of a running device (host/libs/command_util, host/commands/run_cvd)

    runner/defs.h and util.cc: the protocol that cvd and the other tools speak
    with run_cvd over the launcher monitor socket.  server_loop_impl.cpp,
    server_loop_impl_snapshot.cpp and server_loop_impl_webrtc.cpp: the loop that
    answers it, and the status of the device that it keeps.  local_instance.cpp:
    the restart and the powerwash of a device, as a client of it.

    The processes of the device, the commands run and the files are the class
    [Host]: every operation answers and changes a state that is not looked
    into. *)
From S2P Require Import Prelude CppString IO SharedBuf ProcessMonitor.

Module ServerLoop.
Import CppString.

(** ** runner/defs.h and run_cvd.proto *)
(** Both enums are a [char]; what comes from the socket may be any. *)
Definition kExtended : ascii := "A"%char.
Definition kFail : ascii := "F"%char.
Definition kPowerwash : ascii := "P"%char.
Definition kRestart : ascii := "R"%char.
Definition kStatus : ascii := "I"%char.
Definition kStop : ascii := "X"%char.
Definition response_kSuccess : ascii := "S"%char.
Definition response_kError : ascii := "E"%char.
Definition exit_kSuccess : Z := 0.
Definition kVirtualDeviceBootFailed : Z := 11.

Inductive Actions :=
| Suspend | Resume | StartScreenRecording | StopScreenRecording
| SnapshotTake (snapshot_path : bytes)
| ScreenshotDisplay (display_number : Z) (screenshot_path : bytes)
| ACTIONS_NOT_SET.
Record ExtendedLauncherAction := mkExtended { actions : Actions; verbosity : bytes }.
Record LauncherActionInfo := mkInfo { action : ascii; extended_action : ExtendedLauncherAction }.
Definition no_extended_action : ExtendedLauncherAction := mkExtended ACTIONS_NOT_SET [].

(** The protobuf library. *)
Class Proto := {
  SerializeAsString : ExtendedLauncherAction -> bytes;
  ParseFromString : bytes -> option ExtendedLauncherAction;
  parse_serialized a : ParseFromString (SerializeAsString a) = Some a
}.

(** ** util.cc *)
Definition IsShortAction (a : ascii) : bool :=
  bool_decide (a ∈ [kFail; kPowerwash; kRestart; kStatus; kStop]).

Section binary.
Context {R : Type} `{IO.Reader R} {W : Type} `{IO.Writer W}.
Definition WriteAllBinaryResult (t : bytes) : M W unit :=
  let! n := SharedBuf.WriteAll t in
  let! _ := lift (expect (0 <? n) "Write error") in
  lift (expect (n =? zlen t) "Unexpected EOF on write").
(** [None] at the end of the stream, when [*t] is left as it was. *)
Definition ReadExactBinaryResult (sizeof_t : Z) : M R (option bytes) :=
  let! (n, t) := SharedBuf.ReadExact sizeof_t in
  if n =? 0 then mret None
  else let! _ := lift (expect (0 <? n) "Read error") in
       let! _ := lift (expect (n =? sizeof_t) "Unexpected EOF on read") in
       mret (Some t).

(** [exit_codes] is not initialised: [uninit] is what its memory holds. *)
Definition ReadExitCode (uninit : Z) : M R Z :=
  let! r := ReadExactBinaryResult 4 in
  mret (match r with Some t => as_i32 (le_value t) | None => uninit end).

Definition ReadLauncherActionFromFd `{Proto} : M R (option LauncherActionInfo) :=
  let! r := ReadExactBinaryResult 1 in
  match r with
  | Some (action :: _) =>
      if IsShortAction action then mret (Some (mkInfo action no_extended_action))
      else
        let! l := ReadExactBinaryResult 4 in
        let length := match l with Some t => le_value t | None => 0 end in
        if length =? 0 then mret (Some (mkInfo action no_extended_action))
        else
          let! (n, serialized_data) := SharedBuf.ReadExact length in
          let! _ := lift (expect (0 <? n) "Read error") in
          let! _ := lift (expect (n =? length) "Unexpected EOF on read") in
          match ParseFromString serialized_data with
          | Some extended_action => mret (Some (mkInfo action extended_action))
          | None => lift (Err "Failed to parse ExtendedLauncherAction proto")
          end
  | _ => mret None
  end.
End binary.

(** A connected socket, as its two directions. *)
Section client.
Context {R : Type} `{IO.Reader R} {W : Type} `{IO.Writer W} `{Proto}.
Definition on_read {A S} (m : M R A) : M (R * S) A := fun '(r, s) => let '(a, r) := m r in (a, (r, s)).
Definition on_write {A S} (m : M W A) : M (S * W) A := fun '(s, w) => let '(a, w) := m w in (a, (s, w)).

(** What select(2) answers for the socket, with a timeout in seconds or none. *)
Context (select : option Z -> R -> Z).
Definition WaitForRead (timeout_seconds : Z) : M (R * W) unit := fun s =>
  let select_result := select (if timeout_seconds <=? 0 then None else Some timeout_seconds) s.1 in
  ((let* _ := expect (negb (select_result =? 0)) "Timeout expired waiting for launcher monitor to respond" in
    expect (0 <? select_result) "Failed communication with the launcher monitor"), s).
Definition wait_for (timeout_seconds : option Z) : M (R * W) unit :=
  match timeout_seconds with Some t => WaitForRead t | None => mret tt end.

(** [response] is not initialised: [uninit] is what its memory holds. *)
Definition read_response (uninit : ascii) : M (R * W) unit :=
  let! r := on_read (ReadExactBinaryResult 1) in
  let response := match r with Some (c :: _) => c | _ => uninit end in
  lift (expect (bool_decide (response = response_kSuccess)) "response == kSuccess").

Definition RunLauncherAction (uninit : ascii) (action : ascii) (timeout_seconds : option Z) : M (R * W) unit :=
  let! _ := lift (expect (IsShortAction action) "PerformActionRequest doesn't support extended action") in
  let! _ := on_write (WriteAllBinaryResult [action]) in
  let! _ := wait_for timeout_seconds in
  read_response uninit.

Definition RunLauncherAction_extended (uninit : ascii) (extended_action : ExtendedLauncherAction)
    (timeout_seconds : option Z) : M (R * W) unit :=
  let serialized_data := SerializeAsString extended_action in
  let! _ := lift (expect (negb (bool_decide (serialized_data = []))) "failed to serialize proto") in
  let! _ := on_write (WriteAllBinaryResult [kExtended]) in
  let! _ := on_write (WriteAllBinaryResult (le_bytes 4 (u32 (zlen serialized_data)))) in
  let! n := on_write (SharedBuf.WriteAll serialized_data) in
  let! _ := lift (expect (0 <? n) "Write error") in
  let! _ := lift (expect (n =? zlen serialized_data) "Unexpected EOF on write") in
  let! _ := wait_for timeout_seconds in
  read_response uninit.

(** local_instance.cpp; [Restart] and [PowerWash] differ in the action, and
    [monitor_socket] is what [GetLauncherMonitor] connects. *)
Definition restart_with (action : ascii) (uninit : ascii) (uninit_code : Z) (launcher_timeout boot_timeout : Z)
    : M (R * W) unit :=
  let! _ := RunLauncherAction uninit action (Some launcher_timeout) in
  let! _ := WaitForRead boot_timeout in
  let! boot_exit_code := on_read (ReadExitCode uninit_code) in
  let! _ := lift (expect (negb (boot_exit_code =? kVirtualDeviceBootFailed)) "Boot failed") in
  lift (expect (boot_exit_code =? exit_kSuccess) "Unknown response").
Definition Restart := restart_with kRestart.
Definition PowerWash := restart_with kPowerwash.
End client.

(** ** The server: its configuration and the host *)
Inductive VmmMode := VmmMode_kUnknown | kCrosvm | kGem5 | kQemu.
#[global] Instance vmm_eq : EqDecision VmmMode.
Proof. solve_decision. Defined.
Definition ToString (m : VmmMode) : bytes :=
  match m with
  | VmmMode_kUnknown => str "unknown" | kCrosvm => str "crosvm" | kGem5 => str "gem5" | kQemu => str "qemu_cli"
  end.
Definition VmManagerIsCrosvm (m : VmmMode) : bool := bool_decide (m = kCrosvm).
Definition kApName : bytes := str "crosvm_openwrt".

(** The values that are read from the configuration of the instance; the paths
    of the instance are computed as in config_instance_derived.cc. *)
Record Config := mkConfig {
  vm_manager : VmmMode; ap_vm_manager : bytes; crosvm_binary : bytes; assembly_dir : bytes;
  ap_boot_flow : bool; (* anything but APBootFlow::None *)
  id : bytes; instance_dir : bytes; instance_uds_dir : bytes; adb_ip_and_port : bytes;
  virtual_disk_paths : list bytes; sdcard_path : bytes; os_composite_disk_path : bytes; ap_composite_disk_path : bytes;
  instance_crosvm_binary : bytes;
  executable_directory : bytes; host_binary_dir : bytes; argvs : list bytes;
  AbsolutePath : bytes -> bytes
}.
Section paths.
Context (c : Config).
Definition PerInstancePath (file_name : bytes) : bytes := instance_dir c ++ str "/" ++ file_name.
Definition PerInstanceInternalPath (file_name : bytes) : bytes :=
  if bool_decide (file_name = []) then PerInstancePath (str "internal")
  else PerInstancePath (str "internal" ++ str "/" ++ file_name).
Definition PerInstanceUdsPath (file_name : bytes) : bytes := instance_uds_dir c ++ str "/" ++ file_name.
Definition PerInstanceInternalUdsPath (file_name : bytes) : bytes :=
  if bool_decide (file_name = []) then PerInstanceUdsPath (str "internal")
  else PerInstanceUdsPath (str "internal" ++ str "/" ++ file_name).
Definition CrosvmSocketPath : bytes := PerInstanceInternalUdsPath (str "crosvm_control.sock").
Definition OpenwrtCrosvmSocketPath : bytes := PerInstanceInternalUdsPath (str "ap_control.sock").
Definition AssemblyPath (file : bytes) : bytes := assembly_dir c ++ str "/" ++ file.
Definition HostBinaryPath (name : bytes) : bytes := host_binary_dir c ++ str "/" ++ name.

Definition InitializeVmToControlSockPath : bytes_map bytes :=
  <[ToString kCrosvm := CrosvmSocketPath]> {[kApName := OpenwrtCrosvmSocketPath]}.
Definition GetSocketPath (name : bytes) : bytes := default [] (InitializeVmToControlSockPath !! name).

Definition fifo_pipes : list bytes :=
  [AbsolutePath c (PerInstanceInternalPath (str "kernel-log-pipe"));
   AbsolutePath c (PerInstanceInternalPath (str "console")) ++ str ".in";
   AbsolutePath c (PerInstanceInternalPath (str "console")) ++ str ".out";
   AbsolutePath c (PerInstanceInternalPath (str "logcat-pipe"))] ++
  (PerInstanceInternalPath <$>
    ([str "keymaster"; str "keymint"; str "gatekeeper"; str "oemlock"; str "gnsshvc"; str "locationhvc"; str "confui";
      str "sensors_control"; str "sensors_data"] ≫=
       fun name => [name ++ str "_fifo_vm.in"; name ++ str "_fifo_vm.out"])).
End paths.

(** What [LoadFromFile] finds in the description of a snapshot. *)
Record MetaJson := mkMeta { snapshot_path_field : option bytes; guest_snapshot_field : bytes_map bytes }.

Class Host (H : Type) := {
  (* process_monitor.h *)
  StopMonitoredProcesses : M H unit;
  SuspendMonitoredProcesses : M H unit;
  ResumeMonitoredProcesses : M H unit;
  (* a command in a working directory, waited for; nothing when it was not started or is lost *)
  Run : option bytes -> list bytes -> H -> option ProcessMonitor.Siginfo * H;
  (* files *)
  FileExists : bytes -> H -> bool;
  FileSize : bytes -> H -> Z;
  LoadFromFile : bytes -> H -> result MetaJson;
  unlink : bytes -> H -> H;
  RemoveFile : bytes -> M H unit;
  CreateBlankEmptyImage : bytes -> Z -> H -> H;
  CreateBlankSdcardImage : bytes -> Z -> H -> H;
  utime : bytes -> H -> H;
  (* execv of this program with its standard input; [true] when it did not return *)
  exec_self : bytes -> list bytes -> H -> bool * H;
  (* webrtc_controller.h *)
  SendStartRecordingCommand : M H unit;
  SendStopRecordingCommand : M H unit;
  SendScreenshotDisplayCommand : Z -> bytes -> M H unit
}.

Inductive DeviceStatus := kUnknown | kActive | kSuspended | kGuestOff.
#[global] Instance status_eq : EqDecision DeviceStatus.
Proof. solve_decision. Defined.

Section host.
Context {H : Type} `{Host H} (c : Config).

(** execute.cc, and [Command::Start().Wait()]. *)
Definition Execute_info (command : list bytes) : M H ProcessMonitor.Siginfo := fun h =>
  match Run None command h with
  | (Some infop, h) => (Ok infop, h)
  | (None, h) => (Err "Subprocess", h)
  end.
Definition exit_status (r : option ProcessMonitor.Siginfo) : Z :=
  match r with
  | Some infop => match ProcessMonitor.si_code infop with
                  | ProcessMonitor.CLD_EXITED => ProcessMonitor.si_status infop
                  | _ => -1
                  end
  | None => -1
  end.
Definition wait_status (cwd : option bytes) (command : list bytes) : M H Z := fun h =>
  let '(r, h) := Run cwd command h in (Ok (exit_status r), h).
Definition Execute (command : list bytes) : M H Z := wait_status None command.

Definition SubtoolPath (subtool_name : bytes) (h : H) : bytes :=
  let subtool_path := executable_directory c ++ str "/" ++ subtool_name in
  if bool_decide (executable_directory c = []) || negb (FileExists subtool_path h)
  then HostBinaryPath c subtool_name else subtool_path.

(** [SuspendCrosvm] and [ResumeCrosvm] differ in the word. *)
Definition crosvm_command (word vm_sock_path : bytes) : M H unit :=
  let! h := get in
  let! infop := Execute_info [SubtoolPath (str "crosvm") h; word; vm_sock_path; str "--full"] in
  let! _ := lift (expect (match ProcessMonitor.si_code infop with ProcessMonitor.CLD_EXITED => true | _ => false end) "si_code") in
  lift (expect (ProcessMonitor.si_status infop =? 0) "crosvm returns non zero code").
Definition on_guest (word : bytes) : M H unit :=
  let! _ := (if ap_boot_flow c && bool_decide (ap_vm_manager c = kApName) then
               let openwrt_sock := GetSocketPath c (ap_vm_manager c) in
               let! _ := lift (expect (negb (bool_decide (openwrt_sock = []))) "not supported yet") in
               crosvm_command word openwrt_sock
             else mret tt) in
  if VmManagerIsCrosvm (vm_manager c) then
    let vm_sock := GetSocketPath c (ToString (vm_manager c)) in
    let! _ := lift (expect (negb (bool_decide (vm_sock = []))) "not supported yet") in
    crosvm_command word vm_sock
  else lift (Err "not supported yet").
Definition SuspendGuest : M H unit := on_guest (str "suspend").
Definition ResumeGuest : M H unit := on_guest (str "resume").

Definition RunAdbShellCommand (command_args : list bytes) : M H unit :=
  let! h := get in
  let! s := wait_status (Some (str "/")) [SubtoolPath (str "adb") h; str "connect"; adb_ip_and_port c] in
  let! _ := lift (expect (s =? 0) "connect_cmd") in
  let! h := get in
  let! s := wait_status None ([SubtoolPath (str "adb") h; str "-s"; adb_ip_and_port c; str "shell"] ++ command_args) in
  lift (expect (s =? 0) "shell_cmd").

Definition HandleSuspend : M H unit :=
  let! _ := RunAdbShellCommand [str "su"; str "root"; str "/vendor/bin/snapshot_hook_pre_suspend"] in
  let! _ := SuspendGuest in
  SuspendMonitoredProcesses.
Definition HandleResume : M H unit :=
  let! _ := ResumeMonitoredProcesses in
  let! _ := ResumeGuest in
  RunAdbShellCommand [str "su"; str "root"; str "/vendor/bin/snapshot_hook_post_resume"].

(** snapshot_utils.cc *)
Definition InstanceGuestSnapshotPath (meta_json : MetaJson) : result bytes :=
  match snapshot_path_field meta_json, guest_snapshot_field meta_json !! id c with
  | None, _ => Err "The given json is missing : snapshot_path"
  | Some _, None => Err "root[guest_snapshot] is missing"
  | Some snapshot_path, Some guest_snapshot_dir => Ok (snapshot_path ++ str "/" ++ guest_snapshot_dir)
  end.
Definition TakeCrosvmGuestSnapshot (meta_json : MetaJson) : M H unit :=
  let! snapshots_parent_dir := lift (InstanceGuestSnapshotPath meta_json) in
  let snapshot_guest_param := snapshots_parent_dir ++ str "/guest_vm" in
  let! _ := (if ap_boot_flow c && bool_decide (ap_vm_manager c = kApName) then
               let openwrt_sock := GetSocketPath c (ap_vm_manager c) in
               let! _ := lift (expect (negb (bool_decide (openwrt_sock = []))) "not supported yet") in
               let! s := Execute [crosvm_binary c; str "snapshot"; str "take"; snapshot_guest_param ++ str "_openwrt"; openwrt_sock] in
               lift (expect (s =? 0) "Executing openwrt crosvm command returned -1")
             else mret tt) in
  let! _ := lift (expect (bool_decide (vm_manager c = kCrosvm)) "Failed to find crosvm control.sock path.") in
  let! s := Execute [crosvm_binary c; str "snapshot"; str "take"; snapshot_guest_param; CrosvmSocketPath c] in
  lift (expect (s =? 0) "Executing crosvm command failed").
Definition HandleSnapshotTake (snapshot_path : bytes) : M H unit :=
  let! _ := lift (expect (negb (bool_decide (snapshot_path = []))) "snapshot_path must be non-empty") in
  let! h := get in
  let! _ := lift (expect (FileExists snapshot_path h) "must exist but does not.") in
  let! meta_json := lift (LoadFromFile snapshot_path h) in
  let! _ := lift (expect (VmManagerIsCrosvm (vm_manager c)) "not crosvm, is not yet supported.") in
  TakeCrosvmGuestSnapshot meta_json.

(** ** HandleExtended *)
Record Server := mkServer { device_status : DeviceStatus; host : H }.
Definition on_host {A} (m : M H A) : M Server A := fun s =>
  let '(r, h) := m (host s) in (r, mkServer (device_status s) h).
Definition set_status (d : DeviceStatus) : M Server unit := modify (fun s => mkServer d (host s)).
Definition expect_status (b : DeviceStatus -> bool) (msg : string) : M Server unit :=
  let! s := get in lift (expect (b (device_status s)) msg).
Definition is_status (d e : DeviceStatus) : bool := bool_decide (e = d).

Definition HandleExtended (action_info : LauncherActionInfo) : M Server unit :=
  let! _ := lift (expect (bool_decide (action action_info = kExtended)) "action_info.action") in
  match actions (extended_action action_info) with
  | Suspend =>
      let! _ := expect_status (fun d => negb (is_status kGuestOff d)) "Device is powered off, cannot suspend" in
      let! s := get in
      let! _ := (if is_status kActive (device_status s) then on_host HandleSuspend else mret tt) in
      set_status kSuspended
  | Resume =>
      let! _ := expect_status (fun d => negb (is_status kGuestOff d)) "Device is powered off, cannot resume" in
      let! s := get in
      let! _ := (if is_status kSuspended (device_status s) then on_host HandleResume else mret tt) in
      set_status kActive
  | SnapshotTake snapshot_path =>
      let! _ := expect_status (is_status kSuspended) "The device is not suspended, and snapshot cannot be taken" in
      on_host (HandleSnapshotTake snapshot_path)
  | StartScreenRecording =>
      let! _ := expect_status (is_status kActive) "Device is not active, cannot start screen recording" in
      on_host SendStartRecordingCommand
  | StopScreenRecording =>
      let! _ := expect_status (is_status kActive) "Device is not active, cannot stop screen recording" in
      on_host SendStopRecordingCommand
  | ScreenshotDisplay display_number screenshot_path =>
      let! _ := expect_status (is_status kActive) "Device is not active, cannot take screenshot" in
      on_host (SendScreenshotDisplayCommand display_number screenshot_path)
  | ACTIONS_NOT_SET => lift (Err "Unsupported ExtendedLauncherAction")
  end.

(** ** HandleActionWithNoData *)
Fixpoint unlink_all (pipes : list bytes) (h : H) : H :=
  match pipes with
  | [] => h
  | pipe :: pipes => unlink_all pipes (unlink pipe h)
  end.
Definition DeleteFifos (h : H) : H := unlink_all (fifo_pipes c) h.

Definition CreateQcowOverlay (crosvm_path backing_file output_overlay_path : bytes) : M H bool :=
  let! success := wait_status None [crosvm_path; str "create_qcow2"; str "--backing-file"; backing_file; output_overlay_path] in
  mret (success =? 0).
Fixpoint overlays (overlay_files : list (bytes * bytes)) : M H bool :=
  match overlay_files with
  | [] => mret true
  | (name, composite_disk_path) :: overlay_files =>
      let overlay_path := PerInstancePath c name in
      let! _ := modify (unlink overlay_path) in
      let! ok := CreateQcowOverlay (instance_crosvm_binary c) composite_disk_path overlay_path in
      if ok then let! _ := modify (utime composite_disk_path) in overlays overlay_files else mret false
  end.
Definition blank (path : bytes) (h : H) : H := CreateBlankEmptyImage path 2 (unlink path h).
Definition PowerwashFiles : M H bool :=
  let! _ := modify DeleteFifos in
  let! _ := modify (unlink (CrosvmSocketPath c)) in
  let! _ := modify (unlink (OpenwrtCrosvmSocketPath c)) in
  let! _ := modify (unlink (PerInstancePath c (str "NVChip"))) in
  let! _ := modify (blank (AbsolutePath c (PerInstancePath c (str "access-kregistry")))) in
  let! _ := modify (blank (AbsolutePath c (PerInstanceInternalPath c (str "hwcomposer-pmem")))) in
  let! _ := modify (blank (AbsolutePath c (PerInstancePath c (str "pstore")))) in
  let! h := get in
  let sdcard_size := FileSize (sdcard_path c) h in
  let! _ := modify (unlink (sdcard_path c)) in
  let! _ := modify (CreateBlankSdcardImage (sdcard_path c) (Z.quot (sdcard_size + Z.shiftl 1 20 - 1) (Z.shiftl 1 20))) in
  overlays ([(str "overlay.img", os_composite_disk_path c)] ++
            (if ap_boot_flow c then [(str "ap_overlay.img", ap_composite_disk_path c)] else [])).

(** [true] when another run_cvd has taken over. *)
Definition RestartRunCvd (notification_fd : Z) : M H bool :=
  let! h := get in
  let! _ := (if FileExists (AssemblyPath c (str "restore")) h then
               fun h => match RemoveFile (AssemblyPath c (str "restore")) h with
                        | (Err _, h) => (Fatal "CHECK(RemoveFile)", h)
                        | x => x
                        end
             else mret tt) in
  fun h => let '(gone, h) := exec_self (AssemblyPath c (str "cuttlefish_config.json") ++ [byte_of_Z 10])
                               (argvs c ++ [str "-reboot_notification_fd=" ++ to_string notification_fd]) h in
           (Ok gone, h).

(** How the handling of a request ends. *)
Inductive Outcome := Continue | Exited (code : Z) | Replaced.

Section connection.
Context {W : Type} `{IO.Writer W}.
Definition on_server {A} (m : M Server A) : M (Server * W) A := fun '(s, w) =>
  let '(r, s) := m s in (r, (s, w)).
(** [(void)client->Write(&response, sizeof(response))]. *)
Definition respond (response : ascii) : M (Server * W) unit := fun '(s, w) =>
  match IO.Write [response] w with
  | (Ok _, w) | (Err _, w) => (Ok tt, (s, w))
  | (fl, w) => (fail_as fl, (s, w))
  end.
(** [client->UNMANAGED_Dup()] gives the descriptor [dup_fd]. *)
Context (dup_fd : Z).

(** [kStop] and [kFail] differ in the exit code. *)
Definition stop_and_exit (code : Z) : M (Server * W) Outcome :=
  let! stop := attempt (on_server (on_host StopMonitoredProcesses)) in
  match stop with
  | Some _ => let! _ := respond response_kSuccess in mret (Exited code)
  | None => let! _ := respond response_kError in mret Continue
  end.
(** The end of [kPowerwash] and [kRestart]. *)
Definition replace_run_cvd : M (Server * W) Outcome :=
  let! _ := respond response_kSuccess in
  let! gone := on_server (on_host (RestartRunCvd dup_fd)) in
  if gone then mret Replaced
  else let! _ := respond response_kError in lift (Fatal "run_cvd in a bad state").

Definition HandleActionWithNoData (action : ascii) : M (Server * W) Outcome :=
  if bool_decide (action = kStop) then stop_and_exit 0
  else if bool_decide (action = kFail) then stop_and_exit kVirtualDeviceBootFailed
  else if bool_decide (action = kStatus) then let! _ := respond response_kSuccess in mret Continue
  else if bool_decide (action = kPowerwash) then
    if negb (bool_decide (PerInstancePath c (str "overlay.img") ∈ virtual_disk_paths c))
    then let! _ := respond response_kError in mret Continue
    else
      let! stop := attempt (on_server (on_host StopMonitoredProcesses)) in
      match stop with
      | None => let! _ := respond response_kError in mret Continue
      | Some _ =>
          let! washed := on_server (on_host PowerwashFiles) in
          if washed then replace_run_cvd else let! _ := respond response_kError in mret Continue
      end
  else if bool_decide (action = kRestart) then
    let! stop := attempt (on_server (on_host StopMonitoredProcesses)) in
    match stop with
    | None => let! _ := respond response_kError in mret Continue
    | Some _ =>
        let! _ := on_server (on_host (modify DeleteFifos)) in
        replace_run_cvd
    end
  else let! _ := respond response_kError in mret Continue.

(** ** The loop over one client *)
Context {R : Type} `{IO.Reader R} `{Proto}.
(** One turn: whether the client is still served, and how else it ended. *)
Definition client_turn (st : R * (Server * W)) : (R * (Server * W)) + (result Outcome * (R * (Server * W))) :=
  let '(r, sw) := st in
  match ReadLauncherActionFromFd r with
  | (Err _, r) => inr (Ok Continue, (r, sw))
  | (Ok None, r) => inr (Ok Continue, (r, sw))
  | (Ok (Some info), r) =>
      if negb (bool_decide (action info = kExtended)) then
        match HandleActionWithNoData (action info) sw with
        | (Ok Continue, sw) => inl (r, sw)
        | (o, sw) => inr (o, (r, sw))
        end
      else
        match attempt (on_server (HandleExtended info)) sw with
        | (Ok done, sw) =>
            let response := match done with Some _ => response_kSuccess | None => response_kError end in
            let '(o, sw) := respond response sw in
            inr (let* _ := o in Ok Continue, (r, sw))
        | (fl, sw) => inr (fail_as fl, (r, sw))
        end
  | (fl, r) => inr (fail_as fl, (r, sw))
  end.
Definition serve_client : M (R * (Server * W)) Outcome := fun st => while_ client_turn (Fuel, st) st.
End connection.

(** ** Run: the processes of the device have ended *)
Definition monitor_exited : M Server unit :=
  let! _ := on_host StopMonitoredProcesses in set_status kGuestOff.
(** [StartAndMonitorProcesses] went well. *)
Definition started (h : H) : Server := mkServer kActive h.
End host.
Arguments Server : clear implicits.

(** ** Reading and writing fixed sizes *)
Section wire.
Context {R : Type} `{IO.ReadLaws R} {W : Type} `{IO.WriteLaws W} `{Proto}.

Lemma read_binary (r : R) n bs rest :
  IO.read_ok r -> IO.remaining r = bs ++ rest -> zlen bs = n -> 0 < n < 2 ^ 64 ->
  exists r', ReadExactBinaryResult n r = (Ok (Some bs), r') /\ IO.read_ok r' /\ IO.remaining r' = rest.
Proof.
  intros Hok Hrem Hn Hpos. unfold ReadExactBinaryResult.
  destruct (SharedBuf.ReadExact_count_spec r n Hok) as (r' & E & Hok' & Hrem'); [unfold is_u64; lia|].
  unfold mbind at 1. rewrite E, Hrem, ztake_exact by done. rewrite Hrem, zdrop_exact in Hrem' by done.
  rewrite Hn, (proj2 (Z.eqb_neq n 0)), (proj2 (Z.ltb_lt 0 n)) by lia. cbn [expect].
  unfold mbind, lift, mret, expect. rewrite Z.eqb_refl. eauto.
Qed.
Lemma read_binary_end (r : R) n :
  IO.read_ok r -> IO.remaining r = [] -> 0 < n < 2 ^ 64 ->
  exists r', ReadExactBinaryResult n r = (Ok None, r') /\ IO.read_ok r' /\ IO.remaining r' = [].
Proof.
  intros Hok Hrem Hpos. unfold ReadExactBinaryResult.
  destruct (SharedBuf.ReadExact_count_spec r n Hok) as (r' & E & Hok' & Hrem'); [unfold is_u64; lia|].
  unfold mbind. rewrite E, Hrem. rewrite Hrem in Hrem'. exists r'. by split_and!.
Qed.
Lemma write_binary (w : W) room bs :
  IO.write_ok w room -> 0 < zlen bs <= room -> zlen bs < 2 ^ 64 ->
  exists w', WriteAllBinaryResult bs w = (Ok tt, w') /\ IO.write_ok w' (room - zlen bs) /\ IO.written w' = IO.written w ++ bs.
Proof.
  intros Hok Hroom Hlen. destruct (SharedBuf.WriteAll_spec w room bs Hok) as (w' & E & Hok' & Hwr); [lia..|].
  unfold WriteAllBinaryResult, mbind, lift. rewrite E, (proj2 (Z.ltb_lt 0 _)) by lia. cbn [expect]. rewrite Z.eqb_refl. eauto.
Qed.

(** The bytes of a request. *)
Definition extended_request (a : ExtendedLauncherAction) : bytes :=
  [kExtended] ++ le_bytes 4 (zlen (SerializeAsString a)) ++ SerializeAsString a.

Lemma read_short (r : R) a rest :
  IO.read_ok r -> IO.remaining r = a :: rest -> IsShortAction a = true ->
  exists r', ReadLauncherActionFromFd r = (Ok (Some (mkInfo a no_extended_action)), r') /\ IO.read_ok r' /\ IO.remaining r' = rest.
Proof.
  intros Hok Hrem Ha. destruct (read_binary r 1 [a] rest Hok Hrem) as (r' & E & Hok' & Hrem'); [done|lia|].
  exists r'. unfold ReadLauncherActionFromFd, mbind. by rewrite E, Ha.
Qed.
Lemma read_extended (r : R) a rest :
  IO.read_ok r -> IO.remaining r = extended_request a ++ rest -> 0 < zlen (SerializeAsString a) < 2 ^ 32 ->
  exists r', ReadLauncherActionFromFd r = (Ok (Some (mkInfo kExtended a)), r') /\ IO.read_ok r' /\ IO.remaining r' = rest.
Proof.
  intros Hok Hrem Hlen. unfold extended_request in Hrem. rewrite <-!app_assoc in Hrem.
  destruct (read_binary r 1 _ _ Hok Hrem) as (r1 & E1 & Hok1 & Hrem1); [done|lia|].
  destruct (read_binary r1 4 _ _ Hok1 Hrem1) as (r2 & E2 & Hok2 & Hrem2); [apply zlen_le_bytes|lia|].
  destruct (SharedBuf.ReadExact_count_spec r2 (zlen (SerializeAsString a)) Hok2) as (r3 & E3 & Hok3 & Hrem3); [unfold is_u64; lia|].
  exists r3. unfold ReadLauncherActionFromFd, mbind at 1. rewrite E1. change (IsShortAction kExtended) with false. cbv iota.
  unfold mbind at 1. rewrite E2, le_value_bytes by lia. rewrite (proj2 (Z.eqb_neq _ 0)) by lia.
  rewrite Hrem2 in E3, Hrem3. rewrite ztake_exact in E3 by done. rewrite zdrop_exact in Hrem3 by done.
  unfold mbind, lift, mret, expect. rewrite E3, (proj2 (Z.ltb_lt 0 _)), Z.eqb_refl, parse_serialized by lia. done.
Qed.
Lemma read_end (r : R) : IO.read_ok r -> IO.remaining r = [] ->
  exists r', ReadLauncherActionFromFd r = (Ok None, r') /\ IO.read_ok r' /\ IO.remaining r' = [].
Proof.
  intros Hok Hrem. destruct (read_binary_end r 1 Hok Hrem) as (r' & E & Hok' & Hrem'); [lia|].
  exists r'. unfold ReadLauncherActionFromFd, mbind. by rewrite E.
Qed.

(** The client's side of a request whose answer is on its way. *)
Definition answer_ok (response : ascii) : result unit :=
  if bool_decide (response = response_kSuccess) then Ok tt else Err "response == kSuccess".
Context (select : option Z -> R -> Z).
Definition readable (r : R) : Prop := forall t, 0 < select t r.

Lemma wait_readable t (r : R) (w : W) : readable r -> wait_for select t (r, w) = (Ok tt, (r, w)).
Proof.
  intros Hr. destruct t as [t|]; [|done]. unfold wait_for, WaitForRead. cbn [fst].
  specialize (Hr (if t <=? 0 then None else Some t)).
  by rewrite (proj2 (Z.eqb_neq _ 0)), (proj2 (Z.ltb_lt 0 _)) by lia.
Qed.
Lemma read_response_spec uninit (r : R) (w : W) response rest :
  IO.read_ok r -> IO.remaining r = response :: rest ->
  exists r', read_response uninit (r, w) = (answer_ok response, (r', w)) /\ IO.read_ok r' /\ IO.remaining r' = rest.
Proof.
  intros Hok Hrem. destruct (read_binary r 1 [response] rest Hok Hrem) as (r' & E & Hok' & Hrem'); [done|lia|].
  exists r'. unfold read_response, mbind, on_read. by rewrite E.
Qed.
Lemma read_response_end uninit (r : R) (w : W) :
  IO.read_ok r -> IO.remaining r = [] -> exists r', read_response uninit (r, w) = (answer_ok uninit, (r', w)).
Proof.
  intros Hok Hrem. destruct (read_binary_end r 1 Hok Hrem) as (r' & E & _ & _); [lia|].
  exists r'. unfold read_response, mbind, on_read. by rewrite E.
Qed.

Lemma send_extended (r : R) (w : W) room uninit a t response rest :
  IO.read_ok r -> IO.remaining r = response :: rest -> readable r ->
  IO.write_ok w room -> zlen (extended_request a) <= room -> 0 < zlen (SerializeAsString a) < 2 ^ 32 ->
  exists r' w', RunLauncherAction_extended select uninit a t (r, w) = (answer_ok response, (r', w')) /\
    IO.remaining r' = rest /\ IO.written w' = IO.written w ++ extended_request a.
Proof.
  intros Hr Hrem Hsel Hw Hroom Hlen. unfold extended_request in *. rewrite !zlen_app, zlen_le_bytes in Hroom.
  change (zlen [kExtended]) with 1 in Hroom.
  destruct (write_binary w room [kExtended] Hw) as (w1 & E1 & Hw1 & Hwr1); [change (zlen [kExtended]) with 1; lia..|]. change (zlen [kExtended]) with 1 in Hw1.
  destruct (write_binary w1 (room - 1) (le_bytes 4 (zlen (SerializeAsString a))) Hw1) as (w2 & E2 & Hw2 & Hwr2); [rewrite zlen_le_bytes; lia..|].
  rewrite zlen_le_bytes in Hw2.
  destruct (SharedBuf.WriteAll_spec w2 (room - 1 - 4) (SerializeAsString a) Hw2) as (w3 & E3 & Hw3 & Hwr3); [lia..|].
  destruct (read_response_spec uninit r w3 response rest Hr Hrem) as (r' & E4 & _ & Hrem').
  exists r', w3. unfold RunLauncherAction_extended, mbind, lift, on_write.
  rewrite bool_decide_eq_false_2 by (intros E; rewrite E in Hlen; by destruct Hlen). cbn [negb expect].
  rewrite E1, u32_id by (unfold is_u32; lia). rewrite E2, E3, (proj2 (Z.ltb_lt 0 _)), Z.eqb_refl by lia. cbn [expect].
  rewrite wait_readable by done. rewrite E4. split_and!; [done..|]. by rewrite Hwr3, Hwr2, Hwr1, <-!app_assoc.
Qed.
End wire.

(** ** The server's side of a request *)
Lemma while_done {X T} (body : X -> X + T) t0 x t : body x = inr t -> while_ body t0 x = t.
Proof.
  intros E. apply (while_rule body (fun y => y = x) (fun _ => 0) (fun u => u = t)); [done|lia|].
  intros y -> _. by rewrite E.
Qed.

Section served.
Context {H : Type} `{Host H} (c : Config) (dup_fd : Z).
Context {R : Type} `{IO.ReadLaws R} {W : Type} `{IO.WriteLaws W} `{Proto}.

Lemma respond_spec response (s : Server H) (w : W) room :
  IO.write_ok w room -> 1 <= room ->
  exists w', respond response (s, w) = (Ok tt, (s, w')) /\ IO.write_ok w' (room - 1) /\ IO.written w' = IO.written w ++ [response].
Proof.
  intros Hw Hroom. destruct (IO.write_spec w room [response] Hw) as (n & w' & E & Hn & Hw' & Hwr & Hpos); [done|].
  change (zlen [response]) with 1 in Hn. specialize (Hpos ltac:(done)). assert (n = 1) as -> by lia.
  exists w'. unfold respond. by rewrite E.
Qed.

Definition answer_byte (o : result unit) : ascii := if is_ok o then response_kSuccess else response_kError.

Lemma serve_extended (r : R) (w : W) room (s s' : Server H) a rest o :
  IO.read_ok r -> IO.remaining r = extended_request a ++ rest -> 0 < zlen (SerializeAsString a) < 2 ^ 32 ->
  IO.write_ok w room -> 1 <= room ->
  HandleExtended c (mkInfo kExtended a) s = (o, s') -> (o = Ok tt \/ exists m, o = Err m) ->
  exists r' w', serve_client c dup_fd (r, (s, w)) = (Ok Continue, (r', (s', w'))) /\
    IO.remaining r' = rest /\ IO.written w' = IO.written w ++ [answer_byte o].
Proof.
  intros Hr Hrem Hlen Hw Hroom Hh Ho.
  destruct (read_extended r a rest Hr Hrem Hlen) as (r' & Er & _ & Hrem').
  destruct (respond_spec (answer_byte o) s' w room Hw Hroom) as (w' & Ew & _ & Hwr).
  exists r', w'. split; [|done]. unfold serve_client. apply while_done. unfold client_turn. rewrite Er. cbn [action].
  rewrite bool_decide_eq_true_2 by done. cbn [negb]. unfold attempt, on_server. rewrite Hh.
  unfold answer_byte in Ew. destruct Ho as [->|[m ->]]; cbn [is_ok] in Ew |- *; by rewrite Ew.
Qed.
End served.

(** C21. A request and its answer: a server that finds an extended request of a client on its
    socket handles it, answers with one byte that tells whether handling it went well, and
    goes on to the next client; the client that sends the request and gets that byte
    returns success exactly when the server's handler did. The bytes that the client
    writes are those that the server reads. *)
Theorem request_answered {H} `{Host H} {R} `{IO.ReadLaws R} {W} `{IO.WriteLaws W} `{Proto} (c : Config) dup_fd select uninit
    (rs rc : R) (ws wc : W) room_s room_c (s s' : Server H) a t rest_s rest_c o :
  0 < zlen (SerializeAsString a) < 2 ^ 32 ->
  IO.read_ok rs -> IO.remaining rs = extended_request a ++ rest_s -> IO.write_ok ws room_s -> 1 <= room_s ->
  IO.read_ok rc -> IO.remaining rc = answer_byte o :: rest_c -> readable select rc ->
  IO.write_ok wc room_c -> zlen (extended_request a) <= room_c ->
  HandleExtended c (mkInfo kExtended a) s = (o, s') -> (o = Ok tt \/ exists m, o = Err m) ->
  exists rs' ws' rc' wc' oc,
    serve_client c dup_fd (rs, (s, ws)) = (Ok Continue, (rs', (s', ws'))) /\
    IO.written ws' = IO.written ws ++ [answer_byte o] /\ IO.remaining rs' = rest_s /\
    RunLauncherAction_extended select uninit a t (rc, wc) = (oc, (rc', wc')) /\
    IO.written wc' = IO.written wc ++ extended_request a /\ IO.remaining rc' = rest_c /\
    is_ok oc = is_ok o.
Proof.
  intros Hlen Hrs Hrems Hws Hrooms Hrc Hremc Hsel Hwc Hroomc Hh Ho.
  destruct (serve_extended c dup_fd rs ws room_s s s' a rest_s o Hrs Hrems Hlen Hws Hrooms Hh Ho) as (rs' & ws' & Es & Hr1 & Hw1).
  destruct (send_extended select rc wc room_c uninit a t (answer_byte o) rest_c Hrc Hremc Hsel Hwc Hroomc Hlen) as (rc' & wc' & Ec & Hr2 & Hw2).
  exists rs', ws', rc', wc', (answer_ok (answer_byte o)). split_and!; try done. by destruct Ho as [->|[m ->]].
Qed.

(** ** The status of the device *)
Section history.
Context {H : Type} `{Host H} (c : Config).

(** What the loop of [Run] may see: a request, or the end of the device's processes. *)
Inductive Input := Request (a : Actions) | Processes_ended.
Definition take_input (i : Input) : M (Server H) unit :=
  match i with
  | Request a => HandleExtended c (mkInfo kExtended (mkExtended a []))
  | Processes_ended => monitor_exited
  end.
(** The inputs with whether they went well, and the server after them. *)
Fixpoint run_inputs (is_ : list Input) (s : Server H) : list (Input * bool) * Server H :=
  match is_ with
  | [] => ([], s)
  | i :: is_ => let '(o, s) := take_input i s in let '(h, s) := run_inputs is_ s in ((i, is_ok o) :: h, s)
  end.

(** The status as the history alone gives it. *)
Definition status_after (d : DeviceStatus) (x : Input * bool) : DeviceStatus :=
  match x with
  | (Request Suspend, true) => kSuspended
  | (Request Resume, true) => kActive
  | (Processes_ended, true) => kGuestOff
  | _ => d
  end.
(** Whether an input can go well in a status. *)
Definition allowed (d : DeviceStatus) (i : Input) : bool :=
  match i with
  | Request Suspend | Request Resume => negb (is_status kGuestOff d)
  | Request (SnapshotTake _) => is_status kSuspended d
  | Request ACTIONS_NOT_SET => false
  | Request _ => is_status kActive d
  | Processes_ended => true
  end.

Lemma on_host_status {A} (m : M H A) (s : Server H) : device_status (snd (on_host m s)) = device_status s.
Proof. unfold on_host. by destruct (m (host s)). Qed.

Lemma expect_status_run b msg (k : unit -> M (Server H) unit) (s : Server H) :
  (let! u := expect_status b msg in k u) s = if b (device_status s) then k tt s else (Err msg, s).
Proof. unfold expect_status, mbind, get, lift. by destruct (b (device_status s)). Qed.

Lemma guarded_status b msg (m : M H unit) (s : Server H) o s' :
  (let! _ := expect_status b msg in on_host m) s = (o, s') ->
  device_status s' = device_status s /\ (is_ok o = true -> b (device_status s) = true).
Proof.
  rewrite expect_status_run. destruct (b (device_status s)); [|by intros [= <- <-]].
  intros E. pose proof (on_host_status m s) as Hs. by rewrite E in Hs.
Qed.
Lemma switch_status (d0 d : DeviceStatus) msg (m : M H unit) (s : Server H) o s' :
  (let! _ := expect_status (fun d => negb (is_status kGuestOff d)) msg in
   let! s := get in
   let! _ := (if is_status d0 (device_status s) then on_host m else mret tt) in
   set_status d) s = (o, s') ->
  device_status s' = (if is_ok o then d else device_status s) /\ (is_ok o = true -> negb (is_status kGuestOff (device_status s)) = true).
Proof.
  rewrite expect_status_run. destruct (negb _) eqn:Eb; [|by intros [= <- <-]].
  unfold mbind, get. destruct (is_status d0 (device_status s)); [|by intros [= <- <-]].
  pose proof (on_host_status m s) as Hs. destruct (on_host m s) as [[[]| | |] s1]; intros [= <- <-]; done.
Qed.

Lemma take_input_status i (s : Server H) o s' :
  take_input i s = (o, s') ->
  device_status s' = status_after (device_status s) (i, is_ok o) /\ (is_ok o = true -> allowed (device_status s) i = true).
Proof.
  destruct i as [a|]; cbn [take_input].
  - unfold HandleExtended. cbn [action extended_action actions].
    rewrite (bool_decide_eq_true_2 (kExtended = kExtended)) by done. unfold mbind at 1. cbn [lift expect].
    destruct a; cbn [status_after allowed]; intros E;
      try (apply guarded_status in E as [-> Hb]; split; [by destruct (is_ok o)|done]).
    + apply switch_status in E as [-> Hb]. split; [by destruct (is_ok o)|done].
    + apply switch_status in E as [-> Hb]. split; [by destruct (is_ok o)|done].
    + by injection E as <- <-.
  - unfold monitor_exited, mbind. pose proof (on_host_status StopMonitoredProcesses s) as Hs.
    destruct (on_host _ s) as [[[]| | |] s1]; intros [= <- <-]; done.
Qed.

Lemma run_inputs_status is_ (s : Server H) h s' :
  run_inputs is_ s = (h, s') ->
  device_status s' = foldl status_after (device_status s) h /\
  forall h1 i h2, h = h1 ++ (i, true) :: h2 -> allowed (foldl status_after (device_status s) h1) i = true.
Proof.
  revert s h s'. induction is_ as [|i is_ IH]; intros s h s'; cbn [run_inputs].
  { intros [= <- <-]. split; [done|]. by intros [|??] ???. }
  destruct (take_input i s) as [o s1] eqn:Ei. destruct (run_inputs is_ s1) as [h0 s2] eqn:Er. intros [= <- <-].
  apply take_input_status in Ei as [Hs Ha]. apply IH in Er as [Hf Hall]. rewrite Hs in Hf, Hall. split; [done|].
  intros [|x h1] i' h2; cbn [app]; intros E; simplify_eq; [auto|]. eapply Hall. done.
Qed.

(** The last change of status in a history that ends suspended. *)
Lemma suspended_since d h : d <> kSuspended -> foldl status_after d h = kSuspended ->
  exists h0 h3, h = h0 ++ (Request Suspend, true) :: h3 /\
    Forall (fun x => x <> (Request Resume, true) /\ x <> (Processes_ended, true)) h3.
Proof.
  intros Hd. induction h as [|x h IH] using rev_ind; [done|]. rewrite foldl_app. cbn [foldl]. intros Hs.
  destruct (decide (foldl status_after d h = kSuspended)) as [E|E].
  - destruct (IH E) as (h0 & h3 & -> & Hall). exists h0, (h3 ++ [x]). split; [by rewrite <-app_assoc|].
    apply Forall_app. split; [done|]. constructor; [|done]. split; intros ->; done.
  - exists h, []. split; [|done]. by destruct x as [[[]|] []].
Qed.
End history.


(** Once the device's processes have ended no request changes the status or succeeds,
    until run_cvd is replaced. *)
Theorem off_stays_off {H} `{Host H} (c : Config) (s : Server H) inputs history s' :
  device_status s = kGuestOff -> run_inputs c inputs s = (history, s') ->
  device_status s' = kGuestOff /\ forall a, (Request a, true) ∉ history.
Proof.
  intros Hs Hr. apply run_inputs_status in Hr as [Hd Hall]. rewrite Hs in Hd, Hall.
  assert (Hno : forall a, (Request a, true) ∉ history).
  { assert (Hpre : forall h1 h2, history = h1 ++ h2 -> foldl status_after kGuestOff h1 = kGuestOff).
    { induction h1 as [|x h1 IH] using rev_ind; [done|]. intros h2 E. rewrite foldl_app. cbn [foldl]. rewrite <-app_assoc in E.
      rewrite (IH _ E). destruct x as [i []]; [|by destruct i as [[]|]].
      specialize (Hall _ _ _ E). rewrite (IH _ E) in Hall. destruct i as [[]|]; vm_compute in Hall; done. }
    intros a (h1 & h2 & E)%list_elem_of_split. specialize (Hall _ _ _ E). rewrite (Hpre _ _ E) in Hall. destruct a; vm_compute in Hall; done. }
  split; [|done]. rewrite Hd. clear Hd Hall. induction history as [|[i ok] l IH]; [done|]. cbn [foldl].
  assert (status_after kGuestOff (i, ok) = kGuestOff) as ->.
  { destruct i as [a|], ok; try done; [|by destruct a]. destruct (Hno a). left. }
  apply IH. intros a Ha. apply (Hno a). by right.
Qed.

(** C30. A suspend that fails half-way, for example after the guest was suspended but when the
    host's processes were not, leaves the device active in the books: the resume that
    follows reports success without doing anything, and the guest stays suspended. *)
Theorem resume_after_failed_suspend {H} `{Host H} (c : Config) (s s1 : Server H) m :
  device_status s = kActive ->
  HandleExtended c (mkInfo kExtended (mkExtended Suspend [])) s = (Err m, s1) ->
  HandleExtended c (mkInfo kExtended (mkExtended Resume [])) s1 = (Ok tt, s1).
Proof.
  intros Hs Hf. destruct (take_input_status c (Request Suspend) s (Err m) s1 Hf) as [Hd _].
  rewrite Hs in Hd. cbn in Hd. destruct s1 as [d h]. cbn in Hd. by subst d.
Qed.

(** When the launcher goes away without answering, the client decides by the contents of a
    variable that was never assigned whether its request succeeded. *)
Theorem unanswered_request {R} `{IO.ReadLaws R} {W} `{IO.WriteLaws W} select uninit a (r : R) (w : W) room :
  IsShortAction a = true -> IO.read_ok r -> IO.remaining r = [] -> IO.write_ok w room -> 1 <= room ->
  exists r' w', RunLauncherAction select uninit a None (r, w) =
    (if bool_decide (uninit = response_kSuccess) then Ok tt else Err "response == kSuccess", (r', w')).
Proof.
  intros Ha Hr Hrem Hw Hroom. destruct (write_binary w room [a] Hw) as (w' & E & _ & _); [change (zlen [a]) with 1; lia|done|].
  destruct (read_response_end uninit r w' Hr Hrem) as (r' & Er). exists r', w'.
  unfold RunLauncherAction, mbind, lift, on_write. rewrite Ha. cbn [expect]. rewrite E. unfold wait_for, mret. by rewrite Er.
Qed.

(** A client that asks for the status any number of times is answered each time, in every
    status of the device, and the server is as before. *)
Theorem status_always_answered {H} `{Host H} {R} `{IO.ReadLaws R} {W} `{IO.WriteLaws W} `{Proto} (c : Config) dup_fd
    (r : R) (w : W) room (s : Server H) n :
  IO.read_ok r -> IO.remaining r = replicate n kStatus -> IO.write_ok w room -> Z.of_nat n <= room ->
  exists r' w', serve_client c dup_fd (r, (s, w)) = (Ok Continue, (r', (s, w'))) /\
    IO.remaining r' = [] /\ IO.written w' = IO.written w ++ replicate n response_kSuccess.
Proof.
  intros Hr Hrem Hw Hroom. unfold serve_client.
  apply while_rule with (m := fun x => zlen (IO.remaining x.1))
    (I := fun '(r1, (s1, w1)) => s1 = s /\ IO.read_ok r1 /\ exists k, (k <= n)%nat /\ IO.remaining r1 = replicate k kStatus /\
       IO.write_ok w1 (room - Z.of_nat (n - k)) /\ IO.written w1 = IO.written w ++ replicate (n - k) response_kSuccess).
  - split_and!; [done..|]. exists n. rewrite Nat.sub_diag, app_nil_r. cbn. rewrite Z.sub_0_r. by split_and!.
  - cbn [fst]. pose proof (IO.remaining_size r Hr). pose proof (zlen_nonneg (IO.remaining r)). lia.
  - intros (r1 & s1 & w1) (-> & Hr1 & k & Hk & Hrem1 & Hw1 & Hwr1) _. unfold client_turn. cbn [fst].
    destruct k as [|k].
    + destruct (read_end r1 Hr1 Hrem1) as (r2 & E & _ & Hrem2). rewrite E. exists r2, w1.
      split_and!; [done..|]. by rewrite Nat.sub_0_r in Hwr1.
    + destruct (read_short r1 kStatus (replicate k kStatus) Hr1 Hrem1) as (r2 & E & Hr2 & Hrem2); [done|]. rewrite E. cbn [action].
      destruct (respond_spec response_kSuccess s w1 (room - Z.of_nat (n - S k)) Hw1) as (w2 & Ew & Hw2 & Hwr2); [lia|].
      change (bool_decide (kStatus = kExtended)) with false. cbn [negb]. unfold HandleActionWithNoData.
      change (bool_decide (kStatus = kStop)) with false. change (bool_decide (kStatus = kFail)) with false.
      change (bool_decide (kStatus = kStatus)) with true. cbv iota. unfold mbind, mret. rewrite Ew.
      split; [|cbn [fst]; rewrite Hrem1, Hrem2; cbn [replicate]; rewrite zlen_cons; pose proof (zlen_nonneg (replicate k kStatus)); lia].
      split_and!; [done..|]. exists k. split_and!; [lia|done| |].
      * replace (room - Z.of_nat (n - k)) with (room - Z.of_nat (n - S k) - 1) by lia. done.
      * rewrite Hwr2, Hwr1, <-app_assoc. replace (n - k)%nat with (S (n - S k)) by lia. by rewrite replicate_S_end.
Qed.

(** Restarting a device succeeds exactly when the launcher accepted the request and the
    new launcher reported exit code 0. *)
Theorem restart_outcome {R} `{IO.ReadLaws R} {W} `{IO.WriteLaws W} select uninit uninit_code launcher_timeout boot_timeout
    (r : R) (w : W) room response code rest :
  IO.read_ok r -> IO.remaining r = response :: le_bytes 4 (u32 code) ++ rest -> (forall r', readable select r') ->
  IO.write_ok w room -> 1 <= room -> in_i32 code = true ->
  exists o r' w', Restart select uninit uninit_code launcher_timeout boot_timeout (r, w) = (o, (r', w')) /\
    IO.written w' = IO.written w ++ [kRestart] /\
    (is_ok o = true <-> response = response_kSuccess /\ code = 0).
Proof.
  intros Hr Hrem Hsel Hw Hroom Hcode.
  destruct (write_binary w room [kRestart] Hw) as (w' & Ew & _ & Hwr); [change (zlen [kRestart]) with 1; lia|done|].
  destruct (read_response_spec uninit r w' response _ Hr Hrem) as (r1 & E1 & Hr1 & Hrem1).
  assert (Hrun : RunLauncherAction select uninit kRestart (Some launcher_timeout) (r, w) = (answer_ok response, (r1, w'))).
  { unfold RunLauncherAction, mbind, lift, on_write. change (IsShortAction kRestart) with true. cbn [expect].
    rewrite Ew, wait_readable by done. done. }
  unfold Restart, restart_with. unfold mbind at 1. rewrite Hrun. unfold answer_ok. case_bool_decide as Hresp.
  2:{ exists (Err "response == kSuccess"), r1, w'. split_and!; [done..|]. split; [done|naive_solver]. }
  destruct (read_binary r1 4 _ rest Hr1 Hrem1) as (r2 & E2 & _ & _); [apply zlen_le_bytes|lia|].
  assert (Hcode' : ReadExitCode uninit_code r1 = (Ok code, r2)).
  { unfold ReadExitCode, mbind, mret. rewrite E2, le_value_bytes by apply u32_range. f_equal. f_equal.
    unfold as_i32, u32, in_i32 in *. rewrite Z.add_mod_idemp_l, Z.mod_small by lia. lia. }
  unfold mbind at 1. pose proof (wait_readable select (Some boot_timeout) r1 w' (Hsel r1)) as Hwait. cbn [wait_for] in Hwait.
  rewrite Hwait. unfold mbind, on_read, lift. rewrite Hcode'. unfold kVirtualDeviceBootFailed, exit_kSuccess, expect.
  destruct (Z.eqb_spec code 11) as [E|E]; cbn [negb]; [|destruct (Z.eqb_spec code 0)]; eexists _, r2, w';
    (split_and!; [done..|]); split; try done; intros [_ ?]; (done || lia).
Qed.

(** ** Examples *)
(** A host that is its virtual machine and its processes: which of them run,
    and which requests to them fail. *)
Record Toy := mkToy { guest_runs : bool; processes_run : bool; processes_deaf : bool; guest_deaf : bool }.
Definition exited (code : Z) : option ProcessMonitor.Siginfo := Some (ProcessMonitor.mkSiginfo ProcessMonitor.CLD_EXITED code).
#[local] Instance toy_host : Host Toy := {
  StopMonitoredProcesses h := (Ok tt, mkToy false false (processes_deaf h) (guest_deaf h));
  SuspendMonitoredProcesses h :=
    if processes_deaf h then (Err "kFailure", h) else (Ok tt, mkToy (guest_runs h) false false (guest_deaf h));
  ResumeMonitoredProcesses h :=
    if processes_deaf h then (Err "kFailure", h) else (Ok tt, mkToy (guest_runs h) true false (guest_deaf h));
  Run _ command h :=
    if bool_decide (command !! 1%nat = Some (str "suspend")) then (exited 0, mkToy false (processes_run h) (processes_deaf h) (guest_deaf h))
    else if bool_decide (command !! 1%nat = Some (str "resume")) then
      if guest_deaf h then (exited 1, h) else (exited 0, mkToy true (processes_run h) (processes_deaf h) false)
    else (exited 0, h);
  FileExists _ _ := true;
  FileSize _ _ := 0;
  LoadFromFile _ _ := Ok (mkMeta (Some (str "/s")) {[str "1" := str "cvd-1"]});
  unlink _ h := h;
  RemoveFile _ h := (Ok tt, h);
  CreateBlankEmptyImage _ _ h := h;
  CreateBlankSdcardImage _ _ h := h;
  utime _ h := h;
  exec_self _ _ h := (true, h);
  SendStartRecordingCommand h := (Ok tt, h);
  SendStopRecordingCommand h := (Ok tt, h);
  SendScreenshotDisplayCommand _ _ h := (Ok tt, h)
}.
Definition toy_config : Config :=
  mkConfig kCrosvm [] (str "crosvm") (str "/a") false (str "1") (str "/i") (str "/u") (str "0.0.0.0:6520")
    [] [] [] [] (str "crosvm") (str "/bin") (str "/bin") [str "run_cvd"] (fun p => p).
(** A codec: actions as numbers, in binary. *)
Definition to_fields (a : ExtendedLauncherAction) : Z * Z * bytes * bytes :=
  match actions a with
  | Suspend => (0, 0, [], verbosity a) | Resume => (1, 0, [], verbosity a)
  | StartScreenRecording => (2, 0, [], verbosity a) | StopScreenRecording => (3, 0, [], verbosity a)
  | SnapshotTake p => (4, 0, p, verbosity a) | ScreenshotDisplay n p => (5, n, p, verbosity a)
  | ACTIONS_NOT_SET => (6, 0, [], verbosity a)
  end.
Definition of_fields (x : Z * Z * bytes * bytes) : ExtendedLauncherAction :=
  let '(tag, n, p, v) := x in
  mkExtended (if tag =? 0 then Suspend else if tag =? 1 then Resume else if tag =? 2 then StartScreenRecording
              else if tag =? 3 then StopScreenRecording else if tag =? 4 then SnapshotTake p
              else if tag =? 5 then ScreenshotDisplay n p else ACTIONS_NOT_SET) v.
Fixpoint pos_bits (p : positive) : bytes :=
  match p with xH => [] | xO p => "0"%char :: pos_bits p | xI p => "1"%char :: pos_bits p end.
Fixpoint bits_pos (l : bytes) : positive :=
  match l with [] => xH | c :: l => if bool_decide (c = "0"%char) then xO (bits_pos l) else xI (bits_pos l) end.
Lemma bits_pos_bits p : bits_pos (pos_bits p) = p.
Proof. induction p as [p IH|p IH|]; cbn; by rewrite ?IH. Qed.
#[local, refine] Instance toy_proto : Proto := {
  SerializeAsString a := pos_bits (encode (to_fields a));
  ParseFromString bs := of_fields <$> decode (bits_pos bs)
}.
Proof. intros [a v]. rewrite bits_pos_bits, decode_encode. by destruct a. Defined.

Definition suspend_request : ExtendedLauncherAction := mkExtended Suspend [].
Definition fine : Toy := mkToy true true false false.
Lemma request_answered_witness : exists rs' ws' rc' wc' oc,
  serve_client toy_config 7 (SharedBuf.mkPipe 2 (extended_request suspend_request), (started fine, SharedBuf.mkPipe 0 [])) =
    (Ok Continue, (rs', (mkServer kSuspended (mkToy false false false false), ws'))) /\
  RunLauncherAction_extended (fun _ _ => 1) "000"%char suspend_request (Some 30)
    (SharedBuf.mkPipe 2 [response_kSuccess], SharedBuf.mkPipe 0 []) = (oc, (rc', wc')) /\ is_ok oc = true.
Proof.
  destruct (request_answered toy_config 7 (fun _ _ => 1) "000"%char
    (SharedBuf.mkPipe 2 (extended_request suspend_request)) (SharedBuf.mkPipe 2 [response_kSuccess])
    (SharedBuf.mkPipe 0 []) (SharedBuf.mkPipe 0 []) 100 100 (started fine) (mkServer kSuspended (mkToy false false false false))
    suspend_request (Some 30) [] [] (Ok tt)) as (rs' & ws' & rc' & wc' & oc & E1 & _ & _ & E2 & _ & _ & Hok).
  - vm_compute. split; reflexivity.
  - vm_compute. reflexivity.
  - by rewrite app_nil_r.
  - vm_compute. congruence.
  - lia.
  - vm_compute. reflexivity.
  - reflexivity.
  - intros t. lia.
  - vm_compute. congruence.
  - vm_compute. congruence.
  - vm_compute. reflexivity.
  - by left.
  - exists rs', ws', rc', wc', oc. split_and!; [exact E1|exact E2|exact Hok].
Defined.

Definition two_snapshots : list Input := [Request (SnapshotTake (str "/s")); Request Suspend; Request (SnapshotTake (str "/s"))].
Lemma off_stays_off_witness : forall a, (Request a, true) ∉ [(Request Suspend, false); (Processes_ended, true)].
Proof.
  apply (off_stays_off toy_config (mkServer kGuestOff fine) [Request Suspend; Processes_ended] _
    (mkServer kGuestOff (mkToy false false false false))).
  - reflexivity.
  - vm_compute. reflexivity.
Defined.
(** The guest was suspended before the host's processes refused to be: after
    the resume that reports success it still is. *)
Definition half_suspended : Server Toy := mkServer kActive (mkToy false true true false).
Lemma resume_after_failed_suspend_witness :
  HandleExtended toy_config (mkInfo kExtended (mkExtended Resume [])) half_suspended = (Ok tt, half_suspended) /\
  guest_runs (host half_suspended) = false.
Proof.
  split; [|reflexivity].
  apply (resume_after_failed_suspend toy_config (started (mkToy true true true false)) half_suspended "kFailure").
  - reflexivity.
  - vm_compute. reflexivity.
Defined.
(** A resume that fails after the host's processes were resumed leaves the
    status as it was, and a snapshot is then taken while they run. *)
Lemma snapshot_of_half_resumed : exists s1 s2,
  take_input toy_config (Request Resume) (mkServer kSuspended (mkToy false false false true)) = (Err "crosvm returns non zero code", s1) /\
  processes_run (host s1) = true /\
  take_input toy_config (Request (SnapshotTake (str "/s"))) s1 = (Ok tt, s2).
Proof. eexists _, _. split_and!; vm_compute; reflexivity. Qed.

Lemma unanswered_request_witness : exists r' w',
  RunLauncherAction (fun _ _ => 1) response_kSuccess kStop None (SharedBuf.mkPipe 0 [], SharedBuf.mkPipe 0 []) = (Ok tt, (r', w')).
Proof.
  apply (unanswered_request (fun _ _ => 1) response_kSuccess kStop (SharedBuf.mkPipe 0 []) (SharedBuf.mkPipe 0 []) 1).
  - reflexivity.
  - vm_compute. reflexivity.
  - reflexivity.
  - vm_compute. congruence.
  - lia.
Defined.
Lemma status_always_answered_witness : exists r' w',
  serve_client toy_config 7 (SharedBuf.mkPipe 1 (str "III"), (mkServer kGuestOff fine, SharedBuf.mkPipe 0 [])) =
    (Ok Continue, (r', (mkServer kGuestOff fine, w'))) /\ IO.remaining r' = [] /\ IO.written w' = str "SSS".
Proof.
  destruct (status_always_answered toy_config 7 (SharedBuf.mkPipe 1 (str "III")) (SharedBuf.mkPipe 0 []) 3 (mkServer kGuestOff fine) 3)
    as (r' & w' & E & Hr & Hw).
  - vm_compute. reflexivity.
  - reflexivity.
  - vm_compute. congruence.
  - lia.
  - exists r', w'. split_and!; [exact E|exact Hr|]. rewrite Hw. reflexivity.
Defined.
Lemma restart_outcome_witness : exists o r' w',
  Restart (fun _ _ => 1) "000"%char 5 30 500 (SharedBuf.mkPipe 1 (str "S" ++ le_bytes 4 11), SharedBuf.mkPipe 0 []) = (o, (r', w')) /\
  ~ is_ok o = true.
Proof.
  destruct (restart_outcome (fun _ _ => 1) "000"%char 5 30 500 (SharedBuf.mkPipe 1 (str "S" ++ le_bytes 4 11)) (SharedBuf.mkPipe 0 []) 1
    response_kSuccess 11 []) as (o & r' & w' & E & _ & Hok).
  - vm_compute. reflexivity.
  - reflexivity.
  - intros r' t. lia.
  - vm_compute. congruence.
  - lia.
  - reflexivity.
  - exists o, r', w'. split; [exact E|]. intros [_ Hc]%Hok. discriminate.
Defined.
End ServerLoop.
