(* ===== verification/Cvd.v ===== *)
(** * The cvd command (host/commands/cvd)

    cvd.cpp, cli/frontline_parser.cpp, cli/command_request.cpp and
    cli/request_context.cpp: from the arguments of the process to the handler of
    the subcommand.  cli/commands/: the handlers of remove, stop, clear, restart
    and powerwash, and the flags of status.  They act on the groups of
    InstanceManager, selected as in Selector, and on the devices through
    ServerLoop. *)
From S2P Require Import Prelude CppString Flags GflagsCompat Instances IO SharedBuf ProcessMonitor.
From S2P Require Import DataViewer InstanceDb InstanceLock InstanceManager Selector ServerLoop.

Module Cvd.
Import CppString Flags GflagsCompat Instances DataViewer InstanceDb InstanceLock InstanceManager Selector.

(** ** command_request.cpp *)
Record CommandRequest := mkRequest {
  args_ : list bytes; env_ : bytes_map bytes; selectors_ : SelectorOptions;
  subcommand_ : bytes; subcommand_arguments_ : list bytes
}.

Definition help_bool_opts : list bytes :=
  [str "help"; str "helpfull"; str "helpshort"; str "helppackage"; str "helpxml"; str "version"; str "h"].
Definition help_str_opts : list bytes := [str "helpon"; str "helpmatch"].

Fixpoint build_flags {S} (flags : list (result (Flag S))) : result (list (Flag S)) :=
  match flags with
  | [] => Ok []
  | f :: flags => let* f := f in let* fs := build_flags flags in Ok (f :: fs)
  end.

Section request.
Context `{Absl} (moved_from : bytes -> bytes).

(** [ConsumeFlags(flags, args, opts)]: what the variables and the arguments
    are after it. *)
Definition consume {S} (flags : result (list (Flag S))) (opts : ConsumeFlagsOpts) (s : S) (args : list bytes)
    : result (S * list bytes) :=
  let* flags := flags in
  match ConsumeFlags moved_from flags opts (s, args) with
  | (Ok _, (s, args)) => Ok (s, args)
  | (fl, _) => fail_as fl
  end.
Definition strict : ConsumeFlagsOpts := mkOpts false true.
Definition lenient : ConsumeFlagsOpts := mkOpts false false.

Definition placeholder_bool : ref (bool * bytes) bool := mkRef fst (fun v s => (v, s.2)).
Definition placeholder_str : ref (bool * bytes) bytes := mkRef snd (fun v s => (s.1, v)).
Definition help_flags : result (list (Flag (bool * bytes))) :=
  build_flags (((fun o => GflagsCompatFlag_bool o placeholder_bool) <$> help_bool_opts) ++
               ((fun o => GflagsCompatFlag_string o placeholder_str) <$> help_str_opts)).
Definition HasHelpFlag (args : list bytes) : result bool :=
  let* (_, copied_args) := consume help_flags lenient (false, []) args in
  Ok (negb (zlen args =? zlen copied_args)).

(** The constructor; [Build] calls it and never fails. *)
Definition new_request (args : list bytes) (env : bytes_map bytes) (selectors : SelectorOptions) : result CommandRequest :=
  match args with
  | [] => Ok (mkRequest args env selectors [] [])
  | program :: rest =>
      let base := ProcessMonitor.Basename program in
      let '(subcommand, arguments) :=
        match rest with
        | s :: arguments => if bool_decide (base = str "cvd") then (s, arguments) else (base, rest)
        | [] => (base, [])
        end in
      match HasHelpFlag [subcommand] with
      | Ok is_help => Ok (mkRequest args env selectors (if is_help then str "help" else subcommand) arguments)
      | Err _ => Ok (mkRequest args env selectors subcommand arguments)
      | fl => fail_as fl
      end
  end.

(** ** frontline_parser.cpp: the selectors, and the arguments without them *)
Definition no_selectors : SelectorOptions := mkSelectors None None.
Definition ExtractCvdArgs (args : list bytes) : result (SelectorOptions * list bytes) :=
  match args with
  | [] => Err "!args.empty()"
  | program :: args =>
      let* (selector_options, args) := consume BuildCommonSelectorFlags lenient no_selectors args in
      Ok (selector_options, program :: args)
  end.
End request.

(** ** request_context.cpp and command_handler.h *)
(** [W] is what the handlers act on. *)
Record CvdCommandHandler (W : Type) := mkHandler {
  CmdList : list bytes;
  RequiresHostConfiguration : bool;
  Handle : CommandRequest -> M W unit;
  DetailedHelp : CommandRequest -> M W bytes
}.
Arguments mkHandler {W}. Arguments CmdList {W}. Arguments RequiresHostConfiguration {W}.
Arguments Handle {W}. Arguments DetailedHelp {W}.

Section context.
Context {W : Type}.
Implicit Types (handlers : list (CvdCommandHandler W)).

Definition CanHandle (handler : CvdCommandHandler W) (request : CommandRequest) : bool :=
  bool_decide (subcommand_ request ∈ CmdList handler).

(** The first command of each handler that starts with the same letter. *)
Definition same_letter (subcommand command : bytes) : bool :=
  match command, subcommand with c :: _, s :: _ => bool_decide (c = s) | _, _ => false end.
Definition GetPossibleCommands (request : CommandRequest) handlers : list bytes :=
  match subcommand_ request with
  | [] => []
  | _ => handlers ≫= fun handler =>
           option_list (head (base.filter (fun command => same_letter (subcommand_ request) command = true) (CmdList handler)))
  end.

Definition RequestHandler (request : CommandRequest) handlers : result (CvdCommandHandler W) :=
  match base.filter (fun handler => CanHandle handler request = true) handlers with
  | [handler] => Ok handler
  | [] => Err "Unable to find matching command"
  | _ => Err "The command matched multiple handlers"
  end.

(** ** cvd.cpp *)
(** The help that was printed, or nothing when the command was handled. *)
Context `{Absl} (moved_from : bytes -> bytes) (EnforceHostConfigured : result unit) (handlers : list (CvdCommandHandler W)).
Definition HandleCommand (cvd_process_args : list bytes) (env : bytes_map bytes) (selector_args : SelectorOptions)
    : M W (option bytes) :=
  let! request := lift (new_request moved_from cvd_process_args env selector_args) in
  let! handler := lift (RequestHandler request handlers) in
  let! help := lift (HasHelpFlag moved_from (subcommand_arguments_ request)) in
  if help : bool then let! text := DetailedHelp handler request in mret (Some text)
  else
    let! _ := lift (if RequiresHostConfiguration handler then EnforceHostConfigured else Ok tt) in
    let! _ := Handle handler request in
    mret None.

Definition HandleCvdCommand (all_args : list bytes) (env : bytes_map bytes) : M W (option bytes) :=
  let! _ := lift (expect (negb (bool_decide (all_args = []))) "!all_args.empty()") in
  let args := if zlen all_args =? 1 then [str "cvd"; str "help"] else all_args in
  let! (selector_args, args) := lift (ExtractCvdArgs moved_from args) in
  HandleCommand args env selector_args.
End context.

(** The commands of the handlers, in the order of [RequestContext]. *)
Definition command_lists : list (list bytes) :=
  [[str "cache"]; [str "create"]; [str "display"]; [str "env"]; [str "fetch"; str "fetch_cvd"]; [str "fleet"]; [str "clear"];
   [str "bugreport"; str "host_bugreport"; str "cvd_host_bugreport"]; [str "stop"; str "stop_cvd"]; [str "help"];
   [str "event_devices"]; [str "lint"]; [str "load"]; [str "login"]; [str "powerbtn"]; [str "powerwash"]; [str "monitor"];
   [str "restart"]; [str "remove"; str "rm"]; [str "reset"]; [str "screen_recording"];
   [str "suspend"; str "resume"; str "snapshot_take"]; [str "setup"]; [str "start"; str "launch_cvd"];
   [str "status"; str "cvd_status"]; [str "ps"]; [str "version"]; [str "logs"]].

(** ** Handlers *)
Section handlers.
Context `{Absl} `{Codec} (e : InstanceManager.Env) (input : list bytes) (CanShowSelectionMenu : bool) (moved_from : bytes -> bytes).

(** [if (!CF_EXPECT(instance_manager_.HasInstanceGroups())) return CF_ERR(NoGroupMessage(request));] *)
Definition require_groups : M World unit :=
  let! any := HasInstanceGroups e in lift (expect any "no devices present").
(** [ConsumeFlags({}, args, {.fail_on_unexpected_argument = true})] *)
Definition no_arguments (args : list bytes) : result unit :=
  let* _ := consume (S := unit) moved_from (Ok []) strict tt args in Ok tt.

(** remove.cpp; the group, as stopping leaves it. *)
Definition StopGroup (group : InstanceGroup) : M World InstanceGroup :=
  let! active := lift (HasActiveInstances group) in
  if active : bool then StopInstanceGroup e group ClearDirs [] else mret group.
Definition remove_Handle (request : CommandRequest) : M World unit :=
  let! _ := lift (no_arguments (subcommand_arguments_ request)) in
  let! _ := require_groups in
  let! group := SelectGroup e input CanShowSelectionMenu (selectors_ request) in
  let! stopped := attempt (StopGroup group) in
  let! _ := InstanceManager.RemoveInstanceGroup e (default group stopped) in
  mret tt.

(** clear.cpp *)
Definition clear_Handle (request : CommandRequest) : M World unit :=
  let! _ := lift (no_arguments (subcommand_arguments_ request)) in
  InstanceManager.Clear e.

(** stop.cpp *)
Record StopFlags := mkStopFlags { wait_for_launcher_secs : Z; clear_instance_dirs : bool }.
Definition stop_Flags : result (list (Flag StopFlags)) :=
  let* f1 := GflagsCompatFlag_int size_t (str "wait_for_launcher_seconds")
               (mkRef wait_for_launcher_secs (fun v s => mkStopFlags v (clear_instance_dirs s))) in
  let* f1 := Alias (str "wait_for_launcher") f1 in
  let* f2 := GflagsCompatFlag_bool (str "clear_instance_dirs")
               (mkRef clear_instance_dirs (fun v s => mkStopFlags (wait_for_launcher_secs s) v)) in
  Ok [f1; f2].
(** The ids of the instances with the names asked for. *)
Fixpoint named_ids (group : InstanceGroup) (names : list bytes) : result (list Z) :=
  match names with
  | [] => Ok []
  | name :: names =>
      let instances := FindByInstanceName name group in
      let* _ := expect (negb (bool_decide (instances = []))) "Instance not found in group" in
      let* rest := named_ids group names in
      Ok (omap (fun n => Instances.id <$> (Instances.instances group !! n)) instances ++ rest)
  end.
(** Metrics, which are gathered whether or not stopping went well, are left out;
    the timeout is an argument of the command that StopInstanceGroup runs. *)
Definition stop_Handle (request : CommandRequest) : M World unit :=
  let! _ := require_groups in
  let! group := SelectGroup e input CanShowSelectionMenu (selectors_ request) in
  let! active := lift (HasActiveInstances group) in
  let! _ := lift (expect active "Selected group is not running") in
  let! (flags, _) := lift (consume moved_from stop_Flags strict (mkStopFlags 5 false) (subcommand_arguments_ request)) in
  let! instance_nums := lift (match so_instance_names (selectors_ request) with
                              | Some names => named_ids group names
                              | None => Ok []
                              end) in
  let! _ := StopInstanceGroup e group (if clear_instance_dirs flags then ClearDirs else Keep) instance_nums in
  mret tt.

(** restart.cpp and powerwash.cpp *)
Record RestartOptions := mkRestartOptions { wait_for_launcher_seconds : Z; boot_timeout_seconds : Z }.
Definition restart_Flags : result (list (Flag RestartOptions)) :=
  let* f1 := GflagsCompatFlag_int int32_t (str "wait_for_launcher")
               (mkRef wait_for_launcher_seconds (fun v s => mkRestartOptions v (boot_timeout_seconds s))) in
  let* f2 := GflagsCompatFlag_int int32_t (str "boot_timeout")
               (mkRef boot_timeout_seconds (fun v s => mkRestartOptions (wait_for_launcher_seconds s) v)) in
  Ok [f1; f2].
(** The loop stops at the first other instance that is active. *)
Fixpoint other_active (id : Z) (instances : list Instance) : result bool :=
  match instances with
  | [] => Ok false
  | inst :: instances =>
      if negb (Instances.id inst =? id) then
        let* active := IsActive inst in
        if active : bool then Ok true else other_active id instances
      else other_active id instances
  end.
Definition may_restart (group : InstanceGroup) (instance : Instance) : result unit :=
  match instances group with
  | first :: _ =>
      if Instances.id instance =? Instances.id first then
        let* other := other_active (Instances.id instance) (instances group) in
        expect (negb other) "Restarting the first instance is not allowed while other instances are running."
      else Ok tt
  | [] => Ok tt
  end.

(** The connection to the launcher of an instance, with a timeout; and what
    select(2) answers and uninitialised memory holds (see ServerLoop). *)
Context {R : Type} `{IO.Reader R} {W : Type} `{IO.Writer W} (GetLauncherMonitor : InstanceGroup -> Instance -> Z -> result (R * W))
  (select : option Z -> R -> Z) (uninit : ascii) (uninit_code : Z).
Definition talk (m : Z -> Z -> M (R * W) unit) (o : RestartOptions) (group : InstanceGroup) (instance : Instance) : result unit :=
  let* monitor_socket := GetLauncherMonitor group instance (wait_for_launcher_seconds o) in
  fst (m (wait_for_launcher_seconds o) (boot_timeout_seconds o) monitor_socket).

Definition select_instance (request : CommandRequest) : M World (Instance * InstanceGroup) :=
  let! (n, group) := SelectInstance e input CanShowSelectionMenu (selectors_ request) in
  match instances group !! n with
  | Some instance => mret (instance, group)
  | None => lift (Fatal "out of range")
  end.
Definition restart_Handle (request : CommandRequest) : M World unit :=
  let! (options, _) := lift (consume moved_from restart_Flags strict (mkRestartOptions 30 500) (subcommand_arguments_ request)) in
  let! (instance, group) := select_instance request in
  let! _ := lift (may_restart group instance) in
  lift (talk (ServerLoop.Restart select uninit uninit_code) options group instance).
Definition powerwash_Handle (request : CommandRequest) : M World unit :=
  let! (options, _) := lift (consume moved_from restart_Flags strict (mkRestartOptions 30 500) (subcommand_arguments_ request)) in
  let! (instance, group) := select_instance request in
  lift (talk (ServerLoop.PowerWash select uninit uninit_code) options group instance).

(** status.cpp *)
Record StatusCommandOptions := mkStatusOptions { status_wait : Z; status_instance_name : bytes; status_print : bool }.
Definition status_Flags : result (list (Flag StatusCommandOptions)) :=
  let* f1 := GflagsCompatFlag_int int32_t (str "wait_for_launcher")
               (mkRef status_wait (fun v s => mkStatusOptions v (status_instance_name s) (status_print s))) in
  let* f2 := GflagsCompatFlag_string (str "instance_name")
               (mkRef status_instance_name (fun v s => mkStatusOptions (status_wait s) v (status_print s))) in
  let* f3 := GflagsCompatFlag_bool (str "print")
               (mkRef status_print (fun v s => mkStatusOptions (status_wait s) (status_instance_name s) v)) in
  Ok [f1; f2; f3].
Definition status_ParseFlags (args : list bytes) : result StatusCommandOptions :=
  let* (options, _) := consume moved_from status_Flags strict (mkStatusOptions 5 [] false) args in Ok options.
Definition IdFromInstanceNameFlag (name_or_id : bytes) : result Z :=
  let '(name_or_id, _) := ConsumePrefix name_or_id (str "cvd-") in
  let '(ok, id) := SimpleAtoi (int_min unsigned) (int_max unsigned) name_or_id in
  let* _ := expect ok "--instance_name should be either cvd-<id> or id." in
  Ok id.
End handlers.

(** ** Dispatch *)
Lemma bind_concat {A B} (f : A -> list B) (l : list A) : l ≫= f = concat (f <$> l).
Proof. induction l as [|a l IH]; [done|]. cbn. by rewrite <-IH. Qed.
Lemma filter_one {A B} `{EqDecision B} (f : A -> list B) (x : B) (l : list A) :
  NoDup (l ≫= f) ->
  base.filter (fun a => x ∈ f a) l = [] \/ exists a, base.filter (fun a => x ∈ f a) l = [a] /\ a ∈ l /\ x ∈ f a.
Proof.
  induction l as [|a l IH]; [by left|]. cbn [mbind list_bind]. intros (_ & Hd & Hn)%NoDup_app.
  rewrite filter_cons. destruct (decide (x ∈ f a)) as [Hx|Hx].
  - right. exists a. split_and!; [|left|done]. f_equal. destruct (IH Hn) as [->|(b & _ & Hb & Hxb)]; [done|].
    destruct (Hd x Hx). apply list_elem_of_bind. eauto.
  - destruct (IH Hn) as [->|(b & -> & Hb & Hxb)]; [by left|]. right. exists b. split_and!; [done|by right|done].
Qed.

(** For every subcommand at most one handler can be meant: the handler found is one that
    lists the subcommand, and without one the only error is that there is no such command. *)
Theorem one_handler {W} (handlers : list (CvdCommandHandler W)) (request : CommandRequest) :
  CmdList <$> handlers = command_lists ->
  match RequestHandler request handlers with
  | Ok handler => handler ∈ handlers /\ subcommand_ request ∈ CmdList handler
  | Err m => m = "Unable to find matching command" /\ (subcommand_ request ∉ concat command_lists)
  | _ => False
  end.
Proof.
  intros Hl. assert (Hbind : handlers ≫= CmdList = concat command_lists) by (by rewrite <-Hl, bind_concat).
  assert (Hnd : NoDup (handlers ≫= CmdList)) by (rewrite Hbind; apply (bool_decide_unpack _); vm_compute; exact I).
  unfold RequestHandler.
  rewrite (list_filter_iff _ (fun h => subcommand_ request ∈ CmdList h)) by (intros h; unfold CanHandle; by rewrite bool_decide_eq_true).
  destruct (filter_one CmdList (subcommand_ request) handlers Hnd) as [E|(h & -> & Hin & Hx)]; [|done]. rewrite E.
  split; [done|]. rewrite <-Hbind, list_elem_of_bind. intros (h & Hx & Hh).
  assert (Hf : h ∈ base.filter (fun h => subcommand_ request ∈ CmdList h) handlers) by (by apply list_elem_of_filter).
  rewrite E in Hf. by apply elem_of_nil in Hf.
Qed.

(** ** What [ConsumeFlags] leaves *)
Section consumed.
Context `{Absl} (moved_from : bytes -> bytes) {S : Type}.
Implicit Types (flags : list (Flag S)) (s : S).

Lemma consume_list_of flags opts s args s' args' :
  stop_at_double_dashes opts = false -> zlen args < 2 ^ 64 ->
  consume moved_from (Ok flags) opts s args = Ok (s', args') ->
  exists todo, consume_list flags opts args s = (Ok tt, s', args', todo).
Proof.
  intros Hopts Hlen. unfold consume. cbn [rbind]. rewrite ConsumeFlags_loop by done. unfold consume_spec.
  destruct (check_aliases [] _); try done. unfold before_dashes, after_dashes. rewrite Hopts.
  destruct (consume_list flags opts args s) as [[[r s1] kept] todo]. destruct r as [[]| | |]; try done.
  cbn [tail]. rewrite app_nil_r. intros [= <- <-]. eauto.
Qed.

Lemma kept_sublist flags opts args s s' kept todo :
  consume_list flags opts args s = (Ok tt, s', kept, todo) -> sublist kept args.
Proof.
  revert s s' kept todo. induction args as [args IH] using (induction_ltof1 _ length). unfold ltof in IH.
  destruct args as [|arg rest]; intros s s' kept todo; cbn [consume_list].
  { intros [= _ <- _]. constructor. }
  destruct (match_flags flags arg rest s) as [[n| | |] s1]; try done.
  destruct (n =? 0).
  - destruct (fail_on_unexpected_argument opts); [done|].
    destruct (consume_list flags opts rest s1) as [[[r s2] k] t] eqn:E. intros [= -> <- <- <-].
    apply sublist_skip. eapply IH; [cbn; lia|exact E].
  - destruct (n =? 1).
    + intros E. apply sublist_cons. eapply IH; [cbn; lia|exact E].
    + destruct rest as [|v rest]; [intros [= _ <- _]; apply sublist_nil_l|].
      intros E. apply sublist_cons, sublist_cons. eapply IH; [cbn; lia|exact E].
Qed.

(** An argument that the flags do not pass over. *)
Definition taken (flags : list (Flag S)) (x : bytes) : Prop :=
  forall rest s n s', match_flags flags x rest s = (Ok n, s') -> n <> 0.
Lemma taken_shortens flags opts args s s' kept todo x :
  consume_list flags opts args s = (Ok tt, s', kept, todo) -> x ∈ args -> taken flags x ->
  (length kept < length args)%nat.
Proof.
  revert s kept. induction args as [|arg rest IH]; intros s kept; cbn [consume_list]; [by intros _ ?%elem_of_nil|].
  destruct (match_flags flags arg rest s) as [[n| | |] s1] eqn:Em; try done.
  destruct (Z.eqb_spec n 0) as [->|Hn].
  - destruct (fail_on_unexpected_argument opts); [done|].
    destruct (consume_list flags opts rest s1) as [[[r s2] k] t] eqn:E. intros [= -> -> <- ->] Hx Ht.
    apply elem_of_cons in Hx as [->|Hx]; [by apply Ht in Em|]. cbn. apply IH in E; [lia|done..].
  - intros Hc Hx Ht. destruct (n =? 1).
    + apply kept_sublist, sublist_length in Hc. cbn. lia.
    + destruct rest as [|v rest]; [injection Hc as _ <- _; cbn; lia|].
      apply kept_sublist, sublist_length in Hc. cbn. lia.
Qed.

(** A string flag wants exactly the spellings of its names. *)
Definition wants (flag : Flag S) (arg : bytes) : Prop :=
  exists cur alias, ConsumeDashes arg = (cur, true) /\ alias ∈ aliases_ flag /\
    (matches_assignment cur alias = true \/ MatchNormalized cur alias = true).

Lemma match_assignment_none flag cur aliases s s' :
  match_assignment flag cur aliases s = (Ok None, s') ->
  s' = s /\ Forall (fun alias => matches_assignment cur alias = false) aliases.
Proof.
  induction aliases as [|alias aliases IH]; cbn [match_assignment]; [intros [= <-]; split; [done|constructor]|].
  destruct (matches_assignment cur alias) eqn:E; [|intros Hm; destruct (IH Hm); split; [done|by constructor]].
  unfold mbind, lift, mret. destruct (substr_from _ _); try done. destruct (SetAndValidate _ _ _) as [[]]; done.
Qed.
Lemma match_following_zero flag cur rest aliases s s' :
  match_following flag cur rest aliases s = (Ok 0, s') ->
  s' = s /\ Forall (fun alias => MatchNormalized cur alias = false) aliases.
Proof.
  induction aliases as [|alias aliases IH]; cbn [match_following]; [intros [= <-]; split; [done|constructor]|].
  destruct (MatchNormalized cur alias) eqn:E; cbn [negb]; [|intros Hm; destruct (IH Hm); split; [done|by constructor]].
  destruct rest as [|v rest]; [done|]. unfold mbind, mret. destruct (SetAndValidate _ _ _) as [[]]; done.
Qed.
Lemma match_zero flag arg rest s s' :
  style_ flag = Style_String -> Match flag arg rest s = (Ok 0, s') -> s' = s /\ ~ wants flag arg.
Proof.
  intros Hst. unfold Match, MatchStringStyleFlag. rewrite Hst. unfold wants.
  destruct (ConsumeDashes arg) as [cur []] eqn:Ed; cbn [negb]; [|intros [= <-]; split; [done|]; by intros (? & ? & [=] & _)].
  unfold mbind. destruct (match_assignment flag cur (aliases_ flag) s) as [[[n|]| | |] s1] eqn:Ea; try done.
  - intros [= -> ->]. exfalso. by apply match_assignment_range in Ea as [?|?].
  - apply match_assignment_none in Ea as [-> Ha]. intros [-> Hf]%match_following_zero. split; [done|].
    intros (cur' & alias & [= <-] & Hin & Hor). rewrite Forall_forall in Ha, Hf. rewrite (Ha _ Hin), (Hf _ Hin) in Hor. by destruct Hor.
Qed.
Lemma match_unwanted flag arg rest s :
  style_ flag = Style_String -> ~ wants flag arg -> Match flag arg rest s = (Ok 0, s).
Proof.
  intros Hst Hw. unfold Match, MatchStringStyleFlag. rewrite Hst.
  destruct (ConsumeDashes arg) as [cur []] eqn:Ed; [|done]. cbn [negb].
  assert (Ha : forall alias, alias ∈ aliases_ flag -> matches_assignment cur alias = false /\ MatchNormalized cur alias = false).
  { intros alias Hin. split; apply not_true_iff_false; intros Ht; apply Hw; exists cur, alias; auto. }
  unfold mbind.
  assert (match_assignment flag cur (aliases_ flag) s = (Ok None, s)) as ->.
  { revert Ha. generalize (aliases_ flag). induction l as [|alias l IH]; intros Ha; [done|]. cbn [match_assignment].
    rewrite (proj1 (Ha alias ltac:(left))). apply IH. intros a Hin. apply Ha. by right. }
  revert Ha. generalize (aliases_ flag). induction l as [|alias l IH]; intros Ha; [done|]. cbn [match_following].
  rewrite (proj2 (Ha alias ltac:(left))). cbn [negb]. apply IH. intros a Hin. apply Ha. by right.
Qed.

Lemma match_flags_zero flags arg rest s s' :
  Forall (fun f => style_ f = Style_String) flags -> match_flags flags arg rest s = (Ok 0, s') ->
  s' = s /\ Forall (fun f => ~ wants f arg) flags.
Proof.
  induction 1 as [|f flags Hf _ IH]; cbn [match_flags]; [intros [= <-]; split; [done|constructor]|].
  unfold mbind. destruct (Match f arg rest s) as [[n| | |] s1] eqn:E; try done. destruct (Z.eqb_spec n 0) as [->|Hn].
  - apply match_zero in E as [-> Hw]; [|done]. intros [-> Hall]%IH. split; [done|by constructor].
  - by intros [= -> _].
Qed.
Lemma kept_unwanted flags opts args s s' kept todo :
  Forall (fun f => style_ f = Style_String) flags -> consume_list flags opts args s = (Ok tt, s', kept, todo) ->
  Forall (fun arg => Forall (fun f => ~ wants f arg) flags) kept.
Proof.
  intros Hf. revert s s' kept todo. induction args as [args IH] using (induction_ltof1 _ length). unfold ltof in IH.
  destruct args as [|arg rest]; intros s s' kept todo; cbn [consume_list].
  { intros [= _ <- _]. constructor. }
  destruct (match_flags flags arg rest s) as [[n| | |] s1] eqn:Em; try done.
  destruct (Z.eqb_spec n 0) as [->|Hn].
  - destruct (fail_on_unexpected_argument opts); [done|].
    destruct (consume_list flags opts rest s1) as [[[r s2] k] t] eqn:E. intros [= -> <- <- <-].
    constructor; [by apply match_flags_zero in Em as [_ ?]|]. eapply (IH rest); [cbn; lia|exact E].
  - destruct (n =? 1).
    + intros E. eapply (IH rest); [cbn; lia|exact E].
    + destruct rest as [|v rest]; [intros [= _ <- _]; constructor|]. intros E. eapply (IH rest); [cbn; lia|exact E].
Qed.

(** A property of the variables that no flag breaks on the arguments at hand. *)
Lemma consume_keeps flags opts args s s' kept todo (P : S -> Prop) :
  (forall arg rest s n s', arg ∈ args -> P s -> match_flags flags arg rest s = (Ok n, s') -> P s') ->
  consume_list flags opts args s = (Ok tt, s', kept, todo) -> P s -> P s'.
Proof.
  clear moved_from. revert s s' kept todo. induction args as [args IH] using (induction_ltof1 _ length). unfold ltof in IH.
  destruct args as [|arg rest]; intros s s' kept todo Hm; cbn [consume_list].
  { by intros [= <- _ _]. }
  destruct (match_flags flags arg rest s) as [[n| | |] s1] eqn:Em; try done. intros Hc HP.
  assert (HP1 : P s1) by (eapply Hm; [left|exact HP|exact Em]).
  assert (Hrest : forall l, l ⊆ rest -> (forall arg0 rest0 s0 n0 s0', arg0 ∈ l -> P s0 -> match_flags flags arg0 rest0 s0 = (Ok n0, s0') -> P s0')).
  { intros l Hl a r0 s0 n0 s0' Ha. apply Hm. right. by apply Hl. }
  destruct (n =? 0).
  - destruct (fail_on_unexpected_argument opts); [done|].
    destruct (consume_list flags opts rest s1) as [[[r s2] k] t] eqn:E. injection Hc as -> <- <- <-.
    eapply (IH rest); [cbn; lia|by apply Hrest|exact E|done].
  - destruct (n =? 1).
    + eapply (IH rest); [cbn; lia|by apply Hrest|exact Hc|done].
    + destruct rest as [|v rest]; [by injection Hc as <- _ _|].
      eapply (IH rest); [cbn; lia|apply (Hrest rest); set_solver|exact Hc|done].
Qed.
End consumed.

(** ** Asking for help *)
Section help.
Context `{Absl} (moved_from : bytes -> bytes).

Lemma parse_yes : ParseFlagValue (FlagValue := FlagValue_bool) (str "yes") = Ok true.
Proof.
  cbn [ParseFlagValue FlagValue_bool]. rewrite (proj2 (SimpleAtob_true (str "yes") true)); [done|].
  apply (bool_decide_unpack _). vm_compute. exact I.
Qed.
Lemma bool_flag_shape {S} name (value : ref S bool) f :
  GflagsCompatFlag_bool name value = Ok f ->
  style_ f = Style_Bool /\ aliases_ f = [name] /\ validators_ f = [] /\
  setter_ f = fun arg => assign_to value (ParseFlagValue (FlagValue := FlagValue_bool) arg).
Proof.
  unfold GflagsCompatFlag_bool, BoolFlag, Flag_. rewrite !rbind_ok. intros (f0 & Hf0 & [= <-]).
  rewrite rbind_ok in Hf0. destruct Hf0 as (u & _ & [= <-]). by split_and!.
Qed.
Lemma bool_flag_named {S} name (value : ref S bool) f rest s :
  GflagsCompatFlag_bool name value = Ok f -> starts_with [dash] name = false ->
  exists s', Match f (str "--" ++ name) rest s = (Ok 1, s').
Proof.
  intros (Hst & Hal & Hv & Hset)%bool_flag_shape Hn. unfold Match, MatchBoolStyleFlag. rewrite Hst, Hal.
  rewrite ConsumeDashes_spec by (done || by right). cbn [negb match_bool].
  rewrite matches_assignment_short by done.
  rewrite MatchNormalized_spec, bool_decide_eq_true_2 by done.
  unfold mbind at 1, SetAndValidate. unfold mbind at 1. rewrite Hset, parse_yes. unfold assign_to. rewrite Hv. eexists. reflexivity.
Qed.

Lemma help_taken fs : help_flags = Ok fs -> taken fs (str "--help").
Proof.
  unfold help_flags. cbn [help_bool_opts fmap list_fmap app build_flags]. rewrite rbind_ok. intros (f0 & Hf0 & Hr).
  rewrite rbind_ok in Hr. destruct Hr as (fs' & _ & [= <-]). intros rest s n s'. cbn [match_flags]. unfold mbind.
  destruct (bool_flag_named (str "help") placeholder_bool f0 rest s Hf0 eq_refl) as (s1 & E).
  change (str "--help") with (str "--" ++ str "help"). rewrite E. by intros [= <- _].
Qed.
Lemma HasHelpFlag_help args : zlen args < 2 ^ 64 -> str "--help" ∈ args -> HasHelpFlag moved_from args <> Ok false.
Proof.
  intros Hlen Hin. unfold HasHelpFlag. destruct help_flags as [fs| | |] eqn:Eh; try done.
  rewrite rbind_ok. intros ([s' kept] & Hc & Hk). apply consume_list_of in Hc as (todo & Hc); [|done..].
  apply (taken_shortens _ _ _ _ _ _ _ (str "--help")) in Hc; [|done|by apply help_taken].
  injection Hk as Hk. apply negb_false_iff, Z.eqb_eq in Hk. unfold zlen in Hk. lia.
Qed.
End help.

(** A command line with --help after its subcommand never runs the command, whatever the
    other arguments are: provided that printing help changes nothing, nothing is changed. *)
Theorem help_changes_nothing {W} `{Absl} (moved_from : bytes -> bytes) enforce (handlers : list (CvdCommandHandler W)) args env selectors w :
  (forall handler request w, handler ∈ handlers -> snd (DetailedHelp handler request w) = w) ->
  zlen args < 2 ^ 64 -> str "--help" ∈ drop 2 args ->
  snd (HandleCommand moved_from enforce handlers args env selectors w) = w.
Proof.
  intros Hpure Hlen Hin. unfold HandleCommand. unfold mbind at 1, lift at 1.
  destruct (new_request moved_from args env selectors) as [request| | |] eqn:Er; try done.
  assert (Hsub : str "--help" ∈ subcommand_arguments_ request /\ zlen (subcommand_arguments_ request) < 2 ^ 64).
  { unfold new_request in Er. destruct args as [|program rest]; [by apply elem_of_nil in Hin|]. destruct rest as [|a rest]; [by apply elem_of_nil in Hin|].
    rewrite !zlen_cons in Hlen. cbn [drop] in Hin.
    destruct (bool_decide _), (HasHelpFlag moved_from [_]) as [help| | |]; simplify_eq; cbn [subcommand_arguments_];
      rewrite ?zlen_cons; (split; [|lia]); (done || by right). }
  destruct Hsub as [Hsub Hsublen]. pose proof (HasHelpFlag_help moved_from _ Hsublen Hsub) as Hhelp.
  unfold mbind at 1, lift at 1. destruct (RequestHandler request handlers) as [handler| | |] eqn:Eh; try done.
  unfold mbind at 1, lift at 1. destruct (HasHelpFlag moved_from (subcommand_arguments_ request)) as [[]| | |]; try done.
  assert (Hmem : handler ∈ handlers).
  { unfold RequestHandler in Eh. destruct (base.filter _ handlers) as [|h [|]] eqn:Ef; simplify_eq.
    apply (list_elem_of_filter (fun h => CanHandle h request = true)). rewrite Ef. left. }
  specialize (Hpure handler request w Hmem). unfold mbind, mret. by destruct (DetailedHelp handler request w) as [[] w'].
Qed.

(** ** Selectors are taken wherever they stand *)
Section status.
Context `{Absl} (moved_from : bytes -> bytes).

(** Matching changes variables only through the setter. *)
Lemma match_keeps {S} (f : Flag S) (P : S -> Prop) arg rest s r s' :
  (forall v s, P s -> P (snd (setter_ f v s))) -> validators_ f = [] ->
  Match f arg rest s = (r, s') -> P s -> P s'.
Proof.
  intros Hset Hv Hm HP. assert (Hsv : forall v s, P s -> P (snd (SetAndValidate f v s))).
  { intros v s0 H0. specialize (Hset v s0 H0). unfold SetAndValidate, mbind. rewrite Hv.
    by destruct (setter_ f v s0) as [[] ?]. }
  assert (Ha : forall cur l s0, P s0 -> P (snd (match_assignment f cur l s0))).
  { induction l as [|alias l IH]; intros s0 H0; [done|]. cbn [match_assignment].
    destruct (matches_assignment cur alias); [|auto]. unfold mbind, lift, mret. destruct (substr_from _ _) as [v| | |]; try done.
    specialize (Hsv v s0 H0). by destruct (SetAndValidate f v s0) as [[] ?]. }
  assert (Hf : forall cur l s0, P s0 -> P (snd (match_following f cur rest l s0))).
  { induction l as [|alias l IH]; intros s0 H0; [done|]. cbn [match_following].
    destruct (MatchNormalized cur alias); cbn [negb]; [|auto]. destruct rest as [|v rest']; [done|].
    unfold mbind, mret. specialize (Hsv v s0 H0). by destruct (SetAndValidate f v s0) as [[] ?]. }
  assert (Hb : forall cur l s0, P s0 -> P (snd (match_bool f cur l s0))).
  { induction l as [|alias l IH]; intros s0 H0; [done|]. cbn [match_bool]. unfold mbind, lift, mret.
    destruct (matches_assignment cur alias).
    { destruct (substr_from _ _) as [v| | |]; try done. specialize (Hsv v s0 H0). by destruct (SetAndValidate f v s0) as [[] ?]. }
    destruct (MatchNormalized cur alias).
    { specialize (Hsv (str "yes") s0 H0). by destruct (SetAndValidate f _ s0) as [[] ?]. }
    destruct (MatchNormalized cur _); [|auto]. specialize (Hsv (str "no") s0 H0). by destruct (SetAndValidate f _ s0) as [[] ?]. }
  replace s' with (snd (Match f arg rest s)) by (by rewrite Hm). unfold Match.
  destruct (style_ f).
  - unfold MatchStringStyleFlag. destruct (ConsumeDashes arg) as [cur []]; [|done]. cbn [negb]. unfold mbind.
    specialize (Ha cur (aliases_ f) s HP). destruct (match_assignment f cur (aliases_ f) s) as [[[n|]| | |] s1]; try done. auto.
  - unfold MatchBoolStyleFlag. destruct (ConsumeDashes arg) as [cur []]; [|done]. cbn [negb]. auto.
Qed.

Lemma string_flag_shape {S} name (value : ref S bytes) f :
  GflagsCompatFlag_string name value = Ok f ->
  style_ f = Style_String /\ aliases_ f = [name] /\ validators_ f = [].
Proof.
  unfold GflagsCompatFlag_string, StringFlag, Flag_. rewrite !rbind_ok. intros (f0 & Hf0 & [= <-]).
  rewrite rbind_ok in Hf0. destruct Hf0 as (u & _ & [= <-]). by split_and!.
Qed.
Lemma int_flag_shape {S} t name (value : ref S Z) f :
  GflagsCompatFlag_int t name value = Ok f ->
  validators_ f = [] /\ forall v s, exists z, snd (setter_ f v s) = store value z s.
Proof.
  unfold GflagsCompatFlag_int, StringFlag, Flag_. rewrite !rbind_ok. intros (f0 & Hf0 & [= <-]).
  rewrite rbind_ok in Hf0. destruct Hf0 as (u & _ & [= <-]). split; [done|]. intros v s. cbn [setter_ Setter].
  destruct (SimpleAtoi _ _ v) as [ok z]. exists z. done.
Qed.

Lemma optional_flag_shape {S T} `{FV : FlagValue T} name (value : ref S (option T)) opt f :
  GflagsCompatFlag_optional name value opt = Ok f -> style_ f = Style_String /\ aliases_ f = [name].
Proof.
  unfold GflagsCompatFlag_optional, StringFlag, Flag_. rewrite !rbind_ok. intros (f0 & Hf0 & [= <-]).
  rewrite rbind_ok in Hf0. destruct Hf0 as (u & _ & [= <-]). by split.
Qed.
Lemma selector_flags_shape fs :
  BuildCommonSelectorFlags = Ok fs ->
  exists g i, fs = [g; i] /\ style_ g = Style_String /\ style_ i = Style_String /\ str "instance_name" ∈ aliases_ i.
Proof.
  unfold BuildCommonSelectorFlags, GflagsCompatFlag_opt_strings, Alias. rewrite rbind_ok. intros (g & Hg & E).
  rewrite rbind_ok in E. destruct E as (i & Hi & E). rewrite rbind_ok in Hi. destruct Hi as (i0 & Hi0 & [= <-]).
  rewrite rbind_ok in E. destruct E as (i & Hi & [= <-]). rewrite rbind_ok in Hi. destruct Hi as (u & _ & [= <-]).
  apply optional_flag_shape in Hg as [Hg _]. apply optional_flag_shape in Hi0 as [Hst Hal].
  eexists _, _. split_and!; [reflexivity|exact Hg|exact Hst|]. cbn [aliases_ AddValidator]. apply elem_of_app. left.
  change (aliases_ (WithVectorNameValueHint i0)) with (aliases_ i0). rewrite Hal. left.
Qed.

Lemma wants_aliases {S T} (f : Flag S) (g : Flag T) arg : aliases_ f ⊆ aliases_ g -> wants f arg -> wants g arg.
Proof. intros Hsub (cur & alias & ? & Hin & ?). exists cur, alias. split_and!; [done|by apply Hsub|done]. Qed.
Lemma ExtractCvdArgs_ok args o args' :
  ExtractCvdArgs moved_from args = Ok (o, args') ->
  exists program rest fs kept, args = program :: rest /\ args' = program :: kept /\ BuildCommonSelectorFlags = Ok fs /\
    consume moved_from (Ok fs) lenient no_selectors rest = Ok (o, kept).
Proof.
  destruct args as [|program rest]; [discriminate|]. cbn [ExtractCvdArgs].
  destruct (consume moved_from BuildCommonSelectorFlags lenient no_selectors rest) as [[o' kept]| | |] eqn:E; cbn [rbind];
    intros He; [|discriminate..]. injection He as -> <-.
  destruct BuildCommonSelectorFlags as [fs| | |]; [|discriminate..]. exists program, rest, fs, kept. auto.
Qed.
Lemma extracted_unwanted args o args' {S} (f : Flag S) :
  zlen args < 2 ^ 64 -> ExtractCvdArgs moved_from args = Ok (o, args') -> aliases_ f = [str "instance_name"] ->
  exists program kept, args' = program :: kept /\ Forall (fun arg => ~ wants f arg) kept /\ zlen kept < 2 ^ 64.
Proof.
  intros Hlen (program & rest & fs & kept & -> & -> & Hfs & Hc)%ExtractCvdArgs_ok Hal. exists program, kept. split; [done|].
  rewrite zlen_cons in Hlen. destruct (consume_list_of moved_from fs lenient no_selectors rest o kept eq_refl ltac:(lia) Hc) as (todo & Hl).
  destruct (selector_flags_shape fs Hfs) as (g & i & -> & Hg & Hi & Hin).
  pose proof (sublist_length _ _ (kept_sublist _ _ _ _ _ _ _ Hl)) as Hlen'. split; [|unfold zlen in *; lia].
  apply kept_unwanted in Hl; [|by repeat constructor]. eapply Forall_impl; [exact Hl|].
  intros arg Hw Hwant. apply Forall_cons in Hw as [_ [Hw _]%Forall_cons]. apply Hw.
  eapply wants_aliases; [|exact Hwant]. rewrite Hal. intros x ->%list_elem_of_singleton. done.
Qed.
Lemma status_ParseFlags_ok args options :
  status_ParseFlags moved_from args = Ok options ->
  exists fs rest, status_Flags = Ok fs /\ consume moved_from (Ok fs) strict (mkStatusOptions 5 [] false) args = Ok (options, rest).
Proof.
  unfold status_ParseFlags.
  destruct (consume moved_from status_Flags strict (mkStatusOptions 5 [] false) args) as [[o rest]| | |] eqn:E; cbn [rbind];
    intros He; [|discriminate..]. injection He as ->.
  destruct status_Flags as [fs| | |]; [|discriminate..]. exists fs, rest. auto.
Qed.
Lemma status_Flags_shape fs :
  status_Flags = Ok fs ->
  exists f1 f2 f3, fs = [f1; f2; f3] /\ style_ f2 = Style_String /\ aliases_ f2 = [str "instance_name"] /\
    (forall arg rest s r s', Match f1 arg rest s = (r, s') -> status_instance_name s = [] -> status_instance_name s' = []) /\
    (forall arg rest s r s', Match f3 arg rest s = (r, s') -> status_instance_name s = [] -> status_instance_name s' = []).
Proof.
  unfold status_Flags. rewrite rbind_ok. intros (f1 & Hf1 & Ef). rewrite rbind_ok in Ef. destruct Ef as (f2 & Hf2 & Ef).
  rewrite rbind_ok in Ef. destruct Ef as (f3 & Hf3 & [= <-]).
  apply int_flag_shape in Hf1 as [Hv1 Hset1]. apply string_flag_shape in Hf2 as (Hst2 & Hal2 & Hv2).
  apply bool_flag_shape in Hf3 as (_ & _ & Hv3 & Hset3).
  exists f1, f2, f3. split_and!; [done..| |]; intros arg rest s r s'.
  - apply (match_keeps f1 (fun s => status_instance_name s = [])); [|done]. intros v s0 H0. by destruct (Hset1 v s0) as [z ->].
  - apply (match_keeps f3 (fun s => status_instance_name s = [])); [|done]. intros v s0 H0. rewrite Hset3.
    unfold assign_to, mbind, lift, modify. by destruct (ParseFlagValue v).
Qed.
Lemma request_arguments program kept env selectors request :
  new_request moved_from (program :: kept) env selectors = Ok request ->
  subcommand_arguments_ request ⊆ kept /\ zlen (subcommand_arguments_ request) <= zlen kept.
Proof.
  unfold new_request. destruct kept as [|a kept].
  - destruct (HasHelpFlag moved_from [_]) as [help| | |]; intros Hr; try discriminate; injection Hr as <-; done.
  - destruct (bool_decide _), (HasHelpFlag moved_from [_]) as [help| | |]; intros Hr; try discriminate;
      injection Hr as <-; cbn [subcommand_arguments_]; rewrite ?zlen_cons; (split; [set_solver|lia]).
Qed.
End status.

(** C23. Selectors are taken out of the command line wherever they stand, not only before the
    subcommand as the comment in the code says; so the flag --instance_name that the
    status subcommand documents and parses is always empty. *)
Theorem status_flag_unreachable `{Absl} (moved_from : bytes -> bytes) args env selectors args' request options :
  zlen args < 2 ^ 64 ->
  ExtractCvdArgs moved_from args = Ok (selectors, args') ->
  new_request moved_from args' env selectors = Ok request ->
  status_ParseFlags moved_from (subcommand_arguments_ request) = Ok options ->
  status_instance_name options = [].
Proof.
  intros Hlen He Hr Hs. destruct (status_ParseFlags_ok moved_from _ _ Hs) as (fs & rest & Hfs & Hc).
  destruct (status_Flags_shape fs Hfs) as (f1 & f2 & f3 & -> & Hst2 & Hal2 & Hk1 & Hk3).
  destruct (extracted_unwanted moved_from args selectors args' f2 Hlen He Hal2) as (program & kept & -> & Hun & Hk).
  destruct (request_arguments moved_from program kept env selectors request Hr) as [Hsub Hle]. rewrite Forall_forall in Hun.
  destruct (consume_list_of moved_from [f1; f2; f3] strict (mkStatusOptions 5 [] false) (subcommand_arguments_ request) options rest eq_refl
    ltac:(lia) Hc) as (todo & Hl).
  eapply consume_keeps with (P := fun s => status_instance_name s = []); [|exact Hl|reflexivity].
  intros arg rest0 s n s' Hin HP. cbn [match_flags]. unfold mbind.
  destruct (Match f1 arg rest0 s) as [r1 s1] eqn:E1. apply Hk1 in E1; [|done].
  destruct r1 as [n1| | |]; try done. destruct (n1 =? 0); [|by intros [= _ <-]].
  rewrite (match_unwanted f2) by (done || by apply Hun, Hsub). cbn [Z.eqb].
  destruct (Match f3 arg rest0 s1) as [r3 s3] eqn:E3. apply Hk3 in E3; [|done].
  destruct r3 as [n3| | |]; try done. destruct (n3 =? 0); by intros [= _ <-].
Qed.

(** ** Removing a group that runs *)
Section remove.
Context `{Absl} `{Codec} (e : InstanceManager.Env).

Lemma stop_failed g a nums (w w' : World) m :
  StopInstanceGroup e g a nums w = (Err m, w') -> db w' = db w /\ locks w' = locks w.
Proof.
  unfold StopInstanceGroup, mbind, lift, modify, mret, attempt.
  destruct (expect _ _); try done; [|by intros [= _ <-]].
  destruct (StopBin e (host_artifacts_path g)); try done; [|by intros [= _ <-]].
  destruct (RunStopCvd e (home_directory g) nums); try done; [|by intros [= _ <-]].
  destruct (UpdateInstanceGroup _ _ _) as [[]]; done.
Qed.
Lemma stop_all_result g a (w w' : World) g' :
  StopInstanceGroup e g a [] w = (Ok g', w') -> g' = SetAllStates INSTANCE_STATE_STOPPED g.
Proof.
  unfold StopInstanceGroup, mbind, lift, modify, mret, attempt.
  destruct (expect _ _); try done. destruct (StopBin e (host_artifacts_path g)); try done.
  destruct (RunStopCvd e (home_directory g) []); try done. destruct (UpdateInstanceGroup _ _ _) as [[]]; try done; by intros [= <- _].
Qed.
Lemma stopped_inactive g : HasActiveInstances (SetAllStates INSTANCE_STATE_STOPPED g) = Ok false.
Proof.
  unfold HasActiveInstances. destruct g as [gn hd ha pp st is_]. cbn. induction is_ as [|i is_ IH]; [done|]. cbn. exact IH.
Qed.
End remove.

(** Removing a group that runs: when it cannot be stopped the command fails, with the
    database and the lock files as they were; when it was stopped, removal goes on with a
    group that has no active instance. *)
Theorem remove_running_group `{Absl} `{Codec} (e : InstanceManager.Env) input menu moved_from request w w0 w1 group :
  no_arguments moved_from (subcommand_arguments_ request) = Ok tt ->
  require_groups e w = (Ok tt, w0) ->
  SelectGroup e input menu (selectors_ request) w0 = (Ok group, w1) ->
  HasActiveInstances group = Ok true ->
  (forall m w2, StopInstanceGroup e group ClearDirs [] w1 = (Err m, w2) ->
     remove_Handle e input menu moved_from request w = (Err "Group still contains active instances", w2) /\
     db w2 = db w1 /\ locks w2 = locks w1) /\
  (forall g w2, StopInstanceGroup e group ClearDirs [] w1 = (Ok g, w2) ->
     remove_Handle e input menu moved_from request w =
       (let! _ := InstanceManager.RemoveInstanceGroup e g in mret tt) w2 /\
     HasActiveInstances g = Ok false).
Proof.
  intros Hargs Hreq Hsel Hact.
  assert (Hrun : remove_Handle e input menu moved_from request w =
    (let! stopped := attempt (StopGroup e group) in
     let! _ := InstanceManager.RemoveInstanceGroup e (default group stopped) in mret tt) w1).
  { unfold remove_Handle. rewrite Hargs. rewrite (mbind_run (lift (Ok tt)) _ w (Ok tt) w) by done.
    rewrite (mbind_run _ _ _ _ _ Hreq). by rewrite (mbind_run _ _ _ _ _ Hsel). }
  assert (Hstop1 : StopGroup e group w1 = StopInstanceGroup e group ClearDirs [] w1).
  { unfold StopGroup. rewrite Hact. done. }
  rewrite Hrun. split.
  - intros m w2 Hstop. split; [|by eapply stop_failed].
    rewrite (mbind_run (attempt (StopGroup e group)) _ w1 (Ok None) w2) by (unfold attempt; by rewrite Hstop1, Hstop).
    cbn [default]. unfold mbind, InstanceManager.RemoveInstanceGroup, mbind, lift. by rewrite Hact.
  - intros g w2 Hstop.
    rewrite (mbind_run (attempt (StopGroup e group)) _ w1 (Ok (Some g)) w2) by (unfold attempt; by rewrite Hstop1, Hstop).
    split; [done|]. rewrite (stop_all_result e group ClearDirs w1 w2 g Hstop). apply stopped_inactive.
Qed.

(** ** Restarting *)
(** A restart that succeeds was one of an instance that the selectors gave, and the
    launcher confirmed it; the first instance of a group is only restarted when no other
    instance of it is active. *)
Theorem restart_allowed `{Absl} `{Codec} {R} `{IO.Reader R} {W} `{IO.Writer W} (e : InstanceManager.Env) input menu moved_from
    (connect : InstanceGroup -> Instance -> Z -> result (R * W)) select uninit code request w w' :
  restart_Handle e input menu moved_from connect select uninit code request w = (Ok tt, w') ->
  exists n group instance options rest w1,
    SelectInstance e input menu (selectors_ request) w = (Ok (n, group), w1) /\ instances group !! n = Some instance /\ w' = w1 /\
    consume moved_from restart_Flags strict (mkRestartOptions 30 500) (subcommand_arguments_ request) = Ok (options, rest) /\
    talk connect (ServerLoop.Restart select uninit code) options group instance = Ok tt /\
    (forall first, head (instances group) = Some first -> Instances.id first = Instances.id instance ->
       Forall (fun other => Instances.id other <> Instances.id instance -> IsActive other = Ok false) (instances group)).
Proof.
  assert (Hother : forall id l, other_active id l = Ok false -> Forall (fun o => Instances.id o <> id -> IsActive o = Ok false) l).
  { intros id l. induction l as [|o l IH]; [constructor|]. cbn [other_active]. destruct (Z.eqb_spec (Instances.id o) id) as [E|E]; cbn [negb].
    - intros Hl. constructor; [done|auto].
    - destruct (IsActive o) as [[]| | |] eqn:Ea; cbn [rbind]; intros Hl; try discriminate. constructor; [done|auto]. }
  unfold restart_Handle. unfold mbind at 1, lift at 1.
  destruct (consume moved_from restart_Flags strict _ _) as [[options rest]| | |]; try discriminate.
  unfold mbind at 1, select_instance. unfold mbind at 1.
  destruct (SelectInstance e input menu (selectors_ request) w) as [[[n group]| | |] w1]; try discriminate.
  destruct (instances group !! n) as [instance|] eqn:Ei; [|discriminate]. unfold mret at 1. unfold mbind, lift.
  destruct (may_restart group instance) as [[]| | |] eqn:Em; try discriminate.
  intros [= Ht <-]. exists n, group, instance, options, rest, w1. split_and!; [done..|].
  intros first Hf Hid. unfold may_restart in Em. destruct (instances group) as [|x l]; [done|]. injection Hf as ->.
  rewrite Hid, Z.eqb_refl in Em. rewrite rbind_ok in Em. destruct Em as (b & Hb & Hx). destruct b; [discriminate|]. auto.
Qed.

(** ** Examples *)
(** Handlers that only count how often they were called. *)
Definition counting : list (CvdCommandHandler Z) :=
  (fun l => mkHandler l false (fun _ n => (Ok tt, n + 1)) (fun _ n => (Ok (str "help"), n))) <$> command_lists.
Lemma one_handler_witness : exists handler,
  RequestHandler (mkRequest [] ∅ no_selectors (str "rm") []) counting = Ok handler /\ str "rm" ∈ CmdList handler.
Proof.
  pose proof (one_handler counting (mkRequest [] ∅ no_selectors (str "rm") []) eq_refl) as Hone.
  destruct (RequestHandler _ counting) as [handler|m| |]; [exists handler; split; [reflexivity|apply Hone]| |destruct Hone..].
  destruct Hone as [_ Hn]. destruct Hn. apply (bool_decide_unpack _). vm_compute. exact I.
Defined.
Lemma help_changes_nothing_witness :
  snd (HandleCommand (fun s => s) (Err "not configured") counting [str "/usr/bin/cvd"; str "reset"; str "-y"; str "--help"] ∅ no_selectors 0) = 0.
Proof.
  apply (help_changes_nothing (fun s => s) (Err "not configured") counting [str "/usr/bin/cvd"; str "reset"; str "-y"; str "--help"] ∅ no_selectors 0).
  - intros handler request w (l & -> & _)%list_elem_of_fmap. reflexivity.
  - vm_compute. reflexivity.
  - apply (bool_decide_unpack _). vm_compute. exact I.
Defined.
(** The selector takes the flag of the subcommand, and is refused as a name. *)
Definition status_args : list bytes := [str "cvd"; str "status"; str "--instance_name=one"; str "--print"].
Lemma status_flag_unreachable_witness : status_instance_name (mkStatusOptions 5 [] true) = [].
Proof.
  apply (status_flag_unreachable (fun s => s) status_args ∅ (mkSelectors None (Some [str "one"])) [str "cvd"; str "status"; str "--print"]
    (mkRequest [str "cvd"; str "status"; str "--print"] ∅ (mkSelectors None (Some [str "one"])) (str "status") [str "--print"])).
  - vm_compute. reflexivity.
  - vm_compute. reflexivity.
  - vm_compute. reflexivity.
  - vm_compute. reflexivity.
Defined.

Definition deaf_env : InstanceManager.Env :=
  mkEnv (str "/lock/") true (fun _ => true) no_faults 1 (str "/u") 7
    (fun _ => true) (fun _ _ => true) (fun _ => true) (fun _ => true) (fun _ => true)
    (fun x => x) (fun _ => Ok (str "/u/7")) (fun _ => Ok (str "stop_cvd")) (fun _ _ => Err "exit code") (str "cfg.json").
Definition remove_g : CommandRequest :=
  mkRequest [str "cvd"; str "rm"] ∅ (mkSelectors (Some (str "g")) None) (str "rm") [].
Lemma remove_running_group_witness : exists w2,
  remove_Handle deaf_env [] false (fun s => s) remove_g two_groups_world = (Err "Group still contains active instances", w2) /\
  db w2 = db two_groups_world /\ locks w2 = locks two_groups_world.
Proof.
  destruct (StopInstanceGroup deaf_env (sample_group (str "g") 1) ClearDirs [] two_groups_world) as [r w2] eqn:E.
  assert (Hr : fst (StopInstanceGroup deaf_env (sample_group (str "g") 1) ClearDirs [] two_groups_world) = Err "exit code")
    by (vm_compute; reflexivity). rewrite E in Hr. cbn [fst] in Hr. subst r.
  exists w2. refine (proj1 (remove_running_group deaf_env [] false (fun s => s) remove_g two_groups_world two_groups_world two_groups_world
    (sample_group (str "g") 1) _ _ _ _) _ _ E).
  - vm_compute. reflexivity.
  - vm_compute. reflexivity.
  - vm_compute. reflexivity.
  - reflexivity.
Defined.

Definition answered (g : InstanceGroup) (i : Instance) (timeout : Z) : result (SharedBuf.Pipe * SharedBuf.Pipe) :=
  Ok (SharedBuf.mkPipe 1 (str "S" ++ le_bytes 4 0), SharedBuf.mkPipe 1 []).
Definition restart_g : CommandRequest :=
  mkRequest [str "cvd"; str "restart"] ∅ (mkSelectors (Some (str "g")) None) (str "restart") [].
Lemma restart_allowed_witness : exists n group instance options rest w1,
  SelectInstance sample_env [] false (selectors_ restart_g) two_groups_world = (Ok (n, group), w1) /\
  instances group !! n = Some instance /\
  talk answered (ServerLoop.Restart (fun _ _ => 1) "000"%char 5) options group instance = Ok tt /\
  rest = @nil bytes.
Proof.
  destruct (restart_allowed sample_env [] false (fun s => s) answered (fun _ _ => 1) "000"%char 5 restart_g two_groups_world two_groups_world)
    as (n & group & instance & options & rest & w1 & Hs & Hi & _ & Hc & Ht & _).
  - vm_compute. reflexivity.
  - exists n, group, instance, options, rest, w1. split_and!; [exact Hs|exact Hi|exact Ht|].
    vm_compute in Hc. injection Hc as _ <-. reflexivity.
Defined.
End Cvd.
